(* ===== verification/_CoqProject ===== *)
-Q . S2P
Prelude.v
Layout.v
Dirty.v
GuestMem.v
FileRanges.v
GuestRam.v
KvmLog.v
Lazy.v
LazyProof.v
VQueue.v
VQueueWalk.v
VQueueRun.v
VQueuePeek.v
VQueuePass.v
VQueueServe.v
GuestBufs.v
Diff.v
Snapshot.v
Migration.v
LiveSnap.v
LiveGuest.v
LiveCopy.v
LiveSnapProof.v
RateLimit.v
Bus.v
Cow.v
CowWrite.v
CowOpen.v
Blk.v
BlkIov.v
Regs.v
Dev.v
Transport.v
BlkDev.v
BlkBufs.v
BlkKick.v
BlkLimit.v
BlkSnap.v
Rng.v
Net.v
NetTx.v
NetPeek.v
NetRx.v
NetTap.v
Balloon.v
VsockPacket.v
VsockState.v
Vsock.v
VsockInv.v
VsockRx.v
VsockConn.v
VsockLife.v
Aml.v
AmlParse.v
AmlProof.v
Acpi.v
AcpiProof.v
AcpiBoot.v
DsdtProof.v
AcpiDiscover.v
