(* ===== verification/Prelude.v ===== *)
(** * Tarit: a verification library for the microVM monitor

    Tarit runs virtual machines for an orchestrator. This library models the
    monitor under [src/vmm/crates] where it decides what a guest, a snapshot
    file or a peer may do: the memory of a guest and what has become dirty in
    it, the virtqueues through which untrusted drivers reach the devices, the
    block, network, entropy, balloon and socket devices behind them, the bus
    and the rate limiter around them, the ACPI tables from which the guest
    learns about them, the handler that pages in a restored guest on demand,
    and the snapshots, taken live or not, diffs and migrations that move a
    machine.

    ** Parts and how they meet

    A device is reached through the MMIO bus; a notification makes it run a
    pass over a virtqueue, which walks descriptor chains in guest memory, calls
    the device's handler on each, and reports it in the used ring. Every byte
    the host writes into guest memory is marked in the dirty tracker, from
    which diff snapshots are built; a full snapshot, the device states and the
    diffs together restore the machine, here or on a migration's destination.
    Before the guest starts, the boot code describes processors, interrupts and
    devices in ACPI tables that it writes into the same guest memory. A restored
    guest can start before its memory is there: a handler installs each page
    when it is touched, and the balloon tells it which pages must read as zeros
    instead. A live snapshot copies memory while all of this goes on, in rounds
    over the dirty pages, and stops the guest only for the last of them.

    ** Files

    - [Prelude]: Rust's integers and [Result], bytes and slices, tactics.
      [Layout]: little-endian fields of packed structures. [Dev]: the monad in
      which the devices fail, panic and change state.
    - [Dirty] ([vmm-memory-backend/src/dirty.rs]): the two dirty bitmaps and
      the KVM log. [GuestMem], [FileRanges], [GuestRam] ([backend.rs]): the
      interface of the vm-memory crate as a class with laws and an instance,
      the interval map of file-backed runs, and [GuestMemory] with the packing
      of RAM around the MMIO aperture.
    - [VQueue] (definitions), [VQueueWalk], [VQueueRun], [VQueuePeek],
      [VQueuePass], [VQueueServe] ([vmm-devices/src/virtio/vqueue.rs]): the
      processor of one queue, the chain walk, the three kinds of pass and
      notification, and the rules by which a device proves an invariant of its
      passes and what they do to each chain. [GuestBufs]: buffers of a chain as
      one run of addresses, and reading and writing along it.
    - [Cow], [CowWrite], [CowOpen] ([virtio/blk_backend.rs], [CowOverlay]): the
      copy-on-write overlay in a monad with errors, panics and a budget of
      bytes after which the host fails. [Blk] ([blk.rs], [BlkBackend]): request
      validation and [service]. [BlkIov]: reads straight into guest buffers.
    - [Transport]: the queue and negotiation registers that the block, entropy
      and network devices have in common; [Dev] also has the sequences of
      register accesses under which their invariants are stated.
    - [BlkDev] ([blk_transport.rs]): the block device as the guest sees it, its
      locks and failure included; [BlkBufs], [BlkKick], [BlkLimit], [BlkSnap]
      hold its buffers, a kick, the rate limiter and the saved state. [Rng]
      ([rng_transport.rs], [rng.rs]): the entropy device.
    - [Net] ([net_transport.rs]): the network device; [NetTx] (transmission),
      [NetPeek] (looking for receive buffers), [NetRx] (a frame that is handed
      to the device) and [NetTap] (frames read from the tap straight into
      guest memory) hold its theorems. The tap is a queue of frames with the
      answers the kernel gives.
    - [Regs], [Balloon] ([regs.rs], [balloon.rs]): the register file, inflation
      and the saved state of the balloon.
    - [VsockPacket], [VsockState], [Vsock] ([vsock.rs]): packets, the device
      with its connection table and poisonable locks, and every operation on
      it; [VsockInv], [VsockRx], [VsockConn], [VsockLife] hold the theorems on
      its invariant, its receive queue, its connections and its failure, reset
      and restore. Host sockets are the classes [HostVsockStream] and
      [HostVsockListener].
    - [Aml] ([acpi-tables/src/aml.rs]): the bytecode encoder. [AmlParse]: a
      reader for the same grammar, written from the ACPI specification; it is
      the reference for [AmlProof] and models no code. [Acpi] ([lib.rs] and one
      module per table): the tables. [AcpiBoot] ([vmm-core/src/vcpu_setup.rs],
      [vmgenid.rs]): the tables the boot code writes and the probe for them.
      [AcpiProof], [DsdtProof], [AcpiDiscover]: their theorems; the last has
      the reader of a guest that starts from the root pointer.
    - [Bus] ([bus.rs]), [RateLimit] ([rate_limit.rs]).
    - [Diff] ([vmm-snapshot/src/diff.rs]), [Snapshot] ([format.rs],
      [snapshot.rs], [restore.rs], [state.rs]), [Migration] ([live.rs],
      [clone.rs], and [state.rs], [negotiation.rs] of [vmm-migration]).
    - [KvmLog] ([kvm.rs], [kvm_dirty.rs]): the dirty log of the kernel, which is
      the class [KvmVm] with its laws and an instance. [Lazy], [LazyProof]
      ([uffd_restore.rs]): the handler of a lazily restored guest, over the
      class [UffdKernel], and its refinement of a memory that is always there.
    - [LiveSnap] ([vmm-core/src/live_snapshot.rs], [vcpu_thread.rs],
      [error.rs]): a live snapshot, and the actions of processors, devices and
      the fault handler that interleave with it. [LiveGuest], [LiveCopy],
      [LiveSnapProof]: what the actions keep, the copying of pages, and the
      theorems.

    ** What the theorems show

    - Virtqueues: a walk is bounded and its buffers are in memory even while the
      guest rewrites the descriptors; on stable memory it accepts exactly the
      well-formed chains. A pass terminates, takes every published entry,
      reports each chain once and in order, writes only where the chain allows
      and marks what it writes. Peeked receive buffers and the notification
      rule are characterised exactly.
    - Memory: translation is a bijection, marking agrees with it, writes are
      covered; the file-run map refines a partial function; the KVM log decodes
      to the pages it names.
    - Block: an overlay reads as the base until written and as written after;
      wherever the host stops a write, the overlay opens again with each byte
      old or new; one theorem shows that writes are lost after a bitmap write
      that failed; [service] refines a flat disk; the vectored read agrees with
      the buffered one under every pattern of short and interrupted reads. A
      kick serves every published request as the backend would, with its data
      and its status byte in the guest's buffers, and reports it once; a
      request the limiter refuses stays queued; a restored device behaves as
      the saved one.
    - Entropy: a kick fills every buffer with bytes of the generator that no
      other buffer gets.
    - Network: a kick puts the packet of every published chain on the tap, in
      order; a received frame arrives whole behind its header in as many
      buffers as it needs, with their number and lengths reported and the
      pages marked; frames read from the tap straight into guest memory
      arrive the same way. Two theorems show flaws: exactly when the search
      for receive buffers never ends, and that a dropped frame changes guest
      memory that is not marked.
    - Balloon: inflation releases exactly the listed pages; every sequence of
      register accesses completes and keeps the device well-formed; a restored
      device is bisimilar to the saved one. One theorem shows that page numbers
      are checked against the wrong bound when RAM continues above the
      aperture.
    - Sockets: packets round-trip; every sequence of events keeps the table
      and the queue within their caps and completes; the device does with each
      guest packet exactly what a machine of listener, table and queue says,
      answers included; stream bytes arrive in order and are counted; the receive queue is first in, first out; a failed device
      stays failed until reset; a restore resets every saved connection. One
      theorem shows that bytes are lost when the receive queue is full.
    - ACPI: the reader recovers every term, path, length and resource from its
      encoding; the DSDT lists exactly the devices it was built from, no two
      under one name; a guest
      that follows the root pointer finds every table, whole, with a valid
      checksum, and the processors it was given.
    - Bus and limiter: exact insertion and dispatch; grants are bounded by
      the capacity, or the largest request, and the elapsed time, are given
      when due, and charge both buckets or
      neither.
    - Snapshots: diffs reconstruct the last image and do not depend on set
      order; the pages a queue pass marks suffice to restore it; validation
      detects each kind of damage; the device blob round-trips.
    - Migration: the pre-copy simulation and the phases terminate; both checks
      of a negotiation request agree; clones get distinct resources.
    - Lazy restore: the guest sees the memory of the snapshot, but for what it
      wrote and what it gave back, which stays zero; every fault is resolved; a
      page that was never touched is what a fault would install.
    - Live snapshots: the image is the memory of one moment, at which the device
      state was captured; no change is lost for the next diff, whatever fails;
      processors do not run on when workers are in doubt; the snapshot ends. They
      rely on devices that mark what they store, which two paths of the devices
      do not. One theorem shows that reading the log in several slots can lose
      pages.

    ** Modelling choices

    Unsigned integers are [Z] with their range as a hypothesis or invariant and
    their wrap-around, saturation or checked failure written out; [f64] is the
    Standard Library's binary64. Bytes are [Z] and byte strings lists; hash
    maps are finite maps; a fallible function returns [result] or [option]; a
    panic is [None]. Atomics and locks are plain state, since each operation
    runs under its lock, but for live snapshots: there every step is preceded
    by a schedule of actions of the other threads, guest memory is the view that
    [LazyProof] has of it, and a loop that polls is one look after the schedule
    has brought about what it waits for or has not. Third-party code is a parameter: vm-memory, the CRC
    and postcard crates, serde's readers, and the system calls that release or
    map pages, each with the behaviour relied on as a named hypothesis that an
    instance satisfies.

    Loops that are not structural take fuel. The chain walk has the queue size
    plus one, since it stops at the size; a pass has the number of published
    entries, at most 65535; a raw pass with event indices has one unit per
    outer round, and one round is proved enough when the handler leaves the
    available index alone; the searches for receive buffers have one unit per
    look at the ring, one being enough unless they never end, which is
    characterised; reading from the tap has one unit per waiting frame and one
    more; runs of sectors and pages have the number of
    segments; [preadv] has the answers the kernel gives plus the bytes wanted;
    the simulation has the round limit; the choice of an ephemeral port has the
    number of ports; the AML reader has the number of bytes, more than any term
    in them is deep; the pass over a lazily restored guest has one unit per
    chunk of RAM. Each is proved to be enough.

    ** Not modelled

    Epoll loops and eventfds, threads but for those above, what KVM and
    userfaultfd do beyond the laws of their classes, log output, test
    failpoints, memory fences and [fsync] (the crash theorem is about a host that stops the
    process, not one that loses its page cache), and the serial device, the
    registers of virtual processors, the loader, the API,
    the jailer and the orchestrator. *)

From Stdlib Require Export ZArith Lia Bool List.
From stdpp Require Export base list list_numbers gmap sorting.

(** ** Scope and notations

    [rust_scope] holds the notations of the development: the error monad of
    [Result], written [let? x := c in k] for the [?] operator, and the same on
    [Option]. *)
Declare Scope rust_scope.
Delimit Scope rust_scope with rust.

(** [Result<A, E>]. *)
Inductive result (A E : Type) : Type :=
| Ok (a : A)
| Err (e : E).
Arguments Ok {A E} a.
Arguments Err {A E} e.

Definition result_bind {A B E : Type} (c : result A E) (k : A → result B E) : result B E :=
  match c with
  | Ok a => k a
  | Err e => Err e
  end.

(** [Option::ok_or]. *)
Definition ok_or {A E : Type} (o : option A) (e : E) : result A E :=
  match o with
  | Some a => Ok a
  | None => Err e
  end.

(** [Result::ok]. *)
Definition result_ok {A E : Type} (r : result A E) : option A :=
  match r with
  | Ok a => Some a
  | Err _ => None
  end.

Definition is_ok {A E : Type} (r : result A E) : bool :=
  match r with
  | Ok _ => true
  | Err _ => false
  end.

Notation "'let?' x := c 'in' k" := (result_bind c (fun x => k))
  (at level 10, x name, c at level 100, k at level 200,
   format "'[v' 'let?'  x  :=  c  'in' '/' k ']'") : rust_scope.
Notation "'let?o' x := c 'in' k" := (match c with Some x => k | None => None end)
  (at level 10, x name, c at level 100, k at level 200) : rust_scope.

Open Scope Z_scope.
Open Scope rust_scope.

(** ** Fixed-width integers

    A [w]-bit unsigned integer is a [Z] in [0, 2^w). The operations below are
    the ones of Rust's integer types that the sources use, with what they do
    at the ends of the range written out. *)
Definition U8_MAX : Z := 255.
Definition U16_MAX : Z := 65535.
Definition U32_MAX : Z := 4294967295.
Definition U64_MAX : Z := 18446744073709551615.

Definition in_u8 (x : Z) : Prop := 0 ≤ x ≤ U8_MAX.
Definition in_u16 (x : Z) : Prop := 0 ≤ x ≤ U16_MAX.
Definition in_u32 (x : Z) : Prop := 0 ≤ x ≤ U32_MAX.
Definition in_u64 (x : Z) : Prop := 0 ≤ x ≤ U64_MAX.

(** [u64::checked_add], [checked_sub], [checked_mul] (also [usize]'s on a
    64-bit host). *)
Definition u64_checked_add (a b : Z) : option Z :=
  if a + b <=? U64_MAX then Some (a + b) else None.
Definition u64_checked_sub (a b : Z) : option Z :=
  if b <=? a then Some (a - b) else None.
Definition u64_checked_mul (a b : Z) : option Z :=
  if a * b <=? U64_MAX then Some (a * b) else None.

(** [u64::saturating_add], [saturating_sub]. *)
Definition u64_saturating_add (a b : Z) : Z := Z.min (a + b) U64_MAX.
Definition u64_saturating_sub (a b : Z) : Z := Z.max (a - b) 0.

(** [u16::wrapping_add], [u16::wrapping_sub]. *)
Definition u16_wrapping_add (a b : Z) : Z := (a + b) mod 65536.
Definition u16_wrapping_sub (a b : Z) : Z := (a - b) mod 65536.

(** [u32::wrapping_add], and the [as u32] cast. *)
Definition u32_wrapping_add (a b : Z) : Z := (a + b) mod 4294967296.
Definition as_u32 (a : Z) : Z := a mod 4294967296.

(** [is_power_of_two]: exactly one bit is set. *)
Definition is_power_of_two (x : Z) : bool := (0 <? x) && (Z.land x (x - 1) =? 0).

(** [div_ceil] on unsigned integers. *)
Definition div_ceil (a b : Z) : Z := (a + b - 1) / b.

(** A flag test [x & bit != 0]. *)
Definition has_bits (x bits : Z) : bool := negb (Z.land x bits =? 0).

(** ** Bytes and little-endian fields *)
Definition is_byte (b : Z) : Prop := 0 ≤ b < 256.

Fixpoint le_encode (n : nat) (z : Z) : list Z :=
  match n with
  | O => []
  | S n' => z mod 256 :: le_encode n' (z / 256)
  end.

Fixpoint le_decode (bs : list Z) : Z :=
  match bs with
  | [] => 0
  | b :: bs' => b + 256 * le_decode bs'
  end.

(** [&l[off..off + n]]. *)
Definition slice (off n : nat) (l : list Z) : list Z := take n (drop off l).

(** [out[start..end].copy_from_slice(bytes)]. *)
Definition copy_from_slice (out : list Z) (start : nat) (bs : list Z) : list Z :=
  take start out ++ bs ++ drop (start + length bs) out.

(** [Iterator::try_fold] of lengths with [checked_add]. *)
Fixpoint fold_capacity (acc : Z) (bufs : list (Z * Z)) : option Z :=
  match bufs with
  | [] => Some acc
  | (_, len) :: bufs' => let?o n := u64_checked_add acc len in fold_capacity n bufs'
  end.

(** ** Automation *)

(** [lia] after the facts about [/] and [mod] by constants are added. *)
Ltac zlia := Z.div_mod_to_equations; lia.

(** Turns boolean comparisons of hypotheses and goal into propositions. *)
Ltac bool_to_prop :=
  repeat match goal with
  | H : (_ && _) = true |- _ => apply andb_prop in H; destruct H
  | H : (_ || _) = false |- _ => apply orb_false_elim in H; destruct H
  | H : negb _ = true |- _ => apply negb_true_iff in H
  | H : negb _ = false |- _ => apply negb_false_iff in H
  | H : (_ <? _) = true |- _ => apply Z.ltb_lt in H
  | H : (_ <? _) = false |- _ => apply Z.ltb_ge in H
  | H : (_ <=? _) = true |- _ => apply Z.leb_le in H
  | H : (_ <=? _) = false |- _ => apply Z.leb_gt in H
  | H : (_ =? _) = true |- _ => apply Z.eqb_eq in H
  | H : (_ =? _) = false |- _ => apply Z.eqb_neq in H
  end.

(** Case analysis on the innermost [if] or [match] of the goal. *)
Ltac case_goal :=
  match goal with
  | |- context [if ?b then _ else _] => destruct b eqn:?
  | |- context [match ?o with _ => _ end] => destruct o eqn:?
  end.

(** The same on a hypothesis. *)
Ltac case_hyp H :=
  match type of H with
  | context [if ?b then _ else _] => destruct b eqn:?
  | context [match ?o with _ => _ end] => destruct o eqn:?
  end.

Create HintDb tarit.

#[export] Hint Unfold in_u8 in_u16 in_u32 in_u64 is_byte U8_MAX U16_MAX U32_MAX U64_MAX : tarit.

(** ** Integers *)
Section ints.

Lemma u64_checked_add_Some a b c :
  u64_checked_add a b = Some c ↔ c = a + b ∧ a + b ≤ U64_MAX.
Proof.
  unfold u64_checked_add. destruct (a + b <=? U64_MAX) eqn:E; bool_to_prop.
  - split; [intros [= <-]|intros [-> _]]; auto.
  - split; [done|lia].
Qed.

Lemma u64_checked_mul_Some a b c :
  u64_checked_mul a b = Some c ↔ c = a * b ∧ a * b ≤ U64_MAX.
Proof.
  unfold u64_checked_mul. destruct (a * b <=? U64_MAX) eqn:E; bool_to_prop.
  - split; [intros [= <-]|intros [-> _]]; auto.
  - split; [done|lia].
Qed.

Lemma u64_checked_sub_Some a b c :
  u64_checked_sub a b = Some c ↔ c = a - b ∧ b ≤ a.
Proof.
  unfold u64_checked_sub. destruct (b <=? a) eqn:E; bool_to_prop.
  - split; [intros [= <-]|intros [-> _]]; auto.
  - split; [done|lia].
Qed.

Lemma u16_wrapping_add_range a b : in_u16 (u16_wrapping_add a b).
Proof. unfold u16_wrapping_add, in_u16, U16_MAX. zlia. Qed.

Lemma u16_wrapping_sub_range a b : in_u16 (u16_wrapping_sub a b).
Proof. unfold u16_wrapping_sub, in_u16, U16_MAX. zlia. Qed.

Lemma u16_wrapping_sub_diag a : u16_wrapping_sub a a = 0.
Proof. unfold u16_wrapping_sub. by rewrite Z.sub_diag. Qed.

Lemma u16_wrapping_sub_0_iff a b :
  in_u16 a → in_u16 b → u16_wrapping_sub a b = 0 ↔ a = b.
Proof. unfold u16_wrapping_sub, in_u16, U16_MAX. intros. split; zlia. Qed.

(** Advancing the second argument by one brings it one step closer. *)
Lemma u16_wrapping_sub_succ a b :
  in_u16 a → in_u16 b → a ≠ b →
  u16_wrapping_sub a (u16_wrapping_add b 1) = u16_wrapping_sub a b - 1.
Proof. unfold u16_wrapping_sub, u16_wrapping_add, in_u16, U16_MAX. intros. zlia. Qed.

Lemma u16_wrapping_add_assoc a b c :
  u16_wrapping_add (u16_wrapping_add a b) c = u16_wrapping_add a (b + c).
Proof. unfold u16_wrapping_add. rewrite Zplus_mod_idemp_l. f_equal. lia. Qed.

Lemma u16_wrapping_add_0 a : in_u16 a → u16_wrapping_add a 0 = a.
Proof. unfold u16_wrapping_add, in_u16, U16_MAX. intros. rewrite Z.mod_small; lia. Qed.

(** A field or-ed below another one. *)
Lemma lor_shiftl_low a b j :
  0 ≤ j → 0 ≤ b < 2 ^ j → Z.lor (Z.shiftl a j) b = a * 2 ^ j + b.
Proof.
  intros Hj Hb. rewrite <- Z.add_nocarry_lor; [by rewrite Z.shiftl_mul_pow2|].
  apply Z.bits_inj'. intros k Hk. rewrite Z.land_spec, Z.bits_0. destruct (Z.lt_ge_cases k j).
  - by rewrite Z.shiftl_spec_low by lia.
  - rewrite <- (Z.mod_small b (2 ^ j)) by lia. by rewrite Z.mod_pow2_bits_high, andb_false_r by lia.
Qed.

Lemma is_power_of_two_pos x : is_power_of_two x = true → 0 < x.
Proof. unfold is_power_of_two. intros. bool_to_prop. done. Qed.

End ints.

#[export] Hint Resolve u16_wrapping_add_range u16_wrapping_sub_range : tarit.

(** ** Little-endian round trips *)
Section endian.

Lemma length_le_encode n z : length (le_encode n z) = n.
Proof. revert z; induction n; intros; simpl; auto. Qed.

Lemma le_encode_bytes n z : Forall is_byte (le_encode n z).
Proof.
  revert z; induction n; intros; simpl; constructor; auto.
  unfold is_byte. zlia.
Qed.

Lemma le_decode_bound bs :
  Forall is_byte bs → 0 ≤ le_decode bs < 256 ^ Z.of_nat (length bs).
Proof.
  induction 1 as [|b bs Hb _ IH]; simpl length; cbn [le_decode].
  - lia.
  - rewrite Nat2Z.inj_succ, Z.pow_succ_r by lia. unfold is_byte in Hb. lia.
Qed.

Lemma le_decode_encode n z :
  0 ≤ z < 256 ^ Z.of_nat n → le_decode (le_encode n z) = z.
Proof.
  revert z; induction n; intros z Hz; cbn [le_encode le_decode].
  - simpl in Hz. lia.
  - rewrite Nat2Z.inj_succ, Z.pow_succ_r in Hz by lia.
    rewrite IHn; [zlia|]. split; [zlia|]. apply Z.div_lt_upper_bound; lia.
Qed.

Lemma le_encode_decode bs :
  Forall is_byte bs → le_encode (length bs) (le_decode bs) = bs.
Proof.
  induction 1 as [|b bs Hb _ IH]; cbn [length le_encode le_decode]; [done|].
  unfold is_byte in Hb. rewrite (Z.mul_comm 256), Z_mod_plus_full, Z.mod_small by lia.
  rewrite Z.div_add, Z.div_small, Z.add_0_l, IH by lia. done.
Qed.

Lemma length_slice off n l : (off + n ≤ length l)%nat → length (slice off n l) = n.
Proof. intros. unfold slice. rewrite length_take, length_drop. lia. Qed.

Lemma slice_app_l off n l1 l2 :
  (off + n ≤ length l1)%nat → slice off n (l1 ++ l2) = slice off n l1.
Proof.
  intros. unfold slice. rewrite drop_app_le by lia.
  rewrite take_app_le; [done|]. rewrite length_drop. lia.
Qed.

Lemma slice_app_r off n l1 l2 :
  (length l1 ≤ off)%nat → slice off n (l1 ++ l2) = slice (off - length l1) n l2.
Proof. intros. unfold slice. by rewrite drop_app_ge by lia. Qed.

Lemma slice_exact l1 l2 n : length l1 = n → slice 0 n (l1 ++ l2) = l1.
Proof. intros <-. unfold slice. rewrite drop_0. apply take_app_length. Qed.

Lemma Forall_slice (P : Z → Prop) off n l : Forall P l → Forall P (slice off n l).
Proof. intros. unfold slice. by apply Forall_take, Forall_drop. Qed.

Lemma lookup_slice off n (l : list Z) i :
  slice off n l !! i = if decide (i < n)%nat then l !! (off + i)%nat else None.
Proof.
  unfold slice. case_decide.
  - by rewrite lookup_take_lt, lookup_drop by done.
  - by rewrite lookup_take_ge by lia.
Qed.

Lemma copy_from_slice_lookup out start bs (o : nat) :
  (start + length bs ≤ length out)%nat →
  copy_from_slice out start bs !! o =
  if decide (start ≤ o < start + length bs)%nat then bs !! (o - start)%nat else out !! o.
Proof.
  intros Hl. unfold copy_from_slice.
  assert (length (take start out) = start) as Ht by (rewrite length_take; lia).
  case_decide.
  - rewrite lookup_app_r, Ht by lia. rewrite lookup_app_l by lia. done.
  - destruct (decide (o < start)%nat).
    + rewrite lookup_app_l by lia. by rewrite lookup_take_lt.
    + rewrite lookup_app_r, Ht by lia. rewrite lookup_app_r by lia. rewrite lookup_drop.
      f_equal. lia.
Qed.

Lemma length_copy_from_slice out start bs :
  (start + length bs ≤ length out)%nat → length (copy_from_slice out start bs) = length out.
Proof.
  intros. unfold copy_from_slice. rewrite !length_app, length_take, length_drop. lia.
Qed.

End endian.

#[export] Hint Resolve le_encode_bytes Forall_slice : tarit.
