(* ===== verification/Layout.v ===== *)
(** * Records of little-endian fields

    Packets and tables are laid out as consecutive little-endian fields. A
    layout is the list of the fields' widths in bytes; encoding and decoding
    along a layout are inverse to each other, which the codecs of the
    components are instances of. *)

From S2P Require Import Prelude.

(** A field: its width and its value. *)
Definition encode_fields (fs : list (nat * Z)) : list Z := fs ≫= fun f => le_encode f.1 f.2.

Fixpoint decode_fields (ws : list nat) (buf : list Z) : list Z :=
  match ws with
  | [] => []
  | w :: ws' => le_decode (take w buf) :: decode_fields ws' (drop w buf)
  end.

(** The value fits its width. *)
Definition field_ok (f : nat * Z) : Prop := 0 ≤ f.2 < 256 ^ Z.of_nat f.1.

Section layout.

Lemma encode_fields_cons w v fs : encode_fields ((w, v) :: fs) = le_encode w v ++ encode_fields fs.
Proof. done. Qed.

Lemma encode_fields_bytes fs : Forall is_byte (encode_fields fs).
Proof. induction fs as [|[w v] fs IH]; [constructor|]. apply Forall_app. auto with tarit. Qed.

Lemma length_encode_fields fs : length (encode_fields fs) = sum_list fs.*1.
Proof.
  induction fs as [|[w v] fs IH]; [done|]. rewrite encode_fields_cons, length_app, length_le_encode, IH. done.
Qed.

Lemma decode_encode_fields fs rest :
  Forall field_ok fs → decode_fields fs.*1 (encode_fields fs ++ rest) = fs.*2.
Proof.
  induction 1 as [|[w v] fs Hf _ IH]; [done|]. cbn [fmap list_fmap fst snd decode_fields].
  rewrite encode_fields_cons, <- app_assoc.
  rewrite take_app_length', drop_app_length' by (by rewrite length_le_encode).
  rewrite le_decode_encode by apply Hf. f_equal. apply IH.
Qed.

Lemma encode_decode_fields ws : ∀ buf,
  Forall is_byte buf → (sum_list ws ≤ length buf)%nat →
  encode_fields (zip ws (decode_fields ws buf)) = take (sum_list ws) buf ∧
  Forall field_ok (zip ws (decode_fields ws buf)).
Proof.
  induction ws as [|w ws IH]; intros buf Hb Hl; [done|].
  cbn [decode_fields zip zip_with sum_list sum_list_with] in *.
  assert (length (take w buf) = w) as Hw by (rewrite length_take; simpl in Hl; lia).
  destruct (IH (drop w buf)) as [IH1 IH2]; [by apply Forall_drop|rewrite length_drop; simpl in Hl; lia|].
  split.
  - rewrite encode_fields_cons, IH1. rewrite <- Hw at 1. rewrite le_encode_decode by (by apply Forall_take).
    by rewrite <- take_take_drop.
  - constructor; [|done]. unfold field_ok. cbn [fst snd].
    pose proof (le_decode_bound (take w buf) (Forall_take _ _ _ Hb)) as Hd. by rewrite Hw in Hd.
Qed.

End layout.

#[export] Hint Resolve encode_fields_bytes : tarit.
