(* ===== verification/Dirty.v ===== *)
(** * Dirty-page tracking ([vmm-memory-backend/src/dirty.rs])

    [DirtyBitmap] is the set of dirty page frame numbers and
    [SoftwareDirtyBitmap] the tracker the devices share. The tracker's mutex
    is always held for the whole operation, so a tracker is modelled by the
    bitmap it guards. The theorems say which pages an operation marks: exactly
    those that hold a byte of the range, after the packing of the RAM above
    the MMIO aperture. *)

From S2P Require Import Prelude.

Definition PAGE_SIZE : Z := 4096.

(** The MMIO aperture of [backend.rs]: RAM above it is packed after low RAM. *)
Definition MMIO_GAP_START : Z := 3489660928.
Definition MMIO_GAP_END : Z := 4294967296.

Module DirtyBitmap.

Record t := mk { dirty : gset Z }.

Definition new : t := mk ∅.

Definition insert_pfn (d : gset Z) (pfn : Z) : gset Z := {[ pfn ]} ∪ d.

Definition mark (b : t) (gpa : Z) : t := mk (insert_pfn (dirty b) (gpa / PAGE_SIZE)).

(** [for pfn in start..end { self.dirty.insert(pfn) }] after the guards. *)
Definition mark_range (b : t) (gpa len : Z) : t :=
  if len =? 0 then b
  else match u64_checked_add gpa len with
       | None => b
       | Some end_gpa =>
           let start := gpa / PAGE_SIZE in
           let end_ := div_ceil end_gpa PAGE_SIZE in
           mk (foldl insert_pfn (dirty b) (seqZ start (end_ - start)))
       end.

Definition contains (b : t) (gpa : Z) : bool := bool_decide (gpa / PAGE_SIZE ∈ dirty b).

Definition dirty_pfns (b : t) : gset Z := dirty b.

Definition len (b : t) : nat := size (dirty b).

Definition is_empty (b : t) : bool := bool_decide (dirty b = ∅).

(** [std::mem::take]: the set is returned and the bitmap left empty. *)
Definition drain (b : t) : gset Z * t := (dirty b, mk ∅).

Definition merge (b other : t) : t :=
  mk (foldl insert_pfn (dirty b) (elements (dirty other))).

(** The bits of one log byte, for [bit in 0..8]. *)
Definition mark_log_byte (region_start_gpa byte_idx v : Z) (b : t) : t :=
  if v =? 0 then b
  else foldl (fun b bit =>
    if Z.land v (Z.shiftl 1 bit) =? 0 then b
    else mark b (region_start_gpa + (byte_idx * 8 + bit) * PAGE_SIZE)) b (seqZ 0 8).

Fixpoint from_kvm_log_loop (region_start_gpa byte_idx : Z) (log : list Z) (b : t) : t :=
  match log with
  | [] => b
  | v :: log' =>
      from_kvm_log_loop region_start_gpa (byte_idx + 1) log'
        (mark_log_byte region_start_gpa byte_idx v b)
  end.

Definition from_kvm_log (region_start_gpa : Z) (log : list Z) : t :=
  from_kvm_log_loop region_start_gpa 0 log new.

End DirtyBitmap.

Module SoftwareDirtyBitmap.

Definition mark_range (d : DirtyBitmap.t) (gpa len : Z) : DirtyBitmap.t :=
  if len =? 0 then d else DirtyBitmap.mark_range d gpa len.

(** The range is split at the aperture and its upper part shifted down. *)
Definition mark_guest_range (d : DirtyBitmap.t) (gpa len : Z) : DirtyBitmap.t :=
  match u64_checked_add gpa len with
  | None => d
  | Some end_ =>
      if len =? 0 then d
      else
        let d1 :=
          if gpa <? MMIO_GAP_START
          then DirtyBitmap.mark_range d gpa (Z.min end_ MMIO_GAP_START - gpa)
          else d in
        if MMIO_GAP_END <? end_
        then
          let start := Z.max gpa MMIO_GAP_END in
          DirtyBitmap.mark_range d1 (MMIO_GAP_START + (start - MMIO_GAP_END)) (end_ - start)
        else d1
  end.

Definition snapshot (d : DirtyBitmap.t) : DirtyBitmap.t := d.

Definition drain (d : DirtyBitmap.t) : DirtyBitmap.t * DirtyBitmap.t :=
  let '(dirty, d') := DirtyBitmap.drain d in (DirtyBitmap.mk dirty, d').

End SoftwareDirtyBitmap.

(** ** Which pages are marked *)

(** The page of packed offset [o] is dirty in [d]. *)
Definition page_dirty (d : DirtyBitmap.t) (o : Z) : Prop := o / PAGE_SIZE ∈ DirtyBitmap.dirty d.

(** The packed offset of a guest physical address outside the aperture. *)
Definition packed_offset (gpa : Z) : Z :=
  if gpa <? MMIO_GAP_START then gpa else MMIO_GAP_START + (gpa - MMIO_GAP_END).

Section dirty_lemmas.

Lemma elem_of_foldl_insert_pfn l d p :
  p ∈ foldl DirtyBitmap.insert_pfn d l ↔ p ∈ d ∨ p ∈ l.
Proof.
  revert d; induction l as [|q l IH]; intros d; simpl; [set_solver|].
  rewrite IH. unfold DirtyBitmap.insert_pfn. set_solver.
Qed.

(** The pages between the first and the last byte of a non-empty range. *)
Lemma pages_of_range gpa len p :
  0 ≤ gpa → 0 < len →
  gpa / PAGE_SIZE ≤ p < div_ceil (gpa + len) PAGE_SIZE ↔
  ∃ a, gpa ≤ a < gpa + len ∧ a / PAGE_SIZE = p.
Proof.
  intros. unfold div_ceil, PAGE_SIZE. split.
  - intros [??]. destruct (decide (gpa / 4096 = p)).
    + exists gpa. lia.
    + exists (p * 4096). split; zlia.
  - intros (a & ? & <-). split; zlia.
Qed.

Lemma page_dirty_mark_range d gpa len p :
  0 ≤ gpa → 0 ≤ len → gpa + len ≤ U64_MAX →
  p ∈ DirtyBitmap.dirty (DirtyBitmap.mark_range d gpa len) ↔
  p ∈ DirtyBitmap.dirty d ∨ ∃ a, gpa ≤ a < gpa + len ∧ a / PAGE_SIZE = p.
Proof.
  intros Hg Hl Hm. unfold DirtyBitmap.mark_range.
  destruct (len =? 0) eqn:E; bool_to_prop.
  - split; [tauto|]. intros [?|(a & ? & _)]; [done|lia].
  - rewrite (proj2 (u64_checked_add_Some _ _ _)) by eauto. simpl.
    rewrite elem_of_foldl_insert_pfn, elem_of_seqZ.
    rewrite <- pages_of_range by lia.
    split; intros [?|?]; auto; right; lia.
Qed.

Lemma page_dirty_mark_range_mono d gpa len o :
  page_dirty d o → page_dirty (DirtyBitmap.mark_range d gpa len) o.
Proof.
  unfold page_dirty, DirtyBitmap.mark_range. intros.
  repeat case_goal; simpl; auto. rewrite elem_of_foldl_insert_pfn. auto.
Qed.

Lemma page_dirty_mark_guest_range_mono d gpa len o :
  page_dirty d o → page_dirty (SoftwareDirtyBitmap.mark_guest_range d gpa len) o.
Proof.
  unfold SoftwareDirtyBitmap.mark_guest_range. intros.
  repeat case_goal; auto using page_dirty_mark_range_mono.
Qed.

Lemma mark_guest_range_covers d gpa len a :
  0 ≤ gpa → gpa + len ≤ U64_MAX → gpa ≤ a < gpa + len →
  ¬ (MMIO_GAP_START ≤ a < MMIO_GAP_END) →
  page_dirty (SoftwareDirtyBitmap.mark_guest_range d gpa len) (packed_offset a).
Proof.
  intros Hg Hm Ha Hgap. unfold SoftwareDirtyBitmap.mark_guest_range.
  rewrite (proj2 (u64_checked_add_Some _ _ _)) by eauto.
  destruct (len =? 0) eqn:E; bool_to_prop; [lia|].
  unfold packed_offset. destruct (a <? MMIO_GAP_START) eqn:Elow; bool_to_prop.
  - assert (gpa <? MMIO_GAP_START = true) as -> by (apply Z.ltb_lt; lia).
    assert (page_dirty (DirtyBitmap.mark_range d gpa
      (Z.min (gpa + len) MMIO_GAP_START - gpa)) a).
    { apply page_dirty_mark_range; [lia..|]. right. exists a. split; [lia|done]. }
    case_goal; auto using page_dirty_mark_range_mono.
  - assert (MMIO_GAP_END <? gpa + len = true) as -> by (apply Z.ltb_lt; lia).
    apply page_dirty_mark_range; [unfold MMIO_GAP_START, MMIO_GAP_END, U64_MAX in *; lia..|].
    right. eexists. split; [|done]. lia.
Qed.

Lemma dirty_mark d gpa p :
  p ∈ DirtyBitmap.dirty (DirtyBitmap.mark d gpa) ↔ p = gpa / PAGE_SIZE ∨ p ∈ DirtyBitmap.dirty d.
Proof. unfold DirtyBitmap.mark, DirtyBitmap.insert_pfn. set_solver. Qed.

(** Marking the address [f bit] of every set bit of a byte or a word. *)
Lemma dirty_log_bits (f : Z → Z) v l : ∀ d p,
  p ∈ DirtyBitmap.dirty (foldl (fun b bit =>
    if Z.land v (Z.shiftl 1 bit) =? 0 then b else DirtyBitmap.mark b (f bit)) d l) ↔
  p ∈ DirtyBitmap.dirty d ∨
  ∃ bit, bit ∈ l ∧ Z.land v (Z.shiftl 1 bit) ≠ 0 ∧ p = f bit / PAGE_SIZE.
Proof.
  induction l as [|x l IH]; intros d p; simpl.
  { split; [tauto|]. intros [?|(bit & Hb & _)]; [done|]. by apply not_elem_of_nil in Hb. }
  rewrite IH. destruct (Z.land v (Z.shiftl 1 x) =? 0) eqn:E; bool_to_prop; [|rewrite dirty_mark].
  all: setoid_rewrite elem_of_cons; naive_solver.
Qed.

Lemma land_bit v bit : 0 ≤ bit → Z.land v (Z.shiftl 1 bit) ≠ 0 ↔ Z.testbit v bit = true.
Proof.
  intros Hb. rewrite Z.shiftl_1_l. split.
  - intros Hne. destruct (Z.testbit v bit) eqn:E; [done|]. destruct Hne.
    apply Z.bits_inj'. intros n Hn. rewrite Z.land_spec, Z.bits_0, Z.pow2_bits_eqb by done.
    destruct (bit =? n) eqn:En; bool_to_prop; [subst; by rewrite E|by rewrite andb_false_r].
  - intros Ht H0. assert (Z.testbit (Z.land v (2 ^ bit)) bit = true) as H1.
    { by rewrite Z.land_spec, Ht, Z.pow2_bits_true. }
    by rewrite H0, Z.bits_0 in H1.
Qed.

Lemma dirty_log_byte start i v d p :
  p ∈ DirtyBitmap.dirty (DirtyBitmap.mark_log_byte start i v d) ↔
  p ∈ DirtyBitmap.dirty d ∨
  ∃ bit, 0 ≤ bit < 8 ∧ Z.testbit v bit = true ∧ p = (start + (i * 8 + bit) * PAGE_SIZE) / PAGE_SIZE.
Proof.
  unfold DirtyBitmap.mark_log_byte. destruct (v =? 0) eqn:E; bool_to_prop.
  - subst. split; [tauto|]. intros [?|(bit & _ & Hb & _)]; [done|]. by rewrite Z.bits_0 in Hb.
  - rewrite (dirty_log_bits (fun bit => start + (i * 8 + bit) * PAGE_SIZE)). setoid_rewrite elem_of_seqZ.
    split; (intros [?|(bit & ? & Hb & ->)]; [by left|right; exists bit]).
    + rewrite land_bit in Hb by lia. done.
    + rewrite land_bit by lia. done.
Qed.

Lemma dirty_log_loop start log : ∀ i d p,
  p ∈ DirtyBitmap.dirty (DirtyBitmap.from_kvm_log_loop start i log d) ↔
  p ∈ DirtyBitmap.dirty d ∨
  ∃ (k : nat) v bit, log !! k = Some v ∧ 0 ≤ bit < 8 ∧ Z.testbit v bit = true ∧
    p = (start + ((i + Z.of_nat k) * 8 + bit) * PAGE_SIZE) / PAGE_SIZE.
Proof.
  induction log as [|v log IH]; intros i d p; cbn [DirtyBitmap.from_kvm_log_loop].
  { split; [tauto|]. by intros [?|(k & v & bit & Hk & _)]. }
  rewrite IH, dirty_log_byte. split.
  - intros [[?|(bit & ? & ? & ->)]|(k & v' & bit & Hk & ? & ? & ->)]; [by left|right..].
    + exists 0%nat, v, bit. rewrite Z.add_0_r. done.
    + exists (S k), v', bit. split; [done|]. split; [done|]. split; [done|].
      f_equal. f_equal. f_equal. lia.
  - intros [?|([|k] & v' & bit & Hk & ? & ? & ->)]; [by do 2 left| |].
    + left. right. injection Hk as ->. exists bit. rewrite Z.add_0_r. done.
    + right. exists k, v', bit. split; [done|]. split; [done|]. split; [done|].
      f_equal. f_equal. f_equal. lia.
Qed.

End dirty_lemmas.

(** The KVM dirty log decodes to exactly the pages whose bit is set: page
    [n] of a page-aligned region is dirty if and only if bit [n mod 8] of log
    byte [n / 8] is set. *)
Theorem from_kvm_log_exact start log n :
  start mod PAGE_SIZE = 0 → 0 ≤ n →
  DirtyBitmap.contains (DirtyBitmap.from_kvm_log start log) (start + n * PAGE_SIZE) = true ↔
  ∃ v, log !! Z.to_nat (n / 8) = Some v ∧ Z.testbit v (n mod 8) = true.
Proof.
  intros Ha Hn. unfold DirtyBitmap.contains, DirtyBitmap.from_kvm_log.
  rewrite bool_decide_eq_true, dirty_log_loop. unfold PAGE_SIZE in *. split.
  - intros [Hf|(k & v & bit & Hk & ? & Hb & Hp)]; [by apply not_elem_of_empty in Hf|].
    rewrite !Z_div_plus_full in Hp by lia. exists v.
    replace (n / 8) with (Z.of_nat k) by zlia. rewrite Nat2Z.id.
    replace (n mod 8) with bit by zlia. done.
  - intros (v & Hk & Hb). right. exists (Z.to_nat (n / 8)), v, (n mod 8).
    split; [done|]. split; [zlia|]. split; [done|]. f_equal. f_equal. zlia.
Qed.

Lemma from_kvm_log_exact_witness :
  DirtyBitmap.contains (DirtyBitmap.from_kvm_log 8192 [0; 5]) (8192 + 10 * PAGE_SIZE) = true ↔
  ∃ v, [0; 5] !! Z.to_nat (10 / 8) = Some v ∧ Z.testbit v (10 mod 8) = true.
Proof. apply (from_kvm_log_exact 8192 [0; 5] 10); [reflexivity|lia]. Defined.

#[export] Hint Resolve page_dirty_mark_range_mono page_dirty_mark_guest_range_mono : tarit.
