(* ===== verification/GuestMem.v ===== *)
(** * Guest memory ([vmm-memory-backend/src/backend.rs])

    Two layers. [GuestMemoryBackend] is the interface of the third-party
    [vm-memory] crate that every device uses ([check_range], [read_slice],
    [write_slice]); [GuestMemoryLaws] states the documented behaviour the
    code relies on, and [ByteMap] is an instance that shows the laws can hold.
    [GuestMemory] is the crate's own layer: the packing of RAM around the
    MMIO aperture, physical reads and writes with dirty marking, page
    discards, and the interval map of file-backed runs. *)

From S2P Require Import Prelude Dirty.

(** ** The [vm-memory] interface *)

(** Addresses and lengths are in bytes; [gm_read_slice m a n] fills a buffer
    of [n] bytes. A failed [gm_write_slice] may have written a prefix, so it
    returns the memory it leaves behind. *)
Class GuestMemoryBackend (M : Type) := {
  gm_check_range : M → Z → Z → bool;
  gm_read_slice : M → Z → Z → option (list Z);
  gm_write_slice : M → Z → list Z → bool * M;
}.

(** A range is valid when each of its bytes is backed by a region; reads and
    writes succeed exactly on valid ranges; a read returns the bytes last
    written, and a write changes nothing outside its range. *)
Class GuestMemoryLaws (M : Type) `{!GuestMemoryBackend M} : Prop := {
  gm_check_range_iff : ∀ (m : M) a n, 0 < n →
    gm_check_range m a n = true ↔ ∀ i, a ≤ i < a + n → gm_check_range m i 1 = true;
  gm_check_range_u64 : ∀ (m : M) a, gm_check_range m a 1 = true → in_u64 a;
  gm_read_iff : ∀ (m : M) a n bs, 0 < n →
    gm_read_slice m a n = Some bs ↔
    Z.of_nat (length bs) = n ∧
    ∀ (i : nat) b, bs !! i = Some b → gm_read_slice m (a + Z.of_nat i) 1 = Some [b];
  gm_read_byte : ∀ (m : M) a, gm_check_range m a 1 = true →
    ∃ b, gm_read_slice m a 1 = Some [b] ∧ is_byte b;
  gm_read_oob : ∀ (m : M) a, gm_check_range m a 1 = false → gm_read_slice m a 1 = None;
  gm_write_ok : ∀ (m : M) a bs, bs ≠ [] →
    (gm_write_slice m a bs).1 = gm_check_range m a (Z.of_nat (length bs));
  gm_write_read : ∀ (m : M) a bs (i : nat) b, Forall is_byte bs →
    gm_check_range m a (Z.of_nat (length bs)) = true → bs !! i = Some b →
    gm_read_slice (gm_write_slice m a bs).2 (a + Z.of_nat i) 1 = Some [b];
  gm_write_frame : ∀ (m : M) a bs x, ¬ (a ≤ x < a + Z.of_nat (length bs)) →
    gm_read_slice (gm_write_slice m a bs).2 x 1 = gm_read_slice m x 1;
  gm_write_check : ∀ (m : M) a bs x n,
    gm_check_range (gm_write_slice m a bs).2 x n = gm_check_range m x n;
}.

(** The byte at an address, if a region backs it. *)
Definition byte_at {M : Type} `{!GuestMemoryBackend M} (m : M) (a : Z) : option (list Z) :=
  gm_read_slice m a 1.

(** ** An instance: memory as a finite map of bytes *)
Module ByteMap.

Definition t : Type := gmap Z Z.

Definition address_in_range (m : gmap Z Z) (a : Z) : bool :=
  (0 <=? a) && (a <=? U64_MAX) && bool_decide (is_Some (m !! a)).

Definition check_range (m : gmap Z Z) (a n : Z) : bool :=
  forallb (address_in_range m) (seqZ a n).

Definition read_slice (m : gmap Z Z) (a n : Z) : option (list Z) :=
  mapM (fun i => if address_in_range m i then (fun b => b mod 256) <$> (m !! i) else None)
    (seqZ a n).

Fixpoint store (m : gmap Z Z) (a : Z) (bs : list Z) : gmap Z Z :=
  match bs with
  | [] => m
  | b :: bs' => store (<[a := b]> m) (a + 1) bs'
  end.

Definition write_slice (m : gmap Z Z) (a : Z) (bs : list Z) : bool * gmap Z Z :=
  if check_range m a (Z.of_nat (length bs)) then (true, store m a bs) else (false, m).

(** [n] zero bytes from address [a]. *)
Definition zeros (a n : Z) : gmap Z Z := list_to_map ((fun i => (i, 0)) <$> seqZ a n).

End ByteMap.

#[export] Instance byte_map_backend : GuestMemoryBackend (gmap Z Z) := {
  gm_check_range := ByteMap.check_range;
  gm_read_slice := ByteMap.read_slice;
  gm_write_slice := ByteMap.write_slice;
}.

Section byte_map_laws.

Lemma seqZ_1 a : seqZ a 1 = [a].
Proof. rewrite seqZ_cons by lia. done. Qed.

Lemma bm_check_range_1 m a : ByteMap.check_range m a 1 = ByteMap.address_in_range m a.
Proof. unfold ByteMap.check_range. rewrite seqZ_1. simpl. by rewrite andb_true_r. Qed.

Lemma bm_check_range_iff m a n :
  ByteMap.check_range m a n = true ↔
  ∀ i, a ≤ i < a + n → ByteMap.address_in_range m i = true.
Proof.
  unfold ByteMap.check_range. rewrite forallb_forall. split; intros H i Hi; apply H.
  - apply list_elem_of_In, elem_of_seqZ. lia.
  - apply list_elem_of_In, elem_of_seqZ in Hi. lia.
Qed.

Lemma bm_read_1 m a :
  ByteMap.read_slice m a 1 =
  if ByteMap.address_in_range m a then (fun b => [b mod 256]) <$> m !! a else None.
Proof.
  unfold ByteMap.read_slice. rewrite seqZ_1. simpl.
  destruct (ByteMap.address_in_range m a); simpl; [|done].
  destruct (m !! a); done.
Qed.

Lemma bm_read_iff m a n bs :
  0 < n →
  ByteMap.read_slice m a n = Some bs ↔
  Z.of_nat (length bs) = n ∧
  ∀ (i : nat) b, bs !! i = Some b → ByteMap.read_slice m (a + Z.of_nat i) 1 = Some [b].
Proof.
  intros Hn. unfold ByteMap.read_slice at 1. rewrite mapM_Some.
  assert (Hlen : length (seqZ a n) = Z.to_nat n) by apply length_seqZ.
  split.
  - intros Hf. pose proof (Forall2_length _ _ _ Hf). split; [lia|]. intros i b Hb.
    destruct (lookup_lt_is_Some_2 (seqZ a n) i) as [x Hx].
    { apply lookup_lt_Some in Hb. lia. }
    pose proof (Forall2_lookup_lr _ _ _ _ _ _ Hf Hx Hb) as E. simpl in E.
    apply lookup_seqZ in Hx as [-> _]. rewrite bm_read_1.
    destruct (ByteMap.address_in_range m (a + Z.of_nat i)); [|done].
    destruct (m !! (a + Z.of_nat i)); simpl in *; congruence.
  - intros [Hl H]. apply Forall2_same_length_lookup. split; [lia|].
    intros i x b Hx Hb. apply lookup_seqZ in Hx as [-> _].
    specialize (H i b Hb). rewrite bm_read_1 in H.
    destruct (ByteMap.address_in_range m (a + Z.of_nat i)); [|done].
    destruct (m !! (a + Z.of_nat i)); simpl in *; congruence.
Qed.

Lemma bm_store_lookup bs m a x :
  ByteMap.store m a bs !! x =
  if decide (a ≤ x < a + Z.of_nat (length bs)) then bs !! Z.to_nat (x - a) else m !! x.
Proof.
  revert m a; induction bs as [|b bs IH]; intros m a; simpl length; cbn [ByteMap.store].
  - rewrite decide_False by (simpl; lia). done.
  - rewrite IH. destruct (decide (a = x)) as [->|Hne].
    + rewrite decide_False, decide_True by lia.
      rewrite lookup_insert_eq, Z.sub_diag. done.
    + rewrite (lookup_insert_ne m) by done.
      destruct (decide (a + 1 ≤ x < a + 1 + Z.of_nat (length bs))).
      * rewrite decide_True by lia. replace (Z.to_nat (x - a)) with (S (Z.to_nat (x - (a + 1)))) by lia.
        done.
      * rewrite decide_False by lia. done.
Qed.

Lemma bm_store_range bs m a x :
  ByteMap.check_range m a (Z.of_nat (length bs)) = true →
  ByteMap.address_in_range (ByteMap.store m a bs) x = ByteMap.address_in_range m x.
Proof.
  intros Hc. unfold ByteMap.address_in_range. f_equal. rewrite bm_store_lookup.
  destruct (decide _) as [Hx|]; [|done].
  rewrite bm_check_range_iff in Hc. specialize (Hc x Hx).
  unfold ByteMap.address_in_range in Hc. bool_to_prop.
  match goal with H : bool_decide _ = true |- _ => rewrite H end.
  apply bool_decide_eq_true. apply lookup_lt_is_Some. lia.
Qed.

#[export] Instance byte_map_laws : GuestMemoryLaws (gmap Z Z).
Proof.
  constructor; simpl.
  - intros m a n _. rewrite bm_check_range_iff.
    split; intros H i Hi; specialize (H i Hi); by rewrite bm_check_range_1 in *.
  - intros m a. rewrite bm_check_range_1. unfold ByteMap.address_in_range, in_u64.
    intros. bool_to_prop. lia.
  - apply bm_read_iff.
  - intros m a. rewrite bm_check_range_1, bm_read_1. intros H. rewrite H.
    unfold ByteMap.address_in_range in H. bool_to_prop.
    match goal with H : bool_decide _ = true |- _ => apply bool_decide_eq_true in H; destruct H as [b ->] end.
    exists (b mod 256). split; [done|]. unfold is_byte. zlia.
  - intros m a. rewrite bm_check_range_1, bm_read_1. by intros ->.
  - intros m a bs _. unfold ByteMap.write_slice. by destruct (ByteMap.check_range _ _ _).
  - intros m a bs i b Hbs Hc Hb. unfold ByteMap.write_slice. rewrite Hc. simpl.
    pose proof (lookup_lt_Some _ _ _ Hb). rewrite bm_read_1, bm_store_range by done.
    rewrite bm_check_range_iff in Hc. rewrite Hc by lia.
    rewrite bm_store_lookup, decide_True by lia.
    replace (Z.to_nat (a + Z.of_nat i - a)) with i by lia. rewrite Hb. simpl.
    rewrite Z.mod_small; [done|]. exact (proj1 (Forall_lookup _ _) Hbs i b Hb).
  - intros m a bs x Hx. unfold ByteMap.write_slice.
    destruct (ByteMap.check_range m a _) eqn:Hc; [|done]. simpl.
    rewrite !bm_read_1, bm_store_range, bm_store_lookup, decide_False by done. done.
  - intros m a bs x n. unfold ByteMap.write_slice.
    destruct (ByteMap.check_range m a _) eqn:Hc; [|done]. simpl.
    apply Bool.eq_iff_eq_true. rewrite !bm_check_range_iff.
    split; intros H i Hi; specialize (H i Hi); by rewrite bm_store_range in *.
Qed.

Lemma bm_zeros_check a n x :
  0 ≤ a → a + n ≤ U64_MAX → gm_check_range (ByteMap.zeros a n) x 1 = true ↔ a ≤ x < a + n.
Proof.
  intros Ha Hn. simpl. rewrite bm_check_range_1. unfold ByteMap.address_in_range, ByteMap.zeros.
  rewrite !andb_true_iff, bool_decide_eq_true, Z.leb_le, Z.leb_le.
  rewrite <- elem_of_dom, dom_list_to_map_L, <- list_fmap_compose, elem_of_list_to_set,
    list_elem_of_fmap. simpl. split.
  - intros [_ (y & -> & ?%elem_of_seqZ)]. lia.
  - intros ?. split; [lia|]. exists x. split; [done|]. apply elem_of_seqZ. lia.
Qed.

End byte_map_laws.

(** ** Consequences of the laws *)
Section laws.
Context {M : Type} `{!GuestMemoryBackend M} `{!GuestMemoryLaws M}.
Implicit Types (m : M) (a n : Z) (bs : list Z).

Lemma gm_check_range_sub m a n b k :
  0 < n → 0 < k → a ≤ b → b + k ≤ a + n →
  gm_check_range m a n = true → gm_check_range m b k = true.
Proof.
  intros ? ? ? ? H. rewrite gm_check_range_iff in H by done.
  rewrite gm_check_range_iff by done. intros i Hi. apply H. lia.
Qed.

Lemma gm_check_range_u64_bound m a n :
  0 < n → gm_check_range m a n = true → 0 ≤ a ∧ a + n - 1 ≤ U64_MAX.
Proof.
  intros Hn H. rewrite gm_check_range_iff in H by done.
  pose proof (gm_check_range_u64 _ _ (H a ltac:(lia))).
  pose proof (gm_check_range_u64 _ _ (H (a + n - 1) ltac:(lia))).
  unfold in_u64 in *. lia.
Qed.

Lemma gm_read_total m a n :
  0 < n → gm_check_range m a n = true →
  ∃ bs, gm_read_slice m a n = Some bs ∧ Z.of_nat (length bs) = n ∧ Forall is_byte bs.
Proof.
  intros Hn Hc. rewrite gm_check_range_iff in Hc by done.
  assert (Hall : ∀ k : nat, Z.of_nat k ≤ n → ∃ bs, length bs = k ∧ Forall is_byte bs ∧
    ∀ i b, bs !! i = Some b → gm_read_slice m (a + Z.of_nat i) 1 = Some [b]).
  { induction k as [|k IH]; intros Hk.
    - exists []. split; [done|]. split; [constructor|]. intros i b H. by rewrite lookup_nil in H.
    - destruct IH as (bs & <- & Hb & Hr); [lia|].
      destruct (gm_read_byte m (a + Z.of_nat (length bs))) as (b & Hbr & ?); [apply Hc; lia|].
      exists (bs ++ [b]). rewrite length_app. simpl. split; [lia|].
      split; [by apply Forall_app_2; [|constructor]|].
      intros i x Hx. apply lookup_app_Some in Hx as [Hx|[? Hx]]; [by apply Hr|].
      apply list_lookup_singleton_Some in Hx as [Hi <-].
      by replace i with (length bs) by lia. }
  destruct (Hall (Z.to_nat n)) as (bs & Hl & Hb & Hr); [lia|].
  exists bs. repeat split; [|lia|done]. apply gm_read_iff; [done|]. split; [lia|done].
Qed.

Lemma gm_read_Some_len m a n bs :
  0 < n → gm_read_slice m a n = Some bs → Z.of_nat (length bs) = n.
Proof. intros Hn H. by apply gm_read_iff in H as [? _]. Qed.

Lemma gm_read_Some_check m a n bs :
  0 < n → gm_read_slice m a n = Some bs → gm_check_range m a n = true.
Proof.
  intros Hn H. apply gm_read_iff in H as [Hl Hr]; [|done].
  rewrite gm_check_range_iff by done. intros i Hi.
  destruct (gm_check_range m i 1) eqn:E; [done|].
  apply gm_read_oob in E.
  destruct (lookup_lt_is_Some_2 bs (Z.to_nat (i - a))) as [b Hb]; [lia|].
  specialize (Hr _ _ Hb). replace (a + Z.of_nat (Z.to_nat (i - a))) with i in Hr by lia.
  congruence.
Qed.

Lemma gm_read_Some_bytes m a n bs :
  0 < n → gm_read_slice m a n = Some bs → Forall is_byte bs.
Proof.
  intros Hn H. destruct (gm_read_total m a n) as (bs' & H' & _ & ?); [done| |congruence].
  by eapply gm_read_Some_check.
Qed.

(** Two memories that agree byte for byte on a range read the same there. *)
Lemma gm_read_ext m m' a n :
  0 < n → (∀ i, a ≤ i < a + n → byte_at m' i = byte_at m i) →
  gm_read_slice m' a n = gm_read_slice m a n.
Proof.
  intros Hn H. assert (Himp : ∀ m1 m2, (∀ i, a ≤ i < a + n → byte_at m1 i = byte_at m2 i) →
    ∀ bs, gm_read_slice m1 a n = Some bs → gm_read_slice m2 a n = Some bs).
  { intros m1 m2 Heq bs Hr. apply gm_read_iff in Hr as [Hl Hr]; [|done].
    apply gm_read_iff; [done|]. split; [done|]. intros i b Hb.
    pose proof (lookup_lt_Some _ _ _ Hb). specialize (Hr i b Hb).
    unfold byte_at in Heq. rewrite <- Heq by lia. done. }
  destruct (gm_read_slice m' a n) eqn:E1.
  - symmetry. by apply (Himp m' m).
  - destruct (gm_read_slice m a n) eqn:E2; [|done].
    apply (Himp m m') in E2; [congruence|]. intros. symmetry. auto.
Qed.

Lemma gm_read_write_same m a bs :
  bs ≠ [] → Forall is_byte bs → gm_check_range m a (Z.of_nat (length bs)) = true →
  gm_read_slice (gm_write_slice m a bs).2 a (Z.of_nat (length bs)) = Some bs.
Proof.
  intros Hne Hb Hc. apply gm_read_iff.
  - destruct bs; [done|simpl; lia].
  - split; [done|]. intros i b Hi. by apply gm_write_read.
Qed.

End laws.
