(* ===== verification/FileRanges.v ===== *)
(** * File-backed RAM runs ([FileRanges] of [vmm-memory-backend/src/backend.rs])

    The interval map that remembers which runs of packed RAM are private
    mappings of which file. A run is keyed by its first RAM offset and holds
    its length, its file and the file offset of its first byte. The map
    refines a partial function from RAM offsets to (file, file offset):
    [forget] removes a range from it and [record] maps a range, whatever
    splits that takes.

    A file is identified by its (device, inode) pair, the key the code shares
    handles by. Offsets are [u64]; runs lie inside guest RAM, so their ends do
    not overflow and are written as plain sums. *)

From S2P Require Import Prelude.

Module FileRanges.

Definition file : Type := Z * Z.

(** (length, file, file offset). *)
Definition run : Type := Z * file * Z.

Record t := mk {
  runs : gmap Z run;
  files : gset file;
}.

Definition empty : t := mk ∅ ∅.

(** The keys of [self.runs.range(..end)], ascending, whose run reaches past
    [start]. *)
Definition overlapping (rs : gmap Z run) (start end_ : Z) : list Z :=
  merge_sort Z.le (map_to_list (filter (fun '(run_start, (run_len, _, _)) =>
     run_start < end_ ∧ start < run_start + run_len) rs)).*1.

(** One iteration of the loop over the overlapping runs. [None] is the panic
    of [expect("listed run")]. *)
Definition forget_one (start end_ : Z) (rs : gmap Z run) (run_start : Z) : option (gmap Z run) :=
  match rs !! run_start with
  | None => None
  | Some (run_len, f, file_offset) =>
      let rs0 := delete run_start rs in
      let run_end := run_start + run_len in
      let rs1 :=
        if run_start <? start
        then <[run_start := (start - run_start, f, file_offset)]> rs0 else rs0 in
      let rs2 :=
        if end_ <? run_end
        then <[end_ := (run_end - end_, f, file_offset + (end_ - run_start))]> rs1 else rs1 in
      Some rs2
  end.

Fixpoint forget_loop (start end_ : Z) (keys : list Z) (rs : gmap Z run) : option (gmap Z run) :=
  match keys with
  | [] => Some rs
  | k :: keys' =>
      match forget_one start end_ rs k with
      | None => None
      | Some rs' => forget_loop start end_ keys' rs'
      end
  end.

Definition used_by (rs : gmap Z run) (f : file) : bool :=
  bool_decide (Exists (fun kr : Z * run => kr.2.1.2 = f) (map_to_list rs)).

(** [Arc::strong_count(file) > 1]: a run, or a handle in [held] elsewhere,
    still refers to the file. *)
Definition retain_files (held : gset file) (rs : gmap Z run) (fs : gset file) : gset file :=
  filter (fun f => used_by rs f = true ∨ f ∈ held) fs.

Definition forget (held : gset file) (r : t) (start len : Z) : option t :=
  let end_ := start + len in
  match forget_loop start end_ (overlapping (runs r) start end_) (runs r) with
  | None => None
  | Some rs => Some (mk rs (retain_files held rs (files r)))
  end.

(** [metadata] is the outcome of [file.metadata()] (and of [try_clone] when
    the file has no shared handle yet). *)
Definition record {E : Type} (held : gset file) (r : t) (start len : Z)
    (metadata : result file E) (file_offset : Z) : option (result t E) :=
  match metadata with
  | Err e => Some (Err e)
  | Ok f =>
      let fs := {[ f ]} ∪ files r in
      match forget ({[ f ]} ∪ held) (mk (runs r) fs) start len with
      | None => None
      | Some r' => Some (Ok (mk (<[start := (len, f, file_offset)]> (runs r')) (files r')))
      end
  end.

End FileRanges.

Import FileRanges.

(** ** The partial function the map stands for *)

(** RAM offset [o] is byte [fo] of file [f]. *)
Definition backed (rs : gmap Z run) (o : Z) (f : file) (fo : Z) : Prop :=
  ∃ s len off, rs !! s = Some (len, f, off) ∧ s ≤ o < s + len ∧ fo = off + (o - s).

(** Runs are non-empty and do not overlap. *)
Definition wf_runs (rs : gmap Z run) : Prop :=
  (∀ s len f off, rs !! s = Some (len, f, off) → 0 < len) ∧
  (∀ s s' len len' f f' off off',
     rs !! s = Some (len, f, off) → rs !! s' = Some (len', f', off') →
     s < s' → s + len ≤ s').

(** Every file a run maps has its shared handle. *)
Definition handles_live (r : t) : Prop :=
  ∀ s len f off, runs r !! s = Some (len, f, off) → f ∈ files r.

Section file_ranges_lemmas.
Implicit Types rs : gmap Z run.

Lemma elem_of_overlapping rs start end_ k :
  k ∈ overlapping rs start end_ ↔
  ∃ len f off, rs !! k = Some (len, f, off) ∧ k < end_ ∧ start < k + len.
Proof.
  unfold overlapping. rewrite merge_sort_Permutation, list_elem_of_fmap. split.
  - intros ([k' [[len f] off]] & -> & Hin).
    apply elem_of_map_to_list, map_lookup_filter_Some in Hin as [? [??]]. simpl. eauto 6.
  - intros (len & f & off & Hk & ? & ?). exists (k, (len, f, off)). split; [done|].
    by apply elem_of_map_to_list, map_lookup_filter_Some.
Qed.

Lemma overlapping_NoDup rs start end_ : NoDup (overlapping rs start end_).
Proof. unfold overlapping. rewrite merge_sort_Permutation. apply NoDup_fst_map_to_list. Qed.

(** What one iteration leaves at each key: the left piece at the run's own
    key, the right piece at [end_], the other runs untouched. *)
Lemma forget_one_lookup rs start end_ k len f off rs' :
  rs !! k = Some (len, f, off) → k < end_ → start ≤ end_ →
  forget_one start end_ rs k = Some rs' →
  ∀ s, rs' !! s =
    if decide (s = end_ ∧ end_ < k + len) then Some (k + len - end_, f, off + (end_ - k))
    else if decide (s = k) then
      (if decide (k < start) then Some (start - k, f, off) else None)
    else rs !! s.
Proof.
  intros Hk Hke Hse. unfold forget_one. rewrite Hk. intros [= <-] s.
  destruct (end_ <? k + len) eqn:E1; destruct (k <? start) eqn:E2; bool_to_prop;
    repeat (rewrite ?lookup_insert, ?lookup_delete; repeat case_decide; subst);
    try done; try lia; intuition lia.
Qed.

Lemma forget_one_runs rs start end_ k len f off rs' s l g o :
  rs !! k = Some (len, f, off) → k < end_ → start ≤ end_ →
  forget_one start end_ rs k = Some rs' →
  rs' !! s = Some (l, g, o) ↔
    (s = end_ ∧ end_ < k + len ∧ l = k + len - end_ ∧ g = f ∧ o = off + (end_ - k)) ∨
    (s = k ∧ k < start ∧ l = start - k ∧ g = f ∧ o = off) ∨
    (s ≠ k ∧ ¬ (s = end_ ∧ end_ < k + len) ∧ rs !! s = Some (l, g, o)).
Proof.
  intros Hk Hke Hse Hf. rewrite (forget_one_lookup _ _ _ _ _ _ _ _ Hk Hke Hse Hf).
  repeat case_decide; naive_solver lia.
Qed.

Lemma forget_one_backed rs start end_ k len f off rs' :
  wf_runs rs → rs !! k = Some (len, f, off) → k < end_ → start < k + len → start ≤ end_ →
  forget_one start end_ rs k = Some rs' →
  wf_runs rs' ∧
  (∀ o g fo, backed rs' o g fo ↔
     backed rs o g fo ∧ ¬ (start ≤ o < end_ ∧ k ≤ o < k + len)).
Proof.
  intros [Hpos Hd] Hk Hke Hsk Hse Hf.
  assert (Hl := fun s l g o => forget_one_runs _ _ _ _ _ _ _ _ s l g o Hk Hke Hse Hf).
  assert (Hend : ∀ s' l' f' o', rs !! s' = Some (l', f', o') → s' ≠ k →
    0 < l' ∧ (s' + l' ≤ k ∨ k + len ≤ s')).
  { intros s' l' f' o' Hs' Hne. split; [eauto|].
    destruct (Z.lt_ge_cases s' k) as [Hlt|Hge].
    - left. eapply Hd; eauto.
    - right. eapply (Hd k s'); eauto. lia. }
  split; [split|].
  - intros s l g o Hs. apply Hl in Hs as [?|[?|(? & ? & Hs)]]; [lia..|eauto].
  - intros s s' l l' g g' o o' Hs Hs' Hlt.
    apply Hl in Hs as [?|[?|(? & ? & Hs)]]; apply Hl in Hs' as [?|[?|(? & ? & Hs')]];
      try (destruct (Hend _ _ _ _ Hs ltac:(lia))); try (destruct (Hend _ _ _ _ Hs' ltac:(lia)));
      try lia. eapply (Hd s s'); eauto.
  - intros o g fo. split.
    + intros (s & l & off' & Hs & Ho & ->).
      apply Hl in Hs as [(-> & ? & -> & -> & ->)|[(-> & ? & -> & -> & ->)|(? & ? & Hs)]].
      * split; [|lia]. exists k, len, off. repeat split; auto; lia.
      * split; [|lia]. exists k, len, off. repeat split; auto; lia.
      * split; [by exists s, l, off'|]. destruct (Hend _ _ _ _ Hs); [done|lia].
    + intros [(s & l & off' & Hs & Ho & ->) Hn].
      destruct (decide (s = k)) as [->|Hne].
      * assert (l = len ∧ g = f ∧ off' = off) as (-> & -> & ->)
          by (rewrite Hk in Hs; by simplify_eq).
        destruct (Z.lt_ge_cases o start).
        -- exists k, (start - k), off. split; [apply Hl; right; left|]; repeat split; lia.
        -- exists end_, (k + len - end_), (off + (end_ - k)).
           split; [apply Hl; left|]; repeat split; lia.
      * exists s, l, off'. split; [apply Hl; right; right|done].
        destruct (Hend _ _ _ _ Hs Hne). repeat split; auto. lia.
Qed.

Lemma forget_loop_backed keys : ∀ rs start end_,
  wf_runs rs → start ≤ end_ → NoDup keys →
  (∀ k, k ∈ keys → ∃ len f off, rs !! k = Some (len, f, off) ∧ k < end_ ∧ start < k + len) →
  ∃ rs', forget_loop start end_ keys rs = Some rs' ∧ wf_runs rs' ∧
    ∀ o f fo, backed rs' o f fo ↔
      backed rs o f fo ∧
      ¬ (start ≤ o < end_ ∧ ∃ k len g off, k ∈ keys ∧ rs !! k = Some (len, g, off) ∧ k ≤ o < k + len).
Proof.
  induction keys as [|k keys IH]; intros rs start end_ Hwf Hse Hnd Hkeys; simpl.
  - exists rs. split; [done|]. split; [done|]. intros. split; [|tauto].
    intros H; split; [done|]. intros [_ (k & ? & ? & ? & Hk & _)]. by apply not_elem_of_nil in Hk.
  - apply NoDup_cons in Hnd as [Hk Hnd].
    destruct (Hkeys k) as (len & f & off & Hrk & Hke & Hsk); [by left|].
    destruct (forget_one start end_ rs k) as [rs1|] eqn:E1;
      [|unfold forget_one in E1; by rewrite Hrk in E1].
    pose proof (forget_one_lookup _ _ _ _ _ _ _ _ Hrk Hke Hse E1) as Hl.
    destruct (forget_one_backed _ _ _ _ _ _ _ _ Hwf Hrk Hke Hsk Hse E1) as [Hwf1 Hb1].
    assert (Hsame : ∀ k', k' ∈ keys → rs1 !! k' = rs !! k').
    { intros k' Hk'. destruct (Hkeys k') as (? & ? & ? & _ & ? & _); [by right|].
      rewrite Hl, decide_False by lia. rewrite decide_False by (by intros ->). done. }
    destruct (IH rs1 start end_ Hwf1 Hse Hnd) as (rs' & Hf & Hwf' & Hb).
    { intros k' Hk'. rewrite Hsame by done. apply Hkeys. by right. }
    exists rs'. split; [done|]. split; [done|]. intros o g fo. rewrite Hb, Hb1. split.
    + intros [[H1 H2] H3]. split; [done|]. intros [Hr (k' & l' & g' & o' & Hin & Hk' & ?)].
      apply elem_of_cons in Hin as [->|Hin].
      * rewrite Hrk in Hk'. simplify_eq. tauto.
      * apply H3. split; [done|]. exists k', l', g', o'. rewrite Hsame by done. done.
    + intros [H1 H2]. split; [split; [done|]|].
      * intros [Hr ?]. apply H2. split; [done|]. exists k, len, f, off. split; [by left|done].
      * intros [Hr (k' & l' & g' & o' & Hin & Hk' & ?)]. apply H2. split; [done|].
        exists k', l', g', o'. rewrite Hsame in Hk' by done. split; [by right|done].
Qed.

Lemma forget_backed held r start len :
  wf_runs (runs r) → 0 ≤ len →
  ∃ r', forget held r start len = Some r' ∧ wf_runs (runs r') ∧
    ∀ o f fo, backed (runs r') o f fo ↔
      backed (runs r) o f fo ∧ ¬ (start ≤ o < start + len).
Proof.
  intros Hwf Hlen. unfold forget.
  destruct (forget_loop_backed (overlapping (runs r) start (start + len)) (runs r)
    start (start + len)) as (rs' & -> & Hwf' & Hb); auto using overlapping_NoDup; [lia|..].
  { intros k Hk. by apply elem_of_overlapping. }
  eexists. split; [done|]. split; [done|]. simpl. intros o f fo. rewrite Hb.
  split; intros [H1 H2]; split; try done; [|tauto].
  intros Ho. apply H2. split; [done|].
  destruct H1 as (s & l & off & Hs & ? & _). exists s, l, f, off.
  split; [|done]. apply elem_of_overlapping. exists l, f, off. repeat split; auto; lia.
Qed.

Lemma backed_first rs s len f off :
  wf_runs rs → rs !! s = Some (len, f, off) → backed rs s f off.
Proof.
  intros [Hpos _] Hs. pose proof (Hpos _ _ _ _ Hs). exists s, len, off. repeat split; auto; lia.
Qed.

Lemma used_by_true rs s len f off : rs !! s = Some (len, f, off) → used_by rs f = true.
Proof.
  intros Hs. apply bool_decide_eq_true, Exists_exists. exists (s, (len, f, off)).
  split; [|done]. by apply elem_of_map_to_list.
Qed.

Lemma forget_handles_live held r start len r' :
  wf_runs (runs r) → 0 ≤ len → handles_live r →
  forget held r start len = Some r' → handles_live r'.
Proof.
  intros Hwf Hlen Hh Hf.
  destruct (forget_backed held r start len Hwf Hlen) as (r'' & Hf' & Hwf' & Hb).
  rewrite Hf' in Hf. simplify_eq. intros s l f off Hs.
  destruct (proj1 (Hb s f off)) as [(s0 & l0 & off0 & Hs0 & _) _]; [by eapply backed_first|].
  unfold forget in Hf'. destruct (forget_loop _ _ _ _) as [rs|]; simplify_eq; simpl in *.
  unfold retain_files. apply elem_of_filter. split; [left; by eapply used_by_true|eauto].
Qed.

Lemma record_keeps_file held r start len r' f :
  f ∈ held → f ∈ files r → forget held r start len = Some r' → f ∈ files r'.
Proof.
  unfold forget. intros Hh Hf. destruct (forget_loop _ _ _ _); intros; simplify_eq. simpl.
  apply elem_of_filter. auto.
Qed.

(** Mapping a range that no run touches. *)
Lemma insert_run_backed rs start len f off0 :
  wf_runs rs → 0 < len → (∀ o g fo, backed rs o g fo → ¬ (start ≤ o < start + len)) →
  wf_runs (<[start := (len, f, off0)]> rs) ∧
  ∀ o g fo, backed (<[start := (len, f, off0)]> rs) o g fo ↔
    (start ≤ o < start + len ∧ g = f ∧ fo = off0 + (o - start)) ∨ backed rs o g fo.
Proof.
  intros [Hpos Hd] Hlen Hfree.
  assert (Hout : ∀ s l g off, rs !! s = Some (l, g, off) →
    0 < l ∧ (s + l ≤ start ∨ start + len ≤ s)).
  { intros s l g off Hs. pose proof (Hpos _ _ _ _ Hs). split; [done|].
    destruct (Z.le_gt_cases (s + l) start); [by left|].
    destruct (Z.le_gt_cases (start + len) s); [by right|].
    destruct (Hfree (Z.max s start) g (off + (Z.max s start - s))); [|lia].
    exists s, l, off. repeat split; auto; lia. }
  assert (Hl : ∀ s l g o, <[start := (len, f, off0)]> rs !! s = Some (l, g, o) ↔
    (s = start ∧ l = len ∧ g = f ∧ o = off0) ∨ (s ≠ start ∧ rs !! s = Some (l, g, o))).
  { intros. rewrite lookup_insert. case_decide; naive_solver. }
  split; [split|].
  - intros s l g o Hs. apply Hl in Hs as [?|[? Hs]]; [lia|eauto].
  - intros s s' l l' g g' o o' Hs Hs' Hlt.
    apply Hl in Hs as [?|[? Hs]]; apply Hl in Hs' as [?|[? Hs']];
      try (destruct (Hout _ _ _ _ Hs)); try (destruct (Hout _ _ _ _ Hs')); try lia.
    eapply (Hd s s'); eauto.
  - intros o g fo. split.
    + intros (s & l & off & Hs & ? & ->).
      apply Hl in Hs as [(-> & -> & -> & ->)|[? Hs]]; [by left|right]. by exists s, l, off.
    + intros [(Ho & -> & ->)|(s & l & off & Hs & Ho & ->)].
      * exists start, len, off0. split; [|done]. apply Hl. by left.
      * exists s, l, off. split; [|done]. apply Hl. right. split; [|done].
        destruct (Hout _ _ _ _ Hs). lia.
Qed.

End file_ranges_lemmas.

(** [record] never panics on a well-formed map, keeps it well-formed with
    a live handle for every file in use, and changes the function from RAM
    offsets to (file, file offset) on the recorded range alone, where it becomes
    the new mapping; runs that straddle an end of the range keep the bytes
    outside it, split in two where they contain it. *)
Theorem record_maps_exactly_the_range {E : Type} held r start len f file_offset :
  wf_runs (runs r) → handles_live r → 0 < len →
  ∃ r', record (E := E) held r start len (Ok f) file_offset = Some (Ok r') ∧
    wf_runs (runs r') ∧ handles_live r' ∧
    ∀ o g fo, backed (runs r') o g fo ↔
      (start ≤ o < start + len ∧ g = f ∧ fo = file_offset + (o - start)) ∨
      (¬ (start ≤ o < start + len) ∧ backed (runs r) o g fo).
Proof.
  intros Hwf Hh Hlen. unfold record. set (r0 := mk (runs r) ({[ f ]} ∪ files r)).
  destruct (forget_backed ({[ f ]} ∪ held) r0 start len) as (r' & Hf & Hwf' & Hb); [done|lia|].
  rewrite Hf.
  assert (handles_live r') as Hh'.
  { eapply forget_handles_live; [..|exact Hf]; [done|lia|]. intros s l g o Hs. simpl in *.
    apply elem_of_union. right. by eapply Hh. }
  destruct (insert_run_backed (runs r') start len f file_offset) as [Hwf2 Hb2]; auto.
  { intros o g fo Ho. by apply Hb in Ho as [_ ?]. }
  eexists. split; [done|]. split; [done|]. split.
  - intros s l g o. simpl. rewrite lookup_insert. case_decide; [|apply Hh'].
    intros; simplify_eq. eapply record_keeps_file; [| |exact Hf]; simpl; set_solver.
  - intros o g fo. simpl. rewrite Hb2, Hb. simpl. tauto.
Qed.

(** A file mapped over [0, 300), the middle of which a second file replaces. *)
Definition ranges_before : FileRanges.t := mk {[ 0 := (300, (1, 1), 4096) ]} {[ (1, 1) ]}.

Lemma ranges_before_wf : wf_runs (runs ranges_before) ∧ handles_live ranges_before.
Proof.
  unfold ranges_before. cbn [runs]. split; [split|].
  - intros s len f off Hs%lookup_singleton_Some. destruct Hs. simplify_eq. lia.
  - intros s s' len len' f f' off off' Hs%lookup_singleton_Some Hs'%lookup_singleton_Some. lia.
  - intros s len f off Hs. cbn [runs] in Hs. apply lookup_singleton_Some in Hs as [_ Hs].
    simplify_eq. cbn [files]. by apply elem_of_singleton.
Qed.

Lemma record_maps_exactly_the_range_witness :
  ∃ r', record (E := unit) ∅ ranges_before 100 50 (Ok (2, 2)) 0 = Some (Ok r') ∧
    runs r' !! 150 = Some (150, (1, 1), 4246) ∧
    ∀ o g fo, backed (runs r') o g fo ↔
      (100 ≤ o < 100 + 50 ∧ g = (2, 2) ∧ fo = 0 + (o - 100)) ∨
      (¬ (100 ≤ o < 100 + 50) ∧ backed (runs ranges_before) o g fo).
Proof.
  destruct (record_maps_exactly_the_range (E := unit) ∅ ranges_before 100 50 (2, 2) 0
    (proj1 ranges_before_wf) (proj2 ranges_before_wf) ltac:(lia)) as (r' & Hr & _ & _ & Hb).
  exists r'. split; [exact Hr|]. split; [|exact Hb].
  pose proof (f_equal (fun x => match x with Some (Ok r) => runs r !! 150 | _ => None end) Hr) as E.
  refine (eq_trans (eq_sym E) _). vm_compute. reflexivity.
Defined.
