(* ===== verification/GuestRam.v ===== *)
(** * Packed guest RAM ([GuestMemory] of [vmm-memory-backend/src/backend.rs])

    Guest RAM is one host mapping; below the MMIO aperture it appears at guest
    physical address zero and what does not fit appears again at 4 GiB. The
    file models the size checks and the regions of [new_with_flags], the two
    address translations, physical reads and writes, the host dirty tracker,
    and page discards. System calls ([mmap], [madvise], the userfaultfd
    discard) are arguments of the operations that make them. *)

From S2P Require Import Prelude Dirty GuestMem FileRanges.

Inductive MemoryError : Type :=
| Region
| Assembly
| OutOfBounds (addr size : Z).

Definition HUGE_PAGE : Z := 2 * 1024 * 1024.

(** [is_multiple_of] on a non-zero divisor. *)
Definition is_multiple_of (x n : Z) : bool := x mod n =? 0.

Module GuestMemory.
Section guest_memory.
Context {M : Type} `{!GuestMemoryBackend M}.

Record t := mk {
  inner : M;
  size_bytes : Z;
  host_dirty : DirtyBitmap.t;
  lazy_page_discard : bool;
  file_backed : bool;
  file_ranges : FileRanges.t;
}.

(** The size that is mapped: huge pages round it up to 2 MiB. *)
Definition actual_size (size_bytes : Z) (huge_pages : bool) : Z :=
  if huge_pages then
    if negb (is_multiple_of size_bytes HUGE_PAGE)
    then ((size_bytes / HUGE_PAGE + 1) * HUGE_PAGE) mod 18446744073709551616
    else size_bytes
  else size_bytes.

(** (guest base, size) of the regions of a mapping of [size] bytes. *)
Definition regions (size : Z) : list (Z * Z) :=
  let low_size := Z.min size MMIO_GAP_START in
  let high_size := size - low_size in
  if high_size =? 0 then [(0, low_size)]
  else [(0, low_size); (MMIO_GAP_END, high_size)].

(** [build] creates the mapping and assembles its regions. *)
Definition new_with_flags (build : list (Z * Z) → result M MemoryError)
    (size_bytes : Z) (huge_pages : bool) : result t MemoryError :=
  if (size_bytes =? 0) || negb (is_multiple_of size_bytes PAGE_SIZE) then Err Region
  else
    let size := actual_size size_bytes huge_pages in
    let? m := build (regions size) in
    Ok (mk m size DirtyBitmap.new false false FileRanges.empty).

Definition gpa_to_offset (size gpa : Z) : option Z :=
  let low_size := Z.min size MMIO_GAP_START in
  if gpa <? low_size then Some gpa
  else
    let high_size := size - low_size in
    if (MMIO_GAP_END <=? gpa) && (gpa - MMIO_GAP_END <? high_size)
    then Some (low_size + (gpa - MMIO_GAP_END))
    else None.

Definition offset_to_gpa (size offset : Z) : option Z :=
  if size <=? offset then None
  else
    let low_size := Z.min size MMIO_GAP_START in
    if offset <? low_size then Some offset
    else Some (MMIO_GAP_END + (offset - low_size)).

Definition gpa_range_to_offset (size gpa len : Z) : option Z :=
  let?o end_ := u64_checked_add gpa len in
  let?o offset := gpa_to_offset size gpa in
  if len =? 0 then Some offset
  else
    let?o last := u64_checked_sub end_ 1 in
    let?o last_offset := gpa_to_offset size last in
    if last_offset =? offset + len - 1 then Some offset else None.

Definition read_phys (g : t) (gpa len : Z) : result (list Z) MemoryError :=
  match gm_read_slice (inner g) gpa len with
  | Some bs => Ok bs
  | None => Err (OutOfBounds gpa len)
  end.

Definition set_inner (g : t) (m : M) : t :=
  mk m (size_bytes g) (host_dirty g) (lazy_page_discard g) (file_backed g) (file_ranges g).

Definition set_host_dirty (g : t) (d : DirtyBitmap.t) : t :=
  mk (inner g) (size_bytes g) d (lazy_page_discard g) (file_backed g) (file_ranges g).

Definition set_file_ranges (g : t) (r : FileRanges.t) : t :=
  mk (inner g) (size_bytes g) (host_dirty g) (lazy_page_discard g) (file_backed g) r.

Definition mark_host_dirty (g : t) (offset len : Z) : t :=
  set_host_dirty g (SoftwareDirtyBitmap.mark_range (host_dirty g) offset len).

Definition drain_host_dirty (g : t) : DirtyBitmap.t * t :=
  let '(d, d') := SoftwareDirtyBitmap.drain (host_dirty g) in (d, set_host_dirty g d').

Definition write_phys (g : t) (gpa : Z) (buf : list Z) : result unit MemoryError * t :=
  let len := Z.of_nat (length buf) in
  match gm_write_slice (inner g) gpa buf with
  | (false, m) => (Err (OutOfBounds gpa len), set_inner g m)
  | (true, m) =>
      let g1 := set_inner g m in
      (Ok tt,
       match gpa_range_to_offset (size_bytes g) gpa len with
       | Some offset => mark_host_dirty g1 offset len
       | None => g1
       end)
  end.

(** The three ways the host releases pages; each returns the memory it
    leaves, or fails. *)
Record DiscardOps := {
  lazy_discard : M → Z → Z → option M;
  map_anonymous : M → Z → Z → option M;
  madvise_dontneed : M → Z → Z → option M;
}.

(** [discard_range] on Linux. [held] are the file handles held elsewhere. *)
Definition discard_range (os : DiscardOps) (held : gset FileRanges.file)
    (g : t) (gpa len : Z) : result unit MemoryError * t :=
  if (len =? 0) || negb (is_multiple_of gpa PAGE_SIZE) || negb (is_multiple_of len PAGE_SIZE)
  then (Err (OutOfBounds gpa len), g)
  else match gpa_range_to_offset (size_bytes g) gpa len with
  | None => (Err (OutOfBounds gpa len), g)
  | Some offset =>
      if lazy_page_discard g then
        match lazy_discard os (inner g) offset len with
        | None => (Err Region, g)
        | Some m => (Ok tt, mark_host_dirty (set_inner g m) offset len)
        end
      else if file_backed g then
        match map_anonymous os (inner g) offset len with
        | None => (Err Region, g)
        | Some m =>
            match FileRanges.forget held (file_ranges g) offset len with
            | None => (Err Region, set_inner g m)
            | Some r => (Ok tt, mark_host_dirty (set_file_ranges (set_inner g m) r) offset len)
            end
        end
      else
        match madvise_dontneed os (inner g) offset len with
        | None => (Err Region, g)
        | Some m => (Ok tt, mark_host_dirty (set_inner g m) offset len)
        end
  end.

(** [map_file_range_private]: [mmap] is the outcome of the system call and
    [metadata] what [FileRanges::record] learns of the file. *)
Definition map_file_range_private (mmap : M → Z → Z → Z → option M)
    (held : gset FileRanges.file) (metadata : result FileRanges.file MemoryError)
    (g : t) (file_offset ram_offset len : Z) : option (result unit MemoryError * t) :=
  if negb (is_multiple_of file_offset PAGE_SIZE) || negb (is_multiple_of ram_offset PAGE_SIZE)
     || negb (is_multiple_of len PAGE_SIZE) || (len =? 0)
  then Some (Err Region, g)
  else match u64_checked_add ram_offset len with
  | None => Some (Err (OutOfBounds ram_offset len), g)
  | Some end_ =>
      if size_bytes g <? end_ then Some (Err (OutOfBounds ram_offset len), g)
      else if 9223372036854775807 <? file_offset then Some (Err Region, g)
      else match mmap (inner g) ram_offset len file_offset with
      | None => Some (Err Region, g)
      | Some m =>
          let g1 := mk m (size_bytes g) (host_dirty g) (lazy_page_discard g) true (file_ranges g) in
          match FileRanges.record held (file_ranges g) ram_offset len metadata file_offset with
          | None => None
          | Some (Err e) => Some (Err e, g1)
          | Some (Ok r) => Some (Ok tt, set_file_ranges g1 r)
          end
      end
  end.

End guest_memory.
Arguments t : clear implicits.
Arguments DiscardOps : clear implicits.
End GuestMemory.

Import GuestMemory.

(** ** Address translation *)
Section translation.

Lemma gpa_to_offset_Some size gpa o :
  0 ≤ gpa → 0 < size →
  gpa_to_offset size gpa = Some o ↔
  ((gpa < size ∧ gpa < MMIO_GAP_START ∧ o = gpa) ∨
   (MMIO_GAP_END ≤ gpa ∧ gpa - MMIO_GAP_END < size - MMIO_GAP_START ∧
    o = MMIO_GAP_START + (gpa - MMIO_GAP_END))).
Proof.
  intros Hg Hs. unfold gpa_to_offset.
  destruct (gpa <? Z.min size MMIO_GAP_START) eqn:E1; bool_to_prop.
  - split; [intros [= <-]; left; lia|].
    intros [?|?]; [f_equal; lia|unfold MMIO_GAP_START, MMIO_GAP_END in *; lia].
  - destruct ((MMIO_GAP_END <=? gpa) && _) eqn:E2.
    + bool_to_prop. split; [intros [= <-]; right; lia|intros [?|?]; f_equal; lia].
    + split; [done|]. apply andb_false_iff in E2 as [?|?]; bool_to_prop; lia.
Qed.

Lemma gpa_to_offset_bound size gpa o :
  0 ≤ gpa → 0 < size → gpa_to_offset size gpa = Some o → 0 ≤ o < size.
Proof.
  intros Hg Hs H. apply gpa_to_offset_Some in H; [|done..].
  unfold MMIO_GAP_START, MMIO_GAP_END in *. lia.
Qed.

Lemma gpa_to_offset_packed size gpa o :
  0 ≤ gpa → 0 < size → gpa_to_offset size gpa = Some o →
  ¬ (MMIO_GAP_START ≤ gpa < MMIO_GAP_END) ∧ packed_offset gpa = o.
Proof.
  intros Hg Hs H. apply gpa_to_offset_Some in H; [|done..]. unfold packed_offset.
  destruct (gpa <? MMIO_GAP_START) eqn:E; bool_to_prop;
    unfold MMIO_GAP_START, MMIO_GAP_END in *; lia.
Qed.

Lemma gpa_range_to_offset_Some size gpa len o :
  0 ≤ gpa → 0 < size → 0 < len → gpa_range_to_offset size gpa len = Some o →
  gpa + len ≤ U64_MAX ∧
  ∀ i, 0 ≤ i < len → gpa_to_offset size (gpa + i) = Some (o + i).
Proof.
  intros Hg Hs Hl. unfold gpa_range_to_offset.
  destruct (u64_checked_add gpa len) as [e|] eqn:Ea; [|done].
  apply u64_checked_add_Some in Ea as [-> Hm].
  destruct (gpa_to_offset size gpa) as [o0|] eqn:E0; [|done].
  rewrite (proj2 (Z.eqb_neq len 0)) by lia.
  rewrite (proj2 (u64_checked_sub_Some _ _ _)) by (split; [done|lia]).
  destruct (gpa_to_offset size (gpa + len - 1)) as [o1|] eqn:E1; [|done].
  destruct (o1 =? o0 + len - 1) eqn:E; [|done]. bool_to_prop. intros [= <-].
  split; [done|]. intros i Hi.
  rewrite gpa_to_offset_Some in E0, E1 by lia. apply gpa_to_offset_Some; [lia..|].
  unfold MMIO_GAP_START, MMIO_GAP_END in *. lia.
Qed.

(** Marking the packed image of a contiguous range covers each of its bytes. *)
Lemma mark_packed_covers d size gpa len o a :
  0 ≤ gpa → 0 < size ≤ 4611686018427387904 → gpa_range_to_offset size gpa len = Some o →
  gpa ≤ a < gpa + len →
  page_dirty (SoftwareDirtyBitmap.mark_range d o len) (packed_offset a).
Proof.
  intros Hg Hs Ho Ha.
  destruct (gpa_range_to_offset_Some size gpa len o) as [_ Hi]; [lia..|done|].
  pose proof (Hi 0 ltac:(lia)) as H0. pose proof (Hi (len - 1) ltac:(lia)) as H1.
  specialize (Hi (a - gpa) ltac:(lia)).
  apply gpa_to_offset_bound in H0; [|lia..]. apply gpa_to_offset_bound in H1; [|lia..].
  apply gpa_to_offset_packed in Hi as [_ Hi]; [|lia..].
  replace (gpa + (a - gpa)) with a in Hi by lia. rewrite Hi.
  unfold SoftwareDirtyBitmap.mark_range. rewrite (proj2 (Z.eqb_neq len 0)) by lia.
  apply page_dirty_mark_range; [unfold U64_MAX; lia..|].
  right. exists (o + (a - gpa)). split; [lia|done].
Qed.

End translation.

(** Packing and unpacking are inverse: a guest physical address has a
    packed offset exactly when that offset unpacks to the address. *)
Theorem offset_gpa_inverse size gpa offset :
  0 < size → 0 ≤ gpa → 0 ≤ offset →
  gpa_to_offset size gpa = Some offset ↔ offset_to_gpa size offset = Some gpa.
Proof.
  intros Hs Hg Ho. rewrite gpa_to_offset_Some by done. unfold offset_to_gpa.
  destruct (size <=? offset) eqn:E; bool_to_prop.
  - split; [|done]. unfold MMIO_GAP_START, MMIO_GAP_END in *. lia.
  - destruct (offset <? Z.min size MMIO_GAP_START) eqn:E2; bool_to_prop;
      (split; [intros H; f_equal|intros [= <-]]); unfold MMIO_GAP_START, MMIO_GAP_END in *; lia.
Qed.

Lemma offset_gpa_inverse_witness :
  gpa_to_offset 5368709120 4294967297 = Some 3489660929 ∧
  offset_to_gpa 5368709120 3489660929 = Some 4294967297.
Proof.
  assert (gpa_to_offset 5368709120 4294967297 = Some 3489660929) as E by (vm_compute; reflexivity).
  split; [exact E|].
  exact (proj1 (offset_gpa_inverse 5368709120 4294967297 3489660929
    ltac:(lia) ltac:(lia) ltac:(lia)) E).
Defined.

(** The split of a guest range at the aperture that the software dirty
    tracker makes agrees with the packing of RAM: marking a guest range marks
    the page of every byte of it that is RAM, also when the range crosses the
    aperture. *)
Theorem mark_guest_range_matches_translation d size gpa len a o :
  0 < size → 0 ≤ gpa → gpa + len ≤ U64_MAX → gpa ≤ a < gpa + len →
  gpa_to_offset size a = Some o →
  page_dirty (SoftwareDirtyBitmap.mark_guest_range d gpa len) o.
Proof.
  intros Hs Hg Hm Ha Ho. apply gpa_to_offset_packed in Ho as [? <-]; [|lia..].
  by apply mark_guest_range_covers.
Qed.

(** The range crosses the aperture of a 5 GiB guest. *)
Lemma mark_guest_range_matches_translation_witness :
  page_dirty (SoftwareDirtyBitmap.mark_guest_range DirtyBitmap.new 3489660000 805310000) 3489662632.
Proof.
  apply (mark_guest_range_matches_translation DirtyBitmap.new 5368709120 3489660000 805310000
    4294969000 3489662632); [lia|lia|unfold U64_MAX; lia|lia|vm_compute; reflexivity].
Defined.

(** ** Dirty coverage

    [dirty_covers m m' d]: every byte of RAM that differs between [m] and
    [m'] lies on a page that [d] records. It is what a diff snapshot built
    from [d] needs of every host-side writer. *)
Definition dirty_covers {M : Type} `{!GuestMemoryBackend M} (m m' : M) (d : DirtyBitmap.t) : Prop :=
  ∀ a, ¬ (MMIO_GAP_START ≤ a < MMIO_GAP_END) →
    byte_at m' a ≠ byte_at m a → page_dirty d (packed_offset a).

Definition dirty_le (d d' : DirtyBitmap.t) : Prop := ∀ o, page_dirty d o → page_dirty d' o.

Section covers.
Context {M : Type} `{!GuestMemoryBackend M} `{!GuestMemoryLaws M}.
Implicit Types (m : M) (d : DirtyBitmap.t).

#[export] Instance dirty_le_preorder : PreOrder dirty_le.
Proof. split; unfold dirty_le; [intros ???|intros ??????]; auto. Qed.

Lemma dirty_covers_refl m d : dirty_covers m m d.
Proof. intros a _ H. by destruct H. Qed.

Lemma dirty_covers_trans m1 m2 m3 d1 d2 :
  dirty_covers m1 m2 d1 → dirty_le d1 d2 → dirty_covers m2 m3 d2 → dirty_covers m1 m3 d2.
Proof.
  intros H1 Hle H2 a Ha Hne.
  destruct (decide (byte_at m2 a = byte_at m1 a)) as [He|Hne'].
  - apply H2; [done|]. by rewrite He.
  - apply Hle. by apply H1.
Qed.

Lemma dirty_le_mark_guest d gpa len : dirty_le d (SoftwareDirtyBitmap.mark_guest_range d gpa len).
Proof. intros o. auto with tarit. Qed.

(** A write that is marked over its whole length is covered. *)
Lemma dirty_covers_write m d a bs :
  0 ≤ a → a + Z.of_nat (length bs) ≤ U64_MAX →
  dirty_covers m (gm_write_slice m a bs).2
    (SoftwareDirtyBitmap.mark_guest_range d a (Z.of_nat (length bs))).
Proof.
  intros Ha Hm x Hx Hne. apply mark_guest_range_covers; [done..| |done].
  destruct (decide (a ≤ x < a + Z.of_nat (length bs))) as [|Hn]; [done|].
  exfalso. apply Hne. by apply gm_write_frame.
Qed.

End covers.

#[export] Hint Resolve dirty_covers_refl dirty_le_mark_guest : tarit.

(** The regions of a [size]-byte guest: an address is backed exactly when it
    translates to a packed offset. *)
Definition laid_out {M : Type} `{!GuestMemoryBackend M} (m : M) (size : Z) : Prop :=
  0 < size ≤ 4611686018427387904 ∧
  ∀ a, 0 ≤ a → gm_check_range m a 1 = true ↔ is_Some (gpa_to_offset size a).

Section laid_out_lemmas.
Context {M : Type} `{!GuestMemoryBackend M} `{!GuestMemoryLaws M}.
Implicit Types m : M.

(** A valid range never crosses the aperture, so it is contiguous packed. *)
Lemma laid_out_range m size gpa len :
  laid_out m size → 0 < len → gm_check_range m gpa len = true →
  ∃ o, gpa_range_to_offset size gpa len = Some o ∧ 0 ≤ gpa ∧ gpa + len ≤ U64_MAX.
Proof.
  intros [Hs Hlay] Hl Hc.
  destruct (gm_check_range_u64_bound _ _ _ Hl Hc) as [Hg _].
  rewrite gm_check_range_iff in Hc by done.
  assert (Hall : ∀ i, gpa ≤ i < gpa + len → is_Some (gpa_to_offset size i)).
  { intros i Hi. apply Hlay; [lia|]. by apply Hc. }
  destruct (Hall gpa) as [o Ho]; [lia|]. destruct (Hall (gpa + len - 1)) as [o1 Ho1]; [lia|].
  assert (¬ (gpa ≤ MMIO_GAP_START < gpa + len)) as Hgap.
  { intros ?. destruct (Hall MMIO_GAP_START) as [x Hx]; [done|].
    apply gpa_to_offset_Some in Hx; unfold MMIO_GAP_START, MMIO_GAP_END in *; lia. }
  assert (Ho' := Ho). assert (Ho1' := Ho1).
  rewrite gpa_to_offset_Some in Ho', Ho1' by lia.
  assert (gpa + len ≤ U64_MAX) by (unfold MMIO_GAP_START, MMIO_GAP_END, U64_MAX in *; lia).
  exists o. split; [|done]. unfold gpa_range_to_offset.
  rewrite (proj2 (u64_checked_add_Some _ _ _)) by eauto. rewrite Ho.
  rewrite (proj2 (Z.eqb_neq len 0)) by lia.
  rewrite (proj2 (u64_checked_sub_Some _ _ _)) by (split; [done|lia]). rewrite Ho1.
  rewrite (proj2 (Z.eqb_eq _ _)); [done|]. unfold MMIO_GAP_START, MMIO_GAP_END in *. lia.
Qed.

Lemma laid_out_write m size a bs : laid_out m size → laid_out (gm_write_slice m a bs).2 size.
Proof. intros [Hs Hl]. split; [done|]. intros. by rewrite gm_write_check, Hl. Qed.

End laid_out_lemmas.

(** A physical write to backed memory succeeds, reads back, and leaves
    every byte it changed on a page the host dirty tracker records; a write
    that is not wholly backed fails with the range it was asked for. *)
Theorem write_phys_covered {M : Type} `{!GuestMemoryBackend M} `{!GuestMemoryLaws M}
    (g : GuestMemory.t M) gpa buf :
  laid_out (inner g) (size_bytes g) → buf ≠ [] → Forall is_byte buf →
  let '(r, g') := write_phys g gpa buf in
  let len := Z.of_nat (length buf) in
  if gm_check_range (inner g) gpa len then
    r = Ok tt ∧ read_phys g' gpa len = Ok buf ∧
    dirty_covers (inner g) (inner g') (host_dirty g') ∧ laid_out (inner g') (size_bytes g')
  else r = Err (OutOfBounds gpa len).
Proof.
  intros Hlay Hne Hb. pose proof (gm_write_ok (inner g) gpa buf Hne) as Hok.
  assert (0 < Z.of_nat (length buf)) as Hlen by (destruct buf; [done|simpl; lia]).
  unfold write_phys. destruct (gm_write_slice (inner g) gpa buf) as [ok m] eqn:Hw.
  simpl in Hok. destruct ok; rewrite <- Hok; [|done].
  assert (m = (gm_write_slice (inner g) gpa buf).2) as Hm by (by rewrite Hw).
  destruct (laid_out_range _ _ _ _ Hlay Hlen (eq_sym Hok)) as (o & Ho & Hg & Hmax).
  rewrite Ho. split; [done|].
  assert (Hinner : ∀ off l, inner (mark_host_dirty (set_inner g m) off l) = m) by done.
  unfold read_phys. rewrite Hinner. split_and!.
  - rewrite Hm, gm_read_write_same by done. done.
  - intros a Hgap Ha. destruct (decide (gpa ≤ a < gpa + Z.of_nat (length buf))) as [Hi|Hn].
    + simpl. eapply mark_packed_covers; eauto. by destruct Hlay.
    + destruct Ha. rewrite Hm. by apply gm_write_frame.
  - subst m. by apply laid_out_write.
Qed.

(** A 64-byte guest. *)
Definition small_ram : GuestMemory.t (gmap Z Z) :=
  GuestMemory.mk (ByteMap.zeros 0 64) 64 DirtyBitmap.new false false FileRanges.empty.

Lemma small_ram_laid_out : laid_out (inner small_ram) (size_bytes small_ram).
Proof.
  split; [simpl; lia|]. intros a Ha. unfold small_ram. cbn [inner size_bytes].
  rewrite bm_zeros_check by (unfold U64_MAX; lia).
  split; [intros ?; exists a|intros [o Ho]; revert Ho]; rewrite gpa_to_offset_Some by lia;
    unfold MMIO_GAP_START, MMIO_GAP_END; lia.
Qed.

Lemma write_phys_covered_witness :
  gm_check_range (inner small_ram) 16 3 = true ∧
  let '(r, g') := write_phys small_ram 16 [1; 2; 3] in
  let len := Z.of_nat (length [1; 2; 3]) in
  if gm_check_range (inner small_ram) 16 len then
    r = Ok tt ∧ read_phys g' 16 len = Ok [1; 2; 3] ∧
    dirty_covers (inner small_ram) (inner g') (host_dirty g') ∧
    laid_out (inner g') (size_bytes g')
  else r = Err (OutOfBounds 16 len).
Proof.
  split; [vm_compute; reflexivity|].
  refine (write_phys_covered small_ram 16 [1; 2; 3] small_ram_laid_out _ _).
  - done.
  - repeat constructor; lia.
Defined.
