(* ===== verification/KvmLog.v ===== *)
(** * KVM memory slots and the dirty log ([vmm-memory-backend/src/kvm.rs],
      [kvm_dirty.rs])

    Guest RAM is registered with KVM as one slot per region; a dirty log of
    one bit per page belongs to each slot and is cleared when it is read. The
    machine is the class [KvmVm], which states what the kernel documents of
    the calls the code makes; [SlotLogs] is an instance. The theorems say that
    a read returns exactly the logged pages, at their packed offsets, and
    what it loses when it fails between two slots. *)

From S2P Require Import Prelude Dirty GuestMem FileRanges GuestRam.

Definition KVM_MEM_LOG_DIRTY_PAGES : Z := 1.

Record kvm_userspace_memory_region := mkUserRegion {
  r_slot : Z;
  r_flags : Z;
  r_guest_phys_addr : Z;
  r_memory_size : Z;
  r_userspace_addr : Z;
}.

(** What the code uses of a machine: [kvm_bit v s n] is the log bit of page
    [n] of slot [s]; [kvm_logging] whether writes to the slot are logged;
    [kvm_write] is what a write by a virtual processor leaves in the log. *)
Class KvmVm (V : Type) := {
  set_user_memory_region : V → kvm_userspace_memory_region → bool * V;
  get_dirty_log : V → Z → Z → option (list Z) * V;
  kvm_write : V → Z → Z → V;
  kvm_bit : V → Z → Z → bool;
  kvm_logging : V → Z → bool;
}.

Class KvmLaws (V : Type) `{!KvmVm V} : Prop := {
  (** A successful read returns the bits of the slot and clears them. *)
  kvm_read_ok v s len ws v' :
    get_dirty_log v s len = (Some ws, v') →
    (∀ n, 0 ≤ n < len / PAGE_SIZE →
      kvm_bit v s n = match ws !! Z.to_nat (n / 64) with Some w => Z.testbit w (n mod 64) | None => false end) ∧
    (∀ k w bit, ws !! k = Some w → 0 ≤ bit < 64 → Z.testbit w bit = true →
      Z.of_nat k * 64 + bit < len / PAGE_SIZE) ∧
    (∀ n, kvm_bit v' s n = false) ∧ (∀ s' n, s' ≠ s → kvm_bit v' s' n = kvm_bit v s' n);
  (** A failed one leaves the logs alone. *)
  kvm_read_err v s len v' : get_dirty_log v s len = (None, v') → ∀ s' n, kvm_bit v' s' n = kvm_bit v s' n;
  kvm_read_logging v s len s' : kvm_logging (get_dirty_log v s len).2 s' = kvm_logging v s';
  kvm_write_bit v s n s' n' :
    kvm_bit (kvm_write v s n) s' n' =
    (kvm_logging v s && bool_decide (s' = s ∧ n' = n)) || kvm_bit v s' n';
  kvm_write_logging v s n s' : kvm_logging (kvm_write v s n) s' = kvm_logging v s';
  (** Registering a slot for logging keeps what its log has. *)
  kvm_register_bit v r b v' s n :
    set_user_memory_region v r = (b, v') → has_bits (r_flags r) KVM_MEM_LOG_DIRTY_PAGES = true →
    kvm_bit v s n = true → kvm_bit v' s n = true;
  kvm_register_logging v r b v' s :
    set_user_memory_region v r = (b, v') → has_bits (r_flags r) KVM_MEM_LOG_DIRTY_PAGES = true →
    kvm_logging v' s = (b && bool_decide (s = r_slot r)) || kvm_logging v s;
}.

Inductive KvmDirtyError : Type :=
| GetDirtyLog (slot : Z)
| InvalidRegionMapping (gpa : Z).

Section kvm.
Context {V : Type} `{!KvmVm V}.

(** [GuestMemory::register]; [host_ptr] is the host address of a region. *)
Fixpoint register_regions (host_ptr : Z → Z) (flags slot : Z) (rs : list (Z * Z)) (slots : list Z) (v : V)
    : result (list Z) MemoryError * V :=
  match rs with
  | [] => (Ok slots, v)
  | (gpa, size) :: rs' =>
      match set_user_memory_region v (mkUserRegion slot flags gpa size (host_ptr gpa)) with
      | (false, v') => (Err Region, v')
      | (true, v') => register_regions host_ptr flags (slot + 1) rs' (slots ++ [slot]) v'
      end
  end.

Definition register (host_ptr : Z → Z) (size flags : Z) (v : V) : result (list Z) MemoryError * V :=
  register_regions host_ptr flags 0 (GuestMemory.regions size) [] v.

Definition register_with_dirty_logging (host_ptr : Z → Z) (size : Z) (v : V) : result (list Z) MemoryError * V :=
  register host_ptr size KVM_MEM_LOG_DIRTY_PAGES v.

(** The set bits of one word. *)
Definition mark_log_word (start word_idx w : Z) (b : DirtyBitmap.t) : DirtyBitmap.t :=
  if w =? 0 then b
  else foldl (fun b bit =>
    if Z.land w (Z.shiftl 1 bit) =? 0 then b
    else DirtyBitmap.mark b (start + (word_idx * 64 + bit) * 4096)) b (seqZ 0 64).

Fixpoint mark_log_words (start word_idx : Z) (ws : list Z) (b : DirtyBitmap.t) : DirtyBitmap.t :=
  match ws with
  | [] => b
  | w :: ws' => mark_log_words start (word_idx + 1) ws' (mark_log_word start word_idx w b)
  end.

Fixpoint read_regions (size : Z) (slots : list Z) (idx : nat) (rs : list (Z * Z)) (b : DirtyBitmap.t) (v : V)
    : result DirtyBitmap.t KvmDirtyError * V :=
  match rs with
  | [] => (Ok b, v)
  | (gpa, len) :: rs' =>
      let slot := default (as_u32 (Z.of_nat idx)) (slots !! idx) in
      match GuestMemory.gpa_to_offset size gpa with
      | None => (Err (InvalidRegionMapping gpa), v)
      | Some start =>
          match get_dirty_log v slot len with
          | (None, v') => (Err (GetDirtyLog slot), v')
          | (Some ws, v') => read_regions size slots (S idx) rs' (mark_log_words start 0 ws b) v'
          end
      end
  end.

Definition read_dirty_log (size : Z) (slots : list Z) (v : V) : result DirtyBitmap.t KvmDirtyError * V :=
  read_regions size slots 0 (GuestMemory.regions size) DirtyBitmap.new v.

End kvm.

(** ** Which pages are logged *)

(** Pages of RAM below the aperture. *)
Definition low_pages (size : Z) : Z := Z.min size MMIO_GAP_START / PAGE_SIZE.

(** The slot of a packed page and its number in it. *)
Definition page_slot (size p : Z) : Z * Z := if p <? low_pages size then (0, p) else (1, p - low_pages size).

Definition logged {V : Type} `{!KvmVm V} (size : Z) (v : V) (p : Z) : Prop :=
  0 ≤ p < size / PAGE_SIZE ∧ kvm_bit v (page_slot size p).1 (page_slot size p).2 = true.

(** What RAM is: whole pages, the slots numbered as [register] does. *)
Definition ram_size (size : Z) : Prop := 0 < size ≤ U64_MAX ∧ size mod PAGE_SIZE = 0.

Definition numbered_slots (size : Z) : list Z := seqZ 0 (Z.of_nat (length (GuestMemory.regions size))).

Section log_lemmas.
Context {V : Type} `{!KvmVm V} `{!KvmLaws V}.
Implicit Types (v : V) (b : DirtyBitmap.t).

Lemma dirty_log_word start i w b p :
  p ∈ DirtyBitmap.dirty (mark_log_word start i w b) ↔
  p ∈ DirtyBitmap.dirty b ∨
  ∃ bit, 0 ≤ bit < 64 ∧ Z.testbit w bit = true ∧ p = (start + (i * 64 + bit) * 4096) / PAGE_SIZE.
Proof.
  unfold mark_log_word. destruct (w =? 0) eqn:E; bool_to_prop.
  - subst. split; [tauto|]. intros [?|(bit & _ & Hb & _)]; [done|]. by rewrite Z.bits_0 in Hb.
  - rewrite (dirty_log_bits (fun bit => start + (i * 64 + bit) * 4096)). setoid_rewrite elem_of_seqZ.
    split; (intros [?|(bit & ? & Hb & ->)]; [by left|right; exists bit]).
    + rewrite land_bit in Hb by lia. done.
    + rewrite land_bit by lia. done.
Qed.

Lemma dirty_log_words start ws : ∀ i b p,
  p ∈ DirtyBitmap.dirty (mark_log_words start i ws b) ↔
  p ∈ DirtyBitmap.dirty b ∨
  ∃ (k : nat) w bit, ws !! k = Some w ∧ 0 ≤ bit < 64 ∧ Z.testbit w bit = true ∧
    p = (start + ((i + Z.of_nat k) * 64 + bit) * 4096) / PAGE_SIZE.
Proof.
  induction ws as [|w ws IH]; intros i b p; cbn [mark_log_words].
  { split; [tauto|]. by intros [?|(k & w & bit & Hk & _)]. }
  rewrite IH, dirty_log_word. split.
  - intros [[?|(bit & ? & ? & ->)]|(k & w' & bit & Hk & ? & ? & ->)]; [by left|right..].
    + exists 0%nat, w, bit. rewrite Z.add_0_r. done.
    + exists (S k), w', bit. do 3 (split; [done|]). do 3 f_equal. lia.
  - intros [?|([|k] & w' & bit & Hk & ? & ? & ->)]; [by do 2 left| |].
    + left. right. injection Hk as ->. exists bit. rewrite Z.add_0_r. done.
    + right. exists k, w', bit. do 3 (split; [done|]). do 3 f_equal. lia.
Qed.

(** One region: what a read adds is the pages its log has. *)
Lemma read_region_pages v s len ws v' start b p :
  get_dirty_log v s len = (Some ws, v') → start mod PAGE_SIZE = 0 →
  p ∈ DirtyBitmap.dirty (mark_log_words start 0 ws b) ↔
  p ∈ DirtyBitmap.dirty b ∨ ∃ n, 0 ≤ n < len / PAGE_SIZE ∧ kvm_bit v s n = true ∧ p = start / PAGE_SIZE + n.
Proof.
  intros Hr Hs. destruct (kvm_read_ok _ _ _ _ _ Hr) as (Hbit & Hmax & _). rewrite dirty_log_words.
  apply Morphisms_Prop.or_iff_morphism; [done|]. unfold PAGE_SIZE in *. split.
  - intros (k & w & bit & Hk & ? & Ht & ->). specialize (Hmax k w bit Hk ltac:(lia) Ht).
    exists (Z.of_nat k * 64 + bit). split; [lia|]. split; [|zlia]. rewrite Hbit by lia.
    replace ((Z.of_nat k * 64 + bit) / 64) with (Z.of_nat k) by zlia.
    replace ((Z.of_nat k * 64 + bit) mod 64) with bit by zlia. by rewrite Nat2Z.id, Hk.
  - intros (n & ? & Hn & ->). rewrite Hbit in Hn by lia.
    destruct (ws !! Z.to_nat (n / 64)) as [w|] eqn:Hk; [|done].
    exists (Z.to_nat (n / 64)), w, (n mod 64). do 2 (split; [done || zlia|]). split; [done|zlia].
Qed.

Lemma low_region size :
  ram_size size → GuestMemory.gpa_to_offset size 0 = Some 0 ∧ Z.min size MMIO_GAP_START mod PAGE_SIZE = 0.
Proof.
  unfold ram_size, GuestMemory.gpa_to_offset, MMIO_GAP_START, PAGE_SIZE. intros [? ?].
  destruct (0 <? Z.min size 3489660928) eqn:E; bool_to_prop; [|lia]. split; [done|].
  destruct (Z.min_spec size 3489660928) as [[_ ->]|[_ ->]]; done.
Qed.

(** RAM in one region or in two. *)
Lemma ram_regions size :
  ram_size size →
  (size ≤ MMIO_GAP_START ∧ GuestMemory.regions size = [(0, size)]) ∨
  (MMIO_GAP_START < size ∧
   GuestMemory.regions size = [(0, MMIO_GAP_START); (MMIO_GAP_END, size - MMIO_GAP_START)] ∧
   GuestMemory.gpa_to_offset size MMIO_GAP_END = Some MMIO_GAP_START).
Proof.
  intros [? ?]. unfold GuestMemory.regions, GuestMemory.gpa_to_offset.
  destruct (Z.le_gt_cases size MMIO_GAP_START); [left|right].
  - rewrite (Z.min_l size) by done. rewrite Z.sub_diag. done.
  - rewrite (Z.min_r size) by lia. destruct (size - MMIO_GAP_START =? 0) eqn:E; bool_to_prop; [lia|].
    split; [done|]. split; [done|]. cbn [Z.ltb Z.leb Z.compare MMIO_GAP_END MMIO_GAP_START].
    rewrite (proj2 (Z.ltb_ge MMIO_GAP_END MMIO_GAP_START)), Z.leb_refl, Z.sub_diag by done.
    rewrite (proj2 (Z.ltb_lt 0 (size - MMIO_GAP_START))) by lia. done.
Qed.

Lemma page_slot_low size p : p < low_pages size → page_slot size p = (0, p).
Proof. intros. unfold page_slot. by rewrite (proj2 (Z.ltb_lt _ _)). Qed.

Lemma page_slot_high size p : low_pages size ≤ p → page_slot size p = (1, p - low_pages size).
Proof. intros. unfold page_slot. by rewrite (proj2 (Z.ltb_ge _ _)). Qed.

(** A read that succeeds returns exactly the logged pages, and leaves none. *)
Lemma read_dirty_log_ok size v b v' :
  ram_size size → read_dirty_log size (numbered_slots size) v = (Ok b, v') →
  (∀ p, p ∈ DirtyBitmap.dirty b ↔ logged size v p) ∧ (∀ p, ¬ logged size v' p).
Proof.
  intros Hsz. destruct (low_region size Hsz) as [H0 Hmod]. unfold read_dirty_log, numbered_slots.
  destruct (ram_regions size Hsz) as [[Hle ->]|(Hgt & -> & Hhi)]; cbn [length read_regions]; rewrite H0.
  - change (default (as_u32 (Z.of_nat 0)) (seqZ 0 (Z.of_nat 1) !! 0%nat)) with 0.
    destruct (get_dirty_log v 0 size) as [[ws|] v1] eqn:Hr; [|done]. intros [= <- <-].
    assert (low_pages size = size / PAGE_SIZE) as Hlow by (unfold low_pages; by rewrite Z.min_l).
    destruct (kvm_read_ok _ _ _ _ _ Hr) as (_ & _ & Hclr & _). split; intros p.
    + rewrite (read_region_pages _ _ _ _ _ _ _ _ Hr) by done. unfold logged. split.
      * intros [Hf|(n & ? & Hn & ->)]; [by apply not_elem_of_empty in Hf|]. rewrite Z.div_0_l, Z.add_0_l by done.
        rewrite page_slot_low by lia. done.
      * intros [? Hb]. right. exists p. rewrite page_slot_low in Hb by lia. rewrite Z.div_0_l by done. split; [lia|done].
    + intros [? Hb]. rewrite page_slot_low in Hb by lia. simpl in Hb. by rewrite Hclr in Hb.
  - change (default (as_u32 (Z.of_nat 0)) (seqZ 0 (Z.of_nat 2) !! 0%nat)) with 0.
    change (default (as_u32 (Z.of_nat 1)) (seqZ 0 (Z.of_nat 2) !! 1%nat)) with 1. rewrite Hhi.
    destruct (get_dirty_log v 0 MMIO_GAP_START) as [[ws|] v1] eqn:Hr; [|done].
    destruct (get_dirty_log v1 1 (size - MMIO_GAP_START)) as [[ws'|] v2] eqn:Hr'; [|done]. intros [= <- <-].
    assert (low_pages size = MMIO_GAP_START / PAGE_SIZE) as Hlow by (unfold low_pages; by rewrite Z.min_r by lia).
    destruct (kvm_read_ok _ _ _ _ _ Hr) as (_ & _ & Hclr & Hsame).
    destruct (kvm_read_ok _ _ _ _ _ Hr') as (_ & _ & Hclr' & Hsame'). split; intros p.
    + rewrite (read_region_pages _ _ _ _ _ _ _ _ Hr'), (read_region_pages _ _ _ _ _ _ _ _ Hr) by done.
      setoid_rewrite Hsame; [|done]. unfold logged. split.
      * intros [[Hf|(n & ? & Hn & ->)]|(n & ? & Hn & ->)]; [by apply not_elem_of_empty in Hf|..].
        -- rewrite Z.div_0_l, Z.add_0_l, page_slot_low by (done || lia). unfold PAGE_SIZE in *. split; [zlia|done].
        -- rewrite page_slot_high by lia. split; [unfold PAGE_SIZE, MMIO_GAP_START in *; zlia|].
           rewrite Hlow, Z.add_simpl_l. done.
      * intros [? Hb]. destruct (Z.lt_ge_cases p (low_pages size)).
        -- rewrite page_slot_low in Hb by done. left. right. exists p. rewrite Z.div_0_l by done. split; [lia|done].
        -- rewrite page_slot_high in Hb by done. right. exists (p - low_pages size).
           split; [unfold PAGE_SIZE, MMIO_GAP_START in *; zlia|]. split; [done|lia].
    + intros [? Hb]. destruct (Z.lt_ge_cases p (low_pages size)).
      * rewrite page_slot_low in Hb by done. simpl in Hb. by rewrite Hsame', Hclr in Hb.
      * rewrite page_slot_high in Hb by done. simpl in Hb. by rewrite Hclr' in Hb.
Qed.

(** However a read ends, no page becomes logged. *)
Lemma read_dirty_log_le size slots v p : logged size (read_dirty_log size slots v).2 p → logged size v p.
Proof.
  intros [? Hb]. split; [done|]. revert Hb. generalize (page_slot size p). intros [s n]. simpl.
  unfold read_dirty_log. generalize 0%nat DirtyBitmap.new.
  revert v. induction (GuestMemory.regions size) as [|[gpa len] rs IH]; intros v i b; simpl; [done|].
  destruct (GuestMemory.gpa_to_offset size gpa); [|done].
  destruct (get_dirty_log v _ len) as [[ws|] v1] eqn:Hr; simpl.
  - intros Hb. apply IH in Hb. destruct (kvm_read_ok _ _ _ _ _ Hr) as (_ & _ & Hclr & Hsame).
    destruct (decide (s = default (as_u32 (Z.of_nat i)) (slots !! i))) as [->|Hne].
    + by rewrite Hclr in Hb.
    + by rewrite Hsame in Hb.
  - by rewrite (kvm_read_err _ _ _ _ Hr).
Qed.

Lemma read_dirty_log_logging size slots v s : kvm_logging (read_dirty_log size slots v).2 s = kvm_logging v s.
Proof.
  unfold read_dirty_log. generalize 0%nat DirtyBitmap.new.
  revert v. induction (GuestMemory.regions size) as [|[gpa len] rs IH]; intros v i b; simpl; [done|].
  destruct (GuestMemory.gpa_to_offset size gpa); [|done].
  destruct (get_dirty_log v _ len) as [[ws|] v1] eqn:Hr; simpl; [rewrite IH|];
    pose proof (kvm_read_logging v (default (as_u32 (Z.of_nat i)) (slots !! i)) len s) as H; by rewrite Hr in H.
Qed.

(** Enabling the log keeps what is logged, and when it succeeds both slots
    log. *)
Lemma register_regions_ok host_ptr rs : ∀ slot slots v r v',
  register_regions host_ptr KVM_MEM_LOG_DIRTY_PAGES slot rs slots v = (r, v') →
  (∀ s n, kvm_bit v s n = true → kvm_bit v' s n = true) ∧
  (∀ s, kvm_logging v s = true → kvm_logging v' s = true) ∧
  (∀ l, r = Ok l → l = slots ++ seqZ slot (Z.of_nat (length rs)) ∧
    ∀ s, slot ≤ s < slot + Z.of_nat (length rs) → kvm_logging v' s = true).
Proof.
  induction rs as [|[gpa size] rs IH]; intros slot slots v r v' H; simpl in H.
  { injection H as <- <-. do 2 (split; [done|]). intros l [= <-]. rewrite app_nil_r. split; [done|simpl; lia]. }
  destruct (set_user_memory_region v _) as [[] v1] eqn:Hr.
  - destruct (IH _ _ _ _ _ H) as (Hb & Hl & Hok). split; [|split].
    + intros s n Hn. eapply Hb, kvm_register_bit; [apply Hr|done|done].
    + intros s Hs. apply Hl. rewrite (kvm_register_logging _ _ _ _ _ Hr) by done. by rewrite Hs, orb_true_r.
    + intros l ->. destruct (Hok l) as [-> Hall]; [done|]. split.
      * rewrite <- (assoc_L (++)). f_equal. simpl length. rewrite Nat2Z.inj_succ, (seqZ_cons slot (Z.succ _)), Z.pred_succ by lia. done.
      * intros s Hs. simpl length in Hs. destruct (decide (s = slot)) as [->|].
        -- apply Hl. rewrite (kvm_register_logging _ _ _ _ _ Hr) by done. simpl. by rewrite bool_decide_eq_true_2.
        -- apply Hall. lia.
  - injection H as <- <-. split; [|split]; [| |done].
    + intros s n Hn. eapply kvm_register_bit; [apply Hr|done|done].
    + intros s Hs. rewrite (kvm_register_logging _ _ _ _ _ Hr) by done. by rewrite Hs, orb_true_r.
Qed.

(** Writes of virtual processors are logged. *)
Lemma kvm_write_logged size v p q :
  logged size v q → logged size (kvm_write v (page_slot size p).1 (page_slot size p).2) q.
Proof. intros [? Hb]. split; [done|]. by rewrite kvm_write_bit, Hb, orb_true_r. Qed.

Lemma kvm_write_logs size v p :
  0 ≤ p < size / PAGE_SIZE → kvm_logging v (page_slot size p).1 = true →
  logged size (kvm_write v (page_slot size p).1 (page_slot size p).2) p.
Proof. intros ? Hl. split; [done|]. by rewrite kvm_write_bit, Hl, bool_decide_eq_true_2. Qed.

End log_lemmas.

(** ** An instance *)

(** The log of each slot, the slots that log, and those whose reads fail. *)
Record SlotLogs := mkSlotLogs {
  sl_bits : gset (Z * Z);
  sl_logging : gset Z;
  sl_broken : gset Z;
}.

Definition log_word (f : Z → bool) (k : Z) : Z :=
  foldr (fun bit w => if f (k * 64 + bit) then Z.setbit w bit else w) 0 (seqZ 0 64).

Definition log_words (f : Z → bool) (pages : Z) : list Z := log_word f <$> seqZ 0 (div_ceil pages 64).

#[export] Instance slot_logs_vm : KvmVm SlotLogs := {
  set_user_memory_region v r :=
    (true, mkSlotLogs (sl_bits v)
      (if has_bits (r_flags r) KVM_MEM_LOG_DIRTY_PAGES then {[ r_slot r ]} ∪ sl_logging v else sl_logging v) (sl_broken v));
  get_dirty_log v s len :=
    if bool_decide (s ∈ sl_broken v) then (None, v)
    else (Some (log_words (fun n => (n <? len / PAGE_SIZE) && bool_decide ((s, n) ∈ sl_bits v)) (len / PAGE_SIZE)),
      mkSlotLogs (filter (fun b => b.1 ≠ s) (sl_bits v)) (sl_logging v) (sl_broken v));
  kvm_write v s n := if bool_decide (s ∈ sl_logging v) then mkSlotLogs ({[ (s, n) ]} ∪ sl_bits v) (sl_logging v) (sl_broken v) else v;
  kvm_bit v s n := bool_decide ((s, n) ∈ sl_bits v);
  kvm_logging v s := bool_decide (s ∈ sl_logging v);
}.

Section instance_laws.

Lemma log_word_bit f k : ∀ j, 0 ≤ j < 64 → Z.testbit (log_word f k) j = f (k * 64 + j).
Proof.
  intros j Hj. unfold log_word.
  assert (∀ l, NoDup l → (∀ x, x ∈ l → 0 ≤ x) →
    Z.testbit (foldr (fun bit w => if f (k * 64 + bit) then Z.setbit w bit else w) 0 l) j =
    bool_decide (j ∈ l) && f (k * 64 + j)) as H.
  { induction 1 as [|x l Hx _ IH]; intros Hl; simpl; [by rewrite Z.bits_0|].
    assert (0 ≤ x) by (apply Hl; left). specialize (IH ltac:(intros; apply Hl; by right)).
    destruct (f (k * 64 + x)) eqn:E.
    - rewrite Z.setbit_eqb, IH by done. destruct (x =? j) eqn:Ex; bool_to_prop.
      + subst. by rewrite (bool_decide_eq_true_2 (j ∈ j :: l)), E by left.
      + simpl. f_equal. apply bool_decide_ext. rewrite elem_of_cons. naive_solver.
    - rewrite IH. destruct (decide (j = x)) as [->|]; [by rewrite E, !andb_false_r|].
      f_equal. apply bool_decide_ext. rewrite elem_of_cons. naive_solver. }
  rewrite H; [|apply NoDup_seqZ|intros x; rewrite elem_of_seqZ; lia].
  rewrite bool_decide_eq_true_2 by (apply elem_of_seqZ; lia). done.
Qed.

Lemma log_words_lookup f pages k w :
  log_words f pages !! k = Some w ↔ w = log_word f (Z.of_nat k) ∧ Z.of_nat k < div_ceil pages 64.
Proof.
  unfold log_words. rewrite list_lookup_fmap, fmap_Some. setoid_rewrite lookup_seqZ. split.
  - intros (x & [-> ?] & ->). split; [f_equal|]; lia.
  - intros [-> ?]. exists (Z.of_nat k). split; [split; lia|done].
Qed.

#[export] Instance slot_logs_laws : KvmLaws SlotLogs.
Proof.
  split; simpl.
  - intros v s len ws v'. case_bool_decide; [done|]. intros [= <- <-]. simpl. unfold PAGE_SIZE. split_and!.
    + intros n Hn. destruct (log_words _ _ !! Z.to_nat (n / 64)) as [w|] eqn:Hw.
      * apply log_words_lookup in Hw as [-> _]. rewrite log_word_bit by zlia.
        replace (Z.of_nat (Z.to_nat (n / 64)) * 64 + n mod 64) with n by zlia.
        by rewrite (proj2 (Z.ltb_lt _ _)) by lia.
      * exfalso. apply lookup_ge_None in Hw. unfold log_words, div_ceil in Hw.
        rewrite length_fmap, length_seqZ in Hw. zlia.
    + intros k w bit Hw ? Ht. apply log_words_lookup in Hw as [-> _]. rewrite log_word_bit in Ht by lia.
      apply andb_prop in Ht as [Ht _]. by apply Z.ltb_lt in Ht.
    + intros n. apply bool_decide_eq_false_2. rewrite elem_of_filter. simpl. naive_solver.
    + intros s' n Hs. apply bool_decide_ext. rewrite elem_of_filter. naive_solver.
  - intros v s len v' H. case_bool_decide; [|done]. by injection H as <-.
  - intros v s len s'. by destruct (bool_decide (s ∈ sl_broken v)).
  - intros v s n s' n'. destruct (decide (s ∈ sl_logging v)).
    + rewrite !(bool_decide_eq_true_2 (s ∈ _)) by done. simpl. rewrite <- bool_decide_or. apply bool_decide_ext. set_solver.
    + by rewrite !(bool_decide_eq_false_2 (s ∈ _)).
  - intros v s n s'. by destruct (bool_decide (s ∈ sl_logging v)).
  - intros v r b v' s n [= <- <-] _. done.
  - intros v r b v' s [= <- <-] Hf. simpl. rewrite Hf. simpl. rewrite <- bool_decide_or. apply bool_decide_ext. set_solver.
Qed.

End instance_laws.

(** ** A read that fails between two slots *)

(** C40: [read_dirty_log] loses pages when it fails half way. RAM above the
    aperture has a second slot; when the log of the first was read, and so
    cleared, and the read of the second fails, the result is an error without
    the pages of the first, and they are not in its log any more either. *)
Theorem read_dirty_loses {V : Type} `{!KvmVm V} `{!KvmLaws V} size (v v1 v2 : V) ws :
  ram_size size → MMIO_GAP_START < size →
  get_dirty_log v 0 MMIO_GAP_START = (Some ws, v1) →
  get_dirty_log v1 1 (size - MMIO_GAP_START) = (None, v2) →
  read_dirty_log size (numbered_slots size) v = (Err (GetDirtyLog 1), v2) ∧
  ∀ p, p < low_pages size → ¬ logged size v2 p.
Proof.
  intros Hsz Hgt Hr Hr'. destruct (low_region size Hsz) as [H0 _].
  destruct (ram_regions size Hsz) as [[Hle _]|(_ & Hrs & Hhi)]; [lia|]. split.
  - unfold read_dirty_log, numbered_slots. rewrite Hrs. cbn [length read_regions]. rewrite H0.
    change (default (as_u32 (Z.of_nat 0)) (seqZ 0 (Z.of_nat 2) !! 0%nat)) with 0.
    change (default (as_u32 (Z.of_nat 1)) (seqZ 0 (Z.of_nat 2) !! 1%nat)) with 1.
    by rewrite Hr, Hhi, Hr'.
  - intros p Hp [_ Hb]. rewrite page_slot_low in Hb by done. simpl in Hb.
    destruct (kvm_read_ok _ _ _ _ _ Hr) as (_ & _ & Hclr & _). by rewrite (kvm_read_err _ _ _ _ Hr'), Hclr in Hb.
Qed.

(** A machine of 4 GiB whose guest wrote pages 5 and 70, and whose second
    log cannot be read. *)
Definition broken_logs : SlotLogs := mkSlotLogs {[ (0, 5); (0, 70) ]} {[ 0; 1 ]} {[ 1 ]}.

Lemma read_dirty_loses_witness :
  logged 4294967296 broken_logs 5 ∧
  ∃ v2, read_dirty_log 4294967296 (numbered_slots 4294967296) broken_logs = (Err (GetDirtyLog 1), v2) ∧
    ∀ p, p < low_pages 4294967296 → ¬ logged 4294967296 v2 p.
Proof.
  split; [by vm_compute|]. eexists. eapply (read_dirty_loses 4294967296 broken_logs).
  - done.
  - done.
  - reflexivity.
  - simpl. by rewrite bool_decide_eq_true_2 by (simpl; set_solver).
Defined.
