(* ===== verification/Lazy.v ===== *)
(** * Lazily restored guest memory ([vmm-memory-backend/src/uffd_restore.rs])

    After a restore guest RAM is empty and registered with userfaultfd; a
    thread resolves each fault from the snapshot, a chunk at a time when the
    snapshot has an integrity manifest. The balloon discards pages beside it,
    and a live snapshot reads pages the guest has not touched.

    The file has the operations: the working-set bitmap, the discard hook with
    [read_untouched], [clone_untouched] and [discard], the start of a restore
    and the fault handler, whose loop body is [handler_iteration]. The kernel
    is the class [UffdKernel]; the answers of [poll] and [read], and what the
    snapshot mapping holds while an iteration reads it, are arguments, so the
    file may change under the handler. [sha256] is the function of the sha2
    crate. *)

From S2P Require Import Prelude Dirty GuestMem FileRanges GuestRam.

Inductive UffdRestoreError : Type :=
| Userfaultfd
| Uffd
| Mmap
| SnapshotLength (expected got : Z)
| SnapshotRange (end_ file_len : Z)
| RestoreIo.

Class Sha256 := sha256 : list Z → list Z.

(** ** Touched chunks: one bit per integrity chunk *)

Record TouchedChunks := mkTouched {
  bits : list Z;
  chunks : Z;
}.

Definition set_word_bit (ws : list Z) (chunk : Z) : list Z :=
  alter (fun w => Z.lor w (Z.shiftl 1 (chunk mod 64))) (Z.to_nat (chunk / 64)) ws.

Definition mark (t : TouchedChunks) (chunk : Z) : TouchedChunks :=
  if chunk <? chunks t then mkTouched (set_word_bit (bits t) chunk) (chunks t) else t.

Definition touched_new (chunks : Z) (initial : list Z) : TouchedChunks :=
  foldl mark (mkTouched (replicate (Z.to_nat (div_ceil chunks 64)) 0) chunks) initial.

Fixpoint ctz (p : positive) : Z :=
  match p with
  | xO p' => 1 + ctz p'
  | _ => 0
  end.

(** [u64::trailing_zeros]. *)
Definition trailing_zeros (w : Z) : Z :=
  match w with
  | Zpos p => ctz p
  | _ => 64
  end.

(** [while word != 0], which clears one of 64 bits each time. *)
Fixpoint word_indices (fuel : nat) (word_index word : Z) : list Z :=
  match fuel with
  | O => []
  | S fuel' =>
      if word =? 0 then []
      else
        let bit := trailing_zeros word in
        let rest := word_indices fuel' word_index (Z.land word (word - 1)) in
        let index := word_index * 64 + bit in
        if index <=? U32_MAX then index :: rest else rest
  end.

Definition indices (t : TouchedChunks) : list Z :=
  concat (imap (fun i w => word_indices 64 (Z.of_nat i) w) (bits t)).

(** ** Where missing pages come from *)

Record ChunkIntegrity := mkIntegrity {
  chunk_size : Z;
  chunk_hashes : list (list Z);
  prefetch : list Z;
}.

Record LazySource := mkSource {
  source_offset : Z;
  source_integrity : option ChunkIntegrity;
  zero_chunk_hash : option (list Z);
}.

Record LazyPageDiscard := mkDiscard {
  guest_base : Z;
  guest_len : Z;
  discarded_pages : list bool;
  discarded_poisoned : bool;
  source : LazySource;
  touched : option TouchedChunks;
}.

Definition set_discarded (d : LazyPageDiscard) (l : list bool) : LazyPageDiscard :=
  mkDiscard (guest_base d) (guest_len d) l (discarded_poisoned d) (source d) (touched d).

Inductive CloneOutcome : Type := Cloned | NotThisRange | Unsupported.

Definition UNTOUCHED_READ_CHUNK : Z := 2 * 1024 * 1024.

Definition working_set (d : LazyPageDiscard) : list Z :=
  match touched d with Some t => indices t | None => [] end.

Definition untouched_chunk (d : LazyPageDiscard) : Z :=
  match source_integrity (source d) with Some i => chunk_size i | None => UNTOUCHED_READ_CHUNK end.

(** [discarded.get(page).copied().unwrap_or(false)]. *)
Definition is_discarded (l : list bool) (page : Z) : bool := default false (l !! Z.to_nat page).

Definition any_discarded (l : list bool) (first n : Z) : bool := existsb (is_discarded l) (seqZ first n).

(** The pages of [bs], which start at page [first], with the discarded ones
    filled with zeros. *)
Fixpoint zero_discarded (l : list bool) (first : Z) (pages : list (list Z)) : list (list Z) :=
  match pages with
  | [] => []
  | p :: ps => (if is_discarded l first then replicate (length p) 0 else p) :: zero_discarded l (first + 1) ps
  end.

(** [chunks(n)] of a slice: pieces of [n], the last one possibly shorter. *)
Definition pieces (n : Z) (bs : list Z) : list (list Z) :=
  (fun i => slice (Z.to_nat (i * n)) (Z.to_nat n) bs) <$> seqZ 0 (div_ceil (Z.of_nat (length bs)) n).

Definition range_end (d : LazyPageDiscard) (offset len : Z) : option Z :=
  let?o end_ := u64_checked_add offset len in
  if end_ <=? guest_len d then Some end_ else None.

Section untouched.
Context `{!Sha256}.

Definition chunk_sha256_matches (bytes expected : list Z) : bool := bool_decide (sha256 bytes = expected).

(** A chunk the manifest records as all zeros. *)
Definition recorded_zero (zero_hash : option (list Z)) (expected : list Z) : bool := bool_decide (zero_hash = Some expected).

(** [pread o n] is what [read_exact_at] gives of the snapshot file. *)
Variable pread : Z → Z → option (list Z).

(** One chunk at guest offset [at_], of [n] bytes, checked. *)
Definition read_chunk (d : LazyPageDiscard) (i : ChunkIntegrity) (at_ n : Z) : result (list Z) UffdRestoreError :=
  match chunk_hashes i !! Z.to_nat (at_ / chunk_size i) with
  | None => Err Uffd
  | Some expected =>
      if (n =? chunk_size i) && recorded_zero (zero_chunk_hash (source d)) expected
      then Ok (replicate (Z.to_nat n) 0)
      else match pread (source_offset (source d) + at_) n with
      | None => Err RestoreIo
      | Some bytes => if chunk_sha256_matches bytes expected then Ok bytes else Err Uffd
      end
  end.

Fixpoint read_chunks (d : LazyPageDiscard) (i : ChunkIntegrity) (end_ : Z) (starts : list Z)
    : result (list Z) UffdRestoreError :=
  match starts with
  | [] => Ok []
  | at_ :: starts' =>
      let? bytes := read_chunk d i at_ (Z.min (chunk_size i) (end_ - at_)) in
      let? rest := read_chunks d i end_ starts' in
      Ok (bytes ++ rest)
  end.

(** [(offset..end).step_by(chunk)]. *)
Definition step_by (offset end_ chunk : Z) : list Z :=
  (fun i => offset + i * chunk) <$> seqZ 0 (div_ceil (end_ - offset) chunk).

Definition read_untouched (d : LazyPageDiscard) (offset len : Z) : result (list Z) UffdRestoreError :=
  let chunk := untouched_chunk d in
  match range_end d offset len with
  | None => Err Uffd
  | Some end_ =>
      if negb (is_multiple_of offset chunk) || (negb (is_multiple_of len chunk) && negb (end_ =? guest_len d))
      then Err Uffd
      else
        let? out :=
          match source_integrity (source d) with
          | Some i => read_chunks d i end_ (step_by offset end_ chunk)
          | None => ok_or (pread (source_offset (source d) + offset) len) RestoreIo
          end in
        if discarded_poisoned d then Err Uffd
        else Ok (concat (zero_discarded (discarded_pages d) (offset / PAGE_SIZE) (pieces PAGE_SIZE out)))
  end.

(** [runs.last_mut()] extended or a new run pushed. *)
Definition push_run (runs : list (Z * Z)) (at_ n : Z) : list (Z * Z) :=
  match last runs with
  | Some (start, run_end) =>
      if run_end =? at_ then take (length runs - 1) runs ++ [(start, at_ + n)] else runs ++ [(at_, at_ + n)]
  | None => runs ++ [(at_, at_ + n)]
  end.

Fixpoint verified_runs (d : LazyPageDiscard) (i : ChunkIntegrity) (end_ : Z) (starts : list Z) (runs : list (Z * Z))
    : result (list (Z * Z)) UffdRestoreError :=
  match starts with
  | [] => Ok runs
  | at_ :: starts' =>
      let n := Z.min (chunk_size i) (end_ - at_) in
      match chunk_hashes i !! Z.to_nat (at_ / chunk_size i) with
      | None => Err Uffd
      | Some expected =>
          if (n =? chunk_size i) && recorded_zero (zero_chunk_hash (source d)) expected
          then verified_runs d i end_ starts' runs
          else match pread (source_offset (source d) + at_) n with
          | None => Err RestoreIo
          | Some bytes =>
              if chunk_sha256_matches bytes expected then verified_runs d i end_ starts' (push_run runs at_ n)
              else Err Uffd
          end
      end
  end.

(** [ficlonerange dest src_offset len dest_offset] is the system call that
    shares the blocks of the snapshot file. *)
Context {Dest : Type} (ficlonerange : Dest → Z → Z → Z → option Dest).

Definition next_multiple_of (n m : Z) : Z := div_ceil n m * m.

Fixpoint clone_runs (d : LazyPageDiscard) (offset dest_offset : Z) (runs : list (Z * Z)) (dest : Dest)
    : CloneOutcome * Dest :=
  match runs with
  | [] => (Cloned, dest)
  | (run_start, run_end) :: runs' =>
      match ficlonerange dest (source_offset (source d) + run_start) (next_multiple_of (run_end - run_start) 4096)
              (dest_offset + (run_start - offset)) with
      | None => (Unsupported, dest)
      | Some dest' => clone_runs d offset dest_offset runs' dest'
      end
  end.

Definition clone_untouched (d : LazyPageDiscard) (offset len : Z) (dest : Dest) (dest_offset : Z)
    : result CloneOutcome UffdRestoreError * Dest :=
  match range_end d offset len with
  | None => (Err Uffd, dest)
  | Some end_ =>
      if (len =? 0) || negb (is_multiple_of (source_offset (source d) + offset) 4096)
         || negb (is_multiple_of dest_offset 4096) || negb (is_multiple_of len 4096)
      then (Ok NotThisRange, dest)
      else if discarded_poisoned d then (Err Uffd, dest)
      else if any_discarded (discarded_pages d) (offset / PAGE_SIZE) (div_ceil end_ PAGE_SIZE - offset / PAGE_SIZE)
      then (Ok NotThisRange, dest)
      else match source_integrity (source d) with
      | None => let '(r, dest') := clone_runs d offset dest_offset [(offset, end_)] dest in (Ok r, dest')
      | Some i =>
          if negb (is_multiple_of offset (chunk_size i)) || (negb (is_multiple_of len (chunk_size i)) && negb (end_ =? guest_len d))
          then (Ok NotThisRange, dest)
          else match verified_runs d i end_ (step_by offset end_ (chunk_size i)) [] with
          | Err e => (Err e, dest)
          | Ok runs => let '(r, dest') := clone_runs d offset dest_offset runs dest in (Ok r, dest')
          end
      end
  end.

End untouched.

(** ** The kernel *)

Definition EINTR : Z := 4.
Definition EAGAIN : Z := 11.
Definition EEXIST : Z := 17.
Definition EINVAL : Z := 22.
Definition ENOTTY : Z := 25.
Definition EOPNOTSUPP : Z := 95.

(** Guest memory as the kernel has it, by host address of a page: [k_page] is
    the content of a populated page. The calls give the [errno] of a failure;
    what they do to the pages is stated by [UffdLaws]. *)
Class UffdKernel (K : Type) := {
  k_page : K → Z → option (list Z);
  k_copy : K → Z → list Z → option Z * K;
  k_zeropage : K → Z → Z → option Z * K;
  k_mincore : K → Z → option bool;
  k_dontneed : K → Z → bool * K;
}.

(** The first [n] of the pages at [dst] were missing and are now those of
    [pages]; nothing else changed. *)
Definition fills {K : Type} `{!UffdKernel K} (k : K) (dst : Z) (pages : list (list Z)) (n : nat) (k' : K) : Prop :=
  (n ≤ length pages)%nat ∧
  (∀ i, (i < n)%nat → k_page k (dst + Z.of_nat i * PAGE_SIZE) = None) ∧
  (∀ i, (i < n)%nat → k_page k' (dst + Z.of_nat i * PAGE_SIZE) = pages !! i) ∧
  (∀ a, (∀ i, (i < n)%nat → a ≠ dst + Z.of_nat i * PAGE_SIZE) → k_page k' a = k_page k a).

(** A fill goes page by page and stops at the first page that is there
    ([EEXIST]) or at an error. It succeeds when all pages were filled; when
    only some were, it says [EAGAIN]. *)
Definition fill_result {K : Type} `{!UffdKernel K} (k : K) (dst : Z) (pages : list (list Z)) (r : option Z) (k' : K) : Prop :=
  ∃ n, fills k dst pages n k' ∧
    (r = None → n = length pages) ∧
    (∀ e, r = Some e → (n < length pages)%nat ∧ (0 < n → e = EAGAIN)%nat) ∧
    (r = Some EEXIST → is_Some (k_page k dst)).

Definition zero_page : list Z := replicate (Z.to_nat PAGE_SIZE) 0.

Class UffdLaws (K : Type) `{!UffdKernel K} : Prop := {
  k_copy_fills k dst bs r k' :
    k_copy k dst bs = (r, k') → fill_result k dst (pieces PAGE_SIZE bs) r k';
  k_zeropage_fills k dst len r k' :
    k_zeropage k dst len = (r, k') → fill_result k dst (replicate (Z.to_nat (len / PAGE_SIZE)) zero_page) r k';
  (** A page that is not in core may still be populated: it may be swapped
      out. *)
  k_mincore_present k a : k_mincore k a = Some true → is_Some (k_page k a);
  k_dontneed_ok k a k' : k_dontneed k a = (true, k') → ∀ b, k_page k' b = if decide (b = a) then None else k_page k b;
  k_dontneed_err k a k' : k_dontneed k a = (false, k') → ∀ b, k_page k' b = k_page k b;
}.

(** ** Discarding pages *)

Section discard.
Context {K : Type} `{!UffdKernel K}.

(** The pages at [addrs], released where they are in core. *)
Fixpoint release_pages (addrs : list Z) (k : K) : result unit UffdRestoreError * K :=
  match addrs with
  | [] => (Ok tt, k)
  | a :: addrs' =>
      if U64_MAX <? a then (Err Uffd, k)
      else match k_mincore k a with
      | None => (Err Uffd, k)
      | Some false => release_pages addrs' k
      | Some true =>
          match k_dontneed k a with
          | (false, k') => (Err Uffd, k')
          | (true, k') => release_pages addrs' k'
          end
      end
  end.

Definition mark_discarded (l : list bool) (first n : Z) : list bool :=
  foldl (fun l p => <[ Z.to_nat p := true ]> l) l (seqZ first n).

Definition discard (d : LazyPageDiscard) (k : K) (offset len : Z)
    : result unit UffdRestoreError * LazyPageDiscard * K :=
  let inside := match u64_checked_add offset len with Some end_ => end_ <=? guest_len d | None => false end in
  if (len =? 0) || negb (is_multiple_of offset PAGE_SIZE) || negb (is_multiple_of len PAGE_SIZE) || negb inside
  then (Err Uffd, d, k)
  else if discarded_poisoned d then (Err Uffd, d, k)
  else
    let first := offset / PAGE_SIZE in
    let d' := set_discarded d (mark_discarded (discarded_pages d) first ((offset + len) / PAGE_SIZE - first)) in
    match u64_checked_add (guest_base d) offset with
    | None => (Err Uffd, d', k)
    | Some address =>
        let '(r, k') := release_pages (step_by address (address + len) PAGE_SIZE) k in (r, d', k')
    end.

End discard.

(** ** The fault handler *)

Record FaultHandler := mkHandler {
  pending_faults : list Z;
  to_prefetch : list Z;
  served_chunks : list Z;
  prefetched_chunks : Z;
  zeropage_supported : bool;
  pages_served : Z;
}.

Definition with_pending (h : FaultHandler) (l : list Z) : FaultHandler :=
  mkHandler l (to_prefetch h) (served_chunks h) (prefetched_chunks h) (zeropage_supported h) (pages_served h).
Definition with_prefetch (h : FaultHandler) (l : list Z) : FaultHandler :=
  mkHandler (pending_faults h) l (served_chunks h) (prefetched_chunks h) (zeropage_supported h) (pages_served h).
Definition with_served (h : FaultHandler) (l : list Z) : FaultHandler :=
  mkHandler (pending_faults h) (to_prefetch h) l (prefetched_chunks h) (zeropage_supported h) (pages_served h).
Definition without_zeropage (h : FaultHandler) : FaultHandler :=
  mkHandler (pending_faults h) (to_prefetch h) (served_chunks h) (prefetched_chunks h) false (pages_served h).
Definition count_served (h : FaultHandler) (prefetching : bool) (pages : Z) : FaultHandler :=
  mkHandler (pending_faults h) (to_prefetch h) (served_chunks h)
    (if prefetching then prefetched_chunks h + 1 else prefetched_chunks h) (zeropage_supported h)
    ((pages_served h + pages) mod 18446744073709551616).

(** What the handler shares with the rest of the process: the pages, the
    discard hook, the host dirty tracker. *)
Record Lazy (K : Type) := mkLazy {
  lz_kernel : K;
  lz_discard : LazyPageDiscard;
  lz_dirty : option DirtyBitmap.t;
  lz_handler : FaultHandler;
}.
Arguments mkLazy {K}.
Arguments lz_kernel {K}.
Arguments lz_discard {K}.
Arguments lz_dirty {K}.
Arguments lz_handler {K}.

(** What an iteration of the handler's loop leads to: the next one, the end
    of the thread, or [_exit]. *)
Inductive outcome (A : Type) : Type :=
| Goes (a : A)
| Ends (a : A)
| Exits (code : Z).
Arguments Goes {A}.
Arguments Ends {A}.
Arguments Exits {A}.

Definition UFFD_MSG_SIZE : Z := 32.
Definition UFFD_EVENT_PAGEFAULT : Z := 18.
Definition UFFD_EVENT_REMOVE : Z := 21.

Inductive read_answer : Type :=
| ReadErr (errno : Z)
| ReadBytes (msg : list Z).

Inductive poll_answer : Type :=
| PollErr (errno : Z)
| PollOk (rc revents wake_revents : Z).

Definition POLLIN : Z := 1.
Definition POLL_GONE : Z := Z.lor 8 (Z.lor 16 32).

Section handler.
Context {K : Type} `{!UffdKernel K} `{!Sha256}.
Implicit Types (s : Lazy K).

Definition on_handler (f : FaultHandler → FaultHandler) (s : Lazy K) : Lazy K :=
  mkLazy (lz_kernel s) (lz_discard s) (lz_dirty s) (f (lz_handler s)).
Definition on_kernel (k : K) (s : Lazy K) : Lazy K := mkLazy k (lz_discard s) (lz_dirty s) (lz_handler s).
Definition on_discard (d : LazyPageDiscard) (s : Lazy K) : Lazy K := mkLazy (lz_kernel s) d (lz_dirty s) (lz_handler s).

Definition msg_u64 (msg : list Z) (off : nat) : Z := le_decode (slice off 8 msg).

(** A [REMOVE] event has to lie inside guest memory. *)
Definition remove_inside (d : LazyPageDiscard) (msg : list Z) : bool :=
  let start := msg_u64 msg 8 in
  let end_ := msg_u64 msg 16 in
  match u64_checked_add (guest_base d) (guest_len d) with
  | None => false
  | Some guest_end => negb ((end_ <=? start) || (start <? guest_base d) || (guest_end <? end_))
  end.

(** Reads until the queue is empty; [None] when the handler returns. *)
Fixpoint drain (d : LazyPageDiscard) (reads : list read_answer) (pending : list Z) : option (list Z) :=
  match reads with
  | [] => Some pending
  | ReadErr e :: reads' =>
      if e =? EAGAIN then Some pending else if e =? EINTR then drain d reads' pending else None
  | ReadBytes msg :: reads' =>
      if negb (Z.of_nat (length msg) =? UFFD_MSG_SIZE) then None
      else match msg !! 0%nat with
      | None => None
      | Some event =>
          if event =? UFFD_EVENT_PAGEFAULT then drain d reads' (pending ++ [msg_u64 msg 16])
          else if event =? UFFD_EVENT_REMOVE then if remove_inside d msg then drain d reads' pending else None
          else None
      end
  end.

(** The range a fault is resolved with. *)
Definition copy_range (d : LazyPageDiscard) (page_offset : Z) : Z * Z :=
  match source_integrity (source d) with
  | Some i =>
      let copy_offset := Z.land page_offset (Z.lnot (chunk_size i - 1)) in
      (copy_offset, Z.min (chunk_size i) (guest_len d - copy_offset))
  | None => (page_offset, PAGE_SIZE)
  end.

(** A [UFFDIO_COPY] or [UFFDIO_ZEROPAGE] of a range; when part of it is there
    already, of the faulting page alone. Gives the [errno] and the range that
    was tried last. *)
Definition fill (d : LazyPageDiscard) (prefetching : bool) (page_offset copy_offset copy_len : Z)
    (op : K → Z → Z → option Z * K) (k : K) : option Z * Z * Z * K :=
  let '(rc, k) := op k copy_offset copy_len in
  if negb prefetching && bool_decide (rc = Some EEXIST) && (PAGE_SIZE <? copy_len)
  then let '(rc, k) := op k page_offset PAGE_SIZE in (rc, page_offset, PAGE_SIZE, k)
  else (rc, copy_offset, copy_len, k).

(** After the system call: retry, give up or account for the pages. *)
Definition settle (fault_addr : Z) (prefetching : bool) (copy_len : Z) (rc : option Z) (off len : Z) (s : Lazy K)
    : outcome (Lazy K) :=
  match rc with
  | Some e =>
      if prefetching then
        if e =? EAGAIN then Goes (on_handler (fun h => with_prefetch h (fault_addr :: to_prefetch h)) s)
        else if e =? EEXIST then Goes s
        else Goes (on_handler (fun h => with_prefetch h []) s)
      else
        if e =? EAGAIN then Goes (on_handler (fun h => with_pending h (pending_faults h ++ [fault_addr])) s)
        else if e =? EEXIST then Goes s
        else Exits 78
  | None =>
      let s := mkLazy (lz_kernel s) (lz_discard s)
        ((fun d => SoftwareDirtyBitmap.mark_range d off len) <$> lz_dirty s) (lz_handler s) in
      let s :=
        match source_integrity (source (lz_discard s)) with
        | None => s
        | Some i =>
            let chunk := off / chunk_size i in
            let s := if len =? copy_len then on_handler (fun h => with_served h (set_word_bit (served_chunks h) chunk)) s else s in
            let d := lz_discard s in
            on_discard (mkDiscard (guest_base d) (guest_len d) (discarded_pages d) (discarded_poisoned d) (source d)
              ((fun t => mark t chunk) <$> touched d)) s
        end in
      Goes (on_handler (fun h => count_served h prefetching (len / PAGE_SIZE)) s)
  end.

(** Whether the manifest records the chunk as zeros; [None] is an index out
    of range. *)
Definition zero_chunk (d : LazyPageDiscard) (supported : bool) (copy_offset copy_len : Z) : option bool :=
  match source_integrity (source d) with
  | Some i =>
      if supported && (copy_len =? chunk_size i) then
        (recorded_zero (zero_chunk_hash (source d))) <$> chunk_hashes i !! Z.to_nat (copy_offset / chunk_size i)
      else Some false
  | None => Some false
  end.

(** The bytes of the mapping, hashed before they are used; [None] when the
    process has to end. *)
Definition verified (d : LazyPageDiscard) (src : list Z) (copy_offset copy_len : Z) : option (list Z) :=
  let bytes := slice (Z.to_nat copy_offset) (Z.to_nat copy_len) src in
  match source_integrity (source d) with
  | None => Some bytes
  | Some i =>
      let?o expected := chunk_hashes i !! Z.to_nat (copy_offset / chunk_size i) in
      if chunk_sha256_matches bytes expected then Some bytes else None
  end.

Definition without_discarded (d : LazyPageDiscard) (copy_offset copy_len : Z) (bytes : list Z) : list Z :=
  let first_page := copy_offset / PAGE_SIZE in
  if any_discarded (discarded_pages d) first_page (copy_len / PAGE_SIZE)
  then concat (zero_discarded (discarded_pages d) first_page (pieces PAGE_SIZE bytes))
  else bytes.

Definition requeue (fault_addr : Z) (prefetching : bool) (h : FaultHandler) : FaultHandler :=
  if prefetching then with_prefetch h (fault_addr :: to_prefetch h)
  else with_pending h (pending_faults h ++ [fault_addr]).

Definition serve (src : list Z) (fault_addr : Z) (prefetching : bool) (s : Lazy K) : outcome (Lazy K) :=
  let d := lz_discard s in
  match u64_checked_add (guest_base d) (guest_len d) with
  | None => Ends s
  | Some guest_end =>
      if (fault_addr <? guest_base d) || (guest_end <=? fault_addr) then Ends s
      else
        let page_offset := Z.land (fault_addr - guest_base d) (Z.lnot (PAGE_SIZE - 1)) in
        let '(copy_offset, copy_len) := copy_range d page_offset in
        match u64_checked_add copy_offset copy_len, u64_checked_add (guest_base d) copy_offset with
        | Some copy_end, Some _ =>
            if (guest_len d <? copy_end) || negb (is_multiple_of copy_len PAGE_SIZE) || discarded_poisoned d then Ends s
            else match zero_chunk d (zeropage_supported (lz_handler s)) copy_offset copy_len with
            | None => Exits 78
            | Some true =>
                let '(rc, off, len, k) := fill d prefetching page_offset copy_offset copy_len
                  (fun k o n => k_zeropage k (guest_base d + o) n) (lz_kernel s) in
                if bool_decide (rc = Some EINVAL ∨ rc = Some ENOTTY ∨ rc = Some EOPNOTSUPP)
                then Goes (on_handler (fun h => requeue fault_addr prefetching (without_zeropage h)) (on_kernel k s))
                else settle fault_addr prefetching copy_len rc off len (on_kernel k s)
            | Some false =>
                if prefetching && any_discarded (discarded_pages d) (copy_offset / PAGE_SIZE) (copy_len / PAGE_SIZE)
                then Goes s
                else match verified d src copy_offset copy_len with
                | None => Exits 78
                | Some bytes =>
                    let bytes := without_discarded d copy_offset copy_len bytes in
                    let '(rc, off, len, k) := fill d prefetching page_offset copy_offset copy_len
                      (fun k o n => k_copy k (guest_base d + o) (slice (Z.to_nat (o - copy_offset)) (Z.to_nat n) bytes))
                      (lz_kernel s) in
                    settle fault_addr prefetching copy_len rc off len (on_kernel k s)
                end
            end
        | _, _ => Ends s
        end
  end.

(** Whether this handler has mapped the chunk of a prefetch already. *)
Definition already_served (s : Lazy K) (chunk_addr : Z) : bool :=
  let d := lz_discard s in
  let chunk := match source_integrity (source d) with
    | Some i => (chunk_addr - guest_base d) / chunk_size i
    | None => 0
    end in
  match served_chunks (lz_handler s) !! Z.to_nat (chunk / 64) with
  | Some w => has_bits w (Z.shiftl 1 (chunk mod 64))
  | None => false
  end.

(** The body of the loop. [shutdown] and [shutdown'] are the flag at its two
    checks and [src] the snapshot mapping while the body reads it. *)
Definition handler_iteration (shutdown shutdown' : bool) (poll : poll_answer) (reads : list read_answer)
    (src : list Z) (s : Lazy K) : outcome (Lazy K) :=
  let h := lz_handler s in
  let idle := bool_decide (pending_faults h = []) && bool_decide (to_prefetch h = []) in
  if shutdown then Ends s
  else match poll with
  | PollErr e => if e =? EINTR then Goes s else Ends s
  | PollOk rc revents wake_revents =>
      if negb (wake_revents =? 0) && shutdown' then Ends s
      else if (rc =? 0) && idle then Goes s
      else if has_bits revents POLL_GONE then Ends s
      else match (if (0 <? rc) && has_bits revents POLLIN then drain (lz_discard s) reads (pending_faults h)
                  else Some (pending_faults h)) with
      | None => Ends s
      | Some (fault_addr :: rest) => serve src fault_addr false (on_handler (fun h => with_pending h rest) s)
      | Some [] =>
          match to_prefetch h with
          | [] => Goes (on_handler (fun h => with_pending h []) s)
          | chunk_addr :: rest =>
              let s := on_handler (fun h => with_prefetch (with_pending h []) rest) s in
              if already_served s chunk_addr then Goes s else serve src chunk_addr true s
          end
      end
  end.

End handler.

(** ** Starting a restore *)

(** What the host answers: the page size, the length of the file, and for
    each system call whether it succeeds; [h_api] is the set of features the
    kernel grants. *)
Record RestoreHost := mkRestoreHost {
  h_page_size : Z;
  h_file_len : option Z;
  h_mmap : bool;
  h_userfaultfd : bool;
  h_api : option Z;
  h_register : bool;
  h_eventfd : bool;
  h_try_clone : bool;
  h_spawn : bool;
}.

Definition UFFD_REQUIRED_EVENT_FEATURES : Z := Z.lor 4 (Z.lor 8 64).
Definition I64_MAX : Z := 9223372036854775807.

Section start.
Context {K : Type} `{!UffdKernel K} `{!Sha256}.

Definition integrity_ok (page_size len : Z) (i : ChunkIntegrity) : bool :=
  negb ((chunk_size i <? page_size) || negb (is_power_of_two (chunk_size i)) || negb (is_multiple_of (chunk_size i) page_size))
  && (Z.of_nat (length (chunk_hashes i)) =? div_ceil len (chunk_size i))
  && negb (existsb (fun c => div_ceil len (chunk_size i) <=? c) (prefetch i)).

(** The handler's state when its loop starts. *)
Definition handler_new (base : Z) (integrity : option ChunkIntegrity) : FaultHandler :=
  match integrity with
  | Some i => mkHandler [] ((fun c => base + c * chunk_size i) <$> prefetch i)
      (replicate (Z.to_nat (div_ceil (Z.of_nat (length (chunk_hashes i))) 64)) 0) 0 true 0
  | None => mkHandler [] [] [] 0 true 0
  end.

Definition discard_new (base len offset : Z) (integrity : option ChunkIntegrity) : LazyPageDiscard :=
  mkDiscard base len (replicate (Z.to_nat (div_ceil len 4096)) false) false
    (mkSource offset integrity ((fun i => sha256 (replicate (Z.to_nat (chunk_size i)) 0)) <$> integrity))
    ((fun i => touched_new (Z.of_nat (length (chunk_hashes i))) (prefetch i)) <$> integrity).

(** The second component says whether the snapshot is left mapped. *)
Definition start_lazy_restore_with_integrity (host : RestoreHost) (ptr len offset snapshot_len : Z)
    (dirty : option DirtyBitmap.t) (integrity : option ChunkIntegrity) (k : K)
    : result (Lazy K) UffdRestoreError * bool :=
  if (ptr =? 0) || (len =? 0) then (Err Uffd, false)
  else if negb (snapshot_len =? len) then (Err (SnapshotLength len snapshot_len), false)
  else match u64_checked_add offset snapshot_len with
  | None => (Err Mmap, false)
  | Some snapshot_end =>
      match h_file_len host with
      | None => (Err RestoreIo, false)
      | Some file_len =>
          if file_len <? snapshot_end then (Err (SnapshotRange snapshot_end file_len), false)
          else
            let page_size := if 0 <? h_page_size host then h_page_size host else 4096 in
            if negb (is_multiple_of ptr page_size) || negb (is_multiple_of len page_size) then (Err Uffd, false)
            else if negb (match integrity with Some i => integrity_ok page_size len i | None => true end) then (Err Uffd, false)
            else
              let mmap_offset := offset / page_size * page_size in
              match u64_checked_add snapshot_len (offset - mmap_offset) with
              | None => (Err Mmap, false)
              | Some _ =>
                  if I64_MAX <? mmap_offset then (Err Mmap, false)
                  else if negb (h_mmap host) then (Err Mmap, false)
                  else if negb (h_userfaultfd host) then (Err Userfaultfd, false)
                  else match h_api host with
                  | None => (Err Uffd, false)
                  | Some features =>
                      if negb (Z.land features UFFD_REQUIRED_EVENT_FEATURES =? UFFD_REQUIRED_EVENT_FEATURES) then (Err Uffd, false)
                      else if negb (h_register host) then (Err Uffd, false)
                      else if negb (h_eventfd host) then (Err RestoreIo, false)
                      else if negb (h_try_clone host) then (Err RestoreIo, true)
                      else if negb (h_spawn host) then (Err RestoreIo, false)
                      else (Ok (mkLazy k (discard_new ptr len offset integrity) dirty (handler_new ptr integrity)), true)
                  end
              end
      end
  end.

Definition start_lazy_restore (host : RestoreHost) (ptr len offset snapshot_len : Z) (dirty : option DirtyBitmap.t) (k : K)
    : result (Lazy K) UffdRestoreError * bool :=
  start_lazy_restore_with_integrity host ptr len offset snapshot_len dirty None k.

End start.
