(* ===== verification/LazyProof.v ===== *)
(** * Lazily restored memory: what the guest sees

    [fresh] is what a missing page holds: the snapshot's bytes, or zeros once
    it was discarded; [view] is guest memory, populated or not. The fault
    handler never changes the view, whatever the snapshot file turns into
    under it ([iteration_invisible]); together with writes and discards every
    interleaving refines a plain memory ([lazy_refines]); a fault is resolved
    in two attempts ([fault_resolved]); and the readers of a live snapshot
    get what a fault would install ([read_untouched_fresh],
    [clone_untouched_fresh]). *)

From S2P Require Import Prelude Dirty GuestMem FileRanges GuestRam Lazy.

(** ** Pieces of byte strings *)
Section pieces.
Implicit Types (bs : list Z).

Lemma slice_slice a n b m bs : (a + n ≤ m)%nat → slice a n (slice b m bs) = slice (b + a) n bs.
Proof.
  intros. apply list_eq. intros i. rewrite !lookup_slice. case_decide; [|done].
  rewrite decide_True by lia. f_equal. lia.
Qed.

Lemma slice_replicate a n m (x : Z) : (a + n ≤ m)%nat → slice a n (replicate m x) = replicate n x.
Proof. intros. unfold slice. rewrite drop_replicate, take_replicate. f_equal. lia. Qed.

Lemma lookup_pieces (n : Z) bs (i : nat) x :
  pieces n bs !! i = Some x ↔
  x = slice (Z.to_nat (Z.of_nat i * n)) (Z.to_nat n) bs ∧ Z.of_nat i < div_ceil (Z.of_nat (length bs)) n.
Proof.
  unfold pieces. rewrite list_lookup_fmap, fmap_Some. setoid_rewrite lookup_seqZ. split.
  - intros (y & [-> ?] & ->). rewrite Z.add_0_l. done.
  - intros [-> ?]. exists (Z.of_nat i). split; [split; lia|done].
Qed.

Lemma length_pieces (n : Z) bs m :
  0 < n → Z.of_nat (length bs) = m * n → Z.of_nat (length (pieces n bs)) = m.
Proof.
  intros Hn Hl. unfold pieces, div_ceil. rewrite length_fmap, length_seqZ, Hl.
  replace (m * n + n - 1) with ((n - 1) + m * n) by lia. rewrite Z.div_add, Z.div_small by lia. nia.
Qed.

(** Whole pieces, each of length [n]. *)
Lemma pieces_length (n : Z) bs m x :
  0 < n → Z.of_nat (length bs) = m * n → x ∈ pieces n bs → length x = Z.to_nat n.
Proof.
  intros Hn Hl [i Hi]%list_elem_of_lookup.
  assert (i < length (pieces n bs))%nat by (by eapply lookup_lt_Some).
  pose proof (length_pieces n bs m Hn Hl). apply lookup_pieces in Hi as [-> ?]. rewrite length_slice; [done|nia].
Qed.

Lemma slice_concat (n : nat) (ls : list (list Z)) : ∀ j x,
  (∀ y, y ∈ ls → length y = n) → ls !! j = Some x → slice (j * n) n (concat ls) = x.
Proof.
  induction ls as [|y ls IH]; intros [|j] x Hall Hj; simpl in *; try done.
  - injection Hj as ->. apply slice_exact, Hall. left.
  - assert (length y = n) as Hy by (apply Hall; left).
    rewrite slice_app_r by lia. replace (n + j * n - length y)%nat with (j * n)%nat by lia.
    apply IH; [|done]. intros z Hz. apply Hall. by right.
Qed.

Lemma length_concat_const (n : nat) (ls : list (list Z)) :
  (∀ y, y ∈ ls → length y = n) → length (concat ls) = (length ls * n)%nat.
Proof.
  induction ls as [|y ls IH]; intros Hall; simpl; [done|]. rewrite length_app, IH by (intros; apply Hall; by right).
  rewrite (Hall y) by left. lia.
Qed.

Lemma lookup_zero_discarded l ps : ∀ first (i : nat),
  zero_discarded l first ps !! i =
  (fun p => if is_discarded l (first + Z.of_nat i) then replicate (length p) 0 else p) <$> ps !! i.
Proof.
  induction ps as [|p ps IH]; intros first [|i]; simpl; try done.
  - by rewrite Z.add_0_r.
  - rewrite IH. replace (first + 1 + Z.of_nat i) with (first + Z.of_nat (S i)) by lia. done.
Qed.

Lemma length_zero_discarded l ps : ∀ first, length (zero_discarded l first ps) = length ps.
Proof. induction ps; intros; simpl; auto. Qed.

Lemma zero_discarded_length l ps n : ∀ first,
  (∀ y, y ∈ ps → length y = n) → ∀ y, y ∈ zero_discarded l first ps → length y = n.
Proof.
  intros first Hall y [i Hi]%list_elem_of_lookup. rewrite lookup_zero_discarded in Hi.
  apply fmap_Some in Hi as (p & Hp & ->). assert (length p = n) by (apply Hall; by eapply list_elem_of_lookup_2).
  destruct (is_discarded _ _); [by rewrite length_replicate|done].
Qed.

(** The pages of a run with the discarded ones filled with zeros. *)
Lemma zero_discarded_page l first bs m (j : nat) :
  Z.of_nat (length bs) = m * PAGE_SIZE → Z.of_nat j < m →
  slice (j * Z.to_nat PAGE_SIZE) (Z.to_nat PAGE_SIZE) (concat (zero_discarded l first (pieces PAGE_SIZE bs))) =
  if is_discarded l (first + Z.of_nat j) then zero_page else slice (j * Z.to_nat PAGE_SIZE) (Z.to_nat PAGE_SIZE) bs.
Proof.
  intros Hl Hj. assert (0 < PAGE_SIZE) by done.
  assert (∀ y, y ∈ pieces PAGE_SIZE bs → length y = Z.to_nat PAGE_SIZE) as Hall
    by (intros; by apply (pieces_length PAGE_SIZE bs m)).
  destruct (lookup_lt_is_Some_2 (pieces PAGE_SIZE bs) j) as [x Hx].
  { pose proof (length_pieces PAGE_SIZE bs m ltac:(done) Hl). lia. }
  erewrite slice_concat; [|by apply zero_discarded_length|by rewrite lookup_zero_discarded, Hx]. cbn beta.
  rewrite (Hall x) by (by eapply list_elem_of_lookup_2). apply lookup_pieces in Hx as [-> _].
  destruct (is_discarded _ _); [done|]. f_equal. lia.
Qed.

End pieces.

(** ** What memory holds *)

Definition page_n : nat := Z.to_nat PAGE_SIZE.

(** Page [q] of a snapshot. *)
Definition snap_page (snap : list Z) (q : Z) : list Z := slice (Z.to_nat q * page_n) page_n snap.

(** What a missing page holds. *)
Definition fresh (d : LazyPageDiscard) (snap : list Z) (q : Z) : list Z :=
  if is_discarded (discarded_pages d) q then zero_page else snap_page snap q.

Definition host_addr (d : LazyPageDiscard) (q : Z) : Z := guest_base d + q * PAGE_SIZE.

Definition in_guest (d : LazyPageDiscard) (q : Z) : Prop := 0 ≤ q < guest_len d / PAGE_SIZE.

Definition chunk_at (i : ChunkIntegrity) (snap : list Z) (c : Z) : list Z :=
  slice (Z.to_nat (c * chunk_size i)) (Z.to_nat (Z.min (chunk_size i) (Z.of_nat (length snap) - c * chunk_size i))) snap.

(** The shape [start_lazy_restore_with_integrity] gives. *)
Record well_formed `{!Sha256} (d : LazyPageDiscard) : Prop := {
  wf_base : 0 ≤ guest_base d ∧ guest_base d mod PAGE_SIZE = 0;
  wf_len : 0 < guest_len d ∧ guest_len d mod PAGE_SIZE = 0;
  wf_end : guest_base d + guest_len d ≤ U64_MAX;
  wf_discarded : Z.of_nat (length (discarded_pages d)) = guest_len d / PAGE_SIZE;
  wf_integrity i : source_integrity (source d) = Some i →
    (∃ c, 12 ≤ c ∧ chunk_size i = 2 ^ c) ∧
    Z.of_nat (length (chunk_hashes i)) = div_ceil (guest_len d) (chunk_size i) ∧
    zero_chunk_hash (source d) = Some (sha256 (replicate (Z.to_nat (chunk_size i)) 0));
}.

(** The snapshot the manifest was made from, and no other bytes with the
    hashes of its chunks. *)
Record genuine `{!Sha256} (d : LazyPageDiscard) (snap : list Z) : Prop := {
  gen_length : Z.of_nat (length snap) = guest_len d;
  gen_hash i (c : nat) h : source_integrity (source d) = Some i → chunk_hashes i !! c = Some h →
    h = sha256 (chunk_at i snap (Z.of_nat c));
  gen_collision i (c : nat) h bs : source_integrity (source d) = Some i → chunk_hashes i !! c = Some h →
    sha256 bs = h → bs = chunk_at i snap (Z.of_nat c);
}.

(** Without a manifest the file itself is trusted. *)
Definition trusted (d : LazyPageDiscard) (snap src : list Z) : Prop := source_integrity (source d) = None → src = snap.

Definition view {K : Type} `{!UffdKernel K} (snap : list Z) (s : Lazy K) (q : Z) : list Z :=
  default (fresh (lz_discard s) snap q) (k_page (lz_kernel s) (host_addr (lz_discard s) q)).

(** ** Geometry *)
Section geometry.
Context `{!Sha256}.

Lemma align_down c o : 0 ≤ c → Z.land o (Z.lnot (2 ^ c - 1)) = o / 2 ^ c * 2 ^ c.
Proof.
  intros Hc. replace (2 ^ c - 1) with (Z.ones c) by (rewrite Z.ones_equiv; lia).
  rewrite <- Z.ldiff_land, Z.ldiff_ones_r, Z.shiftl_mul_pow2, Z.shiftr_div_pow2 by done. done.
Qed.

Lemma align_page o : Z.land o (Z.lnot (PAGE_SIZE - 1)) = o / PAGE_SIZE * PAGE_SIZE.
Proof. apply (align_down 12). lia. Qed.

(** A chunk is whole pages. *)
Lemma chunk_pages d i : well_formed d → source_integrity (source d) = Some i →
  0 < chunk_size i ∧ chunk_size i mod PAGE_SIZE = 0 ∧
  ∀ o, Z.land o (Z.lnot (chunk_size i - 1)) = o / chunk_size i * chunk_size i.
Proof.
  intros Hwf Hi. destruct (wf_integrity d Hwf i Hi) as ((c & Hc & ->) & _ & _). split; [lia|]. split.
  - replace c with ((c - 12) + 12) by lia. rewrite Z.pow_add_r by lia. apply Z.mod_mul. done.
  - intros o. apply align_down. lia.
Qed.

(** The range a fault is resolved with: whole pages around the faulting one,
    inside guest memory; with a manifest, a whole chunk. *)
Lemma copy_range_ok d q co cl :
  well_formed d → in_guest d q → copy_range d (q * PAGE_SIZE) = (co, cl) →
  co mod PAGE_SIZE = 0 ∧ cl mod PAGE_SIZE = 0 ∧ 0 < cl ∧ 0 ≤ co ≤ q * PAGE_SIZE ∧
  q * PAGE_SIZE + PAGE_SIZE ≤ co + cl ≤ guest_len d ∧
  (∀ i, source_integrity (source d) = Some i →
    co = co / chunk_size i * chunk_size i ∧ cl = Z.min (chunk_size i) (guest_len d - co) ∧
    (Z.to_nat (co / chunk_size i) < length (chunk_hashes i))%nat).
Proof.
  intros Hwf Hq Hcr. destruct (wf_len d Hwf) as [Hl Hlm]. unfold in_guest, copy_range in *.
  assert (∃ n, guest_len d = n * PAGE_SIZE) as [n Hn] by (exists (guest_len d / PAGE_SIZE); unfold PAGE_SIZE in *; zlia).
  assert (q < n) by (rewrite Hn, Z.div_mul in Hq by done; lia).
  destruct (source_integrity (source d)) as [i|] eqn:Hi.
  - destruct (chunk_pages d i Hwf Hi) as (Hpos & Hcm & Hal). destruct (wf_integrity d Hwf i Hi) as (_ & Hlen & _).
    rewrite Hal in Hcr. injection Hcr as <- <-.
    assert (∃ m, chunk_size i = m * PAGE_SIZE) as [m Hm] by (exists (chunk_size i / PAGE_SIZE); unfold PAGE_SIZE in *; zlia).
    set (c := q * PAGE_SIZE / chunk_size i) in *.
    assert (c = q / m) as Hc by (unfold c; rewrite Hm; apply Z.div_mul_cancel_r; unfold PAGE_SIZE in *; lia).
    assert (0 < m) by (unfold PAGE_SIZE in *; lia).
    assert (0 ≤ c ∧ c * m ≤ q < c * m + m) as Hcq by (rewrite Hc; pose proof (Z.mul_div_le q m); pose proof (Z.mul_succ_div_gt q m); split; [apply Z.div_pos|]; nia).
    assert (Z.min (chunk_size i) (guest_len d - c * chunk_size i) = Z.min m (n - c * m) * PAGE_SIZE) as Hmin
      by (rewrite Hm, Hn; unfold PAGE_SIZE; lia).
    rewrite Hmin, Hm. rewrite !Z.mod_mul, (Z.mul_assoc c m), Z.mod_mul by done. unfold PAGE_SIZE in *.
    split_and!; try nia. intros i' [= <-]. rewrite Hm, Hn.
    assert (c * m * 4096 / (m * 4096) = c) as Hdiv by (rewrite Z.div_mul_cancel_r, Z.div_mul by lia; lia).
    rewrite Hdiv. split; [lia|]. split; [lia|].
    assert (c < div_ceil (guest_len d) (chunk_size i)); [|lia]. rewrite Hm, Hn. unfold div_ceil.
    apply Z.lt_le_trans with (c + 1); [lia|].
    apply Z.div_le_lower_bound; nia.
  - injection Hcr as <- <-. rewrite Z.mod_mul by done. unfold PAGE_SIZE in *. split_and!; done || nia.
Qed.

End geometry.

(** ** Filling pages *)

(** Missing pages may have become populated with what they held. *)
Definition fresh_fill {K : Type} `{!UffdKernel K} (d : LazyPageDiscard) (snap : list Z) (k k' : K) : Prop :=
  ∀ a, k_page k' a = k_page k a ∨
    ∃ q, in_guest d q ∧ a = host_addr d q ∧ k_page k a = None ∧ k_page k' a = Some (fresh d snap q).

Section filling.
Context {K : Type} `{!UffdKernel K} `{!UffdLaws K} `{!Sha256}.
Context (d : LazyPageDiscard) (snap : list Z).
Hypothesis (Hwf : well_formed d) (Hgen : genuine d snap).
Implicit Types (k : K).

Lemma fresh_fill_refl k : fresh_fill d snap k k.
Proof. by left. Qed.

Lemma fresh_fill_trans k1 k2 k3 : fresh_fill d snap k1 k2 → fresh_fill d snap k2 k3 → fresh_fill d snap k1 k3.
Proof.
  intros H1 H2 a. destruct (H2 a) as [->|(q & ? & ? & Hn & ->)]; [apply H1|].
  destruct (H1 a) as [He|(? & ? & ? & ? & He)]; [|congruence]. right. exists q. rewrite <- He. done.
Qed.

Lemma fill_result_fresh k dst pages r k' q0 :
  fill_result k dst pages r k' → dst = host_addr d q0 →
  (∀ (i : nat) x, pages !! i = Some x → in_guest d (q0 + Z.of_nat i) ∧ x = fresh d snap (q0 + Z.of_nat i)) →
  fresh_fill d snap k k'.
Proof.
  intros (n & (Hn & Hnone & Hset & Hrest) & _) -> Hp a.
  destruct (decide (a ∈ (fun i => host_addr d q0 + Z.of_nat i * PAGE_SIZE) <$> seq 0 n))
    as [(i & -> & [_ Hi]%elem_of_seq)%list_elem_of_fmap|Hno].
  - right. destruct (lookup_lt_is_Some_2 pages i) as [x Hx]; [lia|]. destruct (Hp i x Hx) as [Hg ->].
    exists (q0 + Z.of_nat i). split; [done|]. split; [unfold host_addr; lia|]. split; [by apply Hnone|].
    by rewrite Hset, Hx.
  - left. apply Hrest. intros i Hi ->. apply Hno, list_elem_of_fmap. exists i. split; [done|]. apply elem_of_seq. lia.
Qed.

Lemma any_discarded_false l first n q : any_discarded l first n = false → first ≤ q < first + n → is_discarded l q = false.
Proof.
  unfold any_discarded. intros He Hq. destruct (is_discarded l q) eqn:E; [|done].
  rewrite <- not_true_iff_false, existsb_exists in He. destruct He. exists q. split; [|done].
  apply list_elem_of_In, elem_of_seqZ. lia.
Qed.

Lemma page_multiple o : 0 ≤ o → o mod PAGE_SIZE = 0 → Z.to_nat o = (Z.to_nat (o / PAGE_SIZE) * page_n)%nat.
Proof.
  intros. unfold page_n. rewrite <- Z2Nat.inj_mul by (done || by apply Z.div_pos). f_equal.
  unfold PAGE_SIZE in *. zlia.
Qed.

(** The pages of a verified range are what the missing pages held. *)
Lemma copied_page co cl (j : nat) :
  0 ≤ co → co mod PAGE_SIZE = 0 → 0 ≤ cl → cl mod PAGE_SIZE = 0 → co + cl ≤ guest_len d → Z.of_nat j < cl / PAGE_SIZE →
  slice (j * page_n) page_n (without_discarded d co cl (slice (Z.to_nat co) (Z.to_nat cl) snap)) =
  fresh d snap (co / PAGE_SIZE + Z.of_nat j).
Proof.
  intros Hco Hcom Hcl Hclm Hend Hj. pose proof (gen_length d snap Hgen) as Hlen.
  assert (Z.of_nat (length (slice (Z.to_nat co) (Z.to_nat cl) snap)) = cl / PAGE_SIZE * PAGE_SIZE) as Hl.
  { rewrite length_slice by lia. unfold PAGE_SIZE in *. zlia. }
  assert (slice (j * page_n) page_n (slice (Z.to_nat co) (Z.to_nat cl) snap) = snap_page snap (co / PAGE_SIZE + Z.of_nat j)) as Hs.
  { assert (0 ≤ co / PAGE_SIZE) by (by apply Z.div_pos). rewrite slice_slice.
    - unfold snap_page. f_equal. rewrite (page_multiple co), Z2Nat.inj_add, Nat2Z.id by (done || lia). lia.
    - rewrite (page_multiple cl) by done. assert (S j ≤ Z.to_nat (cl / PAGE_SIZE))%nat by lia. nia. }
  unfold without_discarded, fresh. destruct (any_discarded _ _ _) eqn:Hd.
  - unfold page_n in *. rewrite (zero_discarded_page _ _ _ _ _ Hl) by done. by rewrite Hs.
  - rewrite (any_discarded_false _ _ _ _ Hd) by lia. done.
Qed.

Lemma in_range_guest o n (i : nat) :
  0 ≤ o → o mod PAGE_SIZE = 0 → o + n ≤ guest_len d → Z.of_nat i < n / PAGE_SIZE → in_guest d (o / PAGE_SIZE + Z.of_nat i).
Proof. destruct (wf_len d Hwf). unfold in_guest, PAGE_SIZE in *. intros. zlia. Qed.

(** [UFFDIO_COPY] of whole pages of a verified range. *)
Lemma copy_fresh k k' r co cl o n :
  0 ≤ co → co mod PAGE_SIZE = 0 → cl mod PAGE_SIZE = 0 → co + cl ≤ guest_len d →
  co ≤ o → o mod PAGE_SIZE = 0 → 0 ≤ n → n mod PAGE_SIZE = 0 → o + n ≤ co + cl →
  k_copy k (guest_base d + o) (slice (Z.to_nat (o - co)) (Z.to_nat n)
    (without_discarded d co cl (slice (Z.to_nat co) (Z.to_nat cl) snap))) = (r, k') →
  fresh_fill d snap k k'.
Proof.
  intros Hco Hcom Hclm Hend Ho Hom Hn Hnm Hon Hk.
  set (bs := without_discarded d co cl _) in *.
  eapply (fill_result_fresh k _ _ _ _ (o / PAGE_SIZE)); [by apply k_copy_fills, Hk| |].
  { unfold host_addr, PAGE_SIZE in *. zlia. }
  assert (0 ≤ (o - co) / PAGE_SIZE) by (apply Z.div_pos; [lia|done]).
  assert ((o - co) mod PAGE_SIZE = 0) as Hocm by (unfold PAGE_SIZE in *; zlia).
  intros i x [-> Hi]%lookup_pieces.
  assert (Z.of_nat i < n / PAGE_SIZE) as Hi'.
  { eapply Z.lt_le_trans; [apply Hi|]. unfold div_ceil. assert (length (slice (Z.to_nat (o - co)) (Z.to_nat n) bs) ≤ Z.to_nat n)%nat.
    { unfold slice. rewrite length_take. lia. } unfold PAGE_SIZE in *. zlia. }
  split; [apply (in_range_guest o n); done || lia|].
  replace (Z.to_nat (Z.of_nat i * PAGE_SIZE)) with (i * page_n)%nat by (unfold page_n; lia). rewrite slice_slice.
  - rewrite (page_multiple (o - co)) by lia. rewrite <- Nat.mul_add_distr_r. unfold page_n in *. fold page_n in *.
    subst bs. rewrite copied_page; [|done|done|lia|done|done|unfold PAGE_SIZE in *; zlia].
    f_equal. unfold PAGE_SIZE in *. zlia.
  - rewrite (page_multiple n) by done. fold page_n. assert (S i ≤ Z.to_nat (n / PAGE_SIZE))%nat by lia. nia.
Qed.

Lemma chunk_at_range i co cl :
  0 ≤ co → co = co / chunk_size i * chunk_size i → cl = Z.min (chunk_size i) (guest_len d - co) →
  0 < chunk_size i → chunk_at i snap (Z.of_nat (Z.to_nat (co / chunk_size i))) = slice (Z.to_nat co) (Z.to_nat cl) snap.
Proof.
  intros Hco Hc -> Hpos. unfold chunk_at. rewrite Z2Nat.id by (by apply Z.div_pos). rewrite <- Hc, (gen_length d snap Hgen). done.
Qed.

(** Bytes with the hash of the manifest are the snapshot's, whatever the file
    held when they were read. *)
Lemma verified_genuine src q co cl bytes :
  trusted d snap src → in_guest d q → copy_range d (q * PAGE_SIZE) = (co, cl) →
  verified d src co cl = Some bytes → bytes = slice (Z.to_nat co) (Z.to_nat cl) snap.
Proof.
  intros Ht Hq Hcr Hv. destruct (copy_range_ok d q co cl Hwf Hq Hcr) as (_ & _ & _ & ? & _ & Hi).
  unfold verified in Hv. destruct (source_integrity (source d)) as [i|] eqn:Ei.
  - destruct (Hi i eq_refl) as (Hc & Hcl & _). destruct (chunk_pages d i Hwf Ei) as (? & _).
    destruct (chunk_hashes i !! Z.to_nat (co / chunk_size i)) as [h|] eqn:Eh; [|done].
    unfold chunk_sha256_matches in Hv. case_bool_decide as Hh; [|done]. injection Hv as <-.
    rewrite (gen_collision d snap Hgen i _ h _ Ei Eh Hh). apply chunk_at_range; lia || done.
  - injection Hv as <-. by rewrite Ht.
Qed.

Lemma zero_chunk_pages supported q co cl p :
  in_guest d q → copy_range d (q * PAGE_SIZE) = (co, cl) → zero_chunk d supported co cl = Some true →
  co / PAGE_SIZE ≤ p < (co + cl) / PAGE_SIZE → snap_page snap p = zero_page.
Proof.
  intros Hq Hcr Hz Hp. destruct (copy_range_ok d q co cl Hwf Hq Hcr) as (Hcom & Hclm & ? & ? & ? & Hi).
  unfold zero_chunk in Hz. destruct (source_integrity (source d)) as [i|] eqn:Ei; [|done].
  destruct (Hi i eq_refl) as (Hc & Hcl & _). destruct (chunk_pages d i Hwf Ei) as (? & _).
  destruct (wf_integrity d Hwf i Ei) as (_ & _ & Hzh).
  destruct (supported && (cl =? chunk_size i)) eqn:E; [|done]. bool_to_prop.
  apply fmap_Some in Hz as (h & Eh & Hr). symmetry in Hr. unfold recorded_zero in Hr.
  apply bool_decide_eq_true in Hr. rewrite Hzh in Hr. injection Hr as Hr.
  assert (slice (Z.to_nat co) (Z.to_nat cl) snap = replicate (Z.to_nat cl) 0) as Hs.
  { rewrite <- (chunk_at_range i co cl) by (lia || done). rewrite <- (gen_collision d snap Hgen i _ h _ Ei Eh Hr). f_equal. lia. }
  assert (0 ≤ p - co / PAGE_SIZE ∧ p - co / PAGE_SIZE < cl / PAGE_SIZE) by (unfold PAGE_SIZE in *; zlia).
  assert (0 ≤ co / PAGE_SIZE) by (apply Z.div_pos; [lia|done]).
  unfold snap_page. replace (Z.to_nat p * page_n)%nat with (Z.to_nat co + Z.to_nat (p - co / PAGE_SIZE) * page_n)%nat
    by (rewrite (page_multiple co) by lia; nia).
  rewrite <- (slice_slice _ _ _ (Z.to_nat cl)), Hs, slice_replicate; [done|..];
    rewrite (page_multiple cl) by lia; assert (S (Z.to_nat (p - co / PAGE_SIZE)) ≤ Z.to_nat (cl / PAGE_SIZE))%nat by lia; nia.
Qed.

(** [UFFDIO_ZEROPAGE] of whole pages of a chunk of zeros. *)
Lemma zeropage_fresh k k' r supported q co cl o n :
  in_guest d q → copy_range d (q * PAGE_SIZE) = (co, cl) → zero_chunk d supported co cl = Some true →
  co ≤ o → o mod PAGE_SIZE = 0 → n mod PAGE_SIZE = 0 → o + n ≤ co + cl →
  k_zeropage k (guest_base d + o) n = (r, k') → fresh_fill d snap k k'.
Proof.
  intros Hq Hcr Hz Ho Hom Hnm Hon Hk. destruct (copy_range_ok d q co cl Hwf Hq Hcr) as (Hcom & Hclm & ? & ? & ? & _).
  eapply (fill_result_fresh k _ _ _ _ (o / PAGE_SIZE)); [by apply k_zeropage_fills, Hk| |].
  { unfold host_addr, PAGE_SIZE in *. zlia. }
  intros i x [-> Hi]%lookup_replicate. assert (Z.of_nat i < n / PAGE_SIZE) by lia.
  split; [apply (in_range_guest o n); done || lia|]. unfold fresh.
  rewrite (zero_chunk_pages supported q co cl) by (done || unfold PAGE_SIZE in *; zlia). by destruct (is_discarded _ _).
Qed.

Lemma fill_fresh pf po co cl op k rc off len k' :
  (∀ k o n r k', (o = co ∧ n = cl) ∨ (o = po ∧ n = PAGE_SIZE) → op k o n = (r, k') → fresh_fill d snap k k') →
  fill d pf po co cl op k = (rc, off, len, k') → fresh_fill d snap k k'.
Proof.
  intros Hop Hf. unfold fill in Hf. destruct (op k co cl) as [r1 k1] eqn:E1.
  assert (fresh_fill d snap k k1) by (eapply Hop; [by left|done]).
  destruct (_ && _); [|by injection Hf as <- <- <- <-].
  destruct (op k1 po PAGE_SIZE) as [r2 k2] eqn:E2. injection Hf as <- <- <- <-.
  eapply fresh_fill_trans; [done|]. eapply Hop; [by right|done].
Qed.

End filling.

(** The hook but for the chunks that were touched. *)
Definition same_hook (d d' : LazyPageDiscard) : Prop :=
  guest_base d' = guest_base d ∧ guest_len d' = guest_len d ∧ discarded_pages d' = discarded_pages d ∧
  discarded_poisoned d' = discarded_poisoned d ∧ source d' = source d.

(** The state an iteration ends in, when there is one. *)
Definition leaves {A : Type} (P : A → Prop) (o : outcome A) : Prop :=
  match o with Goes a | Ends a => P a | Exits _ => True end.

Section serving.
Context {K : Type} `{!UffdKernel K} `{!UffdLaws K} `{!Sha256}.
Context (snap : list Z).
Implicit Types (s : Lazy K).

(** What an iteration may do to memory. *)
Definition invisible (s s' : Lazy K) : Prop :=
  fresh_fill (lz_discard s) snap (lz_kernel s) (lz_kernel s') ∧ same_hook (lz_discard s) (lz_discard s').

Lemma same_hook_refl d : same_hook d d.
Proof. done. Qed.

Lemma invisible_handler f s : invisible s (on_handler f s).
Proof. split; [apply fresh_fill_refl|done]. Qed.

Lemma settle_invisible a pf cl rc off len s k :
  fresh_fill (lz_discard s) snap (lz_kernel s) k → leaves (invisible s) (settle a pf cl rc off len (on_kernel k s)).
Proof.
  intros Hk. unfold settle. destruct rc as [e|]; simpl.
  - destruct pf; repeat (destruct (e =? _); [by split|]); by split || done.
  - destruct (source_integrity (source (lz_discard s))) as [i|]; [|by split].
    destruct (len =? cl); by split.
Qed.

Lemma serve_invisible src a pf s :
  well_formed (lz_discard s) → genuine (lz_discard s) snap → trusted (lz_discard s) snap src →
  leaves (invisible s) (serve src a pf s).
Proof.
  intros Hwf Hgen Ht. assert (invisible s s) by (split; [apply fresh_fill_refl|done]).
  unfold serve. set (d := lz_discard s) in *.
  destruct (u64_checked_add (guest_base d) (guest_len d)) as [ge|] eqn:Ege; [|done].
  apply u64_checked_add_Some in Ege as [-> _].
  destruct ((a <? guest_base d) || (guest_base d + guest_len d <=? a)) eqn:Ea; [done|]. bool_to_prop.
  rewrite align_page. set (q := (a - guest_base d) / PAGE_SIZE).
  assert (in_guest d q) as Hq.
  { destruct (wf_len d Hwf). unfold in_guest, q, PAGE_SIZE in *. zlia. }
  destruct (copy_range d (q * PAGE_SIZE)) as [co cl] eqn:Hcr.
  destruct (copy_range_ok d q co cl Hwf Hq Hcr) as (Hcom & Hclm & Hcl & Hco & Hend & _).
  assert (q * PAGE_SIZE mod PAGE_SIZE = 0) by (by apply Z.mod_mul).
  destruct (u64_checked_add co cl) as [ce|]; [|done]. destruct (u64_checked_add (guest_base d) co); [|done].
  destruct (_ || _ || _); [done|].
  destruct (zero_chunk d _ co cl) as [[]|] eqn:Hz; [| |done].
  - destruct (fill d pf (q * PAGE_SIZE) co cl _ _) as [[[rc off] len] k] eqn:Hf.
    assert (fresh_fill d snap (lz_kernel s) k) as Hk.
    { eapply fill_fresh; [|apply Hf]. intros k0 o n r k' Hon Hop.
      eapply (zeropage_fresh d snap Hwf Hgen k0 k' r _ q co cl o n Hq Hcr Hz); [..|apply Hop];
        destruct Hon as [[-> ->]|[-> ->]]; done || lia. }
    case_bool_decide; [|by apply settle_invisible]. simpl. split; [done|]. by destruct pf.
  - destruct (pf && _); [done|]. destruct (verified d src co cl) as [bytes|] eqn:Hv; [|done].
    assert (bytes = slice (Z.to_nat co) (Z.to_nat cl) snap) as -> by (eapply verified_genuine; done).
    destruct (fill d pf (q * PAGE_SIZE) co cl _ _) as [[[rc off] len] k] eqn:Hf.
    apply settle_invisible. eapply fill_fresh; [|apply Hf]. intros k0 o n r k' Hon Hop.
    eapply (copy_fresh d snap Hwf Hgen k0 k' r co cl o n); [..|apply Hop];
      destruct Hon as [[-> ->]|[-> ->]]; done || lia.
Qed.

Lemma iteration_invisible sd sd' poll reads src s :
  well_formed (lz_discard s) → genuine (lz_discard s) snap → trusted (lz_discard s) snap src →
  leaves (invisible s) (handler_iteration sd sd' poll reads src s).
Proof.
  intros Hwf Hgen Ht. assert (invisible s s) by (split; [apply fresh_fill_refl|done]). unfold handler_iteration.
  destruct sd; [done|]. destruct poll as [e|rc revents wake]; [by destruct (e =? EINTR)|].
  destruct (_ && _); [done|]. destruct (_ && _); [done|]. destruct (has_bits revents POLL_GONE); [done|].
  destruct (if _ && _ then _ else _) as [[|a rest]|]; [| |done].
  - destruct (to_prefetch (lz_handler s)) as [|a rest]; [by apply invisible_handler|].
    destruct (already_served _ a); [by apply invisible_handler|].
    by apply (serve_invisible src a true (on_handler _ s)).
  - by apply (serve_invisible src a false (on_handler _ s)).
Qed.

Lemma same_hook_well_formed d d' : same_hook d d' → well_formed d → well_formed d'.
Proof. intros (Hb & Hl & Hd & _ & Hs) []. split; rewrite ?Hb, ?Hl, ?Hd, ?Hs; done. Qed.

Lemma same_hook_genuine d d' : same_hook d d' → genuine d snap → genuine d' snap.
Proof. intros (Hb & Hl & Hd & _ & Hs) []. split; rewrite ?Hl, ?Hs; done. Qed.

Lemma invisible_view s s' q : invisible s s' → in_guest (lz_discard s) q → view snap s' q = view snap s q.
Proof.
  intros [Hf (Hb & Hl & Hd & _ & Hs)] Hq. unfold view, fresh, host_addr. rewrite Hb, Hd.
  destruct (Hf (guest_base (lz_discard s) + q * PAGE_SIZE)) as [->|(q' & _ & Ha & Hn & ->)]; [done|].
  unfold host_addr in Ha. assert (q' = q) as -> by (unfold PAGE_SIZE in *; lia). by rewrite Hn.
Qed.

(** ** Interleavings *)

Inductive label : Type :=
| Tau
| Write (q : Z) (bs : list Z)
| Drop (qs : list Z).

(** A turn of the handler, a write of the guest to a populated page, and the
    two parts of a discard: the marks, which are made under the lock the
    handler holds while it serves, and the release of one page. *)
Inductive lazy_step : Lazy K → label → Lazy K → Prop :=
| lz_handle sd sd' poll reads src s s' :
    trusted (lz_discard s) snap src → handler_iteration sd sd' poll reads src s = Goes s' → lazy_step s Tau s'
| lz_write s k q bs :
    in_guest (lz_discard s) q → is_Some (k_page (lz_kernel s) (host_addr (lz_discard s) q)) →
    (∀ a, k_page k a = if decide (a = host_addr (lz_discard s) q) then Some bs else k_page (lz_kernel s) a) →
    lazy_step s (Write q bs) (on_kernel k s)
| lz_mark s first n :
    0 ≤ first → 0 ≤ n → first + n ≤ guest_len (lz_discard s) / PAGE_SIZE →
    lazy_step s (Drop (seqZ first n))
      (on_discard (set_discarded (lz_discard s) (mark_discarded (discarded_pages (lz_discard s)) first n)) s)
| lz_release s k q :
    in_guest (lz_discard s) q → is_discarded (discarded_pages (lz_discard s)) q = true →
    k_dontneed (lz_kernel s) (host_addr (lz_discard s) q) = (true, k) →
    lazy_step s (Drop [q]) (on_kernel k s).

Inductive lazy_run : Lazy K → list label → Lazy K → Prop :=
| run_done s : lazy_run s [] s
| run_step s l s1 ls s' : lazy_step s l s1 → lazy_run s1 ls s' → lazy_run s (l :: ls) s'.

End serving.

(** The memory a guest expects: a write changes its page, a discard may turn
    its pages into zeros, nothing else happens. *)
Definition plain_step (n : Z) (m : Z → list Z) (l : label) (m' : Z → list Z) : Prop :=
  ∀ q, 0 ≤ q < n →
    match l with
    | Tau => m' q = m q
    | Write p bs => m' q = if decide (q = p) then bs else m q
    | Drop qs => m' q = m q ∨ (q ∈ qs ∧ m' q = zero_page)
    end.

Fixpoint plain_run (n : Z) (m : Z → list Z) (ls : list label) (m' : Z → list Z) : Prop :=
  match ls with
  | [] => ∀ q, 0 ≤ q < n → m' q = m q
  | l :: ls' => ∃ m1, plain_step n m l m1 ∧ plain_run n m1 ls' m'
  end.

(** ** Refinement of plain memory *)
Section refinement.
Context {K : Type} `{!UffdKernel K} `{!UffdLaws K} `{!Sha256}.
Context (snap : list Z).
Implicit Types (s : Lazy K).

Lemma mark_pages l ps q : ∀ (Hps : ∀ p, p ∈ ps → 0 ≤ p) (Hq : 0 ≤ q),
  length (foldl (fun l p => <[Z.to_nat p := true]> l) l ps) = length l ∧
  is_discarded (foldl (fun l p => <[Z.to_nat p := true]> l) l ps) q =
  is_discarded l q || bool_decide (q ∈ ps ∧ q < Z.of_nat (length l)).
Proof.
  revert l. induction ps as [|p ps IH]; intros l Hps Hq; cbn [foldl].
  { split; [done|]. rewrite bool_decide_eq_false_2, orb_false_r; [done|]. by intros [?%not_elem_of_nil _]. }
  destruct (IH (<[Z.to_nat p := true]> l)) as [-> ->]; [intros; apply Hps; by right|done|]. rewrite length_insert.
  split; [done|]. unfold is_discarded. assert (0 ≤ p) by (apply Hps; left). destruct (decide (p = q)) as [->|Hne].
  - destruct (decide (q < Z.of_nat (length l))).
    + rewrite list_lookup_insert_eq by lia. rewrite (bool_decide_eq_true_2 (q ∈ q :: ps ∧ _)), orb_true_r by (split; [left|done]). done.
    + rewrite list_insert_ge by lia. f_equal. apply bool_decide_ext. naive_solver.
  - rewrite list_lookup_insert_ne by lia. f_equal. apply bool_decide_ext. rewrite elem_of_cons. naive_solver.
Qed.

Lemma mark_discarded_ok l first n q :
  0 ≤ first → 0 ≤ q →
  length (mark_discarded l first n) = length l ∧
  is_discarded (mark_discarded l first n) q = is_discarded l q || bool_decide (q ∈ seqZ first n ∧ q < Z.of_nat (length l)).
Proof. intros. apply mark_pages; [|done]. intros p. rewrite elem_of_seqZ. lia. Qed.

(** The state a run keeps: its shape, its place and its snapshot. *)
Definition kept (base len : Z) s : Prop :=
  well_formed (lz_discard s) ∧ genuine (lz_discard s) snap ∧ guest_base (lz_discard s) = base ∧ guest_len (lz_discard s) = len.

Lemma lazy_step_refines s l s' base len :
  kept base len s → lazy_step snap s l s' →
  kept base len s' ∧ plain_step (len / PAGE_SIZE) (view snap s) l (view snap s').
Proof.
  intros (Hwf & Hgen & Hb & Hl) Hstep. destruct Hstep.
  - pose proof (iteration_invisible snap sd sd' poll reads src s Hwf Hgen H0) as Hi. rewrite H1 in Hi. simpl in Hi.
    pose proof Hi as [_ Hsame]. split.
    + split_and!; [by eapply same_hook_well_formed|by eapply same_hook_genuine|..]; destruct Hsame as (Hb1 & Hl1 & _); congruence.
    + intros q Hq. apply invisible_view; [done|]. unfold in_guest. by rewrite Hl.
  - split; [done|]. intros p Hp. unfold view, on_kernel. simpl. rewrite H2. unfold host_addr.
    destruct (decide (p = q)) as [->|]; [by rewrite decide_True|]. rewrite decide_False by (unfold PAGE_SIZE; lia). done.
  - assert (∀ q, 0 ≤ q → _) as Hm by (intros q ?; apply (mark_discarded_ok (discarded_pages (lz_discard s)) first n q); done).
    split.
    + split_and!; [|by destruct Hgen|done|done]. destruct Hwf as [? ? ? Hd ?]. split; simpl; try done.
      by rewrite (proj1 (Hm 0 ltac:(lia))).
    + intros q Hq. unfold view, on_discard, fresh, host_addr. simpl.
      destruct (k_page (lz_kernel s) _); [by left|]. simpl. rewrite (proj2 (Hm q ltac:(lia))).
      destruct (is_discarded (discarded_pages (lz_discard s)) q); simpl; [by left|].
      case_bool_decide as Hin; [right|by left]. by destruct Hin.
  - split; [done|]. intros p Hp. unfold view, on_kernel. simpl. rewrite (k_dontneed_ok _ _ _ H2).
    destruct (decide (host_addr (lz_discard s) p = host_addr (lz_discard s) q)) as [He|]; [right|by left].
    assert (p = q) as -> by (unfold host_addr, PAGE_SIZE in *; lia). split; [by apply list_elem_of_singleton|].
    simpl. unfold fresh. by rewrite H1.
Qed.

Lemma lazy_run_refines s ls s' base len :
  kept base len s → lazy_run snap s ls s' →
  kept base len s' ∧ plain_run (len / PAGE_SIZE) (view snap s) ls (view snap s').
Proof.
  intros Hk Hrun. induction Hrun as [s|s l s1 ls s' Hstep Hrun IH]; [done|].
  destruct (lazy_step_refines _ _ _ _ _ Hk Hstep) as [Hk1 Hp]. destruct (IH Hk1) as [? Hps].
  split; [done|]. by exists (view snap s1).
Qed.

(** A page of zeros stays one until it is written. *)
Lemma plain_run_zero n ls q : ∀ m m',
  plain_run n m ls m' → 0 ≤ q < n → m q = zero_page → (∀ bs, Write q bs ∉ ls) → m' q = zero_page.
Proof.
  induction ls as [|l ls IH]; intros m m' Hrun Hq Hz Hno; simpl in Hrun; [by rewrite Hrun|].
  destruct Hrun as (m1 & Hs & Hrun). apply (IH m1 m'); [done|done| |].
  - specialize (Hs q Hq). destruct l as [|p bs|qs]; [congruence| |naive_solver congruence].
    destruct (decide (q = p)) as [->|]; [|congruence]. destruct (Hno bs). left.
  - intros bs Hin. apply (Hno bs). by right.
Qed.

End refinement.

(** ** From the start of a restore *)

Lemma power_of_two x : is_power_of_two x = true → x = 2 ^ Z.log2 x.
Proof.
  unfold is_power_of_two. intros [Hx Hl]%andb_prop. apply Z.ltb_lt in Hx. apply Z.eqb_eq in Hl.
  destruct (Z.log2_spec x Hx) as [Hlo Hhi]. pose proof (Z.log2_nonneg x).
  destruct (decide (x = 2 ^ Z.log2 x)) as [|Hne]; [done|exfalso].
  assert (Z.testbit (Z.land x (x - 1)) (Z.log2 x) = true) as Hb; [|by rewrite Hl, Z.bits_0 in Hb].
  rewrite Z.land_spec, Z.bit_log2 by done. replace (Z.log2 x) with (Z.log2 (x - 1)).
  - rewrite Z.bit_log2; [done|]. pose proof (Z.pow_pos_nonneg 2 (Z.log2 x)). lia.
  - apply Z.log2_unique; lia.
Qed.

Lemma started_well_formed {K : Type} `{!UffdKernel K} `{!Sha256} host ptr len off slen dirty integrity (k : K) s m :
  0 ≤ ptr → ptr + len ≤ U64_MAX → 0 ≤ len → 0 < h_page_size host → h_page_size host mod PAGE_SIZE = 0 →
  start_lazy_restore_with_integrity host ptr len off slen dirty integrity k = (Ok s, m) →
  well_formed (lz_discard s) ∧ lz_kernel s = k ∧ lz_discard s = discard_new ptr len off integrity.
Proof.
  intros Hp He Hl Hps Hpm. unfold start_lazy_restore_with_integrity.
  destruct ((ptr =? 0) || (len =? 0)) eqn:E0; [done|]. destruct (negb (slen =? len)); [done|].
  destruct (u64_checked_add off slen); [|done]. destruct (h_file_len host); [|done]. destruct (_ <? _); [done|].
  rewrite (proj2 (Z.ltb_lt 0 _)) by done.
  destruct (negb (is_multiple_of ptr _) || negb (is_multiple_of len _)) eqn:E1; [done|].
  match goal with |- context [if negb ?b then _ else _] => destruct (negb b) eqn:E2 end; [done|].
  destruct (u64_checked_add slen _); [|done]. destruct (I64_MAX <? _); [done|].
  destruct (negb (h_mmap host)); [done|]. destruct (negb (h_userfaultfd host)); [done|].
  destruct (h_api host); [|done]. destruct (negb (_ =? _)); [done|]. destruct (negb (h_register host)); [done|].
  destruct (negb (h_eventfd host)); [done|]. destruct (negb (h_try_clone host)); [done|]. destruct (negb (h_spawn host)); [done|].
  intros [= <- <-]. split; [|done]. simpl. unfold is_multiple_of in E1. bool_to_prop.
  assert (∀ x, x mod h_page_size host = 0 → x mod PAGE_SIZE = 0) as Hmod.
  { assert (PAGE_SIZE ≠ 0) by done. intros x Hx. apply Z.mod_divide; [done|].
    apply (Z.divide_trans _ (h_page_size host)); apply Z.mod_divide; done || lia. }
  split; simpl; auto.
  - split; [lia|auto].
  - rewrite length_replicate. assert (len mod PAGE_SIZE = 0) by auto. unfold div_ceil, PAGE_SIZE in *. zlia.
  - intros i ->. unfold integrity_ok, is_multiple_of in E2. bool_to_prop. split; [|split; [done|done]].
    match goal with H : is_power_of_two _ = true |- _ => apply power_of_two in H; exists (Z.log2 (chunk_size i)); split; [|done] end.
    assert (PAGE_SIZE ≤ h_page_size host) by (unfold PAGE_SIZE in *; zlia).
    apply (Z.log2_le_mono (2 ^ 12)). unfold PAGE_SIZE in *. lia.
Qed.

(** C3: Lazily restored memory is memory: from the start of a restore, in
    every interleaving of the fault handler with the guest's writes and the
    balloon's discards, the guest sees the snapshot changed by its writes and
    by nothing else, but for discarded pages, which may turn into zeros. The
    handler's turns are invisible: whatever the kernel answers, whatever is
    prefetched, and, when the snapshot has an integrity manifest, whatever
    the snapshot file is changed into while the handler reads it. *)
Theorem lazy_refines {K : Type} `{!UffdKernel K} `{!UffdLaws K} `{!Sha256}
    host ptr len off slen dirty integrity (k : K) s m snap ls s' :
  0 ≤ ptr → ptr + len ≤ U64_MAX → 0 ≤ len → 0 < h_page_size host → h_page_size host mod PAGE_SIZE = 0 →
  start_lazy_restore_with_integrity host ptr len off slen dirty integrity k = (Ok s, m) →
  genuine (lz_discard s) snap → (∀ a, k_page k a = None) →
  lazy_run snap s ls s' →
  plain_run (len / PAGE_SIZE) (snap_page snap) ls (view snap s').
Proof.
  intros Hp He Hl Hps Hpm Hs Hgen Hk Hrun.
  destruct (started_well_formed _ _ _ _ _ _ _ _ _ _ Hp He Hl Hps Hpm Hs) as (Hwf & Hks & Hd).
  destruct (lazy_run_refines snap s ls s' ptr len) as [_ Hplain]; [|done|].
  { split_and!; [done..| |]; by rewrite Hd. }
  assert (∀ q, 0 ≤ q < len / PAGE_SIZE → snap_page snap q = view snap s q) as Hv.
  { intros q Hq. unfold view. rewrite Hks, Hk. simpl. unfold fresh, is_discarded. rewrite Hd. simpl.
    destruct (lookup_lt_is_Some_2 (replicate (Z.to_nat (div_ceil len 4096)) false) (Z.to_nat q)) as [b Hb].
    { rewrite length_replicate. unfold div_ceil, PAGE_SIZE in *. zlia. }
    rewrite Hb. apply lookup_replicate in Hb as [-> _]. done. }
  clear -Hplain Hv. destruct ls as [|l ls]; simpl in *.
  - intros q Hq. by rewrite Hplain, Hv.
  - destruct Hplain as (m1 & Hs & Hr). exists m1. split; [|done]. intros q Hq. specialize (Hs q Hq). by rewrite Hv.
Qed.

(** ** Discards *)
Section discards.
Context {K : Type} `{!UffdKernel K} `{!UffdLaws K} `{!Sha256}.
Context (snap : list Z).
(** No page is swapped out: what is not in core is missing. *)
Hypothesis (Hcore : ∀ (k : K) a, k_mincore k a = Some false → k_page k a = None).

Lemma release_pages_ok addrs : ∀ (k k' : K),
  release_pages addrs k = (Ok tt, k') →
  (∀ a, a ∈ addrs → k_page k' a = None) ∧ (∀ a, k_page k' a = k_page k a ∨ k_page k' a = None).
Proof.
  induction addrs as [|a addrs IH]; intros k k' Hr; simpl in Hr.
  { injection Hr as <-. split; [intros a Ha; by apply not_elem_of_nil in Ha|by left]. }
  destruct (U64_MAX <? a); [done|]. destruct (k_mincore k a) as [[]|] eqn:Hm; [| |done].
  - destruct (k_dontneed k a) as [[] k1] eqn:Hd; [|done]. destruct (IH _ _ Hr) as [Hall Hmono].
    assert (∀ b, k_page k1 b = k_page k b ∨ k_page k1 b = None) as H1
      by (intros b; rewrite (k_dontneed_ok _ _ _ Hd); case_decide; auto).
    split; [|intros b; destruct (Hmono b) as [->|]; auto]. intros b [->|?]%elem_of_cons; [|auto].
    destruct (Hmono a) as [->|]; [|done]. rewrite (k_dontneed_ok _ _ _ Hd). by rewrite decide_True.
  - destruct (IH _ _ Hr) as [Hall Hmono]. split; [|done]. intros b [->|?]%elem_of_cons; [|auto].
    destruct (Hmono a) as [->|]; [by apply Hcore|done].
Qed.

(** A successful discard leaves zeros in its range, and its hook is one from
    which the machine runs on. *)
Lemma discard_ok (s : Lazy K) base len o n d' k' :
  kept snap base len s → 0 ≤ o → discard (lz_discard s) (lz_kernel s) o n = (Ok tt, d', k') →
  kept snap base len (on_kernel k' (on_discard d' s)) ∧ o mod PAGE_SIZE = 0 ∧ o + n ≤ len ∧
  ∀ q, o / PAGE_SIZE ≤ q < (o + n) / PAGE_SIZE → view snap (on_kernel k' (on_discard d' s)) q = zero_page.
Proof.
  intros (Hwf & Hgen & Hb & Hl) Ho. unfold discard, is_multiple_of. set (d := lz_discard s) in *.
  destruct (u64_checked_add o n) as [e|] eqn:Ee; [apply u64_checked_add_Some in Ee as [-> _]|rewrite orb_true_r; done].
  destruct (_ || _) eqn:Eg; [done|]. destruct (discarded_poisoned d); [done|].
  destruct (u64_checked_add (guest_base d) o) as [addr|] eqn:Ea; [apply u64_checked_add_Some in Ea as [-> _]|done].
  destruct (release_pages _ _) as [r k1] eqn:Hr. intros [= -> <- <-]. bool_to_prop.
  destruct (release_pages_ok _ _ _ Hr) as [Hnone _].
  assert (0 ≤ o / PAGE_SIZE) by (by apply Z.div_pos).
  assert (∀ q, 0 ≤ q → _) as Hm by (intros q ?; apply (mark_discarded_ok (discarded_pages d) (o / PAGE_SIZE) ((o + n) / PAGE_SIZE - o / PAGE_SIZE) q); done).
  split; [|split; [done|split; [lia|]]].
  - split_and!; [|by destruct Hgen|done|done]. destruct Hwf as [? ? ? Hd ?]. split; simpl; try done.
    by rewrite (proj1 (Hm 0 ltac:(lia))).
  - intros q Hq. unfold view, fresh, host_addr. simpl. rewrite Hnone; simpl.
    + rewrite (proj2 (Hm q ltac:(lia))). rewrite (bool_decide_eq_true_2 (q ∈ _ ∧ _)), orb_true_r; [done|].
      split; [apply elem_of_seqZ; lia|]. rewrite (wf_discarded d Hwf). unfold PAGE_SIZE in *. zlia.
    + apply list_elem_of_fmap. exists (q - o / PAGE_SIZE). split; [unfold PAGE_SIZE in *; zlia|].
      apply elem_of_seqZ. unfold div_ceil, PAGE_SIZE in *. zlia.
Qed.

End discards.

(** C15: A page the balloon has discarded does not come back: once [discard]
    has succeeded on a range, each of its pages reads as zeros in every run
    of the fault handler, further discards and writes to other pages, until
    the guest writes it; no fault, no chunk that is prefetched around it
    brings the snapshot's bytes back. (No page of the guest is swapped out.) *)
Theorem discard_stays_zero {K : Type} `{!UffdKernel K} `{!UffdLaws K} `{!Sha256}
    snap (s : Lazy K) base len o n d' k' ls s' q :
  (∀ (k : K) a, k_mincore k a = Some false → k_page k a = None) →
  kept snap base len s → 0 ≤ o → discard (lz_discard s) (lz_kernel s) o n = (Ok tt, d', k') →
  lazy_run snap (on_kernel k' (on_discard d' s)) ls s' →
  o / PAGE_SIZE ≤ q < (o + n) / PAGE_SIZE → (∀ bs, Write q bs ∉ ls) →
  view snap s' q = zero_page.
Proof.
  intros Hcore Hk Ho Hd Hrun Hq Hno. destruct (discard_ok snap Hcore s base len o n d' k' Hk Ho Hd) as (Hk1 & ? & ? & Hz).
  destruct (lazy_run_refines snap _ _ _ _ _ Hk1 Hrun) as [_ Hplain].
  eapply plain_run_zero; [done| |by apply Hz|done].
  assert (0 ≤ o / PAGE_SIZE) by (by apply Z.div_pos). unfold PAGE_SIZE in *. zlia.
Qed.

(** ** Faults are resolved *)

(** A kernel without trouble of its own: a fill that fails found its first
    page there, or filled it and stopped further on. *)
Definition calm {K : Type} `{!UffdKernel K} (k : K) (dst : Z) (r : option Z) (k' : K) : Prop :=
  ∀ e, r = Some e → e = EEXIST ∨ (e = EAGAIN ∧ k_page k dst = None ∧ is_Some (k_page k' dst)).

Class CalmKernel (K : Type) `{!UffdKernel K} : Prop := {
  calm_copy k dst bs r k' : k_copy k dst bs = (r, k') → calm k dst r k';
  calm_zeropage k dst len r k' : k_zeropage k dst len = (r, k') → calm k dst r k';
}.

Definition populated {K : Type} `{!UffdKernel K} (s : Lazy K) (q : Z) : Prop :=
  is_Some (k_page (lz_kernel s) (host_addr (lz_discard s) q)).

Section resolving.
Context {K : Type} `{!UffdKernel K} `{!UffdLaws K} `{!CalmKernel K} `{!Sha256}.
Context (snap : list Z).

Definition keeps_pages (k k' : K) : Prop := ∀ b, is_Some (k_page k b) → is_Some (k_page k' b).

Lemma fill_result_keeps k dst pages r k' : fill_result k dst pages r k' → keeps_pages k k'.
Proof.
  intros (n & (Hn & Hnone & Hset & Hrest) & _) b Hb.
  destruct (decide (b ∈ (fun i => dst + Z.of_nat i * PAGE_SIZE) <$> seq 0 n)) as [(i & -> & [_ Hi]%elem_of_seq)%list_elem_of_fmap|Hno].
  - rewrite Hnone in Hb by lia. by destruct Hb.
  - rewrite Hrest; [done|]. intros i Hi ->. apply Hno, list_elem_of_fmap. exists i. split; [done|]. apply elem_of_seq. lia.
Qed.

(** One attempt at a range [co, co + cl) of whole pages with the faulting
    page at [po]: an [op] that fills like the kernel's. *)
Lemma fill_attempt d po co cl op (k k' : K) rc off len :
  co mod PAGE_SIZE = 0 → po mod PAGE_SIZE = 0 → cl mod PAGE_SIZE = 0 → 0 < cl → co ≤ po → po + PAGE_SIZE ≤ co + cl →
  (∀ k o n r k', (o = co ∧ n = cl) ∨ (o = po ∧ n = PAGE_SIZE) → op k o n = (r, k') →
    calm k (guest_base d + o) r k' ∧
    ∃ pages, Z.of_nat (length pages) = n / PAGE_SIZE ∧ fill_result k (guest_base d + o) pages r k') →
  fill d false po co cl op k = (rc, off, len, k') →
  (rc = None ∨ rc = Some EEXIST ∨ rc = Some EAGAIN) ∧ keeps_pages k k' ∧ is_Some (k_page k' (guest_base d + co)) ∧
  (is_Some (k_page k' (guest_base d + po)) ∨ rc = Some EAGAIN) ∧
  (is_Some (k_page k (guest_base d + co)) → is_Some (k_page k' (guest_base d + po))).
Proof.
  intros Hcom Hpom Hclm Hcl Hcp Hpe Hop Hf. unfold fill in Hf. assert (0 < PAGE_SIZE) by done.
  assert (∀ k o n k', (o = co ∧ n = cl) ∨ (o = po ∧ n = PAGE_SIZE) → op k o n = (None, k') →
    ∀ x, o ≤ x < o + n → x mod PAGE_SIZE = 0 → is_Some (k_page k' (guest_base d + x))) as Hall.
  { intros k0 o n k1 Hon Hk x Hx Hxm. destruct (Hop _ _ _ _ _ Hon Hk) as (_ & pages & Hlen & m & (_ & _ & Hset & _) & Hm & _).
    specialize (Hm eq_refl). assert (o mod PAGE_SIZE = 0 ∧ n mod PAGE_SIZE = 0) by (destruct Hon as [[-> ->]|[-> ->]]; done).
    replace (guest_base d + x) with (guest_base d + o + Z.of_nat (Z.to_nat ((x - o) / PAGE_SIZE)) * PAGE_SIZE)
      by (unfold PAGE_SIZE in *; zlia).
    rewrite Hset by (unfold PAGE_SIZE in *; zlia). apply lookup_lt_is_Some_2. unfold PAGE_SIZE in *. zlia. }
  destruct (op k co cl) as [r1 k1] eqn:E1. destruct (Hop _ _ _ _ _ (or_introl (conj eq_refl eq_refl)) E1) as (Hcalm & pages & _ & Hfr).
  pose proof (fill_result_keeps _ _ _ _ _ Hfr) as Hkeep1. destruct Hfr as (m & _ & _ & _ & Hex).
  destruct r1 as [e|].
  - destruct (Hcalm e eq_refl) as [->|(-> & Hno & Hyes)].
    + specialize (Hex eq_refl). rewrite bool_decide_eq_true_2 in Hf by done. simpl in Hf.
      destruct (PAGE_SIZE <? cl) eqn:Ec; bool_to_prop.
      * destruct (op k1 po PAGE_SIZE) as [r2 k2] eqn:E2. injection Hf as <- <- <- <-.
        destruct (Hop _ _ _ _ _ (or_intror (conj eq_refl eq_refl)) E2) as (Hcalm2 & pages2 & _ & Hfr2).
        pose proof (fill_result_keeps _ _ _ _ _ Hfr2) as Hkeep2. destruct Hfr2 as (m2 & _ & _ & _ & Hex2).
        assert (is_Some (k_page k2 (guest_base d + po))) as Hpo.
        { destruct r2 as [e|]; [|by eapply (Hall _ _ _ _ (or_intror (conj eq_refl eq_refl)) E2); unfold PAGE_SIZE in *; lia].
          destruct (Hcalm2 e eq_refl) as [->|(_ & _ & ?)]; auto. }
        split_and!; [|intros b Hb; auto|by apply Hkeep2, Hkeep1|by left|done].
        destruct r2 as [e|]; [|by left]. destruct (Hcalm2 e eq_refl) as [->|(-> & _)]; auto.
      * injection Hf as <- <- <- <-. assert (po = co) as -> by (unfold PAGE_SIZE in *; zlia).
        split_and!; auto.
    + rewrite bool_decide_eq_false_2 in Hf by done. simpl in Hf. injection Hf as <- <- <- <-.
      split_and!; auto. rewrite Hno. by intros [? [=]].
  - rewrite bool_decide_eq_false_2 in Hf by done. simpl in Hf. injection Hf as <- <- <- <-.
    assert (∀ x, co ≤ x < co + cl → x mod PAGE_SIZE = 0 → is_Some (k_page k1 (guest_base d + x))) as H1
      by (by apply (Hall _ _ _ _ (or_introl (conj eq_refl eq_refl)) E1)).
    split_and!; auto; [apply H1; [lia|done]|left; apply H1|intros _; apply H1]; done || lia.
Qed.

Lemma length_without_discarded d co cl bs :
  Z.of_nat (length bs) mod PAGE_SIZE = 0 → length (without_discarded d co cl bs) = length bs.
Proof.
  intros Hm. unfold without_discarded. destruct (any_discarded _ _ _); [|done].
  assert (Z.of_nat (length bs) = Z.of_nat (length bs) / PAGE_SIZE * PAGE_SIZE) as Hl by (unfold PAGE_SIZE in *; zlia).
  rewrite (length_concat_const (Z.to_nat PAGE_SIZE)).
  - rewrite length_zero_discarded. pose proof (length_pieces PAGE_SIZE bs _ eq_refl Hl). unfold PAGE_SIZE in *. zlia.
  - intros y. apply zero_discarded_length. intros z Hz. by apply (pieces_length PAGE_SIZE bs _ z ltac:(done) Hl).
Qed.

(** An intact file passes its checks. *)
Lemma verified_intact d q co cl :
  well_formed d → genuine d snap → in_guest d q → copy_range d (q * PAGE_SIZE) = (co, cl) →
  verified d snap co cl = Some (slice (Z.to_nat co) (Z.to_nat cl) snap) ∧ ∃ b, ∀ sup, zero_chunk d sup co cl = Some (sup && b).
Proof.
  intros Hwf Hgen Hq Hcr. destruct (copy_range_ok d q co cl Hwf Hq Hcr) as (_ & _ & _ & ? & _ & Hi).
  unfold verified, zero_chunk. destruct (source_integrity (source d)) as [i|] eqn:Ei; [|split; [done|exists false; by intros []]].
  destruct (Hi i eq_refl) as (Hc & Hcl & Hlt). destruct (chunk_pages d i Hwf Ei) as (? & _).
  destruct (lookup_lt_is_Some_2 _ _ Hlt) as [h Hh]. rewrite Hh. split.
  - unfold chunk_sha256_matches. rewrite (gen_hash d snap Hgen i _ h Ei Hh).
    rewrite (chunk_at_range d snap Hgen i co cl) by (lia || done). by rewrite bool_decide_eq_true_2.
  - exists ((cl =? chunk_size i) && recorded_zero (zero_chunk_hash (source d)) h).
    intros []; [|done]. simpl. by destruct (cl =? chunk_size i).
Qed.

Lemma serve_attempt base len (s : Lazy K) q a :
  kept snap base len s → discarded_poisoned (lz_discard s) = false → in_guest (lz_discard s) q →
  host_addr (lz_discard s) q ≤ a < host_addr (lz_discard s) q + PAGE_SIZE →
  ∃ s1 co, co = (copy_range (lz_discard s) (q * PAGE_SIZE)).1 ∧
    serve snap a false s = Goes s1 ∧ same_hook (lz_discard s) (lz_discard s1) ∧
    is_Some (k_page (lz_kernel s1) (base + co)) ∧
    (populated s1 q ∨ pending_faults (lz_handler s1) = pending_faults (lz_handler s) ++ [a]) ∧
    (is_Some (k_page (lz_kernel s) (base + co)) → populated s1 q).
Proof.
  intros (Hwf & Hgen & <- & <-) Hpois Hq Ha. set (d := lz_discard s) in *. assert (0 < PAGE_SIZE) by done.
  destruct (copy_range d (q * PAGE_SIZE)) as [co cl] eqn:Hcr.
  destruct (copy_range_ok d q co cl Hwf Hq Hcr) as (Hcom & Hclm & Hcl & Hco & Hend & _).
  destruct (verified_intact d q co cl Hwf Hgen Hq Hcr) as (Hver & z & Hz).
  destruct (wf_base d Hwf) as [Hb _]. destruct (wf_len d Hwf) as [Hl Hlm]. pose proof (wf_end d Hwf) as He.
  assert (q * PAGE_SIZE mod PAGE_SIZE = 0) as Hpm by (by apply Z.mod_mul).
  unfold host_addr, in_guest in *.
  unfold serve. fold d. rewrite (proj2 (u64_checked_add_Some (guest_base d) (guest_len d) _) (conj eq_refl He)).
  rewrite (proj2 (Z.ltb_ge a (guest_base d))), (proj2 (Z.leb_gt (guest_base d + guest_len d) a)) by (unfold PAGE_SIZE in *; zlia). simpl orb.
  rewrite align_page. replace ((a - guest_base d) / PAGE_SIZE) with q by (unfold PAGE_SIZE in *; zlia). rewrite Hcr.
  assert (co + cl ≤ U64_MAX ∧ guest_base d + co ≤ U64_MAX) as [Hu1 Hu2] by lia.
  rewrite (proj2 (u64_checked_add_Some co cl _) (conj eq_refl Hu1)).
  rewrite (proj2 (u64_checked_add_Some (guest_base d) co _) (conj eq_refl Hu2)).
  rewrite (proj2 (Z.ltb_ge (guest_len d) (co + cl))), Hpois by lia. unfold is_multiple_of. rewrite (proj2 (Z.eqb_eq _ _) Hclm). simpl orb.
  rewrite Hz.
  assert (∀ k rc off n, (rc = None ∨ rc = Some EEXIST ∨ rc = Some EAGAIN) →
    is_Some (k_page k (guest_base d + co)) →
    (is_Some (k_page k (guest_base d + q * PAGE_SIZE)) ∨ rc = Some EAGAIN) →
    (is_Some (k_page (lz_kernel s) (guest_base d + co)) → is_Some (k_page k (guest_base d + q * PAGE_SIZE))) →
    ∃ s1 co0, co0 = (co, cl).1 ∧ settle a false cl rc off n (on_kernel k s) = Goes s1 ∧
      same_hook d (lz_discard s1) ∧ is_Some (k_page (lz_kernel s1) (guest_base d + co0)) ∧
      (populated s1 q ∨ pending_faults (lz_handler s1) = pending_faults (lz_handler s) ++ [a]) ∧
      (is_Some (k_page (lz_kernel s) (guest_base d + co0)) → populated s1 q)) as Hsettle.
  { intros k rc off n Hrc Hc1 Hp Hp'. destruct Hrc as [->|[->| ->]].
    - unfold settle. simpl. fold d. destruct Hp as [Hp|[=]]. unfold populated, host_addr.
      destruct (source_integrity (source d)); [destruct (n =? cl)|]; eexists _, co; split_and!; try done; by left.
    - destruct Hp as [Hp|[=]]. eexists _, co. split_and!; try done. by left.
    - eexists _, co. split_and!; try done. by right. }
  destruct (zeropage_supported (lz_handler s) && z); [|cbn [andb]; rewrite Hver].
  - destruct (fill d false (q * PAGE_SIZE) co cl _ _) as [[[rc off] n] k] eqn:Hf.
    edestruct (fill_attempt d (q * PAGE_SIZE) co cl) with (8 := Hf) as (Hrc & _ & ? & ? & ?); try done || lia.
    { intros k0 o n0 r k' Hon Hop. split; [by eapply calm_zeropage|]. eexists. split; [|by eapply k_zeropage_fills].
      rewrite length_replicate, Z2Nat.id; [done|]. destruct Hon as [[-> ->]|[-> ->]]; [apply Z.div_pos; lia|done]. }
    rewrite bool_decide_eq_false_2 by (destruct Hrc as [->|[->| ->]]; intros [[=]|[[=]|[=]]]). by apply Hsettle.
  - destruct (fill d false (q * PAGE_SIZE) co cl _ _) as [[[rc off] n] k] eqn:Hf.
    edestruct (fill_attempt d (q * PAGE_SIZE) co cl) with (8 := Hf) as (Hrc & _ & ? & ? & ?); try done || lia; [|by apply Hsettle].
    intros k0 o n0 r k' Hon Hop. split; [by eapply calm_copy|]. eexists. split; [|by eapply k_copy_fills].
    assert (Z.of_nat (length (slice (Z.to_nat co) (Z.to_nat cl) snap)) = cl) as Hbs
      by (rewrite length_slice; [lia|pose proof (gen_length d snap Hgen); lia]).
    rewrite (length_pieces _ _ (n0 / PAGE_SIZE)); [done|done|]. rewrite length_slice.
    + destruct Hon as [[-> ->]|[-> ->]]; unfold PAGE_SIZE in *; zlia.
    + rewrite length_without_discarded by (by rewrite Hbs). destruct Hon as [[-> ->]|[-> ->]]; lia.
Qed.

End resolving.

(** C13: Every fault is resolved. With an intact snapshot and a kernel that
    has no trouble of its own, serving a fault at [a] ends well, and
    populates its page or puts the fault back at the end of the queue; it is
    put back at most once: when it is served again, and until then no page
    was removed, the page is populated, however many others of its chunk were
    there before. *)
Theorem fault_resolved {K : Type} `{!UffdKernel K} `{!UffdLaws K} `{!CalmKernel K} `{!Sha256}
    snap base len (s : Lazy K) q a :
  kept snap base len s → discarded_poisoned (lz_discard s) = false → in_guest (lz_discard s) q →
  host_addr (lz_discard s) q ≤ a < host_addr (lz_discard s) q + PAGE_SIZE →
  ∃ s1, serve snap a false s = Goes s1 ∧
    (populated s1 q ∨
     pending_faults (lz_handler s1) = pending_faults (lz_handler s) ++ [a] ∧
     ∀ s2 : Lazy K, kept snap base len s2 → discarded_poisoned (lz_discard s2) = false →
       source (lz_discard s2) = source (lz_discard s) → keeps_pages (lz_kernel s1) (lz_kernel s2) →
       ∃ s3, serve snap a false s2 = Goes s3 ∧ populated s3 q).
Proof.
  intros Hk Hp Hq Ha. destruct (serve_attempt snap base len s q a Hk Hp Hq Ha) as (s1 & co & Hco & Hs1 & _ & Hfirst & Hres & _).
  exists s1. split; [done|]. destruct Hres as [|Hpend]; [by left|right]. split; [done|].
  intros s2 Hk2 Hp2 Hsrc Hkeep. destruct Hk as (_ & _ & Hb & Hl). pose proof Hk2 as (_ & _ & Hb2 & Hl2).
  destruct (serve_attempt snap base len s2 q a) as (s3 & co' & Hco' & Hs3 & _ & _ & _ & Hdone); [done..| | |].
  - unfold in_guest in *. by rewrite Hl2, <- Hl.
  - unfold host_addr in *. by rewrite Hb2, <- Hb.
  - exists s3. split; [done|]. apply Hdone, Hkeep. rewrite Hco'. unfold copy_range in *. rewrite Hsrc, Hl2, <- Hl, <- Hco. done.
Qed.

(** ** Reading what was not touched *)
Section untouched.
Context `{!Sha256}.
Context (d : LazyPageDiscard) (snap : list Z) (pread : Z → Z → option (list Z)).
Hypothesis (Hwf : well_formed d) (Hgen : genuine d snap).
(** Without a manifest the file is trusted. *)
Hypothesis (Hread : ∀ o n bs, source_integrity (source d) = None → 0 ≤ o → 0 ≤ n → o + n ≤ guest_len d →
  pread (source_offset (source d) + o) n = Some bs → bs = slice (Z.to_nat o) (Z.to_nat n) snap).

Lemma read_chunk_genuine i at_ n bytes :
  source_integrity (source d) = Some i → 0 ≤ at_ → at_ = at_ / chunk_size i * chunk_size i →
  n = Z.min (chunk_size i) (guest_len d - at_) → 0 ≤ n →
  read_chunk pread d i at_ n = Ok bytes → bytes = slice (Z.to_nat at_) (Z.to_nat n) snap.
Proof.
  intros Hi Hat Hc Hn Hn0 Hr. destruct (chunk_pages d i Hwf Hi) as (Hpos & _). unfold read_chunk in Hr.
  rewrite <- (chunk_at_range d snap Hgen i at_ n) by done.
  destruct (chunk_hashes i !! Z.to_nat (at_ / chunk_size i)) as [h|] eqn:Hh; [|done].
  destruct ((n =? chunk_size i) && recorded_zero _ h) eqn:Ez; bool_to_prop.
  - injection Hr as <-. apply (gen_collision d snap Hgen i _ h _ Hi Hh).
    destruct (wf_integrity d Hwf i Hi) as (_ & _ & Hz). unfold recorded_zero in *. rewrite Hz in *.
    match goal with H : bool_decide _ = true |- _ => apply bool_decide_eq_true in H; injection H as <- end. do 2 f_equal. lia.
  - destruct (pread _ n); [|done]. destruct (chunk_sha256_matches _ h) eqn:Em; [|done]. injection Hr as <-.
    unfold chunk_sha256_matches in Em. apply bool_decide_eq_true in Em. by apply (gen_collision d snap Hgen i _ h _ Hi Hh).
Qed.

Lemma step_by_cons o e c : 0 < c → o < e → step_by o e c = o :: step_by (o + c) e c.
Proof.
  intros. unfold step_by, div_ceil. rewrite seqZ_cons.
  - cbn [fmap list_fmap]. f_equal; [lia|]. change (Z.succ 0) with (1 + 0). rewrite <- fmap_add_seqZ, <- list_fmap_compose.
    replace (e - o + c - 1) with (e - (o + c) + c - 1 + 1 * c) by lia. rewrite Z.div_add by lia.
    replace (Z.pred _) with ((e - (o + c) + c - 1) / c) by lia. apply list_fmap_ext. intros _ x _. simpl. lia.
  - apply Z.div_str_pos. lia.
Qed.

Lemma step_by_nil o e c : 0 < c → e ≤ o → step_by o e c = [].
Proof.
  intros. unfold step_by. rewrite seqZ_nil; [done|]. unfold div_ceil.
  assert ((e - o + c - 1) / c < 1); [|lia]. apply Z.div_lt_upper_bound; lia.
Qed.

Lemma slice_cut (a n m : nat) (l : list Z) : slice a n l ++ slice (a + n) m l = slice a (n + m) l.
Proof. unfold slice. rewrite <- drop_drop. apply take_take_drop. Qed.

Lemma read_chunks_genuine i e (m : nat) : ∀ o out,
  source_integrity (source d) = Some i → 0 ≤ o → o = o / chunk_size i * chunk_size i → o ≤ e ≤ guest_len d →
  (e = guest_len d ∨ (e - o) mod chunk_size i = 0) → e - o ≤ Z.of_nat m →
  read_chunks pread d i e (step_by o e (chunk_size i)) = Ok out → out = slice (Z.to_nat o) (Z.to_nat (e - o)) snap.
Proof.
  induction m as [|m IH]; intros o out Hi Ho Hc He Hend Hm Hr; destruct (chunk_pages d i Hwf Hi) as (Hpos & _);
    (destruct (decide (o = e)) as [->|Hne];
      [rewrite step_by_nil in Hr by lia; injection Hr as <-; by rewrite Z.sub_diag|]); [lia|].
  rewrite step_by_cons in Hr by lia. cbn [read_chunks] in Hr.
  assert (Z.min (chunk_size i) (e - o) = Z.min (chunk_size i) (guest_len d - o)) as Hmin.
  { destruct Hend as [->|Hmod]; [done|]. apply Z.mod_divide in Hmod as [t Ht]; [|lia]. assert (0 < t) by nia. nia. }
  destruct (read_chunk pread d i o _) as [bs|] eqn:Hb; [|done]. cbn [result_bind] in Hr.
  destruct (read_chunks pread d i e _) as [rest|] eqn:Hrest; [|done]. injection Hr as <-.
  apply read_chunk_genuine in Hb as ->; [|done|done|done|done|lia].
  destruct (Z.le_gt_cases e (o + chunk_size i)).
  - rewrite step_by_nil in Hrest by lia. injection Hrest as <-. rewrite app_nil_r. f_equal. f_equal. lia.
  - apply IH in Hrest as ->; [|done|lia| |lia| |lia].
    + rewrite Z.min_l by lia. replace (Z.to_nat (o + chunk_size i)) with (Z.to_nat o + Z.to_nat (chunk_size i))%nat by lia.
      rewrite slice_cut. f_equal. lia.
    + rewrite Hc at 1. replace (o + chunk_size i) with (o + 1 * chunk_size i) by lia. rewrite Z.div_add by lia. lia.
    + destruct Hend as [->|Hmod]; [by left|right].
      replace (e - (o + chunk_size i)) with (e - o + (-1) * chunk_size i) by lia. by rewrite Z.mod_add by lia.
Qed.

Lemma untouched_chunk_pages : 0 < untouched_chunk d ∧ untouched_chunk d mod PAGE_SIZE = 0.
Proof using Hwf.
  clear Hread. unfold untouched_chunk. destruct (source_integrity (source d)) as [i|] eqn:Hi; [|done].
  destruct (chunk_pages d i Hwf Hi) as (? & ? & _). done.
Qed.

(** A range that the readers accept is whole pages. *)
Lemma whole_chunks c offset len e :
  0 < c → c mod PAGE_SIZE = 0 → range_end d offset len = Some e → 0 ≤ len →
  negb (is_multiple_of offset c) || (negb (is_multiple_of len c) && negb (e =? guest_len d)) = false →
  e = offset + len ∧ e ≤ guest_len d ∧ offset mod c = 0 ∧ offset mod PAGE_SIZE = 0 ∧ len mod PAGE_SIZE = 0 ∧
  (e = guest_len d ∨ (e - offset) mod c = 0).
Proof.
  intros Hc Hcm Hr Hl Hg. unfold range_end in Hr. destruct (u64_checked_add offset len) as [e'|] eqn:Ee; [|done].
  apply u64_checked_add_Some in Ee as [-> _]. destruct (_ <=? _) eqn:El; [|done]. injection Hr as <-.
  unfold is_multiple_of in Hg. bool_to_prop. destruct (wf_len d Hwf) as [_ Hlm].
  assert (∀ x, x mod c = 0 → x mod PAGE_SIZE = 0) as Hmod.
  { assert (PAGE_SIZE ≠ 0) by done. intros x Hx. apply Z.mod_divide; [done|].
    apply (Z.divide_trans _ c); apply Z.mod_divide; done || lia. }
  assert (offset + len = guest_len d ∨ len mod c = 0) as Hend.
  { destruct (len mod c =? 0) eqn:E; bool_to_prop; [by right|]. destruct (_ =? guest_len d) eqn:E'; bool_to_prop; [by left|done]. }
  split_and!; auto.
  - assert (offset mod PAGE_SIZE = 0) by auto. destruct Hend as [He|]; [|auto]. unfold PAGE_SIZE in *. zlia.
  - destruct Hend as [|]; [by left|right]. by replace (offset + len - offset) with len by lia.
Qed.

Lemma read_untouched_fresh offset len out :
  0 ≤ offset → 0 ≤ len → read_untouched pread d offset len = Ok out →
  Z.of_nat (length out) = len ∧ len mod PAGE_SIZE = 0 ∧ offset mod PAGE_SIZE = 0 ∧ offset + len ≤ guest_len d ∧
  ∀ j : nat, Z.of_nat j < len / PAGE_SIZE → slice (j * page_n) page_n out = fresh d snap (offset / PAGE_SIZE + Z.of_nat j).
Proof.
  intros Ho Hl. destruct untouched_chunk_pages as [Hc Hcm]. unfold read_untouched.
  destruct (range_end d offset len) as [e|] eqn:He; [|done]. destruct (_ || _) eqn:Hg; [done|].
  destruct (whole_chunks _ _ _ _ Hc Hcm He Hl Hg) as (-> & Hle & Hoc & Hom & Hlm & Hend).
  assert (∀ bs, match source_integrity (source d) with
    | Some i => read_chunks pread d i (offset + len) (step_by offset (offset + len) (untouched_chunk d))
    | None => ok_or (pread (source_offset (source d) + offset) len) RestoreIo end = Ok bs →
    bs = slice (Z.to_nat offset) (Z.to_nat len) snap) as Hbs.
  { intros bs. unfold untouched_chunk in *. destruct (source_integrity (source d)) as [i|] eqn:Hi.
    - intros Hr. replace len with (offset + len - offset) by lia.
      apply (read_chunks_genuine i _ (Z.to_nat len) offset bs); try done; try lia.
      rewrite Z.mul_comm. apply Z_div_exact_full_2; [lia|done].
    - destruct (pread _ len) as [bs'|] eqn:Hp; [|done]. intros [= <-]. by apply Hread; try lia. }
  destruct (match source_integrity (source d) with Some _ => _ | None => _ end) as [bs|]; [|done].
  rewrite (Hbs bs eq_refl). clear Hbs bs. cbn [result_bind]. destruct (discarded_poisoned d); [done|]. intros [= <-].
  assert (Z.of_nat (length (slice (Z.to_nat offset) (Z.to_nat len) snap)) = len) as Hlen
    by (rewrite length_slice; [lia|pose proof (gen_length d snap Hgen); lia]).
  assert (Z.of_nat (length (slice (Z.to_nat offset) (Z.to_nat len) snap)) = len / PAGE_SIZE * PAGE_SIZE) as Hlen'
    by (rewrite Hlen; unfold PAGE_SIZE in *; zlia).
  split_and!; try done.
  - rewrite (length_concat_const (Z.to_nat PAGE_SIZE)).
    + rewrite length_zero_discarded. pose proof (length_pieces PAGE_SIZE _ _ eq_refl Hlen'). unfold PAGE_SIZE in *. zlia.
    + intros y. apply zero_discarded_length. intros z. by apply (pieces_length PAGE_SIZE _ _ z ltac:(done) Hlen').
  - intros j Hj. unfold page_n at 1 2. rewrite (zero_discarded_page _ _ _ _ _ Hlen') by done. unfold fresh, snap_page.
    destruct (is_discarded _ _); [done|]. rewrite slice_slice.
    + fold page_n. rewrite (page_multiple offset), Z2Nat.inj_add, Nat2Z.id by (done || lia || by apply Z.div_pos). f_equal. lia.
    + fold page_n. rewrite (page_multiple len) by done. assert (S j ≤ Z.to_nat (len / PAGE_SIZE))%nat by lia. nia.
Qed.

(** ** Sharing blocks of the snapshot file *)

(** The system call copies blocks of a snapshot file that does not change. *)
Context (ficlonerange : list Z → Z → Z → Z → option (list Z)).
Hypothesis (Hclone : ∀ dest a n at_ dest', 0 ≤ a → 0 ≤ n → a + n ≤ guest_len d → 0 ≤ at_ →
  ficlonerange dest (source_offset (source d) + a) n at_ = Some dest' →
  length dest' = length dest ∧
  ∀ x : Z, 0 ≤ x < Z.of_nat (length dest) →
    dest' !! Z.to_nat x = if decide (at_ ≤ x < at_ + n) then snap !! Z.to_nat (a + (x - at_)) else dest !! Z.to_nat x).

Definition in_runs (runs : list (Z * Z)) (x : Z) : Prop := ∃ r, r ∈ runs ∧ r.1 ≤ x < r.2.

Definition good_run (lo hi : Z) (r : Z * Z) : Prop := lo ≤ r.1 ∧ r.1 ≤ r.2 ∧ r.2 ≤ hi ∧ r.1 mod PAGE_SIZE = 0 ∧ r.2 mod PAGE_SIZE = 0.

Lemma in_runs_app l1 l2 x : in_runs (l1 ++ l2) x ↔ in_runs l1 x ∨ in_runs l2 x.
Proof. unfold in_runs. setoid_rewrite elem_of_app. naive_solver. Qed.

Lemma in_runs_one r x : in_runs [r] x ↔ r.1 ≤ x < r.2.
Proof. unfold in_runs. setoid_rewrite list_elem_of_singleton. naive_solver. Qed.

Lemma push_run_ok runs at_ n lo hi :
  Forall (good_run lo hi) runs → lo ≤ at_ → 0 ≤ n → at_ + n ≤ hi → at_ mod PAGE_SIZE = 0 → n mod PAGE_SIZE = 0 →
  Forall (good_run lo hi) (push_run runs at_ n) ∧
  ∀ x, in_runs (push_run runs at_ n) x ↔ in_runs runs x ∨ at_ ≤ x < at_ + n.
Proof.
  intros Hg Hlo Hn Hhi Ham Hnm. assert (good_run lo hi (at_, at_ + n)) as Hnew.
  { unfold good_run, PAGE_SIZE in *. simpl. zlia. }
  assert (Forall (good_run lo hi) (runs ++ [(at_, at_ + n)]) ∧
    ∀ x, in_runs (runs ++ [(at_, at_ + n)]) x ↔ in_runs runs x ∨ at_ ≤ x < at_ + n) as Happ.
  { split; [apply Forall_app; split; [done|by constructor]|]. intros x. by rewrite in_runs_app, in_runs_one. }
  unfold push_run. destruct (last runs) as [[st en]|] eqn:El; [|done]. destruct (en =? at_) eqn:Ee; [|done]. bool_to_prop. subst en.
  apply last_Some in El as [l ->]. rewrite length_app, Nat.add_sub, take_app_length.
  apply Forall_app in Hg as [Hl Hr]. apply Forall_cons in Hr as [Hr _]. unfold good_run in Hr. destruct Hr as (? & ? & ? & ? & ?).
  unfold good_run in Hnew. destruct Hnew as (? & ? & ? & ? & ?). cbn [fst snd] in *. split.
  - apply Forall_app. split; [done|]. apply Forall_singleton. unfold good_run. cbn [fst snd]. split_and!; done || lia.
  - intros x. rewrite !in_runs_app, !in_runs_one. cbn [fst snd]. destruct (Z.lt_ge_cases x at_); intuition lia.
Qed.

(** What the runs leave out is recorded as zeros. *)
Lemma verified_runs_ok i e lo (m : nat) : ∀ o runs runs',
  source_integrity (source d) = Some i → 0 ≤ lo ≤ o → o = o / chunk_size i * chunk_size i → o ≤ e ≤ guest_len d →
  e mod PAGE_SIZE = 0 → (e = guest_len d ∨ (e - o) mod chunk_size i = 0) → e - o ≤ Z.of_nat m →
  Forall (good_run lo e) runs →
  verified_runs pread d i e (step_by o e (chunk_size i)) runs = Ok runs' →
  Forall (good_run lo e) runs' ∧ (∀ x, in_runs runs x → in_runs runs' x) ∧
  (∀ x, o ≤ x < e → in_runs runs' x ∨ snap !! Z.to_nat x = Some 0) ∧ (∀ x, in_runs runs' x → in_runs runs x ∨ o ≤ x < e).
Proof.
  induction m as [|m IH]; intros o runs runs' Hi Ho Hc He Hem Hend Hm Hg Hr; destruct (chunk_pages d i Hwf Hi) as (Hpos & Hcm & _);
    (destruct (decide (o = e)) as [->|Hne];
      [rewrite step_by_nil in Hr by lia; injection Hr as <-; split_and!; try done; [intros; lia|auto]|]); [lia|].
  rewrite step_by_cons in Hr by lia. cbn [verified_runs] in Hr.
  assert (Z.min (chunk_size i) (e - o) = Z.min (chunk_size i) (guest_len d - o)) as Hmin.
  { destruct Hend as [->|Hmod]; [done|]. apply Z.mod_divide in Hmod as [t Ht]; [|lia]. assert (0 < t) by nia. nia. }
  set (n := Z.min (chunk_size i) (e - o)) in *.
  destruct (chunk_hashes i !! Z.to_nat (o / chunk_size i)) as [h|] eqn:Hh; [|done].
  assert (o mod PAGE_SIZE = 0) as Hom.
  { rewrite Hc. apply Z.mod_divide; [done|]. apply Z.divide_mul_r, Z.mod_divide; done. }
  assert (n mod PAGE_SIZE = 0) as Hnm.
  { unfold n. destruct (Z.min_spec (chunk_size i) (e - o)) as [[_ ->]|[_ ->]]; [done|]. unfold PAGE_SIZE in *. zlia. }
  assert (∀ runs1, Forall (good_run lo e) runs1 → verified_runs pread d i e (step_by (o + chunk_size i) e (chunk_size i)) runs1 = Ok runs' →
    Forall (good_run lo e) runs' ∧ (∀ x, in_runs runs1 x → in_runs runs' x) ∧
    (∀ x, o + n ≤ x < e → in_runs runs' x ∨ snap !! Z.to_nat x = Some 0) ∧ (∀ x, in_runs runs' x → in_runs runs1 x ∨ o + n ≤ x < e)) as Hrest.
  { intros runs1 Hg1 Hr1. destruct (Z.le_gt_cases e (o + chunk_size i)).
    - rewrite step_by_nil in Hr1 by lia. injection Hr1 as <-. split_and!; try done; [intros; lia|auto].
    - replace (o + n) with (o + chunk_size i) by lia. apply (IH (o + chunk_size i) runs1); try done; try lia.
      + rewrite Hc at 1. replace (o + chunk_size i) with (o + 1 * chunk_size i) by lia. rewrite Z.div_add by lia. lia.
      + destruct Hend as [->|Hmod]; [by left|right].
        replace (e - (o + chunk_size i)) with (e - o + (-1) * chunk_size i) by lia. by rewrite Z.mod_add by lia. }
  destruct ((n =? chunk_size i) && recorded_zero _ h) eqn:Ez; bool_to_prop.
  - destruct (Hrest _ Hg Hr) as (? & ? & Hcov & Hin). split_and!; try done.
    + intros x Hx. destruct (Z.lt_ge_cases x (o + n)); [right|apply Hcov; lia].
      assert (read_chunk pread d i o n = Ok (replicate (Z.to_nat n) 0)) as Hz.
      { unfold read_chunk. rewrite Hh, (proj2 (Z.eqb_eq _ _)) by done. simpl.
        match goal with H : recorded_zero _ h = true |- _ => by rewrite H end. }
      apply read_chunk_genuine in Hz; [|done|lia|done|done|lia].
      assert (replicate (Z.to_nat n) 0 !! Z.to_nat (x - o) = Some 0) as Hlk by (apply lookup_replicate; split; [done|lia]).
      rewrite Hz, lookup_slice, decide_True in Hlk by lia. rewrite <- Hlk. f_equal. lia.
    + intros x Hx. destruct (Hin x Hx); [by left|right; lia].
  - destruct (pread _ n) as [bytes|]; [|done]. destruct (chunk_sha256_matches bytes h); [|done].
    destruct (push_run_ok runs o n lo e Hg) as [Hg1 Hpush]; try done; try lia.
    destruct (Hrest _ Hg1 Hr) as (? & Hmono & Hcov & Hin). split_and!; try done.
    + intros x Hx. apply Hmono, Hpush. by left.
    + intros x Hx. destruct (Z.lt_ge_cases x (o + n)); [|apply Hcov; lia]. left. apply Hmono, Hpush. right. lia.
    + intros x Hx. destruct (Hin x Hx) as [Hp|]; [|right; lia]. apply Hpush in Hp as [|]; [by left|right; lia].
Qed.

Lemma clone_runs_ok offset e at_ : ∀ runs dest dest',
  Forall (good_run offset e) runs → 0 ≤ offset → e ≤ guest_len d → 0 ≤ at_ →
  clone_runs ficlonerange d offset at_ runs dest = (Cloned, dest') →
  length dest' = length dest ∧
  ∀ x : Z, 0 ≤ x < Z.of_nat (length dest) →
    (in_runs runs (offset + (x - at_)) ∧ dest' !! Z.to_nat x = snap !! Z.to_nat (offset + (x - at_))) ∨
    (¬ in_runs runs (offset + (x - at_)) ∧ dest' !! Z.to_nat x = dest !! Z.to_nat x).
Proof.
  induction runs as [|[st en] runs IH]; intros dest dest' Hg Ho He Hat Hr; cbn [clone_runs] in Hr.
  { injection Hr as <-. split; [done|]. intros x _. right. split; [|done]. intros (r & []%not_elem_of_nil & _). }
  apply Forall_cons in Hg as [(H1 & H2 & H3 & H4 & H5) Hg]. cbn [fst snd] in *.
  assert (next_multiple_of (en - st) 4096 = en - st) as Hn.
  { unfold next_multiple_of, div_ceil, PAGE_SIZE in *. zlia. }
  rewrite Hn in Hr. destruct (ficlonerange _ _ _ _) as [dest1|] eqn:Hf; [|done].
  apply Hclone in Hf as [Hl1 Hf]; [|lia..]. destruct (IH dest1 dest' Hg Ho He Hat Hr) as [Hl2 Hrest].
  split; [lia|]. intros x Hx. specialize (Hrest x ltac:(lia)). specialize (Hf x Hx).
  assert (∀ y, in_runs ((st, en) :: runs) y ↔ st ≤ y < en ∨ in_runs runs y) as Hcons.
  { intros y. rewrite <- (in_runs_one (st, en) y). apply (in_runs_app [(st, en)]). }
  rewrite Hcons. destruct Hrest as [[Hin ->]|[Hin ->]]; [by left; auto|]. rewrite Hf.
  case_decide; [left|right].
  - split; [left; lia|]. f_equal. lia.
  - split; [|done]. intros [|]; [lia|done].
Qed.

(** A clone into a hole of the destination leaves there what a fault would
    install, and nothing elsewhere. *)
Lemma clone_untouched_fresh offset len dest at_ dest' :
  0 ≤ offset → 0 ≤ len → 0 ≤ at_ → at_ + len ≤ Z.of_nat (length dest) → offset mod PAGE_SIZE = 0 →
  (∀ x : Z, at_ ≤ x < at_ + len → dest !! Z.to_nat x = Some 0) →
  clone_untouched pread ficlonerange d offset len dest at_ = (Ok Cloned, dest') →
  length dest' = length dest ∧ offset + len ≤ guest_len d ∧
  (∀ x : Z, 0 ≤ x < Z.of_nat (length dest) →
    dest' !! Z.to_nat x = if decide (at_ ≤ x < at_ + len) then snap !! Z.to_nat (offset + (x - at_)) else dest !! Z.to_nat x) ∧
  ∀ q, offset / PAGE_SIZE ≤ q < (offset + len) / PAGE_SIZE → is_discarded (discarded_pages d) q = false.
Proof.
  intros Ho Hl Hat Hin Hom Hhole. unfold clone_untouched. destruct (range_end d offset len) as [e|] eqn:He; [|done].
  assert (e = offset + len ∧ e ≤ guest_len d) as [-> Hle].
  { unfold range_end in He. destruct (u64_checked_add offset len) as [e'|] eqn:Ee; [|done].
    apply u64_checked_add_Some in Ee as [-> _]. destruct (_ <=? _) eqn:El; [|done]. injection He as <-. by bool_to_prop. }
  destruct (_ || negb (is_multiple_of len 4096)) eqn:Hal; [done|]. destruct (discarded_poisoned d); [done|].
  destruct (any_discarded _ _ _) eqn:Had; [done|].
  assert (len mod PAGE_SIZE = 0) as Hlm by (unfold is_multiple_of in Hal; bool_to_prop; unfold PAGE_SIZE; lia).
  intros Hr. assert (∃ runs, Forall (good_run offset (offset + len)) runs ∧
    (∀ x, offset ≤ x < offset + len → in_runs runs x ∨ snap !! Z.to_nat x = Some 0) ∧
    clone_runs ficlonerange d offset at_ runs dest = (Cloned, dest')) as (runs & Hg & Hcov & Hcl).
  { destruct (source_integrity (source d)) as [i|] eqn:Hi.
    - destruct (chunk_pages d i Hwf Hi) as (Hpos & Hcm & _).
      destruct (_ || _) eqn:Hw in Hr; [done|]. destruct (whole_chunks _ _ _ _ Hpos Hcm He Hl Hw) as (_ & _ & Hoc & _ & _ & Hend).
      destruct (verified_runs _ _ _ _ _ _) as [runs|] eqn:Hv; [|done].
      destruct (verified_runs_ok i (offset + len) offset (Z.to_nat len) offset [] runs Hi ltac:(lia) ltac:(rewrite Z.mul_comm; apply Z_div_exact_full_2; [lia|done])
        ltac:(lia) ltac:(unfold PAGE_SIZE in *; zlia) Hend ltac:(lia) (Forall_nil_2 _) Hv) as (Hg & _ & Hcov & _).
      exists runs. split_and!; [done|done|]. destruct (clone_runs _ _ _ _ _ _). congruence.
    - exists [(offset, offset + len)]. split_and!.
      + apply Forall_singleton. unfold good_run. cbn [fst snd]. unfold PAGE_SIZE in *. zlia.
      + intros x Hx. left. by apply in_runs_one.
      + destruct (clone_runs _ _ _ _ _ _). congruence. }
  destruct (clone_runs_ok offset (offset + len) at_ runs dest dest' Hg Ho Hle Hat Hcl) as [Hlen Hrest].
  split_and!; [done|done| |].
  - intros x Hx. case_decide as Hd.
    + destruct (Hrest x Hx) as [[_ ->]|[Hno ->]]; [done|]. destruct (Hcov (offset + (x - at_)) ltac:(lia)) as [|Hz]; [done|].
      rewrite Hz. by apply Hhole.
    + destruct (Hrest x Hx) as [[(r & Hr1 & Hr2) _]|[_ ->]]; [|done].
      rewrite Forall_forall in Hg. destruct (Hg r Hr1) as (? & ? & ? & _). lia.
  - intros q Hq. eapply any_discarded_false; [exact Had|]. unfold div_ceil, PAGE_SIZE in *. zlia.
Qed.

(** Whatever the outcome, what a clone has changed it has changed to what a
    fault would install. *)
Lemma clone_runs_any offset e at_ : ∀ runs dest r dest',
  Forall (good_run offset e) runs → 0 ≤ offset → e ≤ guest_len d → 0 ≤ at_ →
  clone_runs ficlonerange d offset at_ runs dest = (r, dest') →
  r ≠ NotThisRange ∧ length dest' = length dest ∧
  ∀ x : Z, 0 ≤ x < Z.of_nat (length dest) → dest' !! Z.to_nat x = dest !! Z.to_nat x ∨
    (offset ≤ offset + (x - at_) < e ∧ dest' !! Z.to_nat x = snap !! Z.to_nat (offset + (x - at_))).
Proof.
  induction runs as [|[st en] runs IH]; intros dest r dest' Hg Ho He Hat Hr; cbn [clone_runs] in Hr.
  { injection Hr as <- <-. split_and!; [done|done|by left]. }
  apply Forall_cons in Hg as [(H1 & H2 & H3 & H4 & H5) Hg]. cbn [fst snd] in *.
  assert (next_multiple_of (en - st) 4096 = en - st) as Hn.
  { unfold next_multiple_of, div_ceil, PAGE_SIZE in *. zlia. }
  rewrite Hn in Hr. destruct (ficlonerange _ _ _ _) as [dest1|] eqn:Hf; [|injection Hr as <- <-; split_and!; [done|done|by left]].
  apply Hclone in Hf as [Hl1 Hf]; [|lia..]. destruct (IH dest1 r dest' Hg Ho He Hat Hr) as (? & Hl2 & Hrest).
  split_and!; [done|lia|]. intros x Hx. destruct (Hrest x ltac:(lia)) as [->|]; [|by right]. rewrite Hf by done.
  case_decide; [right|by left]. split; [lia|]. f_equal. lia.
Qed.

Lemma clone_untouched_any offset len dest at_ r dest' :
  0 ≤ offset → 0 ≤ len → 0 ≤ at_ → offset mod PAGE_SIZE = 0 →
  clone_untouched pread ficlonerange d offset len dest at_ = (r, dest') →
  length dest' = length dest ∧ (r = Ok NotThisRange → dest' = dest) ∧
  ∀ x : Z, 0 ≤ x < Z.of_nat (length dest) → dest' !! Z.to_nat x = dest !! Z.to_nat x ∨
    (at_ ≤ x < at_ + len ∧ dest' !! Z.to_nat x = snap !! Z.to_nat (offset + (x - at_)) ∧
     is_discarded (discarded_pages d) ((offset + (x - at_)) / PAGE_SIZE) = false).
Proof.
  intros Ho Hl Hat Hom. unfold clone_untouched. destruct (range_end d offset len) as [e|] eqn:He; [|intros [= <- <-]; auto].
  assert (e = offset + len ∧ e ≤ guest_len d) as [-> Hle].
  { unfold range_end in He. destruct (u64_checked_add offset len) as [e'|] eqn:Ee; [|done].
    apply u64_checked_add_Some in Ee as [-> _]. destruct (_ <=? _) eqn:El; [|done]. injection He as <-. by bool_to_prop. }
  destruct (_ || negb (is_multiple_of len 4096)) eqn:Hal; [intros [= <- <-]; auto|]. destruct (discarded_poisoned d); [intros [= <- <-]; auto|].
  destruct (any_discarded _ _ _) eqn:Had; [intros [= <- <-]; auto|].
  assert (len mod PAGE_SIZE = 0) as Hlm by (unfold is_multiple_of in Hal; bool_to_prop; unfold PAGE_SIZE; lia).
  assert (∀ runs o dest2, Forall (good_run offset (offset + len)) runs → clone_runs ficlonerange d offset at_ runs dest = (o, dest2) →
    length dest2 = length dest ∧ (Ok (E := UffdRestoreError) o = Ok NotThisRange → dest2 = dest) ∧
    ∀ x : Z, 0 ≤ x < Z.of_nat (length dest) → dest2 !! Z.to_nat x = dest !! Z.to_nat x ∨
      (at_ ≤ x < at_ + len ∧ dest2 !! Z.to_nat x = snap !! Z.to_nat (offset + (x - at_)) ∧
       is_discarded (discarded_pages d) ((offset + (x - at_)) / PAGE_SIZE) = false)) as Hruns.
  { intros runs o dest2 Hg Hr. destruct (clone_runs_any offset (offset + len) at_ runs dest o dest2 Hg Ho Hle Hat Hr) as (Hno & ? & Hx).
    split_and!; [done|intros [= ->]; done|]. intros x Hx0. destruct (Hx x Hx0) as [|[? ?]]; [by left|right]. split_and!; [lia..|done|].
    eapply any_discarded_false; [exact Had|]. unfold div_ceil, PAGE_SIZE in *. zlia. }
  destruct (source_integrity (source d)) as [i|] eqn:Hi.
  - destruct (chunk_pages d i Hwf Hi) as (Hpos & Hcm & _).
    destruct (negb (is_multiple_of offset (chunk_size i)) || (negb (is_multiple_of len (chunk_size i)) && negb (offset + len =? guest_len d))) eqn:Hw; [intros [= <- <-]; auto|]. destruct (whole_chunks _ _ _ _ Hpos Hcm He Hl Hw) as (_ & _ & Hoc & _ & _ & Hend).
    destruct (verified_runs _ _ _ _ _ _) as [runs|] eqn:Hv; [|intros [= <- <-]; auto].
    destruct (verified_runs_ok i (offset + len) offset (Z.to_nat len) offset [] runs Hi ltac:(lia) ltac:(rewrite Z.mul_comm; apply Z_div_exact_full_2; [lia|done])
      ltac:(lia) ltac:(unfold PAGE_SIZE in *; zlia) Hend ltac:(lia) (Forall_nil_2 _) Hv) as (Hg & _).
    destruct (clone_runs _ _ _ _ _ _) as [o dest2] eqn:Hc. intros [= <- <-]. by eapply Hruns.
  - destruct (clone_runs _ _ _ _ _ _) as [o dest2] eqn:Hc. intros [= <- <-]. eapply Hruns; [|exact Hc].
    apply Forall_singleton. unfold good_run. cbn [fst snd]. unfold PAGE_SIZE in *. zlia.
Qed.

End untouched.

(** C38: A live snapshot copies the pages the guest has never touched without
    faulting them in, and gets what a fault would install: a page that
    [read_untouched] returns is the page the guest sees, discarded or not,
    and so is one that [clone_untouched] has shared into a hole of the
    destination, zero chunks that it skipped included. With an integrity
    manifest the reads need not be trusted. *)
Theorem untouched_is_what_a_fault_installs {K : Type} `{!UffdKernel K} `{!Sha256}
    snap (s : Lazy K) base mem_len pread ficlonerange offset len at_ dest :
  kept snap base mem_len s →
  (∀ o n bs, source_integrity (source (lz_discard s)) = None → 0 ≤ o → 0 ≤ n → o + n ≤ mem_len →
    pread (source_offset (source (lz_discard s)) + o) n = Some bs → bs = slice (Z.to_nat o) (Z.to_nat n) snap) →
  (∀ dest a n at_ dest', 0 ≤ a → 0 ≤ n → a + n ≤ mem_len → 0 ≤ at_ →
    ficlonerange dest (source_offset (source (lz_discard s)) + a) n at_ = Some dest' →
    length dest' = length dest ∧
    ∀ x : Z, 0 ≤ x < Z.of_nat (length dest) →
      dest' !! Z.to_nat x = if decide (at_ ≤ x < at_ + n) then snap !! Z.to_nat (a + (x - at_)) else dest !! Z.to_nat x) →
  0 ≤ offset → 0 ≤ len → offset mod PAGE_SIZE = 0 → 0 ≤ at_ → at_ + len ≤ Z.of_nat (length dest) →
  (∀ x : Z, at_ ≤ x < at_ + len → dest !! Z.to_nat x = Some 0) →
  ∀ j : nat, Z.of_nat j < len / PAGE_SIZE → ¬ populated s (offset / PAGE_SIZE + Z.of_nat j) →
    (∀ out, read_untouched pread (lz_discard s) offset len = Ok out →
      slice (j * page_n) page_n out = view snap s (offset / PAGE_SIZE + Z.of_nat j)) ∧
    (∀ dest', clone_untouched pread ficlonerange (lz_discard s) offset len dest at_ = (Ok Cloned, dest') →
      slice (Z.to_nat at_ + j * page_n) page_n dest' = view snap s (offset / PAGE_SIZE + Z.of_nat j)).
Proof.
  intros (Hwf & Hgen & Hb & <-) Hread Hclone Ho Hl Hom Hat Hin Hhole j Hj Hpop. set (q := offset / PAGE_SIZE + Z.of_nat j) in *.
  assert (view snap s q = fresh (lz_discard s) snap q) as ->.
  { unfold view, populated in *. destruct (k_page _ _); [|done]. by destruct Hpop. }
  split.
  - intros out Hr. destruct (read_untouched_fresh _ snap pread Hwf Hgen Hread offset len out Ho Hl Hr) as (_ & _ & _ & _ & Hp). by apply Hp.
  - intros dest' Hc.
    destruct (clone_untouched_fresh _ snap pread Hwf Hgen Hread ficlonerange Hclone offset len dest at_ dest' Ho Hl Hat Hin Hom Hhole Hc)
      as (Hlen & Hle & Hbytes & Hnd).
    unfold fresh. rewrite Hnd by (unfold q, PAGE_SIZE in *; zlia). apply list_eq. intros i. unfold snap_page. rewrite !lookup_slice.
    case_decide as Hi; [|done]. assert (Z.of_nat page_n = PAGE_SIZE) as Hpn by (unfold page_n, PAGE_SIZE; lia).
    replace (Z.to_nat at_ + j * page_n + i)%nat with (Z.to_nat (at_ + Z.of_nat j * PAGE_SIZE + Z.of_nat i)) by lia.
    rewrite Hbytes, decide_True by (unfold PAGE_SIZE in *; zlia). f_equal. unfold q, PAGE_SIZE in *. zlia.
Qed.

(** ** A kernel: a map of pages *)

Notation PageMap := (gmap Z (list Z)).

Fixpoint fill_pages (k : PageMap) (dst : Z) (pages : list (list Z)) : nat * PageMap :=
  match pages with
  | [] => (0%nat, k)
  | p :: pages' =>
      match k !! dst with
      | Some _ => (0%nat, k)
      | None => let '(n, k') := fill_pages (<[ dst := p ]> k) (dst + PAGE_SIZE) pages' in (S n, k')
      end
  end.

Definition fill_answer (k : PageMap) (dst : Z) (pages : list (list Z)) : option Z * PageMap :=
  let '(n, k') := fill_pages k dst pages in
  (if (n =? length pages)%nat then None else if (n =? 0)%nat then Some EEXIST else Some EAGAIN, k').

#[export] Instance page_map_kernel : UffdKernel PageMap := {
  k_page k a := k !! a;
  k_copy k dst bs := fill_answer k dst (pieces PAGE_SIZE bs);
  k_zeropage k dst len := fill_answer k dst (replicate (Z.to_nat (len / PAGE_SIZE)) zero_page);
  k_mincore k a := Some (bool_decide (is_Some (k !! a)));
  k_dontneed k a := (true, delete a k);
}.

Lemma fill_pages_ok : ∀ pages (k k' : PageMap) dst n,
  fill_pages k dst pages = (n, k') → fills k dst pages n k' ∧ ((n < length pages)%nat → is_Some (k !! (dst + Z.of_nat n * PAGE_SIZE))).
Proof.
  induction pages as [|p pages IH]; intros k k' dst n Hf; cbn [fill_pages] in Hf.
  { injection Hf as <- <-. split; [|simpl; lia]. split_and!; [simpl; lia|lia..|done]. }
  destruct (k !! dst) as [old|] eqn:Hd.
  { injection Hf as <- <-. split; [split_and!; [lia|lia..|done]|]. intros _. replace (dst + _) with dst by lia. by exists old. }
  destruct (fill_pages _ _ pages) as [m k1] eqn:Hr. injection Hf as <- <-. apply IH in Hr as [(Hle & Hnone & Hset & Hrest) Hstop].
  assert (0 < PAGE_SIZE) by done. assert (∀ i : nat, dst + Z.of_nat (S i) * PAGE_SIZE = dst + PAGE_SIZE + Z.of_nat i * PAGE_SIZE) as Hs by lia.
  assert (∀ i : nat, dst ≠ dst + PAGE_SIZE + Z.of_nat i * PAGE_SIZE) as Hne by nia.
  cbn [k_page page_map_kernel] in Hnone, Hset, Hrest. split; [split_and!|]; cbn [k_page page_map_kernel].
  - simpl. lia.
  - intros [|i] Hi; [by replace (dst + _) with dst by lia|]. rewrite Hs. specialize (Hnone i ltac:(lia)).
    by rewrite lookup_insert_ne in Hnone by done.
  - intros [|i] Hi; cbn [lookup list_lookup]; [|rewrite Hs; by apply Hset; lia]. replace (dst + _) with dst by lia.
    rewrite Hrest by auto. apply lookup_insert_eq.
  - intros a Ha. rewrite Hrest.
    + apply lookup_insert_ne. intros ->. apply (Ha 0%nat); lia.
    + intros i Hi ->. apply (Ha (S i)); lia.
  - intros Hm. rewrite Hs. destruct (Hstop ltac:(simpl in Hm; lia)) as [x Hx]. exists x. by rewrite lookup_insert_ne in Hx by done.
Qed.

Lemma fill_answer_ok pages (k k' : PageMap) dst r : fill_answer k dst pages = (r, k') → fill_result k dst pages r k'.
Proof.
  unfold fill_answer. destruct (fill_pages k dst pages) as [n k1] eqn:Hf. intros [= <- <-].
  apply fill_pages_ok in Hf as [Hfill Hstop]. exists n. pose proof Hfill as [Hle _]. split; [done|].
  destruct (n =? length pages)%nat eqn:En; [apply Nat.eqb_eq in En; naive_solver|]. apply Nat.eqb_neq in En.
  destruct (n =? 0)%nat eqn:E0; [apply Nat.eqb_eq in E0 as ->|apply Nat.eqb_neq in E0]; split_and!; try done; try (intros ? [= <-]; split; lia).
  intros _. destruct (Hstop ltac:(lia)) as [x Hx]. exists x. simpl. rewrite <- Hx. f_equal. lia.
Qed.

Lemma fill_answer_calm pages (k k' : PageMap) dst r : fill_answer k dst pages = (r, k') → calm k dst r k'.
Proof.
  unfold fill_answer. destruct (fill_pages k dst pages) as [n k1] eqn:Hf. intros [= <- <-] e.
  apply fill_pages_ok in Hf as [(Hle & Hnone & Hset & _) _]. destruct (n =? length pages)%nat; [done|].
  destruct (n =? 0)%nat eqn:E0; intros [= <-]; [by left|]. apply Nat.eqb_neq in E0. right.
  specialize (Hnone 0%nat ltac:(lia)). specialize (Hset 0%nat ltac:(lia)).
  replace (dst + Z.of_nat 0 * PAGE_SIZE) with dst in * by lia. split_and!; [done|done|]. rewrite Hset. apply lookup_lt_is_Some. lia.
Qed.

#[export] Instance page_map_laws : UffdLaws PageMap.
Proof.
  split.
  - intros. by apply fill_answer_ok.
  - intros. by apply fill_answer_ok.
  - intros k a [= ?]. by case_bool_decide.
  - intros k a k' [= <-] b. simpl. case_decide; [subst; apply lookup_delete_eq|by apply lookup_delete_ne].
  - done.
Qed.

#[export] Instance page_map_calm : CalmKernel PageMap.
Proof. split; intros k dst ? r k' Hk; exact (fill_answer_calm _ k k' dst r Hk). Qed.

(** ** A machine of two pages *)
Module Examples.

#[local] Instance whole_hash : Sha256 := fun bs => bs.

(** One chunk of two pages. *)
Definition ex_snap : list Z := replicate page_n 7 ++ replicate page_n 5.
Definition ex_integrity : ChunkIntegrity := mkIntegrity 8192 [ex_snap] [].
Definition ex_host : RestoreHost := mkRestoreHost 4096 (Some 8192) true true (Some 76) true true true true.
Definition ex_discard : LazyPageDiscard := discard_new 65536 8192 0 (Some ex_integrity).
Definition ex_start : Lazy PageMap := mkLazy ∅ ex_discard None (handler_new 65536 (Some ex_integrity)).

Lemma ex_length : Z.of_nat (length ex_snap) = 8192.
Proof. unfold ex_snap. rewrite length_app, !length_replicate. unfold page_n, PAGE_SIZE. lia. Qed.

Lemma ex_chunk : chunk_at ex_integrity ex_snap 0 = ex_snap.
Proof.
  unfold chunk_at. rewrite ex_length. cbn [chunk_size ex_integrity]. change (Z.to_nat (0 * 8192)) with 0%nat.
  unfold slice. rewrite drop_0, firstn_all2; [done|]. pose proof ex_length. lia.
Qed.

Lemma ex_kept : kept ex_snap 65536 8192 ex_start.
Proof.
  split_and!; [split|split|done..].
  - done.
  - done.
  - done.
  - done.
  - intros i [= <-]. split_and!; [exists 13; split; [lia|done]|done|done].
  - cbn [guest_len lz_discard ex_start]. by rewrite ex_length.
  - intros i c h [= <-] Hc. destruct c as [|c]; [|done]. injection Hc as <-. change (Z.of_nat 0) with 0. by rewrite ex_chunk.
  - intros i c h bs [= <-] Hc. destruct c as [|c]; [|done]. injection Hc as <-. change (Z.of_nat 0) with 0. by rewrite ex_chunk.
Qed.

Lemma ex_started : start_lazy_restore_with_integrity ex_host 65536 8192 0 8192 None (Some ex_integrity) ∅ = (Ok ex_start, true).
Proof. reflexivity. Qed.

(** A fault in the first page, served: it brings the whole chunk. *)
Definition ex_fault : list Z := 18 :: replicate 15 0 ++ le_encode 8 65636 ++ replicate 8 0.
Definition ex_turn (s : Lazy PageMap) : outcome (Lazy PageMap) :=
  handler_iteration false false (PollOk 1 POLLIN 0) [ReadBytes ex_fault; ReadErr EAGAIN] ex_snap s.
Definition ex_page : list Z := replicate page_n 9.

Lemma ex_turn_step s s1 : trusted (lz_discard s) ex_snap ex_snap → ex_turn s = Goes s1 → lazy_step ex_snap s Tau s1.
Proof. apply lz_handle. Qed.

Lemma ex_turn_serves s : pending_faults (lz_handler s) = [] → ex_turn s = serve ex_snap 65636 false s.
Proof.
  destruct s as [k d dirty [p t sv pc z ps]]. simpl. intros ->. unfold ex_turn, handler_iteration. simpl. done.
Qed.

Lemma ex_turn_populates s :
  kept ex_snap 65536 8192 s → discarded_poisoned (lz_discard s) = false → pending_faults (lz_handler s) = [] →
  source (lz_discard s) = source ex_discard → ∃ s1, ex_turn s = Goes s1 ∧ populated s1 0 ∧ same_hook (lz_discard s) (lz_discard s1).
Proof.
  intros Hk Hp Hh Hs. rewrite ex_turn_serves by done. pose proof Hk as (_ & _ & Hb & Hl).
  destruct (serve_attempt ex_snap 65536 8192 s 0 65636 Hk Hp) as (s1 & co & Hco & Hs1 & Hsame & Hfirst & _).
  - unfold in_guest. rewrite Hl. done.
  - unfold host_addr. rewrite Hb. done.
  - exists s1. split_and!; [done| |done]. unfold copy_range in Hco. rewrite Hs, Hl in Hco. simpl in Hco. subst co.
    unfold populated, host_addr. destruct Hsame as (-> & _). by rewrite Hb.
Qed.

#[local] Opaque ex_turn serve.

(** The guest writes the page it has faulted in. *)
Lemma lazy_refines_witness : ∃ s1 s2,
  ex_turn ex_start = Goes s1 ∧ s2 = on_kernel (<[ 65536 := ex_page ]> (lz_kernel s1)) s1 ∧
  plain_run (8192 / PAGE_SIZE) (snap_page ex_snap) [Tau; Write 0 ex_page] (view ex_snap s2).
Proof.
  destruct (ex_turn_populates ex_start ex_kept eq_refl eq_refl eq_refl) as (s1 & Hs1 & Hpop & Hb & Hl & _).
  eexists s1, _. split_and!; [exact Hs1|done|].
  eapply (lazy_refines ex_host 65536 8192 0 8192 None (Some ex_integrity) ∅ ex_start true ex_snap);
    [done|done|done|done|done|exact ex_started|apply ex_kept|intros a; apply lookup_empty|].
  - eapply run_step; [apply ex_turn_step; [by unfold trusted|exact Hs1]|]. eapply run_step; [|apply run_done].
    apply lz_write.
    { unfold in_guest. rewrite Hl. change (0 ≤ 0 < 2). lia. }
    { exact Hpop. }
    intros a.
    replace (host_addr (lz_discard s1) 0) with 65536 by (unfold host_addr; rewrite Hb; reflexivity).
    cbn [k_page page_map_kernel]. case_decide; [subst; apply lookup_insert_eq|by apply lookup_insert_ne].
Defined.

(** The balloon discards the second page, and a fault in the first then
    brings the chunk of both. *)
Lemma discard_stays_zero_witness : ∃ d' k' s1,
  discard ex_discard ∅ 4096 4096 = (Ok tt, d', k') ∧
  ex_turn (on_kernel k' (on_discard d' ex_start)) = Goes s1 ∧ view ex_snap s1 1 = zero_page.
Proof.
  assert (∀ (k : PageMap) a, k_mincore k a = Some false → k_page k a = None) as Hcore.
  { intros k a [= Ha]. case_bool_decide as Hs; [done|]. simpl. by apply eq_None_not_Some. }
  assert (∃ d', discard ex_discard ∅ 4096 4096 = (Ok tt, d', ∅ : PageMap) ∧ discarded_poisoned d' = false ∧ source d' = source ex_discard)
    as (d' & Hd & Hp & Hs) by (eexists; split_and!; [reflexivity|done|done]).
  destruct (discard_ok ex_snap Hcore ex_start 65536 8192 4096 4096 d' ∅ ex_kept ltac:(done) Hd) as (Hk & _).
  destruct (ex_turn_populates _ Hk Hp eq_refl Hs) as (s1 & Hs1 & _). eexists d', ∅, s1. split_and!; [done|done|].
  eapply (discard_stays_zero ex_snap ex_start 65536 8192 4096 4096 d' ∅ [Tau] s1 1);
    [exact Hcore|apply ex_kept|done|exact Hd| |done|].
  - eapply run_step; [|apply run_done]. apply ex_turn_step; [by unfold trusted|exact Hs1].
  - intros bs Hin%list_elem_of_singleton. discriminate Hin.
Defined.

(** A fault in the second page. *)
Lemma fault_resolved_witness : ∃ s1, serve ex_snap 69700 false ex_start = Goes s1 ∧
  (populated s1 1 ∨ pending_faults (lz_handler s1) = [69700]).
Proof.
  destruct (fault_resolved ex_snap 65536 8192 ex_start 1 69700 ex_kept eq_refl) as (s1 & Hs1 & Hres); [done|done|].
  exists s1. split; [done|]. destruct Hres as [|[? _]]; auto.
Defined.

(** The same memory restored without a manifest, read and cloned before any
    fault. *)
Definition ex_plain : Lazy PageMap := mkLazy ∅ (discard_new 65536 8192 0 None) None (handler_new 65536 None).
Definition ex_pread (o n : Z) : option (list Z) := Some (slice (Z.to_nat o) (Z.to_nat n) ex_snap).
Definition ex_clone (dest : list Z) (a n at_ : Z) : option (list Z) :=
  Some (imap (fun x b => if decide (at_ ≤ Z.of_nat x < at_ + n) then default b (ex_snap !! Z.to_nat (a + (Z.of_nat x - at_))) else b) dest).
Definition ex_hole : list Z := replicate (Z.to_nat 8192) 0.

Lemma ex_plain_kept : kept ex_snap 65536 8192 ex_plain.
Proof. split_and!; [split|split|done..]; try done. Qed.

Lemma ex_clone_copies dest a n at_ dest' : 0 ≤ a → a + n ≤ 8192 → ex_clone dest (0 + a) n at_ = Some dest' →
  length dest' = length dest ∧
  ∀ x : Z, 0 ≤ x < Z.of_nat (length dest) →
    dest' !! Z.to_nat x = if decide (at_ ≤ x < at_ + n) then ex_snap !! Z.to_nat (a + (x - at_)) else dest !! Z.to_nat x.
Proof.
  intros Ha Hn [= <-]. split; [apply length_imap|]. intros x Hx. rewrite list_lookup_imap.
  destruct (lookup_lt_is_Some_2 dest (Z.to_nat x)) as [b Hb]; [lia|]. rewrite Hb. cbn [fmap option_fmap option_map].
  rewrite Z2Nat.id by lia. case_decide; [|reflexivity].
  destruct (lookup_lt_is_Some_2 ex_snap (Z.to_nat (a + (x - at_)))) as [y Hy]; [pose proof ex_length; lia|].
  rewrite (Z.add_0_l a), Hy. reflexivity.
Qed.

Lemma untouched_witness : ∃ out dest',
  read_untouched ex_pread (lz_discard ex_plain) 0 8192 = Ok out ∧ slice (1 * page_n) page_n out = view ex_snap ex_plain 1 ∧
  clone_untouched ex_pread ex_clone (lz_discard ex_plain) 0 8192 ex_hole 0 = (Ok Cloned, dest') ∧
  slice (0 + 1 * page_n) page_n dest' = view ex_snap ex_plain 1.
Proof.
  assert (∃ out, read_untouched ex_pread (lz_discard ex_plain) 0 8192 = Ok out) as [out Hout] by (eexists; reflexivity).
  assert (∃ dest', clone_untouched ex_pread ex_clone (lz_discard ex_plain) 0 8192 ex_hole 0 = (Ok Cloned, dest'))
    as [dest' Hdest'] by (eexists; reflexivity).
  assert (Z.of_nat (length ex_hole) = 8192) as Hlen by (unfold ex_hole; rewrite length_replicate; lia).
  edestruct (untouched_is_what_a_fault_installs ex_snap ex_plain 65536 8192 ex_pread ex_clone 0 8192 0 ex_hole)
    with (j := 1%nat) as [Hr Hc]; [| | |lia|lia|done|lia|lia| |done| |].
  - exact ex_plain_kept.
  - intros o n bs _ _ _ _ [= <-]. by rewrite Z.add_0_l.
  - intros dest a n at_ dest2 Ha _ Hle _ Hc. exact (ex_clone_copies dest a n at_ dest2 Ha Hle Hc).
  - intros x Hx. apply lookup_replicate. split; [done|lia].
  - intros [y Hy]. done.
  - exists out, dest'. split_and!; [exact Hout|exact (Hr out Hout)|exact Hdest'|exact (Hc dest' Hdest')].
Defined.

End Examples.
