(* ===== verification/VQueue.v ===== *)
(** * Virtqueue processing ([vmm-devices/src/virtio/vqueue.rs])

    The processor walks the guest's descriptor ring and dispatches requests.
    Guest memory is the interface of [GuestMem]; a world pairs it with the
    dirty tracker the call was given. Handlers are closures over device state:
    they take that state and return the new one. Logging and memory fences
    have no counterpart. The theorems about the definitions are in
    [VQueueWalk], [VQueueRun] and [VQueuePeek]. *)

From S2P Require Import Prelude Dirty GuestMem GuestRam.

Definition MAX_QUEUE_SIZE : Z := 256.
Definition MAX_SUPPORTED_QUEUE_SIZE : Z := 1024.
Definition MAX_DESC_LEN : Z := 1024 * 1024.
Definition MAX_CHAIN_BYTES : Z := 4 * 1024 * 1024.

Definition is_valid_queue_size (size max_size : Z) : bool :=
  negb (size =? 0) && (size <=? max_size) && is_power_of_two size.

(** [repr(C)], 16 bytes, little-endian in guest memory. *)
Record Descriptor := mkDesc {
  desc_addr : Z;
  desc_len : Z;
  desc_flags : Z;
  desc_next : Z;
}.

Definition NEXT : Z := 1.
Definition WRITE : Z := 2.
Definition INDIRECT : Z := 4.

Definition DESC_SIZE : Z := 16.
Definition USED_ELEM_SIZE : Z := 8.

Definition decode_descriptor (bs : list Z) : Descriptor :=
  mkDesc (le_decode (slice 0 8 bs)) (le_decode (slice 8 4 bs))
    (le_decode (slice 12 2 bs)) (le_decode (slice 14 2 bs)).

(** The bytes of a [UsedElem]. *)
Definition encode_used_elem (id len : Z) : list Z := le_encode 4 id ++ le_encode 4 len.

Record QueueConfig := mkQueueConfig {
  size : Z;
  desc_table_addr : Z;
  avail_ring_addr : Z;
  used_ring_addr : Z;
  ready : bool;
}.

#[export] Instance queue_config_eq_dec : EqDecision QueueConfig.
Proof. solve_decision. Defined.

Definition has_valid_size (c : QueueConfig) : bool :=
  is_valid_queue_size (size c) MAX_SUPPORTED_QUEUE_SIZE.

(** Guest-physical (address, length) pairs, in chain order. *)
Record DescriptorChain := mkChain {
  readable : list (Z * Z);
  writable : list (Z * Z);
  chain_len : Z;
}.

Record PeekedChain := mkPeeked {
  head : Z;
  buffers : list (Z * Z);
  capacity : Z;
}.

Record VirtQueueProcessor := mkProc {
  config : QueueConfig;
  last_avail_idx : Z;
  last_used_idx : Z;
  event_idx : bool;
  peeked : list PeekedChain;
}.

Record VirtQueueProcessorState := mkProcState {
  st_last_avail_idx : Z;
  st_last_used_idx : Z;
}.

(** ** Construction, snapshot state, configuration *)

Definition new_with_indices (c : QueueConfig) (avail used : Z) : VirtQueueProcessor :=
  mkProc c avail used false [].

Definition new (c : QueueConfig) : VirtQueueProcessor := new_with_indices c 0 0.

Definition from_state (c : QueueConfig) (st : VirtQueueProcessorState) : VirtQueueProcessor :=
  mkProc c (st_last_avail_idx st) (st_last_used_idx st) false [].

Definition save_state (q : VirtQueueProcessor) : VirtQueueProcessorState :=
  mkProcState (last_avail_idx q) (last_used_idx q).

Definition update_config (q : VirtQueueProcessor) (c : QueueConfig) : VirtQueueProcessor :=
  let o := config q in
  let changed :=
    negb (size o =? size c) || negb (desc_table_addr o =? desc_table_addr c)
    || negb (avail_ring_addr o =? avail_ring_addr c)
    || negb (used_ring_addr o =? used_ring_addr c)
    || negb (Bool.eqb (ready o) (ready c)) in
  mkProc c (last_avail_idx q) (last_used_idx q) (event_idx q)
    (if changed then [] else peeked q).

Definition set_event_idx (q : VirtQueueProcessor) (on : bool) : VirtQueueProcessor :=
  mkProc (config q) (last_avail_idx q) (last_used_idx q) on (peeked q).

Definition set_indices (q : VirtQueueProcessor) (avail used : Z) : VirtQueueProcessor :=
  mkProc (config q) avail used (event_idx q) (peeked q).

Definition set_peeked (q : VirtQueueProcessor) (p : list PeekedChain) : VirtQueueProcessor :=
  mkProc (config q) (last_avail_idx q) (last_used_idx q) (event_idx q) p.

(** ** Ring addresses *)

Definition used_event_addr (q : VirtQueueProcessor) : option Z :=
  let?o ring := u64_checked_mul (size (config q)) 2 in
  let?o off := u64_checked_add 4 ring in
  u64_checked_add (avail_ring_addr (config q)) off.

Definition avail_event_addr (q : VirtQueueProcessor) : option Z :=
  let?o ring := u64_checked_mul (size (config q)) USED_ELEM_SIZE in
  let?o off := u64_checked_add 4 ring in
  u64_checked_add (used_ring_addr (config q)) off.

Definition avail_entry_addr (q : VirtQueueProcessor) : option Z :=
  let ring_slot := last_avail_idx q mod size (config q) in
  let?o ring_off := u64_checked_mul ring_slot 2 in
  let?o off := u64_checked_add 4 ring_off in
  u64_checked_add (avail_ring_addr (config q)) off.

Definition desc_entry_addr (c : QueueConfig) (desc_idx : Z) : option Z :=
  let?o off := u64_checked_mul desc_idx DESC_SIZE in
  u64_checked_add (desc_table_addr c) off.

Definition used_entry_addr (q : VirtQueueProcessor) : option Z :=
  let ring_slot := last_used_idx q mod size (config q) in
  let?o ring_off := u64_checked_mul ring_slot USED_ELEM_SIZE in
  let?o off := u64_checked_add 4 ring_off in
  u64_checked_add (used_ring_addr (config q)) off.

Definition used_idx_addr (q : VirtQueueProcessor) : option Z :=
  u64_checked_add (used_ring_addr (config q)) 2.

Definition avail_idx_addr (q : VirtQueueProcessor) : option Z :=
  u64_checked_add (avail_ring_addr (config q)) 2.

Definition reject_available_chain (q : VirtQueueProcessor) : VirtQueueProcessor :=
  set_indices q (u16_wrapping_add (last_avail_idx q) 1) (last_used_idx q).

Definition advance_used (q : VirtQueueProcessor) : VirtQueueProcessor :=
  set_indices q (u16_wrapping_add (last_avail_idx q) 1) (u16_wrapping_add (last_used_idx q) 1).

(** [vring_need_event]. *)
Definition need_event (used_event new_idx old_used : Z) : bool :=
  u16_wrapping_sub (u16_wrapping_sub new_idx used_event) 1 <? u16_wrapping_sub new_idx old_used.

Section processor.
Context {M : Type} `{!GuestMemoryBackend M}.

(** Guest memory and the optional dirty tracker of the call. *)
Record World := mkWorld {
  w_mem : M;
  w_dirty : option DirtyBitmap.t;
}.

(** ** Typed access to guest memory *)

Definition read_u16 (m : M) (a : Z) : option Z := le_decode <$> gm_read_slice m a 2.

Definition read_descriptor (m : M) (a : Z) : option Descriptor :=
  decode_descriptor <$> gm_read_slice m a DESC_SIZE.

(** The [idx] field of an [AvailRing] header read whole. *)
Definition read_avail_idx (m : M) (a : Z) : option Z :=
  (fun bs => le_decode (slice 2 2 bs)) <$> gm_read_slice m a 4.

(** [write_obj_mem] and [write_slice_mem] on the bytes of the value. *)
Definition write_mem (w : World) (bs : list Z) (a : Z) : bool * World :=
  match gm_write_slice (w_mem w) a bs with
  | (true, m) =>
      (true, mkWorld m
        ((fun d => SoftwareDirtyBitmap.mark_guest_range d a (Z.of_nat (length bs))) <$> w_dirty w))
  | (false, m) => (false, mkWorld m (w_dirty w))
  end.

(** [let _ = write_obj_mem(..)]: the outcome is dropped. *)
Definition write_mem_ (w : World) (bs : list Z) (a : Z) : World := (write_mem w bs a).2.

Definition guest_range_is_valid (m : M) (addr len : Z) : bool :=
  if len =? 0 then true
  else match u64_checked_add addr (len - 1) with
  | None => false
  | Some _ => gm_check_range m addr len
  end.

Definition queue_is_usable (q : VirtQueueProcessor) (m : M) : bool :=
  let c := config q in
  if negb (ready c) || (size c =? 0) then false
  else if negb (has_valid_size c) then false
  else
    match u64_checked_mul (size c) DESC_SIZE,
          (let?o r := u64_checked_mul (size c) 2 in u64_checked_add 4 r),
          (let?o r := u64_checked_mul (size c) USED_ELEM_SIZE in u64_checked_add 4 r) with
    | Some desc_bytes, Some avail_bytes, Some used_bytes =>
        guest_range_is_valid m (desc_table_addr c) desc_bytes
        && guest_range_is_valid m (avail_ring_addr c) avail_bytes
        && guest_range_is_valid m (used_ring_addr c) used_bytes
    | _, _, _ => false
    end.

Definition needs_notification (q : VirtQueueProcessor) (m : M) (old_used : Z) : bool :=
  if negb (event_idx q) then true
  else match (let?o a := used_event_addr q in read_u16 m a) with
  | None => true
  | Some used_event => need_event used_event (last_used_idx q) old_used
  end.

(** ** Walking a descriptor chain

    The guest runs while the device reads, so [rd k a] is what the [k]-th
    descriptor read of the walk, at address [a], returns; ranges are checked
    against the memory map [m], which the guest cannot change. [None] means
    the fuel ran out, [Some None] that the chain is rejected. *)
Fixpoint walk_loop (fuel : nat) (rd : nat → Z → option Descriptor) (c : QueueConfig) (m : M)
    (desc_idx : Z) (rds wrs : list (Z * Z)) (chain_bytes : Z) (len : nat)
    : option (option DescriptorChain) :=
  match fuel with
  | O => None
  | S fuel' =>
      if size c <=? desc_idx then Some None
      else if size c <=? Z.of_nat len then Some None
      else match desc_entry_addr c desc_idx with
      | None => Some None
      | Some a =>
      match rd len a with
      | None => Some None
      | Some d =>
          if has_bits (desc_flags d) INDIRECT then Some None
          else if MAX_DESC_LEN <? desc_len d then Some None
          else match u64_checked_add chain_bytes (desc_len d) with
          | None => Some None
          | Some next_chain_bytes =>
              if MAX_CHAIN_BYTES <? next_chain_bytes then Some None
              else if negb (guest_range_is_valid m (desc_addr d) (desc_len d)) then Some None
              else
                let buf := (desc_addr d, desc_len d) in
                let w := has_bits (desc_flags d) WRITE in
                let rds' := if w then rds else rds ++ [buf] in
                let wrs' := if w then wrs ++ [buf] else wrs in
                if negb (has_bits (desc_flags d) NEXT)
                then Some (Some (mkChain rds' wrs' (Z.of_nat (S len))))
                else walk_loop fuel' rd c m (desc_next d) rds' wrs' next_chain_bytes (S len)
          end
      end
      end
  end.

(** The walk with reads from [rd]; one more step of fuel than the queue has
    descriptors is enough, see [walk_loop_total]. *)
Definition walk_with (rd : nat → Z → option Descriptor) (c : QueueConfig) (m : M)
    (head_desc_idx : Z) : option DescriptorChain :=
  if size c <=? head_desc_idx then None
  else match walk_loop (S (Z.to_nat (size c))) rd c m head_desc_idx [] [] 0 0 with
  | Some r => r
  | None => None
  end.

Definition walk_descriptor_chain (c : QueueConfig) (m : M) (head_desc_idx : Z)
    : option DescriptorChain :=
  walk_with (fun _ a => read_descriptor m a) c m head_desc_idx.

(** ** [process_queue_dirty]: requests with a status byte *)

Section process_queue.
Context {H : Type}.

(** [FnMut(&[u8], &mut [u8]) -> u8] over captured state [H]: the new state,
    the writable buffer after the call and the status byte. *)
Variable handler : H → list Z → list Z → H * list Z * Z.

(** Gather the bytes of a list of buffers; a failed read drops everything. *)
Fixpoint gather (m : M) (bufs : list (Z * Z)) (acc : list Z) : list Z :=
  match bufs with
  | [] => acc
  | (addr, len) :: bufs' =>
      match gm_read_slice m addr len with
      | None => []
      | Some bs => gather m bufs' (acc ++ bs)
      end
  end.

(** Scatter the writable data back over the buffers. *)
Fixpoint scatter (w : World) (bufs : list (Z * Z)) (data : list Z) (offset : Z) : World :=
  match bufs with
  | [] => w
  | (addr, len) :: bufs' =>
      match u64_checked_add offset len with
      | None => w
      | Some desc_end =>
          let end_ := Z.min desc_end (Z.of_nat (length data)) in
          let w' :=
            if offset <? end_
            then write_mem_ w (slice (Z.to_nat offset) (Z.to_nat (end_ - offset)) data) addr
            else w in
          scatter w' bufs' data end_
      end
  end.

(** One accepted chain: call the handler, write data and status back. *)
Definition serve_chain (w : World) (h : H) (chain : DescriptorChain) : World * H :=
  let data_bufs := take (length (writable chain) - 1) (writable chain) in
  let readable_data := gather (w_mem w) (readable chain) [] in
  let writable_data := gather (w_mem w) data_bufs [] in
  let status_addr := match last (writable chain) with Some (a, _) => a | None => 0 end in
  let '(h', writable_data', status_byte) := handler h readable_data writable_data in
  let w1 := scatter w data_bufs writable_data' 0 in
  let w2 := if negb (status_addr =? 0) then write_mem_ w1 [status_byte] status_addr else w1 in
  (w2, h').

(** [while self.last_avail_idx != avail.idx]. [None]: out of fuel. *)
Fixpoint process_loop (fuel : nat) (avail : Z) (q : VirtQueueProcessor) (w : World) (h : H)
    (processed : Z) : option (VirtQueueProcessor * World * H * Z) :=
  if last_avail_idx q =? avail then Some (q, w, h, processed)
  else match fuel with
  | O => None
  | S fuel' =>
      match (let?o a := avail_entry_addr q in read_u16 (w_mem w) a) with
      | None => Some (q, w, h, processed)
      | Some head_desc_idx =>
          match walk_descriptor_chain (config q) (w_mem w) head_desc_idx with
          | None => process_loop fuel' avail (reject_available_chain q) w h processed
          | Some chain =>
              let '(w1, h1) := serve_chain w h chain in
              match used_entry_addr q with
              | None => Some (q, w1, h1, processed)
              | Some ua =>
                  let w2 := write_mem_ w1 (encode_used_elem head_desc_idx (chain_len chain)) ua in
                  process_loop fuel' avail (advance_used q) w2 h1 (processed + 1)
              end
          end
      end
  end.

Definition publish_used_idx (q : VirtQueueProcessor) (w : World) : World :=
  match used_idx_addr q with
  | Some a => write_mem_ w (le_encode 2 (last_used_idx q)) a
  | None => w
  end.

(** The loop runs at most once per published entry. *)
Definition process_queue_dirty (q : VirtQueueProcessor) (w : World) (h : H)
    : option (VirtQueueProcessor * World * H * Z) :=
  if negb (queue_is_usable q (w_mem w)) then Some (q, w, h, 0)
  else match read_avail_idx (w_mem w) (avail_ring_addr (config q)) with
  | None => Some (q, w, h, 0)
  | Some avail =>
      match process_loop (Z.to_nat (u16_wrapping_sub avail (last_avail_idx q))) avail q w h 0 with
      | None => None
      | Some (q', w', h', processed) => Some (q', publish_used_idx q' w', h', processed)
      end
  end.

End process_queue.

(** ** [process_queue_descriptors_dirty]: raw descriptor lists *)

Section process_queue_descriptors.
Context {H : Type}.

(** The handler may write guest memory; [None] leaves the chain in flight. *)
Variable handler : World → H → list (Z * Z) → list (Z * Z) → World * H * option Z.

(** The inner [while]; the last component of the result is [stopped]. *)
Fixpoint descriptors_loop (fuel : nat) (avail : Z) (q : VirtQueueProcessor) (w : World) (h : H)
    (processed : Z) : option (VirtQueueProcessor * World * H * Z * bool) :=
  if last_avail_idx q =? avail then Some (q, w, h, processed, false)
  else match fuel with
  | O => None
  | S fuel' =>
      match (let?o a := avail_entry_addr q in read_u16 (w_mem w) a) with
      | None => Some (q, w, h, processed, true)
      | Some head_desc_idx =>
          match walk_descriptor_chain (config q) (w_mem w) head_desc_idx with
          | None => descriptors_loop fuel' avail (reject_available_chain q) w h processed
          | Some chain =>
              match handler w h (readable chain) (writable chain) with
              | (w1, h1, None) => Some (q, w1, h1, processed, true)
              | (w1, h1, Some used_len) =>
                  match used_entry_addr q with
                  | None => Some (q, w1, h1, processed, true)
                  | Some ua =>
                      let w2 := write_mem_ w1 (encode_used_elem head_desc_idx used_len) ua in
                      descriptors_loop fuel' avail (advance_used q) w2 h1 (processed + 1)
                  end
              end
          end
      end
  end.

Definition publish_avail_event (q : VirtQueueProcessor) (w : World) (seen : Z) : World :=
  match avail_event_addr q with
  | Some a => write_mem_ w (le_encode 2 seen) a
  | None => w
  end.

(** The outer [loop], one step of fuel per pass. *)
Fixpoint descriptors_outer (fuel : nat) (q : VirtQueueProcessor) (w : World) (h : H)
    (processed : Z) : option (VirtQueueProcessor * World * H * Z) :=
  match fuel with
  | O => None
  | S fuel' =>
      match read_avail_idx (w_mem w) (avail_ring_addr (config q)) with
      | None => Some (q, w, h, processed)
      | Some avail =>
          match descriptors_loop (Z.to_nat (u16_wrapping_sub avail (last_avail_idx q)))
                  avail q w h processed with
          | None => None
          | Some (q1, w1, h1, processed1, stopped) =>
              let w2 := publish_used_idx q1 w1 in
              if negb (event_idx q1) then Some (q1, w2, h1, processed1)
              else
                let w3 := publish_avail_event q1 w2 (last_avail_idx q1) in
                if stopped then Some (q1, w3, h1, processed1)
                else match (let?o a := avail_idx_addr q1 in read_u16 (w_mem w3) a) with
                | Some idx =>
                    if negb (idx =? last_avail_idx q1)
                    then descriptors_outer fuel' q1 w3 h1 processed1
                    else Some (q1, w3, h1, processed1)
                | None => Some (q1, w3, h1, processed1)
                end
          end
      end
  end.

Definition process_queue_descriptors_dirty (fuel : nat) (q : VirtQueueProcessor) (w : World) (h : H)
    : option (VirtQueueProcessor * World * H * Z) :=
  if negb (queue_is_usable q (w_mem w)) then Some (q, w, h, 0)
  else descriptors_outer fuel q w h 0.

End process_queue_descriptors.

(** ** Peeking at receive buffers *)

Definition sum_lens (bufs : list (Z * Z)) : Z := foldr (fun b acc => b.2 + acc) 0 bufs.

Definition peeked_have (p : list PeekedChain) : Z := foldr (fun c acc => capacity c + acc) 0 p.

(** [walk_descriptor_chain(..).filter(..)]: only all-writable chains. *)
Definition walk_writable (c : QueueConfig) (m : M) (hd : Z) : option DescriptorChain :=
  match walk_descriptor_chain c m hd with
  | Some chain =>
      match readable chain, writable chain with
      | [], _ :: _ => Some chain
      | _, _ => None
      end
  | None => None
  end.

(** The head at ring position [position]. *)
Definition read_head (c : QueueConfig) (m : M) (position : Z) : option Z :=
  let slot := position mod size c in
  let?o off := u64_checked_add 4 (slot * 2) in
  let?o a := u64_checked_add (avail_ring_addr c) off in
  read_u16 m a.

Fixpoint peek_loop (fuel : nat) (m : M) (avail want have : Z) (q : VirtQueueProcessor)
    : option VirtQueueProcessor :=
  let n := Z.of_nat (length (peeked q)) mod 65536 in
  if negb ((have <? want)
           && (n <? Z.min (u16_wrapping_sub avail (last_avail_idx q)) (size (config q))))
  then Some q
  else match fuel with
  | O => None
  | S fuel' =>
      match read_head (config q) m (u16_wrapping_add (last_avail_idx q) n) with
      | None => Some q
      | Some hd =>
          match walk_writable (config q) m hd with
          | Some chain =>
              let cap := sum_lens (writable chain) in
              peek_loop fuel' m avail want (have + cap)
                (set_peeked q (peeked q ++ [mkPeeked hd (writable chain) cap]))
          | None =>
              match peeked q with
              | [] => peek_loop fuel' m avail want have (reject_available_chain q)
              | _ => Some q
              end
          end
      end
  end.

(** The peeked chains are the field [peeked] of the result. *)
Definition peek_writable (q : VirtQueueProcessor) (m : M) (want : Z) : option VirtQueueProcessor :=
  if negb (queue_is_usable q m) then Some (set_peeked q [])
  else match (let?o a := avail_idx_addr q in read_u16 m a) with
  | None => Some q
  | Some avail =>
      peek_loop (Z.to_nat (2 * u16_wrapping_sub avail (last_avail_idx q)))
        m avail want (peeked_have (peeked q)) q
  end.

Fixpoint use_peeked (q : VirtQueueProcessor) (w : World) (lens : list Z)
    : VirtQueueProcessor * World :=
  match lens with
  | [] => (q, w)
  | len :: lens' =>
      match peeked q with
      | [] => (q, w)
      | chain :: rest =>
          let w1 :=
            match used_entry_addr q with
            | Some a => write_mem_ w (encode_used_elem (head chain) len) a
            | None => w
            end in
          use_peeked (advance_used (set_peeked q rest)) w1 lens'
      end
  end.

Definition publish_used (q : VirtQueueProcessor) (w : World) : World * bool :=
  let w1 := publish_used_idx q w in
  if negb (event_idx q) then (w1, false)
  else
    let seen := u16_wrapping_add (last_avail_idx q) (Z.of_nat (length (peeked q)) mod 65536) in
    let w2 := publish_avail_event q w1 seen in
    (w2, match (let?o a := avail_idx_addr q in read_u16 (w_mem w2) a) with
         | Some idx => negb (idx =? seen)
         | None => false
         end).

End processor.

Arguments World : clear implicits.
