(* ===== verification/VQueueWalk.v ===== *)
(** * Descriptor chains: what [walk_descriptor_chain] accepts

    Two views of the walk of [VQueue]. Against a guest that changes its
    descriptors while they are read, the walk is bounded and every buffer it
    returns was checked. On memory that stays put, it accepts exactly the
    finite chains whose descriptors are acceptable; the length bound rejects
    the cyclic ones and nothing else. *)

From S2P Require Import Prelude Dirty GuestMem GuestRam VQueue.

(** A descriptor the walk can take into a chain. *)
Definition desc_acceptable {M : Type} `{!GuestMemoryBackend M} (m : M) (d : Descriptor) : Prop :=
  has_bits (desc_flags d) INDIRECT = false ∧ desc_len d ≤ MAX_DESC_LEN ∧
  guest_range_is_valid m (desc_addr d) (desc_len d) = true.

Definition desc_buf (d : Descriptor) : Z * Z := (desc_addr d, desc_len d).
Definition is_writable (d : Descriptor) : bool := has_bits (desc_flags d) WRITE.
Definition has_next (d : Descriptor) : bool := has_bits (desc_flags d) NEXT.

(** The chain as it is read, the first descriptor by the [k]-th read: indices
    with their descriptors, following [next] from each that has the flag. *)
Inductive chain_trace (rd : nat → Z → option Descriptor) (c : QueueConfig)
    : nat → Z → list (Z * Descriptor) → Prop :=
| trace_last k i a d :
    0 ≤ i < size c → desc_entry_addr c i = Some a → rd k a = Some d → has_next d = false →
    chain_trace rd c k i [(i, d)]
| trace_next k i a d p :
    0 ≤ i < size c → desc_entry_addr c i = Some a → rd k a = Some d → has_next d = true →
    chain_trace rd c (S k) (desc_next d) p →
    chain_trace rd c k i ((i, d) :: p).

(** The chain of memory that does not change under the walk. *)
Definition chain_path {M : Type} `{!GuestMemoryBackend M} (m : M) (c : QueueConfig)
    (i : Z) (p : list (Z * Descriptor)) : Prop :=
  chain_trace (fun _ a => read_descriptor m a) c 0 i p.

(** The fields of the descriptors a read returns are in range. *)
Definition desc_in_range (d : Descriptor) : Prop :=
  in_u64 (desc_addr d) ∧ in_u32 (desc_len d) ∧ in_u16 (desc_flags d) ∧ in_u16 (desc_next d).

Definition reads_in_range (rd : nat → Z → option Descriptor) : Prop :=
  ∀ k a d, rd k a = Some d → desc_in_range d.

(** The chain a path is collected into. *)
Definition readable_of (ds : list Descriptor) : list (Z * Z) :=
  desc_buf <$> filter (fun d => is_writable d = false) ds.
Definition writable_of (ds : list Descriptor) : list (Z * Z) :=
  desc_buf <$> filter (fun d => is_writable d = true) ds.
Definition chain_of (ds : list Descriptor) : DescriptorChain :=
  mkChain (readable_of ds) (writable_of ds) (Z.of_nat (length ds)).

Definition total_len (ds : list Descriptor) : Z := sum_lens (desc_buf <$> ds).

Section walk.
Context {M : Type} `{!GuestMemoryBackend M}.
Implicit Types (m : M) (c : QueueConfig).

(** One step of the walk on an acceptable descriptor. *)
Lemma walk_loop_step fuel rd c m i rds wrs cb len :
  walk_loop (S fuel) rd c m i rds wrs cb len =
  if (size c <=? i) || (size c <=? Z.of_nat len) then Some None
  else match desc_entry_addr c i with
  | None => Some None
  | Some a =>
      match rd len a with
      | None => Some None
      | Some d =>
          if has_bits (desc_flags d) INDIRECT || (MAX_DESC_LEN <? desc_len d)
             || (match u64_checked_add cb (desc_len d) with
                 | None => true | Some n => MAX_CHAIN_BYTES <? n end)
             || negb (guest_range_is_valid m (desc_addr d) (desc_len d))
          then Some None
          else
            let rds' := if is_writable d then rds else rds ++ [desc_buf d] in
            let wrs' := if is_writable d then wrs ++ [desc_buf d] else wrs in
            if has_next d then walk_loop fuel rd c m (desc_next d) rds' wrs' (cb + desc_len d) (S len)
            else Some (Some (mkChain rds' wrs' (Z.of_nat (S len))))
      end
  end.
Proof.
  cbn [walk_loop]. unfold is_writable, has_next, desc_buf.
  destruct (size c <=? i); [done|]. destruct (size c <=? Z.of_nat len); [done|].
  cbn [orb]. destruct (desc_entry_addr c i) as [a|]; [|done].
  destruct (rd len a) as [d|]; [|done].
  destruct (has_bits (desc_flags d) INDIRECT); [done|].
  destruct (MAX_DESC_LEN <? desc_len d); [done|].
  destruct (u64_checked_add cb (desc_len d)) as [n|] eqn:E; [|done].
  apply u64_checked_add_Some in E as [-> _]. cbn [orb].
  destruct (MAX_CHAIN_BYTES <? _); [done|]. cbn [orb].
  destruct (guest_range_is_valid m _ _); cbn [negb]; [|done].
  by destruct (has_bits (desc_flags d) NEXT).
Qed.

(** The fuel of [walk_with] is enough whatever the guest does. *)
Lemma walk_loop_total fuel : ∀ rd c m i rds wrs cb len,
  (0 < fuel)%nat → size c - Z.of_nat len < Z.of_nat fuel →
  walk_loop fuel rd c m i rds wrs cb len ≠ None.
Proof.
  induction fuel as [|fuel IH]; intros rd c m i rds wrs cb len Hp Hf; [lia|].
  rewrite walk_loop_step. destruct (_ || _) eqn:E; [done|]. bool_to_prop.
  repeat (case_goal; try done); apply IH; lia.
Qed.

Lemma readable_of_cons d ds :
  readable_of (d :: ds) = (if is_writable d then [] else [desc_buf d]) ++ readable_of ds.
Proof. unfold readable_of. rewrite filter_cons. by destruct (is_writable d). Qed.

Lemma writable_of_cons d ds :
  writable_of (d :: ds) = (if is_writable d then [desc_buf d] else []) ++ writable_of ds.
Proof. unfold writable_of. rewrite filter_cons. by destruct (is_writable d). Qed.

#[local] Arguments readable_of : simpl never.
#[local] Arguments writable_of : simpl never.
#[local] Arguments total_len : simpl never.

Lemma total_len_cons d ds : total_len (d :: ds) = desc_len d + total_len ds.
Proof. done. Qed.

Lemma total_len_nonneg ds : Forall desc_in_range ds → 0 ≤ total_len ds.
Proof.
  induction 1 as [|d ds (_ & Hl & _) _ IH]; [done|]. rewrite total_len_cons.
  unfold in_u32 in Hl. lia.
Qed.

Lemma trace_in_range rd c k i p :
  reads_in_range rd → chain_trace rd c k i p → Forall desc_in_range p.*2.
Proof. intros Hrd. induction 1; simpl; constructor; eauto. Qed.

Lemma trace_nonempty rd c k i p : chain_trace rd c k i p → (0 < length p)%nat.
Proof. destruct 1; simpl; lia. Qed.

(** The guard of one step, as a proposition. *)
Lemma walk_guard m cb d :
  0 ≤ cb → cb ≤ MAX_CHAIN_BYTES → desc_in_range d →
  has_bits (desc_flags d) INDIRECT || (MAX_DESC_LEN <? desc_len d)
  || (match u64_checked_add cb (desc_len d) with
      | None => true | Some n => MAX_CHAIN_BYTES <? n end)
  || negb (guest_range_is_valid m (desc_addr d) (desc_len d)) = false ↔
  desc_acceptable m d ∧ cb + desc_len d ≤ MAX_CHAIN_BYTES.
Proof.
  intros Hc Hm (_ & Hl & _). unfold in_u32 in Hl. unfold desc_acceptable.
  rewrite (proj2 (u64_checked_add_Some cb (desc_len d) _))
    by (split; [done|unfold MAX_CHAIN_BYTES, U64_MAX, U32_MAX in *; lia]).
  rewrite !orb_false_iff, !Z.ltb_ge, negb_false_iff. tauto.
Qed.

(** The walk from an intermediate state, as a property of the trace. *)
Lemma walk_loop_trace fuel : ∀ rd c m i rds wrs cb len ch,
  reads_in_range rd → 0 ≤ i → 0 ≤ cb ≤ MAX_CHAIN_BYTES →
  size c - Z.of_nat len < Z.of_nat fuel →
  walk_loop fuel rd c m i rds wrs cb len = Some (Some ch) ↔
  ∃ p, chain_trace rd c len i p ∧ Forall (desc_acceptable m) p.*2 ∧
    cb + total_len p.*2 ≤ MAX_CHAIN_BYTES ∧ Z.of_nat len + Z.of_nat (length p) ≤ size c ∧
    ch = mkChain (rds ++ readable_of p.*2) (wrs ++ writable_of p.*2)
           (Z.of_nat len + Z.of_nat (length p)).
Proof.
  induction fuel as [|fuel IH]; intros rd c m i rds wrs cb len ch Hrd Hi Hcb Hf.
  { split; [done|]. intros (p & Ht & _ & _ & ? & _). apply trace_nonempty in Ht. lia. }
  rewrite walk_loop_step. split.
  - destruct (_ || _) eqn:Eb; [done|]. bool_to_prop.
    destruct (desc_entry_addr c i) as [a|] eqn:Ea; [|done].
    destruct (rd len a) as [d|] eqn:Ed; [|done]. pose proof (Hrd _ _ _ Ed) as Hd.
    destruct (_ || _ || _ || _) eqn:Eg; [done|].
    apply walk_guard in Eg as [Hacc Hsum]; [|lia..|done].
    destruct (has_next d) eqn:En.
    + intros Hw. apply IH in Hw as (p & Ht & Hf' & Hs' & Hl' & ->);
        [|done|destruct Hd; unfold in_u16 in *; lia|destruct Hd as (_ & ? & _); unfold in_u32 in *; lia|lia].
      exists ((i, d) :: p). rewrite fmap_cons, length_cons. cbn [snd]. split; [by eapply trace_next|].
      split; [by constructor|]. rewrite total_len_cons, readable_of_cons, writable_of_cons.
      split; [lia|]. split; [lia|]. destruct (is_writable d); simpl; rewrite <- ?app_assoc; f_equal; lia.
    + intros [= <-]. exists [(i, d)]. rewrite fmap_cons, fmap_nil, length_cons. cbn [snd length]. split; [by eapply trace_last|].
      split; [by apply Forall_singleton|]. rewrite total_len_cons, readable_of_cons, writable_of_cons.
      split; [unfold total_len; simpl; lia|]. split; [lia|].
      destruct (is_writable d); simpl; rewrite ?app_nil_r; f_equal; lia.
  - intros (p & Ht & Hacc & Hs & Hl & ->). pose proof (trace_nonempty _ _ _ _ _ Ht).
    pose proof (trace_in_range _ _ _ _ _ Hrd Ht) as Hr.
    inversion Ht as [k i' a d Hir Ha Hd Hn|k i' a d p' Hir Ha Hd Hn Ht']; subst;
      rewrite fmap_cons, length_cons in *; cbn [snd] in *.
    all: rewrite (proj2 (Z.leb_gt (size c) i)) by lia.
    all: rewrite (proj2 (Z.leb_gt (size c) (Z.of_nat len))) by lia.
    all: cbn [orb]; rewrite Ha, Hd; rewrite total_len_cons in Hs.
    all: apply Forall_cons in Hacc as [Hacc1 Hacc2]; apply Forall_cons in Hr as [Hr1 Hr2].
    all: pose proof (total_len_nonneg _ Hr2).
    all: rewrite (proj2 (walk_guard m cb d ltac:(lia) ltac:(lia) Hr1)) by (split; [done|lia]).
    all: rewrite Hn, readable_of_cons, writable_of_cons.
    + unfold readable_of, writable_of. destruct (is_writable d); simpl;
        rewrite ?app_nil_r; do 3 f_equal; lia.
    + apply IH; [done|destruct Hr1; unfold in_u16 in *; lia|destruct Hr1 as (_ & ? & _); unfold in_u32 in *; lia|lia|].
      exists p'. repeat split; auto; try lia.
      destruct (is_writable d); simpl; rewrite <- ?app_assoc; f_equal; lia.
Qed.

(** ** Chains of memory that stays put *)

Lemma chain_path_step m c k i p :
  chain_trace (fun _ a => read_descriptor m a) c k i p → chain_path m c i p.
Proof.
  unfold chain_path. generalize O. revert i k.
  assert (Hk : ∀ k k' i, chain_trace (fun _ a => read_descriptor m a) c k i p →
    chain_trace (fun _ a => read_descriptor m a) c k' i p); [|eauto].
  induction p as [|[j d] p IH]; intros k k' i Ht; inversion Ht; subst;
    [by eapply trace_last|eapply trace_next; eauto].
Qed.

Lemma chain_path_det m c i p q : chain_path m c i p → chain_path m c i q → p = q.
Proof.
  revert i q. induction p as [|[j d] p IH]; intros i q Hp Hq; [inversion Hp|].
  inversion Hp; inversion Hq; subst; simplify_eq; try congruence.
  f_equal. eapply IH; eapply chain_path_step; eauto.
Qed.

(** From each index on the path, the rest of the path is that index's path. *)
Lemma chain_path_suffix m c i p j :
  chain_path m c i p → j ∈ p.*1 → ∃ q, chain_path m c j q ∧ (length q ≤ length p)%nat.
Proof.
  revert i. induction p as [|[i' d] p IH]; intros i Hp Hj; [inversion Hp|].
  assert (i' = i) as -> by (by inversion Hp).
  rewrite fmap_cons in Hj. apply elem_of_cons in Hj as [->|Hj].
  - by exists ((i, d) :: p).
  - inversion Hp as [|k0 i0 a0 d0 p0 _ _ _ _ Hp']; subst; [by apply not_elem_of_nil in Hj|].
    apply chain_path_step in Hp'. destruct (IH _ Hp' Hj) as (q & Hq & ?).
    exists q. split; [done|]. simpl. lia.
Qed.

Lemma chain_path_NoDup m c i p : chain_path m c i p → NoDup p.*1.
Proof.
  revert i. induction p as [|[i' d] p IH]; intros i Hp; [constructor|].
  assert (i' = i) as -> by (by inversion Hp). rewrite fmap_cons. simpl.
  inversion Hp as [|k0 i0 a0 d0 p0 _ _ _ _ Hp']; subst; [apply NoDup_singleton|].
  apply chain_path_step in Hp'. apply NoDup_cons. split; [|by eapply IH].
  intros Hin. destruct (chain_path_suffix _ _ _ _ _ Hp' Hin) as (q & Hq & Hl).
  rewrite (chain_path_det _ _ _ _ _ Hq Hp) in Hl. simpl in Hl. lia.
Qed.

Lemma chain_path_index m c i p j : chain_path m c i p → j ∈ p.*1 → 0 ≤ j < size c.
Proof.
  revert i. induction p as [|[i' d] p IH]; intros i Hp Hj; [by apply not_elem_of_nil in Hj|].
  rewrite fmap_cons in Hj. apply elem_of_cons in Hj as [->|Hj]; [by inversion Hp|].
  inversion Hp as [|k0 i0 a0 d0 p0 _ _ _ _ Hp']; subst; [by apply not_elem_of_nil in Hj|].
  eapply IH; [by eapply chain_path_step|done].
Qed.

(** A finite chain visits each descriptor at most once. *)
Lemma chain_path_length m c i p : chain_path m c i p → Z.of_nat (length p) ≤ size c.
Proof.
  intros Hp. destruct (decide (size c < 0)) as [|Hs].
  { inversion Hp; lia. }
  assert (p.*1 ⊆+ seqZ 0 (size c)) as Hsub.
  { apply NoDup_submseteq; [by eapply chain_path_NoDup|].
    intros j Hj. apply elem_of_seqZ. by eapply chain_path_index in Hj. }
  apply submseteq_length in Hsub. rewrite length_fmap, length_seqZ in Hsub. lia.
Qed.

Context `{!GuestMemoryLaws M}.

Lemma read_descriptor_in_range m : reads_in_range (fun _ a => read_descriptor m a).
Proof.
  intros _ a d. unfold read_descriptor.
  destruct (gm_read_slice m a DESC_SIZE) as [bs|] eqn:E; [|done]. intros [= <-].
  assert (length bs = 16%nat) by (apply gm_read_Some_len in E; unfold DESC_SIZE in *; lia).
  apply gm_read_Some_bytes in E; [|done].
  assert (Hf : ∀ off n, (off + n ≤ 16)%nat →
    0 ≤ le_decode (slice off n bs) < 256 ^ Z.of_nat n).
  { intros off n Hn. pose proof (le_decode_bound (slice off n bs)) as Hb.
    rewrite length_slice in Hb by lia. auto with tarit. }
  pose proof (Hf 0%nat 8%nat ltac:(lia)). pose proof (Hf 8%nat 4%nat ltac:(lia)).
  pose proof (Hf 12%nat 2%nat ltac:(lia)). pose proof (Hf 14%nat 2%nat ltac:(lia)).
  unfold desc_in_range, decode_descriptor, in_u64, in_u32, in_u16, U64_MAX, U32_MAX, U16_MAX.
  simpl. lia.
Qed.

(** What the walk returns, as a property of what it read. *)
Lemma walk_with_iff rd c m hd ch :
  reads_in_range rd → 0 ≤ hd →
  walk_with rd c m hd = Some ch ↔
  ∃ p, chain_trace rd c 0 hd p ∧ Forall (desc_acceptable m) p.*2 ∧
    total_len p.*2 ≤ MAX_CHAIN_BYTES ∧ Z.of_nat (length p) ≤ size c ∧ ch = chain_of p.*2.
Proof.
  intros Hrd Hh. unfold walk_with. destruct (size c <=? hd) eqn:E; bool_to_prop.
  { split; [done|]. intros (p & Ht & _). inversion Ht; lia. }
  pose proof (walk_loop_trace (S (Z.to_nat (size c))) rd c m hd [] [] 0 0 ch
    Hrd Hh ltac:(done) ltac:(lia)) as Hw.
  destruct (walk_loop _ _ _ _ _ _ _ _ _) as [r|] eqn:El.
  - transitivity (Some r = Some (Some ch)); [split; congruence|]. rewrite Hw.
    unfold chain_of. setoid_rewrite length_fmap. done.
  - split; [done|]. intros (p & Ht & Hf & Hs & Hl & ->). exfalso.
    revert El. apply walk_loop_total; lia.
Qed.

Lemma elem_of_buffers ds b :
  b ∈ readable_of ds ++ writable_of ds ↔ ∃ d, d ∈ ds ∧ b = desc_buf d.
Proof.
  unfold readable_of, writable_of. rewrite elem_of_app, !list_elem_of_fmap.
  setoid_rewrite list_elem_of_filter. split; [naive_solver|].
  intros (d & Hd & ->). destruct (is_writable d) eqn:E; [right|left]; eauto.
Qed.

Lemma length_buffers ds : length (readable_of ds ++ writable_of ds) = length ds.
Proof.
  induction ds as [|d ds IH]; [done|]. rewrite readable_of_cons, writable_of_cons.
  rewrite !length_app in *. destruct (is_writable d); simpl; lia.
Qed.

Lemma sum_lens_app l1 l2 : sum_lens (l1 ++ l2) = sum_lens l1 + sum_lens l2.
Proof. induction l1; simpl; [done|]. unfold sum_lens in *. simpl. lia. Qed.

Lemma sum_buffers ds : sum_lens (readable_of ds ++ writable_of ds) = total_len ds.
Proof.
  induction ds as [|d ds IH]; [done|]. rewrite readable_of_cons, writable_of_cons, total_len_cons.
  rewrite !sum_lens_app in *. destruct (is_writable d); unfold sum_lens at 1 3; simpl; lia.
Qed.

End walk.

(** ** The claims *)

(** C5: Whatever a running guest stores in its descriptor table while the
    device reads it, the walk terminates within its fuel, and a chain it
    returns has at most [size] descriptors and 4 MiB in total; every buffer is
    at most 1 MiB, passed the guest range check, and belongs to a descriptor
    that was read, split by its write flag. *)
Theorem walk_bounded_under_races {M : Type} `{!GuestMemoryBackend M}
    (rd : nat → Z → option Descriptor) c (m : M) hd :
  reads_in_range rd → 0 ≤ hd →
  walk_loop (S (Z.to_nat (size c))) rd c m hd [] [] 0 0 ≠ None ∧
  ∀ ch, walk_with rd c m hd = Some ch →
    let bufs := readable ch ++ writable ch in
    1 ≤ chain_len ch ≤ size c ∧ Z.of_nat (length bufs) = chain_len ch ∧
    sum_lens bufs ≤ MAX_CHAIN_BYTES ∧
    Forall (fun b => b.2 ≤ MAX_DESC_LEN ∧ guest_range_is_valid m b.1 b.2 = true) bufs ∧
    ∃ p, chain_trace rd c 0 hd p ∧ ch = chain_of p.*2.
Proof.
  intros Hrd Hh. split; [apply walk_loop_total; lia|].
  intros ch Hw. apply walk_with_iff in Hw as (p & Ht & Hf & Hs & Hl & ->); [|done..].
  pose proof (trace_nonempty _ _ _ _ _ Ht). cbn [chain_of readable writable chain_len].
  rewrite length_buffers, sum_buffers, length_fmap. split_and!; [lia..|done|done| |eauto].
  apply Forall_forall. intros b Hb. apply elem_of_buffers in Hb as (d & Hd & ->).
  rewrite Forall_forall in Hf. destruct (Hf d Hd) as (_ & ? & ?). done.
Qed.

(** C21: On memory that stays put the walk accepts exactly the finite chains
    from the head index whose descriptors are all acceptable (not indirect, at
    most 1 MiB, inside guest memory) and whose lengths sum to at most 4 MiB,
    and returns their buffers in chain order. The bound on the number of
    descriptors therefore rejects cyclic chains and nothing else. *)
Theorem walk_accepts_exactly {M : Type} `{!GuestMemoryBackend M} `{!GuestMemoryLaws M}
    c (m : M) hd ch :
  0 ≤ hd →
  walk_descriptor_chain c m hd = Some ch ↔
  ∃ p, chain_path m c hd p ∧ Forall (desc_acceptable m) p.*2 ∧
    total_len p.*2 ≤ MAX_CHAIN_BYTES ∧ ch = chain_of p.*2.
Proof.
  intros Hh. unfold walk_descriptor_chain.
  rewrite walk_with_iff by (auto using read_descriptor_in_range).
  split; intros (p & Hp & Hf & Hs & Hr); exists p; [naive_solver|].
  pose proof (chain_path_length _ _ _ _ Hp). naive_solver.
Qed.

(** ** A two-entry queue in 192 bytes of memory

    Descriptor 0 is a four-byte device-readable buffer chained to descriptor
    1, a one-byte device-writable one; the available ring publishes it. *)
Module ExampleQueue.

Definition encode_desc (d : Descriptor) : list Z :=
  le_encode 8 (desc_addr d) ++ le_encode 4 (desc_len d) ++
  le_encode 2 (desc_flags d) ++ le_encode 2 (desc_next d).

Definition desc0 : Descriptor := mkDesc 128 4 NEXT 1.
Definition desc1 : Descriptor := mkDesc 160 1 WRITE 0.
Definition cfg : QueueConfig := mkQueueConfig 2 0 64 96 true.
Definition mem : gmap Z Z :=
  ByteMap.store (ByteMap.store (ByteMap.zeros 0 192) 0 (encode_desc desc0 ++ encode_desc desc1))
    64 [0; 0; 1; 0; 0; 0].

(** A guest that changes the table after the first read. *)
Definition racing (k : nat) (a : Z) : option Descriptor :=
  Some (match k with O => desc0 | _ => desc1 end).

Lemma racing_in_range : reads_in_range racing.
Proof.
  intros [|k] a d [= <-]; unfold desc_in_range, in_u64, in_u32, in_u16; simpl; vm_compute;
    intuition discriminate.
Qed.

End ExampleQueue.

Lemma walk_bounded_under_races_witness :
  ∃ ch, walk_with ExampleQueue.racing ExampleQueue.cfg ExampleQueue.mem 0 = Some ch ∧
    1 ≤ chain_len ch ≤ 2 ∧ sum_lens (readable ch ++ writable ch) ≤ MAX_CHAIN_BYTES.
Proof.
  eexists. split; [vm_compute; reflexivity|].
  pose proof (walk_bounded_under_races ExampleQueue.racing ExampleQueue.cfg ExampleQueue.mem 0
    ExampleQueue.racing_in_range (Z.le_refl 0)) as [_ H].
  specialize (H _ ltac:(vm_compute; reflexivity)) as (H1 & _ & H2 & _). exact (conj H1 H2).
Defined.

Lemma walk_accepts_exactly_witness :
  ∃ ch p, walk_descriptor_chain ExampleQueue.cfg ExampleQueue.mem 0 = Some ch ∧
    chain_path ExampleQueue.mem ExampleQueue.cfg 0 p ∧ ch = chain_of p.*2.
Proof.
  eexists. assert (walk_descriptor_chain ExampleQueue.cfg ExampleQueue.mem 0 =
    Some (mkChain [(128, 4)] [(160, 1)] 2)) as E by (vm_compute; reflexivity).
  pose proof (proj1 (walk_accepts_exactly ExampleQueue.cfg ExampleQueue.mem 0 _ (Z.le_refl 0)) E)
    as (p & Hp & _ & _ & Hc).
  exists p. exact (conj E (conj Hp Hc)).
Defined.
