(* ===== verification/VQueueRun.v ===== *)
(** * Running a virtqueue: what [process_queue_dirty] does

    A pass over the queue terminates, consumes every published entry, keeps
    the dirty tracker ahead of guest memory, and, for a driver that keeps its
    buffers apart from its rings, reports each accepted chain exactly once and
    in order. *)

From S2P Require Import Prelude Dirty GuestMem GuestRam VQueue VQueueWalk.

(** The bytes of the region table never change, and what changed in memory
    is recorded if there is a tracker. *)
Definition tracked {M : Type} `{!GuestMemoryBackend M} (w w' : World M) : Prop :=
  (∀ x n, gm_check_range (w_mem w') x n = gm_check_range (w_mem w) x n) ∧
  match w_dirty w, w_dirty w' with
  | Some d, Some d' => dirty_le d d' ∧ dirty_covers (w_mem w) (w_mem w') d'
  | None, None => True
  | _, _ => False
  end.

(** Memory outside [P] is the same. *)
Definition changes_only {M : Type} `{!GuestMemoryBackend M} (P : Z → Prop) (m m' : M) : Prop :=
  ∀ x, byte_at m' x ≠ byte_at m x → P x.

(** The bytes of a list of buffers. *)
Definition in_bufs (bufs : list (Z * Z)) (x : Z) : Prop :=
  ∃ b, b ∈ bufs ∧ b.1 ≤ x < b.1 + b.2.

(** Buffers that do not overlap. *)
Fixpoint bufs_disjoint (bufs : list (Z * Z)) : Prop :=
  match bufs with
  | [] => True
  | b :: bufs' => (∀ x, b.1 ≤ x < b.1 + b.2 → ¬ in_bufs bufs' x) ∧ bufs_disjoint bufs'
  end.

(** The byte the status goes to: the first of the last writable buffer, also
    when that buffer is empty. *)
Definition status_byte_of (ch : DescriptorChain) (x : Z) : Prop :=
  ∃ b, last (writable ch) = Some b ∧ x = b.1.

Definition valid_buf {M : Type} `{!GuestMemoryBackend M} (m : M) (b : Z * Z) : Prop :=
  0 ≤ b.1 ∧ 0 ≤ b.2 ∧ guest_range_is_valid m b.1 b.2 = true.

(** The ring addresses at positions of a queue. *)
Definition avail_slot_addr (c : QueueConfig) (i : Z) : Z := avail_ring_addr c + 4 + i mod size c * 2.
Definition used_slot_addr (c : QueueConfig) (i : Z) : Z := used_ring_addr c + 4 + i mod size c * 8.

(** What [queue_is_usable] checks. *)
Definition rings_ok {M : Type} `{!GuestMemoryBackend M} (c : QueueConfig) (m : M) : Prop :=
  1 ≤ size c ≤ 1024 ∧ (size c | 65536) ∧
  gm_check_range m (desc_table_addr c) (size c * 16) = true ∧
  gm_check_range m (avail_ring_addr c) (4 + size c * 2) = true ∧
  gm_check_range m (used_ring_addr c) (4 + size c * 8) = true.

(** The bytes of the descriptor table and of the rings. *)
Definition table_or_avail (c : QueueConfig) (x : Z) : Prop :=
  desc_table_addr c ≤ x < desc_table_addr c + size c * 16 ∨
  avail_ring_addr c ≤ x < avail_ring_addr c + (4 + size c * 2).
Definition used_ring_byte (c : QueueConfig) (x : Z) : Prop :=
  used_ring_addr c ≤ x < used_ring_addr c + (4 + size c * 8).

(** A driver that keeps the used ring apart from what the device reads, and
    its writable buffers apart from both. *)
Definition separated {M : Type} `{!GuestMemoryBackend M} (c : QueueConfig) (m : M) : Prop :=
  (∀ x, used_ring_byte c x → ¬ table_or_avail c x) ∧
  ∀ hd ch x, 0 ≤ hd → walk_descriptor_chain c m hd = Some ch →
    in_bufs (writable ch) x ∨ status_byte_of ch x → ¬ table_or_avail c x ∧ ¬ used_ring_byte c x.

(** The [n] heads published from position [from] on, and those among
    them whose chain the device accepts, with the length of the chain. *)
Fixpoint published {M : Type} `{!GuestMemoryBackend M} (m : M) (c : QueueConfig) (from : Z)
    (n : nat) : list Z :=
  match n with
  | O => []
  | S n' =>
      match read_u16 m (avail_slot_addr c from) with
      | Some hd => hd :: published m c (u16_wrapping_add from 1) n'
      | None => []
      end
  end.
Definition accepted {M : Type} `{!GuestMemoryBackend M} (m : M) (c : QueueConfig) (hds : list Z)
    : list (Z * Z) :=
  omap (fun hd => (fun ch => (hd, chain_len ch)) <$> walk_descriptor_chain c m hd) hds.

(** From [m] to [m'] the used ring changes at the slots from position [u] on
    alone, and these come to hold the (head, length) pairs [acc], in order. *)
Definition reports {M : Type} `{!GuestMemoryBackend M} (c : QueueConfig) (u : Z)
    (acc : list (Z * Z)) (m m' : M) : Prop :=
  changes_only (fun x => ¬ used_ring_byte c x ∨
    ∃ j : nat, (j < length acc)%nat ∧
      let a := used_slot_addr c (u16_wrapping_add u (Z.of_nat j)) in a ≤ x < a + 8) m m' ∧
  ∀ (j : nat) hd len, acc !! j = Some (hd, len) →
    gm_read_slice m' (used_slot_addr c (u16_wrapping_add u (Z.of_nat j))) 8 =
    Some (encode_used_elem hd len).

Section run.
Context {M : Type} `{!GuestMemoryBackend M} `{!GuestMemoryLaws M}.
Implicit Types (m : M) (w : World M) (q : VirtQueueProcessor) (c : QueueConfig).

#[export] Instance tracked_preorder : PreOrder tracked.
Proof.
  split.
  - intros w. split; [done|]. destruct (w_dirty w); [|done].
    split; [done|apply dirty_covers_refl].
  - intros w1 w2 w3 [Hc1 H1] [Hc2 H2]. split; [congruence|].
    destruct (w_dirty w1), (w_dirty w2), (w_dirty w3); try done.
    destruct H1 as [Hl1 Hd1], H2 as [Hl2 Hd2].
    split; [by transitivity t0|]. by eapply dirty_covers_trans.
Qed.

#[export] Instance changes_only_refl P : Reflexive (changes_only (M:=M) P).
Proof. intros m x Hx. by destruct Hx. Qed.

Lemma changes_only_trans (P : Z → Prop) m1 m2 m3 :
  changes_only P m1 m2 → changes_only P m2 m3 → changes_only P m1 m3.
Proof.
  intros H1 H2 x Hx. destruct (decide (byte_at m2 x = byte_at m1 x)) as [E|E]; [|by apply H1].
  apply H2. by rewrite E.
Qed.

Lemma changes_only_mono (P Q : Z → Prop) m1 m2 :
  changes_only P m1 m2 → (∀ x, P x → Q x) → changes_only Q m1 m2.
Proof. intros H HPQ x Hx. auto. Qed.

(** A read outside what changed is the same. *)
Lemma read_outside (P : Z → Prop) m m' a n :
  0 < n → changes_only P m m' → (∀ x, a ≤ x < a + n → ¬ P x) →
  gm_read_slice m' a n = gm_read_slice m a n.
Proof.
  intros Hn Hc Ho. apply gm_read_ext; [done|]. intros i Hi.
  destruct (decide (byte_at m' i = byte_at m i)) as [|Hne]; [done|].
  by destruct (Ho i Hi (Hc i Hne)).
Qed.

(** ** One write *)

Lemma write_mem_mem w bs a : w_mem (write_mem_ w bs a) = (gm_write_slice (w_mem w) a bs).2.
Proof. unfold write_mem_, write_mem. by destruct (gm_write_slice (w_mem w) a bs) as [[] m]. Qed.

Lemma write_mem_changes w bs a :
  changes_only (fun x => a ≤ x < a + Z.of_nat (length bs)) (w_mem w) (w_mem (write_mem_ w bs a)).
Proof.
  intros x Hx. rewrite write_mem_mem in Hx.
  destruct (decide (a ≤ x < a + Z.of_nat (length bs))); [done|].
  destruct Hx. by apply gm_write_frame.
Qed.

(** A write to a valid range succeeds and is marked; a one-byte write to an
    invalid address changes nothing. *)
Lemma write_mem_tracked w size bs a :
  laid_out (w_mem w) size →
  gm_check_range (w_mem w) a (Z.of_nat (length bs)) = true ∨ length bs = 1%nat →
  bs ≠ [] → tracked w (write_mem_ w bs a).
Proof.
  intros Hlay Hr Hne. split; [intros; by rewrite write_mem_mem, gm_write_check|].
  pose proof (gm_write_ok (w_mem w) a bs Hne) as Hok.
  assert (0 < Z.of_nat (length bs)) as Hlen by (destruct bs; [done|simpl; lia]).
  unfold write_mem_, write_mem. destruct (gm_write_slice (w_mem w) a bs) as [ok m] eqn:E.
  simpl in Hok. assert (m = (gm_write_slice (w_mem w) a bs).2) as -> by (by rewrite E).
  destruct ok; cbn [snd w_dirty w_mem]; destruct (w_dirty w) as [d|]; simpl; try done.
  - destruct (laid_out_range _ _ _ _ Hlay Hlen (eq_sym Hok)) as (_ & _ & ? & ?).
    split; [apply dirty_le_mark_guest|by apply dirty_covers_write].
  - split; [done|]. intros x _ Hx. destruct Hx. destruct Hr as [Hr|Hl]; [congruence|].
    rewrite Hl in *. destruct (decide (x = a)) as [->|]; [|apply gm_write_frame; lia].
    unfold byte_at. rewrite !gm_read_oob; [done|done|by rewrite gm_write_check].
Qed.

Lemma write_mem_reads w bs a :
  gm_check_range (w_mem w) a (Z.of_nat (length bs)) = true → Forall is_byte bs → bs ≠ [] →
  gm_read_slice (w_mem (write_mem_ w bs a)) a (Z.of_nat (length bs)) = Some bs.
Proof. intros. rewrite write_mem_mem. by apply gm_read_write_same. Qed.

Lemma tracked_laid_out w w' size :
  tracked w w' → laid_out (w_mem w) size → laid_out (w_mem w') size.
Proof. intros [Hc _] [Hs Hl]. split; [done|]. intros a Ha. by rewrite Hc, Hl. Qed.

Lemma valid_buf_check m b :
  valid_buf m b → 0 < b.2 → gm_check_range m b.1 b.2 = true.
Proof.
  intros (_ & _ & Hv) Hl. unfold guest_range_is_valid in Hv.
  rewrite (proj2 (Z.eqb_neq _ _)) in Hv by lia. by destruct (u64_checked_add _ _).
Qed.

Lemma valid_buf_tracked w w' b :
  tracked w w' → valid_buf (w_mem w) b → valid_buf (w_mem w') b.
Proof.
  intros [Hc _] (Ha & Hl & Hv). split_and!; [done..|].
  unfold guest_range_is_valid in *. destruct (_ =? _); [done|].
  destruct (u64_checked_add _ _); [by rewrite Hc|done].
Qed.

(** The buffers of an accepted chain are valid. *)
Lemma walk_valid_bufs c m hd ch :
  0 ≤ hd → walk_descriptor_chain c m hd = Some ch →
  Forall (valid_buf m) (readable ch) ∧ Forall (valid_buf m) (writable ch).
Proof.
  intros Hh Hw. apply walk_with_iff in Hw as (p & Ht & Hf & _ & _ & ->);
    [|apply read_descriptor_in_range|done].
  apply trace_in_range in Ht; [|apply read_descriptor_in_range].
  apply Forall_app, Forall_forall. intros b Hb.
  apply elem_of_buffers in Hb as (d & Hd & ->).
  rewrite Forall_forall in Hf, Ht. destruct (Hf d Hd) as (_ & _ & ?).
  destruct (Ht d Hd) as ([? _] & [? _] & _). by split_and!.
Qed.

(** ** One chain *)

Lemma scatter_ok bufs : ∀ w data off size,
  laid_out (w_mem w) size → Forall (valid_buf (w_mem w)) bufs → 0 ≤ off →
  tracked w (scatter w bufs data off) ∧
  changes_only (in_bufs bufs) (w_mem w) (w_mem (scatter w bufs data off)).
Proof.
  induction bufs as [|[a l] bufs IH]; intros w data off size Hlay Hv Hoff; cbn [scatter].
  { done. }
  apply Forall_cons in Hv as [Hv1 Hv2].
  destruct (u64_checked_add off l) as [e|] eqn:E; [|done].
  apply u64_checked_add_Some in E as [-> _].
  set (end_ := Z.min (off + l) (Z.of_nat (length data))).
  assert (0 ≤ l) as Hl by apply Hv1.
  set (w' := if off <? end_ then _ else _).
  assert (tracked w w' ∧ changes_only (fun x => a ≤ x < a + l) (w_mem w) (w_mem w')) as [Ht Hc].
  { subst w'. destruct (off <? end_) eqn:Eo; bool_to_prop; [|done].
    set (bs := slice _ _ _).
    assert (length bs = Z.to_nat (end_ - off)) as Hbs
      by (subst bs; rewrite length_slice; [done|lia]).
    split.
    - eapply write_mem_tracked; [done|left|intros ->; simpl in Hbs; lia].
      apply (gm_check_range_sub (w_mem w) a l); [lia..|].
      apply (valid_buf_check _ _ Hv1). simpl. lia.
    - eapply changes_only_mono; [apply write_mem_changes|]. simpl. intros x. lia. }
  destruct (IH w' data end_ size) as [Ht' Hc'].
  { by eapply tracked_laid_out. }
  { eapply Forall_impl; [done|]. intros b. by apply valid_buf_tracked. }
  { subst end_. lia. }
  split; [by transitivity w'|]. eapply changes_only_trans.
  - eapply changes_only_mono; [exact Hc|]. intros x Hx. exists (a, l). split; [left|done].
  - eapply changes_only_mono; [exact Hc'|]. intros x (b & Hb & Hx). exists b. split; [by right|done].
Qed.

Lemma slice_split off n k (l : list Z) :
  slice off n l ++ slice (off + n) k l = slice off (n + k) l.
Proof.
  unfold slice. rewrite <- drop_drop. set (l' := drop off l).
  rewrite <- (take_drop n (take (n + k) l')). rewrite take_take, skipn_firstn_comm.
  f_equal; f_equal; lia.
Qed.

Lemma sum_lens_nonneg m bufs : Forall (valid_buf m) bufs → 0 ≤ sum_lens bufs.
Proof.
  induction 1 as [|b bufs (_ & ? & _) _ IH]; [done|]. unfold sum_lens in *. simpl. lia.
Qed.

Lemma fold_capacity_Some bufs : ∀ acc m, Forall (valid_buf m) bufs → 0 ≤ acc → acc + sum_lens bufs ≤ U64_MAX →
  fold_capacity acc bufs = Some (acc + sum_lens bufs).
Proof.
  induction bufs as [|[a l] bufs IH]; intros acc m Hv Ha Hs; [by rewrite Z.add_0_r|].
  apply Forall_cons in Hv as [(_ & Hl & _) Hv]. cbn [snd] in Hl. pose proof (sum_lens_nonneg m bufs Hv).
  change (sum_lens ((a, l) :: bufs)) with (l + sum_lens bufs) in *. cbn [fold_capacity].
  rewrite (proj2 (u64_checked_add_Some _ _ _)) by (split; [done|lia]).
  rewrite (IH _ m) by (done || lia). f_equal. lia.
Qed.


Lemma gather_scatter bufs : ∀ w data off size acc,
  laid_out (w_mem w) size → Forall (valid_buf (w_mem w)) bufs → bufs_disjoint bufs →
  Forall (fun b => 0 < b.2) bufs → Forall is_byte data → 0 ≤ off →
  off + sum_lens bufs ≤ Z.of_nat (length data) ≤ U64_MAX →
  gather (w_mem (scatter w bufs data off)) bufs acc =
  acc ++ slice (Z.to_nat off) (Z.to_nat (sum_lens bufs)) data.
Proof.
  induction bufs as [|[a l] bufs IH]; intros w data off sz acc Hlay Hv Hd Hp Hb Ho Hs.
  { unfold slice. simpl. by rewrite app_nil_r. }
  apply Forall_cons in Hv as [Hv1 Hv2]. apply Forall_cons in Hp as [Hp1 Hp2]. simpl in Hp1.
  destruct Hd as [Hd1 Hd2]. pose proof (sum_lens_nonneg _ _ Hv2) as Hnn.
  change (sum_lens ((a, l) :: bufs)) with (l + sum_lens bufs) in *.
  cbn [scatter]. rewrite (proj2 (u64_checked_add_Some off l _)) by (split; [done|lia]).
  rewrite Z.min_l by lia. rewrite (proj2 (Z.ltb_lt _ _)) by lia.
  set (bs := slice _ (Z.to_nat (off + l - off)) data). set (w' := write_mem_ w bs a).
  assert (Z.of_nat (length bs) = l) as Hbs by (subst bs; rewrite length_slice; lia).
  assert (gm_check_range (w_mem w) a l = true) as Hc by (by apply (valid_buf_check _ (a, l))).
  assert (bs ≠ []) as Hne by (intros ->; simpl in Hbs; lia).
  assert (tracked w w') as Ht.
  { eapply write_mem_tracked; [done|left; by rewrite Hbs|done]. }
  assert (Forall (valid_buf (w_mem w')) bufs) as Hv'.
  { eapply Forall_impl; [exact Hv2|]. intros b. by apply valid_buf_tracked. }
  pose proof (tracked_laid_out _ _ _ Ht Hlay) as Hlay'.
  destruct (scatter_ok bufs w' data (off + l) sz) as [_ Hch]; [done..|lia|].
  cbn [gather]. rewrite (read_outside _ _ _ _ _ Hp1 Hch) by (apply Hd1).
  pose proof (write_mem_reads w bs a) as Hr. rewrite Hbs in Hr. subst w'.
  rewrite Hr; [|done|by apply Forall_slice|done].
  rewrite (IH _ _ _ sz); [|done..|lia|lia]. rewrite <- app_assoc. f_equal.
  subst bs. replace (Z.to_nat (off + l)) with (Z.to_nat off + Z.to_nat (off + l - off))%nat by lia.
  rewrite slice_split. f_equal. lia.
Qed.

(** ** The rings of a usable queue *)

Lemma queue_size_divides x :
  is_valid_queue_size x MAX_SUPPORTED_QUEUE_SIZE = true → 1 ≤ x ≤ 1024 ∧ (x | 65536).
Proof.
  unfold is_valid_queue_size, MAX_SUPPORTED_QUEUE_SIZE. intros Hx. bool_to_prop.
  assert (1 ≤ x ≤ 1024) as Hr.
  { match goal with H : is_power_of_two x = true |- _ => apply is_power_of_two_pos in H end. lia. }
  split; [done|].
  assert (forallb (fun y => negb (is_power_of_two y) || (65536 mod y =? 0)) (seqZ 1 1024) = true)
    as Hall by (vm_compute; reflexivity).
  rewrite forallb_forall in Hall. specialize (Hall x).
  apply orb_true_iff in Hall as [Hp|Hd]; [bool_to_prop; congruence| |].
  - bool_to_prop. by apply Z.mod_divide; [lia|].
  - apply list_elem_of_In, elem_of_seqZ. lia.
Qed.

Lemma queue_is_usable_rings q m :
  queue_is_usable q m = true → rings_ok (config q) m.
Proof.
  unfold queue_is_usable, rings_ok. set (c := config q).
  destruct (negb (ready c) || _) eqn:E1; [done|]. bool_to_prop.
  destruct (negb (has_valid_size c)) eqn:E2; [done|]. bool_to_prop.
  apply queue_size_divides in E2 as [Hs Hd]. unfold DESC_SIZE, USED_ELEM_SIZE.
  rewrite (proj2 (u64_checked_mul_Some (size c) 16 _)) by (split; [done|unfold U64_MAX; lia]).
  rewrite (proj2 (u64_checked_mul_Some (size c) 2 _)) by (split; [done|unfold U64_MAX; lia]).
  rewrite (proj2 (u64_checked_mul_Some (size c) 8 _)) by (split; [done|unfold U64_MAX; lia]).
  rewrite (proj2 (u64_checked_add_Some 4 (size c * 2) _)) by (split; [done|unfold U64_MAX; lia]).
  rewrite (proj2 (u64_checked_add_Some 4 (size c * 8) _)) by (split; [done|unfold U64_MAX; lia]).
  intros Hv. bool_to_prop. unfold guest_range_is_valid in *.
  rewrite !(proj2 (Z.eqb_neq _ 0)) in * by lia.
  repeat match goal with H : match u64_checked_add ?a ?b with _ => _ end = true |- _ =>
    destruct (u64_checked_add a b); [|done] end.
  auto 10.
Qed.

(** The slot of ring position [i]. *)
Lemma slot_range c m i : rings_ok c m → 0 ≤ i mod size c < size c.
Proof. intros ([? ?] & _). apply Z.mod_pos_bound. lia. Qed.

Lemma ring_addr base off slot k n m :
  0 ≤ off → 0 ≤ slot → 0 < k → 0 < n → off + slot * k + n ≤ 4 + 1024 * 8 →
  gm_check_range m base (off + slot * k + n) = true →
  (let?o r := u64_checked_mul slot k in let?o o := u64_checked_add off r in
   u64_checked_add base o) = Some (base + off + slot * k) ∧
  gm_check_range m (base + off + slot * k) n = true.
Proof.
  intros ? ? ? ? ? Hc. assert (0 < off + slot * k + n) by nia.
  destruct (gm_check_range_u64_bound _ _ _ ltac:(done) Hc).
  rewrite (proj2 (u64_checked_mul_Some slot k _)) by (split; [done|unfold U64_MAX; lia]).
  rewrite (proj2 (u64_checked_add_Some off _ _)) by (split; [done|unfold U64_MAX; lia]).
  rewrite (proj2 (u64_checked_add_Some base _ _)) by (split; [done|lia]).
  split; [f_equal; lia|].
  apply (gm_check_range_sub m base (off + slot * k + n)); [lia| lia | nia | lia | done].
Qed.

Lemma avail_entry_ok q m :
  rings_ok (config q) m →
  let a := avail_slot_addr (config q) (last_avail_idx q) in
  avail_entry_addr q = Some a ∧ gm_check_range m a 2 = true.
Proof.
  intros Hr. pose proof (slot_range _ _ (last_avail_idx q) Hr).
  destruct Hr as ((? & ?) & _ & _ & Ha & _). apply ring_addr; [lia..|].
  eapply gm_check_range_sub; [| | | |exact Ha]; lia.
Qed.

Lemma used_entry_ok q m :
  rings_ok (config q) m →
  let a := used_slot_addr (config q) (last_used_idx q) in
  used_entry_addr q = Some a ∧ gm_check_range m a 8 = true.
Proof.
  intros Hr. pose proof (slot_range _ _ (last_used_idx q) Hr).
  destruct Hr as ((? & ?) & _ & _ & _ & Hu).
  unfold used_entry_addr, USED_ELEM_SIZE. apply ring_addr; [lia..|].
  eapply gm_check_range_sub; [| | | |exact Hu]; lia.
Qed.

Lemma used_idx_ok q m :
  rings_ok (config q) m →
  used_idx_addr q = Some (used_ring_addr (config q) + 2) ∧
  gm_check_range m (used_ring_addr (config q) + 2) 2 = true.
Proof.
  intros ((? & ?) & _ & _ & _ & Hu).
  destruct (gm_check_range_u64_bound m _ (4 + size (config q) * 8) ltac:(lia) Hu).
  split; [apply u64_checked_add_Some; split; [done|lia]|].
  eapply gm_check_range_sub; [| | | |exact Hu]; lia.
Qed.

Lemma rings_ok_tracked c w w' : tracked w w' → rings_ok c (w_mem w) → rings_ok c (w_mem w').
Proof. intros [Hc _]. unfold rings_ok. by rewrite !Hc. Qed.

Lemma read_u16_ok m a :
  gm_check_range m a 2 = true → ∃ x, read_u16 m a = Some x ∧ in_u16 x.
Proof.
  intros Hc. destruct (gm_read_total m a 2 ltac:(lia) Hc) as (bs & Hr & Hl & Hb).
  unfold read_u16. rewrite Hr. eexists. split; [done|].
  pose proof (le_decode_bound bs Hb) as Hd. rewrite Hl in Hd. unfold in_u16, U16_MAX. lia.
Qed.

(** ** The walk depends on the descriptor table and the region table only *)

Lemma walk_loop_ext fuel : ∀ rd rd' c m m' i rds wrs cb len,
  (∀ k j a, 0 ≤ j < size c → desc_entry_addr c j = Some a → rd k a = rd' k a) →
  (∀ x n, gm_check_range m x n = gm_check_range m' x n) → reads_in_range rd → 0 ≤ i →
  walk_loop fuel rd c m i rds wrs cb len = walk_loop fuel rd' c m' i rds wrs cb len.
Proof.
  induction fuel as [|fuel IH]; intros rd rd' c m m' i rds wrs cb len Hrd Hc Hr Hi; [done|].
  rewrite !walk_loop_step. destruct (_ || _) eqn:E; [done|]. bool_to_prop.
  destruct (desc_entry_addr c i) as [a|] eqn:Ea; [|done].
  rewrite <- (Hrd len i a) by (done || lia). destruct (rd len a) as [d|] eqn:Ed; [|done].
  assert (guest_range_is_valid m (desc_addr d) (desc_len d) =
    guest_range_is_valid m' (desc_addr d) (desc_len d)) as ->
    by (unfold guest_range_is_valid; by rewrite Hc).
  destruct (_ || _ || _ || _); [done|]. destruct (has_next d); [|done].
  apply IH; [done..|]. apply Hr in Ed as (_ & _ & _ & [? _]). done.
Qed.

Lemma walk_stable c m m' hd :
  0 ≤ hd → rings_ok c m → (∀ x n, gm_check_range m' x n = gm_check_range m x n) →
  changes_only (fun x => ¬ table_or_avail c x) m m' →
  walk_descriptor_chain c m' hd = walk_descriptor_chain c m hd.
Proof.
  intros Hh Hr Hc Hs. unfold walk_descriptor_chain, walk_with. destruct (size c <=? hd); [done|].
  rewrite (walk_loop_ext _ _ (fun _ a => read_descriptor m a) c m' m);
    [done| |done|apply read_descriptor_in_range|done].
  intros _ j a Hj. unfold desc_entry_addr, DESC_SIZE.
  destruct (u64_checked_mul j 16) as [o|] eqn:E; [|done].
  apply u64_checked_mul_Some in E as [-> _]. intros [-> _]%u64_checked_add_Some.
  unfold read_descriptor. f_equal.
  apply (read_outside (fun x => ¬ table_or_avail c x)); [done..|].
  intros x Hx Hn. apply Hn. left. unfold DESC_SIZE in Hx. lia.
Qed.

(** Positions less than [size] apart have different slots. *)
Lemma used_slot_disjoint c m u i j :
  rings_ok c m → 0 ≤ i < j → j - i < size c →
  let a := used_slot_addr c (u16_wrapping_add u i) in
  let b := used_slot_addr c (u16_wrapping_add u j) in
  a + 8 ≤ b ∨ b + 8 ≤ a.
Proof.
  intros (Hs & Hd & _) Hij Hj. unfold used_slot_addr, u16_wrapping_add.
  rewrite !Z.mod_mod_divide by done.
  assert ((u + i) mod size c ≠ (u + j) mod size c) as Hne; [|lia].
  intros He. assert ((u + j - (u + i)) mod size c = 0) as H0.
  { rewrite Zminus_mod, He, Z.sub_diag. done. }
  rewrite Z.mod_small in H0 by lia. lia.
Qed.

Lemma used_slot_in_ring c m i x :
  rings_ok c m → used_slot_addr c i ≤ x < used_slot_addr c i + 8 →
  used_ring_byte c x ∧ used_ring_addr c + 4 ≤ x.
Proof.
  intros Hr. pose proof (slot_range _ _ i Hr). unfold used_slot_addr, used_ring_byte. lia.
Qed.

Lemma reports_nil c u m : reports c u [] m m.
Proof. split; [reflexivity|]. intros j hd ch Hj. by rewrite lookup_nil in Hj. Qed.

Lemma reports_cons c u x acc m m1 m2 m0 :
  rings_ok c m0 → Z.of_nat (S (length acc)) ≤ size c →
  reports c u [x] m m1 → reports c (u16_wrapping_add u 1) acc m1 m2 →
  reports c u (x :: acc) m m2.
Proof.
  intros Hr Hl [Hc1 H1] [Hc2 H2].
  assert (Hs : ∀ j, u16_wrapping_add (u16_wrapping_add u 1) (Z.of_nat j) =
    u16_wrapping_add u (Z.of_nat (S j))).
  { intros j. rewrite u16_wrapping_add_assoc. f_equal. lia. }
  split.
  - eapply changes_only_trans.
    + eapply changes_only_mono; [exact Hc1|]. intros y [?|(j & Hj & Hy)]; [by left|right].
      exists j. simpl in *. split; [lia|done].
    + eapply changes_only_mono; [exact Hc2|]. intros y [?|(j & Hj & Hy)]; [by left|right].
      exists (S j). simpl. split; [lia|]. by rewrite <- Hs.
  - intros [|j] hd ch Hj; [|rewrite <- Hs; by apply H2].
    rewrite <- (H1 0%nat hd ch) by done.
    eapply read_outside; [done|exact Hc2|].
    intros y Hy [Hn|(j & Hj' & Hy')].
    + apply Hn. by eapply used_slot_in_ring.
    + rewrite Hs in Hy'.
      pose proof (used_slot_disjoint c m0 u 0 (Z.of_nat (S j)) Hr ltac:(lia) ltac:(lia)) as Hd.
      cbv zeta in Hd, Hy'. change (Z.of_nat 0) with 0 in Hy. lia.
Qed.

(** Writing one used element. *)
Lemma used_elem_reports w c u hd len size :
  laid_out (w_mem w) size → rings_ok c (w_mem w) → in_u16 u →
  let w' := write_mem_ w (encode_used_elem hd len) (used_slot_addr c u) in
  tracked w w' ∧ changes_only (used_ring_byte c) (w_mem w) (w_mem w') ∧
  reports c u [(hd, len)] (w_mem w) (w_mem w').
Proof.
  intros Hlay Hr Hu w'. destruct (used_entry_ok (new_with_indices c 0 u) _ Hr) as [_ Hcu].
  pose proof (write_mem_changes w (encode_used_elem hd len) (used_slot_addr c u)) as Hc.
  change (Z.of_nat (length (encode_used_elem _ _))) with 8 in Hc. split_and!.
  - eapply write_mem_tracked; [done|by left|done].
  - eapply changes_only_mono; [exact Hc|]. intros x Hx.
    by apply (used_slot_in_ring c (w_mem w) u).
  - split.
    + eapply changes_only_mono; [exact Hc|]. intros x Hx. right. exists 0%nat.
      rewrite u16_wrapping_add_0 by done. split; [simpl; lia|done].
    + intros j hd' len' Hj. apply list_lookup_singleton_Some in Hj as [-> [= <- <-]].
      rewrite u16_wrapping_add_0 by done. apply (write_mem_reads w (encode_used_elem hd len));
        [done|apply Forall_app_2; apply le_encode_bytes|done].
Qed.

(** Changes elsewhere leave a report as it is. *)
Lemma reports_frame c u acc m m1 m2 :
  changes_only (fun x => ¬ used_ring_byte c x) m m1 → reports c u acc m1 m2 →
  reports c u acc m m2.
Proof.
  intros Hc [Hr1 Hr2]. split; [|done]. eapply changes_only_trans; [|exact Hr1].
  eapply changes_only_mono; [exact Hc|]. by left.
Qed.

Section serve.
Context {H : Type}.
Variable handler : H → list Z → list Z → H * list Z * Z.

Lemma serve_chain_ok w h ch size :
  laid_out (w_mem w) size → Forall (valid_buf (w_mem w)) (writable ch) →
  let w' := (serve_chain handler w h ch).1 in
  tracked w w' ∧
  changes_only (fun x => in_bufs (writable ch) x ∨ status_byte_of ch x) (w_mem w) (w_mem w').
Proof.
  intros Hlay Hv. unfold serve_chain.
  destruct (handler _ _ _) as [[h' data] st]. cbn [fst].
  set (bufs := take _ _). destruct (scatter_ok bufs w data 0 size) as [Ht Hc];
    [done|by apply Forall_take|done|].
  assert (changes_only (fun x => in_bufs (writable ch) x ∨ status_byte_of ch x) (w_mem w)
    (w_mem (scatter w bufs data 0))) as Hc1.
  { eapply changes_only_mono; [exact Hc|]. intros x (b & Hb & Hx). left. exists b.
    split; [|done]. by apply elem_of_take in Hb as (i & ?%list_elem_of_lookup_2 & _). }
  destruct (last (writable ch)) as [[a l]|] eqn:El; [|done].
  destruct (negb (a =? 0)) eqn:Ea; [|done]. split.
  - transitivity (scatter w bufs data 0); [done|].
    eapply write_mem_tracked; [by eapply tracked_laid_out|by right|done].
  - eapply changes_only_trans; [exact Hc1|].
    eapply changes_only_mono; [apply write_mem_changes|]. simpl. intros x Hx. right.
    exists (a, l). split; [done|simpl; lia].
Qed.

(** The indices in use are the ones of 16-bit fields. *)
Lemma process_loop_ok fuel : ∀ avail q w h n size,
  laid_out (w_mem w) size → rings_ok (config q) (w_mem w) →
  in_u16 avail → in_u16 (last_avail_idx q) → in_u16 (last_used_idx q) →
  u16_wrapping_sub avail (last_avail_idx q) ≤ Z.of_nat fuel →
  ∃ w' h' k,
    process_loop handler fuel avail q w h n =
      Some (set_indices q avail (u16_wrapping_add (last_used_idx q) k), w', h', n + k) ∧
    0 ≤ k ≤ u16_wrapping_sub avail (last_avail_idx q) ∧ tracked w w'.
Proof.
  induction fuel as [|fuel IH]; intros avail q w h n sz Hlay Hr Ha Hla Hlu Hf.
  all: cbn [process_loop]; destruct (last_avail_idx q =? avail) eqn:E; bool_to_prop.
  1, 3: exists w, h, 0; rewrite <- E, u16_wrapping_add_0, Z.add_0_r, u16_wrapping_sub_diag by done;
    split; [by destruct q|split; [lia|reflexivity]].
  { pose proof (u16_wrapping_sub_range avail (last_avail_idx q)) as Hs. destruct E.
    symmetry. apply u16_wrapping_sub_0_iff; [done..|]. unfold in_u16 in Hs. lia. }
  assert (avail ≠ last_avail_idx q) as E' by done.
  pose proof (u16_wrapping_sub_succ _ _ Ha Hla E') as Hsub.
  destruct (avail_entry_ok q _ Hr) as [-> Hca].
  destruct (read_u16_ok _ _ Hca) as (hd & -> & Hhd).
  destruct (walk_descriptor_chain (config q) (w_mem w) hd) as [ch|] eqn:Ew.
  - apply walk_valid_bufs in Ew as [_ Hwr]; [|apply Hhd].
    pose proof (serve_chain_ok w h ch sz Hlay Hwr) as [Ht1 _].
    destruct (serve_chain handler w h ch) as [w1 h1]. cbn [fst] in Ht1.
    pose proof (rings_ok_tracked _ _ _ Ht1 Hr) as Hr1.
    destruct (used_entry_ok q _ Hr1) as [-> Hcu].
    set (w2 := write_mem_ w1 _ _).
    assert (tracked w1 w2) as Ht2.
    { eapply write_mem_tracked; [by eapply tracked_laid_out|by left|done]. }
    assert (tracked w w2) as Ht by (by transitivity w1).
    destruct (IH avail (advance_used q) w2 h1 (n + 1) sz) as (w' & h' & k & Hp & Hk & Ht');
      [by eapply tracked_laid_out|by eapply rings_ok_tracked|done|
        apply u16_wrapping_add_range..|simpl; lia|].
    exists w', h', (1 + k). rewrite Hp. simpl in *. rewrite u16_wrapping_add_assoc.
    split; [do 2 f_equal; lia|]. split; [lia|]. by transitivity w2.
  - destruct (IH avail (reject_available_chain q) w h n sz) as (w' & h' & k & Hp & Hk & Ht');
      [done|done|done|apply u16_wrapping_add_range|done|simpl; lia|].
    exists w', h', k. rewrite Hp. simpl in *. split; [done|]. split; [lia|done].
Qed.

Lemma publish_used_idx_ok q w size :
  laid_out (w_mem w) size → rings_ok (config q) (w_mem w) → in_u16 (last_used_idx q) →
  tracked w (publish_used_idx q w) ∧
  read_u16 (w_mem (publish_used_idx q w)) (used_ring_addr (config q) + 2) = Some (last_used_idx q) ∧
  changes_only (fun x => used_ring_addr (config q) + 2 ≤ x < used_ring_addr (config q) + 4)
    (w_mem w) (w_mem (publish_used_idx q w)).
Proof.
  intros Hlay Hr Hu. unfold publish_used_idx. destruct (used_idx_ok q _ Hr) as [-> Hc].
  split_and!.
  - eapply write_mem_tracked; [done|by left|done].
  - unfold read_u16. pose proof (write_mem_reads w (le_encode 2 (last_used_idx q))
      (used_ring_addr (config q) + 2)) as Hw. rewrite length_le_encode in Hw.
    change (Z.of_nat 2) with 2 in Hw. rewrite Hw; [|done|auto with tarit|done]. simpl.
    f_equal. apply (le_decode_encode 2). unfold in_u16, U16_MAX in Hu. lia.
  - eapply changes_only_mono; [apply write_mem_changes|]. simpl. intros. lia.
Qed.

(** One accepted entry is served and reported. *)
Lemma serve_reports m0 q w h hd ch size :
  let c := config q in
  laid_out (w_mem w) size → rings_ok c m0 → separated c m0 → 0 ≤ hd →
  (∀ x k, gm_check_range (w_mem w) x k = gm_check_range m0 x k) →
  walk_descriptor_chain c (w_mem w) hd = Some ch →
  walk_descriptor_chain c m0 hd = Some ch → in_u16 (last_used_idx q) →
  let w1 := (serve_chain handler w h ch).1 in
  let w2 := write_mem_ w1 (encode_used_elem hd (chain_len ch)) (used_slot_addr c (last_used_idx q)) in
  tracked w w2 ∧ changes_only (fun x => ¬ table_or_avail c x) (w_mem w) (w_mem w2) ∧
  reports c (last_used_idx q) [(hd, chain_len ch)] (w_mem w) (w_mem w2).
Proof.
  intros c Hlay Hr [Hsep1 Hsep2] Hh Hck Hw Hw0 Hu w1 w2.
  apply walk_valid_bufs in Hw as [_ Hv]; [|done].
  destruct (serve_chain_ok w h ch size Hlay Hv) as [Ht Hc].
  destruct (used_elem_reports w1 c (last_used_idx q) hd (chain_len ch) size) as (Ht2 & Hc2 & Hr2).
  { by eapply tracked_laid_out. }
  { eapply rings_ok_tracked; [exact Ht|]. unfold rings_ok. by rewrite !Hck. }
  { done. }
  split; [by transitivity w1|]. split.
  - eapply changes_only_trans; eapply changes_only_mono; [exact Hc| |exact Hc2|exact Hsep1].
    intros x Hx. by apply (Hsep2 hd ch).
  - eapply reports_frame; [|exact Hr2]. eapply changes_only_mono; [exact Hc|].
    intros x Hx. by apply (Hsep2 hd ch).
Qed.

(** From any point of the loop on: the accepted chains among the entries
    still to be taken are reported, in order, from [last_used_idx] on. *)
Lemma process_loop_reports m0 fuel : ∀ avail q w h n size,
  let c := config q in
  let todo := u16_wrapping_sub avail (last_avail_idx q) in
  laid_out (w_mem w) size → rings_ok c m0 → separated c m0 →
  (∀ x k, gm_check_range (w_mem w) x k = gm_check_range m0 x k) →
  changes_only (fun x => ¬ table_or_avail c x) m0 (w_mem w) →
  in_u16 avail → in_u16 (last_avail_idx q) → in_u16 (last_used_idx q) →
  todo ≤ VQueue.size c → Z.to_nat todo = fuel →
  let acc := accepted m0 c (published m0 c (last_avail_idx q) fuel) in
  ∃ w' h',
    process_loop handler fuel avail q w h n =
      Some (set_indices q avail (u16_wrapping_add (last_used_idx q) (Z.of_nat (length acc))),
            w', h', n + Z.of_nat (length acc)) ∧
    tracked w w' ∧ (length acc ≤ fuel)%nat ∧
    reports c (last_used_idx q) acc (w_mem w) (w_mem w').
Proof.
  induction fuel as [|fuel IH];
    intros avail q w h n sz c todo Hlay Hr Hsep Hck Hch Ha Hla Hlu Hsz Hf acc;
    pose proof (u16_wrapping_sub_range avail (last_avail_idx q)) as Hrg; unfold in_u16 in Hrg;
    cbn [process_loop]; destruct (last_avail_idx q =? avail) eqn:E; bool_to_prop.
  - exists w, h. simpl. rewrite Z.add_0_r, <- E, u16_wrapping_add_0 by done.
    split_and!; [by destruct q|done|lia|apply reports_nil].
  - destruct E. symmetry. apply u16_wrapping_sub_0_iff; [done..|]. fold todo. lia.
  - subst todo. rewrite E, u16_wrapping_sub_diag in Hf. done.
  - assert (avail ≠ last_avail_idx q) as E' by done.
    pose proof (u16_wrapping_sub_succ _ _ Ha Hla E') as Hsub. fold todo in Hsub.
    assert (rings_ok c (w_mem w)) as Hrw by (unfold rings_ok; by rewrite !Hck).
    destruct (avail_entry_ok q _ Hrw) as [-> Hca]. fold c in Hca.
    destruct (read_u16_ok _ _ Hca) as (hd & Hhd & Hhr). fold c. rewrite Hhd.
    assert (read_u16 m0 (avail_slot_addr c (last_avail_idx q)) = Some hd) as Hhd0.
    { rewrite <- Hhd. unfold read_u16. f_equal. symmetry. eapply read_outside; [done|exact Hch|].
      pose proof (slot_range _ _ (last_avail_idx q) Hr).
      intros x Hx Hn. apply Hn. right. unfold avail_slot_addr in Hx. lia. }
    assert (Hwk := walk_stable c m0 (w_mem w) hd (proj1 Hhr) Hr Hck Hch). rewrite Hwk.
    subst acc. cbn [published]. rewrite Hhd0. unfold accepted. cbn [omap list_omap].
    destruct (walk_descriptor_chain c m0 hd) as [ch|] eqn:Ew; cbn [fmap option_fmap option_map].
    + pose proof (serve_reports m0 q w h hd ch sz Hlay Hr Hsep (proj1 Hhr) Hck Hwk Ew Hlu)
        as (Ht & Hcs & Hrep). fold c in Ht, Hcs, Hrep.
      destruct (serve_chain handler w h ch) as [w1 h1] eqn:Es. cbn [fst] in *.
      destruct (used_entry_ok q m0 Hr) as [-> _]. fold c.
      set (w2 := write_mem_ w1 _ _) in *.
      destruct (IH avail (advance_used q) w2 h1 (n + 1) sz) as (w' & h' & Hp & Ht' & Hl' & Hrep');
        simpl; try done; try apply u16_wrapping_add_range; try lia.
      { by eapply tracked_laid_out. }
      { intros. by rewrite (proj1 Ht). }
      { by eapply changes_only_trans. }
      { fold c. lia. }
      simpl in Hp, Hl', Hrep'. fold c in Hp, Hl', Hrep'. unfold accepted in Hp, Hl', Hrep'.
      exists w', h'. rewrite Hp. rewrite u16_wrapping_add_assoc.
      cbn [length]. rewrite Nat2Z.inj_succ, <- Z.add_1_l, Z.add_assoc.
      split_and!; [done|by transitivity w2|lia|].
      eapply reports_cons; [exact Hr|lia|exact Hrep|exact Hrep'].
    + destruct (IH avail (reject_available_chain q) w h n sz) as (w' & h' & Hp & Ht' & Hl' & Hrep');
        simpl; try done; try apply u16_wrapping_add_range; try (fold c; lia).
      exists w', h'. simpl in Hl'. split_and!; [done..|unfold accepted in Hl'; fold c in Hl'; lia|done].
Qed.

End serve.

Lemma read_avail_idx_ok c m :
  rings_ok c m → ∃ x, read_avail_idx m (avail_ring_addr c) = Some x ∧ in_u16 x.
Proof.
  intros (? & _ & _ & Ha & _).
  assert (gm_check_range m (avail_ring_addr c) 4 = true) as Hc
    by (eapply gm_check_range_sub; [| | | |exact Ha]; lia).
  destruct (gm_read_total _ _ 4 ltac:(lia) Hc) as (bs & Hr & Hl & Hb).
  unfold read_avail_idx. rewrite Hr. eexists. split; [done|].
  pose proof (le_decode_bound (slice 2 2 bs) (Forall_slice _ _ _ _ Hb)) as Hd.
  rewrite length_slice in Hd by lia. unfold in_u16, U16_MAX. lia.
Qed.

End run.

(** ** The claims *)
Section claims.
Context {M : Type} `{!GuestMemoryBackend M} `{!GuestMemoryLaws M} {H : Type}.
Implicit Types (w : World M) (q : VirtQueueProcessor).
Variable handler : H → list Z → list Z → H * list Z * Z.

Lemma process_queue_ok q w h sz :
  laid_out (w_mem w) sz → in_u16 (last_avail_idx q) → in_u16 (last_used_idx q) →
  queue_is_usable q (w_mem w) = true →
  ∃ avail k w' h',
    read_avail_idx (w_mem w) (avail_ring_addr (config q)) = Some avail ∧
    let q' := set_indices q avail (u16_wrapping_add (last_used_idx q) k) in
    process_queue_dirty handler q w h = Some (q', w', h', k) ∧
    0 ≤ k ≤ u16_wrapping_sub avail (last_avail_idx q) ∧
    read_u16 (w_mem w') (used_ring_addr (config q) + 2) = Some (last_used_idx q') ∧ tracked w w'.
Proof.
  intros Hlay Hla Hlu Hus. pose proof (queue_is_usable_rings _ _ Hus) as Hr.
  destruct (read_avail_idx_ok _ _ Hr) as (avail & Hav & Ha).
  pose proof (u16_wrapping_sub_range avail (last_avail_idx q)) as Hrg. unfold in_u16 in Hrg.
  destruct (process_loop_ok handler (Z.to_nat (u16_wrapping_sub avail (last_avail_idx q)))
    avail q w h 0 sz) as (w' & h' & k & Hp & Hk & Ht); [done..|lia|].
  set (q' := set_indices _ _ _) in Hp.
  destruct (publish_used_idx_ok q' w' sz) as (Ht' & Hrd & _);
    [by eapply tracked_laid_out|by eapply rings_ok_tracked|apply u16_wrapping_add_range|].
  exists avail, k, (publish_used_idx q' w'), h'. unfold process_queue_dirty.
  rewrite Hus, Hav, Hp. split_and!; try done; try lia. by transitivity w'.
Qed.

(** A pass over a queue always terminates, within one step per published
    entry. On a usable queue it takes every entry the driver had published
    when the pass began, whatever the chains are; the used index advances by
    the number of requests served and reads back from guest memory. A queue
    that is not usable is left alone. *)
Theorem process_queue_drains q w h sz :
  laid_out (w_mem w) sz → in_u16 (last_avail_idx q) → in_u16 (last_used_idx q) →
  if queue_is_usable q (w_mem w) then
    ∃ avail k w' h',
      read_avail_idx (w_mem w) (avail_ring_addr (config q)) = Some avail ∧
      let q' := set_indices q avail (u16_wrapping_add (last_used_idx q) k) in
      process_queue_dirty handler q w h = Some (q', w', h', k) ∧
      0 ≤ k ≤ u16_wrapping_sub avail (last_avail_idx q) ∧
      read_u16 (w_mem w') (used_ring_addr (config q) + 2) = Some (last_used_idx q')
  else process_queue_dirty handler q w h = Some (q, w, h, 0).
Proof.
  intros Hlay Hla Hlu. destruct (queue_is_usable q (w_mem w)) eqn:Hus.
  - destruct (process_queue_ok q w h sz) as (avail & k & w' & h' & ? & ? & ? & ? & _);
      [done..|]. by exists avail, k, w', h'.
  - unfold process_queue_dirty. by rewrite Hus.
Qed.

(** C22: Every byte of guest RAM a pass changes, in whatever buffer, status
    byte or ring, lies on a page its dirty tracker then records, and no page
    recorded before is lost; the map of valid ranges stays the same. *)
Theorem process_queue_tracks_writes q w h sz d :
  laid_out (w_mem w) sz → in_u16 (last_avail_idx q) → in_u16 (last_used_idx q) →
  w_dirty w = Some d →
  ∃ q' w' h' k d',
    process_queue_dirty handler q w h = Some (q', w', h', k) ∧ w_dirty w' = Some d' ∧
    dirty_le d d' ∧ dirty_covers (w_mem w) (w_mem w') d' ∧ laid_out (w_mem w') sz.
Proof.
  intros Hlay Hla Hlu Hd. destruct (queue_is_usable q (w_mem w)) eqn:Hus.
  - destruct (process_queue_ok q w h sz) as (avail & k & w' & h' & _ & Hp & _ & _ & Ht); [done..|].
    pose proof (tracked_laid_out _ _ _ Ht Hlay). destruct Ht as [_ Ht]. rewrite Hd in Ht.
    destruct (w_dirty w') as [d'|] eqn:Hd'; [|done]. destruct Ht as [? ?].
    exists (set_indices q avail (u16_wrapping_add (last_used_idx q) k)), w', h', k, d'.
    auto 10.
  - exists q, w, h, 0, d. unfold process_queue_dirty. rewrite Hus.
    split_and!; [done..|apply dirty_covers_refl|done].
Qed.

(** C10: For a driver that keeps its rings apart and its writable buffers off
    the rings, and has at most [size] entries outstanding, a pass reports each
    accepted chain exactly once: the served chains are those of the published
    heads that the walk accepts, in the order they were published, and the
    used ring from the old used index on holds their heads and lengths. *)
Theorem process_queue_reports q w h sz avail :
  let c := config q in
  let m := w_mem w in
  laid_out m sz → in_u16 (last_avail_idx q) → in_u16 (last_used_idx q) →
  queue_is_usable q m = true → separated c m →
  read_avail_idx m (avail_ring_addr c) = Some avail →
  u16_wrapping_sub avail (last_avail_idx q) ≤ size c →
  let n := Z.to_nat (u16_wrapping_sub avail (last_avail_idx q)) in
  let acc := accepted m c (published m c (last_avail_idx q) n) in
  ∃ q' w' h',
    process_queue_dirty handler q w h = Some (q', w', h', Z.of_nat (length acc)) ∧
    (∀ (j : nat) hd len, acc !! j = Some (hd, len) →
      gm_read_slice (w_mem w')
        (used_slot_addr c (u16_wrapping_add (last_used_idx q) (Z.of_nat j))) 8 =
      Some (encode_used_elem hd len)) ∧
    read_u16 (w_mem w') (used_ring_addr c + 2) =
      Some (u16_wrapping_add (last_used_idx q) (Z.of_nat (length acc))).
Proof.
  intros c m Hlay Hla Hlu Hus Hsep Hav Hsz n acc.
  pose proof (queue_is_usable_rings _ _ Hus) as Hr.
  destruct (read_avail_idx_ok _ _ Hr) as (avail' & Hav' & Ha). fold c m in Hav'.
  rewrite Hav in Hav'. injection Hav' as <-.
  destruct (process_loop_reports handler m n avail q w h 0 sz)
    as (w' & h' & Hp & Ht & _ & _ & Hrep); try done. fold c acc in Hp, Hrep.
  set (q' := set_indices _ _ _) in Hp.
  destruct (publish_used_idx_ok q' w' sz) as (_ & Hrd & Hch);
    [by eapply tracked_laid_out|by eapply rings_ok_tracked|apply u16_wrapping_add_range|].
  exists q', (publish_used_idx q' w'), h'. unfold process_queue_dirty. fold c m.
  rewrite Hus, Hav. cbn [negb]. fold n. rewrite Hp. split_and!; [done| |done].
  intros j hd ch Hj. rewrite <- (Hrep j hd ch Hj). eapply read_outside; [done|exact Hch|].
  intros x Hx Hn. apply (used_slot_in_ring c m) in Hx as [_ Hx]; [|done]. simpl in Hn. fold c in Hn. lia.
Qed.

(** Serving a chain the walk accepted changes guest memory inside its
    writable buffers and at its status byte alone, and what the handler leaves
    in the data buffer reaches the guest: gathering non-overlapping data
    buffers after the scatter gives the handler's bytes back. *)
Theorem serve_chain_confined q w h sz hd ch :
  laid_out (w_mem w) sz → 0 ≤ hd → walk_descriptor_chain (config q) (w_mem w) hd = Some ch →
  changes_only (fun x => in_bufs (writable ch) x ∨ status_byte_of ch x)
    (w_mem w) (w_mem (serve_chain handler w h ch).1) ∧
  ∀ bufs data, bufs `prefix_of` writable ch → bufs_disjoint bufs →
    Forall (fun b => 0 < b.2) bufs → Forall is_byte data →
    Z.of_nat (length data) = sum_lens bufs → Z.of_nat (length data) ≤ U64_MAX →
    gather (w_mem (scatter w bufs data 0)) bufs [] = data.
Proof.
  intros Hlay Hh Hw. apply walk_valid_bufs in Hw as [_ Hv]; [|done].
  split; [by eapply serve_chain_ok|].
  intros bufs data [rest Hpre] Hd Hp Hb Hl Hmax. rewrite Hpre in Hv.
  apply Forall_app in Hv as [Hv _].
  rewrite (gather_scatter bufs w data 0 sz []) by (done || lia).
  simpl. rewrite <- Hl, Nat2Z.id. unfold slice. rewrite drop_0. by apply take_ge.
Qed.

End claims.

(** ** The example queue, served by a device that counts requests *)

Definition count_requests (h : Z) (_ data : list Z) : Z * list Z * Z := (h + 1, data, 7).

Definition example_q : VirtQueueProcessor := new ExampleQueue.cfg.
Definition example_w : World (gmap Z Z) := mkWorld ExampleQueue.mem (Some DirtyBitmap.new).

Lemma store_check m a bs x :
  ByteMap.check_range m a (Z.of_nat (length bs)) = true →
  gm_check_range (ByteMap.store m a bs) x 1 = gm_check_range m x 1.
Proof. intros. simpl. by rewrite !bm_check_range_1, bm_store_range. Qed.

Lemma example_laid_out : laid_out (w_mem example_w) 192.
Proof.
  split; [lia|]. intros a Ha. unfold example_w, ExampleQueue.mem. cbn [w_mem].
  rewrite !store_check by (vm_compute; reflexivity). rewrite bm_zeros_check by (unfold U64_MAX; lia).
  split; [intros ?; exists a|intros [o Ho]; revert Ho]; rewrite gpa_to_offset_Some by lia;
    unfold MMIO_GAP_START, MMIO_GAP_END; lia.
Qed.

Lemma example_walk hd ch :
  0 ≤ hd → walk_descriptor_chain ExampleQueue.cfg ExampleQueue.mem hd = Some ch →
  writable ch = [(160, 1)].
Proof.
  intros Hh. destruct (decide (hd = 0)) as [->|]; [|destruct (decide (hd = 1)) as [->|]].
  - vm_compute. by intros [= <-].
  - vm_compute. by intros [= <-].
  - unfold walk_descriptor_chain, walk_with. rewrite (proj2 (Z.leb_le _ _)); [done|].
    change (size ExampleQueue.cfg) with 2. lia.
Qed.

Lemma example_separated : separated (config example_q) (w_mem example_w).
Proof.
  unfold separated, used_ring_byte, table_or_avail.
  change (desc_table_addr (config example_q)) with 0.
  change (avail_ring_addr (config example_q)) with 64.
  change (used_ring_addr (config example_q)) with 96. change (size (config example_q)) with 2.
  split; [intros; lia|]. intros hd ch x Hh Hw Hx. apply example_walk in Hw; [|done].
  unfold in_bufs, status_byte_of in Hx. rewrite Hw in Hx.
  destruct Hx as [(b & ->%list_elem_of_singleton & Hx)|(b & [= <-] & ->)]; simpl in *; lia.
Qed.

Lemma example_u16 : in_u16 0.
Proof. unfold in_u16, U16_MAX. lia. Qed.

Lemma process_queue_drains_witness :
  queue_is_usable example_q (w_mem example_w) = true ∧
  if queue_is_usable example_q (w_mem example_w) then
    ∃ avail k w' h',
      read_avail_idx (w_mem example_w) (avail_ring_addr (config example_q)) = Some avail ∧
      let q' := set_indices example_q avail (u16_wrapping_add (last_used_idx example_q) k) in
      process_queue_dirty count_requests example_q example_w 0 = Some (q', w', h', k) ∧
      0 ≤ k ≤ u16_wrapping_sub avail (last_avail_idx example_q) ∧
      read_u16 (w_mem w') (used_ring_addr (config example_q) + 2) = Some (last_used_idx q')
  else process_queue_dirty count_requests example_q example_w 0 = Some (example_q, example_w, 0, 0).
Proof.
  split; [vm_compute; reflexivity|].
  exact (process_queue_drains count_requests example_q example_w 0 192
    example_laid_out example_u16 example_u16).
Defined.

Lemma process_queue_tracks_writes_witness :
  ∃ q' w' h' k d',
    process_queue_dirty count_requests example_q example_w 0 = Some (q', w', h', k) ∧
    w_dirty w' = Some d' ∧ dirty_le DirtyBitmap.new d' ∧
    dirty_covers (w_mem example_w) (w_mem w') d' ∧ laid_out (w_mem w') 192.
Proof.
  exact (process_queue_tracks_writes count_requests example_q example_w 0 192 DirtyBitmap.new
    example_laid_out example_u16 example_u16 eq_refl).
Defined.

Lemma process_queue_reports_witness :
  ∃ q' w' h',
    process_queue_dirty count_requests example_q example_w 0 = Some (q', w', h', 1) ∧
    read_u16 (w_mem w') 98 = Some 1.
Proof.
  pose proof (process_queue_reports count_requests example_q example_w 0 192 1
    example_laid_out example_u16 example_u16 ltac:(vm_compute; reflexivity) example_separated
    ltac:(vm_compute; reflexivity) ltac:(vm_compute; discriminate)) as (q' & w' & h' & Hp & _ & Hr).
  exists q', w', h'. split.
  - rewrite Hp. vm_compute. reflexivity.
  - etransitivity; [exact Hr|]. vm_compute. reflexivity.
Defined.

Lemma serve_chain_confined_witness :
  ∃ ch, walk_descriptor_chain (config example_q) (w_mem example_w) 0 = Some ch ∧
    changes_only (fun x => in_bufs (writable ch) x ∨ status_byte_of ch x)
      (w_mem example_w) (w_mem (serve_chain count_requests example_w 0 ch).1).
Proof.
  eexists. split; [vm_compute; reflexivity|].
  exact (proj1 (serve_chain_confined count_requests example_q example_w 0 192 0 _
    example_laid_out (Z.le_refl 0) ltac:(vm_compute; reflexivity))).
Defined.
