(* ===== verification/VQueuePeek.v ===== *)
(** * Raw descriptor passes and peeked receive buffers

    [process_queue_descriptors_dirty] leaves a chain in flight when its
    handler declines it and, with EVENT_IDX, looks again after it asked for a
    kick; [peek_writable] collects receive buffers without using them and
    [use_peeked] uses a prefix of them. *)

From S2P Require Import Prelude Dirty GuestMem GuestRam VQueue VQueueWalk VQueueRun.

(** Each peeked chain is the walk of the ring entry at its position. *)
Definition peeked_ok {M : Type} `{!GuestMemoryBackend M} (c : QueueConfig) (m : M) (from : Z)
    (l : list PeekedChain) : Prop :=
  ∀ (i : nat) pc, l !! i = Some pc →
    read_head c m (u16_wrapping_add from (Z.of_nat i)) = Some (head pc) ∧
    ∃ dc, walk_writable c m (head pc) = Some dc ∧
      buffers pc = writable dc ∧ capacity pc = sum_lens (writable dc).

(** Why a peek stopped: enough bytes, no more entries (or a ring's worth),
    or an entry behind good ones that is not an all-writable chain. *)
Definition peek_done {M : Type} `{!GuestMemoryBackend M} (m : M) (avail want : Z)
    (q : VirtQueueProcessor) : Prop :=
  let n := Z.of_nat (length (peeked q)) in
  want ≤ peeked_have (peeked q) ∨
  n = Z.min (u16_wrapping_sub avail (last_avail_idx q)) (size (config q)) ∨
  (peeked q ≠ [] ∧ ∃ hd,
    read_head (config q) m (u16_wrapping_add (last_avail_idx q) n) = Some hd ∧
    walk_writable (config q) m hd = None).

(** How a peek changes the processor: [r] malformed entries at the front are
    skipped, none once a chain is held, and chains are added behind. *)
Definition peek_result {M : Type} `{!GuestMemoryBackend M} (m : M) (avail want : Z)
    (q q' : VirtQueueProcessor) : Prop :=
  ∃ r new,
    q' = mkProc (config q) (u16_wrapping_add (last_avail_idx q) r) (last_used_idx q) (event_idx q)
           (peeked q ++ new) ∧
    0 ≤ r ∧ (peeked q ≠ [] → r = 0) ∧
    r + Z.of_nat (length (peeked q ++ new)) ≤ u16_wrapping_sub avail (last_avail_idx q) ∧
    Z.of_nat (length (peeked q')) ≤ size (config q) ∧
    peeked_ok (config q) m (last_avail_idx q') (peeked q') ∧ peek_done m avail want q'.

(** The entry at the front is a chain that the handler declined when it was
    offered, in some state of memory and device. *)
Definition declined {M H : Type} `{!GuestMemoryBackend M}
    (handler : World M → H → list (Z * Z) → list (Z * Z) → World M * H * option Z)
    (q : VirtQueueProcessor) : Prop :=
  ∃ w h hd ch,
    read_u16 (w_mem w) (avail_slot_addr (config q) (last_avail_idx q)) = Some hd ∧
    walk_descriptor_chain (config q) (w_mem w) hd = Some ch ∧
    (handler w h (readable ch) (writable ch)).2 = None.

Section peek.
Context {M : Type} `{!GuestMemoryBackend M} `{!GuestMemoryLaws M}.
Implicit Types (m : M) (q : VirtQueueProcessor) (c : QueueConfig).

Lemma read_head_ok c m i :
  rings_ok c m → ∃ hd, read_head c m i = Some hd ∧ in_u16 hd.
Proof.
  intros Hr. pose proof (slot_range _ _ i Hr).
  destruct (avail_entry_ok (new_with_indices c i 0) m Hr) as [He Hc].
  unfold avail_entry_addr in He. simpl in He, Hc. unfold read_head.
  destruct (u64_checked_mul (i mod size c) 2) as [r|] eqn:Em; [|done].
  apply u64_checked_mul_Some in Em as [-> _].
  destruct (u64_checked_add 4 (i mod size c * 2)) as [o|]; [|done]. rewrite He.
  by apply read_u16_ok.
Qed.

Lemma peeked_have_snoc l pc : peeked_have (l ++ [pc]) = peeked_have l + capacity pc.
Proof. induction l as [|x l IH]; unfold peeked_have in *; simpl; lia. Qed.

Lemma peeked_ok_snoc c m from l pc :
  peeked_ok c m from l →
  read_head c m (u16_wrapping_add from (Z.of_nat (length l))) = Some (head pc) →
  (∃ dc, walk_writable c m (head pc) = Some dc ∧
    buffers pc = writable dc ∧ capacity pc = sum_lens (writable dc)) →
  peeked_ok c m from (l ++ [pc]).
Proof.
  intros Hl Hh Hw i x Hx. apply lookup_app_Some in Hx as [Hx|[Hi Hx]]; [by apply Hl|].
  apply list_lookup_singleton_Some in Hx as [Hi' <-].
  replace i with (length l) by lia. done.
Qed.

(** The processor as it is when the loop stops. *)
Lemma peek_result_stop m avail want q :
  let n := Z.of_nat (length (peeked q)) in
  in_u16 (last_avail_idx q) →
  n ≤ Z.min (u16_wrapping_sub avail (last_avail_idx q)) (size (config q)) →
  peeked_ok (config q) m (last_avail_idx q) (peeked q) → peek_done m avail want q →
  peek_result m avail want q q.
Proof.
  intros n Hla Hn Hok Hd. exists 0, []. rewrite app_nil_r, u16_wrapping_add_0 by done.
  split_and!; [by destruct q|done|done|lia|lia|done|done].
Qed.

Lemma peek_result_push m avail want q pc q' :
  peek_result m avail want (set_peeked q (peeked q ++ [pc])) q' → peek_result m avail want q q'.
Proof.
  intros (r & new & -> & H1 & H2 & H3 & H4 & H5 & H6). simpl in *.
  exists r, ([pc] ++ new). rewrite app_assoc. simpl.
  split_and!; try done. intros _. apply H2. by destruct (peeked q).
Qed.

Lemma peek_result_reject m avail want q q' :
  in_u16 avail → in_u16 (last_avail_idx q) → avail ≠ last_avail_idx q → peeked q = [] →
  peek_result m avail want (reject_available_chain q) q' → peek_result m avail want q q'.
Proof.
  intros Ha Hla Hne Hp (r & new & -> & H1 & H2 & H3 & H4 & H5 & H6). simpl in *.
  rewrite u16_wrapping_sub_succ in H3 by done. rewrite u16_wrapping_add_assoc in *.
  exists (1 + r), new. rewrite Hp in *. split_and!; [done|lia|done|lia|done..].
Qed.

Lemma peek_loop_ok fuel : ∀ m avail want q,
  let n := Z.of_nat (length (peeked q)) in
  rings_ok (config q) m → in_u16 avail → in_u16 (last_avail_idx q) →
  n ≤ Z.min (u16_wrapping_sub avail (last_avail_idx q)) (size (config q)) →
  peeked_ok (config q) m (last_avail_idx q) (peeked q) →
  u16_wrapping_sub avail (last_avail_idx q) - n ≤ Z.of_nat fuel →
  ∃ q', peek_loop fuel m avail want (peeked_have (peeked q)) q = Some q' ∧
    peek_result m avail want q q'.
Proof.
  induction fuel as [|fuel IH]; intros m avail want q n Hr Ha Hla Hn Hok Hf; cbn [peek_loop].
  all: assert (1 ≤ size (config q) ≤ 1024) as Hsz by apply Hr.
  all: fold n; rewrite (Z.mod_small n) by lia.
  all: destruct (negb _) eqn:Eg;
    [exists q; split; [done|]; apply peek_result_stop; try done;
     apply negb_true_iff, andb_false_iff in Eg as [Eg|Eg]; bool_to_prop; unfold peek_done;
     [by left|right; left; lia]|].
  all: bool_to_prop.
  { lia. }
  destruct (read_head_ok (config q) m (u16_wrapping_add (last_avail_idx q) n) Hr) as (hd & Hh & _).
  rewrite Hh. destruct (walk_writable (config q) m hd) as [dc|] eqn:Ew.
  - set (pc := mkPeeked hd (writable dc) (sum_lens (writable dc))).
    set (q1 := set_peeked q (peeked q ++ [pc])).
    assert (Z.of_nat (length (peeked q1)) = n + 1) as Hn1 by (simpl; rewrite length_app; simpl; lia).
    destruct (IH m avail want q1) as (q' & Hp & Hres); try done.
    { rewrite Hn1. simpl. lia. }
    { apply peeked_ok_snoc; [done|done|]. by exists dc. }
    { rewrite Hn1. simpl. lia. }
    exists q'. split; [|by eapply peek_result_push].
    rewrite <- Hp. unfold q1. simpl. by rewrite peeked_have_snoc.
  - destruct (peeked q) as [|pc l] eqn:Ep.
    + assert (avail ≠ last_avail_idx q) as Hne.
      { intros ->. subst n. rewrite u16_wrapping_sub_diag in *. simpl in *. lia. }
      destruct (IH m avail want (reject_available_chain q)) as (q' & Hp & Hres); simpl; try done.
      all: rewrite ?Ep, ?u16_wrapping_sub_succ by done; simpl in *; try (subst n; simpl in *; lia).
      { apply u16_wrapping_add_range. }
      { intros i x Hx. by rewrite lookup_nil in Hx. }
      exists q'. split; [|by apply peek_result_reject]. simpl in Hp. by rewrite Ep in Hp.
    + exists q. split; [done|]. apply peek_result_stop; rewrite ?Ep; try done.
      right; right. rewrite Ep. split; [done|]. by exists hd.
Qed.

(** ** Using peeked chains *)

Lemma use_peeked_ok lens : ∀ q w sz,
  let c := config q in
  let used := zip (head <$> peeked q) lens in
  let k := length used in
  laid_out (w_mem w) sz → rings_ok c (w_mem w) →
  in_u16 (last_avail_idx q) → in_u16 (last_used_idx q) → Z.of_nat k ≤ size c →
  ∃ w', use_peeked q w lens =
    (mkProc c (u16_wrapping_add (last_avail_idx q) (Z.of_nat k))
       (u16_wrapping_add (last_used_idx q) (Z.of_nat k)) (event_idx q) (drop k (peeked q)), w') ∧
    tracked w w' ∧ changes_only (used_ring_byte c) (w_mem w) (w_mem w') ∧
    reports c (last_used_idx q) used (w_mem w) (w_mem w').
Proof.
  induction lens as [|len lens IH]; intros q w sz c used k Hlay Hr Hla Hlu Hk.
  { exists w. subst k used. simpl. rewrite zip_with_nil_r. simpl. rewrite !u16_wrapping_add_0 by done.
    split_and!; [by destruct q|reflexivity|reflexivity|apply reports_nil]. }
  cbn [use_peeked]. subst k used. destruct (peeked q) as [|pc rest] eqn:Ep.
  { exists w. simpl. rewrite !u16_wrapping_add_0 by done.
    split_and!; [destruct q; simpl in *; by subst|reflexivity|reflexivity|apply reports_nil]. }
  rewrite fmap_cons in *. cbn [zip_with length drop] in *.
  destruct (used_entry_ok q _ Hr) as [Hua _]. rewrite Hua.
  destruct (used_elem_reports w c (last_used_idx q) (head pc) len sz) as (Ht & Hc & Hrep); [done..|].
  fold c. set (w1 := write_mem_ w _ _) in *.
  destruct (IH (advance_used (set_peeked q rest)) w1 sz) as (w' & Hu & Ht' & Hc' & Hrep');
    try apply u16_wrapping_add_range.
  { by eapply tracked_laid_out. }
  { by eapply rings_ok_tracked. }
  { cbn [set_peeked set_indices advance_used peeked config]. fold c. lia. }
  exists w'. cbn [set_peeked set_indices advance_used peeked config last_avail_idx last_used_idx event_idx] in *. rewrite Hu, !u16_wrapping_add_assoc.
  fold c in Hc', Hrep' |- *. rewrite Nat2Z.inj_succ, <- Z.add_1_l.
  split_and!; [done|by transitivity w1|by eapply changes_only_trans|].
  eapply reports_cons; [exact Hr|lia|exact Hrep|exact Hrep'].
Qed.

(** What is left peeked is still the walk of the entries now at the front. *)
Lemma peeked_ok_drop c m from k l :
  peeked_ok c m from l → peeked_ok c m (u16_wrapping_add from (Z.of_nat k)) (drop k l).
Proof.
  intros Hl i pc Hpc. rewrite lookup_drop in Hpc. rewrite u16_wrapping_add_assoc.
  replace (Z.of_nat k + Z.of_nat i) with (Z.of_nat (k + i)) by lia. by apply Hl.
Qed.

Lemma avail_idx_ok q m :
  rings_ok (config q) m →
  ∃ avail, (let?o a := avail_idx_addr q in read_u16 m a) = Some avail ∧ in_u16 avail.
Proof.
  intros ((? & ?) & _ & _ & Ha & _).
  destruct (gm_check_range_u64_bound m _ (4 + size (config q) * 2) ltac:(lia) Ha).
  unfold avail_idx_addr. rewrite (proj2 (u64_checked_add_Some _ _ _)) by (split; [done|lia]).
  apply read_u16_ok. eapply gm_check_range_sub; [| | | |exact Ha]; lia.
Qed.

End peek.

(** ** Raw descriptor passes *)
Section descriptors.
Context {M : Type} `{!GuestMemoryBackend M} `{!GuestMemoryLaws M} {H : Type}.
Implicit Types (w : World M) (q : VirtQueueProcessor) (c : QueueConfig).
Variable handler : World M → H → list (Z * Z) → list (Z * Z) → World M * H * option Z.

(** The bytes of the available index; a handler that tracks what it writes
    and keeps off them, as the network device's does with valid buffers. *)
Variable header : Z → Prop.
Hypothesis handler_ok : ∀ w h rds wrs sz,
  laid_out (w_mem w) sz → Forall (valid_buf (w_mem w)) rds → Forall (valid_buf (w_mem w)) wrs →
  tracked w (handler w h rds wrs).1.1 ∧
  changes_only (fun x => ¬ header x) (w_mem w) (w_mem (handler w h rds wrs).1.1).

Lemma descriptors_loop_ok fuel : ∀ avail q w h n sz,
  laid_out (w_mem w) sz → rings_ok (config q) (w_mem w) →
  (∀ x, used_ring_byte (config q) x → ¬ header x) →
  in_u16 avail → in_u16 (last_avail_idx q) → in_u16 (last_used_idx q) →
  u16_wrapping_sub avail (last_avail_idx q) ≤ Z.of_nat fuel →
  ∃ q' w' h' k stopped,
    descriptors_loop handler fuel avail q w h n = Some (q', w', h', n + k, stopped) ∧
    q' = set_indices q (last_avail_idx q') (u16_wrapping_add (last_used_idx q) k) ∧
    0 ≤ k ≤ u16_wrapping_sub avail (last_avail_idx q) ∧ in_u16 (last_avail_idx q') ∧
    tracked w w' ∧ changes_only (fun x => ¬ header x) (w_mem w) (w_mem w') ∧
    if stopped then declined handler q' else last_avail_idx q' = avail.
Proof.
  induction fuel as [|fuel IH]; intros avail q w h n sz Hlay Hr Hsep Ha Hla Hlu Hf;
    cbn [descriptors_loop]; destruct (last_avail_idx q =? avail) eqn:E; bool_to_prop.
  1, 3: exists q, w, h, 0, false; rewrite Z.add_0_r, u16_wrapping_add_0, E, u16_wrapping_sub_diag by done;
    (split_and!; [done|by destruct q; simpl in *; subst|lia..|done|done|done|done]).
  { pose proof (u16_wrapping_sub_range avail (last_avail_idx q)) as Hs. destruct E.
    symmetry. apply u16_wrapping_sub_0_iff; [done..|]. unfold in_u16 in Hs. lia. }
  assert (avail ≠ last_avail_idx q) as E' by done.
  pose proof (u16_wrapping_sub_succ _ _ Ha Hla E') as Hsub.
  destruct (avail_entry_ok q _ Hr) as [-> Hca].
  destruct (read_u16_ok _ _ Hca) as (hd & Hhd & Hhr). rewrite Hhd.
  destruct (walk_descriptor_chain (config q) (w_mem w) hd) as [ch|] eqn:Ew.
  - destruct (walk_valid_bufs _ _ _ _ (proj1 Hhr) Ew) as [Hrd Hwr].
    pose proof (handler_ok w h _ _ sz Hlay Hrd Hwr) as [Ht1 Hc1].
    destruct (handler w h (readable ch) (writable ch)) as [[w1 h1] [len|]] eqn:Eh; cbn [fst] in *.
    + pose proof (rings_ok_tracked _ _ _ Ht1 Hr) as Hr1.
      destruct (used_entry_ok q _ Hr1) as [-> _].
      destruct (used_elem_reports w1 (config q) (last_used_idx q) hd len sz) as (Ht2 & Hc2 & _);
        [by eapply tracked_laid_out|done|done|]. set (w2 := write_mem_ w1 _ _) in *.
      destruct (IH avail (advance_used q) w2 h1 (n + 1) sz)
        as (q' & w' & h' & k & st & Hp & Hq & Hk & Hi & Ht & Hc & Hst); try done.
      { eapply tracked_laid_out; [exact Ht2|]. by eapply tracked_laid_out. }
      { by eapply rings_ok_tracked. }
      { apply u16_wrapping_add_range. }
      { apply u16_wrapping_add_range. }
      { simpl. lia. }
      exists q', w', h', (1 + k), st. rewrite Z.add_assoc. simpl in Hq, Hk.
      rewrite u16_wrapping_add_assoc in Hq. split_and!; try done; try lia.
      { transitivity w1; [done|]. by transitivity w2. }
      eapply changes_only_trans; [exact Hc1|]. eapply changes_only_trans; [|exact Hc].
      by eapply changes_only_mono.
    + exists q, w1, h1, 0, true. rewrite Z.add_0_r, u16_wrapping_add_0 by done.
      pose proof (u16_wrapping_sub_range avail (last_avail_idx q)) as [? _].
      split_and!; try done; [by destruct q|]. exists w, h, hd, ch. by rewrite Eh.
  - destruct (IH avail (reject_available_chain q) w h n sz)
      as (q' & w' & h' & k & st & Hp & Hq & Hk & Hi & Ht & Hc & Hst); try done.
    { apply u16_wrapping_add_range. }
    { simpl. lia. }
    exists q', w', h', k, st. simpl in Hk. split_and!; try done; lia.
Qed.

Lemma avail_event_ok q w sz seen :
  laid_out (w_mem w) sz → rings_ok (config q) (w_mem w) → in_u16 seen →
  let a := used_ring_addr (config q) + (4 + size (config q) * 8) in
  gm_check_range (w_mem w) a 2 = true →
  let w' := publish_avail_event q w seen in
  tracked w w' ∧ read_u16 (w_mem w') a = Some seen ∧
  changes_only (fun x => a ≤ x < a + 2) (w_mem w) (w_mem w').
Proof.
  intros Hlay Hr Hs a Hc w'.
  destruct (gm_check_range_u64_bound _ a 2 ltac:(lia) Hc) as [_ Hb].
  assert (avail_event_addr q = Some a) as Ha.
  { destruct Hr as ((? & ?) & _). unfold avail_event_addr, USED_ELEM_SIZE.
    rewrite (proj2 (u64_checked_mul_Some _ _ _)) by (split; [done|unfold U64_MAX; lia]).
    rewrite (proj2 (u64_checked_add_Some 4 _ _)) by (split; [done|unfold U64_MAX; lia]).
    apply u64_checked_add_Some. split; [done|]. subst a. lia. }
  subst w'. unfold publish_avail_event. rewrite Ha. split_and!.
  - eapply write_mem_tracked; [done|by left|done].
  - unfold read_u16. pose proof (write_mem_reads w (le_encode 2 seen) a) as Hw.
    rewrite length_le_encode in Hw. change (Z.of_nat 2) with 2 in Hw.
    rewrite Hw; [|done|auto with tarit|done]. simpl.
    f_equal. apply (le_decode_encode 2). unfold in_u16, U16_MAX in Hs. lia.
  - eapply changes_only_mono; [apply write_mem_changes|]. simpl. intros. lia.
Qed.

(** Reading the index field of the header and reading the field alone agree. *)
Lemma read_avail_idx_field m base :
  gm_check_range m base 4 = true → read_avail_idx m base = read_u16 m (base + 2).
Proof.
  intros Hc. destruct (gm_read_total m base 4 ltac:(lia) Hc) as (bs & Hr & Hl & _).
  unfold read_avail_idx, read_u16. rewrite Hr. simpl.
  assert (gm_read_slice m (base + 2) 2 = Some (slice 2 2 bs)) as ->; [|done].
  apply gm_read_iff in Hr as [_ Hr]; [|lia]. apply gm_read_iff; [lia|].
  split; [rewrite length_slice by lia; lia|]. intros i b Hb. unfold slice in Hb.
  apply lookup_take_Some in Hb as [Hb ?]. rewrite lookup_drop in Hb.
  replace (base + 2 + Z.of_nat i) with (base + Z.of_nat (2 + i)) by lia. by apply Hr.
Qed.

(** The index is read again as it was. *)
Lemma reread_avail_idx q w w' avail :
  rings_ok (config q) (w_mem w) → tracked w w' →
  changes_only (fun x => ¬ (avail_ring_addr (config q) ≤ x < avail_ring_addr (config q) + 4))
    (w_mem w) (w_mem w') →
  read_avail_idx (w_mem w) (avail_ring_addr (config q)) = Some avail →
  (let?o a := avail_idx_addr q in read_u16 (w_mem w') a) = Some avail.
Proof.
  intros Hr Ht Hc Hav. pose proof Hr as ((? & ?) & _ & _ & Ha & _).
  destruct (gm_check_range_u64_bound _ _ (4 + size (config q) * 2) ltac:(lia) Ha).
  assert (gm_check_range (w_mem w') (avail_ring_addr (config q)) 4 = true) as H4.
  { rewrite (proj1 Ht). eapply gm_check_range_sub; [| | | |exact Ha]; lia. }
  unfold avail_idx_addr. rewrite (proj2 (u64_checked_add_Some _ _ _)) by (split; [done|lia]).
  rewrite <- read_avail_idx_field by done. rewrite <- Hav. unfold read_avail_idx. f_equal.
  eapply read_outside; [lia|exact Hc|]. intros x Hx Hn. by apply Hn.
Qed.

End descriptors.

(** ** The claims *)

(** A raw descriptor pass over a usable queue ends after one look at the
    available index when neither the used ring nor the handler overwrites that
    index. It stops at the first chain the handler declines, which stays at
    the front of the queue, or else takes every published entry; the used
    index (and with EVENT_IDX the index of the next entry it wants a kick for)
    reads back from guest memory, and every changed byte is on a page the
    tracker records. *)
Theorem descriptors_pass {M H : Type} `{!GuestMemoryBackend M} `{!GuestMemoryLaws M}
    (handler : World M → H → list (Z * Z) → list (Z * Z) → World M * H * option Z)
    fuel q (w : World M) h sz :
  let c := config q in
  let header := fun x => avail_ring_addr c ≤ x < avail_ring_addr c + 4 in
  let event := used_ring_addr c + (4 + size c * 8) in
  (∀ w h rds wrs sz,
    laid_out (w_mem w) sz → Forall (valid_buf (w_mem w)) rds → Forall (valid_buf (w_mem w)) wrs →
    tracked w (handler w h rds wrs).1.1 ∧
    changes_only (fun x => ¬ header x) (w_mem w) (w_mem (handler w h rds wrs).1.1)) →
  laid_out (w_mem w) sz → in_u16 (last_avail_idx q) → in_u16 (last_used_idx q) →
  queue_is_usable q (w_mem w) = true →
  (∀ x, used_ring_addr c ≤ x < event + 2 → ¬ header x) →
  (event_idx q = true → gm_check_range (w_mem w) event 2 = true) →
  ∃ avail q' w' h' k,
    read_avail_idx (w_mem w) (avail_ring_addr c) = Some avail ∧
    process_queue_descriptors_dirty handler (S fuel) q w h = Some (q', w', h', k) ∧
    last_used_idx q' = u16_wrapping_add (last_used_idx q) k ∧
    0 ≤ k ≤ u16_wrapping_sub avail (last_avail_idx q) ∧
    (last_avail_idx q' = avail ∨ declined handler q') ∧ tracked w w' ∧
    read_u16 (w_mem w') (used_ring_addr c + 2) = Some (last_used_idx q') ∧
    (event_idx q = true → read_u16 (w_mem w') event = Some (last_avail_idx q')).
Proof.
  intros c header event Hh Hlay Hla Hlu Hus Hsep Hev.
  pose proof (queue_is_usable_rings _ _ Hus) as Hr. fold c in Hr.
  destruct (read_avail_idx_ok _ _ Hr) as (avail & Hav & Ha).
  pose proof (u16_wrapping_sub_range avail (last_avail_idx q)) as Hrg. unfold in_u16 in Hrg.
  destruct (descriptors_loop_ok handler header Hh
    (Z.to_nat (u16_wrapping_sub avail (last_avail_idx q))) avail q w h 0 sz)
    as (q1 & w1 & h1 & k & st & Hp & Hq & Hk & Hi & Ht & Hc & Hst); try done; [| lia|].
  { intros x Hx. apply Hsep. unfold used_ring_byte in Hx. fold c in Hx. subst event. lia. }
  assert (config q1 = c ∧ event_idx q1 = event_idx q ∧
    last_used_idx q1 = u16_wrapping_add (last_used_idx q) k) as (Hcq & Heq & Huq)
    by (rewrite Hq; done). clear Hq.
  destruct (publish_used_idx_ok q1 w1 sz) as (Ht2 & Hrd & Hc2);
    [by eapply tracked_laid_out|rewrite Hcq; by eapply rings_ok_tracked
    |rewrite Huq; apply u16_wrapping_add_range|].
  rewrite Hcq in Hrd, Hc2. set (w2 := publish_used_idx q1 w1) in *.
  assert (tracked w w2) as Htw by (by transitivity w1).
  assert (last_avail_idx q1 = avail ∨ declined handler q1) as Hend by (destruct st; auto).
  exists avail, q1. unfold process_queue_descriptors_dirty. rewrite Hus.
  cbn [negb descriptors_outer]. fold c. rewrite Hav, Hp. fold w2.
  destruct (event_idx q) eqn:Ee; rewrite Heq; cbn [negb].
  2: { exists w2, h1, k. split_and!; try done; lia. }
  destruct (avail_event_ok q1 w2 sz (last_avail_idx q1)) as (Ht3 & Hrd3 & Hc3).
  { by eapply tracked_laid_out. }
  { rewrite Hcq. by eapply rings_ok_tracked. }
  { done. }
  { rewrite Hcq. rewrite (proj1 Htw). by apply Hev. }
  rewrite Hcq in Hrd3, Hc3. fold event in Hrd3, Hc3.
  set (w3 := publish_avail_event q1 w2 (last_avail_idx q1)) in *.
  assert (read_u16 (w_mem w3) (used_ring_addr c + 2) = Some (last_used_idx q1)) as Hrd'.
  { rewrite <- Hrd. unfold read_u16. f_equal. eapply read_outside; [done|exact Hc3|].
    destruct Hr as [? _]. intros x Hx. subst event. lia. }
  assert (tracked w w3) as Ht' by (by transitivity w2).
  exists w3, h1, k. split_and!; try done; [|lia..].
  destruct st; [done|]. rewrite (reread_avail_idx q1 w w3 avail); rewrite ?Hcq; try done.
  { by rewrite Hst, Z.eqb_refl. }
  assert (Hmono : ∀ (P : Z → Prop) m m', changes_only P m m' →
    (∀ x, P x → used_ring_addr c ≤ x < event + 2) → changes_only (fun x => ¬ header x) m m').
  { intros P m m' HP Hin. eapply changes_only_mono; [exact HP|]. intros x Hx. apply Hsep. auto. }
  destruct Hr as [? _]. eapply changes_only_trans; [exact Hc|].
  eapply changes_only_trans; eapply Hmono; [exact Hc2| |exact Hc3|]; intros x; simpl; subst event; lia.
Qed.

(** Peeking at a usable queue terminates and uses nothing: each chain it
    holds is the walk of the ring entry at its position, all device-writable,
    with its buffers and capacity; it skips malformed entries only while it
    holds no chain; it stops only with [want] bytes, at the end of the
    published entries or a full ring, or before an entry that is malformed. *)
Theorem peek_writable_sound {M : Type} `{!GuestMemoryBackend M} `{!GuestMemoryLaws M}
    (q : VirtQueueProcessor) (m : M) want avail :
  queue_is_usable q m = true → in_u16 (last_avail_idx q) →
  (let?o a := avail_idx_addr q in read_u16 m a) = Some avail →
  Z.of_nat (length (peeked q)) ≤ Z.min (u16_wrapping_sub avail (last_avail_idx q)) (size (config q)) →
  peeked_ok (config q) m (last_avail_idx q) (peeked q) →
  ∃ q', peek_writable q m want = Some q' ∧ peek_result m avail want q q'.
Proof.
  intros Hu Hla Hav Hn Hok. pose proof (queue_is_usable_rings _ _ Hu) as Hr.
  destruct (avail_idx_ok q m Hr) as (avail' & Hav' & Ha).
  unfold peek_writable. rewrite Hu, Hav. cbn [negb]. rewrite Hav in Hav'. injection Hav' as <-.
  pose proof (u16_wrapping_sub_range avail (last_avail_idx q)) as Hs. unfold in_u16 in Hs.
  apply peek_loop_ok; [done..|lia].
Qed.

(** Using peeked chains with a list of lengths uses as many of them as
    both lists have, in order: both cursors advance by that number, the used
    ring from the old used index on holds the heads with their lengths, every
    byte written is recorded by the tracker and lies in the used ring, and the
    chains still peeked remain the walks of the entries now at the front. *)
Theorem use_peeked_reports {M : Type} `{!GuestMemoryBackend M} `{!GuestMemoryLaws M}
    (q : VirtQueueProcessor) (w : World M) lens sz :
  let c := config q in
  let used := zip (head <$> peeked q) lens in
  let k := length used in
  laid_out (w_mem w) sz → queue_is_usable q (w_mem w) = true →
  in_u16 (last_avail_idx q) → in_u16 (last_used_idx q) →
  (length (peeked q) ≤ Z.to_nat (size c))%nat →
  peeked_ok c (w_mem w) (last_avail_idx q) (peeked q) →
  ∃ q' w', use_peeked q w lens = (q', w') ∧
    last_avail_idx q' = u16_wrapping_add (last_avail_idx q) (Z.of_nat k) ∧
    last_used_idx q' = u16_wrapping_add (last_used_idx q) (Z.of_nat k) ∧
    peeked q' = drop k (peeked q) ∧
    peeked_ok c (w_mem w) (last_avail_idx q') (peeked q') ∧
    tracked w w' ∧ changes_only (used_ring_byte c) (w_mem w) (w_mem w') ∧
    reports c (last_used_idx q) used (w_mem w) (w_mem w').
Proof.
  intros c used k Hlay Hu Hla Hlu Hn Hok. pose proof (queue_is_usable_rings _ _ Hu) as Hr.
  destruct (use_peeked_ok lens q w sz) as (w' & -> & Ht & Hc & Hrep); try done.
  { subst c. destruct Hr as [? _]. rewrite length_zip_with, length_fmap. lia. }
  eexists _, w'. split; [done|]. cbn [last_avail_idx last_used_idx peeked].
  split_and!; try done. by apply peeked_ok_drop.
Qed.

(** With EVENT_IDX the driver is interrupted exactly when the used entry
    it named is among those added since the last look, positions [old_used]
    to [last_used_idx - 1] around the 16-bit wrap; when its choice cannot be
    read, and without EVENT_IDX, it is always interrupted. *)
Theorem needs_notification_exact {M : Type} `{!GuestMemoryBackend M}
    (q : VirtQueueProcessor) (m : M) old_used :
  in_u16 old_used → in_u16 (last_used_idx q) →
  (∀ a x, read_u16 m a = Some x → in_u16 x) →
  needs_notification q m old_used = true ↔
  event_idx q = false ∨
  match (let?o a := used_event_addr q in read_u16 m a) with
  | None => True
  | Some used_event =>
      ∃ j, 0 ≤ j < u16_wrapping_sub (last_used_idx q) old_used ∧
        used_event = u16_wrapping_add old_used j
  end.
Proof.
  intros Ho Hn Hrd. unfold needs_notification. destruct (event_idx q); cbn [negb]; [|tauto].
  destruct (let?o a := used_event_addr q in read_u16 m a) as [ue|] eqn:Er; [|tauto].
  assert (in_u16 ue) as Hu by (destruct (used_event_addr q); [by eapply Hrd|done]).
  unfold need_event. rewrite Z.ltb_lt.
  unfold u16_wrapping_sub, u16_wrapping_add, in_u16, U16_MAX in *.
  split; [intros Hlt; right|intros [?|(j & Hj & ->)]; [done|]].
  - exists ((ue - old_used) mod 65536). zlia.
  - zlia.
Qed.

(** ** Examples: two one-byte receive buffers, both from descriptor 1 *)

Definition example_rx_mem : gmap Z Z := ByteMap.store ExampleQueue.mem 64 [0; 0; 2; 0; 1; 0; 1; 0].
Definition example_rx : VirtQueueProcessor := mkProc ExampleQueue.cfg 0 0 true [].

Lemma example_rx_laid_out : laid_out example_rx_mem 192.
Proof.
  destruct example_laid_out as [Hs Hl]. split; [done|]. intros a Ha. unfold example_rx_mem.
  rewrite store_check by (vm_compute; reflexivity). by apply Hl.
Qed.

(** The processor after a peek at both. *)
Definition example_peeked : VirtQueueProcessor :=
  set_peeked example_rx [mkPeeked 1 [(160, 1)] 1; mkPeeked 1 [(160, 1)] 1].

Lemma example_peek : peek_writable example_rx example_rx_mem 2 = Some example_peeked.
Proof. vm_compute. reflexivity. Qed.

Lemma example_heads i :
  (i < 2)%nat → read_head ExampleQueue.cfg example_rx_mem (u16_wrapping_add 0 (Z.of_nat i)) = Some 1.
Proof. intros Hi. destruct i as [|[|i]]; [vm_compute; reflexivity..|lia]. Qed.

Lemma example_walk_rx :
  walk_writable ExampleQueue.cfg example_rx_mem 1 = Some (mkChain [] [(160, 1)] 1).
Proof. vm_compute. reflexivity. Qed.

Lemma example_peeked_ok :
  peeked_ok (config example_peeked) example_rx_mem (last_avail_idx example_peeked)
    (peeked example_peeked).
Proof.
  intros i pc Hpc. assert (pc = mkPeeked 1 [(160, 1)] 1 ∧ (i < 2)%nat) as [-> Hi].
  { destruct i as [|[|i]]; [by injection Hpc as <-; split; [|lia]..|done]. }
  split; [by apply example_heads|]. exists (mkChain [] [(160, 1)] 1).
  split; [exact example_walk_rx|done].
Qed.

Lemma peek_writable_sound_witness :
  ∃ q', peek_writable example_rx example_rx_mem 2 = Some q' ∧
    peek_result example_rx_mem 2 2 example_rx q' ∧ length (peeked q') = 2%nat.
Proof.
  destruct (peek_writable_sound example_rx example_rx_mem 2 2) as (q' & Hp & Hr).
  { vm_compute. reflexivity. }
  { exact example_u16. }
  { vm_compute. reflexivity. }
  { vm_compute. discriminate. }
  { intros i pc Hi. by destruct i. }
  exists q'. split; [exact Hp|]. split; [exact Hr|].
  rewrite example_peek in Hp. injection Hp as <-. reflexivity.
Defined.

(** One of the two peeked buffers is used with three bytes. *)
Lemma use_peeked_reports_witness :
  ∃ q' w', use_peeked example_peeked (mkWorld example_rx_mem None) [3] = (q', w') ∧
    last_used_idx q' = 1 ∧ peeked q' = [mkPeeked 1 [(160, 1)] 1].
Proof.
  destruct (use_peeked_reports example_peeked (mkWorld example_rx_mem None) [3] 192
    example_rx_laid_out) as (q' & w' & Hu & _ & Hlu & Hp & _).
  { vm_compute. reflexivity. }
  { exact example_u16. }
  { exact example_u16. }
  { vm_compute. lia. }
  { exact example_peeked_ok. }
  exists q', w'. split; [exact Hu|]. split; [exact Hlu|exact Hp].
Defined.

(** A transmit handler that drops every frame. *)
Definition drop_frames (w : World (gmap Z Z)) (h : Z) (_ _ : list (Z * Z))
    : World (gmap Z Z) * Z * option Z := (w, h + 1, Some 0).

Lemma descriptors_pass_witness :
  ∃ avail q' w' h' k,
    process_queue_descriptors_dirty drop_frames 1 example_rx (mkWorld example_rx_mem None) 0 =
      Some (q', w', h', k) ∧
    (last_avail_idx q' = avail ∨ declined drop_frames q') ∧
    read_u16 (w_mem w') 98 = Some (last_used_idx q').
Proof.
  destruct (descriptors_pass drop_frames 0 example_rx (mkWorld example_rx_mem None) 0 192)
    as (avail & q' & w' & h' & k & _ & Hp & _ & _ & He & _ & Hr & _).
  - intros w h rds wrs sz _ _ _. split; simpl; reflexivity.
  - exact example_rx_laid_out.
  - exact example_u16.
  - exact example_u16.
  - vm_compute. reflexivity.
  - intros x. simpl. lia.
  - intros _. vm_compute. reflexivity.
  - exists avail, q', w', h', k. exact (conj Hp (conj He Hr)).
Defined.

Lemma needs_notification_exact_witness :
  needs_notification (set_indices example_rx 0 1) example_rx_mem 0 = true ↔
  true = false ∨
  match read_u16 example_rx_mem 72 with
  | None => True
  | Some used_event =>
      ∃ j, 0 ≤ j < u16_wrapping_sub 1 0 ∧ used_event = u16_wrapping_add 0 j
  end.
Proof.
  apply (needs_notification_exact (set_indices example_rx 0 1) example_rx_mem 0 example_u16).
  - unfold in_u16, U16_MAX. simpl. lia.
  - intros a x Hx. assert (gm_check_range example_rx_mem a 2 = true) as Hc.
    { unfold read_u16 in Hx. destruct (gm_read_slice example_rx_mem a 2) eqn:E; [|done].
      eapply gm_read_Some_check; [|exact E]. lia. }
    apply read_u16_ok in Hc as (y & Hy & Hr). congruence.
Defined.
