(* ===== verification/VQueueServe.v ===== *)
(** * What a descriptor pass does to the chains of a well-behaved driver

    A driver that keeps its rings and the buffers the device writes apart
    fixes, when it publishes the available index, which chains the device will
    serve: the pass then is the handler run on each of them in order, with one
    used entry written after each. This holds with and without event indices;
    one look at the available index is enough. *)

From S2P Require Import Prelude Dirty GuestMem GuestRam VQueue VQueueWalk VQueueRun VQueuePeek.

(** The used ring with the event word behind it. *)
Definition used_zone (c : QueueConfig) (x : Z) : Prop :=
  used_ring_addr c ≤ x < used_ring_addr c + (4 + size c * 8) + 2.

(** The accepted chains among published heads, with their heads. *)
Definition requests {M : Type} `{!GuestMemoryBackend M} (m : M) (c : QueueConfig) (hds : list Z)
    : list (Z * DescriptorChain) :=
  omap (fun hd => (fun ch => (hd, ch)) <$> walk_descriptor_chain c m hd) hds.

(** The bytes the device may write for the chains. *)
Definition written (reqs : list (Z * DescriptorChain)) (x : Z) : Prop :=
  ∃ r, r ∈ reqs ∧ in_bufs (writable r.2) x.

Lemma written_cons r reqs x : written (r :: reqs) x ↔ in_bufs (writable r.2) x ∨ written reqs x.
Proof. unfold written. set_solver. Qed.

(** The driver keeps the used ring apart from what the device reads of the
    queue, and the writable buffers of the chains apart from both. *)
Definition rings_apart (c : QueueConfig) (reqs : list (Z * DescriptorChain)) : Prop :=
  (∀ x, used_zone c x → ¬ table_or_avail c x) ∧
  (∀ x, written reqs x → ¬ table_or_avail c x ∧ ¬ used_zone c x).

(** The handler on each chain in turn: its answer becomes the length in the
    used entry at the next position. *)
Inductive serves {M H : Type} `{!GuestMemoryBackend M}
    (handler : World M → H → list (Z * Z) → list (Z * Z) → World M * H * option Z) (c : QueueConfig) :
    Z → list (Z * DescriptorChain) → World M → H → list Z → World M → H → Prop :=
| serves_nil u w h : serves handler c u [] w h [] w h
| serves_cons u hd ch reqs w h w1 h1 len lens w' h' :
    handler w h (readable ch) (writable ch) = (w1, h1, Some len) →
    serves handler c (u16_wrapping_add u 1) reqs
      (write_mem_ w1 (encode_used_elem hd len) (used_slot_addr c u)) h1 lens w' h' →
    serves handler c u ((hd, ch) :: reqs) w h (len :: lens) w' h'.

Lemma used_ring_zone c x : used_ring_byte c x → used_zone c x.
Proof. unfold used_ring_byte, used_zone. lia. Qed.

Section serve.
Context {M H : Type} `{!GuestMemoryBackend M} `{!GuestMemoryLaws M}.
Variable handler : World M → H → list (Z * Z) → list (Z * Z) → World M * H * option Z.

(** The handler answers every chain, writes only its writable buffers, tracks
    what it writes and keeps [I]. *)
Variable I : H → Prop.
Hypothesis handler_serves : ∀ w h rds wrs sz,
  I h → laid_out (w_mem w) sz → Forall (valid_buf (w_mem w)) rds → Forall (valid_buf (w_mem w)) wrs →
  sum_lens (rds ++ wrs) ≤ MAX_CHAIN_BYTES →
  ∃ w1 h1 len, handler w h rds wrs = (w1, h1, Some len) ∧ I h1 ∧ tracked w w1 ∧
    changes_only (in_bufs wrs) (w_mem w) (w_mem w1).

Lemma walk_chain_bytes c m hd ch :
  0 ≤ hd → walk_descriptor_chain c m hd = Some ch → sum_lens (readable ch ++ writable ch) ≤ MAX_CHAIN_BYTES.
Proof.
  intros Hh Hw. apply walk_with_iff in Hw as (p & _ & _ & Hs & _ & ->); [|apply read_descriptor_in_range|done].
  cbn [chain_of readable writable]. by rewrite sum_buffers.
Qed.

(** One chain and its used entry. *)
Lemma serve_one w h u c hd ch sz :
  I h → laid_out (w_mem w) sz → rings_ok c (w_mem w) → in_u16 u →
  Forall (valid_buf (w_mem w)) (readable ch) → Forall (valid_buf (w_mem w)) (writable ch) →
  sum_lens (readable ch ++ writable ch) ≤ MAX_CHAIN_BYTES →
  ∃ w1 h1 len, handler w h (readable ch) (writable ch) = (w1, h1, Some len) ∧ I h1 ∧
    let w2 := write_mem_ w1 (encode_used_elem hd len) (used_slot_addr c u) in
    tracked w w2 ∧
    changes_only (fun x => in_bufs (writable ch) x ∨ used_zone c x) (w_mem w) (w_mem w2).
Proof.
  intros Hh Hlay Hr Hu Hrd Hwr Hsum.
  destruct (handler_serves w h (readable ch) (writable ch) sz Hh Hlay Hrd Hwr Hsum) as (w1 & h1 & len & -> & Hh1 & Ht1 & Hc1).
  exists w1, h1, len. split; [done|]. split; [done|]. intros w2.
  destruct (used_elem_reports w1 c u hd len sz) as (Ht2 & Hc2 & _);
    [by eapply tracked_laid_out|by eapply rings_ok_tracked|done|].
  split; [by transitivity w1|]. eapply changes_only_trans.
  - eapply changes_only_mono; [exact Hc1|]. auto.
  - eapply changes_only_mono; [exact Hc2|]. intros x Hx. right. by apply used_ring_zone.
Qed.

(** The loop from any point on, for a memory that differs from [m0] only where
    the device may write. *)
Lemma descriptors_loop_serves m0 c all sz fuel : ∀ avail q w h n,
  config q = c →
  let todo := u16_wrapping_sub avail (last_avail_idx q) in
  let reqs := requests m0 c (published m0 c (last_avail_idx q) fuel) in
  laid_out (w_mem w) sz → rings_ok c m0 → rings_apart c all → reqs ⊆ all → I h →
  (∀ x k, gm_check_range (w_mem w) x k = gm_check_range m0 x k) →
  changes_only (fun x => ¬ table_or_avail c x) m0 (w_mem w) →
  in_u16 avail → in_u16 (last_avail_idx q) → in_u16 (last_used_idx q) → Z.to_nat todo = fuel →
  ∃ lens w' h',
    descriptors_loop handler fuel avail q w h n =
      Some (set_indices q avail (u16_wrapping_add (last_used_idx q) (Z.of_nat (length reqs))), w', h',
            n + Z.of_nat (length reqs), false) ∧
    serves handler c (last_used_idx q) reqs w h lens w' h' ∧ I h' ∧ tracked w w' ∧
    changes_only (fun x => ¬ table_or_avail c x) (w_mem w) (w_mem w').
Proof.
  induction fuel as [|fuel IH];
    intros avail q w h n Hcfg todo reqs Hlay Hr Hap Hsub Hh Hck Hch Ha Hla Hlu Hf;
    pose proof (u16_wrapping_sub_range avail (last_avail_idx q)) as Hrg; unfold in_u16 in Hrg;
    cbn [descriptors_loop]; destruct (last_avail_idx q =? avail) eqn:E; bool_to_prop.
  - exists [], w, h. simpl. rewrite Z.add_0_r, <- E, u16_wrapping_add_0 by done.
    split_and!; [by destruct q|constructor|done..].
  - destruct E. symmetry. apply u16_wrapping_sub_0_iff; [done..|]. fold todo. lia.
  - subst todo. rewrite E, u16_wrapping_sub_diag in Hf. done.
  - assert (avail ≠ last_avail_idx q) as E' by done.
    pose proof (u16_wrapping_sub_succ _ _ Ha Hla E') as Hsuc. fold todo in Hsuc.
    assert (rings_ok c (w_mem w)) as Hrw by (unfold rings_ok; by rewrite !Hck).
    destruct (avail_entry_ok q (w_mem w)) as [-> Hca]; [by rewrite Hcfg|]. rewrite Hcfg in Hca |- *.
    destruct (read_u16_ok _ _ Hca) as (hd & Hhd & Hhr). rewrite Hhd.
    assert (read_u16 m0 (avail_slot_addr c (last_avail_idx q)) = Some hd) as Hhd0.
    { rewrite <- Hhd. unfold read_u16. f_equal. symmetry. eapply read_outside; [done|exact Hch|].
      pose proof (slot_range _ _ (last_avail_idx q) Hr).
      intros x Hx Hn. apply Hn. right. unfold avail_slot_addr in Hx. lia. }
    assert (Hwk := walk_stable c m0 (w_mem w) hd (proj1 Hhr) Hr Hck Hch). rewrite Hwk.
    subst reqs. cbn [published] in *. rewrite Hhd0 in *. unfold requests in *. cbn [omap list_omap] in *.
    destruct (walk_descriptor_chain c m0 hd) as [ch|] eqn:Ew; cbn [fmap option_fmap option_map] in *.
    + destruct (walk_valid_bufs _ _ _ _ (proj1 Hhr) Hwk) as [Hrd Hwr].
      destruct (serve_one w h (last_used_idx q) c hd ch sz) as (w1 & h1 & len & Hrun & Hh1 & Ht2 & Hc2);
        [done..|apply (walk_chain_bytes c (w_mem w) hd ch (proj1 Hhr) Hwk)|].
      set (w2 := write_mem_ w1 _ _) in *. rewrite Hrun.
      destruct (used_entry_ok q m0) as [-> _]; [by rewrite Hcfg|]. rewrite Hcfg. fold w2.
      assert (changes_only (fun x => ¬ table_or_avail c x) (w_mem w) (w_mem w2)) as Hc3.
      { eapply changes_only_mono; [exact Hc2|]. intros x [Hx|Hx]; [|by apply (proj1 Hap)].
        apply (proj2 Hap). exists (hd, ch). split; [|done]. apply Hsub. by left. }
      destruct (IH avail (advance_used q) w2 h1 (n + 1)) as (lens & w' & h' & Hp & Hs & Hh' & Ht & Hc);
        simpl; try done; try apply u16_wrapping_add_range; try (fold todo; lia).
      { by eapply tracked_laid_out. }
      { intros r Hx. apply Hsub. by right. }
      { intros. by rewrite (proj1 Ht2). }
      { by eapply changes_only_trans. }
      simpl in Hp, Hs. exists (len :: lens), w', h'. rewrite Hp, u16_wrapping_add_assoc.
      cbn [length]. rewrite Nat2Z.inj_succ, <- Z.add_1_l, Z.add_assoc.
      split_and!; [done|by eapply serves_cons|done|by transitivity w2|by eapply changes_only_trans].
    + destruct (IH avail (reject_available_chain q) w h n) as (lens & w' & h' & Hp & Hs & Hh' & Ht & Hc);
        simpl; try done; try apply u16_wrapping_add_range; try (fold todo; lia).
      exists lens, w', h'. done.
Qed.

(** The end of a pass that has come to all it saw, or has stopped: one more
    look at the ring finds nothing new. *)
Lemma descriptors_outer_end fuel q w h n q1 w1 h1 n1 stopped sz avail :
  let c := config q1 in
  let event := used_ring_addr c + (4 + size c * 8) in
  read_avail_idx (w_mem w) (avail_ring_addr c) = Some avail →
  descriptors_loop handler (Z.to_nat (u16_wrapping_sub avail (last_avail_idx q))) avail q w h n =
    Some (q1, w1, h1, n1, stopped) →
  config q = c → laid_out (w_mem w) sz → rings_ok c (w_mem w) → (∀ x, used_zone c x → ¬ table_or_avail c x) →
  tracked w w1 → changes_only (fun x => ¬ table_or_avail c x) (w_mem w) (w_mem w1) →
  in_u16 (last_avail_idx q1) → in_u16 (last_used_idx q1) → (stopped = false → last_avail_idx q1 = avail) →
  (event_idx q1 = true → gm_check_range (w_mem w) event 2 = true) →
  ∃ w', descriptors_outer handler (S fuel) q w h n = Some (q1, w', h1, n1) ∧ tracked w w' ∧
    changes_only (fun x => used_ring_addr c + 2 ≤ x < used_ring_addr c + 4 ∨ event ≤ x < event + 2)
      (w_mem w1) (w_mem w') ∧
    read_u16 (w_mem w') (used_ring_addr c + 2) = Some (last_used_idx q1).
Proof.
  intros c event Hav Hloop Hcfg Hlay Hr Hz Ht1 Hc1 Ha1 Hu1 Hst Hev.
  destruct (publish_used_idx_ok q1 w1 sz) as (Ht2 & Hrd & Hc2);
    [by eapply tracked_laid_out|by eapply rings_ok_tracked|done|].
  fold c in Hrd, Hc2. set (w2 := publish_used_idx q1 w1) in *. assert (tracked w w2) as Htw by (by transitivity w1).
  cbn [descriptors_outer]. rewrite Hcfg, Hav, Hloop. fold w2. destruct (event_idx q1) eqn:Ee; cbn [negb].
  2: { exists w2. split_and!; try done. eapply changes_only_mono; [exact Hc2|]. auto. }
  destruct (avail_event_ok q1 w2 sz (last_avail_idx q1)) as (Ht3 & Hrd3 & Hc3);
    [by eapply tracked_laid_out|by eapply rings_ok_tracked|done|rewrite (proj1 Htw); by apply Hev|].
  fold c in Hrd3, Hc3. fold event in Hrd3, Hc3. set (w3 := publish_avail_event q1 w2 (last_avail_idx q1)) in *.
  exists w3. split_and!.
  - destruct stopped; [done|]. rewrite (reread_avail_idx q1 w w3 avail); try done.
    { by rewrite Hst, Z.eqb_refl. }
    { by transitivity w2. }
    fold c. destruct Hr as (? & _).
    assert (Hmono : ∀ (P : Z → Prop) m1 m2, changes_only P m1 m2 → (∀ x, P x → ¬ table_or_avail c x) →
      changes_only (fun x => ¬ (avail_ring_addr c ≤ x < avail_ring_addr c + 4)) m1 m2).
    { intros P m1 m2 HP Hin. eapply changes_only_mono; [exact HP|]. intros x Hx Hn. apply (Hin x Hx).
      right. lia. }
    eapply changes_only_trans; [by eapply Hmono|].
    eapply changes_only_trans; eapply Hmono; [exact Hc2| |exact Hc3|];
      intros x Hx; apply Hz; unfold used_zone; simpl in Hx; subst event; lia.
  - by transitivity w2.
  - eapply changes_only_trans; (eapply changes_only_mono; [eassumption|]); simpl; auto.
  - rewrite <- Hrd. unfold read_u16. f_equal. eapply read_outside; [done|exact Hc3|].
    destruct Hr as (? & _). intros x Hx. subst event. lia.
Qed.

(** A whole pass. *)
Lemma descriptors_pass_serves fuel q w h sz avail :
  let c := config q in
  let m := w_mem w in
  let event := used_ring_addr c + (4 + size c * 8) in
  let reqs := requests m c (published m c (last_avail_idx q)
                (Z.to_nat (u16_wrapping_sub avail (last_avail_idx q)))) in
  let used' := u16_wrapping_add (last_used_idx q) (Z.of_nat (length reqs)) in
  laid_out m sz → in_u16 (last_avail_idx q) → in_u16 (last_used_idx q) →
  queue_is_usable q m = true → rings_apart c reqs → I h →
  (event_idx q = true → gm_check_range m event 2 = true) →
  read_avail_idx m (avail_ring_addr c) = Some avail →
  ∃ lens w1 w' h',
    process_queue_descriptors_dirty handler (S fuel) q w h =
      Some (set_indices q avail used', w', h', Z.of_nat (length reqs)) ∧
    serves handler c (last_used_idx q) reqs w h lens w1 h' ∧ I h' ∧ tracked w w' ∧
    changes_only (fun x => used_ring_addr c + 2 ≤ x < used_ring_addr c + 4 ∨ event ≤ x < event + 2)
      (w_mem w1) (w_mem w') ∧
    read_u16 (w_mem w') (used_ring_addr c + 2) = Some used'.
Proof.
  intros c m event reqs used' Hlay Hla Hlu Hus Hap Hh Hev Hav.
  pose proof (queue_is_usable_rings _ _ Hus) as Hr. fold c in Hr.
  destruct (read_avail_idx_ok _ _ Hr) as (avail' & Hav' & Ha). fold m in Hav'.
  rewrite Hav in Hav'. injection Hav' as <-.
  destruct (descriptors_loop_serves m c reqs sz (Z.to_nat (u16_wrapping_sub avail (last_avail_idx q)))
    avail q w h 0) as (lens & w1 & h' & Hp & Hs & Hh' & Ht1 & Hc1); try done. fold c reqs used' in Hp, Hs.
  destruct (descriptors_outer_end fuel q w h 0 (set_indices q avail used') w1 h' (0 + Z.of_nat (length reqs)) false sz avail)
    as (w' & Ho & Ht & Hc & Hrd); try done; [apply Hap|apply u16_wrapping_add_range|].
  exists lens, w1, w', h'. unfold process_queue_descriptors_dirty. fold m. rewrite Hus. cbn [negb].
  split_and!; try done.
Qed.

(** The chains that are served are in memory. *)
Lemma requests_elem m c hds hd ch :
  (hd, ch) ∈ requests m c hds → hd ∈ hds ∧ walk_descriptor_chain c m hd = Some ch.
Proof.
  unfold requests. rewrite list_elem_of_omap. intros (hd' & Hin & Hw).
  destruct (walk_descriptor_chain c m hd') eqn:E; simpl in Hw; [|done]. by injection Hw as <- <-.
Qed.

(** The chains have buffers in memory and at most [MAX_CHAIN_BYTES]. *)
Definition requests_ok (m : M) (reqs : list (Z * DescriptorChain)) : Prop :=
  Forall (fun r => Forall (valid_buf m) (readable r.2) ∧ Forall (valid_buf m) (writable r.2) ∧
    sum_lens (readable r.2 ++ writable r.2) ≤ MAX_CHAIN_BYTES) reqs.

Lemma requests_valid m c hds : Forall (fun hd => 0 ≤ hd) hds → requests_ok m (requests m c hds).
Proof.
  intros Hh. apply Forall_forall. intros [hd ch] Hr. apply requests_elem in Hr as [Hin Hw].
  rewrite Forall_forall in Hh. specialize (Hh hd Hin). destruct (walk_valid_bufs _ _ _ _ Hh Hw).
  split_and!; [done|done|]. by eapply walk_chain_bytes.
Qed.

Lemma requests_ok_tracked w w' reqs : tracked w w' → requests_ok (w_mem w) reqs → requests_ok (w_mem w') reqs.
Proof.
  intros Ht. unfold requests_ok. rewrite !Forall_forall. intros Hall r Hr. destruct (Hall r Hr) as (H1 & H2 & H3).
  split_and!; [| |done]; (eapply Forall_impl; [eassumption|]); intros b; by apply valid_buf_tracked.
Qed.

(** Serving chains changes their writable buffers and the used ring, tracks
    what it changes, and leaves one entry per chain in the ring. *)
Lemma serves_effect c u reqs w h lens w' h' sz :
  serves handler c u reqs w h lens w' h' →
  I h → laid_out (w_mem w) sz → rings_ok c (w_mem w) → in_u16 u → requests_ok (w_mem w) reqs →
  Z.of_nat (length reqs) ≤ size c → (∀ x, written reqs x → ¬ used_zone c x) →
  tracked w w' ∧ changes_only (fun x => written reqs x ∨ used_zone c x) (w_mem w) (w_mem w') ∧
  reports c u (zip reqs.*1 lens) (w_mem w) (w_mem w').
Proof.
  induction 1 as [u w h|u hd ch reqs w h w1 h1 len lens w' h' Hrun Hs IH]; intros Hh Hlay Hr Hu Hv Hsz Hap.
  { split_and!; [reflexivity|reflexivity|apply reports_nil]. }
  apply Forall_cons in Hv as [(Hrd & Hwr & Hsum) Hv]. cbn [snd] in *.
  destruct (handler_serves w h (readable ch) (writable ch) sz) as (w1' & h1' & len' & Hrun' & Hh1 & Ht1 & Hc1); [done..|].
  rewrite Hrun in Hrun'. injection Hrun' as <- <- <-.
  destruct (used_elem_reports w1 c u hd len sz) as (Ht2 & Hc2 & Hr2);
    [by eapply tracked_laid_out|by eapply rings_ok_tracked|done|].
  set (w2 := write_mem_ w1 _ _) in *. assert (tracked w w2) as Htw by (by transitivity w1).
  destruct IH as (Ht & Hc & Hrep); [done|by eapply tracked_laid_out|by eapply rings_ok_tracked
    |apply u16_wrapping_add_range|by eapply requests_ok_tracked|simpl in Hsz; lia| |].
  { intros x Hx. apply Hap, written_cons. by right. }
  split_and!; [by transitivity w2| |].
  - eapply changes_only_trans; [|eapply changes_only_trans]; (eapply changes_only_mono; [eassumption|]);
      intros x Hx; rewrite written_cons; [auto|right; by apply used_ring_zone|naive_solver].
  - cbn [fmap list_fmap zip fst]. eapply reports_cons; [exact Hr| | |exact Hrep].
    { rewrite length_zip_with, length_fmap. simpl in Hsz. lia. }
    eapply reports_frame; [|exact Hr2]. eapply changes_only_mono; [exact Hc1|].
    intros x Hx Hu'. apply (Hap x); [|by apply used_ring_zone]. apply written_cons. by left.
Qed.

Lemma serves_length c u reqs w h lens w' h' : serves handler c u reqs w h lens w' h' → length lens = length reqs.
Proof. induction 1; simpl; lia. Qed.

End serve.
