(* ===== verification/GuestBufs.v ===== *)
(** * The bytes of guest buffers

    Lists of buffers as the addresses of their bytes, in order; reading and
    writing them; and what the driver of a queue keeps apart when it publishes
    chains, for the devices whose passes are followed byte by byte. *)

From S2P Require Import Prelude Dirty GuestMem GuestRam VQueue VQueueWalk VQueueRun VQueueServe.

(** The addresses of the bytes of buffers, in order. *)
Definition buf_addrs (bufs : list (Z * Z)) : list Z := bufs ≫= fun b => seqZ b.1 b.2.

(** The bytes at addresses. *)
Definition bytes_at {M : Type} `{!GuestMemoryBackend M} (m : M) (as_ : list Z) : list Z :=
  as_ ≫= fun a => default [] (byte_at m a).

(** The first bytes at the addresses are [bs]. *)
Definition holds {M : Type} `{!GuestMemoryBackend M} (m : M) (as_ bs : list Z) : Prop :=
  (length bs ≤ length as_)%nat ∧
  ∀ i a b, as_ !! i = Some a → bs !! i = Some b → byte_at m a = Some [b].

(** What the driver keeps apart, for chains it publishes together: the rings
    from what the device writes, the writable buffers from each other, and the
    readable buffers from everything the device writes. *)
Definition well_separated (c : QueueConfig) (reqs : list (Z * DescriptorChain)) : Prop :=
  rings_apart c reqs ∧ bufs_disjoint (concat ((fun r => writable r.2) <$> reqs)) ∧
  ∀ r x, r ∈ reqs → in_bufs (readable r.2) x → ¬ written reqs x ∧ ¬ used_zone c x.

(** The chains up to the available index [avail] that are not served yet. *)
Definition pending {M : Type} `{!GuestMemoryBackend M} (m : M) (p : VirtQueueProcessor) (avail : Z)
    : list (Z * DescriptorChain) :=
  requests m (config p) (published m (config p) (last_avail_idx p)
    (Z.to_nat (u16_wrapping_sub avail (last_avail_idx p)))).

Section bufs.
Context {M : Type} `{!GuestMemoryBackend M} `{!GuestMemoryLaws M}.
Implicit Types (m : M) (w : World M) (bufs : list (Z * Z)).

Lemma buf_addrs_cons b bufs : buf_addrs (b :: bufs) = seqZ b.1 b.2 ++ buf_addrs bufs.
Proof. done. Qed.

Lemma elem_of_buf_addrs bufs x : x ∈ buf_addrs bufs ↔ in_bufs bufs x.
Proof.
  unfold buf_addrs, in_bufs. rewrite list_elem_of_bind. split.
  - intros (b & Hx & Hb). apply elem_of_seqZ in Hx. eauto.
  - intros (b & Hb & Hx). exists b. split; [|done]. by apply elem_of_seqZ.
Qed.

Lemma length_buf_addrs m bufs : Forall (valid_buf m) bufs → Z.of_nat (length (buf_addrs bufs)) = sum_lens bufs.
Proof.
  induction 1 as [|b bufs (_ & Hl & _) _ IH]; [done|]. rewrite buf_addrs_cons, length_app, length_seqZ.
  change (sum_lens (b :: bufs)) with (b.2 + sum_lens bufs). lia.
Qed.

Lemma NoDup_buf_addrs bufs : bufs_disjoint bufs → NoDup (buf_addrs bufs).
Proof.
  induction bufs as [|b bufs IH]; [constructor|]. intros [Hd Hds]. rewrite buf_addrs_cons. apply NoDup_app.
  split_and!; [apply NoDup_seqZ| |by apply IH]. intros x Hx Hn. apply elem_of_seqZ in Hx.
  apply (Hd x Hx). by apply elem_of_buf_addrs.
Qed.

Lemma valid_byte m bufs x : Forall (valid_buf m) bufs → in_bufs bufs x → gm_check_range m x 1 = true.
Proof.
  intros Hv (b & Hb & Hx). rewrite Forall_forall in Hv. specialize (Hv b Hb).
  apply valid_buf_check in Hv; [|lia]. by apply (gm_check_range_sub m b.1 b.2); [lia..|].
Qed.

(** ** Reading *)

Lemma bytes_at_app m l1 l2 : bytes_at m (l1 ++ l2) = bytes_at m l1 ++ bytes_at m l2.
Proof. apply bind_app. Qed.

Lemma bytes_at_seqZ m a n bs : 0 < n → gm_read_slice m a n = Some bs → bytes_at m (seqZ a n) = bs.
Proof.
  intros Hn Hr. apply gm_read_iff in Hr as [Hl Hr]; [|done]. clear Hn.
  assert (n = Z.of_nat (length bs)) as -> by lia. clear Hl. revert a Hr.
  induction bs as [|b bs IH]; intros a Hr; [done|].
  rewrite seqZ_cons by (simpl; lia). unfold bytes_at. cbn [mbind list_bind].
  fold (bytes_at m (seqZ (Z.succ a) (Z.pred (Z.of_nat (length (b :: bs)))))).
  unfold byte_at. pose proof (Hr 0%nat b eq_refl) as H0. rewrite Z.add_0_r in H0. rewrite H0. cbn [default app].
  replace (Z.pred (Z.of_nat (length (b :: bs)))) with (Z.of_nat (length bs)) by (simpl; lia).
  rewrite IH; [done|]. intros i x Hx. replace (Z.succ a + Z.of_nat i) with (a + Z.of_nat (S i)) by lia.
  by apply Hr.
Qed.

Lemma bytes_at_bytes m bufs : Forall (valid_buf m) bufs → Forall is_byte (bytes_at m (buf_addrs bufs)).
Proof.
  intros Hv. apply Forall_forall. intros x Hx. apply list_elem_of_bind in Hx as (a & Hx & Ha).
  apply elem_of_buf_addrs in Ha. destruct (gm_read_byte m a) as (b & Hb & ?); [by eapply valid_byte|].
  unfold byte_at in Hx. rewrite Hb in Hx. simpl in Hx. by apply list_elem_of_singleton in Hx as ->.
Qed.

Lemma bytes_at_ext m m' as_ : (∀ a, a ∈ as_ → byte_at m' a = byte_at m a) → bytes_at m' as_ = bytes_at m as_.
Proof.
  induction as_ as [|a as_ IH]; intros H; [done|]. unfold bytes_at in *. cbn [mbind list_bind].
  rewrite (H a) by set_solver. f_equal. apply IH. set_solver.
Qed.

(** ** Writing *)

Lemma holds_nil m as_ : holds m as_ [].
Proof. split; [simpl; lia|]. intros i a b _ Hb. by rewrite lookup_nil in Hb. Qed.

Lemma changes_only_same (P : Z → Prop) m m' a : changes_only P m m' → ¬ P a → byte_at m' a = byte_at m a.
Proof.
  intros Hc Hn. destruct (decide (byte_at m' a = byte_at m a)) as [|Hne]; [done|]. exfalso. by apply Hn, Hc.
Qed.

Lemma holds_frame (P : Z → Prop) m m' as_ bs :
  changes_only P m m' → (∀ a, a ∈ as_ → ¬ P a) → holds m as_ bs → holds m' as_ bs.
Proof.
  intros Hc Hn [Hl Hh]. split; [done|]. intros i a b Ha Hb. rewrite <- (Hh i a b Ha Hb).
  eapply changes_only_same; [exact Hc|]. apply Hn. by eapply list_elem_of_lookup_2.
Qed.

(** A write into the front of a valid buffer. *)
Lemma write_front w sz a l bs :
  laid_out (w_mem w) sz → valid_buf (w_mem w) (a, l) → bs ≠ [] → Z.of_nat (length bs) ≤ l → Forall is_byte bs →
  ∃ w', write_mem w bs a = (true, w') ∧ tracked w w' ∧
    changes_only (fun x => a ≤ x < a + l) (w_mem w) (w_mem w') ∧
    holds (w_mem w') (seqZ a l) bs.
Proof.
  intros Hlay Hv Hne Hl Hby. assert (0 < Z.of_nat (length bs)) as H0 by (destruct bs; [done|simpl; lia]).
  assert (gm_check_range (w_mem w) a (Z.of_nat (length bs)) = true) as Hck.
  { apply (gm_check_range_sub (w_mem w) a l); [lia..|]. apply (valid_buf_check _ _ Hv). simpl. lia. }
  pose proof (gm_write_ok (w_mem w) a bs Hne) as Hok. rewrite Hck in Hok.
  pose proof (write_mem_tracked w sz bs a Hlay (or_introl Hck) Hne) as Ht.
  pose proof (write_mem_changes w bs a) as Hc. pose proof (write_mem_mem w bs a) as Hm.
  unfold write_mem_ in Ht, Hc, Hm. exists (write_mem w bs a).2. split_and!; [|done| |].
  - unfold write_mem. destruct (gm_write_slice (w_mem w) a bs) as [ok m]. simpl in Hok. by subst ok.
  - eapply changes_only_mono; [exact Hc|]. intros x Hx. simpl in Hx. lia.
  - split; [rewrite length_seqZ; lia|]. intros i x b Hx Hb. apply lookup_seqZ in Hx as [-> _].
    rewrite Hm. by apply gm_write_read.
Qed.

Lemma in_bufs_cons b bufs x : in_bufs (b :: bufs) x ↔ b.1 ≤ x < b.1 + b.2 ∨ in_bufs bufs x.
Proof. unfold in_bufs. set_solver. Qed.

Lemma holds_append m as1 as2 bs :
  holds m as1 (take (length as1) bs) → holds m as2 (drop (length as1) bs) → holds m (as1 ++ as2) bs.
Proof.
  intros [Hl1 H1] [Hl2 H2]. rewrite length_take in Hl1. rewrite length_drop in Hl2.
  split; [rewrite length_app; lia|]. intros i a b Ha Hb. apply lookup_app_Some in Ha as [Ha|[Hi Ha]].
  - apply (H1 i); [done|]. apply lookup_take_Some. split; [done|]. by eapply lookup_lt_Some.
  - apply (H2 (i - length as1)%nat); [done|]. rewrite lookup_drop. by replace (length as1 + (i - length as1))%nat with i by lia.
Qed.

Lemma length_bytes_at m bufs :
  Forall (valid_buf m) bufs → Z.of_nat (length (bytes_at m (buf_addrs bufs))) = sum_lens bufs.
Proof.
  intros Hv. rewrite <- (length_buf_addrs m bufs Hv).
  assert (Hin : ∀ a, a ∈ buf_addrs bufs → in_bufs bufs a) by (intros a; apply elem_of_buf_addrs).
  f_equal. induction (buf_addrs bufs) as [|a as_ IH]; [done|]. unfold bytes_at in *. cbn [mbind list_bind].
  destruct (gm_read_byte m a) as (b & Hb & _); [eapply valid_byte; [exact Hv|apply Hin; by left]|].
  unfold byte_at at 1. rewrite Hb. cbn. rewrite IH; [done|]. intros x Hx. apply Hin. by right.
Qed.

Lemma in_bufs_app l1 l2 x : in_bufs (l1 ++ l2) x ↔ in_bufs l1 x ∨ in_bufs l2 x.
Proof. unfold in_bufs. set_solver. Qed.

Lemma bufs_disjoint_app l1 l2 :
  bufs_disjoint (l1 ++ l2) → bufs_disjoint l1 ∧ bufs_disjoint l2 ∧ ∀ x, in_bufs l1 x → ¬ in_bufs l2 x.
Proof.
  induction l1 as [|b l1 IH]; [intros Hd; split_and!; [done..|]; intros x (? & ? & _); set_solver|].
  intros [Hb Hd]. destruct (IH Hd) as (H1 & H2 & H12). setoid_rewrite in_bufs_app in Hb.
  split_and!; [split; naive_solver|done|]. intros x [Hx|Hx]%in_bufs_cons; naive_solver.
Qed.

Lemma written_concat reqs x : in_bufs (concat ((fun r => writable r.2) <$> reqs)) x ↔ written reqs x.
Proof.
  induction reqs as [|r reqs IH]; [unfold in_bufs, written; set_solver|].
  rewrite written_cons. cbn [fmap list_fmap concat]. by rewrite in_bufs_app, IH.
Qed.

(** What the chains after the first keep apart. *)
Lemma well_separated_cons c r reqs :
  well_separated c (r :: reqs) →
  well_separated c reqs ∧ bufs_disjoint (writable r.2) ∧
  (∀ x, in_bufs (writable r.2) x → ¬ written reqs x ∧ ¬ used_zone c x) ∧
  ∀ r' x, r' ∈ reqs → in_bufs (readable r'.2) x → ¬ in_bufs (writable r.2) x ∧ ¬ used_zone c x.
Proof.
  intros ([Hz Hap] & Hdj & Hrd). cbn [fmap list_fmap concat] in Hdj.
  apply bufs_disjoint_app in Hdj as (Hd1 & Hd2 & Hd12).
  setoid_rewrite written_cons in Hap. setoid_rewrite written_cons in Hrd. setoid_rewrite written_concat in Hd12.
  split_and!; [split_and!; [split; [done|]|done|]|done| |]; [naive_solver| |naive_solver|].
  - intros r' x Hr' Hx. destruct (Hrd r' x) as [Hn ?]; [by right|done|]. naive_solver.
  - intros r' x Hr' Hx. destruct (Hrd r' x) as [Hn ?]; [by right|done|]. naive_solver.
Qed.

Lemma published_nonneg m c n : ∀ from,
  rings_ok c m → Forall (fun hd => 0 ≤ hd) (published m c from n).
Proof.
  induction n as [|n IH]; intros from Hr; cbn [published]; [done|].
  destruct (avail_entry_ok (new_with_indices c from 0) m Hr) as [_ Hca].
  destruct (read_u16_ok _ _ Hca) as (hd & Hhd & Hhr). cbn in Hhd. rewrite Hhd. constructor; [apply Hhr|by apply IH].
Qed.

Lemma pending_ok m p avail : rings_ok (config p) m → requests_ok m (pending m p avail).
Proof. intros Hr. by apply requests_valid, published_nonneg. Qed.

Lemma length_pending m p avail :
  Z.of_nat (length (pending m p avail)) ≤ u16_wrapping_sub avail (last_avail_idx p).
Proof.
  pose proof (u16_wrapping_sub_range avail (last_avail_idx p)) as [? _]. unfold pending, requests.
  rewrite <- (Z2Nat.id (u16_wrapping_sub _ _)) at 2 by lia. apply inj_le. generalize (last_avail_idx p) at 1. generalize (Z.to_nat (u16_wrapping_sub avail (last_avail_idx p))).
  induction n as [|n IH]; intros from; cbn [published]; [done|]. specialize (IH (u16_wrapping_add from 1)).
  destruct (read_u16 _ _); cbn [omap list_omap length]; [|simpl; lia]. case_match; cbn [length] in *; unfold omap in *; lia.
Qed.

End bufs.

(** A pass over the chains that are pending, with what it leaves in the used
    ring. *)
Section pass.
Context {M H : Type} `{!GuestMemoryBackend M} `{!GuestMemoryLaws M}.
Variable handler : World M → H → list (Z * Z) → list (Z * Z) → World M * H * option Z.
Variable I : H → Prop.
Hypothesis handler_serves : ∀ w h rds wrs sz,
  I h → laid_out (w_mem w) sz → Forall (valid_buf (w_mem w)) rds → Forall (valid_buf (w_mem w)) wrs →
  sum_lens (rds ++ wrs) ≤ MAX_CHAIN_BYTES →
  ∃ w1 h1 len, handler w h rds wrs = (w1, h1, Some len) ∧ I h1 ∧ tracked w w1 ∧
    changes_only (in_bufs wrs) (w_mem w) (w_mem w1).

Lemma descriptors_pass_reports fuel q w h sz avail :
  let c := config q in
  let m := w_mem w in
  let reqs := pending m q avail in
  let used' := u16_wrapping_add (last_used_idx q) (Z.of_nat (length reqs)) in
  laid_out m sz → in_u16 (last_avail_idx q) → in_u16 (last_used_idx q) → queue_is_usable q m = true →
  (event_idx q = true → gm_check_range m (used_ring_addr c + (4 + size c * 8)) 2 = true) →
  read_avail_idx m (avail_ring_addr c) = Some avail →
  u16_wrapping_sub avail (last_avail_idx q) ≤ size c → rings_apart c reqs → I h →
  ∃ lens w1 w' h',
    process_queue_descriptors_dirty handler (S fuel) q w h =
      Some (set_indices q avail used', w', h', Z.of_nat (length reqs)) ∧
    serves handler c (last_used_idx q) reqs w h lens w1 h' ∧
    requests_ok m reqs ∧ rings_ok c m ∧ Z.of_nat (length reqs) ≤ size c ∧ tracked w w' ∧
    changes_only (used_zone c) (w_mem w1) (w_mem w') ∧
    changes_only (fun x => written reqs x ∨ used_zone c x) m (w_mem w') ∧
    read_u16 (w_mem w') (used_ring_addr c + 2) = Some used' ∧
    (∀ (j : nat) r len, reqs !! j = Some r → lens !! j = Some len →
      gm_read_slice (w_mem w') (used_slot_addr c (u16_wrapping_add (last_used_idx q) (Z.of_nat j))) 8 =
      Some (encode_used_elem r.1 len)).
Proof.
  intros c m reqs used' Hlay Hla Hlu Hus Hev Hav Hsz Hap Hh.
  pose proof (queue_is_usable_rings _ _ Hus) as Hr. fold c in Hr. assert (requests_ok m reqs) as Hv by by apply pending_ok.
  assert (Z.of_nat (length reqs) ≤ size c) as Hcnt by (etransitivity; [apply length_pending|done]).
  destruct (descriptors_pass_serves handler I handler_serves fuel q w h sz avail)
    as (lens & w1 & w' & h' & Hp & Hs & _ & Ht & Hc & Hu); try done.
  fold m in Hp, Hs, Hu. fold (pending m q avail) in Hp, Hs, Hu. fold reqs in Hp, Hs, Hu. fold c in Hs, Hc, Hu.
  destruct (serves_effect handler I handler_serves c (last_used_idx q) reqs w h lens w1 h' sz)
    as (_ & Hc1 & [_ Hrd]); try done; [apply Hap|].
  assert (Hz : changes_only (used_zone c) (w_mem w1) (w_mem w')).
  { eapply changes_only_mono; [exact Hc|]. intros x Hx. unfold used_zone. destruct Hr as (? & _). simpl in Hx. lia. }
  exists lens, w1, w', h'. split_and!; try done.
  - eapply changes_only_trans; [exact Hc1|]. eapply changes_only_mono; [exact Hz|]. auto.
  - intros j r len Hj Hl. rewrite <- (Hrd j r.1 len); [|rewrite lookup_zip_with_Some; exists r.1, len; by rewrite list_lookup_fmap, Hj].
    eapply read_outside; [done|exact Hc|]. intros x Hx Hn.
    pose proof (used_slot_in_ring c m _ _ Hr Hx) as [Hx1 Hx2]. unfold used_ring_byte in Hx1. simpl in Hn. lia.
Qed.

End pass.
