(* ===== verification/Diff.v ===== *)
(** * Diff snapshots ([vmm-snapshot/src/diff.rs], [snapshot.rs])

    [build_diff] copies the dirty pages out of a memory image and
    [try_apply_diffs] replays diffs over a base image. An image is a list of
    bytes. The dirty set is a [HashSet] that is iterated in no particular
    order, so [build_diff] takes the order as an argument; allocation can
    fail, so [try_apply_diffs] takes the outcome of [try_reserve]. The image
    of a guest is [dump_memory]. *)

From S2P Require Import Prelude Dirty GuestMem FileRanges GuestRam VQueue VQueueWalk VQueueRun.

Definition MAX_DIFF_APPLY_BYTES : Z := Z.shiftl 1 40.
Definition PAGE : Z := 4096.

Record PageDelta := mkPageDelta {
  gpa : Z;
  bytes : list Z;
}.

Record DiffSnapshot := mkDiff {
  pages : list PageDelta;
  state : list Z;
}.

Inductive DiffError : Type :=
| GpaTooLarge (gpa : Z)
| RangeOverflow (gpa len : Z)
| ResizeTooLarge (requested max : Z)
| Allocation (requested : Z).

Definition gpa_le (p q : PageDelta) : Prop := gpa p ≤ gpa q.

#[export] Instance gpa_le_dec p q : Decision (gpa_le p q).
Proof. unfold gpa_le. apply _. Defined.

(** One iteration of the loop over the dirty pages. *)
Definition page_delta (mem : list Z) (pfn : Z) : option PageDelta :=
  let len := Z.of_nat (length mem) in
  let?o start := u64_checked_mul pfn PAGE in
  if len <=? start then None
  else
    let end_ := match u64_checked_add start PAGE with Some e => Z.min e len | None => len end in
    Some (mkPageDelta start (slice (Z.to_nat start) (Z.to_nat (end_ - start)) mem)).

(** [pfns] lists the dirty set in the order it is iterated. *)
Definition build_diff (mem : list Z) (pfns : list Z) (state : list Z) : DiffSnapshot :=
  mkDiff (merge_sort gpa_le (omap (page_delta mem) pfns)) state.

Section apply.

(** Whether [try_reserve] for so many more bytes succeeds. *)
Variable try_reserve : Z → bool.

Definition apply_page (out : list Z) (page : PageDelta) : result (list Z) DiffError :=
  let start := gpa page in
  let blen := Z.of_nat (length (bytes page)) in
  let? end_ := ok_or (u64_checked_add start blen) (RangeOverflow (gpa page) blen) in
  if MAX_DIFF_APPLY_BYTES <? end_ then Err (ResizeTooLarge end_ MAX_DIFF_APPLY_BYTES)
  else
    let olen := Z.of_nat (length out) in
    let? out1 :=
      (if olen <? end_ then
         if try_reserve (end_ - olen) then Ok (out ++ replicate (Z.to_nat (end_ - olen)) 0)
         else Err (Allocation end_)
       else Ok out) in
    Ok (copy_from_slice out1 (Z.to_nat start) (bytes page)).

Fixpoint apply_pages (out : list Z) (ps : list PageDelta) : result (list Z) DiffError :=
  match ps with
  | [] => Ok out
  | p :: ps' => let? out' := apply_page out p in apply_pages out' ps'
  end.

Fixpoint try_apply_loop (out : list Z) (diffs : list DiffSnapshot) : result (list Z) DiffError :=
  match diffs with
  | [] => Ok out
  | d :: diffs' => let? out' := apply_pages out (pages d) in try_apply_loop out' diffs'
  end.

Definition try_apply_diffs (base : list Z) (diffs : list DiffSnapshot)
    : result (list Z) DiffError := try_apply_loop base diffs.

Definition apply_diffs (base : list Z) (diffs : list DiffSnapshot) : list Z :=
  match try_apply_diffs base diffs with
  | Ok out => out
  | Err _ => base
  end.

End apply.

(** The packed image of guest RAM. *)
Definition dump_memory {M : Type} `{!GuestMemoryBackend M} (g : GuestMemory.t M) : list Z :=
  (fun o => match GuestMemory.offset_to_gpa (GuestMemory.size_bytes g) o with
            | Some a => match gm_read_slice (GuestMemory.inner g) a 1 with
                        | Some [b] => b
                        | _ => 0
                        end
            | None => 0
            end) <$> seqZ 0 (GuestMemory.size_bytes g).

(** [pfns] covers what differs between two images. *)
Definition covers_images (pfns : list Z) (mem mem' : list Z) : Prop :=
  ∀ o : nat, mem' !! o ≠ mem !! o → Z.of_nat o / PAGE ∈ pfns.

(** A page whose bytes are those of [mem] at its place. *)
Definition page_of (mem : list Z) (p : PageDelta) : Prop :=
  0 ≤ gpa p ∧ gpa p + Z.of_nat (length (bytes p)) ≤ Z.of_nat (length mem) ∧
  bytes p = slice (Z.to_nat (gpa p)) (length (bytes p)) mem.

Definition page_covers (p : PageDelta) (o : nat) : Prop :=
  gpa p ≤ Z.of_nat o < gpa p + Z.of_nat (length (bytes p)).

(** A sequence of checkpoints of images of one size, each with the pages
    written since the one before. *)
Fixpoint checkpoints (mem : list Z) (l : list (list Z * list Z * list Z)) : Prop :=
  match l with
  | [] => True
  | (mem', pfns, _) :: l' =>
      length mem' = length mem ∧ Forall (Z.le 0) pfns ∧ covers_images pfns mem mem' ∧
      checkpoints mem' l'
  end.

Fixpoint last_image (mem : list Z) (l : list (list Z * list Z * list Z)) : list Z :=
  match l with
  | [] => mem
  | (mem', _, _) :: l' => last_image mem' l'
  end.

Definition build_diffs (l : list (list Z * list Z * list Z)) : list DiffSnapshot :=
  (fun c => build_diff c.1.1 c.1.2 c.2) <$> l.

Section diff.

Lemma max_apply_val : MAX_DIFF_APPLY_BYTES = 1099511627776.
Proof. reflexivity. Qed.

Lemma apply_page_of try_reserve mem out p :
  page_of mem p → length out = length mem → Z.of_nat (length mem) ≤ MAX_DIFF_APPLY_BYTES →
  ∃ out', apply_page try_reserve out p = Ok out' ∧ length out' = length mem ∧
    ∀ o, page_covers p o ∨ out !! o = mem !! o → out' !! o = mem !! o.
Proof.
  intros (H0 & Hl & Hb) Ho Hm. unfold apply_page.
  rewrite (proj2 (u64_checked_add_Some _ _ _))
    by (split; [done|rewrite max_apply_val in Hm; unfold U64_MAX; lia]).
  simpl result_bind. rewrite (proj2 (Z.ltb_ge _ _)) by lia.
  rewrite (proj2 (Z.ltb_ge _ _)) by lia. simpl result_bind. eexists. split; [done|].
  rewrite length_copy_from_slice by lia. split; [done|].
  intros o Hor. rewrite copy_from_slice_lookup by lia. case_decide as Hc.
  - rewrite Hb, lookup_slice. rewrite decide_True by lia. f_equal. lia.
  - destruct Hor as [Hp|]; [|done]. unfold page_covers in Hp. lia.
Qed.

Lemma apply_pages_of try_reserve mem ps : ∀ out,
  Forall (page_of mem) ps → length out = length mem →
  Z.of_nat (length mem) ≤ MAX_DIFF_APPLY_BYTES →
  ∃ out', apply_pages try_reserve out ps = Ok out' ∧ length out' = length mem ∧
    ∀ o, Exists (fun p => page_covers p o) ps ∨ out !! o = mem !! o → out' !! o = mem !! o.
Proof.
  induction ps as [|p ps IH]; intros out Hf Ho Hm; cbn [apply_pages].
  { exists out. split_and!; try done. intros o [He|]; [by inversion He|done]. }
  apply Forall_cons in Hf as [Hp Hps].
  destruct (apply_page_of try_reserve mem out p Hp Ho Hm) as (out1 & -> & Hl1 & H1).
  destruct (IH out1 Hps Hl1 Hm) as (out2 & Ha & Hl2 & H2).
  exists out2. split; [exact Ha|]. split; [done|].
  intros o Hor. apply H2. rewrite Exists_cons in Hor. naive_solver.
Qed.

Lemma page_delta_of mem pfn p :
  0 ≤ pfn → page_delta mem pfn = Some p → page_of mem p ∧ gpa p = pfn * PAGE.
Proof.
  intros Hp. unfold page_delta. destruct (u64_checked_mul pfn PAGE) as [st|] eqn:E; [|done].
  apply u64_checked_mul_Some in E as [-> Hm]. unfold PAGE in *.
  destruct (Z.of_nat (length mem) <=? pfn * 4096) eqn:El; bool_to_prop; [done|].
  set (end_ := match u64_checked_add (pfn * 4096) 4096 with Some _ => _ | None => _ end).
  assert (pfn * 4096 ≤ end_ ≤ Z.of_nat (length mem)) as He.
  { subst end_. destruct (u64_checked_add _ _) eqn:Ea; [apply u64_checked_add_Some in Ea|]; lia. }
  intros [= <-]. cbn [gpa bytes].
  assert (length (slice (Z.to_nat (pfn * 4096)) (Z.to_nat (end_ - pfn * 4096)) mem) =
    Z.to_nat (end_ - pfn * 4096)) as Hlen by (apply length_slice; lia).
  split; [|done]. unfold page_of. cbn [gpa bytes]. rewrite Hlen.
  split_and!; [lia|lia|done].
Qed.

Lemma page_delta_covers mem (o : nat) :
  (o < length mem)%nat → Z.of_nat (length mem) ≤ MAX_DIFF_APPLY_BYTES →
  ∃ p, page_delta mem (Z.of_nat o / PAGE) = Some p ∧ page_covers p o.
Proof.
  intros Ho Hm. rewrite max_apply_val in Hm. unfold page_delta, PAGE.
  set (n := Z.of_nat o / 4096).
  assert (0 ≤ n ∧ n * 4096 ≤ Z.of_nat o < n * 4096 + 4096) as Hn by (subst n; zlia).
  rewrite (proj2 (u64_checked_mul_Some _ _ _)) by (split; [done|unfold U64_MAX; lia]).
  rewrite (proj2 (Z.leb_gt _ _)) by lia.
  rewrite (proj2 (u64_checked_add_Some _ _ _)) by (split; [done|unfold U64_MAX; lia]).
  eexists. split; [done|]. unfold page_covers. cbn [gpa bytes].
  rewrite length_slice by lia. lia.
Qed.

Lemma elem_of_build_diff mem pfns st p :
  p ∈ pages (build_diff mem pfns st) ↔ ∃ pfn, pfn ∈ pfns ∧ page_delta mem pfn = Some p.
Proof.
  unfold build_diff. cbn [pages]. rewrite merge_sort_Permutation. apply list_elem_of_omap.
Qed.

(** One checkpoint. *)
Lemma apply_build_diff try_reserve mem mem' pfns st :
  length mem' = length mem → Forall (Z.le 0) pfns → covers_images pfns mem mem' →
  Z.of_nat (length mem) ≤ MAX_DIFF_APPLY_BYTES →
  apply_pages try_reserve mem (pages (build_diff mem' pfns st)) = Ok mem'.
Proof.
  intros Hl Hp Hc Hm.
  destruct (apply_pages_of try_reserve mem' (pages (build_diff mem' pfns st)) mem)
    as (out & -> & Hlo & Hout); [|done|by rewrite Hl|].
  { apply Forall_forall. intros p (pfn & Hin & Hd)%elem_of_build_diff.
    apply page_delta_of in Hd as [? _]; [done|]. rewrite Forall_forall in Hp. auto. }
  f_equal. apply list_eq. intros o. apply Hout.
  destruct (decide (mem' !! o = mem !! o)) as [|Hne]; [by right|left].
  assert (o < length mem')%nat as Ho.
  { apply not_ge. intros Hge. apply Hne. rewrite !lookup_ge_None_2 by lia. done. }
  destruct (page_delta_covers mem' o Ho) as (p & Hd & Hpc); [by rewrite Hl|].
  apply Exists_exists. exists p. split; [|done]. apply elem_of_build_diff.
  exists (Z.of_nat o / PAGE). split; [by apply Hc|done].
Qed.

(** ** The order of iteration *)

#[export] Instance gpa_le_total : Total gpa_le.
Proof. intros p q. unfold gpa_le. lia. Qed.

#[export] Instance gpa_le_trans : Transitive gpa_le.
Proof. intros p q r. unfold gpa_le. lia. Qed.

Lemma build_diff_order mem pfns pfns' st :
  Forall (Z.le 0) pfns → pfns ≡ₚ pfns' → build_diff mem pfns st = build_diff mem pfns' st.
Proof.
  intros Hp Hperm. unfold build_diff. f_equal.
  apply (StronglySorted_unique_strong gpa_le).
  - intros p q. rewrite !merge_sort_Permutation, !list_elem_of_omap.
    intros (n & Hn & Hdn) (k & Hk & Hdk) H1 H2. rewrite <- Hperm in Hk.
    rewrite Forall_forall in Hp.
    destruct (page_delta_of _ _ _ (Hp _ Hn) Hdn) as [_ E1].
    destruct (page_delta_of _ _ _ (Hp _ Hk) Hdk) as [_ E2].
    assert (n = k) as -> by (unfold gpa_le, PAGE in *; lia). congruence.
  - by apply StronglySorted_merge_sort; apply _.
  - by apply StronglySorted_merge_sort; apply _.
  - rewrite !merge_sort_Permutation. by rewrite Hperm.
Qed.

(** ** Images of guest memory *)
Section images.
Context {M : Type} `{!GuestMemoryBackend M} `{!GuestMemoryLaws M}.
Implicit Types g : GuestMemory.t M.

Lemma length_dump_memory g :
  0 ≤ GuestMemory.size_bytes g → Z.of_nat (length (dump_memory g)) = GuestMemory.size_bytes g.
Proof. intros. unfold dump_memory. rewrite length_fmap, length_seqZ. lia. Qed.

Lemma dump_memory_covered g m d :
  let g' := GuestMemory.set_inner g m in
  0 < GuestMemory.size_bytes g → dirty_covers (GuestMemory.inner g) m d →
  covers_images (elements (DirtyBitmap.dirty d)) (dump_memory g) (dump_memory g').
Proof.
  intros g' Hs Hc o Hne. apply elem_of_elements. change PAGE with PAGE_SIZE.
  unfold dump_memory, g' in Hne. cbn [GuestMemory.size_bytes GuestMemory.inner GuestMemory.set_inner] in Hne.
  rewrite !list_lookup_fmap in Hne.
  destruct (seqZ 0 (GuestMemory.size_bytes g) !! o) as [z|] eqn:Ez; [|done].
  apply lookup_seqZ in Ez as [-> Hz]. cbn [fmap option_fmap option_map] in Hne. rewrite Z.add_0_l in Hne.
  destruct (GuestMemory.offset_to_gpa (GuestMemory.size_bytes g) (Z.of_nat o)) as [a|] eqn:Ea; [|done].
  assert (0 ≤ a ∧ ¬ (MMIO_GAP_START ≤ a < MMIO_GAP_END) ∧ packed_offset a = Z.of_nat o)
    as (Ha & Hgap & Hpo).
  { unfold GuestMemory.offset_to_gpa, packed_offset, MMIO_GAP_START, MMIO_GAP_END in *.
    repeat case_hyp Ea; simplify_eq; bool_to_prop; case_goal; bool_to_prop; lia. }
  rewrite <- Hpo. apply Hc; [done|]. intros He. apply Hne. unfold byte_at in He. by rewrite He.
Qed.

End images.

End diff.

(** C29: A base image and the diffs built at a sequence of checkpoints
    reconstruct the last image byte for byte, provided each dirty set covers
    what was written since the checkpoint before; nothing is ever resized or
    allocated on the way. *)
Theorem diffs_reconstruct try_reserve base l :
  checkpoints base l → Z.of_nat (length base) ≤ MAX_DIFF_APPLY_BYTES →
  try_apply_diffs try_reserve base (build_diffs l) = Ok (last_image base l).
Proof.
  unfold try_apply_diffs. revert base.
  induction l as [|[[mem' pfns] st] l IH]; intros base Hc Hm; [done|].
  destruct Hc as (Hl & Hp & Hcov & Hc). cbn [build_diffs fmap list_fmap try_apply_loop last_image fst snd].
  rewrite apply_build_diff by done. simpl result_bind. apply IH; [done|]. by rewrite Hl.
Qed.

(** The diff does not depend on the order in which the dirty set is
    iterated: two enumerations of the same pages build the same snapshot. *)
Theorem build_diff_deterministic mem pfns pfns' st :
  Forall (Z.le 0) pfns → pfns ≡ₚ pfns' →
  build_diff mem pfns st = build_diff mem pfns' st ∧
  Sorted gpa_le (pages (build_diff mem pfns st)).
Proof.
  intros Hp Hperm. split; [by apply build_diff_order|]. apply (Sorted_merge_sort gpa_le).
Qed.

(** C20: End to end: whatever a pass over a virtqueue did to guest memory, the
    diff built from the pages the pass marked, applied to the image taken
    before it, is the image taken after it. *)
Theorem queue_pass_diff_restores {M H : Type} `{!GuestMemoryBackend M} `{!GuestMemoryLaws M}
    (handler : H → list Z → list Z → H * list Z * Z) try_reserve
    (g : GuestMemory.t M) q h pfns st :
  let w := mkWorld (GuestMemory.inner g) (Some DirtyBitmap.new) in
  laid_out (GuestMemory.inner g) (GuestMemory.size_bytes g) →
  GuestMemory.size_bytes g ≤ MAX_DIFF_APPLY_BYTES →
  in_u16 (last_avail_idx q) → in_u16 (last_used_idx q) →
  ∃ q' w' h' k d,
    process_queue_dirty handler q w h = Some (q', w', h', k) ∧ w_dirty w' = Some d ∧
    let g' := GuestMemory.set_inner g (w_mem w') in
    (pfns ≡ₚ elements (DirtyBitmap.dirty d) → Forall (Z.le 0) pfns →
     try_apply_diffs try_reserve (dump_memory g) [build_diff (dump_memory g') pfns st] =
     Ok (dump_memory g')).
Proof.
  intros w Hlay Hmax Hla Hlu.
  assert (∃ q' w' h' k, process_queue_dirty handler q w h = Some (q', w', h', k) ∧ tracked w w')
    as (q' & w' & h' & k & Hp & Ht).
  { destruct (queue_is_usable q (w_mem w)) eqn:Hus.
    - destruct (process_queue_ok handler q w h _ Hlay Hla Hlu Hus)
        as (avail & k & w' & h' & _ & Hp & _ & _ & Ht). eauto 8.
    - exists q, w, h, 0. unfold process_queue_dirty. rewrite Hus. done. }
  destruct Ht as [_ Ht]. destruct (w_dirty w') as [d|] eqn:Hd; [|done]. destruct Ht as [_ Hcov].
  exists q', w', h', k, d. split; [done|]. split; [done|]. intros g' Hpf Hnn.
  assert (0 < GuestMemory.size_bytes g) as Hs by apply Hlay.
  unfold try_apply_diffs. cbn [try_apply_loop].
  rewrite (build_diff_order _ _ _ _ Hnn Hpf). rewrite apply_build_diff; [done| | | |].
  - apply Nat2Z.inj. rewrite !length_dump_memory by (simpl; lia). done.
  - by rewrite <- Hpf.
  - by apply dump_memory_covered.
  - rewrite length_dump_memory by lia. done.
Qed.

Lemma diffs_reconstruct_witness :
  try_apply_diffs (fun _ => false) [1; 2; 3] (build_diffs [([1; 9; 3], [0], []); ([7; 9; 3], [0], [5])])
    = Ok [7; 9; 3].
Proof.
  apply (diffs_reconstruct (fun _ => false) [1; 2; 3] [([1; 9; 3], [0], []); ([7; 9; 3], [0], [5])]).
  - assert (H3 : ∀ mem mem', length mem = 3%nat → length mem' = 3%nat → covers_images [0] mem mem').
    { intros mem mem' H1 H2 o Hne. destruct (decide (o < 3)%nat) as [Ho|Ho].
      - rewrite Z.div_small by (unfold PAGE; lia). by left.
      - destruct Hne. rewrite !lookup_ge_None_2 by lia. done. }
    simpl. split_and!; try done; try (by apply H3); by apply Forall_singleton.
  - vm_compute. discriminate.
Defined.

Lemma build_diff_deterministic_witness :
  build_diff (replicate 8192 7) [1; 0] [] = build_diff (replicate 8192 7) [0; 1] [] ∧
  Sorted gpa_le (pages (build_diff (replicate 8192 7) [1; 0] [])).
Proof.
  apply (build_diff_deterministic (replicate 8192 7) [1; 0] [0; 1] []).
  - by repeat apply Forall_cons_2.
  - apply perm_swap.
Defined.

Definition example_guest : GuestMemory.t (gmap Z Z) :=
  GuestMemory.mk ExampleQueue.mem 192 DirtyBitmap.new false false FileRanges.empty.

Lemma queue_pass_diff_restores_witness :
  ∃ q' w' h' k d,
    process_queue_dirty count_requests example_q example_w 0 = Some (q', w', h', k) ∧
    w_dirty w' = Some d ∧
    let g' := GuestMemory.set_inner example_guest (w_mem w') in
    ([0] ≡ₚ elements (DirtyBitmap.dirty d) → Forall (Z.le 0) [0] →
     try_apply_diffs (fun _ => true) (dump_memory example_guest) [build_diff (dump_memory g') [0] []] =
     Ok (dump_memory g')).
Proof.
  refine (queue_pass_diff_restores count_requests (fun _ => true) example_guest example_q 0 [0] []
    _ _ _ _).
  - exact example_laid_out.
  - vm_compute. discriminate.
  - exact example_u16.
  - exact example_u16.
Defined.
