(* ===== verification/Snapshot.v ===== *)
(** * The snapshot container ([vmm-snapshot/src/format.rs], [snapshot.rs],
      [restore.rs], [state.rs], [crc.rs])

    A snapshot is a header with lengths and checksums, the device-state blob
    and the memory pages. [create] fills the header and [validate] checks it.
    The blob maps device keys to serialized states and is bounded on both
    sides of its encoding. The checksum ([crc32fast]) and the serialization
    ([postcard]) are third-party: they are arguments, with the round trip of
    the serialization as the only hypothesis.

    A [BTreeMap] keyed by strings is a list of pairs sorted by key, so that
    the first entry out of bounds is the one that is reported. *)

From Stdlib Require Import String Ascii.
From S2P Require Import Prelude.
Open Scope Z_scope.

(** ** Header and container *)

Definition MAGIC : list Z := [86; 77; 83; 78].
Definition VERSION : Z := 1.
Definition FLAGS_DIFF : Z := Z.shiftl 1 0.
Definition flags_contains (flags bit : Z) : bool := has_bits flags bit.

Record SnapshotMeta := mkMeta {
  magic : list Z;
  version : Z;
  flags : Z;
  state_len : Z;
  state_crc : Z;
  mem_len : Z;
  mem_crc : Z;
}.

Record Snapshot := mkSnapshot {
  meta : SnapshotMeta;
  snap_state : list Z;
  snap_mem : list Z;
}.

Definition meta_new (state_len state_crc mem_len mem_crc : Z) (diff : bool) : SnapshotMeta :=
  mkMeta MAGIC VERSION (if diff then FLAGS_DIFF else 0) state_len state_crc mem_len mem_crc.

Definition is_diff (m : SnapshotMeta) : bool := flags_contains (flags m) FLAGS_DIFF.

Record SnapshotInput := mkInput {
  state_blob : list Z;
  mem : list Z;
  diff : bool;
}.

Inductive RestoreError : Type :=
| BadMagic (expected got : list Z)
| BadVersion (v : Z)
| StateCrc (expected got : Z)
| MemCrc (expected got : Z)
| StateLength (expected got : Z)
| MemLength (expected got : Z).

Section container.

(** [crc32fast::Hasher] over the bytes. *)
Variable crc32 : list Z → Z.

Definition verify (bytes : list Z) (expected : Z) : bool := crc32 bytes =? expected.

Definition create (i : SnapshotInput) : Snapshot :=
  let meta := meta_new (Z.of_nat (length (state_blob i))) (crc32 (state_blob i))
                (Z.of_nat (length (mem i))) (crc32 (mem i)) (diff i) in
  mkSnapshot meta (state_blob i) (mem i).

Definition validate (s : Snapshot) : result unit RestoreError :=
  let m := meta s in
  if negb (bool_decide (magic m = MAGIC)) then Err (BadMagic MAGIC (magic m))
  else if negb (version m =? VERSION) then Err (BadVersion (version m))
  else
    let slen := Z.of_nat (length (snap_state s)) in
    if negb (state_len m =? slen) then Err (StateLength (state_len m) slen)
    else
      let mlen := Z.of_nat (length (snap_mem s)) in
      if negb (mem_len m =? mlen) then Err (MemLength (mem_len m) mlen)
      else if negb (verify (snap_state s) (state_crc m))
      then Err (StateCrc (state_crc m) (crc32 (snap_state s)))
      else if negb (verify (snap_mem s) (mem_crc m))
      then Err (MemCrc (mem_crc m) (crc32 (snap_mem s)))
      else Ok tt.

End container.

(** ** The device-state blob *)

Definition SCHEMA_VERSION : Z := 1.
Definition MAX_DEVICE_STATE_BLOB_BYTES : Z := 64 * 1024 * 1024.
Definition MAX_DEVICE_STATE_ENTRIES : Z := 1024.
Definition MAX_DEVICE_STATE_KEY_BYTES : Z := 256.
Definition MAX_DEVICE_STATE_ENTRY_BYTES : Z := 16 * 1024 * 1024.

Record DeviceStateBlob := mkBlob {
  schema_version : Z;
  entries : list (string * list Z);
}.

Inductive StateError : Type :=
| Encode (who : string)
| Decode
| BlobTooLarge (len max : Z)
| TooManyEntries (len max : Z)
| KeyTooLarge (key : string) (len max : Z)
| EntryTooLarge (key : string) (len max : Z)
| SchemaMismatch (found expected : Z).

Definition blob_new : DeviceStateBlob := mkBlob SCHEMA_VERSION [].

(** [BTreeMap::insert] and [get]. *)
Fixpoint btree_insert (k : string) (v : list Z) (l : list (string * list Z))
    : list (string * list Z) :=
  match l with
  | [] => [(k, v)]
  | (k', v') :: l' =>
      match String.compare k k' with
      | Lt => (k, v) :: l
      | Eq => (k, v) :: l'
      | Gt => (k', v') :: btree_insert k v l'
      end
  end.

Fixpoint btree_get (k : string) (l : list (string * list Z)) : option (list Z) :=
  match l with
  | [] => None
  | (k', v') :: l' => if String.eqb k k' then Some v' else btree_get k l'
  end.

Definition blob_get (b : DeviceStateBlob) (key : string) : option (list Z) :=
  btree_get key (entries b).

Definition check_entry (kv : string * list Z) : result unit StateError :=
  let klen := Z.of_nat (String.length kv.1) in
  let vlen := Z.of_nat (length kv.2) in
  if MAX_DEVICE_STATE_KEY_BYTES <? klen
  then Err (KeyTooLarge kv.1 klen MAX_DEVICE_STATE_KEY_BYTES)
  else if MAX_DEVICE_STATE_ENTRY_BYTES <? vlen
  then Err (EntryTooLarge kv.1 vlen MAX_DEVICE_STATE_ENTRY_BYTES)
  else Ok tt.

Fixpoint check_entries (l : list (string * list Z)) : result unit StateError :=
  match l with
  | [] => Ok tt
  | kv :: l' => let? _ := check_entry kv in check_entries l'
  end.

Definition validate_bounds (b : DeviceStateBlob) : result unit StateError :=
  let n := Z.of_nat (length (entries b)) in
  if MAX_DEVICE_STATE_ENTRIES <? n then Err (TooManyEntries n MAX_DEVICE_STATE_ENTRIES)
  else check_entries (entries b).

(** A device: its key and what [try_save] and its serialization give. *)
Record Device := mkDevice {
  state_key : string;
  saved : option (list Z);
}.

Fixpoint collect_loop (devices : list Device) (b : DeviceStateBlob)
    : result DeviceStateBlob StateError :=
  match devices with
  | [] => Ok b
  | d :: ds =>
      let? bytes := ok_or (saved d) (Encode (state_key d)) in
      collect_loop ds (mkBlob (schema_version b) (btree_insert (state_key d) bytes (entries b)))
  end.

Definition collect (devices : list Device) : result DeviceStateBlob StateError :=
  let? b := collect_loop devices blob_new in
  let? _ := validate_bounds b in
  Ok b.

Section blob_bytes.

(** [postcard::to_allocvec] and [postcard::from_bytes] at [DeviceStateBlob]. *)
Variable to_allocvec : DeviceStateBlob → option (list Z).
Variable postcard_from : list Z → option DeviceStateBlob.

Definition to_bytes (b : DeviceStateBlob) : result (list Z) StateError :=
  let? _ := validate_bounds b in
  let? bytes := ok_or (to_allocvec b) (Encode EmptyString) in
  let len := Z.of_nat (length bytes) in
  if MAX_DEVICE_STATE_BLOB_BYTES <? len then Err (BlobTooLarge len MAX_DEVICE_STATE_BLOB_BYTES)
  else Ok bytes.

Definition from_bytes (bytes : list Z) : result DeviceStateBlob StateError :=
  let len := Z.of_nat (length bytes) in
  if MAX_DEVICE_STATE_BLOB_BYTES <? len then Err (BlobTooLarge len MAX_DEVICE_STATE_BLOB_BYTES)
  else
    let? b := ok_or (postcard_from bytes) Decode in
    if negb (schema_version b =? SCHEMA_VERSION)
    then Err (SchemaMismatch (schema_version b) SCHEMA_VERSION)
    else
      let? _ := validate_bounds b in
      Ok b.

End blob_bytes.

(** ** Lemmas *)
Section snapshot_lemmas.

Lemma validate_ok_iff crc32 s :
  validate crc32 s = Ok tt ↔
  magic (meta s) = MAGIC ∧ version (meta s) = VERSION ∧
  state_len (meta s) = Z.of_nat (length (snap_state s)) ∧
  mem_len (meta s) = Z.of_nat (length (snap_mem s)) ∧
  state_crc (meta s) = crc32 (snap_state s) ∧ mem_crc (meta s) = crc32 (snap_mem s).
Proof.
  unfold validate, verify. destruct s as [[mg v fl sl sc ml mc] st mm]. cbn.
  destruct (bool_decide_reflect (mg = MAGIC)); cbn; [|split; [done|tauto]].
  destruct (v =? VERSION) eqn:E1; bool_to_prop; cbn; [|split; [done|tauto]].
  destruct (sl =? _) eqn:E2; bool_to_prop; cbn; [|split; [done|tauto]].
  destruct (ml =? _) eqn:E3; bool_to_prop; cbn; [|split; [done|tauto]].
  destruct (crc32 st =? sc) eqn:E4; bool_to_prop; cbn; [|split; [done|intuition congruence]].
  destruct (crc32 mm =? mc) eqn:E5; bool_to_prop; cbn; [|split; [done|intuition congruence]].
  split; auto 10.
Qed.

Lemma btree_get_insert k v l k' :
  btree_get k' (btree_insert k v l) = if String.eqb k' k then Some v else btree_get k' l.
Proof.
  induction l as [|[a b] l IH]; cbn [btree_insert btree_get]; [done|].
  destruct (String.compare k a) eqn:E; cbn [btree_get]; [| |rewrite IH].
  - apply String.compare_eq_iff in E as ->. by destruct (String.eqb k' a).
  - done.
  - destruct (String.eqb_spec k' a) as [->|]; [|done].
    destruct (String.eqb_spec a k) as [->|]; [|done].
    pose proof (String.compare_antisym k k) as Ha. by rewrite E in Ha.
Qed.

(** Strictly ascending keys. *)
Definition keys_sorted (l : list (string * list Z)) : Prop :=
  Sorted (fun a b => String.compare a.1 b.1 = Lt) l.

Lemma btree_insert_hd k v l a :
  String.compare a.1 k = Lt → HdRel (fun a b => String.compare a.1 b.1 = Lt) a l →
  HdRel (fun a b : string * list Z => String.compare a.1 b.1 = Lt) a (btree_insert k v l).
Proof.
  intros Hk Hh. destruct l as [|[k' v'] l]; cbn [btree_insert]; [by constructor|].
  inversion Hh; subst. by destruct (String.compare k k'); constructor.
Qed.

Lemma btree_insert_sorted k v l : keys_sorted l → keys_sorted (btree_insert k v l).
Proof.
  unfold keys_sorted. induction l as [|[k' v'] l IH]; intros Hs; cbn [btree_insert].
  { by repeat constructor. }
  apply Sorted_inv in Hs as [Hs Hh]. destruct (String.compare k k') eqn:E.
  - apply String.compare_eq_iff in E as ->. constructor; [done|].
    inversion Hh; subst; by constructor.
  - constructor; [by constructor|]. by constructor.
  - constructor; [by apply IH|]. apply btree_insert_hd; [|done].
    simpl. by rewrite String.compare_antisym, E.
Qed.

(** What the last device with a key saved. *)
Fixpoint last_saved (k : string) (ds : list Device) (init : option (list Z)) : option (list Z) :=
  match ds with
  | [] => init
  | d :: ds' => last_saved k ds' (if String.eqb k (state_key d) then saved d else init)
  end.

Lemma collect_loop_ok ds : ∀ b b',
  collect_loop ds b = Ok b' → keys_sorted (entries b) →
  keys_sorted (entries b') ∧ schema_version b' = schema_version b ∧
  (∀ k, blob_get b' k = last_saved k ds (blob_get b k)) ∧ Forall (fun d => is_Some (saved d)) ds.
Proof.
  induction ds as [|d ds IH]; intros b b' Hc Hs; cbn [collect_loop last_saved] in *.
  { injection Hc as <-. done. }
  destruct (saved d) as [bytes|] eqn:Ed; simpl in Hc; [|done].
  destruct (IH _ _ Hc) as (H1 & H2 & H3 & H4); [by apply btree_insert_sorted|].
  split_and!; [done|done| |constructor; [by eexists|done]].
  intros k. rewrite H3. f_equal. apply btree_get_insert.
Qed.

Lemma collect_loop_err ds b e :
  collect_loop ds b = Err e → ∃ d, d ∈ ds ∧ saved d = None ∧ e = Encode (state_key d).
Proof.
  revert b. induction ds as [|d ds IH]; intros b Hc; cbn [collect_loop] in Hc; [done|].
  destruct (saved d) eqn:Ed; simpl in Hc.
  - destruct (IH _ Hc) as (d' & ? & ? & ?). exists d'. split; [by right|done].
  - injection Hc as <-. exists d. split; [by left|done].
Qed.

(** The bounds as a proposition. *)
Definition in_bounds (b : DeviceStateBlob) : Prop :=
  Z.of_nat (length (entries b)) ≤ MAX_DEVICE_STATE_ENTRIES ∧
  Forall (fun kv => Z.of_nat (String.length kv.1) ≤ MAX_DEVICE_STATE_KEY_BYTES ∧
    Z.of_nat (length kv.2) ≤ MAX_DEVICE_STATE_ENTRY_BYTES) (entries b).

Lemma validate_bounds_iff b : validate_bounds b = Ok tt ↔ in_bounds b.
Proof.
  unfold validate_bounds, in_bounds.
  destruct (MAX_DEVICE_STATE_ENTRIES <? _) eqn:E; bool_to_prop; [split; [done|lia]|].
  assert (∀ l, check_entries l = Ok tt ↔ Forall (fun kv : string * list Z =>
    Z.of_nat (String.length kv.1) ≤ MAX_DEVICE_STATE_KEY_BYTES ∧
    Z.of_nat (length kv.2) ≤ MAX_DEVICE_STATE_ENTRY_BYTES) l) as Hl; [|rewrite Hl; tauto].
  induction l as [|kv l IH]; cbn [check_entries]; [done|]. rewrite Forall_cons, <- IH.
  unfold check_entry. destruct (MAX_DEVICE_STATE_KEY_BYTES <? _) eqn:E1; bool_to_prop;
    [split; [done|lia]|].
  destruct (MAX_DEVICE_STATE_ENTRY_BYTES <? _) eqn:E2; bool_to_prop; [split; [done|lia]|].
  simpl. tauto.
Qed.

End snapshot_lemmas.

(** ** The claims *)

(** A snapshot that [create] made validates, and says whether it is a
    diff. With that header, any other contents validate only if both parts
    have the same lengths and checksums as the originals: truncation is always
    detected and corruption unless the checksum collides. *)
Theorem validate_detects crc32 i :
  validate crc32 (create crc32 i) = Ok tt ∧ is_diff (meta (create crc32 i)) = diff i ∧
  ∀ st mm, validate crc32 (mkSnapshot (meta (create crc32 i)) st mm) = Ok tt ↔
    length st = length (state_blob i) ∧ crc32 st = crc32 (state_blob i) ∧
    length mm = length (mem i) ∧ crc32 mm = crc32 (mem i).
Proof.
  split_and!.
  - by apply validate_ok_iff.
  - by destruct i as [? ? []].
  - intros st mm. rewrite validate_ok_iff. simpl.
    split; [intros (_ & _ & ? & ? & ? & ?)|intros (? & ? & ? & ?)]; split_and!; try done; lia.
Qed.

(** The device-state blob survives its encoding: what [to_bytes] writes,
    [from_bytes] reads back; and whatever bytes it is given, [from_bytes]
    accepts only a blob of this schema version within all the bounds. *)
Theorem blob_round_trip to_allocvec postcard_from b :
  (∀ b bytes, to_allocvec b = Some bytes → postcard_from bytes = Some b) →
  schema_version b = SCHEMA_VERSION →
  (∀ bytes, to_bytes to_allocvec b = Ok bytes → from_bytes postcard_from bytes = Ok b) ∧
  ∀ bytes b', from_bytes postcard_from bytes = Ok b' →
    schema_version b' = SCHEMA_VERSION ∧ in_bounds b' ∧ postcard_from bytes = Some b' ∧
    Z.of_nat (length bytes) ≤ MAX_DEVICE_STATE_BLOB_BYTES.
Proof.
  intros Hrt Hv. split.
  - intros bytes. unfold to_bytes, from_bytes.
    destruct (validate_bounds b) as [[]|] eqn:Eb; [|done]. simpl.
    destruct (to_allocvec b) as [bs|] eqn:Et; [|done]. simpl.
    destruct (MAX_DEVICE_STATE_BLOB_BYTES <? _) eqn:El; [done|]. intros [= <-].
    rewrite El, (Hrt _ _ Et). simpl. rewrite Hv, Z.eqb_refl, Eb. done.
  - intros bytes b'. unfold from_bytes.
    destruct (MAX_DEVICE_STATE_BLOB_BYTES <? _) eqn:El; [done|]. bool_to_prop.
    destruct (postcard_from bytes) as [b0|]; [|done]. simpl.
    destruct (schema_version b0 =? SCHEMA_VERSION) eqn:Es; [|done]. bool_to_prop. simpl.
    destruct (validate_bounds b0) as [[]|] eqn:Eb; [|done]. intros [= <-].
    apply validate_bounds_iff in Eb. done.
Qed.

(** Collecting the devices gives a blob with one entry per key, sorted,
    holding what the last device with that key saved, within the bounds; it
    fails only when a device could not be saved, naming that device, or when
    a bound is exceeded. *)
Theorem collect_exact ds :
  match collect ds with
  | Ok b => keys_sorted (entries b) ∧ schema_version b = SCHEMA_VERSION ∧ in_bounds b ∧
      Forall (fun d => is_Some (saved d)) ds ∧ ∀ k, blob_get b k = last_saved k ds None
  | Err e => (∃ d, d ∈ ds ∧ saved d = None ∧ e = Encode (state_key d)) ∨
      ∃ b, collect_loop ds blob_new = Ok b ∧ ¬ in_bounds b
  end.
Proof.
  unfold collect. destruct (collect_loop ds blob_new) as [b|e] eqn:Ec; simpl.
  - destruct (validate_bounds b) as [[]|e] eqn:Eb; simpl.
    + apply collect_loop_ok in Ec as (H1 & H2 & H3 & H4); [|constructor].
      apply validate_bounds_iff in Eb. done.
    + right. exists b. split; [done|]. rewrite <- validate_bounds_iff. congruence.
  - left. by eapply collect_loop_err.
Qed.

(** A serialization that handles empty blobs alone. *)
Definition toy_encode (b : DeviceStateBlob) : option (list Z) :=
  match entries b with
  | [] => Some [schema_version b]
  | _ => None
  end.

Definition toy_decode (bytes : list Z) : option DeviceStateBlob :=
  match bytes with
  | [v] => Some (mkBlob v [])
  | _ => None
  end.

Lemma blob_round_trip_witness :
  to_bytes toy_encode blob_new = Ok [1] ∧ from_bytes toy_decode [1] = Ok blob_new.
Proof.
  split; [reflexivity|].
  refine (proj1 (blob_round_trip toy_encode toy_decode blob_new _ _) [1] _).
  - intros [v [|kv l]] bytes; [|done]. by intros [= <-].
  - reflexivity.
  - reflexivity.
Defined.
