(* ===== verification/Migration.v ===== *)
(** * Live snapshots and migration ([vmm-snapshot/src/live.rs], [clone.rs],
      [vmm-migration/src/state.rs], [negotiation.rs])

    The pre-copy decision and the simulation of its loop, with the [f64]
    arithmetic of the residual model done in IEEE binary64; the phases of a
    migration; the plan that stamps out clones; and the negotiation request,
    which is checked both when it is deserialized and by [validate]. What
    serde produces for a field before its check is an argument. *)

From Stdlib Require Import SpecFloat String.
From stdpp Require Import pretty strings.
From S2P Require Import Prelude.
Open Scope Z_scope.

(** ** Binary64 *)

Definition f64_of_u64 (z : Z) : spec_float := binary_normalize 53 1024 z 0 false.
Definition f64_div : spec_float → spec_float → spec_float := SFdiv 53 1024.
Definition f64_mul : spec_float → spec_float → spec_float := SFmul 53 1024.

(** [as u64] saturates, truncates toward zero and maps NaN to zero. *)
Definition u64_of_f64 (f : spec_float) : Z :=
  match f with
  | S754_zero _ => 0
  | S754_infinity s => if s then 0 else U64_MAX
  | S754_nan => 0
  | S754_finite s m e =>
      if s then 0
      else Z.min U64_MAX (if 0 <=? e then Z.shiftl (Zpos m) e else Z.shiftr (Zpos m) (- e))
  end.

(** ** The pre-copy loop *)

Record PrecopyParams := mkParams {
  mem_bytes : Z;
  dirty_rate_bps : Z;
  copy_bandwidth_bps : Z;
  target_downtime_us : Z;
  max_rounds : Z;
}.

Inductive RoundDecision : Type :=
| Continue (round dirty_bytes : Z)
| FinalStop (round dirty_bytes : Z)
| Diverging (round : Z).

Definition U128_MAX : Z := 2 ^ 128 - 1.

(** [(dirty_bytes as u128).saturating_mul(1_000_000) / bandwidth.max(1)]. *)
Definition copy_time_us (p : PrecopyParams) (dirty_bytes : Z) : Z :=
  Z.min (dirty_bytes * 1000000) U128_MAX / Z.max (copy_bandwidth_bps p) 1.

Definition decide_round (p : PrecopyParams) (round dirty_bytes : Z) : RoundDecision :=
  if (copy_bandwidth_bps p <=? dirty_rate_bps p) && (2 <=? round) then Diverging round
  else if max_rounds p <=? round then FinalStop round dirty_bytes
  else if copy_time_us p dirty_bytes <=? target_downtime_us p then FinalStop round dirty_bytes
  else Continue round dirty_bytes.

(** The residual after a round. *)
Definition next_dirty (p : PrecopyParams) (dirty_bytes : Z) : Z :=
  let copy_time_s := f64_div (f64_of_u64 dirty_bytes) (f64_of_u64 (copy_bandwidth_bps p)) in
  let new_dirty := u64_of_f64 (f64_mul (f64_of_u64 (dirty_rate_bps p)) copy_time_s) in
  Z.max new_dirty 4096.

(** The [loop]; [None] means out of fuel. *)
Fixpoint simulate_loop (fuel : nat) (p : PrecopyParams) (round dirty_bytes : Z)
    : option (RoundDecision * Z) :=
  match fuel with
  | O => None
  | S fuel' =>
      let round := round + 1 in
      let decision := decide_round p round dirty_bytes in
      match decision with
      | Continue _ _ => simulate_loop fuel' p round (next_dirty p dirty_bytes)
      | FinalStop r _ => Some (decision, r)
      | Diverging r => Some (decision, r)
      end
  end.

Definition simulate (fuel : nat) (p : PrecopyParams) (dirty_bytes : Z) : option (RoundDecision * Z) :=
  simulate_loop fuel p 0 dirty_bytes.

(** ** Migration phases *)

Inductive MigrationPhase : Type :=
| Negotiation | DestinationPrep | Precopy | StopAndCopy | Postcopy | Cutover | Done | Aborted.

#[export] Instance phase_eq_dec : EqDecision MigrationPhase.
Proof. solve_decision. Defined.

Record MigrationState := mkMigration {
  phase : MigrationPhase;
  round : Z;
  dirty_bytes : Z;
}.

Definition migration_new : MigrationState := mkMigration Negotiation 0 0.

Definition advance (s : MigrationState) (d : RoundDecision) : MigrationState :=
  match phase s, d with
  | Negotiation, _ => mkMigration DestinationPrep (round s) (dirty_bytes s)
  | DestinationPrep, _ => mkMigration Precopy 1 (dirty_bytes s)
  | Precopy, Continue r b => mkMigration Precopy (r + 1) b
  | Precopy, FinalStop r b => mkMigration StopAndCopy r b
  | Precopy, Diverging r => mkMigration Postcopy r (dirty_bytes s)
  | StopAndCopy, _ => mkMigration Cutover (round s) (dirty_bytes s)
  | Postcopy, _ => mkMigration Cutover (round s) (dirty_bytes s)
  | Cutover, _ => mkMigration Done (round s) (dirty_bytes s)
  | Done, _ => s
  | Aborted, _ => s
  end.

(** A migration driven by the pre-copy decisions, the [k]-th dirty set
    having [dirty k] bytes. *)
Fixpoint drive (p : PrecopyParams) (dirty : nat → Z) (n : nat) (s : MigrationState)
    : MigrationState :=
  match n with
  | O => s
  | S n' => drive p (fun k => dirty (S k)) n' (advance s (decide_round p (round s) (dirty O)))
  end.

(** ** Clone plans *)

Record CloneOverlay := mkOverlay { ov_index : Z; overlay_path : string; base_path : string }.
Record CloneNetSpec := mkNet { net_index : Z; tap_name : string; mac : list Z; netns : string }.
Record ClonePlan := mkPlan {
  base_snapshot : string;
  overlays : list CloneOverlay;
  nets : list CloneNetSpec;
}.

Definition clone_mac (i : Z) : list Z :=
  [2; 0; 0; 0; Z.land (Z.shiftr i 8) 255; Z.land i 255].

Definition build_clone_plan (base_snapshot base_volume : string) (n : Z) (overlay_dir : string)
    : ClonePlan :=
  mkPlan base_snapshot
    ((fun i => mkOverlay i (overlay_dir +:+ "/clone-" +:+ pretty i +:+ ".overlay") base_volume)
       <$> seqZ 0 n)
    ((fun i => mkNet i ("cln" +:+ pretty i +:+ "tap0") (clone_mac i) ("cln" +:+ pretty i +:+ "ns"))
       <$> seqZ 0 n).

(** ** Negotiation *)

Definition SUPPORTED_PROTOCOL_VERSION : Z := 1.
Definition MAX_VMM_VERSION_BYTES : Z := 64.
Definition MAX_CPU_TEMPLATE_BYTES : Z := 128.
Definition MAX_VOLUME_IDS : Z := 64.
Definition MAX_VOLUME_ID_BYTES : Z := 256.
Definition MAX_REJECT_REASON_BYTES : Z := 1024.
Definition MIN_RAM_MIB : Z := 1.
Definition MAX_RAM_MIB : Z := 1024 * 1024.
Definition MIN_VCPU_COUNT : Z := 1.
Definition MAX_VCPU_COUNT : Z := 240.

(** Strings by their UTF-8 bytes. *)
Record NegotiationRequest := mkRequest {
  protocol_version : Z;
  vmm_version : list Z;
  cpu_template : list Z;
  ram_mib : Z;
  vcpu_count : Z;
  device_model_hash : list Z;
  volume_ids : list (list Z);
}.

Inductive NegotiationResponse : Type :=
| Accept
| Reject (reason : list Z).

Inductive NegotiationField : Type := F_vmm_version | F_cpu_template | F_volume_id | F_reject_reason.

Inductive NegotiationError : Type :=
| UnsupportedProtocolVersion (v : Z)
| StringTooLong (field : NegotiationField) (len max : Z)
| InvalidRamMiB (v : Z)
| InvalidVcpuCount (v : Z)
| TooManyVolumeIds (len max : Z).

Definition blen (s : list Z) : Z := Z.of_nat (length s).

Definition validate_string_len (field : NegotiationField) (value : list Z) (max : Z)
    : result unit NegotiationError :=
  if max <? blen value then Err (StringTooLong field (blen value) max) else Ok tt.

Fixpoint validate_volume_ids (ids : list (list Z)) : result unit NegotiationError :=
  match ids with
  | [] => Ok tt
  | v :: ids' => let? _ := validate_string_len F_volume_id v MAX_VOLUME_ID_BYTES in
                 validate_volume_ids ids'
  end.

Definition contains_incl (lo hi x : Z) : bool := (lo <=? x) && (x <=? hi).

Definition validate_request (r : NegotiationRequest) : result unit NegotiationError :=
  if negb (protocol_version r =? SUPPORTED_PROTOCOL_VERSION)
  then Err (UnsupportedProtocolVersion (protocol_version r))
  else
    let? _ := validate_string_len F_vmm_version (vmm_version r) MAX_VMM_VERSION_BYTES in
    let? _ := validate_string_len F_cpu_template (cpu_template r) MAX_CPU_TEMPLATE_BYTES in
    if negb (contains_incl MIN_RAM_MIB MAX_RAM_MIB (ram_mib r)) then Err (InvalidRamMiB (ram_mib r))
    else if negb (contains_incl MIN_VCPU_COUNT MAX_VCPU_COUNT (vcpu_count r))
    then Err (InvalidVcpuCount (vcpu_count r))
    else if MAX_VOLUME_IDS <? Z.of_nat (length (volume_ids r))
    then Err (TooManyVolumeIds (Z.of_nat (length (volume_ids r))) MAX_VOLUME_IDS)
    else validate_volume_ids (volume_ids r).

Definition validate_response (r : NegotiationResponse) : result unit NegotiationError :=
  match r with
  | Reject reason => validate_string_len F_reject_reason reason MAX_REJECT_REASON_BYTES
  | Accept => Ok tt
  end.

(** The field deserializers, on the value serde produced ([None]: it
    failed). All failures are one deserialization error. *)
Definition deserialize_protocol_version (v : option Z) : option Z :=
  let?o version := v in
  if negb (version =? SUPPORTED_PROTOCOL_VERSION) then None else Some version.

Definition deserialize_bounded_string (v : option (list Z)) (max : Z) : option (list Z) :=
  let?o value := v in if max <? blen value then None else Some value.

Definition deserialize_ram_mib (v : option Z) : option Z :=
  let?o ram := v in if negb (contains_incl MIN_RAM_MIB MAX_RAM_MIB ram) then None else Some ram.

Definition deserialize_vcpu_count (v : option Z) : option Z :=
  let?o n := v in if negb (contains_incl MIN_VCPU_COUNT MAX_VCPU_COUNT n) then None else Some n.

(** The elements of the sequence as they are read, [None] for a failed one. *)
Fixpoint visit_seq (elems : list (option (list Z))) (acc : list (list Z)) : option (list (list Z)) :=
  match elems with
  | [] => Some acc
  | e :: elems' =>
      let?o volume_id := e in
      if Z.of_nat (length acc) =? MAX_VOLUME_IDS then None
      else if MAX_VOLUME_ID_BYTES <? blen volume_id then None
      else visit_seq elems' (acc ++ [volume_id])
  end.

Definition deserialize_volume_ids (hint : option Z) (elems : list (option (list Z)))
    : option (list (list Z)) :=
  match hint with
  | Some h => if MAX_VOLUME_IDS <? h then None else visit_seq elems []
  | None => visit_seq elems []
  end.

(** What serde reads for a request, field by field. *)
Record RawRequest := mkRaw {
  raw_protocol_version : option Z;
  raw_vmm_version : option (list Z);
  raw_cpu_template : option (list Z);
  raw_ram_mib : option Z;
  raw_vcpu_count : option Z;
  raw_device_model_hash : option (list Z);
  raw_volume_hint : option Z;
  raw_volume_ids : list (option (list Z));
}.

Definition deserialize_request (raw : RawRequest) : option NegotiationRequest :=
  let?o pv := deserialize_protocol_version (raw_protocol_version raw) in
  let?o vv := deserialize_bounded_string (raw_vmm_version raw) MAX_VMM_VERSION_BYTES in
  let?o ct := deserialize_bounded_string (raw_cpu_template raw) MAX_CPU_TEMPLATE_BYTES in
  let?o rm := deserialize_ram_mib (raw_ram_mib raw) in
  let?o vc := deserialize_vcpu_count (raw_vcpu_count raw) in
  let?o dh := raw_device_model_hash raw in
  let?o vi := deserialize_volume_ids (raw_volume_hint raw) (raw_volume_ids raw) in
  Some (mkRequest pv vv ct rm vc dh vi).

(** What serde reads back of a request that was written. *)
Definition raw_of (hint : option Z) (r : NegotiationRequest) : RawRequest :=
  mkRaw (Some (protocol_version r)) (Some (vmm_version r)) (Some (cpu_template r))
    (Some (ram_mib r)) (Some (vcpu_count r)) (Some (device_model_hash r)) hint
    (Some <$> volume_ids r).

(** ** Lemmas *)
Section migration_lemmas.

(** The pre-copy loop stops at the round limit at the latest. *)
Lemma decide_round_continue p r b r' b' :
  decide_round p r b = Continue r' b' → r' = r ∧ b' = b ∧ r < max_rounds p.
Proof. unfold decide_round. repeat case_goal; intros; simplify_eq; bool_to_prop; auto. Qed.

Lemma decide_round_final p r b r' b' :
  decide_round p r b = FinalStop r' b' →
  r' = r ∧ b' = b ∧ (max_rounds p ≤ r ∨ copy_time_us p b ≤ target_downtime_us p).
Proof. unfold decide_round. repeat case_goal; intros; simplify_eq; bool_to_prop; auto. Qed.

Lemma decide_round_diverging p r b r' :
  decide_round p r b = Diverging r' →
  r' = r ∧ 2 ≤ r ∧ copy_bandwidth_bps p ≤ dirty_rate_bps p.
Proof. unfold decide_round. repeat case_goal; intros; simplify_eq; bool_to_prop; auto. Qed.

Lemma simulate_loop_ok fuel : ∀ p r b,
  Z.max 1 (max_rounds p - r) ≤ Z.of_nat fuel →
  ∃ d k b', simulate_loop fuel p r b = Some (d, k) ∧ d = decide_round p k b' ∧
    (∀ r b, d ≠ Continue r b) ∧ r < k ≤ Z.max (r + 1) (max_rounds p).
Proof.
  induction fuel as [|fuel IH]; intros p r b Hf; [lia|]. cbn [simulate_loop].
  destruct (decide_round p (r + 1) b) as [r' b'|r' b'|r'] eqn:E.
  - apply decide_round_continue in E as (-> & -> & Hlt).
    destruct (IH p (r + 1) (next_dirty p b)) as (d & k & b' & Hs & Hd & Hc & Hk); [lia|].
    exists d, k, b'. split_and!; [done..|lia|lia].
  - pose proof E as E'. apply decide_round_final in E' as (-> & -> & _).
    exists (FinalStop (r + 1) b), (r + 1), b. split_and!; [done..|lia|lia].
  - pose proof E as E'. apply decide_round_diverging in E' as (-> & _ & _).
    exists (Diverging (r + 1)), (r + 1), b. split_and!; [done..|lia|lia].
Qed.

(** How many more steps a migration takes at most. *)
Definition steps_left (p : PrecopyParams) (s : MigrationState) : Z :=
  match phase s with
  | Negotiation => 5 + Z.max 0 (max_rounds p)
  | DestinationPrep => 4 + Z.max 0 (max_rounds p)
  | Precopy => 3 + Z.max 0 (max_rounds p - round s)
  | StopAndCopy | Postcopy => 2
  | Cutover => 1
  | Done | Aborted => 0
  end.

Lemma advance_progress p s b :
  phase s ≠ Aborted →
  let s' := advance s (decide_round p (round s) b) in
  phase s' ≠ Aborted ∧ (phase s = Done → s' = s) ∧
  (phase s ≠ Done → steps_left p s' + 1 ≤ steps_left p s).
Proof.
  intros Ha. unfold advance, steps_left. destruct s as [ph r db]. cbn [phase round dirty_bytes] in *.
  destruct ph; cbn [phase round]; try done; try (split_and!; [done|done|intros; lia]).
  destruct (decide_round p r b) as [r' b'|r' b'|r'] eqn:E; cbn [phase round];
    (split_and!; [done|done|intros _]).
  - apply decide_round_continue in E as (-> & _ & ?). lia.
  - lia.
  - lia.
Qed.

Lemma drive_done p n : ∀ dirty s,
  phase s ≠ Aborted → steps_left p s ≤ Z.of_nat n → phase (drive p dirty n s) = Done.
Proof.
  induction n as [|n IH]; intros dirty s Ha Hn; cbn [drive].
  - unfold steps_left in Hn. destruct (phase s); try done; lia.
  - destruct (advance_progress p s (dirty O) Ha) as (Ha' & Hd & Hs).
    destruct (decide (phase s = Done)) as [Hp|Hp].
    + rewrite (Hd Hp). apply IH; [done|]. unfold steps_left. rewrite Hp. lia.
    + apply IH; [done|]. specialize (Hs Hp). lia.
Qed.

Lemma validate_string_len_ok field v max :
  validate_string_len field v max = Ok tt ↔ blen v ≤ max.
Proof. unfold validate_string_len. destruct (max <? blen v) eqn:E; bool_to_prop; [split; [done|lia]|done]. Qed.

Lemma validate_volume_ids_ok ids :
  validate_volume_ids ids = Ok tt ↔ Forall (fun v => blen v ≤ MAX_VOLUME_ID_BYTES) ids.
Proof.
  induction ids as [|v ids IH]; cbn [validate_volume_ids]; [done|].
  rewrite Forall_cons, <- IH, <- (validate_string_len_ok F_volume_id).
  destruct (validate_string_len F_volume_id v _) as [[]|]; simpl; [tauto|]. split; [done|by intros []].
Qed.

(** What [validate] accepts. *)
Definition request_ok (r : NegotiationRequest) : Prop :=
  protocol_version r = SUPPORTED_PROTOCOL_VERSION ∧
  blen (vmm_version r) ≤ MAX_VMM_VERSION_BYTES ∧ blen (cpu_template r) ≤ MAX_CPU_TEMPLATE_BYTES ∧
  MIN_RAM_MIB ≤ ram_mib r ≤ MAX_RAM_MIB ∧ MIN_VCPU_COUNT ≤ vcpu_count r ≤ MAX_VCPU_COUNT ∧
  Z.of_nat (length (volume_ids r)) ≤ MAX_VOLUME_IDS ∧
  Forall (fun v => blen v ≤ MAX_VOLUME_ID_BYTES) (volume_ids r).

Lemma contains_incl_true lo hi x : contains_incl lo hi x = true ↔ lo ≤ x ≤ hi.
Proof. unfold contains_incl. rewrite andb_true_iff, !Z.leb_le. done. Qed.

Lemma validate_request_ok r : validate_request r = Ok tt ↔ request_ok r.
Proof.
  unfold validate_request, request_ok. destruct (_ =? _) eqn:E1; bool_to_prop; cbn [negb];
    [|split; [done|tauto]].
  rewrite <- (validate_string_len_ok F_vmm_version), <- (validate_string_len_ok F_cpu_template).
  destruct (validate_string_len F_vmm_version _ _) as [[]|]; simpl; [|split; [done|naive_solver]].
  destruct (validate_string_len F_cpu_template _ _) as [[]|]; simpl; [|split; [done|naive_solver]].
  rewrite <- !contains_incl_true.
  destruct (contains_incl _ _ (ram_mib r)); cbn [negb]; [|split; [done|naive_solver]].
  destruct (contains_incl _ _ (vcpu_count r)); cbn [negb]; [|split; [done|naive_solver]].
  destruct (MAX_VOLUME_IDS <? _) eqn:E5; bool_to_prop; [split; [done|intros; lia]|].
  rewrite validate_volume_ids_ok. tauto.
Qed.

Lemma visit_seq_Some elems : ∀ acc out,
  Z.of_nat (length acc) ≤ MAX_VOLUME_IDS →
  visit_seq elems acc = Some out ↔
  ∃ ids, elems = Some <$> ids ∧ out = acc ++ ids ∧ Z.of_nat (length out) ≤ MAX_VOLUME_IDS ∧
    Forall (fun v => blen v ≤ MAX_VOLUME_ID_BYTES) ids.
Proof.
  induction elems as [|e elems IH]; intros acc out Hl; cbn [visit_seq].
  { split.
    - intros [= <-]. exists []. rewrite app_nil_r. split_and!; done.
    - intros (ids & He & -> & _). symmetry in He. apply fmap_nil_inv in He as ->. by rewrite app_nil_r. }
  destruct e as [v|]; [|split; [done|by intros ([|] & ? & _)]].
  destruct (Z.of_nat (length acc) =? MAX_VOLUME_IDS) eqn:E1; bool_to_prop.
  { split; [done|]. intros ([|v' ids] & He & -> & Hlen & _); [done|].
    rewrite length_app in Hlen. simpl in Hlen. lia. }
  destruct (MAX_VOLUME_ID_BYTES <? blen v) eqn:E2; bool_to_prop.
  { split; [done|]. intros ([|v' ids] & He & _ & _ & Hf); [done|]. simplify_eq/=.
    apply Forall_cons in Hf as [? _]. lia. }
  rewrite IH by (rewrite length_app; simpl; lia). split.
  - intros (ids & -> & -> & Hlen & Hf). exists (v :: ids).
    rewrite <- app_assoc in *. split_and!; try done. by constructor.
  - intros ([|v' ids] & He & -> & Hlen & Hf); [done|]. simplify_eq/=.
    apply Forall_cons in Hf as [_ Hf]. exists ids. rewrite <- app_assoc. done.
Qed.

Lemma bounded_string_Some v max x :
  deserialize_bounded_string v max = Some x ↔ v = Some x ∧ blen x ≤ max.
Proof.
  unfold deserialize_bounded_string. destruct v as [y|]; [|naive_solver].
  destruct (max <? blen y) eqn:E; bool_to_prop; split; [done| |naive_solver|naive_solver].
  intros [[= ->] ?]. lia.
Qed.

Lemma protocol_version_Some v x :
  deserialize_protocol_version v = Some x ↔ v = Some x ∧ x = SUPPORTED_PROTOCOL_VERSION.
Proof.
  unfold deserialize_protocol_version. destruct v as [y|]; [|naive_solver].
  destruct (y =? _) eqn:E; bool_to_prop; cbn [negb]; (split; [by intros [= <-]|intros [[= ->] ?]; congruence]).
Qed.

Lemma ram_mib_Some v x :
  deserialize_ram_mib v = Some x ↔ v = Some x ∧ MIN_RAM_MIB ≤ x ≤ MAX_RAM_MIB.
Proof.
  unfold deserialize_ram_mib. rewrite <- contains_incl_true. destruct v as [y|]; [|naive_solver].
  destruct (contains_incl _ _ y) eqn:E; cbn [negb]; (split; [by intros [= <-]|intros [[= ->] ?]; congruence]).
Qed.

Lemma vcpu_count_Some v x :
  deserialize_vcpu_count v = Some x ↔ v = Some x ∧ MIN_VCPU_COUNT ≤ x ≤ MAX_VCPU_COUNT.
Proof.
  unfold deserialize_vcpu_count. rewrite <- contains_incl_true. destruct v as [y|]; [|naive_solver].
  destruct (contains_incl _ _ y) eqn:E; cbn [negb]; (split; [by intros [= <-]|intros [[= ->] ?]; congruence]).
Qed.

Definition hint_ok (hint : option Z) : Prop :=
  match hint with Some h => h ≤ MAX_VOLUME_IDS | None => True end.

Lemma volume_ids_Some hint elems out :
  deserialize_volume_ids hint elems = Some out ↔
  hint_ok hint ∧ elems = Some <$> out ∧ Z.of_nat (length out) ≤ MAX_VOLUME_IDS ∧
  Forall (fun v => blen v ≤ MAX_VOLUME_ID_BYTES) out.
Proof.
  assert (visit_seq elems [] = Some out ↔ elems = Some <$> out ∧
    Z.of_nat (length out) ≤ MAX_VOLUME_IDS ∧ Forall (fun v => blen v ≤ MAX_VOLUME_ID_BYTES) out) as Hv.
  { rewrite visit_seq_Some by done. naive_solver. }
  unfold deserialize_volume_ids, hint_ok. destruct hint as [h|]; [|naive_solver].
  destruct (MAX_VOLUME_IDS <? h) eqn:E; bool_to_prop; [|rewrite Hv; tauto].
  split; [done|]. intros [? _]. lia.
Qed.

Lemma deserialize_request_iff raw r :
  deserialize_request raw = Some r ↔
  request_ok r ∧ hint_ok (raw_volume_hint raw) ∧ raw = raw_of (raw_volume_hint raw) r.
Proof.
  destruct raw as [pv vv ct rm vc dh hint vi]. unfold deserialize_request, request_ok, raw_of.
  cbn [raw_protocol_version raw_vmm_version raw_cpu_template raw_ram_mib raw_vcpu_count
    raw_device_model_hash raw_volume_hint raw_volume_ids]. split.
  - destruct (deserialize_protocol_version pv) as [x1|] eqn:E1; [|done].
    destruct (deserialize_bounded_string vv _) as [x2|] eqn:E2; [|done].
    destruct (deserialize_bounded_string ct _) as [x3|] eqn:E3; [|done].
    destruct (deserialize_ram_mib rm) as [x4|] eqn:E4; [|done].
    destruct (deserialize_vcpu_count vc) as [x5|] eqn:E5; [|done].
    destruct dh as [x6|]; [|done].
    destruct (deserialize_volume_ids hint vi) as [x7|] eqn:E7; [|done]. intros [= <-].
    apply protocol_version_Some in E1 as [-> ?]. apply bounded_string_Some in E2 as [-> ?].
    apply bounded_string_Some in E3 as [-> ?]. apply ram_mib_Some in E4 as [-> ?].
    apply vcpu_count_Some in E5 as [-> ?]. apply volume_ids_Some in E7 as (? & -> & ? & ?).
    cbn. auto 12.
  - intros ((H1 & H2 & H3 & H4 & H5 & H6 & H7) & H8 & [= -> -> -> -> -> -> ->]).
    rewrite (proj2 (protocol_version_Some _ _) (conj eq_refl H1)).
    rewrite (proj2 (bounded_string_Some _ _ _) (conj eq_refl H2)).
    rewrite (proj2 (bounded_string_Some _ _ _) (conj eq_refl H3)).
    rewrite (proj2 (ram_mib_Some _ _) (conj eq_refl H4)).
    rewrite (proj2 (vcpu_count_Some _ _) (conj eq_refl H5)).
    rewrite (proj2 (volume_ids_Some _ _ _) (conj H8 (conj eq_refl (conj H6 H7)))).
    by destruct r.
Qed.

Lemma string_append_length s t :
  String.length (s +:+ t) = (String.length s + String.length t)%nat.
Proof. induction s as [|c s IH]; simpl; [done|by rewrite IH]. Qed.

Lemma string_append_inj_r s s' t : s +:+ t = s' +:+ t → s = s'.
Proof.
  revert s'. induction s as [|c s IH]; intros [|c' s'] He; simpl in He; [done| | |].
  - apply (f_equal String.length) in He. simpl in He. rewrite ?string_append_length in He. simpl in He. lia.
  - apply (f_equal String.length) in He. simpl in He. rewrite ?string_append_length in He. simpl in He. lia.
  - injection He as -> He. f_equal. by apply IH.
Qed.

(** Names that differ in a decimal index between a fixed prefix and suffix. *)
Lemma indexed_name_inj (pre suf : string) (i j : Z) :
  pre +:+ pretty i +:+ suf = pre +:+ pretty j +:+ suf ↔ i = j.
Proof.
  split; [|by intros ->]. intros He. apply (inj (String.append pre)) in He.
  apply string_append_inj_r in He. by apply (inj pretty) in He.
Qed.

Lemma clone_mac_eq i j :
  0 ≤ i → 0 ≤ j → clone_mac i = clone_mac j ↔ i mod 65536 = j mod 65536.
Proof.
  intros Hi Hj. unfold clone_mac. change 255 with (Z.ones 8).
  rewrite !Z.land_ones, !Z.shiftr_div_pow2 by lia. change (2 ^ 8) with 256.
  split.
  - intros [= H1 H2]. zlia.
  - intros H. assert (i / 256 mod 256 = j / 256 mod 256 ∧ i mod 256 = j mod 256) as [-> ->]; [|done].
    split; zlia.
Qed.

End migration_lemmas.

(** ** The claims *)

(** C34: The pre-copy loop always ends, within the round limit (or after the
    first round), whatever the residual model computes: with a final stop,
    which before the limit means the residual copies within the downtime
    target, or with divergence, only after two rounds and only when memory is
    dirtied at least as fast as it is copied. *)
Theorem simulate_terminates fuel p b :
  Z.max 1 (max_rounds p) ≤ Z.of_nat fuel →
  ∃ d k b', simulate fuel p b = Some (d, k) ∧ d = decide_round p k b' ∧
    1 ≤ k ≤ Z.max 1 (max_rounds p) ∧
    match d with
    | FinalStop r res => r = k ∧ (k < max_rounds p → copy_time_us p res ≤ target_downtime_us p)
    | Diverging r => r = k ∧ 2 ≤ k ∧ copy_bandwidth_bps p ≤ dirty_rate_bps p
    | Continue _ _ => False
    end.
Proof.
  intros Hf. unfold simulate.
  destruct (simulate_loop_ok fuel p 0 b) as (d & k & b' & Hs & Hd & Hc & Hk); [lia|].
  exists d, k, b'. split; [done|]. split; [done|]. split; [lia|].
  destruct d as [r x|r x|r]; [by destruct (Hc r x)| |].
  - symmetry in Hd. apply decide_round_final in Hd as (-> & -> & Hor). split; [done|]. lia.
  - symmetry in Hd. by apply decide_round_diverging in Hd as (-> & ? & ?).
Qed.

(** A migration driven by the pre-copy decisions completes: whatever is
    dirtied on the way it is done after at most five phase changes and the
    round limit, never aborts, and then stays done. *)
Theorem migration_completes p dirty n :
  5 + Z.max 0 (max_rounds p) ≤ Z.of_nat n → phase (drive p dirty n migration_new) = Done.
Proof. intros Hn. apply drive_done; [done|]. unfold steps_left. simpl. lia. Qed.

(** The checks made while a request is deserialized and those of
    [validate] agree: every request that deserializes validates, and every
    request that validates is read back as it was written, with or without a
    length hint. *)
Theorem deserialize_agrees_with_validate raw r :
  (deserialize_request raw = Some r → validate_request r = Ok tt) ∧
  (validate_request r = Ok tt →
   deserialize_request (raw_of None r) = Some r ∧
   deserialize_request (raw_of (Some (Z.of_nat (length (volume_ids r)))) r) = Some r).
Proof.
  rewrite validate_request_ok. setoid_rewrite deserialize_request_iff.
  split; [by intros [? _]|]. intros Hok. split; (split; [done|]; split; [|done]); [done|].
  by destruct Hok as (_ & _ & _ & _ & _ & ? & _).
Qed.

(** Two clones have the same MAC address exactly when their indices agree
    modulo 65536, and every other resource of a plan is distinct: overlays,
    tap devices and network namespaces of different clones differ. *)
Theorem clone_resources_distinct base vol n dir i j :
  0 ≤ i < n → 0 ≤ j < n →
  let plan := build_clone_plan base vol n dir in
  ∃ oi oj ni nj,
    overlays plan !! Z.to_nat i = Some oi ∧ overlays plan !! Z.to_nat j = Some oj ∧
    nets plan !! Z.to_nat i = Some ni ∧ nets plan !! Z.to_nat j = Some nj ∧
    (overlay_path oi = overlay_path oj ↔ i = j) ∧ (tap_name ni = tap_name nj ↔ i = j) ∧
    (netns ni = netns nj ↔ i = j) ∧ (mac ni = mac nj ↔ i mod 65536 = j mod 65536).
Proof.
  intros Hi Hj plan. unfold plan, build_clone_plan. cbn [overlays nets].
  rewrite !list_lookup_fmap.
  rewrite !(lookup_seqZ_lt 0 n) by lia. rewrite !Z.add_0_l, !Z2Nat.id by lia.
  do 4 eexists. do 4 (split; [done|]). cbn [overlay_path tap_name netns mac].
  split; [|split; [apply indexed_name_inj|split; [apply indexed_name_inj|apply clone_mac_eq; lia]]].
  split; [|by intros ->]. intros He. apply (inj (String.append dir)) in He.
  by apply indexed_name_inj in He.
Qed.

(** ** Witnesses *)

Definition example_params : PrecopyParams := mkParams 1073741824 104857600 1073741824 5000 8.

Lemma simulate_terminates_witness :
  simulate 8 example_params 1073741824 = Some (FinalStop 4 1000000, 4) ∧
  ∃ d k b', simulate 8 example_params 1073741824 = Some (d, k) ∧
    d = decide_round example_params k b' ∧ 1 ≤ k ≤ Z.max 1 (max_rounds example_params) ∧
    match d with
    | FinalStop r res => r = k ∧
        (k < max_rounds example_params → copy_time_us example_params res ≤ 5000)
    | Diverging r => r = k ∧ 2 ≤ k ∧
        copy_bandwidth_bps example_params ≤ dirty_rate_bps example_params
    | Continue _ _ => False
    end.
Proof.
  split; [vm_compute; reflexivity|].
  exact (simulate_terminates 8 example_params 1073741824 ltac:(vm_compute; discriminate)).
Defined.

Lemma migration_completes_witness : phase (drive example_params (fun _ => 1048576) 13 migration_new) = Done.
Proof. apply (migration_completes example_params (fun _ => 1048576) 13). vm_compute. discriminate. Defined.

Lemma clone_resources_distinct_witness :
  ∃ ni nj, nets (build_clone_plan "base" "vol" 70000 "/d") !! Z.to_nat 1 = Some ni ∧
    nets (build_clone_plan "base" "vol" 70000 "/d") !! Z.to_nat 65537 = Some nj ∧
    (mac ni = mac nj ↔ 1 mod 65536 = 65537 mod 65536).
Proof.
  destruct (clone_resources_distinct "base" "vol" 70000 "/d" 1 65537)
    as (_ & _ & ni & nj & _ & _ & Hi & Hj & _ & _ & _ & Hm); [lia|lia|].
  exists ni, nj. exact (conj Hi (conj Hj Hm)).
Defined.
