(* ===== verification/LiveSnap.v ===== *)
(** * Live snapshots ([vmm-core/src/live_snapshot.rs])

    The executor that copies guest RAM into a staging file while the virtual
    processors and the device workers keep running, in rounds over the dirty
    pages, until a short final stop. What runs beside it is modelled by
    [action]s: a schedule says which of them happen at each point where the
    executor touches shared state, down to every byte it reads from guest
    memory. The rest of the environment, the answers of system calls, the
    clock, the quiescence hook, is a list of answers in the state.

    Guest memory is what the guest sees of it; for a lazily restored guest
    this is the [view] of [LazyProof], of which pages that are not populated
    hold what a fault would install. An operation is a total function from the
    state to a result and a state: [Panics] is a panic of the code, and
    [Stuck] stands for a loop that ran out of fuel ([LiveSnapProof] shows
    that none does). *)

From Stdlib Require Import SpecFloat.
From stdpp Require Import sorting.
From S2P Require Import Prelude Dirty GuestMem FileRanges GuestRam KvmLog Lazy Migration.

(** ** Errors ([error.rs]); messages are not modelled *)

Inductive VmmError : Type :=
| InvalidConfig
| Kvm
| Memory
| Loader
| Device
| IoQuiescence (vcpus_may_resume retryable : bool)
| Snapshot
| VmmIo.

Definition is_retryable (e : VmmError) : bool :=
  match e with IoQuiescence _ retryable => retryable | _ => false end.

Definition vcpus_may_resume_after_io_error (e : VmmError) : bool :=
  match e with IoQuiescence vcpus_may_resume _ => vcpus_may_resume | _ => true end.

Inductive LiveError : Type :=
| Fails (e : VmmError)
| Panics
| Stuck.

(** ** Durations, in nanoseconds *)

Definition f64_add : spec_float → spec_float → spec_float := SFadd 53 1024.
Definition NANOS_PER_SEC : Z := 1000000000.
Definition DURATION_MAX : Z := U64_MAX * NANOS_PER_SEC + 999999999.

Definition from_secs (secs : Z) : Z := secs * NANOS_PER_SEC.

Definition as_secs_f64 (ns : Z) : spec_float :=
  f64_add (f64_of_u64 (ns / NANOS_PER_SEC)) (f64_div (f64_of_u64 (ns mod NANOS_PER_SEC)) (f64_of_u64 NANOS_PER_SEC)).

Definition round_half_even (num den : Z) : Z :=
  let q := num / den in
  let r := 2 * (num mod den) in
  if r <? den then q else if den <? r then q + 1 else if Z.even q then q else q + 1.

(** [None] is the panic for a value that is negative, too large or not a
    number. *)
Definition from_secs_f64 (secs : spec_float) : option Z :=
  match secs with
  | S754_zero _ => Some 0
  | S754_infinity _ | S754_nan => None
  | S754_finite true _ _ => None
  | S754_finite false m e =>
      if 0 <=? e
      then if 18446744073709551616 <=? Z.shiftl (Zpos m) e then None else Some (Z.shiftl (Zpos m) e * NANOS_PER_SEC)
      else let ns := round_half_even (Zpos m * NANOS_PER_SEC) (2 ^ (- e)) in
           if 18446744073709551616 * NANOS_PER_SEC <=? ns then None else Some ns
  end.

Definition duration_saturating_add (a b : Z) : Z := Z.min (a + b) DURATION_MAX.
Definition duration_saturating_sub (a b : Z) : Z := Z.max 0 (a - b).

Definition f64_is_finite (f : spec_float) : bool :=
  match f with S754_zero _ | S754_finite _ _ _ => true | _ => false end.
Definition f64_zero : spec_float := S754_zero false.
Definition f64_one : spec_float := f64_of_u64 1.

Definition BANDWIDTH_SAMPLE_MIN_BYTES : Z := 1048576.
Definition CLONE_RUN_BYTES : Z := 33554432.
Definition DEFAULT_COPY_BANDWIDTH_BPS : Z := 500000000.

Definition bandwidth_sample (bytes elapsed : Z) : option Z :=
  if bytes <? BANDWIDTH_SAMPLE_MIN_BYTES then None
  else
    let secs := as_secs_f64 elapsed in
    if SFleb secs f64_zero then None
    else
      let bps := f64_div (f64_of_u64 bytes) secs in
      if f64_is_finite bps && SFleb f64_one bps then Some (u64_of_f64 bps) else None.

Definition dirty_rate_sample (bytes elapsed : Z) : Z :=
  let secs := as_secs_f64 elapsed in
  if SFleb secs f64_zero then U64_MAX
  else
    let bps := f64_div (f64_of_u64 bytes) secs in
    if negb (f64_is_finite bps) || SFltb bps f64_one then 1 else u64_of_f64 bps.

(** ** The guest *)

(** What [VcpuThread] shares with its thread. [v_regs] is the state of the
    processor; the thread serializes it into [v_captured] when it parks. *)
Record Vcpu (R : Type) := mkVcpu {
  v_control : bool;
  v_paused : bool;
  v_exited : bool;
  v_alive : bool;
  v_captured : option R;
  v_regs : R;
}.
Arguments mkVcpu {R}.
Arguments v_control {R}.
Arguments v_paused {R}.
Arguments v_exited {R}.
Arguments v_alive {R}.
Arguments v_captured {R}.
Arguments v_regs {R}.

(** The hook of a lazily restored guest and its entries of
    [/proc/self/pagemap]. *)
Record LazyPart := mkLazyPart {
  lp_hook : LazyPageDiscard;
  lp_pagemap : list Z;
}.

(** The device workers: running, parked, or neither confirmed. *)
Inductive io_state : Type := IoRunning | IoParked | IoUnknown.

#[export] Instance io_state_eq_dec : EqDecision io_state.
Proof. solve_decision. Defined.

(** A device writes guest memory and then marks the range it wrote:
    [g_pending] has the ranges that are still to be marked, by the thread
    that wrote them ([None] for a worker, a processor's for an access it
    handles itself). [g_fence] is the write side of the snapshot fence. *)
Record Guest (V R D : Type) := mkGuest {
  g_mem : list Z;
  g_kvm : V;
  g_host : DirtyBitmap.t;
  g_pending : list (option nat * Z * Z);
  g_vcpus : list (Vcpu R);
  g_io : io_state;
  g_dev : D;
  g_lazy : option LazyPart;
  g_fence : bool;
}.
Arguments mkGuest {V R D}.
Arguments g_mem {V R D}.
Arguments g_kvm {V R D}.
Arguments g_host {V R D}.
Arguments g_pending {V R D}.
Arguments g_vcpus {V R D}.
Arguments g_io {V R D}.
Arguments g_dev {V R D}.
Arguments g_lazy {V R D}.
Arguments g_fence {V R D}.

(** What happens beside the executor. *)
Inductive action (R D : Type) : Type :=
(** processor [i]: a store, other progress, parking (with its registers
    captured or not), leaving the park, the end of its thread *)
| VcpuStore (i : nat) (off : Z) (bs : list Z) (r : R)
| VcpuRuns (i : nat) (r : R)
| VcpuParks (i : nat) (captures : bool)
| VcpuLeaves (i : nat)
| VcpuExits (i : nat)
| VcpuDies (i : nat)
(** a device, on a worker or on a processor's thread: a store, its mark; that
    every store is marked in the end is what devices promise here *)
| DeviceStore (who : option nat) (off : Z) (bs : list Z) (d : D)
| DeviceMarks (k : nat)
| DeviceDiscard (who : option nat) (first n : Z) (d : D)
(** the fault handler populates a page, and marks what it has filled *)
| PageFilled (q entry : Z)
| HostMarks (off len : Z).
Arguments VcpuStore {R D}.
Arguments VcpuRuns {R D}.
Arguments VcpuParks {R D}.
Arguments VcpuLeaves {R D}.
Arguments VcpuExits {R D}.
Arguments VcpuDies {R D}.
Arguments DeviceStore {R D}.
Arguments DeviceMarks {R D}.
Arguments DeviceDiscard {R D}.
Arguments PageFilled {R D}.
Arguments HostMarks {R D}.

Definition PAGEMAP_POPULATED : Z := Z.lor (Z.shiftl 1 63) (Z.shiftl 1 62).

Definition populated_entry (e : Z) : bool := negb (Z.land e PAGEMAP_POPULATED =? 0).

Section guest.
Context {V R D : Type} `{!KvmVm V} (ram : Z).
Notation Guest := (Guest V R D).
Implicit Types (g : Guest).

Definition with_mem g (m : list Z) : Guest :=
  mkGuest m (g_kvm g) (g_host g) (g_pending g) (g_vcpus g) (g_io g) (g_dev g) (g_lazy g) (g_fence g).
Definition with_kvm g (v : V) : Guest :=
  mkGuest (g_mem g) v (g_host g) (g_pending g) (g_vcpus g) (g_io g) (g_dev g) (g_lazy g) (g_fence g).
Definition with_host g (h : DirtyBitmap.t) : Guest :=
  mkGuest (g_mem g) (g_kvm g) h (g_pending g) (g_vcpus g) (g_io g) (g_dev g) (g_lazy g) (g_fence g).
Definition with_marks g (p : list (option nat * Z * Z)) : Guest :=
  mkGuest (g_mem g) (g_kvm g) (g_host g) p (g_vcpus g) (g_io g) (g_dev g) (g_lazy g) (g_fence g).
Definition with_vcpu g (i : nat) (f : Vcpu R → Vcpu R) : Guest :=
  mkGuest (g_mem g) (g_kvm g) (g_host g) (g_pending g) (alter f i (g_vcpus g)) (g_io g) (g_dev g) (g_lazy g) (g_fence g).
Definition with_io g (io : io_state) : Guest :=
  mkGuest (g_mem g) (g_kvm g) (g_host g) (g_pending g) (g_vcpus g) io (g_dev g) (g_lazy g) (g_fence g).
Definition with_dev g (d : D) : Guest :=
  mkGuest (g_mem g) (g_kvm g) (g_host g) (g_pending g) (g_vcpus g) (g_io g) d (g_lazy g) (g_fence g).
Definition with_lazy g (l : option LazyPart) : Guest :=
  mkGuest (g_mem g) (g_kvm g) (g_host g) (g_pending g) (g_vcpus g) (g_io g) (g_dev g) l (g_fence g).
Definition with_fence g (b : bool) : Guest :=
  mkGuest (g_mem g) (g_kvm g) (g_host g) (g_pending g) (g_vcpus g) (g_io g) (g_dev g) (g_lazy g) b.

Definition set_control (b : bool) (v : Vcpu R) : Vcpu R := mkVcpu b (v_paused v) (v_exited v) (v_alive v) (v_captured v) (v_regs v).
Definition set_paused (b : bool) (v : Vcpu R) : Vcpu R := mkVcpu (v_control v) b (v_exited v) (v_alive v) (v_captured v) (v_regs v).
Definition set_exited (v : Vcpu R) : Vcpu R := mkVcpu (v_control v) (v_paused v) true (v_alive v) (v_captured v) (v_regs v).
Definition set_alive (b : bool) (v : Vcpu R) : Vcpu R := mkVcpu (v_control v) (v_paused v) (v_exited v) b (v_captured v) (v_regs v).
Definition set_captured (c : option R) (v : Vcpu R) : Vcpu R := mkVcpu (v_control v) (v_paused v) (v_exited v) (v_alive v) c (v_regs v).
Definition set_regs (r : R) (v : Vcpu R) : Vcpu R := mkVcpu (v_control v) (v_paused v) (v_exited v) (v_alive v) (v_captured v) r.

Definition vcpu_running g (i : nat) : bool :=
  match g_vcpus g !! i with Some v => negb (v_paused v) && negb (v_exited v) && v_alive v | None => false end.

(** Who may handle an access: a worker that is not parked, a processor's
    thread while it runs. *)
Definition may_work g (who : option nat) : bool :=
  match who with None => bool_decide (g_io g ≠ IoParked) | Some i => vcpu_running g i end.

Definition in_ram (off : Z) (bs : list Z) : bool := (0 <=? off) && (off + Z.of_nat (length bs) <=? ram).

(** The pages of a range. *)
Definition pages_in (off len : Z) : list Z := if len =? 0 then [] else seqZ (off / PAGE_SIZE) (div_ceil (off + len) PAGE_SIZE - off / PAGE_SIZE).

Definition set_entries (pm : list Z) (qs : list Z) (e : Z) : list Z := foldl (fun pm q => <[ Z.to_nat q := e ]> pm) pm qs.

Definition fault_in g (qs : list Z) : Guest :=
  match g_lazy g with
  | None => g
  | Some l => with_lazy g (Some (mkLazyPart (lp_hook l) (set_entries (lp_pagemap l) qs PAGEMAP_POPULATED)))
  end.

Definition store g (off : Z) (bs : list Z) : Guest :=
  with_mem (fault_in g (pages_in off (Z.of_nat (length bs)))) (copy_from_slice (g_mem g) (Z.to_nat off) bs).

Definition no_pending_of g (i : nat) : bool := forallb (fun e : option nat * Z * Z => negb (bool_decide (e.1.1 = Some i))) (g_pending g).

(** An action that cannot happen does nothing. *)
Definition act (a : action R D) g : Guest :=
  match a with
  | VcpuStore i off bs r =>
      if vcpu_running g i && in_ram off bs then
        let g := store g off bs in
        let v := foldl (fun v p => kvm_write v (page_slot ram p).1 (page_slot ram p).2) (g_kvm g) (pages_in off (Z.of_nat (length bs))) in
        with_vcpu (with_kvm g v) i (set_regs r)
      else g
  | VcpuRuns i r => if vcpu_running g i then with_vcpu g i (set_regs r) else g
  | VcpuParks i captures =>
      match g_vcpus g !! i with
      | Some v =>
          if vcpu_running g i && v_control v && no_pending_of g i
          then with_vcpu g i (fun v => set_paused true (if captures then set_captured (Some (v_regs v)) v else v))
          else g
      | None => g
      end
  | VcpuLeaves i =>
      match g_vcpus g !! i with
      | Some v => if v_paused v && negb (v_control v) && negb (v_exited v) then with_vcpu g i (set_paused false) else g
      | None => g
      end
  | VcpuExits i => with_vcpu g i (fun v => set_exited (set_paused true v))
  | VcpuDies i => with_vcpu g i (set_alive false)
  | DeviceStore who off bs d =>
      if may_work g who && in_ram off bs
      then with_dev (with_marks (store g off bs) (g_pending g ++ [(who, off, Z.of_nat (length bs))])) d
      else g
  | DeviceMarks k =>
      match g_pending g !! k with
      | Some (_, off, len) =>
          with_marks (with_host g (SoftwareDirtyBitmap.mark_range (g_host g) off len)) (delete k (g_pending g))
      | None => g
      end
  | DeviceDiscard who first n d =>
      match g_lazy g with
      | Some l =>
          if may_work g who && negb (g_fence g) && (0 <=? first) && (0 <=? n) && ((first + n) * PAGE_SIZE <=? ram) then
            let hook := set_discarded (lp_hook l) (mark_discarded (discarded_pages (lp_hook l)) first n) in
            let m := copy_from_slice (g_mem g) (Z.to_nat (first * PAGE_SIZE)) (replicate (Z.to_nat (n * PAGE_SIZE)) 0) in
            with_dev (with_marks (with_lazy (with_mem g m) (Some (mkLazyPart hook (set_entries (lp_pagemap l) (seqZ first n) 0))))
              (g_pending g ++ [(who, first * PAGE_SIZE, n * PAGE_SIZE)])) d
          else g
      | None => g
      end
  | PageFilled q e =>
      match g_lazy g with
      | Some l => if populated_entry e then with_lazy g (Some (mkLazyPart (lp_hook l) (<[ Z.to_nat q := e ]> (lp_pagemap l)))) else g
      | None => g
      end
  | HostMarks off len => with_host g (SoftwareDirtyBitmap.mark_range (g_host g) off len)
  end.

Definition acts (l : list (action R D)) g : Guest := foldl (fun g a => act a g) g l.

End guest.

(** ** The executor *)

(** [l_sched] is what happens before each byte that is read from guest
    memory, [l_waits] what happens at every other point; [l_answers] has for
    each system call [None] for success or how much a failing write wrote;
    [l_quiesce] the results of the quiescence hook, [l_clock] those of
    reading the clock. A list that has run out means: nothing, success, zero.
    [l_consumed] is the [dirty] field of the [DirtyReplayGuard]. *)
Record Live (V R D : Type) := mkLive {
  l_guest : Guest V R D;
  l_file : list Z;
  l_consumed : DirtyBitmap.t;
  l_sched : list (list (action R D));
  l_waits : list (list (action R D));
  l_answers : list (option Z);
  l_quiesce : list (result unit VmmError);
  l_clock : list Z;
}.
Arguments mkLive {V R D}.
Arguments l_guest {V R D}.
Arguments l_file {V R D}.
Arguments l_consumed {V R D}.
Arguments l_sched {V R D}.
Arguments l_waits {V R D}.
Arguments l_answers {V R D}.
Arguments l_quiesce {V R D}.
Arguments l_clock {V R D}.

Definition op (S A : Type) : Type := S → result A LiveError * S.

Section op.
Context {S : Type}.

Definition done {A : Type} (a : A) : op S A := fun s => (Ok a, s).
Definition raise {A : Type} (e : LiveError) : op S A := fun s => (Err e, s).
Definition op_bind {A B : Type} (c : op S A) (k : A → op S B) : op S B :=
  fun s => match c s with (Ok a, s') => k a s' | (Err e, s') => (Err e, s') end.
Definition attempt {A : Type} (c : op S A) : op S (result A LiveError) :=
  fun s => let '(r, s') := c s in (Ok r, s').
Definition lift {A : Type} (r : result A LiveError) : op S A := fun s => (r, s).

Fixpoint each {A : Type} (f : A → op S unit) (l : list A) : op S unit :=
  match l with
  | [] => done tt
  | a :: l' => op_bind (f a) (fun _ => each f l')
  end.
End op.

Notation "'let!' x := c 'in' k" := (op_bind c (fun x => k))
  (at level 10, x name, c at level 100, k at level 200,
   format "'[v' 'let!'  x  :=  c  'in' '/' k ']'") : rust_scope.
Notation "'do!' c 'in' k" := (op_bind c (fun _ => k))
  (at level 10, c at level 100, k at level 200,
   format "'[v' 'do!'  c  'in' '/' k ']'") : rust_scope.

Definition pop {A : Type} (d : A) (l : list A) : A * list A :=
  match l with [] => (d, []) | a :: l' => (a, l') end.

Section live.
Context {V R D : Type} `{!KvmVm V} (ram : Z).
Notation Guest := (Guest V R D).
Notation Live := (Live V R D).
Implicit Types (s : Live).

Definition on_guest (f : Guest → Guest) s : Live :=
  mkLive (f (l_guest s)) (l_file s) (l_consumed s) (l_sched s) (l_waits s) (l_answers s) (l_quiesce s) (l_clock s).
Definition on_file (f : list Z → list Z) s : Live :=
  mkLive (l_guest s) (f (l_file s)) (l_consumed s) (l_sched s) (l_waits s) (l_answers s) (l_quiesce s) (l_clock s).

Definition the_guest : op Live Guest := fun s => (Ok (l_guest s), s).
Definition update (f : Guest → Guest) : op Live unit := fun s => (Ok tt, on_guest f s).

(** A point where other threads run. *)
Definition interfere : op Live unit :=
  fun s =>
    let '(l, rest) := pop [] (l_waits s) in
    (Ok tt, mkLive (acts ram l (l_guest s)) (l_file s) (l_consumed s) (l_sched s) rest (l_answers s) (l_quiesce s) (l_clock s)).

Definition before_byte s : Live :=
  let '(l, rest) := pop [] (l_sched s) in
  mkLive (acts ram l (l_guest s)) (l_file s) (l_consumed s) rest (l_waits s) (l_answers s) (l_quiesce s) (l_clock s).

Definition answer : op Live (option Z) :=
  fun s =>
    let '(a, rest) := pop None (l_answers s) in
    (Ok a, mkLive (l_guest s) (l_file s) (l_consumed s) (l_sched s) (l_waits s) rest (l_quiesce s) (l_clock s)).

Definition now : op Live Z :=
  fun s =>
    let '(t, rest) := pop 0 (l_clock s) in
    (Ok t, mkLive (l_guest s) (l_file s) (l_consumed s) (l_sched s) (l_waits s) (l_answers s) (l_quiesce s) rest).

Definition elapsed (since : Z) : op Live Z := let! t := now in done (duration_saturating_sub t since).

(** *** Guest memory and the file *)

Fixpoint load_bytes (off : Z) (n : nat) : op Live (list Z) :=
  fun s =>
    match n with
    | O => (Ok [], s)
    | S n' =>
        let s := before_byte s in
        let s := on_guest (fun g => fault_in g [off / PAGE_SIZE]) s in
        let b := default 0 (g_mem (l_guest s) !! Z.to_nat off) in
        match load_bytes (off + 1) n' s with
        | (Ok bs, s') => (Ok (b :: bs), s')
        | (Err e, s') => (Err e, s')
        end
    end.

(** Reading a part of the mapping of guest memory. *)
Definition load (off len : Z) : op Live (list Z) := load_bytes off (Z.to_nat len).

(** [pwrite]: a write past the end extends the file. *)
Definition file_write (f : list Z) (at_ : Z) (bs : list Z) : list Z :=
  copy_from_slice (f ++ replicate (Z.to_nat at_ + length bs - length f) 0) (Z.to_nat at_) bs.

Definition write_all_at (bs : list Z) (at_ : Z) : op Live unit :=
  do! interfere in
  let! a := answer in
  match a with
  | None => fun s => (Ok tt, on_file (fun f => file_write f at_ bs) s)
  | Some n => fun s => (Err (Fails Snapshot), on_file (fun f => file_write f at_ (take (Z.to_nat n) bs)) s)
  end.

Definition set_len (len : Z) : op Live unit :=
  let! a := answer in
  match a with
  | None => fun s => (Ok tt, on_file (fun f => take (Z.to_nat len) f ++ replicate (Z.to_nat len - length f) 0) s)
  | Some _ => raise (Fails Snapshot)
  end.

Definition sync_data : op Live unit :=
  do! interfere in
  let! a := answer in
  match a with None => done tt | Some _ => raise (Fails Snapshot) end.

(** *** Virtual processors ([vcpu_thread.rs]) *)

Definition vcpu (i : nat) (k : Vcpu R → op Live unit) : op Live unit :=
  let! g := the_guest in
  match g_vcpus g !! i with Some v => k v | None => raise Panics end.

Definition request_snapshot_pause (i : nat) : op Live unit :=
  do! interfere in
  vcpu i (fun v =>
    if v_exited v || negb (v_alive v) then raise (Fails Snapshot)
    else update (fun g => with_vcpu g i (fun v => set_control true (set_captured None v)))).

(** The loop ends when the thread has parked, when it is gone, or after the
    timeout. *)
Definition wait_snapshot_paused (i : nat) : op Live unit :=
  do! interfere in
  vcpu i (fun v =>
    if negb (v_paused v) then
      if v_exited v || negb (v_alive v)
      then do! update (fun g => with_vcpu g i set_exited) in raise (Fails Snapshot)
      else raise (Fails Snapshot)
    else if v_exited v then raise (Fails Snapshot)
    else match v_captured v with None => raise (Fails Snapshot) | Some _ => done tt end).

Definition resume_vcpu (i : nat) : op Live unit :=
  do! interfere in update (fun g => with_vcpu g i (set_control false)).

Definition wait_snapshot_resumed (i : nat) : op Live unit :=
  do! interfere in
  vcpu i (fun v =>
    if v_paused v then
      if v_exited v || negb (v_alive v)
      then do! update (fun g => with_vcpu g i set_exited) in raise (Fails Snapshot)
      else raise (Fails Snapshot)
    else if v_exited v then raise (Fails Snapshot)
    else done tt).

Definition vcpu_threads (k : list nat → op Live unit) : op Live unit :=
  let! g := the_guest in k (seq 0 (length (g_vcpus g))).

(** [VcpuPauseGuard::resume]. *)
Definition resume_all : op Live unit :=
  vcpu_threads (fun ids =>
    do! each resume_vcpu ids in
    each wait_snapshot_resumed ids).

Definition finish_failed_vcpu_pause (primary : LiveError) : op Live unit :=
  let! r := attempt resume_all in
  match r with
  | Ok _ => raise primary
  | Err _ => raise (Fails Snapshot)
  end.

Definition or_finish (c : op Live unit) : op Live unit :=
  let! r := attempt c in
  match r with Ok _ => done tt | Err e => finish_failed_vcpu_pause e end.

Definition pause_all : op Live unit :=
  vcpu_threads (fun ids =>
    match ids with
    | [] => raise (Fails Snapshot)
    | _ => or_finish (do! each request_snapshot_pause ids in each wait_snapshot_paused ids)
    end).

(** *** Device workers *)

Definition flush_marks (g : Guest) : Guest :=
  with_marks (with_host g (foldl (fun h (e : option nat * Z * Z) => SoftwareDirtyBitmap.mark_range h e.1.2 e.2) (g_host g)
    (filter (fun e => e.1.1 = None) (g_pending g)))) (filter (fun e => e.1.1 ≠ None) (g_pending g)).

(** The hook the caller passes: [quiesce_io(true)] parks every worker that
    writes guest memory and returns once they have acknowledged, which they do
    between two accesses; an error says whether they are known to run again. *)
Definition quiesce_io (park : bool) : op Live unit :=
  do! interfere in
  fun s =>
    let '(r, rest) := pop (Ok tt) (l_quiesce s) in
    let s := mkLive (l_guest s) (l_file s) (l_consumed s) (l_sched s) (l_waits s) (l_answers s) rest (l_clock s) in
    match r with
    | Ok _ => (Ok tt, on_guest (fun g => if park then with_io (flush_marks g) IoParked else with_io g IoRunning) s)
    | Err e =>
        (Err (Fails e), on_guest (fun g => with_io g (if park && vcpus_may_resume_after_io_error e then IoRunning else IoUnknown)) s)
    end.

(** [finish_final_stop] of an [IoQuiesceGuard] and a [VcpuPauseGuard], both
    armed. *)
Definition finish_final_stop {T : Type} (capture : result T LiveError) : op Live T :=
  let! io := attempt (quiesce_io false) in
  match io with
  | Err io_error => raise (match capture with Ok _ => io_error | Err _ => Fails Snapshot end)
  | Ok _ =>
      let! vcpu_resume := attempt resume_all in
      match capture, vcpu_resume with
      | Ok value, Ok _ => done value
      | Err error, Ok _ => raise error
      | Ok _, Err error => raise error
      | Err _, Err _ => raise (Fails Snapshot)
      end
  end.

(** *** Copying pages *)

Definition ok_or_memory {A : Type} (o : option A) : op Live A :=
  match o with Some a => done a | None => raise (Fails Memory) end.

Definition copy_page_run (start_pfn end_pfn : Z) : op Live Z :=
  let! pages := ok_or_memory (u64_checked_sub end_pfn start_pfn) in
  let! gpa := ok_or_memory (u64_checked_mul start_pfn PAGE_SIZE) in
  let! len := ok_or_memory (u64_checked_mul pages PAGE_SIZE) in
  let! end_ := ok_or_memory (u64_checked_add gpa len) in
  if ram <? end_ then raise (Fails Memory)
  else
    let! src := load gpa len in
    do! write_all_at src gpa in
    done pages.

(** The runs of consecutive page numbers. *)
Fixpoint copy_runs (pfns : list Z) (run_start : option Z) (run_end copied : Z) : op Live Z :=
  match pfns with
  | [] =>
      match run_start with
      | Some start => let! n := copy_page_run start run_end in done (copied + n)
      | None => done copied
      end
  | pfn :: pfns' =>
      match run_start with
      | Some start =>
          if pfn =? run_end then copy_runs pfns' run_start (run_end + 1) copied
          else
            let! n := copy_page_run start run_end in
            copy_runs pfns' (Some pfn) (pfn + 1) (copied + n)
      | None => copy_runs pfns' (Some pfn) (pfn + 1) copied
      end
  end.

Definition sorted_pfns (dirty : DirtyBitmap.t) : list Z :=
  merge_sort Z.le (filter (fun pfn => 0 ≤ pfn < ram / PAGE_SIZE) (elements (DirtyBitmap.dirty_pfns dirty))).

Definition copy_dirty_pages (dirty : DirtyBitmap.t) : op Live Z := copy_runs (sorted_pfns dirty) None 0 0.

(** [source] is read twice, once to see whether a page is zero and once when
    its run is written; guest memory may change in between. *)
Section write_nonzero.
Context (source : Z → Z → op Live (list Z)) (len at_ : Z).

Definition write_source (first end_ : Z) : op Live unit :=
  let! bs := source first (end_ - first) in write_all_at bs (at_ + first).

Fixpoint write_runs (starts : list Z) (run : option Z) (written : Z) : op Live Z :=
  match starts with
  | [] =>
      match run with
      | Some first => do! write_source first len in done (written + (len - first))
      | None => done written
      end
  | start :: starts' =>
      let end_ := Z.min (start + PAGE_SIZE) len in
      let! bytes := source start (end_ - start) in
      if forallb (fun b => b =? 0) bytes then
        match run with
        | Some first =>
            do! write_source first start in
            write_runs starts' None (written + (start - first))
        | None => write_runs starts' None written
        end
      else write_runs starts' (Some (default start run)) written
  end.

Definition write_nonzero_pages : op Live Z := write_runs (step_by 0 len PAGE_SIZE) None 0.
End write_nonzero.

(** *** Lazily restored memory *)

Context `{!Sha256} (pread : Z → Z → option (list Z)) (ficlonerange : list Z → Z → Z → Z → option (list Z)).

Definition lazy_part (k : LazyPart → op Live (list Z)) : op Live (list Z) :=
  let! g := the_guest in
  match g_lazy g with Some l => k l | None => raise Panics end.

(** [GuestMemory::populated_pages]; the mapping is page-aligned. *)
Definition populated_pages : op Live (list bool) :=
  do! interfere in
  let! a := answer in
  let! g := the_guest in
  match a, g_lazy g with
  | None, Some l => done (populated_entry <$> lp_pagemap l)
  | _, _ => raise (Fails Snapshot)
  end.

Definition read_untouched_op (off len : Z) : op Live (list Z) :=
  do! interfere in
  lazy_part (fun l =>
    match read_untouched pread (lp_hook l) off len with
    | Ok bytes => done bytes
    | Err _ => raise (Fails Snapshot)
    end).

Definition clone_untouched_op (off len dest_off : Z) : op Live CloneOutcome :=
  do! interfere in
  let! g := the_guest in
  match g_lazy g with
  | None => raise Panics
  | Some l => fun s =>
      let '(r, f) := clone_untouched pread ficlonerange (lp_hook l) off len (l_file s) dest_off in
      (match r with Ok o => Ok o | Err _ => Err (Fails Snapshot) end, on_file (fun _ => f) s)
  end.

Definition pages_of (populated : list bool) (start end_ : Z) : list bool :=
  take (Z.to_nat (end_ / PAGE_SIZE - start / PAGE_SIZE)) (drop (Z.to_nat (start / PAGE_SIZE)) populated).

Definition untouched (populated : list bool) (chunk at_ : Z) : bool :=
  forallb negb (pages_of populated at_ (Z.min (at_ + chunk) ram)).

(** Where the run of untouched chunks from [start] ends. *)
Fixpoint untouched_run (populated : list bool) (chunk start : Z) (starts : list Z) (run_end : Z) : Z :=
  match starts with
  | [] => run_end
  | at_ :: starts' =>
      if (at_ - start <? CLONE_RUN_BYTES) && untouched populated chunk at_
      then untouched_run populated chunk start starts' (Z.min (at_ + chunk) ram)
      else run_end
  end.

(** The populated pages among [touched], read from guest memory over the
    bytes the snapshot has for them. *)
Fixpoint overlay_touched (start : Z) (touched : list bool) (index : nat) (bytes : list Z) : op Live (list Z) :=
  match touched with
  | [] => done bytes
  | t :: touched' =>
      if (t : bool) then
        let at_ := Z.of_nat index * PAGE_SIZE in
        let! page := load (start + at_) PAGE_SIZE in
        overlay_touched start touched' (S index) (copy_from_slice bytes (Z.to_nat at_) page)
      else overlay_touched start touched' (S index) bytes
  end.

Definition write_chunk (populated : list bool) (start end_ : Z) : op Live Z :=
  let pages := pages_of populated start end_ in
  if forallb id pages
  then write_nonzero_pages (fun o n => load (start + o) n) (end_ - start) start
  else
    let! bytes := read_untouched_op start (end_ - start) in
    let! bytes := overlay_touched start pages 0 bytes in
    write_nonzero_pages (fun o n => done (slice (Z.to_nat o) (Z.to_nat n) bytes)) (end_ - start) start.

Definition clone_run_end (populated : list bool) (chunk start : Z) (cloning : bool) : Z :=
  if cloning then untouched_run populated chunk start (step_by start ram chunk) start else start.

(** The attempt to share a run, if there is one. *)
Definition try_clone (start run_end cloning_time : Z) : op Live (option CloneOutcome * Z) :=
  if start <? run_end then
    let! clone_started := now in
    let! outcome := clone_untouched_op start (run_end - start) start in
    let! t := elapsed clone_started in
    done (Some outcome, cloning_time + t)
  else done (None, cloning_time).

Fixpoint lazy_chunks (fuel : nat) (populated : list bool) (chunk start : Z) (cloning : bool) (written cloning_time : Z)
    : op Live (Z * Z) :=
  if ram <=? start then done (written, cloning_time)
  else match fuel with
  | O => raise Stuck
  | S fuel' =>
      let run_end := clone_run_end populated chunk start cloning in
      let! tried := try_clone start run_end cloning_time in
      match tried with
      | (Some Cloned, cloning_time) => lazy_chunks fuel' populated chunk run_end cloning written cloning_time
      | (outcome, cloning_time) =>
          let cloning := match outcome with Some Unsupported => false | _ => cloning end in
          let end_ := Z.min (start + chunk) ram in
          let! w := write_chunk populated start end_ in
          lazy_chunks fuel' populated chunk end_ cloning (written + w) cloning_time
      end
  end.

Definition write_lazy_restored_pages (chunk : Z) : op Live (Z * Z) :=
  let! populated := populated_pages in
  lazy_chunks (Z.to_nat (div_ceil ram chunk)) populated chunk 0 true 0 0.

(** *** The dirty sets *)

Context (host_ptr : Z → Z).

(** [KvmVm::enable_dirty_logging] and [read_dirty] ([kvm.rs]). *)
Definition enable_dirty_logging : op Live unit :=
  do! interfere in
  fun s =>
    let '(r, v) := register_with_dirty_logging host_ptr ram (g_kvm (l_guest s)) in
    (match r with Ok _ => Ok tt | Err _ => Err (Fails Memory) end, on_guest (fun g => with_kvm g v) s).

Definition read_dirty : op Live DirtyBitmap.t :=
  do! interfere in
  fun s =>
    let '(r, v) := read_dirty_log ram (numbered_slots ram) (g_kvm (l_guest s)) in
    (match r with Ok b => Ok b | Err _ => Err (Fails Memory) end, on_guest (fun g => with_kvm g v) s).

Definition drain_host_dirty : op Live DirtyBitmap.t :=
  do! interfere in
  fun s =>
    let '(b, h) := SoftwareDirtyBitmap.drain (g_host (l_guest s)) in
    (Ok b, on_guest (fun g => with_host g h) s).

Definition consume (b : DirtyBitmap.t) : op Live unit :=
  fun s => (Ok tt, mkLive (l_guest s) (l_file s) (DirtyBitmap.merge (l_consumed s) b) (l_sched s) (l_waits s)
    (l_answers s) (l_quiesce s) (l_clock s)).

(** [DirtyReplayGuard::new]. *)
Definition guard_new : op Live unit :=
  fun s => (Ok tt, mkLive (l_guest s) (l_file s) DirtyBitmap.new (l_sched s) (l_waits s) (l_answers s) (l_quiesce s) (l_clock s)).

(** [DirtyReplayGuard::drop]. *)
Definition replay : op Live unit :=
  fun s => (Ok tt, on_guest (fun g => with_host g
    (foldl (fun h pfn => SoftwareDirtyBitmap.mark_range h (Z.min (pfn * PAGE_SIZE) U64_MAX) PAGE_SIZE) (g_host g)
      (elements (DirtyBitmap.dirty_pfns (l_consumed s))))) s).

(** What runs under the write side of the snapshot fence. *)
Definition fenced {A : Type} (c : op Live A) : op Live A :=
  do! interfere in
  do! update (fun g => with_fence g (match g_lazy g with Some _ => true | None => false end)) in
  let! r := attempt c in
  do! update (fun g => with_fence g false) in
  lift r.

(** ** The snapshot *)

Record LiveSnapshotConfig := mkConfig {
  cfg_target_downtime_us : Z;
  cfg_max_rounds : Z;
  cfg_timeout_secs : Z;
}.

Inductive LiveSnapshotTermination : Type := Converged | DivergingStop | Timeout | MaxRounds.

(** What the loop over the rounds changes. *)
Record Precopy := mkPrecopy {
  pc_rounds : Z;
  pc_decision : RoundDecision;
  pc_termination : LiveSnapshotTermination;
  pc_pending_final : DirtyBitmap.t;
  pc_copied : Z;
  pc_bandwidth : Z;
}.

(** The first pause: logging on, both dirty sets drained. *)
Definition baseline : op Live unit :=
  do! pause_all in
  let! r := attempt (do! enable_dirty_logging in read_dirty) in
  match r with
  | Err e => do! resume_all in raise e
  | Ok dirty =>
      do! consume dirty in
      let! host := drain_host_dirty in
      do! consume host in
      resume_all
  end.

Definition bulk : op Live (Z * Z) :=
  let! g := the_guest in
  match g_lazy g with
  | Some l => write_lazy_restored_pages (untouched_chunk (lp_hook l))
  | None => let! written := write_nonzero_pages load ram 0 in done (written, 0)
  end.

Section rounds.
Context (config : LiveSnapshotConfig) (start : Z).
Definition timeout : Z := from_secs (cfg_timeout_secs config).
Definition last_round : Z := Z.max (cfg_max_rounds config) 2.

(** Copies the pages of a round and decides what comes next. *)
Definition copy_round (round : Z) (dirty : DirtyBitmap.t) (dirty_bytes since_last_read : Z) (st : Precopy)
    : op Live (Precopy * bool) :=
  let! copy_start := now in
  let! copied := fenced (copy_dirty_pages dirty) in
  do! (if 0 <? copied then sync_data else done tt) in
  let! copy_elapsed := elapsed copy_start in
  let bandwidth := default (pc_bandwidth st) (bandwidth_sample (copied * PAGE_SIZE) copy_elapsed) in
  let params := mkParams ram (dirty_rate_sample dirty_bytes since_last_read) (Z.max bandwidth 1)
    (cfg_target_downtime_us config) (cfg_max_rounds config) in
  let decision := decide_round params round dirty_bytes in
  let after (t : LiveSnapshotTermination) := mkPrecopy round decision t (pc_pending_final st) (pc_copied st + copied) bandwidth in
  done (match decision with
    | Continue _ _ => if round <? last_round then (after (pc_termination st), true) else (after MaxRounds, false)
    | FinalStop _ _ => (after Converged, false)
    | Diverging _ => (after DivergingStop, false)
    end).

Fixpoint precopy_rounds (rounds : list Z) (last_read : Z) (st : Precopy) : op Live Precopy :=
  match rounds with
  | [] => done st
  | round :: rounds' =>
      let! t := elapsed start in
      if timeout <? t then done (mkPrecopy round (pc_decision st) Timeout (pc_pending_final st) (pc_copied st) (pc_bandwidth st))
      else
        do! interfere in
        let! dirty := read_dirty in
        let! host := drain_host_dirty in
        let dirty := DirtyBitmap.merge dirty host in
        let! since_last_read := elapsed last_read in
        let! last_read := now in
        do! consume dirty in
        let dirty_bytes := Z.of_nat (DirtyBitmap.len dirty) * PAGE_SIZE in
        match from_secs_f64 (f64_div (f64_of_u64 dirty_bytes) (f64_of_u64 (Z.max (pc_bandwidth st) 1))) with
        | None => raise Panics
        | Some projected_copy =>
            let! t := elapsed start in
            if timeout <=? duration_saturating_add t projected_copy
            then done (mkPrecopy round (FinalStop round dirty_bytes) Timeout (DirtyBitmap.merge (pc_pending_final st) dirty)
              (pc_copied st) (pc_bandwidth st))
            else
              let! next := copy_round round dirty dirty_bytes since_last_read st in
              let '(st, continue) := next in
              if continue then precopy_rounds rounds' last_read st else done st
        end
  end.
End rounds.

Context {Blob : Type} (capture_state : Guest → result Blob VmmError).

(** The closure run in the final stop. *)
Definition capture (pending_final : DirtyBitmap.t) : op Live (Blob * Z * Z) :=
  let! dirty := read_dirty in
  let! host := drain_host_dirty in
  let dirty := DirtyBitmap.merge (DirtyBitmap.merge dirty host) pending_final in
  do! consume dirty in
  let! copied := fenced (copy_dirty_pages dirty) in
  do! interfere in
  let! g := the_guest in
  match capture_state g with
  | Ok blob => done (blob, Z.of_nat (DirtyBitmap.len dirty), copied)
  | Err e => raise (Fails e)
  end.

Definition final_stop (pending_final : DirtyBitmap.t) : op Live (Blob * Z * Z) :=
  do! pause_all in
  let! io := attempt (quiesce_io true) in
  match io with
  | Err error =>
      if (match error with Fails e => vcpus_may_resume_after_io_error e | _ => true end) then
        let! r := attempt resume_all in
        match r with Ok _ => raise error | Err _ => raise (Fails Snapshot) end
      else raise error
  | Ok _ =>
      let! r := attempt (capture pending_final) in
      finish_final_stop r
  end.

Record LiveSnapshotResult := mkResult {
  res_rounds : Z;
  res_pages_copied : Z;
  res_final_dirty_pages : Z;
  res_elapsed : Z;
  res_downtime : Z;
  res_final_decision : RoundDecision;
  res_termination : LiveSnapshotTermination;
  res_mem_bytes : Z;
}.

Record LiveSnapshotOutput := mkOutput {
  out_result : LiveSnapshotResult;
  out_state_blob : Blob;
  out_consumed_dirty : DirtyBitmap.t;
  out_working_set : list Z;
}.

Definition snapshot_body (config : LiveSnapshotConfig) : op Live LiveSnapshotOutput :=
  let! start := now in
  if ram =? 0 then raise (Fails Memory)
  else
    do! set_len ram in
    do! baseline in
    let! last_read := now in
    let! bulk_start := now in
    let! bulk_out := fenced bulk in
    let '(bulk_written, cloning_time) := bulk_out in
    do! sync_data in
    let! bulk_elapsed := elapsed bulk_start in
    let bandwidth := default DEFAULT_COPY_BANDWIDTH_BPS
      (bandwidth_sample bulk_written (duration_saturating_sub bulk_elapsed cloning_time)) in
    let! st := precopy_rounds config start (seqZ 2 (last_round config - 1)) last_read
      (mkPrecopy 1 (Continue 1 ram) MaxRounds DirtyBitmap.new (bulk_written / PAGE_SIZE) bandwidth) in
    let! final_stop_start := now in
    let! stopped := final_stop (pc_pending_final st) in
    let '(blob, final_dirty_pages, copied) := stopped in
    let! downtime := elapsed final_stop_start in
    do! sync_data in
    let! total := elapsed start in
    let! g := the_guest in
    fun s => (Ok (mkOutput
      (mkResult (pc_rounds st) (pc_copied st + copied) final_dirty_pages total downtime (pc_decision st) (pc_termination st) ram)
      blob (l_consumed s) (match g_lazy g with Some l => working_set (lp_hook l) | None => [] end)), s).

(** The guard is disarmed on success and replays on every other way out; a
    return before it is made replays nothing, as an empty one does. *)
Definition live_snapshot (config : LiveSnapshotConfig) : op Live LiveSnapshotOutput :=
  do! guard_new in
  let! r := attempt (snapshot_body config) in
  match r with
  | Ok output => done output
  | Err e => do! replay in raise e
  end.

End live.
