(* ===== verification/LiveGuest.v ===== *)
(** * What runs beside a live snapshot

    [dirty] says of a page that its change is recorded somewhere. [beside] is
    what other threads can do while the executor works: guest memory changes
    only in pages that are then dirty, a page stays dirty until a dirty set is
    read, a parked processor stays parked and keeps what it has captured, and
    a guest that is stopped does not change. Every [action] keeps it
    ([acts_beside]). *)

From S2P Require Import Prelude Dirty GuestMem FileRanges GuestRam KvmLog Lazy LazyProof Migration LiveSnap.

(** ** Pages of ranges *)

Lemma elem_of_pages_in off len p :
  0 ≤ off → 0 ≤ len → p ∈ pages_in off len ↔ ∃ a, off ≤ a < off + len ∧ a / PAGE_SIZE = p.
Proof.
  intros Ho Hl. unfold pages_in. destruct (len =? 0) eqn:E; bool_to_prop.
  - split; [by intros []%not_elem_of_nil|]. intros (a & ? & _). lia.
  - rewrite <- pages_of_range by lia. rewrite elem_of_seqZ. lia.
Qed.

Lemma set_entries_lookup qs e : ∀ pm (k : nat),
  (∀ q, q ∈ qs → 0 ≤ q) →
  length (set_entries pm qs e) = length pm ∧
  set_entries pm qs e !! k = if decide (Z.of_nat k ∈ qs ∧ (k < length pm)%nat) then Some e else pm !! k.
Proof.
  induction qs as [|q qs IH]; intros pm k Hq; cbn [set_entries foldl].
  { split; [done|]. rewrite decide_False; [done|]. intros [[]%not_elem_of_nil _]. }
  assert (0 ≤ q) by (apply Hq; set_solver).
  destruct (IH (<[Z.to_nat q:=e]> pm) k) as [Hl Hk]; [set_solver|]. unfold set_entries in *.
  rewrite length_insert in *. split; [done|]. rewrite Hk. destruct (decide (Z.of_nat k ∈ qs ∧ _)) as [[? ?]|Hn].
  { rewrite decide_True; [done|]. split; [by apply list_elem_of_further|done]. }
  destruct (decide (Z.of_nat k ∈ q :: qs ∧ _)) as [[Hin Hlt]|Hn'].
  - apply elem_of_cons in Hin as [Heq|Hin]; [|naive_solver]. replace (Z.to_nat q) with k by lia. by apply list_lookup_insert_eq.
  - destruct (decide (Z.to_nat q = k)) as [<-|Hne]; [|by rewrite list_lookup_insert_ne].
    destruct (decide (Z.to_nat q < length pm)%nat) as [Hlt|Hge].
    + destruct Hn'. split; [|done]. rewrite Z2Nat.id by done. apply list_elem_of_here.
    + by rewrite list_insert_ge by lia.
Qed.

Section guests.
Context {V R D : Type} `{!KvmVm V} `{!KvmLaws V} `{!Sha256} (ram : Z) (snap : list Z).
Hypothesis (Hram : ram_size ram).
Notation Guest := (Guest V R D).
Implicit Types (g : Guest).

(** ** What is recorded *)

Definition entry_covers (e : option nat * Z * Z) (p : Z) : Prop := ∃ a, e.1.2 ≤ a < e.1.2 + e.2 ∧ a / PAGE_SIZE = p.

(** A page whose change is recorded: in KVM's log, in the host's bitmap, or
    by a thread that is about to mark it. *)
Definition dirty g (p : Z) : Prop :=
  logged ram (g_kvm g) p ∨ p ∈ DirtyBitmap.dirty (g_host g) ∨ ∃ e, e ∈ g_pending g ∧ entry_covers e p.

Definition logging g : Prop := ∀ p, 0 ≤ p < ram / PAGE_SIZE → kvm_logging (g_kvm g) (page_slot ram p).1 = true.

(** ** Well-formed guests *)

(** A page that is not populated holds what a fault installs. *)
Definition lazy_ok (m : list Z) (l : LazyPart) : Prop :=
  well_formed (lp_hook l) ∧ genuine (lp_hook l) snap ∧ guest_len (lp_hook l) = ram ∧
  Z.of_nat (length (lp_pagemap l)) = ram / PAGE_SIZE ∧
  ∀ q : nat, (∃ e, lp_pagemap l !! q = Some e ∧ populated_entry e = false) →
    slice (q * page_n) page_n m = fresh (lp_hook l) snap (Z.of_nat q).

(** What a processor that is asked to pause has captured is its state. *)
Definition vcpu_ok g (i : nat) (v : Vcpu R) : Prop :=
  v_control v = true → ∀ r, v_captured v = Some r → r = v_regs v ∧ v_paused v = true ∧ no_pending_of g i = true.

Record sane g : Prop := {
  sane_mem : Z.of_nat (length (g_mem g)) = ram;
  sane_range e : e ∈ g_pending g → 0 ≤ e.1.2 ∧ 0 ≤ e.2 ∧ e.1.2 + e.2 ≤ ram;
  sane_owner e i : e ∈ g_pending g → e.1.1 = Some i → (i < length (g_vcpus g))%nat;
  sane_vcpu i v : g_vcpus g !! i = Some v → vcpu_ok g i v;
  sane_lazy l : g_lazy g = Some l → lazy_ok (g_mem g) l;
}.

Definition parked g (i : nat) : Prop :=
  ∃ v, g_vcpus g !! i = Some v ∧ v_control v = true ∧ v_paused v = true ∧ v_captured v = Some (v_regs v) ∧ no_pending_of g i = true.

Definition stopped g : Prop :=
  (∀ i, (i < length (g_vcpus g))%nat → parked g i) ∧ g_io g = IoParked ∧ g_pending g = [].

(** The hook stays the same, but for discards, which are recorded. *)
Definition same_part (d : Z → Prop) (o o' : option LazyPart) : Prop :=
  match o, o' with
  | None, None => True
  | Some l, Some l' => source (lp_hook l') = source (lp_hook l) ∧
      ∀ q, 0 ≤ q → is_discarded (discarded_pages (lp_hook l')) q = is_discarded (discarded_pages (lp_hook l)) q ∨ d q
  | _, _ => False
  end.

Definition same_lazy g g' : Prop := same_part (dirty g') (g_lazy g) (g_lazy g').

Lemma same_part_refl d o : same_part d o o.
Proof. destruct o; [|done]. split; [done|]. by left. Qed.

Lemma same_part_mono (d d' : Z → Prop) o o' : (∀ q, d q → d' q) → same_part d o o' → same_part d' o o'.
Proof. intros Hd. destruct o, o'; try done. intros [? Hq]. split; [done|]. intros q Hq0. destruct (Hq q Hq0); auto. Qed.

(** What the executor can rely on across the steps of other threads, and its
    own: *)
Record tracks g g' : Prop := {
  t_sane : sane g';
  t_vcpus : length (g_vcpus g') = length (g_vcpus g);
  t_lazy : same_lazy g g';
  t_logging s : kvm_logging (g_kvm g') s = kvm_logging (g_kvm g) s;
  t_dirty p : dirty g p → dirty g' p;
  t_mem : logging g → ∀ o, 0 ≤ o → g_mem g' !! Z.to_nat o = g_mem g !! Z.to_nat o ∨ dirty g' (o / PAGE_SIZE);
}.

(** ... and across those of other threads alone. *)
Record beside g g' : Prop := {
  b_tracks : tracks g g';
  b_control : (v_control <$> g_vcpus g') = (v_control <$> g_vcpus g);
  b_io : g_io g' = g_io g;
  b_parked i : parked g i → parked g' i;
  b_stopped : stopped g → stopped g' ∧ g_mem g' = g_mem g;
  b_host p : p ∈ DirtyBitmap.dirty (g_host g) → p ∈ DirtyBitmap.dirty (g_host g');
}.

Lemma tracks_refl g : sane g → tracks g g.
Proof. intros Hs. split; auto. apply same_part_refl. Qed.

Lemma tracks_trans g1 g2 g3 : tracks g1 g2 → tracks g2 g3 → tracks g1 g3.
Proof.
  intros [? ? H1 Hl1 Hd1 Hm1] [? ? H2 Hl2 Hd2 Hm2]. split; try done; [congruence| | | |].
  - unfold same_lazy in *. apply (same_part_mono _ (dirty g3)) in H1; [|done].
    destruct (g_lazy g1), (g_lazy g2), (g_lazy g3); try done. destruct H1 as [? Hq1], H2 as [? Hq2]. split; [congruence|].
    intros q Hq0. destruct (Hq2 q Hq0) as [->|]; auto.
  - intros s. by rewrite Hl2.
  - auto.
  - intros Hlog o Ho. destruct (Hm2 ltac:(intros p Hp; rewrite Hl1; auto) o Ho) as [->|]; [|by right].
    destruct (Hm1 Hlog o Ho) as [|]; [by left|right; auto].
Qed.

Lemma beside_refl g : sane g → beside g g.
Proof. intros. split; auto using tracks_refl. Qed.

Lemma beside_trans g1 g2 g3 : beside g1 g2 → beside g2 g3 → beside g1 g3.
Proof.
  intros [? Hc1 Hi1 Hp1 Hs1 Hh1] [? Hc2 Hi2 Hp2 Hs2 Hh2]. split; [by eapply tracks_trans|congruence|congruence|auto| |auto].
  intros Hs. destruct (Hs1 Hs) as [? ?]. destruct Hs2; [done|]. split; congruence.
Qed.

(** ** Steps of other threads *)

Lemma running_not_parked g i : vcpu_running g i = true → ¬ parked g i.
Proof.
  intros Hr (v & Hv & _ & Hp & _). unfold vcpu_running in Hr. rewrite Hv, Hp in Hr. done.
Qed.

Lemma running_exists g i : vcpu_running g i = true → ∃ v, g_vcpus g !! i = Some v ∧ v_paused v = false.
Proof. unfold vcpu_running. destruct (g_vcpus g !! i) as [v|]; [|done]. destruct (v_paused v) eqn:E; [done|]. eauto. Qed.

Lemma may_work_not_stopped g who : may_work g who = true → ¬ stopped g.
Proof.
  intros Hw (Hp & Hio & _). destruct who as [i|]; simpl in Hw.
  - pose proof Hw as Hr. apply running_exists in Hw as (v & Hv & _). apply (running_not_parked g i Hr), Hp.
    by eapply lookup_lt_Some.
  - rewrite Hio in Hw. by rewrite bool_decide_eq_false_2 in Hw by naive_solver.
Qed.

(** A change of one processor's flags and registers. *)
Lemma with_vcpu_beside g i f :
  sane g →
  (∀ v, g_vcpus g !! i = Some v →
    v_control (f v) = v_control v ∧ vcpu_ok g i (f v) ∧
    (v_control v = true → v_paused v = true → v_captured v = Some (v_regs v) →
      v_paused (f v) = true ∧ v_captured (f v) = Some (v_regs (f v)))) →
  beside g (with_vcpu g i f).
Proof.
  intros [Hm Hr Ho Hv Hl] Hf.
  assert (∀ j, g_vcpus (with_vcpu g i f) !! j = if decide (i = j) then f <$> g_vcpus g !! j else g_vcpus g !! j) as Hlook.
  { intros j. simpl. case_decide; [subst; apply list_lookup_alter_eq|by apply list_lookup_alter_ne]. }
  assert (length (g_vcpus (with_vcpu g i f)) = length (g_vcpus g)) as Hlen by apply length_alter.
  assert (sane (with_vcpu g i f)) as Hs.
  { split; try done.
    - intros e j He Hj. rewrite Hlen. by eapply Ho.
    - intros j v. rewrite Hlook. case_decide as Hd; [|apply Hv]. subst j. intros (v0 & Hv0 & ->)%fmap_Some.
      by apply Hf. }
  assert (∀ j, parked g j → parked (with_vcpu g i f) j) as Hpark.
  { intros j (v & Hj & Hc & Hp & Hcap & Hno). unfold parked. setoid_rewrite Hlook. case_decide as Hd; [subst j|by eauto 10].
    destruct (Hf v Hj) as (Hc' & _ & Hpk). destruct (Hpk Hc Hp Hcap). exists (f v). rewrite Hj, Hc'. done. }
  split; try done.
  - split; [done|done|apply same_part_refl|done|done|by left].
  - apply list_eq. intros j. rewrite !list_lookup_fmap, Hlook. case_decide as Hd; [subst j|done].
    destruct (g_vcpus g !! i) as [v|] eqn:Ei; [|done]. simpl. by rewrite (proj1 (Hf v eq_refl)).
  - intros (Hall & Hio & Hpend). split; [|done]. split; [|done]. intros j Hj. apply Hpark, Hall. by rewrite <- Hlen.
Qed.

(** A change of what is recorded. *)
Lemma marked_beside g h p :
  sane g → (∀ e, e ∈ p → e ∈ g_pending g) →
  (∀ q, q ∈ DirtyBitmap.dirty (g_host g) → q ∈ DirtyBitmap.dirty h) →
  (∀ e q, e ∈ g_pending g → entry_covers e q → q ∈ DirtyBitmap.dirty h ∨ e ∈ p) →
  beside g (with_marks (with_host g h) p).
Proof.
  intros [Hm Hr Ho Hv Hl] Hsub Hh Hmoved.
  assert (∀ j, no_pending_of g j = true → no_pending_of (with_marks (with_host g h) p) j = true) as Hno.
  { unfold no_pending_of. intros j. rewrite !forallb_forall. intros Hj e He. apply Hj, list_elem_of_In, Hsub, list_elem_of_In, He. }
  assert (∀ q, dirty g q → dirty (with_marks (with_host g h) p) q) as Hd.
  { intros q [?|[?|(e & He & Hc)]]; [by left|right; left; by apply Hh|]. destruct (Hmoved e q He Hc); [right; by left|].
    right. right. eauto. }
  split; try done.
  - split; [|done|apply same_part_refl|done|done|by left].
    split; [done|by auto|by eauto| |done]. intros i v Hi Hc r Hcap.
    destruct (Hv i v Hi Hc r Hcap) as (? & ? & ?). auto.
  - intros j (v & ? & ? & ? & ? & ?). exists v. split_and!; auto.
  - intros (Hall & Hio & Hp). split; [|done]. split_and!; [|done|].
    + intros j Hj. destruct (Hall j Hj) as (v & ? & ? & ? & ? & ?). exists v. split_and!; auto.
    + simpl. destruct p as [|e p]; [done|]. specialize (Hsub e ltac:(set_solver)). rewrite Hp in Hsub. set_solver.
Qed.

Lemma host_mark_mono h off len q :
  q ∈ DirtyBitmap.dirty h → q ∈ DirtyBitmap.dirty (SoftwareDirtyBitmap.mark_range h off len).
Proof.
  intros Hq. unfold SoftwareDirtyBitmap.mark_range. destruct (len =? 0); [done|].
  pose proof (page_dirty_mark_range_mono h off len (q * PAGE_SIZE)) as Hm. unfold page_dirty in Hm.
  rewrite Z.div_mul in Hm by done. auto.
Qed.

Lemma host_mark_covers h off len q :
  0 ≤ off → 0 ≤ len → off + len ≤ ram → (∃ a, off ≤ a < off + len ∧ a / PAGE_SIZE = q) →
  q ∈ DirtyBitmap.dirty (SoftwareDirtyBitmap.mark_range h off len).
Proof.
  intros Ho Hl Hr Hq. destruct Hram as [? _]. unfold SoftwareDirtyBitmap.mark_range. destruct (len =? 0) eqn:E; bool_to_prop.
  - destruct Hq as (a & ? & _). lia.
  - apply page_dirty_mark_range; [done|done|lia|by right].
Qed.

(** A change of guest memory, recorded in the log [v] or in the ranges
    [extra] that are to be marked. *)
Lemma memory_beside g m v extra d l :
  sane g → ¬ stopped g → length m = length (g_mem g) →
  (∀ e, e ∈ extra → (0 ≤ e.1.2 ∧ 0 ≤ e.2 ∧ e.1.2 + e.2 ≤ ram) ∧ ∀ i, e.1.1 = Some i → vcpu_running g i = true) →
  (∀ s, kvm_logging v s = kvm_logging (g_kvm g) s) → (∀ p, logged ram (g_kvm g) p → logged ram v p) →
  (∀ lp, l = Some lp → lazy_ok m lp) →
  same_part (fun q => ∃ e, e ∈ extra ∧ entry_covers e q) (g_lazy g) l →
  (logging g → ∀ o, 0 ≤ o → m !! Z.to_nat o = g_mem g !! Z.to_nat o ∨ logged ram v (o / PAGE_SIZE) ∨
    ∃ e, e ∈ extra ∧ entry_covers e (o / PAGE_SIZE)) →
  beside g (mkGuest m v (g_host g) (g_pending g ++ extra) (g_vcpus g) (g_io g) d l (g_fence g)).
Proof.
  intros [Hm Hr Ho Hv Hl] Hns Hlen Hex Hlog Hkvm Hlazy Hsame Hmem. set (g' := mkGuest _ _ _ _ _ _ _ _ _).
  assert (∀ i w, g_vcpus g !! i = Some w → v_paused w = true → no_pending_of g i = true → no_pending_of g' i = true) as Hno.
  { intros i w Hi Hp Hno. unfold no_pending_of in *. simpl. rewrite forallb_app, Hno. simpl. apply forallb_forall.
    intros e He. apply list_elem_of_In, Hex in He as [_ He]. rewrite bool_decide_eq_false_2; [done|]. intros Hown.
    apply He, running_exists in Hown as (w' & Hw' & Hp'). congruence. }
  assert (∀ q, dirty g q → dirty g' q) as Hd.
  { intros q [?|[?|(e & He & Hc)]]; [left; by apply Hkvm|right; by left|right; right]. exists e. split; [|done]. simpl. set_solver. }
  assert (∀ i, parked g i → parked g' i) as Hpark.
  { intros i (w & ? & ? & ? & ? & ?). exists w. split_and!; eauto. }
  assert (∀ q, (∃ e, e ∈ extra ∧ entry_covers e q) → dirty g' q) as Hextra.
  { intros q (e & ? & ?). right. right. exists e. split; [simpl; set_solver|done]. }
  split; [|done|done|done|done|done]. split; [split|done|exact (same_part_mono _ _ _ _ Hextra Hsame)|done|done|].
  - simpl. congruence.
  - simpl. intros e [?|He]%elem_of_app; [auto|by apply Hex].
  - simpl. intros e i [?|He]%elem_of_app Hi; [eauto|]. apply Hex in He as [_ He].
    apply He, running_exists in Hi as (w & Hw & _). by eapply lookup_lt_Some.
  - intros i w Hi Hc r Hcap. destruct (Hv i w Hi Hc r Hcap) as (? & ? & ?). split_and!; eauto.
  - done.
  - intros Hlg o Hoo. destruct (Hmem Hlg o Hoo) as [|[?|?]]; [by left|right; by left|right; auto].
Qed.

(** ** Lazily restored memory *)

Lemma page_slice_same (m m' : list Z) (q : nat) :
  (∀ o : nat, (o / page_n = q)%nat → m' !! o = m !! o) → slice (q * page_n) page_n m' = slice (q * page_n) page_n m.
Proof.
  intros Hsame. assert (0 < page_n)%nat by (unfold page_n, PAGE_SIZE; lia).
  apply list_eq. intros i. rewrite !lookup_slice. case_decide; [|done]. apply Hsame.
  symmetry. apply (Nat.div_unique _ _ _ i); lia.
Qed.

Lemma page_of_nat (o : nat) : Z.of_nat (o / page_n) = Z.of_nat o / PAGE_SIZE.
Proof. rewrite Nat2Z.inj_div. unfold page_n. by rewrite Z2Nat.id by done. Qed.

(** The pages in [qs] are populated, the others have not changed. *)
Lemma lazy_ok_populate m m' l qs e :
  lazy_ok m l → populated_entry e = true → (∀ q, q ∈ qs → 0 ≤ q) →
  (∀ o : nat, Z.of_nat o / PAGE_SIZE ∉ qs → m' !! o = m !! o) →
  lazy_ok m' (mkLazyPart (lp_hook l) (set_entries (lp_pagemap l) qs e)).
Proof.
  intros (Hwf & Hgen & Hlen & Hpm & Hfresh) He Hqs Hsame. split_and!; try done; simpl.
  { destruct (set_entries_lookup qs e (lp_pagemap l) 0 Hqs) as [-> _]. done. }
  intros q (e' & Hq & Hpop). destruct (set_entries_lookup qs e (lp_pagemap l) q Hqs) as [_ Hlk]. rewrite Hlk in Hq.
  case_decide as Hd; [congruence|]. rewrite <- (Hfresh q) by eauto. apply page_slice_same. intros o Ho. apply Hsame.
  rewrite <- page_of_nat, Ho. intros Hin. apply Hd. split; [done|]. by eapply lookup_lt_Some.
Qed.

Lemma lazy_ok_discard m l first n :
  lazy_ok m l → Z.of_nat (length m) = ram → 0 ≤ first → 0 ≤ n → (first + n) * PAGE_SIZE ≤ ram →
  lazy_ok (copy_from_slice m (Z.to_nat (first * PAGE_SIZE)) (replicate (Z.to_nat (n * PAGE_SIZE)) 0))
    (mkLazyPart (set_discarded (lp_hook l) (mark_discarded (discarded_pages (lp_hook l)) first n))
      (set_entries (lp_pagemap l) (seqZ first n) 0)).
Proof.
  intros (Hwf & Hgen & Hlen & Hpm & Hfresh) Hm Hf Hn Hle. assert (∀ q, q ∈ seqZ first n → 0 ≤ q) as Hqs by (intros q ?%elem_of_seqZ; lia).
  assert (∀ q, 0 ≤ q → _) as Hmark by (intros q ?; exact (mark_discarded_ok (discarded_pages (lp_hook l)) first n q Hf ltac:(done))).
  destruct (set_entries_lookup (seqZ first n) 0 (lp_pagemap l) 0 Hqs) as [Hl' _]. set (m' := copy_from_slice _ _ _).
  assert (∀ o : nat, m' !! o = if decide (first * PAGE_SIZE ≤ Z.of_nat o < (first + n) * PAGE_SIZE) then Some 0 else m !! o) as Hm'.
  { intros o. unfold m'. rewrite copy_from_slice_lookup by (rewrite length_replicate; unfold PAGE_SIZE in *; lia). rewrite length_replicate.
    repeat case_decide; try done; unfold PAGE_SIZE in *; try lia. apply lookup_replicate. split; [done|lia]. }
  split_and!; simpl.
  - destruct Hwf as [H1 H2 H3 H4 H5]. split; try done. simpl. by rewrite (proj1 (Hmark 0 ltac:(lia))).
  - destruct Hgen. by split.
  - done.
  - by rewrite Hl'.
  - intros q (e & Hq & Hpop). destruct (set_entries_lookup (seqZ first n) 0 (lp_pagemap l) q Hqs) as [_ Hlk]. rewrite Hlk in Hq.
    assert (q < length (lp_pagemap l))%nat as Hql by (apply lookup_lt_Some in Hq || (case_decide; [naive_solver|by eapply lookup_lt_Some])).
    unfold fresh. simpl. rewrite (proj2 (Hmark (Z.of_nat q) ltac:(lia))).
    assert (Z.of_nat q < Z.of_nat (length (discarded_pages (lp_hook l)))) as Hqd
      by (rewrite (wf_discarded _ Hwf), Hlen, <- Hpm; lia).
    case_decide as Hd.
    + rewrite (bool_decide_eq_true_2 (Z.of_nat q ∈ seqZ first n ∧ _)) by naive_solver. rewrite orb_true_r.
      apply list_eq. intros i. rewrite lookup_slice. destruct Hd as [Hd%elem_of_seqZ _]. unfold zero_page. fold page_n.
      assert (Z.of_nat page_n = PAGE_SIZE) by (unfold page_n, PAGE_SIZE; lia).
      case_decide; [|symmetry; apply lookup_ge_None; rewrite length_replicate; lia].
      rewrite Hm', decide_True by (unfold PAGE_SIZE in *; lia). symmetry. apply lookup_replicate. done.
    + rewrite (bool_decide_eq_false_2 (Z.of_nat q ∈ seqZ first n ∧ _)) by naive_solver. rewrite orb_false_r.
      etransitivity; [|apply (Hfresh q); eauto]. apply page_slice_same. intros o Ho. rewrite Hm', decide_False; [done|].
      intros Hrange. apply Hd. split; [|done]. apply elem_of_seqZ. rewrite <- Ho, page_of_nat. unfold PAGE_SIZE in *. zlia.
Qed.

(** A change of one processor that its thread does not make. *)
Lemma with_vcpu_tracks g i f :
  sane g → (∀ v, g_vcpus g !! i = Some v → vcpu_ok g i (f v)) → tracks g (with_vcpu g i f).
Proof.
  intros [Hm Hr Ho Hv Hl] Hf. assert (length (g_vcpus (with_vcpu g i f)) = length (g_vcpus g)) as Hlen by apply length_alter.
  split; [|done|apply same_part_refl|done|done|by left]. split; [done|done| | |done].
  - intros e j He Hj. rewrite Hlen. by eapply Ho.
  - intros j v Hj. simpl in Hj. destruct (decide (i = j)) as [<-|Hne].
    + rewrite list_lookup_alter_eq in Hj. apply fmap_Some in Hj as (v0 & Hv0 & ->). by apply Hf.
    + rewrite list_lookup_alter_ne in Hj by done. by apply Hv.
Qed.

(** ** Every action *)

Lemma kvm_writes_ok ps : ∀ (v : V),
  (∀ s, kvm_logging (foldl (fun v p => kvm_write v (page_slot ram p).1 (page_slot ram p).2) v ps) s = kvm_logging v s) ∧
  (∀ q, logged ram v q → logged ram (foldl (fun v p => kvm_write v (page_slot ram p).1 (page_slot ram p).2) v ps) q) ∧
  (∀ q, q ∈ ps → 0 ≤ q < ram / PAGE_SIZE → kvm_logging v (page_slot ram q).1 = true →
    logged ram (foldl (fun v p => kvm_write v (page_slot ram p).1 (page_slot ram p).2) v ps) q).
Proof.
  induction ps as [|p ps IH]; intros v; cbn [foldl]; [split_and!; [done|done|by intros q []%not_elem_of_nil]|].
  destruct (IH (kvm_write v (page_slot ram p).1 (page_slot ram p).2)) as (Hlog & Hmono & Hset). split_and!.
  - intros s. by rewrite Hlog, kvm_write_logging.
  - intros q Hq. apply Hmono. by apply kvm_write_logged.
  - intros q [->|Hin]%elem_of_cons Hr Hl.
    + apply Hmono. by apply kvm_write_logs.
    + apply Hset; [done|done|]. by rewrite kvm_write_logging.
Qed.

Lemma in_ram_ok off bs : in_ram ram off bs = true → 0 ≤ off ∧ off + Z.of_nat (length bs) ≤ ram.
Proof. unfold in_ram. intros. by bool_to_prop. Qed.

(** What a store does to memory and to the page map. *)
Lemma store_ok g off bs :
  sane g → in_ram ram off bs = true →
  length (copy_from_slice (g_mem g) (Z.to_nat off) bs) = length (g_mem g) ∧
  (∀ o, 0 ≤ o → copy_from_slice (g_mem g) (Z.to_nat off) bs !! Z.to_nat o = g_mem g !! Z.to_nat o ∨ off ≤ o < off + Z.of_nat (length bs)) ∧
  (∀ l, g_lazy (fault_in g (pages_in off (Z.of_nat (length bs)))) = Some l → lazy_ok (copy_from_slice (g_mem g) (Z.to_nat off) bs) l) ∧
  ∀ d, same_part d (g_lazy g) (g_lazy (fault_in g (pages_in off (Z.of_nat (length bs))))).
Proof.
  intros [Hm Hr Ho Hv Hl] [H0 H1]%in_ram_ok. assert (Z.to_nat off + length bs ≤ length (g_mem g))%nat by lia.
  split_and!; [by apply length_copy_from_slice| | |].
  - intros o Hoo. rewrite copy_from_slice_lookup by done. case_decide; [right; lia|by left].
  - intros l Hsome. unfold fault_in in Hsome. destruct (g_lazy g) as [l0|] eqn:El; [|simpl in Hsome; congruence].
    injection Hsome as <-. apply (lazy_ok_populate (g_mem g)); [auto|done| |].
    + intros q (a & ? & <-)%elem_of_pages_in; [|lia..]. apply Z.div_pos; [lia|done].
    + intros o Hnot. rewrite copy_from_slice_lookup by done. case_decide; [|done]. destruct Hnot.
      apply elem_of_pages_in; [lia..|]. exists (Z.of_nat o). split; [lia|done].
  - intros d. unfold fault_in. destruct (g_lazy g) as [l0|] eqn:E; simpl; [|by rewrite E]. split; [done|]. by left.
Qed.

Lemma with_lazy_beside g l l' :
  sane g → g_lazy g = Some l → lazy_ok (g_mem g) l' → lp_hook l' = lp_hook l →
  beside g (with_lazy g (Some l')).
Proof.
  intros [Hm Hr Ho Hv Hl] Hg Hok Hs. split; try done. split; try done; [| |by left].
  2: { unfold same_lazy, same_part. simpl. rewrite Hg, Hs. split; [done|]. by left. }
  split; try done. simpl. intros l0 [= <-]. done.
Qed.

Lemma store_eq g off bs :
  store g off bs = mkGuest (copy_from_slice (g_mem g) (Z.to_nat off) bs) (g_kvm g) (g_host g) (g_pending g) (g_vcpus g) (g_io g)
    (g_dev g) (g_lazy (fault_in g (pages_in off (Z.of_nat (length bs))))) (g_fence g).
Proof. unfold store, fault_in. by destruct (g_lazy g). Qed.

Lemma page_in_ram o : 0 ≤ o < ram → 0 ≤ o / PAGE_SIZE < ram / PAGE_SIZE.
Proof. destruct Hram as [_ Hm]. intros. split; [apply Z.div_pos; [lia|done]|]. unfold PAGE_SIZE in *. zlia. Qed.

(** A processor that runs has captured nothing for the pause it is asked for. *)
Lemma running_vcpu_ok g i w f :
  sane g → vcpu_running g i = true → g_vcpus g !! i = Some w →
  v_control (f w) = v_control w → v_captured (f w) = v_captured w →
  vcpu_ok g i (f w) ∧ (v_control w = true → v_paused w = true → v_captured w = Some (v_regs w) → False).
Proof.
  intros Hs (w' & Hw2 & Hp)%running_exists Hw Hc Hcap. assert (w' = w) as -> by congruence. split; [|congruence].
  intros Hc' r Hcap'. rewrite Hc in Hc'. rewrite Hcap in Hcap'.
  destruct (sane_vcpu g Hs i w Hw Hc' r Hcap') as (_ & ? & _). congruence.
Qed.

Lemma vcpu_store_beside g i off bs r :
  sane g → vcpu_running g i = true → in_ram ram off bs = true → beside g (act ram (VcpuStore i off bs r) g).
Proof.
  intros Hs Hrun Hin. cbn [act]. rewrite Hrun, Hin. cbn [andb].
  destruct (store_ok g off bs Hs Hin) as (Hlen & Hmem & Hlazy & Hsame). apply in_ram_ok in Hin as [H0 H1].
  rewrite store_eq. cbn [g_kvm with_kvm g_mem g_host g_pending g_vcpus g_io g_dev g_lazy g_fence].
  destruct (kvm_writes_ok (pages_in off (Z.of_nat (length bs))) (g_kvm g)) as (Hlog & Hmono & Hset).
  assert (beside g (mkGuest (copy_from_slice (g_mem g) (Z.to_nat off) bs)
    (foldl (fun v p => kvm_write v (page_slot ram p).1 (page_slot ram p).2) (g_kvm g) (pages_in off (Z.of_nat (length bs))))
    (g_host g) (g_pending g) (g_vcpus g) (g_io g) (g_dev g) (g_lazy (fault_in g (pages_in off (Z.of_nat (length bs))))) (g_fence g))) as Hb.
  { rewrite <- (app_nil_r (g_pending g)). apply memory_beside; try done.
    - by apply (may_work_not_stopped g (Some i)).
    - by intros e []%not_elem_of_nil.
    - intros Hlg o Ho. destruct (Hmem o Ho) as [|Hr]; [by left|right; left].
      assert (0 ≤ o / PAGE_SIZE < ram / PAGE_SIZE) by (apply page_in_ram; lia). apply Hset; [|done|by apply Hlg].
      apply elem_of_pages_in; [lia..|]. by exists o. }
  eapply beside_trans; [exact Hb|]. apply with_vcpu_beside; [apply Hb|]. intros w Hw.
  destruct (running_vcpu_ok g i w (set_regs r) Hs Hrun Hw eq_refl eq_refl) as [Hok Hnot].
  split_and!; [done|exact Hok|]. intros. by destruct Hnot.
Qed.

Lemma device_store_beside g who off bs d :
  sane g → may_work g who = true → in_ram ram off bs = true → beside g (act ram (DeviceStore who off bs d) g).
Proof.
  intros Hs Hw Hin. cbn [act]. rewrite Hw, Hin. cbn [andb].
  destruct (store_ok g off bs Hs Hin) as (Hlen & Hmem & Hlazy & Hsame). apply in_ram_ok in Hin as [H0 H1].
  rewrite store_eq. unfold with_dev, with_marks. cbn [g_kvm g_mem g_host g_pending g_vcpus g_io g_dev g_lazy g_fence].
  apply memory_beside; try done.
  - by apply (may_work_not_stopped g who).
  - intros e ->%list_elem_of_singleton. simpl. split; [lia|]. intros i ->. done.
  - intros Hlg o Ho. destruct (Hmem o Ho) as [|Hr]; [by left|right; right]. eexists. split; [apply list_elem_of_singleton; reflexivity|].
    by exists o.
Qed.

Lemma device_discard_beside g who first n d : sane g → beside g (act ram (DeviceDiscard who first n d) g).
Proof.
  intros Hs. cbn [act]. destruct (g_lazy g) as [l|] eqn:Hl; [|by apply beside_refl]. destruct (_ && _) eqn:E; [|by apply beside_refl].
  bool_to_prop. pose proof (sane_mem g Hs) as Hm. assert (0 ≤ n * PAGE_SIZE) by (unfold PAGE_SIZE; lia).
  unfold with_dev, with_marks, with_lazy, with_mem. cbn [g_kvm g_mem g_host g_pending g_vcpus g_io g_dev g_lazy g_fence].
  apply memory_beside; try done.
  - by apply (may_work_not_stopped g who).
  - apply length_copy_from_slice. rewrite length_replicate. unfold PAGE_SIZE in *. lia.
  - intros e ->%list_elem_of_singleton. simpl. split; [unfold PAGE_SIZE in *; lia|]. intros i ->. done.
  - intros lp [= <-]. apply lazy_ok_discard; try done. by apply (sane_lazy g Hs).
  - rewrite Hl. split; [done|]. intros q Hq. simpl.
    rewrite (proj2 (mark_discarded_ok (discarded_pages (lp_hook l)) first n q ltac:(done) Hq)).
    destruct (bool_decide _) eqn:Hb; [right|left; by rewrite orb_false_r]. apply bool_decide_eq_true in Hb as [Hb%elem_of_seqZ _].
    eexists. split; [apply list_elem_of_singleton; reflexivity|]. exists (q * PAGE_SIZE). simpl.
    split; [unfold PAGE_SIZE; lia|by apply Z.div_mul].
  - intros Hlg o Ho. rewrite copy_from_slice_lookup by (rewrite length_replicate; unfold PAGE_SIZE in *; lia).
    case_decide as Hd; [|by left]. rewrite length_replicate in Hd. right. right. eexists.
    split; [apply list_elem_of_singleton; reflexivity|]. exists o. simpl. unfold PAGE_SIZE in *. split; [lia|done].
Qed.

Lemma device_marks_beside g k : sane g → beside g (act ram (DeviceMarks k) g).
Proof.
  intros Hs. cbn [act]. destruct (g_pending g !! k) as [[[who off] len]|] eqn:Hk; [|by apply beside_refl].
  destruct (sane_range g Hs (who, off, len) ltac:(by eapply list_elem_of_lookup_2)) as (? & ? & ?). simpl in *.
  apply marked_beside; [done| | |].
  - intros e. apply list_elem_of_delete_inv.
  - intros q. apply host_mark_mono.
  - intros e q He Hc. rewrite (delete_Permutation _ _ _ Hk) in He. apply elem_of_cons in He as [->|He]; [left|by right].
    by apply host_mark_covers.
Qed.

Lemma act_beside a g : sane g → beside g (act ram a g).
Proof.
  intros Hs. destruct a as [i off bs r|i r|i cap|i|i|i|who off bs d|k|who first n d|q e|off len].
  - destruct (vcpu_running g i) eqn:Hrun; [|cbn [act]; rewrite Hrun; by apply beside_refl].
    destruct (in_ram ram off bs) eqn:Hin; [by apply vcpu_store_beside|cbn [act]; rewrite Hrun, Hin; by apply beside_refl].
  - cbn [act]. destruct (vcpu_running g i) eqn:Hrun; [|by apply beside_refl]. apply with_vcpu_beside; [done|]. intros w Hw.
    destruct (running_vcpu_ok g i w (set_regs r) Hs Hrun Hw eq_refl eq_refl) as [Hok Hnot].
    split_and!; [done|exact Hok|]. intros. by destruct Hnot.
  - cbn [act]. destruct (g_vcpus g !! i) as [w|] eqn:Hw; [|by apply beside_refl].
    destruct (vcpu_running g i) eqn:Hrun; [|by apply beside_refl]. destruct (_ && no_pending_of g i) eqn:E; [|by apply beside_refl].
    bool_to_prop. apply with_vcpu_beside; [done|]. intros w' Hw'. assert (w' = w) as -> by congruence.
    destruct (running_vcpu_ok g i w id Hs Hrun Hw eq_refl eq_refl) as [Hok Hnot].
    split_and!; [by destruct cap| |intros; by destruct Hnot]. intros Hc r0 Hcap.
    destruct cap; simpl in *; [by simplify_eq|]. by destruct (Hok Hc r0 Hcap) as (? & _).
  - cbn [act]. destruct (g_vcpus g !! i) as [w|] eqn:Hw; [|by apply beside_refl].
    destruct (v_paused w && negb (v_control w) && negb (v_exited w)) eqn:E; [|by apply beside_refl]. bool_to_prop.
    apply with_vcpu_beside; [done|]. intros w' Hw'. assert (w' = w) as -> by congruence.
    assert (v_control w = false) as Hc by (by destruct (v_control w)).
    split_and!; [done|intros Hc'; simpl in Hc'; congruence|congruence].
  - apply with_vcpu_beside; [done|]. intros w Hw. split_and!; [done| |done].
    intros Hc r0 Hcap. destruct (sane_vcpu g Hs i w Hw Hc r0 Hcap) as (? & _ & ?). done.
  - apply with_vcpu_beside; [done|]. intros w Hw. split_and!; [done| |done].
    intros Hc r0 Hcap. destruct (sane_vcpu g Hs i w Hw Hc r0 Hcap) as (? & ? & ?). done.
  - destruct (may_work g who) eqn:Hw; [|cbn [act]; rewrite Hw; by apply beside_refl].
    destruct (in_ram ram off bs) eqn:Hin; [by apply device_store_beside|cbn [act]; rewrite Hw, Hin; by apply beside_refl].
  - by apply device_marks_beside.
  - by apply device_discard_beside.
  - cbn [act]. destruct (g_lazy g) as [l|] eqn:Hl; [|by apply beside_refl]. destruct (populated_entry e) eqn:He; [|by apply beside_refl].
    apply (with_lazy_beside g l); [done|done| |done].
    destruct (sane_lazy g Hs l Hl) as (Hwf & Hgen & Hlen & Hpm & Hfresh). split_and!; [done|done|done|simpl; by rewrite length_insert|].
    intros p (e' & Hp & Hpop). apply Hfresh. exists e'. simpl in Hp. split; [|done].
    apply list_lookup_insert_Some in Hp as [(? & <- & _)|[_ ?]]; congruence.
  - cbn [act]. apply (marked_beside g _ (g_pending g)); [done|done|intros q; apply host_mark_mono|by right].
Qed.

(** Populating pages changes nothing the guest sees. *)
Lemma fault_in_beside g qs : sane g → beside g (fault_in g qs).
Proof.
  intros Hs. unfold fault_in. destruct (g_lazy g) as [l|] eqn:Hl; [|by apply beside_refl].
  apply (with_lazy_beside g l); [done|done| |done]. destruct (sane_lazy g Hs l Hl) as (? & ? & ? & Hpm & Hfresh).
  assert (length (set_entries (lp_pagemap l) qs PAGEMAP_POPULATED) = length (lp_pagemap l) ∧
    ∀ (q : nat) e, set_entries (lp_pagemap l) qs PAGEMAP_POPULATED !! q = Some e → populated_entry e = false → lp_pagemap l !! q = Some e)
    as [Hlen Hold].
  { unfold set_entries. generalize (lp_pagemap l). induction qs as [|p qs IH]; intros pm; cbn [foldl]; [done|].
    destruct (IH (<[Z.to_nat p:=PAGEMAP_POPULATED]> pm)) as [Hlen Hold]. rewrite length_insert in Hlen. split; [done|].
    intros q e Hq He. apply Hold in Hq; [|done]. apply list_lookup_insert_Some in Hq as [(_ & <- & _)|[_ ?]]; done. }
  split_and!; try done; simpl; [by rewrite Hlen|]. intros q (e & Hq & He). apply Hfresh. eauto.
Qed.

Lemma acts_beside l : ∀ g, sane g → beside g (acts ram l g).
Proof.
  induction l as [|a l IH]; intros g Hs; [by apply beside_refl|]. cbn [acts foldl].
  pose proof (act_beside a g Hs) as Ha. eapply beside_trans; [exact Ha|]. apply IH, Ha.
Qed.

End guests.
