(* ===== verification/LiveCopy.v ===== *)
(** * Live snapshots: copying pages

    Everything the executor does except reading the dirty sets keeps the
    relation [tracks] of [LiveGuest], so that what it has copied is right or
    dirty at any later time. This file has the relations and rules for it, and
    the copying operations: runs of dirty pages, the pass over all of memory
    that leaves holes for zero pages, and the pass over a lazily restored
    guest, which takes what was never touched from the snapshot it was
    restored from, by cloning where the file system can. *)

From S2P Require Import Prelude Dirty GuestMem FileRanges GuestRam KvmLog Lazy LazyProof Migration LiveSnap LiveGuest.

Section relations.
Context {V R D : Type} `{!KvmVm V} `{!Sha256} (ram : Z) (snap : list Z).
Notation Guest := (Guest V R D).
Notation Live := (Live V R D).
Implicit Types (s : Live).
Notation sane := (sane ram snap).
Notation beside := (beside ram snap).
Notation tracks := (tracks ram snap).

(** ** Relations an operation keeps, whatever its result *)

Class StepRel (T : Live → Live → Prop) : Prop := {
  step_refl s : sane (l_guest s) → T s s;
  step_trans s1 s2 s3 : T s1 s2 → T s2 s3 → T s1 s3;
  step_sane s s' : T s s' → sane (l_guest s');
}.

Definition within {A : Type} (T : Live → Live → Prop) (c : op Live A) : Prop :=
  ∀ s, sane (l_guest s) → T s (c s).2.

Definition follows s s' : Prop := tracks (l_guest s) (l_guest s') ∧ l_consumed s' = l_consumed s.
Definition steady s s' : Prop := beside (l_guest s) (l_guest s') ∧ l_consumed s' = l_consumed s.
Definition calm s s' : Prop := beside (l_guest s) (l_guest s') ∧ l_consumed s' = l_consumed s ∧ l_file s' = l_file s.

#[export] Instance follows_rel : StepRel follows.
Proof.
  split.
  - intros s Hs. split; [by apply tracks_refl|done].
  - intros s1 s2 s3 [? ?] [? ?]. split; [by eapply tracks_trans|congruence].
  - intros s s' [Ht _]. apply Ht.
Qed.

#[export] Instance steady_rel : StepRel steady.
Proof.
  split.
  - intros s Hs. split; [by apply beside_refl|done].
  - intros s1 s2 s3 [? ?] [? ?]. split; [by eapply beside_trans|congruence].
  - intros s s' [Hb _]. apply Hb.
Qed.

#[export] Instance calm_rel : StepRel calm.
Proof.
  split.
  - intros s Hs. split_and!; [by apply beside_refl|done..].
  - intros s1 s2 s3 (? & ? & ?) (? & ? & ?). split_and!; [by eapply beside_trans|congruence..].
  - intros s s' [Hb _]. apply Hb.
Qed.

Lemma calm_steady s s' : calm s s' → steady s s'.
Proof. intros (? & ? & _). by split. Qed.

Lemma steady_follows s s' : steady s s' → follows s s'.
Proof. intros [[] ?]. by split. Qed.

Lemma within_mono {A} (T T' : Live → Live → Prop) (c : op Live A) : (∀ s s', T s s' → T' s s') → within T c → within T' c.
Proof. intros HT Hc s Hs. by apply HT, Hc. Qed.

Section rules.
Context (T : Live → Live → Prop) `{!StepRel T}.

Lemma within_done {A} (a : A) : within T (done a).
Proof. intros s Hs. by apply step_refl. Qed.

Lemma within_raise {A} e : within T (raise (A:=A) e).
Proof. intros s Hs. by apply step_refl. Qed.

Lemma within_lift {A} (r : result A LiveError) : within T (lift r).
Proof. intros s Hs. by apply step_refl. Qed.

Lemma within_bind {A B} (c : op Live A) (k : A → op Live B) :
  within T c → (∀ a, within T (k a)) → within T (op_bind c k).
Proof.
  intros Hc Hk s Hs. unfold op_bind. specialize (Hc s Hs). destruct (c s) as [[a|e] s1]; [|done].
  eapply step_trans; [exact Hc|]. apply Hk. by eapply step_sane.
Qed.

Lemma within_attempt {A} (c : op Live A) : within T c → within T (attempt c).
Proof. intros Hc s Hs. unfold attempt. specialize (Hc s Hs). by destruct (c s). Qed.

Lemma within_the_guest : within T the_guest.
Proof. intros s Hs. by apply step_refl. Qed.

Lemma within_each {A} (f : A → op Live unit) l : (∀ a, within T (f a)) → within T (each f l).
Proof. intros Hf. induction l as [|a l IH]; [apply within_done|]. apply within_bind; [done|]. by intros _. Qed.

End rules.


End relations.

Arguments step_refl {V R D H ram snap T StepRel} s : rename.
Arguments step_trans {V R D H ram snap T StepRel} s1 s2 s3 : rename.
Arguments step_sane {V R D H ram snap T StepRel} s s' : rename.

Create HintDb live.
(** Follows the structure of an operation. *)
Ltac within_step :=
  match goal with
  | |- within _ _ _ (op_bind _ _) => apply within_bind; [typeclasses eauto| |intros ?]
  | |- within _ _ _ (if ?b then _ else _) => destruct b
  | |- within _ _ _ (match ?x with _ => _ end) => destruct x
  | |- within _ _ _ (let '(_, _) := ?x in _) => destruct x
  | |- within _ _ _ (attempt _) => apply within_attempt
  | |- within _ _ _ (each _ _) => apply within_each; [typeclasses eauto|intros ?]
  | |- within _ _ _ (done _) => apply within_done; typeclasses eauto
  | |- within _ _ _ (raise _) => apply within_raise; typeclasses eauto
  | |- within _ _ _ (lift _) => apply within_lift; typeclasses eauto
  | |- within _ _ _ the_guest => apply within_the_guest; typeclasses eauto
  end.
Ltac within_steps := repeat (within_step || (progress eauto with live)).

#[export] Hint Extern 1 (within _ _ (steady _ _) _) => eapply within_mono; [exact (calm_steady _ _)|] : live.
#[export] Hint Extern 2 (within _ _ (follows _ _) _) => eapply within_mono; [exact (steady_follows _ _)|] : live.

Section executor.
Context {V R D : Type} `{!KvmVm V} `{!KvmLaws V} `{!Sha256} (ram : Z) (snap : list Z).
Hypothesis (Hram : ram_size ram).
Notation Guest := (Guest V R D).
Notation Live := (Live V R D).
Implicit Types (s : Live).
Notation sane := (sane ram snap).
Notation beside := (beside ram snap).
Notation tracks := (tracks ram snap).
Notation dirty := (dirty ram).
Notation within := (within (V:=V) (R:=R) (D:=D) ram snap).
Notation follows := (follows (V:=V) (R:=R) (D:=D) ram snap).
Notation steady := (steady (V:=V) (R:=R) (D:=D) ram snap).
Notation calm := (calm (V:=V) (R:=R) (D:=D) ram snap).

(** ** Points where other threads run *)

Lemma interfere_calm : within calm (interfere ram).
Proof.
  intros s Hs. unfold interfere. destruct (pop _ _) as [l rest]. split_and!; [by apply acts_beside|done..].
Qed.

Lemma answer_calm : within calm answer.
Proof. intros s Hs. unfold answer. destruct (pop _ _) as [a rest]. split_and!; [by apply beside_refl|done..]. Qed.

Lemma now_calm : within calm now.
Proof. intros s Hs. unfold now. destruct (pop _ _) as [t rest]. split_and!; [by apply beside_refl|done..]. Qed.

Lemma elapsed_calm t : within calm (elapsed t).
Proof. unfold elapsed. apply within_bind; [typeclasses eauto|apply now_calm|]. intros. apply within_done. typeclasses eauto. Qed.

#[local] Hint Resolve interfere_calm answer_calm now_calm elapsed_calm : live.

Lemma sync_data_calm : within calm (sync_data ram).
Proof. unfold sync_data. within_steps. Qed.

Lemma before_byte_calm s : sane (l_guest s) → calm s (before_byte ram s).
Proof. intros Hs. unfold before_byte. destruct (pop _ _) as [l rest]. split_and!; [by apply acts_beside|done..]. Qed.

(** ** Reading guest memory *)

(** What is known of a byte that was read from guest memory stays known. [I]
    is an invariant of the guest and [G g o b] says that [b] is right for the
    byte at [o], as far as [g] has not recorded a change. *)
Record Knows (I : Guest → Prop) (G : Guest → Z → Z → Prop) : Prop := {
  knows_keeps g g' : I g → beside g g' → I g';
  knows_stable g g' o b : I g → beside g g' → 0 ≤ o → G g o b → G g' o b;
  knows_read g o b : I g → 0 ≤ o → g_mem g !! Z.to_nat o = Some b → G g o b;
}.

Section copying.
Context (I : Guest → Prop) (G : Guest → Z → Z → Prop) (HG : Knows I G).

Lemma load_bytes_ok n : ∀ s off,
  sane (l_guest s) → I (l_guest s) → 0 ≤ off → off + Z.of_nat n ≤ ram →
  ∃ bs s', load_bytes ram off n s = (Ok bs, s') ∧ calm s s' ∧ length bs = n ∧
    ∀ (i : nat) b, bs !! i = Some b → G (l_guest s') (off + Z.of_nat i) b.
Proof.
  induction n as [|n IH]; intros s off Hs Hi Ho Hle; cbn [load_bytes].
  { exists [], s. split_and!; [done|by apply step_refl|done|done]. }
  set (s1 := on_guest _ _). assert (calm s s1) as Hc1.
  { pose proof (before_byte_calm s Hs) as Hb. eapply step_trans; [exact Hb|].
    split_and!; [apply fault_in_beside; by apply Hb|done..]. }
  pose proof (step_sane _ _ Hc1) as Hs1. pose proof Hc1 as (Hb1 & _).
  destruct (IH s1 (off + 1) Hs1 ltac:(by eapply (knows_keeps I G HG)) ltac:(lia) ltac:(lia)) as (bs & s2 & Hl & Hc2 & Hlen & Hbs).
  destruct (lookup_lt_is_Some_2 (g_mem (l_guest s1)) (Z.to_nat off)) as [b Hb].
  { pose proof (sane_mem _ _ _ Hs1). lia. }
  rewrite Hl, Hb. cbn [default]. exists (b :: bs), s2. split_and!; [done|by eapply step_trans|simpl; lia|].
  intros [|i] b' Hi'; simpl in Hi'.
  - injection Hi' as <-. rewrite Z.add_0_r. pose proof Hc2 as (Hb2 & _).
    eapply (knows_stable I G HG); [by eapply (knows_keeps I G HG)|done|done|].
    apply (knows_read I G HG); [by eapply (knows_keeps I G HG)|done|done].
  - replace (off + Z.of_nat (S i)) with (off + 1 + Z.of_nat i) by lia. by apply Hbs.
Qed.

(** An operation that yields right bytes for the range at [base]. *)
Definition reads (base : Z) (source : Z → Z → op Live (list Z)) (len : Z) : Prop :=
  ∀ s o n, sane (l_guest s) → I (l_guest s) → 0 ≤ o → 0 ≤ n → o + n ≤ len →
    ∃ bs s', source o n s = (Ok bs, s') ∧ calm s s' ∧ Z.of_nat (length bs) = n ∧
      ∀ (i : nat) b, bs !! i = Some b → G (l_guest s') (base + o + Z.of_nat i) b.

Lemma load_reads base len : 0 ≤ base → base + len ≤ ram → reads base (fun o n => load ram (base + o) n) len.
Proof.
  intros Hb Hle s o n Hs Hi Ho Hn Hon. unfold load.
  destruct (load_bytes_ok (Z.to_nat n) s (base + o) Hs Hi) as (bs & s' & ? & ? & ? & ?); [lia..|].
  exists bs, s'. split_and!; try done. lia.
Qed.

(** ** The file *)

Definition right_at s (o : Z) : Prop := ∃ b, l_file s !! Z.to_nat o = Some b ∧ G (l_guest s) o b.
Definition right_in s (from to : Z) : Prop := ∀ o, from ≤ o < to → right_at s o.

(** A hole, or bytes that are right already. *)
Definition hole_at s (o : Z) : Prop := l_file s !! Z.to_nat o = Some 0 ∨ right_at s o.

Lemma bind_ok {A B} (c : op Live A) (k : A → op Live B) s b s' :
  op_bind c k s = (Ok b, s') → ∃ a s1, c s = (Ok a, s1) ∧ k a s1 = (Ok b, s').
Proof. unfold op_bind. destruct (c s) as [[a|e] s1]; [|done]. eauto. Qed.

Lemma within_ok {A} T (c : op Live A) s r s' : within T c → sane (l_guest s) → c s = (r, s') → T s s'.
Proof. intros Hc Hs Hr. specialize (Hc s Hs). by rewrite Hr in Hc. Qed.

Lemma file_write_length (f : list Z) at_ bs :
  0 ≤ at_ → at_ + Z.of_nat (length bs) ≤ Z.of_nat (length f) → length (file_write f at_ bs) = length f.
Proof.
  intros. unfold file_write. replace (Z.to_nat at_ + length bs - length f)%nat with 0%nat by lia.
  cbn [replicate]. rewrite app_nil_r. apply length_copy_from_slice. lia.
Qed.

Lemma file_write_lookup (f : list Z) at_ bs o :
  0 ≤ at_ → at_ + Z.of_nat (length bs) ≤ Z.of_nat (length f) → 0 ≤ o →
  file_write f at_ bs !! Z.to_nat o =
  if decide (at_ ≤ o < at_ + Z.of_nat (length bs)) then bs !! Z.to_nat (o - at_) else f !! Z.to_nat o.
Proof.
  intros. unfold file_write. replace (Z.to_nat at_ + length bs - length f)%nat with 0%nat by lia.
  cbn [replicate]. rewrite app_nil_r, copy_from_slice_lookup by lia. repeat case_decide; try lia; [|done].
  f_equal. lia.
Qed.

Lemma write_all_at_steady bs at_ : within steady (write_all_at ram bs at_).
Proof.
  unfold write_all_at. within_steps; intros s Hs; (split; [by apply beside_refl|done]).
Qed.

Lemma write_all_at_ok s bs at_ u s' :
  sane (l_guest s) → write_all_at ram bs at_ s = (Ok u, s') →
  steady s s' ∧ l_file s' = file_write (l_file s) at_ bs.
Proof.
  intros Hs Hw. split; [by eapply within_ok; [apply write_all_at_steady| |]|]. unfold write_all_at in Hw.
  apply bind_ok in Hw as (? & s1 & H1 & Hw). apply bind_ok in Hw as (a & s2 & H2 & Hw).
  assert (calm s s1) as Hc1 by (by eapply within_ok; [apply interfere_calm| |]).
  assert (calm s1 s2) as Hc2 by (eapply within_ok; [apply answer_calm| |done]; apply Hc1).
  destruct a; [done|]. injection Hw as <- <-. simpl. destruct Hc1 as (_ & _ & <-). by destruct Hc2 as (_ & _ & <-).
Qed.

Lemma right_at_steady s s' o :
  0 ≤ o → I (l_guest s) → beside (l_guest s) (l_guest s') → l_file s' !! Z.to_nat o = l_file s !! Z.to_nat o →
  right_at s o → right_at s' o.
Proof.
  intros Ho Hi Hb Hsame (b & Hb' & HGo). exists b. rewrite Hsame. split; [done|].
  by eapply (knows_stable I G HG); [..|exact HGo].
Qed.

Lemma right_steady s s' from to :
  0 ≤ from → I (l_guest s) → beside (l_guest s) (l_guest s') →
  (∀ o, from ≤ o < to → l_file s' !! Z.to_nat o = l_file s !! Z.to_nat o) →
  right_in s from to → right_in s' from to.
Proof. intros Hf Hi Hb Hsame Hr o Ho. eapply right_at_steady; [lia|exact Hi|done|by apply Hsame|by apply Hr]. Qed.

Lemma hole_steady s s' o :
  0 ≤ o → I (l_guest s) → beside (l_guest s) (l_guest s') → l_file s' !! Z.to_nat o = l_file s !! Z.to_nat o →
  hole_at s o → hole_at s' o.
Proof.
  intros Ho Hi Hb Hsame [?|?]; [left; by rewrite Hsame|right]. by eapply right_at_steady.
Qed.

Definition ready s : Prop := sane (l_guest s) ∧ I (l_guest s) ∧ Z.of_nat (length (l_file s)) = ram.

Lemma ready_calm s s' : ready s → calm s s' → ready s'.
Proof.
  intros (? & ? & ?) (Hb & _ & Hf). split_and!; [apply Hb|by eapply (knows_keeps I G HG)|by rewrite Hf].
Qed.

Section nonzero.
Context (source : Z → Z → op Live (list Z)) (len at_ : Z).
Hypothesis (Hsrc : reads at_ source len) (Hat : 0 ≤ at_) (Hlen : 0 ≤ len) (Hend : at_ + len ≤ ram).

Lemma write_source_ok s first end_ u s' :
  ready s → 0 ≤ first → first ≤ end_ → end_ ≤ len → write_source ram source at_ first end_ s = (Ok u, s') →
  ready s' ∧ steady s s' ∧ right_in s' (at_ + first) (at_ + end_) ∧
  ∀ o, 0 ≤ o → ¬ at_ + first ≤ o < at_ + end_ → l_file s' !! Z.to_nat o = l_file s !! Z.to_nat o.
Proof.
  intros Hr Hf Hfe Hel Hw. pose proof Hr as (Hs & Hi & Hfl). unfold write_source in Hw.
  destruct (Hsrc s first (end_ - first) Hs Hi) as (bs & s1 & Hb & Hc & Hbl & Hbs); [lia..|].
  apply bind_ok in Hw as (bs' & s1' & Hb' & Hw). rewrite Hb in Hb'. injection Hb' as <- <-.
  pose proof (ready_calm _ _ Hr Hc) as (Hs1 & Hi1 & Hfl1).
  apply write_all_at_ok in Hw as [[Hbes Hcon] Hfile]; [|done]. pose proof Hc as (Hbc & Hcc & Hfc).
  split_and!.
  - split_and!; [apply Hbes|by eapply (knows_keeps I G HG)|]. rewrite Hfile, file_write_length by lia. done.
  - split; [by eapply beside_trans|congruence].
  - intros o Ho. unfold right_at. rewrite Hfile, file_write_lookup, decide_True by lia.
    destruct (lookup_lt_is_Some_2 bs (Z.to_nat (o - (at_ + first)))) as [b Hbo]; [lia|]. exists b. split; [done|].
    eapply (knows_stable I G HG); [exact Hi1|done|lia|]. specialize (Hbs _ _ Hbo).
    by replace (at_ + first + Z.of_nat (Z.to_nat (o - (at_ + first)))) with o in Hbs by lia.
  - intros o Ho Hno. rewrite Hfile, file_write_lookup, decide_False by lia. by rewrite Hfc.
Qed.

(** What has been written or skipped, and the hole that is left. *)
Definition written_to (f : list Z) (r : Z) s : Prop :=
  ready s ∧ right_in s at_ (at_ + r) ∧ (∀ o, at_ + r ≤ o < at_ + len → hole_at s o) ∧
  ∀ o, 0 ≤ o → ¬ at_ ≤ o < at_ + len → l_file s !! Z.to_nat o = f !! Z.to_nat o.

Lemma written_calm f r s s' : 0 ≤ r ≤ len → written_to f r s → calm s s' → written_to f r s'.
Proof.
  intros Hr (Hrd & Hright & Hhole & Hout) Hc. pose proof Hc as (Hb & _ & Hf). pose proof Hrd as (_ & Hi & _).
  split_and!; [by eapply ready_calm| | |by rewrite Hf].
  - eapply right_steady; [done|exact Hi|done|by rewrite Hf|done].
  - intros o Ho'. eapply hole_steady; [lia|exact Hi|done|by rewrite Hf|by apply Hhole].
Qed.

Lemma written_source f s first end_ u s' :
  written_to f first s → 0 ≤ first → first ≤ end_ → end_ ≤ len → write_source ram source at_ first end_ s = (Ok u, s') →
  written_to f end_ s' ∧ steady s s'.
Proof.
  intros (Hrd & Hright & Hhole & Hout) H0 H1 H2 Hw. pose proof Hrd as (_ & Hi & _).
  destruct (write_source_ok s first end_ u s' Hrd H0 H1 H2 Hw) as (Hrd' & Hst & Hnew & Hrest). split; [|done].
  split_and!; [done| | |].
  - intros o Ho. destruct (Z.lt_ge_cases o (at_ + first)); [|apply Hnew; lia].
    assert (right_in s' at_ (at_ + first)) as Hr'; [|apply Hr'; lia].
    eapply right_steady; [done|exact Hi|apply Hst| |done]. intros x Hx. apply Hrest; lia.
  - intros o Ho. eapply hole_steady; [lia|exact Hi|apply Hst|apply Hrest; lia|apply Hhole; lia].
  - intros o Ho Hno. rewrite Hrest by lia. by apply Hout.
Qed.

Lemma write_runs_ok (m : nat) : ∀ c f run w s n s',
  len - c ≤ Z.of_nat m → 0 ≤ c → c ≤ len → (∀ first, run = Some first → 0 ≤ first ≤ c) →
  written_to f (default c run) s → write_runs ram source len at_ (step_by c len PAGE_SIZE) run w s = (Ok n, s') →
  written_to f len s' ∧ steady s s'.
Proof.
  induction m as [|m IH]; intros c f run w s n s' Hm Hc Hcl Hrun Hwt Hw;
    (destruct (Z.eq_dec c len) as [->|Hne];
      [rewrite step_by_nil in Hw by (done || lia); cbn [write_runs] in Hw; destruct run as [first|];
        [apply bind_ok in Hw as (u & s1 & Hw & [= <- <-]); destruct (Hrun first eq_refl); simpl in Hwt;
          eapply written_source; [exact Hwt|lia..|exact Hw]
        |injection Hw as <- <-; split; [done|apply step_refl; apply Hwt]]|]); [lia|].
  rewrite step_by_cons in Hw by (done || lia). cbn [write_runs] in Hw. apply bind_ok in Hw as (bs & s1 & Hb & Hw).
  pose proof Hwt as ((Hs & Hi & _) & _).
  destruct (Hsrc s c (Z.min (c + PAGE_SIZE) len - c) Hs Hi) as (bs' & s1' & Hb' & Hcalm & Hbl & Hbs); [unfold PAGE_SIZE in *; lia..|].
  rewrite Hb in Hb'. injection Hb' as <- <-. set (e := Z.min (c + PAGE_SIZE) len) in *.
  assert (0 < PAGE_SIZE) by done. assert (c < e ≤ len) by lia.
  assert (0 ≤ default c run ≤ c) as Hd by (destruct run as [first|]; simpl; [by apply Hrun|lia]).
  assert (written_to f (default c run) s1) as Hwt1 by (eapply written_calm; [lia|done|done]).
  assert (∀ (run' : option Z) (w' : Z) (s2 : Live), (∀ first, run' = Some first → 0 ≤ first ≤ e) → steady s1 s2 → written_to f (default e run') s2 →
    write_runs ram source len at_ (step_by (c + PAGE_SIZE) len PAGE_SIZE) run' w' s2 = (Ok n, s') → written_to f len s' ∧ steady s s') as Hgo.
  { intros run' w' s2 Hrun' Hst Hwt' Hw'. replace (step_by (c + PAGE_SIZE) len PAGE_SIZE) with (step_by e len PAGE_SIZE) in Hw'.
    - destruct (IH e f run' w' s2 n s' ltac:(lia) ltac:(lia) ltac:(lia) Hrun' Hwt' Hw') as [? ?]. split; [done|].
      eapply step_trans; [by apply calm_steady|]. by eapply step_trans.
    - destruct (Z.le_gt_cases (c + PAGE_SIZE) len); [by replace e with (c + PAGE_SIZE) by lia|].
      rewrite !step_by_nil by (done || lia). done. }
  destruct (forallb (fun b => b =? 0) bs) eqn:Hz.
  - rewrite forallb_forall in Hz.
    assert (∀ s2, steady s1 s2 → written_to f c s2 → written_to f e s2) as Hskip.
    { intros s2 [Hb2 _] (Hrd2 & Hr2 & Hh2 & Ho2). split_and!; [done| |intros o Ho; apply Hh2; lia|done].
      intros o Ho. destruct (Z.lt_ge_cases o (at_ + c)); [apply Hr2; lia|].
      destruct (Hh2 o ltac:(lia)) as [Hzero|]; [|done]. exists 0. split; [done|].
      destruct (lookup_lt_is_Some_2 bs (Z.to_nat (o - (at_ + c)))) as [b Hbo]; [lia|].
      assert (b = 0) as -> by (apply Z.eqb_eq, Hz, list_elem_of_In; by eapply list_elem_of_lookup_2).
      specialize (Hbs _ _ Hbo). replace (at_ + c + Z.of_nat (Z.to_nat (o - (at_ + c)))) with o in Hbs by lia.
      eapply (knows_stable I G HG); [|exact Hb2|lia|exact Hbs]. apply Hwt1. }
    destruct run as [first|]; simpl in *.
    + apply bind_ok in Hw as (u & s2 & Hw1 & Hw).
      destruct (written_source f s1 first c u s2 Hwt1 ltac:(lia) ltac:(lia) ltac:(lia) Hw1) as [Hwt2 Hst2].
      eapply (Hgo None); [done|exact Hst2|by apply Hskip|exact Hw].
    + eapply (Hgo None); [done| |apply Hskip; [|done]|exact Hw]; apply step_refl; apply Hwt1.
  - eapply (Hgo (Some (default c run))); [intros first [= <-]; lia| |exact Hwt1|exact Hw]. apply step_refl. apply Hwt1.
Qed.

Lemma write_nonzero_pages_ok s n s' :
  ready s → (∀ o, at_ ≤ o < at_ + len → hole_at s o) →
  write_nonzero_pages ram source len at_ s = (Ok n, s') →
  ready s' ∧ steady s s' ∧ right_in s' at_ (at_ + len) ∧
  ∀ o, 0 ≤ o → ¬ at_ ≤ o < at_ + len → l_file s' !! Z.to_nat o = l_file s !! Z.to_nat o.
Proof.
  intros Hr Hhole Hw. unfold write_nonzero_pages in Hw.
  destruct (write_runs_ok (Z.to_nat len) 0 (l_file s) None 0 s n s') as [(? & ? & _ & ?) ?]; [lia..|done| |done|done].
  change (default 0 None) with 0. split_and!; [done| |intros o Ho; apply Hhole; lia|done]. intros o Ho. lia.
Qed.

End nonzero.

(** ** Copying dirty pages *)

Lemma copy_page_run_ok s a e n s' :
  ready s → 0 ≤ a → copy_page_run ram a e s = (Ok n, s') →
  ready s' ∧ steady s s' ∧ ∀ o, 0 ≤ o < ram → right_at s o ∨ a ≤ o / PAGE_SIZE < e → right_at s' o.
Proof.
  intros Hr Ha Hw. unfold copy_page_run in Hw. destruct (u64_checked_sub e a) as [pages|] eqn:E1; [|done].
  apply u64_checked_sub_Some in E1 as [-> Hae]. destruct (u64_checked_mul a PAGE_SIZE) as [gpa|] eqn:E2; [|done].
  apply u64_checked_mul_Some in E2 as [-> _]. cbn [ok_or_memory] in Hw.
  change (op_bind (done (e - a)) ?k s) with (k (e - a) s) in Hw. cbv beta in Hw.
  change (op_bind (done (a * PAGE_SIZE)) ?k s) with (k (a * PAGE_SIZE) s) in Hw. cbv beta in Hw.
  destruct (u64_checked_mul (e - a) PAGE_SIZE) as [len|] eqn:E3; [|done]. apply u64_checked_mul_Some in E3 as [-> _].
  change (op_bind (ok_or_memory (Some ((e - a) * PAGE_SIZE))) ?k s) with (k ((e - a) * PAGE_SIZE) s) in Hw. cbv beta in Hw.
  destruct (u64_checked_add (a * PAGE_SIZE) ((e - a) * PAGE_SIZE)) as [end_|] eqn:E4; [|done].
  apply u64_checked_add_Some in E4 as [-> _]. cbn [ok_or_memory] in Hw. change (op_bind (done ?x) ?k s) with (k x s) in Hw. cbv beta in Hw.
  destruct (ram <? _) eqn:E5; [done|]. bool_to_prop. apply bind_ok in Hw as (bs & s1 & Hl & Hw).
  apply bind_ok in Hw as (u & s2 & Hwr & [= <- <-]). pose proof Hr as (_ & Hi & _).
  destruct (write_source_ok (fun o n => load ram (a * PAGE_SIZE + o) n) ((e - a) * PAGE_SIZE) (a * PAGE_SIZE)
    ltac:(apply load_reads; unfold PAGE_SIZE in *; lia) ltac:(unfold PAGE_SIZE; lia) E5 s 0 ((e - a) * PAGE_SIZE) u s2)
    as (Hr' & Hst & Hright & Hrest); try done; try (unfold PAGE_SIZE in *; lia).
  { unfold write_source, op_bind. by rewrite !Z.add_0_r, Z.sub_0_r, Hl. }
  split_and!; [done|done|]. intros o Ho Hor. destruct (decide (a ≤ o / PAGE_SIZE < e)) as [Hin|Hout].
  - apply Hright. unfold PAGE_SIZE in *. zlia.
  - destruct Hor as [(b & Hb & HGo)|]; [|done]. exists b. rewrite Hrest by (unfold PAGE_SIZE in *; zlia). split; [done|].
    by eapply (knows_stable I G HG); [..|exact HGo]; [done|apply Hst|lia].
Qed.

Lemma copy_runs_ok pfns : ∀ run_start run_end copied s n s',
  ready s → (∀ a, run_start = Some a → 0 ≤ a ≤ run_end) → Forall (fun p => 0 ≤ p) pfns →
  copy_runs ram pfns run_start run_end copied s = (Ok n, s') →
  ready s' ∧ steady s s' ∧ ∀ o, 0 ≤ o < ram →
    right_at s o ∨ o / PAGE_SIZE ∈ pfns ∨ (∃ a, run_start = Some a ∧ a ≤ o / PAGE_SIZE < run_end) → right_at s' o.
Proof.
  induction pfns as [|p pfns IH]; intros run_start run_end copied s n s' Hr Hst Hp Hc; cbn [copy_runs] in Hc.
  - destruct run_start as [a|].
    + apply bind_ok in Hc as (k & s1 & Hc & [= <- <-]).
      destruct (copy_page_run_ok s a run_end k s1 Hr ltac:(by apply Hst) Hc) as (? & ? & Hright).
      split_and!; [done|done|]. intros o Ho [?|[[]%not_elem_of_nil|(a' & [= <-] & ?)]]; apply Hright; auto.
    + injection Hc as <- <-. split_and!; [done|apply step_refl; apply Hr|].
      intros o Ho [?|[[]%not_elem_of_nil|(a' & [=] & ?)]]; auto.
  - apply Forall_cons in Hp as [Hp0 Hp]. destruct run_start as [a|]; [specialize (Hst a eq_refl); destruct (p =? run_end) eqn:E; bool_to_prop|].
    + subst run_end. destruct (IH (Some a) (p + 1) copied s n s' Hr ltac:(intros ? [= <-]; lia) Hp Hc) as (? & ? & Hright). split_and!; [done|done|].
      intros o Ho [?|[[Hop|?]%elem_of_cons|(a' & [= <-] & ?)]]; apply Hright; auto; right; right; exists a; (split; [done|lia]).
    + apply bind_ok in Hc as (k & s1 & Hc & Hc').
      destruct (copy_page_run_ok s a run_end k s1 Hr ltac:(lia) Hc) as (Hr1 & Hst1 & Hright1).
      destruct (IH (Some p) (p + 1) (copied + k) s1 n s' Hr1 ltac:(intros ? [= <-]; lia) Hp Hc') as (? & ? & Hright).
      split_and!; [done|by eapply step_trans|]. intros o Ho [?|[[Hop|?]%elem_of_cons|(a' & [= <-] & ?)]]; apply Hright; auto.
      right. right. exists p. split; [done|lia].
    + destruct (IH (Some p) (p + 1) copied s n s' Hr ltac:(intros ? [= <-]; lia) Hp Hc) as (? & ? & Hright). split_and!; [done|done|].
      intros o Ho [?|[[Hop|?]%elem_of_cons|(a' & [=] & ?)]]; apply Hright; auto. right. right. exists p. split; [done|lia].
Qed.

Lemma elem_of_sorted_pfns b p : p ∈ sorted_pfns ram b ↔ (0 ≤ p < ram / PAGE_SIZE) ∧ p ∈ DirtyBitmap.dirty b.
Proof. unfold sorted_pfns. rewrite (merge_sort_Permutation Z.le), list_elem_of_filter, elem_of_elements. done. Qed.

(** After the pages in [b] were copied, only what was wrong elsewhere is. *)
Lemma copy_dirty_pages_ok b s n s' :
  ready s → copy_dirty_pages ram b s = (Ok n, s') →
  ready s' ∧ steady s s' ∧ ∀ o, 0 ≤ o < ram → right_at s o ∨ o / PAGE_SIZE ∈ DirtyBitmap.dirty b → right_at s' o.
Proof.
  intros Hr Hc. destruct (copy_runs_ok (sorted_pfns ram b) None 0 0 s n s' Hr) as (? & ? & Hright); [done| |done|].
  { apply Forall_forall. intros p [? _]%elem_of_sorted_pfns. lia. }
  split_and!; [done|done|]. intros o Ho [?|?]; apply Hright; auto. right. left. apply elem_of_sorted_pfns.
  split; [by apply page_in_ram|done].
Qed.

End copying.

(** ** Lazily restored memory *)
Section lazy.
Context (src : LazySource) (pread : Z → Z → option (list Z)) (ficlonerange : list Z → Z → Z → Z → option (list Z)).

(** The reads and reflinks of the snapshot file. *)
Hypothesis (Hread : ∀ o n bs, source_integrity src = None → 0 ≤ o → 0 ≤ n → o + n ≤ ram →
  pread (source_offset src + o) n = Some bs → bs = slice (Z.to_nat o) (Z.to_nat n) snap).
Hypothesis (Hclone : ∀ dest a n at_ dest', 0 ≤ a → 0 ≤ n → a + n ≤ ram → 0 ≤ at_ →
  ficlonerange dest (source_offset src + a) n at_ = Some dest' →
  length dest' = length dest ∧
  ∀ x : Z, 0 ≤ x < Z.of_nat (length dest) →
    dest' !! Z.to_nat x = if decide (at_ ≤ x < at_ + n) then snap !! Z.to_nat (a + (x - at_)) else dest !! Z.to_nat x).

(** Logging is on, and the hook is that of the snapshot. *)
Definition logs (g : Guest) : Prop := logging ram g ∧ ∀ l, g_lazy g = Some l → source (lp_hook l) = src.

(** A byte of guest memory, or of a page that has changed since. *)
Definition seen (g : Guest) (o b : Z) : Prop := g_mem g !! Z.to_nat o = Some b ∨ dirty g (o / PAGE_SIZE).

Lemma logs_tracks g g' : logs g → tracks g g' → logs g'.
Proof.
  intros [Hl Hs] Ht. split.
  - intros p Hp. rewrite (t_logging _ _ _ _ Ht). by apply Hl.
  - intros l' Hl'. pose proof (t_lazy _ _ _ _ Ht) as Hsame. unfold same_lazy, same_part in Hsame. rewrite Hl' in Hsame.
    destruct (g_lazy g) as [l|]; [|done]. destruct Hsame as [-> _]. by apply Hs.
Qed.

Lemma knows_seen : Knows logs seen.
Proof.
  split.
  - intros g g' Hl [Ht]. by eapply logs_tracks.
  - intros g g' o b [Hl _] [Ht] Ho [Hm|Hd]; [|right; by apply (t_dirty _ _ _ _ Ht)].
    destruct (t_mem _ _ _ _ Ht Hl o Ho) as [Heq|]; [left; by rewrite Heq|by right].
  - intros g o b _ _ Hm. by left.
Qed.

(** A page that holds what a fault would install, or has changed since. *)
Definition fresh_page (g : Guest) (q : Z) : Prop :=
  dirty g q ∨ ∃ l, g_lazy g = Some l ∧ slice (Z.to_nat q * page_n) page_n (g_mem g) = fresh (lp_hook l) snap q.

Lemma page_unchanged (g g' : Guest) q :
  logging ram g → 0 ≤ q → tracks g g' →
  slice (Z.to_nat q * page_n) page_n (g_mem g') = slice (Z.to_nat q * page_n) page_n (g_mem g) ∨ dirty g' q.
Proof.
  intros Hl Hq Ht.
  destruct (decide (Exists (fun i : nat => g_mem g' !! (Z.to_nat q * page_n + i)%nat ≠ g_mem g !! (Z.to_nat q * page_n + i)%nat)
    (seq 0 page_n))) as [Hex|Hall].
  2: { left. apply list_eq. intros i. rewrite !lookup_slice. case_decide; [|done]. apply dec_stable. intros Hne.
       apply Hall, Exists_exists. exists i. split; [apply elem_of_seq; lia|done]. }
  - right. apply Exists_exists in Hex as (i & Hi%elem_of_seq & Hne).
    assert (Z.of_nat page_n = PAGE_SIZE) as Hpn by (unfold page_n; by rewrite Z2Nat.id).
    destruct (t_mem _ _ _ _ Ht Hl (q * PAGE_SIZE + Z.of_nat i) ltac:(unfold PAGE_SIZE; lia)) as [Heq|Hd].
    + destruct Hne. by replace (Z.to_nat (q * PAGE_SIZE + Z.of_nat i)) with (Z.to_nat q * page_n + i)%nat in Heq by lia.
    + by replace ((q * PAGE_SIZE + Z.of_nat i) / PAGE_SIZE) with q in Hd by (unfold PAGE_SIZE in *; zlia).
Qed.

Lemma fresh_page_tracks (g g' : Guest) q : logging ram g → 0 ≤ q → tracks g g' → fresh_page g q → fresh_page g' q.
Proof.
  intros Hl Hq Ht [Hd|(l & Hlz & Hpage)]; [left; by apply (t_dirty _ _ _ _ Ht)|].
  pose proof (t_lazy _ _ _ _ Ht) as Hsame. unfold same_lazy, same_part in Hsame. rewrite Hlz in Hsame.
  destruct (g_lazy g') as [l'|] eqn:Hlz'; [|done]. destruct Hsame as [_ Hdisc].
  destruct (page_unchanged g g' q Hl Hq Ht) as [Heq|]; [|by left]. destruct (Hdisc q Hq) as [Hd|]; [|by left].
  right. exists l'. split; [done|]. rewrite Heq, Hpage. unfold fresh. by rewrite Hd.
Qed.

(** A byte of a fresh page is the snapshot's, or zero. *)
Lemma fresh_seen (g : Guest) l o b :
  g_lazy g = Some l → 0 ≤ o → fresh_page g (o / PAGE_SIZE) →
  fresh (lp_hook l) snap (o / PAGE_SIZE) !! Z.to_nat (o mod PAGE_SIZE) = Some b → seen g o b.
Proof.
  intros Hl Ho [Hd|(l' & Hl' & Hpage)] Hb; [by right|left]. assert (l' = l) as -> by congruence.
  rewrite <- Hpage, lookup_slice in Hb. case_decide; [|done]. rewrite <- Hb. f_equal.
  assert (Z.of_nat page_n = PAGE_SIZE) by (unfold page_n; by rewrite Z2Nat.id).
  assert (0 ≤ o / PAGE_SIZE) by (apply Z.div_pos; [lia|done]). unfold PAGE_SIZE in *. zlia.
Qed.

(** What the page map said of the pages that are not populated. *)
Definition untouched_ok (populated : list bool) (g : Guest) : Prop :=
  ∀ q : nat, populated !! q = Some false → fresh_page g (Z.of_nat q).

Lemma untouched_ok_tracks p (g g' : Guest) : logging ram g → tracks g g' → untouched_ok p g → untouched_ok p g'.
Proof. intros Hl Ht Hu q Hq. eapply fresh_page_tracks; [done|lia|done|]. by apply Hu. Qed.

Lemma populated_pages_calm : within calm (populated_pages ram).
Proof. unfold populated_pages. within_steps. Qed.

Lemma populated_pages_ok s p s' :
  sane (l_guest s) → populated_pages ram s = (Ok p, s') →
  calm s s' ∧ untouched_ok p (l_guest s') ∧ Z.of_nat (length p) = ram / PAGE_SIZE ∧ is_Some (g_lazy (l_guest s')).
Proof.
  intros Hs Hp. assert (calm s s') as Hc by (by eapply within_ok; [apply populated_pages_calm| |]). split; [done|].
  unfold populated_pages in Hp. apply bind_ok in Hp as (u & s1 & H1 & Hp). apply bind_ok in Hp as (a & s2 & H2 & Hp).
  apply bind_ok in Hp as (g & s3 & [= <- <-] & Hp). destruct a; [done|]. destruct (g_lazy (l_guest s2)) as [l|] eqn:Hl; [|done].
  injection Hp as <- <-. pose proof (step_sane _ _ Hc) as Hs2. destruct (sane_lazy _ _ _ Hs2 l Hl) as (_ & _ & _ & Hlen & Hfresh).
  split_and!; [|by rewrite length_fmap|done]. intros q (e & He & Hpop)%list_lookup_fmap_Some. right. exists l. split; [done|].
  rewrite Nat2Z.id. apply Hfresh. eauto.
Qed.

Lemma page_n_Z : Z.of_nat page_n = PAGE_SIZE.
Proof. unfold page_n. by rewrite Z2Nat.id. Qed.

Lemma page_split (i : nat) : ∃ j r : nat, i = (j * page_n + r)%nat ∧ (r < page_n)%nat ∧ (i / page_n = j)%nat.
Proof.
  assert (page_n ≠ 0)%nat as H0 by (pose proof page_n_Z as Hz; unfold PAGE_SIZE in Hz; lia).
  exists (i / page_n)%nat, (i mod page_n)%nat. split_and!; [|by apply Nat.mod_upper_bound|done].
  rewrite Nat.mul_comm. by apply Nat.div_mod.
Qed.

Lemma read_untouched_op_calm off len : within calm (read_untouched_op ram pread off len).
Proof. unfold read_untouched_op, lazy_part. within_steps. Qed.

(** What is read for a page that is still fresh is right. *)
Lemma read_untouched_op_ok s off len bytes s' :
  sane (l_guest s) → logs (l_guest s) → 0 ≤ off → 0 ≤ len → read_untouched_op ram pread off len s = (Ok bytes, s') →
  calm s s' ∧ Z.of_nat (length bytes) = len ∧
  ∀ (i : nat) b, bytes !! i = Some b → fresh_page (l_guest s') ((off + Z.of_nat i) / PAGE_SIZE) → seen (l_guest s') (off + Z.of_nat i) b.
Proof.
  intros Hs Hlogs Ho Hl Hr. assert (calm s s') as Hc by (by eapply within_ok; [apply read_untouched_op_calm| |]). split; [done|].
  assert (sane (l_guest s')) as Hs' by (by eapply step_sane). assert (logs (l_guest s')) as [_ Hsrc] by (eapply logs_tracks; [done|apply Hc]).
  unfold read_untouched_op, lazy_part in Hr. apply bind_ok in Hr as (u & s1 & H1 & Hr). apply bind_ok in Hr as (g & s2 & [= <- <-] & Hr).
  destruct (g_lazy (l_guest s1)) as [l|] eqn:Hlz; [|done]. destruct (read_untouched pread (lp_hook l) off len) as [out|] eqn:Hout; [|done].
  injection Hr as <- <-. destruct (sane_lazy _ _ _ Hs' l Hlz) as (Hwf & Hgen & Hglen & _).
  destruct (read_untouched_fresh (lp_hook l) snap pread Hwf Hgen) with (offset := off) (len := len) (out := out)
    as (Hlen & Hlm & Hom & _ & Hpages); [|done..|].
  { rewrite (Hsrc l Hlz), Hglen. exact Hread. }
  split; [done|]. intros i b Hb Hfresh. eapply fresh_seen; [done|lia|done|].
  destruct (page_split i) as (j & r & -> & Hrp & _). pose proof page_n_Z as Hpn.
  assert ((j * page_n + r) < length out)%nat as Hlt by (by eapply lookup_lt_Some).
  replace (Z.of_nat (j * page_n + r)) with (Z.of_nat j * PAGE_SIZE + Z.of_nat r) by lia.
  replace ((off + (Z.of_nat j * PAGE_SIZE + Z.of_nat r)) / PAGE_SIZE) with (off / PAGE_SIZE + Z.of_nat j) by (unfold PAGE_SIZE in *; zlia).
  replace (Z.to_nat ((off + (Z.of_nat j * PAGE_SIZE + Z.of_nat r)) mod PAGE_SIZE)) with r by (unfold PAGE_SIZE in *; zlia).
  rewrite <- Hpages by (unfold PAGE_SIZE in *; zlia). by rewrite lookup_slice, decide_True.
Qed.

(** The bytes of the pages before [k] and of the untouched ones are right. *)
Definition buffer_ok (start : Z) (pages : list bool) (k : nat) (bytes : list Z) (g : Guest) : Prop :=
  Z.of_nat (length bytes) = Z.of_nat (length pages) * PAGE_SIZE ∧
  ∀ (i : nat) b, bytes !! i = Some b → (i / page_n < k)%nat ∨ pages !! (i / page_n)%nat = Some false → seen g (start + Z.of_nat i) b.

Lemma buffer_ok_beside start pages k bytes g g' :
  0 ≤ start → logs g → beside g g' → buffer_ok start pages k bytes g → buffer_ok start pages k bytes g'.
Proof.
  intros Hs Hl Hb [Hlen Hok]. split; [done|]. intros i b Hi Hor.
  eapply (knows_stable _ _ knows_seen); [exact Hl|done|lia|by apply Hok].
Qed.

Lemma overlay_touched_ok start pages touched : ∀ k bytes s,
  sane (l_guest s) → logs (l_guest s) → 0 ≤ start → start + Z.of_nat (length pages) * PAGE_SIZE ≤ ram →
  drop k pages = touched → (k + length touched = length pages)%nat → buffer_ok start pages k bytes (l_guest s) →
  ∃ bytes' s', overlay_touched ram start touched k bytes s = (Ok bytes', s') ∧ calm s s' ∧
    buffer_ok start pages (length pages) bytes' (l_guest s').
Proof.
  pose proof page_n_Z as Hpn. induction touched as [|t touched IH]; intros k bytes s Hs Hl H0 Hle Hdrop Hk Hbuf; cbn [overlay_touched].
  { exists bytes, s. split_and!; [done|by apply step_refl|]. simpl in Hk. by replace (length pages) with k by lia. }
  assert (pages !! k = Some t ∧ drop (S k) pages = touched) as [Ht Hdrop'].
  { split; [by rewrite <- (Nat.add_0_r k), <- lookup_drop, Hdrop|]. by rewrite <- (Nat.add_1_r k), <- drop_drop, Hdrop. }
  simpl in Hk. destruct Hbuf as [Hlen Hok]. destruct t.
  - destruct (load_bytes_ok logs seen knows_seen page_n s (start + Z.of_nat k * PAGE_SIZE) Hs Hl) as (page & s1 & Hload & Hc & Hpl & Hpage);
      [unfold PAGE_SIZE in *; lia..|].
    unfold op_bind at 1, load. change (Z.to_nat PAGE_SIZE) with page_n. rewrite Hload.
    replace (Z.to_nat (Z.of_nat k * PAGE_SIZE)) with (k * page_n)%nat by lia.
    assert (logs (l_guest s1)) as Hl1 by (eapply logs_tracks; [done|apply Hc]).
    edestruct (IH (S k) (copy_from_slice bytes (k * page_n) page) s1) as (bytes' & s2 & Hr & Hc2 & Hb2);
      [by eapply step_sane|done|done|done|done|lia| |].
    + assert (k * page_n + length page ≤ length bytes)%nat as Hfit by (unfold PAGE_SIZE in *; lia).
      split; [by rewrite length_copy_from_slice|]. intros i b Hi Hor. rewrite copy_from_slice_lookup in Hi by done. case_decide as Hd.
      * specialize (Hpage _ _ Hi). by replace (start + Z.of_nat i) with (start + Z.of_nat k * PAGE_SIZE + Z.of_nat (i - k * page_n)) by lia.
      * eapply (knows_stable _ _ knows_seen); [exact Hl|apply Hc|lia|]. apply Hok; [done|].
        destruct Hor as [Hor|]; [left|by right]. destruct (page_split i) as (j & r & -> & Hr & Hj). rewrite Hj in *. nia.
    + exists bytes', s2. split_and!; [done|by eapply step_trans|done].
  - apply (IH (S k)); [done..|lia|]. split; [done|]. intros i b Hi Hor. apply Hok; [done|].
    destruct Hor as [Hor|]; [|by right]. destruct (decide (i / page_n = k)%nat) as [->|]; [by right|left; lia].
Qed.

(** A buffer whose bytes are right stays a source of right bytes. *)
Definition buffered (start : Z) (bytes : list Z) (g : Guest) : Prop :=
  logs g ∧ ∀ (i : nat) b, bytes !! i = Some b → seen g (start + Z.of_nat i) b.

Lemma knows_buffered start bytes : 0 ≤ start → Knows (buffered start bytes) seen.
Proof.
  intros H0. destruct knows_seen as [Hk Hst Hr]. split.
  - intros g g' [Hl Hb] Hbes. split; [by eapply Hk|]. intros i b Hi. eapply Hst; [done|done|lia|]. by apply Hb.
  - intros g g' o b [Hl _]. by apply Hst.
  - intros g o b [Hl _]. by apply Hr.
Qed.

Lemma buffer_reads start bytes len :
  0 ≤ start → Z.of_nat (length bytes) = len →
  reads (buffered start bytes) seen start (fun o n => done (slice (Z.to_nat o) (Z.to_nat n) bytes)) len.
Proof.
  intros H0 Hlen s o n Hs [_ Hb] Ho Hn Hon. eexists _, s. split_and!; [done|by apply step_refl|rewrite length_slice; lia|].
  intros i b Hi. rewrite lookup_slice in Hi. case_decide; [|done]. specialize (Hb _ _ Hi).
  by replace (start + o + Z.of_nat i) with (start + Z.of_nat (Z.to_nat o + i)) by lia.
Qed.

Lemma lookup_pages_of p start end_ (k : nat) :
  0 ≤ start → pages_of p start end_ !! k =
  if decide (Z.of_nat k < end_ / PAGE_SIZE - start / PAGE_SIZE) then p !! (Z.to_nat (start / PAGE_SIZE) + k)%nat else None.
Proof.
  intros. unfold pages_of. case_decide.
  - rewrite lookup_take_lt by lia. by rewrite lookup_drop.
  - rewrite lookup_take_ge by lia. done.
Qed.

Lemma length_pages_of (p : list bool) start end_ :
  0 ≤ start → start ≤ end_ → end_ ≤ ram → start mod PAGE_SIZE = 0 → end_ mod PAGE_SIZE = 0 → Z.of_nat (length p) = ram / PAGE_SIZE →
  Z.of_nat (length (pages_of p start end_)) * PAGE_SIZE = end_ - start.
Proof.
  intros. unfold pages_of. rewrite length_take, length_drop.
  assert (end_ / PAGE_SIZE ≤ ram / PAGE_SIZE) by (apply Z.div_le_mono; [done|lia]).
  assert (start / PAGE_SIZE ≤ end_ / PAGE_SIZE) by (apply Z.div_le_mono; [done|lia]).
  assert (0 ≤ start / PAGE_SIZE) by (apply Z.div_pos; [lia|done]). rewrite Nat.min_l by lia. unfold PAGE_SIZE in *. zlia.
Qed.

Lemma write_chunk_ok p s start end_ n s' :
  ready logs s → untouched_ok p (l_guest s) → Z.of_nat (length p) = ram / PAGE_SIZE →
  0 ≤ start → start ≤ end_ → end_ ≤ ram → start mod PAGE_SIZE = 0 → end_ mod PAGE_SIZE = 0 →
  (∀ o, start ≤ o < end_ → hole_at seen s o) → write_chunk ram pread p start end_ s = (Ok n, s') →
  ready logs s' ∧ steady s s' ∧ right_in seen s' start end_ ∧
  ∀ o, 0 ≤ o → ¬ start ≤ o < end_ → l_file s' !! Z.to_nat o = l_file s !! Z.to_nat o.
Proof.
  intros Hr Hu Hp H0 H1 H2 Hsm Hem Hhole Hw. unfold write_chunk in Hw. pose proof Hr as (Hs & Hl & Hf).
  pose proof (length_pages_of p start end_ H0 H1 H2 Hsm Hem Hp) as Hpl. set (pages := pages_of p start end_) in *.
  replace end_ with (start + (end_ - start)) by lia. destruct (forallb id pages).
  - eapply (write_nonzero_pages_ok logs seen knows_seen); [|lia..|done| |exact Hw].
    + apply (load_reads logs seen knows_seen); lia.
    + intros o Ho. apply Hhole. lia.
  - apply bind_ok in Hw as (bytes & s1 & Hb & Hw). apply bind_ok in Hw as (bytes' & s2 & Ho & Hw).
    destruct (read_untouched_op_ok s start (end_ - start) bytes s1 Hs Hl H0 ltac:(lia) Hb) as (Hc1 & Hbl & Hseen).
    assert (tracks (l_guest s) (l_guest s1)) as Ht1 by apply Hc1. assert (logs (l_guest s1)) as Hl1 by (by eapply logs_tracks).
    destruct (overlay_touched_ok start pages pages 0 bytes s1) as (bytes2 & s2' & Ho' & Hc2 & Hlen2 & Hok2);
      [by eapply step_sane|done|done|lia|done|lia| |].
    { split; [lia|]. intros i b Hi [?|Hpg]; [lia|]. apply Hseen; [done|].
      pose proof (untouched_ok_tracks p _ _ (proj1 Hl) Ht1 Hu) as Hu1. unfold pages in Hpg. rewrite lookup_pages_of in Hpg by done.
      case_decide; [|done]. apply Hu1 in Hpg. rewrite Nat2Z.inj_add, Z2Nat.id, page_of_nat in Hpg by (apply Z.div_pos; [lia|done]).
      by replace ((start + Z.of_nat i) / PAGE_SIZE) with (start / PAGE_SIZE + Z.of_nat i / PAGE_SIZE) by (unfold PAGE_SIZE in *; zlia). }
    rewrite Ho in Ho'. injection Ho' as <- <-. assert (calm s s2) as Hc by (by eapply step_trans).
    assert (buffered start bytes' (l_guest s2)) as Hbuf.
    { split; [eapply logs_tracks; [exact Hl1|apply Hc2]|]. intros i b Hi. apply Hok2; [done|]. left. apply lookup_lt_Some in Hi.
      apply Nat.div_lt_upper_bound; [pose proof page_n_Z as Hz; unfold PAGE_SIZE in Hz; lia|]. pose proof page_n_Z. lia. }
    destruct (write_nonzero_pages_ok (buffered start bytes') seen (knows_buffered start bytes' H0)
      (fun o n => done (slice (Z.to_nat o) (Z.to_nat n) bytes')) (end_ - start) start) with (s := s2) (n := n) (s' := s')
      as ((Hs' & [Hl' _] & Hf') & Hst & Hright & Hout); [apply buffer_reads; lia|lia..| | |done|].
    + split_and!; [by eapply step_sane|done|]. destruct Hc as (_ & _ & ->). done.
    + intros o Hoo. eapply (hole_steady logs seen knows_seen s); [lia|done|apply Hc|by destruct Hc as (_ & _ & ->)|apply Hhole; lia].
    + split; [done|]. split; [eapply step_trans; [apply calm_steady; exact Hc|done]|]. split; [done|].
      intros o Hoo Hno. rewrite Hout by done. by destruct Hc as (_ & _ & ->).
Qed.

(** Chunks are whole pages. *)
Context (chunk : Z).
Hypothesis (Hchunk : 0 < chunk) (Hchunk_pages : chunk mod PAGE_SIZE = 0).

Lemma ram_pages : ram mod PAGE_SIZE = 0.
Proof. apply Hram. Qed.

Lemma chunk_start_pages o : o mod chunk = 0 ∨ o = ram → o mod PAGE_SIZE = 0.
Proof.
  intros [Ho| ->]; [|apply ram_pages]. apply Z.mod_divide; [done|]. apply (Z.divide_trans _ chunk); apply Z.mod_divide; done || lia.
Qed.

Definition all_untouched (p : list bool) (from to : Z) : Prop :=
  ∀ q : nat, from / PAGE_SIZE ≤ Z.of_nat q < to / PAGE_SIZE → p !! q = Some false.

Lemma untouched_ok_chunk p at_ :
  0 ≤ at_ → at_ < ram → (at_ mod chunk = 0) → Z.of_nat (length p) = ram / PAGE_SIZE →
  untouched ram p chunk at_ = true → all_untouched p at_ (Z.min (at_ + chunk) ram).
Proof.
  intros H0 H1 Hm Hp Hu q Hq. unfold untouched in Hu. rewrite forallb_forall in Hu.
  assert (Z.min (at_ + chunk) ram / PAGE_SIZE ≤ ram / PAGE_SIZE) by (apply Z.div_le_mono; [done|lia]).
  destruct (lookup_lt_is_Some_2 p q) as [b Hb]; [lia|]. destruct b; [|done]. exfalso.
  assert (true ∈ pages_of p at_ (Z.min (at_ + chunk) ram)) as Hin.
  { apply (list_elem_of_lookup_2 _ (q - Z.to_nat (at_ / PAGE_SIZE))%nat). rewrite lookup_pages_of by done.
    assert (0 ≤ at_ / PAGE_SIZE) by (apply Z.div_pos; [lia|done]).
    rewrite decide_True by lia. by replace (Z.to_nat (at_ / PAGE_SIZE) + (q - Z.to_nat (at_ / PAGE_SIZE)))%nat with q by lia. }
  apply list_elem_of_In, Hu in Hin. done.
Qed.

Lemma untouched_run_ok p start (m : nat) : ∀ cur,
  ram - cur ≤ Z.of_nat m → 0 ≤ cur → cur ≤ ram → (cur mod chunk = 0 ∨ cur = ram) → start ≤ cur → Z.of_nat (length p) = ram / PAGE_SIZE →
  all_untouched p start cur →
  let e := untouched_run ram p chunk start (step_by cur ram chunk) cur in
  cur ≤ e ≤ ram ∧ (e mod chunk = 0 ∨ e = ram) ∧ all_untouched p start e ∧ (e = cur ∨ Z.min (cur + chunk) ram ≤ e).
Proof.
  induction m as [|m IH]; intros cur Hm H0 Hle Hmod Hst Hp Hall; simpl;
    (destruct (Z.eq_dec cur ram) as [->|Hne]; [rewrite step_by_nil by lia; simpl; split_and!; auto; lia|]); [lia|].
  assert (cur mod chunk = 0) as Hcm by (by destruct Hmod). rewrite step_by_cons by lia. cbn [untouched_run].
  destruct (_ && _) eqn:E; [|split_and!; auto; lia]. bool_to_prop.
  set (cur' := Z.min (cur + chunk) ram) in *. assert (cur' = Z.min (cur + chunk) ram) as Hcur' by done.
  assert (cur' mod chunk = 0 ∨ cur' = ram) as Hmod'.
  { destruct (Z.le_gt_cases (cur + chunk) ram); [left|right; lia]. unfold cur'. rewrite Z.min_l by lia.
    replace (cur + chunk) with (cur + 1 * chunk) by lia. by rewrite Z.mod_add by lia. }
  assert (step_by (cur + chunk) ram chunk = step_by cur' ram chunk) as ->.
  { destruct (Z.le_gt_cases (cur + chunk) ram); [unfold cur'; by rewrite Z.min_l by lia|]. rewrite !step_by_nil by lia. done. }
  destruct (IH cur') as (? & ? & ? & ?); [lia|lia|lia|done|lia|done| |].
  - intros q Hq. destruct (Z.lt_ge_cases (Z.of_nat q) (cur / PAGE_SIZE)); [apply Hall; lia|].
    apply (untouched_ok_chunk p cur); [lia|lia|done|done|done|]. fold cur'. lia.
  - split_and!; [lia|lia|done|done|right; lia].
Qed.

Lemma snap_seen (g : Guest) l o b :
  g_lazy g = Some l → 0 ≤ o → fresh_page g (o / PAGE_SIZE) → is_discarded (discarded_pages (lp_hook l)) (o / PAGE_SIZE) = false →
  snap !! Z.to_nat o = Some b → seen g o b.
Proof.
  intros Hl Ho Hf Hd Hb. eapply fresh_seen; [done|done|done|]. unfold fresh. rewrite Hd. unfold snap_page. pose proof page_n_Z.
  assert (0 ≤ o / PAGE_SIZE) by (apply Z.div_pos; [lia|done]). rewrite lookup_slice, decide_True by (unfold PAGE_SIZE in *; zlia).
  rewrite <- Hb. f_equal. unfold PAGE_SIZE in *. zlia.
Qed.

Lemma clone_op_ok p s start e outcome s' :
  ready logs s → untouched_ok p (l_guest s) → 0 ≤ start → start ≤ e → e ≤ ram → start mod PAGE_SIZE = 0 → e mod PAGE_SIZE = 0 →
  all_untouched p start e → (∀ o, start ≤ o < e → l_file s !! Z.to_nat o = Some 0) →
  clone_untouched_op ram pread ficlonerange start (e - start) start s = (Ok outcome, s') →
  ready logs s' ∧ steady s s' ∧
  (∀ o, 0 ≤ o → ¬ start ≤ o < e → l_file s' !! Z.to_nat o = l_file s !! Z.to_nat o) ∧
  (outcome = Cloned → right_in seen s' start e) ∧ (outcome = NotThisRange → l_file s' = l_file s) ∧
  ∀ o, start ≤ o < e → hole_at seen s' o.
Proof.
  intros Hr Hu H0 H1 H2 Hsm Hem Hall Hzero Hop. unfold clone_untouched_op in Hop. pose proof Hr as (Hs & Hl & Hf).
  apply bind_ok in Hop as (u & s1 & Hi & Hop). apply bind_ok in Hop as (g & s2 & [= <- <-] & Hop).
  assert (calm s s1) as Hc by (by eapply within_ok; [apply interfere_calm| |]). pose proof (ready_calm _ _ knows_seen _ _ Hr Hc) as (Hs1 & Hl1 & Hf1).
  pose proof (untouched_ok_tracks p _ _ (proj1 Hl) (b_tracks _ _ _ _ (proj1 Hc)) Hu) as Hu1. pose proof Hc as (Hb1 & Hc1 & Hfile1).
  destruct (g_lazy (l_guest s1)) as [l|] eqn:Hlz; [|done]. destruct (sane_lazy _ _ _ Hs1 l Hlz) as (Hwf & Hgen & Hglen & _).
  destruct (clone_untouched pread ficlonerange (lp_hook l) start (e - start) (l_file s1) start) as [r f] eqn:Hcl.
  destruct r as [o0|]; [|done]. injection Hop as -> <-.
  assert (∀ o n bs, source_integrity (source (lp_hook l)) = None → 0 ≤ o → 0 ≤ n → o + n ≤ guest_len (lp_hook l) →
    pread (source_offset (source (lp_hook l)) + o) n = Some bs → bs = slice (Z.to_nat o) (Z.to_nat n) snap) as Hread'
    by (rewrite (proj2 Hl1 l Hlz), Hglen; exact Hread).
  assert (∀ dest a n at_ dest', 0 ≤ a → 0 ≤ n → a + n ≤ guest_len (lp_hook l) → 0 ≤ at_ →
    ficlonerange dest (source_offset (source (lp_hook l)) + a) n at_ = Some dest' →
    length dest' = length dest ∧ ∀ x : Z, 0 ≤ x < Z.of_nat (length dest) →
    dest' !! Z.to_nat x = if decide (at_ ≤ x < at_ + n) then snap !! Z.to_nat (a + (x - at_)) else dest !! Z.to_nat x) as Hclone'
    by (rewrite (proj2 Hl1 l Hlz), Hglen; exact Hclone).
  destruct (clone_untouched_any (lp_hook l) snap pread Hwf Hgen Hread' ficlonerange Hclone' start (e - start) (l_file s1) start (Ok outcome) f)
    as (Hflen & Hnot & Hx); [lia..|done|done|].
  assert (∀ o, start ≤ o < e → is_discarded (discarded_pages (lp_hook l)) (o / PAGE_SIZE) = false → f !! Z.to_nat o = snap !! Z.to_nat o →
    right_at seen (on_file (fun _ => f) s1) o) as Hright.
  { intros o Ho Hd Hfo. destruct (lookup_lt_is_Some_2 snap (Z.to_nat o)) as [b Hb]; [pose proof (gen_length _ _ Hgen); lia|].
    exists b. simpl. rewrite Hfo. split; [done|]. eapply snap_seen; [done|lia| |done|done].
    assert (0 ≤ o / PAGE_SIZE) by (apply Z.div_pos; [lia|done]). rewrite <- (Z2Nat.id (o / PAGE_SIZE)) by done. apply Hu1, Hall.
    rewrite Z2Nat.id by done. unfold PAGE_SIZE in *. zlia. }
  split; [split_and!; [done|done|simpl; lia]|]. split; [by split|]. split_and!.
  - intros o Ho Hno. simpl. destruct (Z.lt_ge_cases o ram).
    + destruct (Hx o ltac:(lia)) as [->|(? & _)]; [by rewrite Hfile1|lia].
    + rewrite !lookup_ge_None_2 by lia. done.
  - intros ->. intros o Ho.
    destruct (clone_untouched_fresh (lp_hook l) snap pread Hwf Hgen Hread' ficlonerange Hclone' start (e - start) (l_file s1) start f)
      as (_ & _ & Hbytes & Hnd); [lia..|done| |done|].
    { intros x Hx0. rewrite Hfile1. apply Hzero. lia. }
    apply Hright; [done| |].
    + apply Hnd. replace (start + (e - start)) with e by lia. unfold PAGE_SIZE in *. zlia.
    + rewrite Hbytes, decide_True by lia. f_equal. lia.
  - intros ->. simpl. rewrite Hnot by done. done.
  - intros o Ho. destruct (Hx o ltac:(lia)) as [Heq|(_ & Heq & Hd)].
    + left. simpl. rewrite Heq, Hfile1. by apply Hzero.
    + right. replace (start + (o - start)) with o in * by lia. by apply Hright.
Qed.

(** What the loop over the chunks has done before [start]. *)
Definition chunks_done (p : list bool) (start : Z) (cloning : bool) s : Prop :=
  ready logs s ∧ untouched_ok p (l_guest s) ∧ right_in seen s 0 start ∧
  (∀ o, start ≤ o < ram → hole_at seen s o) ∧
  (cloning = true → ∀ o, start ≤ o < ram → l_file s !! Z.to_nat o = Some 0).

Lemma chunks_calm p start cloning s s' : 0 ≤ start → chunks_done p start cloning s → calm s s' → chunks_done p start cloning s'.
Proof.
  intros H0 (Hr & Hu & Hright & Hhole & Hz) Hc. pose proof Hr as (_ & Hl & _). pose proof Hc as (Hb & _ & Hf). split_and!.
  - by eapply (ready_calm logs seen knows_seen).
  - eapply untouched_ok_tracks; [apply Hl|apply Hb|done].
  - eapply (right_steady logs seen knows_seen); [done|exact Hl|done|by rewrite Hf|done].
  - intros o Ho. eapply (hole_steady logs seen knows_seen); [lia|exact Hl|done|by rewrite Hf|by apply Hhole].
  - rewrite Hf. done.
Qed.

(** A step that wrote the range up to [e] and left the rest. *)
Lemma chunks_advance p start e cloning cloning' s s' :
  0 ≤ start → start ≤ e → (cloning' = true → cloning = true) → chunks_done p start cloning s →
  ready logs s' → steady s s' → right_in seen s' start e →
  (∀ o, 0 ≤ o → ¬ start ≤ o < e → l_file s' !! Z.to_nat o = l_file s !! Z.to_nat o) → chunks_done p e cloning' s'.
Proof.
  intros H0 H1 Hcl ((_ & Hl & _) & Hu & Hright & Hhole & Hz) Hr' [Hb _] Hnew Hout. split_and!; [done| | | |].
  - eapply untouched_ok_tracks; [apply Hl|apply Hb|done].
  - intros o Ho. destruct (Z.lt_ge_cases o start); [|apply Hnew; lia].
    eapply (right_at_steady logs seen knows_seen); [lia|exact Hl|done|apply Hout; lia|apply Hright; lia].
  - intros o Ho. eapply (hole_steady logs seen knows_seen); [lia|exact Hl|done|apply Hout; lia|apply Hhole; lia].
  - intros Hc o Ho. rewrite Hout by lia. apply Hz; [auto|lia].
Qed.

Lemma clone_run_end_ok p start cloning :
  0 ≤ start → start ≤ ram → (start mod chunk = 0 ∨ start = ram) → Z.of_nat (length p) = ram / PAGE_SIZE →
  let e := clone_run_end ram p chunk start cloning in
  start ≤ e ≤ ram ∧ (e mod chunk = 0 ∨ e = ram) ∧ (start < e → cloning = true ∧ all_untouched p start e ∧ Z.min (start + chunk) ram ≤ e).
Proof.
  intros H0 Hle Hmod Hp. unfold clone_run_end. destruct cloning; [|split_and!; auto; lia].
  destruct (untouched_run_ok p start (Z.to_nat (ram - start)) start) as (? & ? & ? & ?); try done; [lia|intros q Hq; lia|].
  split; [done|]. split; [done|]. intros ?. split_and!; [done|done|lia].
Qed.

(** After the attempt either the run is done, or nothing before the chunk
    has changed. *)
Lemma try_clone_ok p start e t cloning s outcome t' s1 :
  0 ≤ start → e ≤ ram → start mod PAGE_SIZE = 0 → e mod PAGE_SIZE = 0 →
  (start < e → cloning = true ∧ all_untouched p start e) → chunks_done p start cloning s →
  try_clone ram pread ficlonerange start e t s = (Ok (outcome, t'), s1) →
  steady s s1 ∧
  match outcome with
  | Some Cloned => start < e ∧ chunks_done p e cloning s1
  | Some Unsupported => chunks_done p start false s1
  | _ => chunks_done p start cloning s1
  end.
Proof.
  intros H0 Hle Hsm Hem Hrun Hd Htry. unfold try_clone in Htry. assert (sane (l_guest s)) as Hs by apply Hd.
  destruct (start <? e) eqn:Er; bool_to_prop; [|injection Htry as <- <- <-; split; [by apply step_refl|done]].
  destruct (Hrun Er) as [-> Hall].
  apply bind_ok in Htry as (t0 & s2 & Hn & Htry). apply bind_ok in Htry as (o & s3 & Hc & Htry). apply bind_ok in Htry as (t1 & s4 & Hel & [= <- <- <-]).
  assert (calm s s2) as Hc2 by (by eapply within_ok; [apply now_calm| |]). pose proof (chunks_calm _ _ _ _ _ H0 Hd Hc2) as Hd2.
  pose proof Hd2 as (Hr2 & Hu2 & Hright2 & Hhole2 & Hz2).
  destruct (clone_op_ok p s2 start e o s3 Hr2 Hu2) as (Hr3 & Hst3 & Hout3 & Hcloned & Hnot & Hhole3); try done; [lia| |].
  { intros x Hx. apply Hz2; [done|lia]. }
  assert (calm s3 s4) as Hc4 by (eapply within_ok; [apply elapsed_calm|apply Hr3|done]).
  split; [eapply step_trans; [by apply calm_steady|]; eapply step_trans; [done|by apply calm_steady]|].
  assert (∀ cl, (cl = true → o = NotThisRange) → chunks_done p start cl s3) as Hstay.
  { intros cl Hcl. pose proof Hr2 as (_ & Hl2 & _). pose proof (proj1 Hst3) as Hb3. split_and!; [apply Hr3..| | | |].
    - eapply untouched_ok_tracks; [apply Hl2|apply Hb3|done].
    - eapply (right_steady logs seen knows_seen); [done|exact Hl2|done|intros x Hx; apply Hout3; lia|done].
    - intros x Hx. destruct (Z.lt_ge_cases x e); [apply Hhole3; lia|].
      eapply (hole_steady logs seen knows_seen); [lia|exact Hl2|done|apply Hout3; lia|apply Hhole2; lia].
    - intros Ht x Hx. rewrite (Hnot (Hcl Ht)). apply Hz2; [done|lia]. }
  destruct o; [split; [done|]|..]; (eapply chunks_calm; [|..|exact Hc4]; [lia|]); [|by apply Hstay..].
  eapply chunks_advance; [exact H0| |exact (fun H => H)|exact Hd2|done|done|by apply Hcloned|done]. lia.
Qed.

Lemma lazy_chunks_ok (fuel : nat) : ∀ p start cloning w t s r s',
  0 ≤ start → start ≤ ram → (start mod chunk = 0 ∨ start = ram) → Z.of_nat (length p) = ram / PAGE_SIZE → chunks_done p start cloning s →
  lazy_chunks ram pread ficlonerange fuel p chunk start cloning w t s = (Ok r, s') →
  ready logs s' ∧ steady s s' ∧ right_in seen s' 0 ram.
Proof.
  assert (∀ p start cloning s s', ram ≤ start → start ≤ ram → chunks_done p start cloning s → s' = s →
    ready logs s' ∧ steady s s' ∧ right_in seen s' 0 ram) as Hend.
  { intros p start cloning s s' H1 H2 (Hr & _ & Hright & _) ->. replace start with ram in Hright by lia.
    split; [done|]. split; [|done]. apply step_refl. apply Hr. }
  induction fuel as [|fuel IH]; intros p start cloning w t s r s' H0 Hle Hmod Hp Hd Hw; cbn [lazy_chunks] in Hw;
    (destruct (ram <=? start) eqn:Ed; bool_to_prop; [injection Hw as <- <-; by eapply Hend|]); [done|].
  destruct (clone_run_end_ok p start cloning H0 Hle Hmod Hp) as (Hre & Hrm & Hrun). set (re := clone_run_end ram p chunk start cloning) in *.
  apply bind_ok in Hw as ([outcome t'] & s1 & Htry & Hw).
  destruct (try_clone_ok p start re t cloning s outcome t' s1) as [Hst1 Hd1]; try done; [lia|by apply chunk_start_pages..|naive_solver|].
  set (e := Z.min (start + chunk) ram) in *. assert (e = Z.min (start + chunk) ram) as He by done.
  assert (e mod chunk = 0 ∨ e = ram) as Hem.
  { destruct Hmod as [Hmod|]; [|lia]. destruct (Z.le_gt_cases (start + chunk) ram); [left|right; lia]. rewrite He, Z.min_l by lia.
    replace (start + chunk) with (start + 1 * chunk) by lia. by rewrite Z.mod_add by lia. }
  assert (∀ cl, chunks_done p start cl s1 → ∀ w' s3, write_chunk ram pread p start e s1 = (Ok w', s3) →
    lazy_chunks ram pread ficlonerange fuel p chunk e cl (w + w') t' s3 = (Ok r, s') → ready logs s' ∧ steady s s' ∧ right_in seen s' 0 ram) as Hgo.
  { intros cl Hds w' s3 Hwc Hrest. pose proof Hds as (Hr1 & Hu1 & _ & Hhole1 & _).
    destruct (write_chunk_ok p s1 start e w' s3 Hr1 Hu1 Hp H0) as (Hr3 & Hst & Hright3 & Hout3); try done; [lia|lia|by apply chunk_start_pages..| |].
    { intros o Ho. apply Hhole1. lia. }
    destruct (IH p e cl (w + w') t' s3 r s') as (? & ? & ?); try done; [lia|lia| |].
    { eapply chunks_advance; [exact H0| |exact (fun H => H)|exact Hds|done|done|done|done]. lia. }
    split; [done|]. split; [|done]. eapply step_trans; [done|]. by eapply step_trans. }
  destruct outcome as [[]|]; simpl in Hw; [|apply bind_ok in Hw as (w' & s3 & Hwc & Hw); by eapply Hgo..].
  destruct Hd1 as [_ Hd1]. destruct (IH p re cloning w t' s1 r s') as (? & ? & ?); try done; [lia|lia|].
  split; [done|]. split; [by eapply step_trans|done].
Qed.

Lemma write_lazy_restored_pages_ok s r s' :
  ready logs s → (∀ o, 0 ≤ o < ram → l_file s !! Z.to_nat o = Some 0) →
  write_lazy_restored_pages ram pread ficlonerange chunk s = (Ok r, s') →
  ready logs s' ∧ steady s s' ∧ right_in seen s' 0 ram.
Proof.
  intros Hr Hz Hw. apply bind_ok in Hw as (p & s1 & Hp & Hw). pose proof Hr as (Hs & _).
  destruct (populated_pages_ok s p s1 Hs Hp) as (Hc & Hu & Hlen & _). pose proof Hc as (_ & _ & Hf).
  edestruct lazy_chunks_ok with (6 := Hw) as (? & ? & ?); [lia|destruct Hram; lia|by left|done| |].
  { split; [by eapply (ready_calm logs seen knows_seen)|]. split; [done|]. split; [intros o Ho; lia|].
    rewrite Hf. split; [|intros _ o Ho; by apply Hz]. intros o Ho. left. rewrite Hf. by apply Hz. }
  split; [done|]. split; [|done]. eapply step_trans; [by apply calm_steady|done].
Qed.

End lazy.
End executor.
