(* ===== verification/LiveSnapProof.v ===== *)
(** * Live snapshots: the image is a coherent cut

    On the copying operations of [LiveCopy], the phases of the executor and
    its theorems: the image of a snapshot that succeeds is the guest's memory
    at the moment its state was captured ([live_snapshot_coherent]), no dirty
    page is lost whether it succeeds or fails ([live_snapshot_loses_nothing]),
    and processors never run while the device workers may not
    ([live_snapshot_fails_closed]). *)

From S2P Require Import Prelude Dirty GuestMem FileRanges GuestRam KvmLog Lazy LazyProof Migration LiveSnap LiveGuest LiveCopy.

Section phases.
Context {V R D : Type} `{!KvmVm V} `{!KvmLaws V} `{!Sha256} (ram : Z) (snap : list Z).
Hypothesis (Hram : ram_size ram).
Notation Guest := (Guest V R D).
Notation Live := (Live V R D).
Implicit Types (s : Live).
Notation sane := (sane ram snap).
Notation beside := (beside ram snap).
Notation tracks := (tracks ram snap).
Notation dirty := (dirty ram).
Notation within := (within (V:=V) (R:=R) (D:=D) ram snap).
Notation follows := (follows (V:=V) (R:=R) (D:=D) ram snap).
Notation steady := (steady (V:=V) (R:=R) (D:=D) ram snap).
Notation calm := (calm (V:=V) (R:=R) (D:=D) ram snap).

(** ** Stopping and resuming *)

(** What stopping and resuming processors and workers can change. *)
Definition quiet s s' : Prop := tracks (l_guest s) (l_guest s') ∧ l_consumed s' = l_consumed s ∧ l_file s' = l_file s.

#[local] Instance quiet_rel : StepRel ram snap quiet.
Proof.
  split.
  - intros s Hs. split; [by apply tracks_refl|done].
  - intros s1 s2 s3 (? & ? & ?) (? & ? & ?). split; [by eapply tracks_trans|split; congruence].
  - intros s s' [Ht _]. apply Ht.
Qed.

Lemma calm_quiet s s' : calm s s' → quiet s s'.
Proof. intros ([] & ? & ?). by split. Qed.

Lemma quiet_follows s s' : quiet s s' → follows s s'.
Proof. intros (? & ? & _). by split. Qed.

#[local] Hint Extern 1 (LiveCopy.within _ _ quiet _) => eapply within_mono; [exact calm_quiet|] : live.
#[local] Hint Resolve interfere_calm answer_calm now_calm elapsed_calm sync_data_calm : live.

(** ... with the workers left as they are. *)
Definition paced s s' : Prop := quiet s s' ∧ g_io (l_guest s') = g_io (l_guest s).

#[local] Instance paced_rel : StepRel ram snap paced.
Proof.
  split.
  - intros s Hs. split; [by apply step_refl|done].
  - intros s1 s2 s3 [? ?] [? ?]. split; [by eapply step_trans|congruence].
  - intros s s' [Hq _]. exact (step_sane _ _ Hq).
Qed.

Lemma calm_paced s s' : calm s s' → paced s s'.
Proof. intros Hc. split; [by apply calm_quiet|]. apply (b_io _ _ _ _ (proj1 Hc)). Qed.

Lemma paced_quiet s s' : paced s s' → quiet s s'.
Proof. by intros [? _]. Qed.

#[local] Hint Extern 1 (LiveCopy.within _ _ paced _) => eapply within_mono; [exact calm_paced|] : live.
#[local] Hint Extern 2 (LiveCopy.within _ _ quiet _) => eapply within_mono; [exact paced_quiet|] : live.

Lemma update_vcpu_paced i (f : Vcpu R → Vcpu R) :
  (∀ (g : Guest) v, vcpu_ok g i v → vcpu_ok g i (f v)) → within paced (update (fun g => with_vcpu g i f)).
Proof.
  intros Hf s Hs. split; [|done]. split; [|done]. apply with_vcpu_tracks; [done|]. intros v Hv. apply Hf. by eapply sane_vcpu.
Qed.

Lemma vcpu_paced i k : (∀ v, within paced (k v)) → within paced (vcpu i k).
Proof. intros Hk. unfold vcpu. within_steps. Qed.

Lemma request_snapshot_pause_paced i : within paced (request_snapshot_pause ram i).
Proof.
  unfold request_snapshot_pause. within_steps. apply vcpu_paced. intros v. within_steps.
  apply update_vcpu_paced. intros g w _ _ r Hr. done.
Qed.

Lemma wait_snapshot_paused_paced i : within paced (wait_snapshot_paused ram i).
Proof.
  unfold wait_snapshot_paused. within_steps. apply vcpu_paced. intros v. within_steps.
  by apply update_vcpu_paced.
Qed.

Lemma resume_vcpu_paced i : within paced (resume_vcpu ram i).
Proof. unfold resume_vcpu. within_steps. by apply update_vcpu_paced. Qed.

Lemma wait_snapshot_resumed_paced i : within paced (wait_snapshot_resumed ram i).
Proof.
  unfold wait_snapshot_resumed. within_steps. apply vcpu_paced. intros v. within_steps.
  by apply update_vcpu_paced.
Qed.

#[local] Hint Resolve request_snapshot_pause_paced wait_snapshot_paused_paced resume_vcpu_paced wait_snapshot_resumed_paced : live.

Lemma resume_all_paced : within paced (resume_all ram).
Proof. unfold resume_all, vcpu_threads. within_steps. Qed.
#[local] Hint Resolve resume_all_paced : live.

Lemma pause_all_paced : within paced (pause_all ram).
Proof. unfold pause_all, vcpu_threads, or_finish, finish_failed_vcpu_pause. within_steps. Qed.
#[local] Hint Resolve pause_all_paced : live.

Lemma with_io_tracks (g : Guest) io : sane g → tracks g (with_io g io).
Proof. intros [? ? ? ? ?]. split; [by split|done|apply same_part_refl|done|done|by left]. Qed.

Lemma foldl_mark_mono (l : list (option nat * Z * Z)) : ∀ h q,
  q ∈ DirtyBitmap.dirty h → q ∈ DirtyBitmap.dirty (foldl (fun h e => SoftwareDirtyBitmap.mark_range h e.1.2 e.2) h l).
Proof. induction l as [|e l IH]; [done|]. intros h q Hq. simpl. by apply IH, host_mark_mono. Qed.

Lemma foldl_mark_covers (l : list (option nat * Z * Z)) : ∀ h e q,
  (∀ e, e ∈ l → 0 ≤ e.1.2 ∧ 0 ≤ e.2 ∧ e.1.2 + e.2 ≤ ram) → e ∈ l → entry_covers e q →
  q ∈ DirtyBitmap.dirty (foldl (fun h e => SoftwareDirtyBitmap.mark_range h e.1.2 e.2) h l).
Proof.
  induction l as [|x l IH]; intros h e q Hr He Hq; [by apply not_elem_of_nil in He|]. simpl.
  apply elem_of_cons in He as [->|He]; [|eapply IH; [|done..]; intros y Hy; apply Hr; by right].
  destruct (Hr x) as (? & ? & ?); [by left|]. by eapply foldl_mark_mono, host_mark_covers.
Qed.

Lemma flush_marks_beside (g : Guest) : sane g → beside g (flush_marks g).
Proof.
  intros Hs. apply marked_beside; [done|done| | |].
  - intros e [_ ?]%list_elem_of_filter. done.
  - intros q. apply foldl_mark_mono.
  - intros e q He Hq. destruct (decide (e.1.1 = None)) as [Hn|Hn]; [left|right; by apply list_elem_of_filter].
    eapply foldl_mark_covers; [|by apply list_elem_of_filter|done]. intros x [_ Hx]%list_elem_of_filter. by eapply sane_range.
Qed.

Lemma quiesce_io_quiet park : within quiet (quiesce_io ram park).
Proof.
  unfold quiesce_io. within_steps. intros s Hs. destruct (pop _ _) as [[u|e] rest]; cbn [snd].
  - split; [|done]. simpl. destruct park; [|by apply with_io_tracks].
    pose proof (flush_marks_beside (l_guest s) Hs) as [Ht]. eapply tracks_trans; [exact Ht|]. apply with_io_tracks, Ht.
  - split; [|done]. by apply with_io_tracks.
Qed.
#[local] Hint Resolve quiesce_io_quiet : live.

Lemma finish_final_stop_quiet {T : Type} (r : result T LiveError) : within quiet (finish_final_stop ram r).
Proof. unfold finish_final_stop. within_steps. Qed.
#[local] Hint Resolve finish_final_stop_quiet : live.

(** ** Copying, whatever its result *)

Lemma load_bytes_calm n : ∀ off, within calm (load_bytes ram off n).
Proof.
  induction n as [|n IH]; intros off s Hs; cbn [load_bytes]; [by apply step_refl|].
  set (s1 := on_guest _ _). assert (calm s s1) as Hc1.
  { pose proof (before_byte_calm _ _ Hram s Hs) as Hb. eapply step_trans; [exact Hb|].
    split; [apply fault_in_beside; by apply Hb|done]. }
  pose proof (step_sane _ _ Hc1) as Hs1. specialize (IH (off + 1) s1 Hs1).
  destruct (load_bytes ram (off + 1) n s1) as [[bs|e] s2]; by eapply step_trans.
Qed.

Lemma load_calm off n : within calm (load ram off n).
Proof. apply load_bytes_calm. Qed.
#[local] Hint Resolve load_calm write_all_at_steady read_untouched_op_calm populated_pages_calm : live.

Lemma copy_page_run_steady a e : within steady (copy_page_run ram a e).
Proof. unfold copy_page_run, ok_or_memory. within_steps. Qed.
#[local] Hint Resolve copy_page_run_steady : live.

Lemma copy_runs_steady pfns : ∀ run e c, within steady (copy_runs ram pfns run e c).
Proof. induction pfns as [|p pfns IH]; intros run e c; simpl; within_steps. Qed.

Lemma copy_dirty_pages_steady b : within steady (copy_dirty_pages ram b).
Proof. apply copy_runs_steady. Qed.

Lemma write_runs_steady source len at_ starts :
  (∀ o n, within calm (source o n)) → ∀ run w, within steady (write_runs ram source len at_ starts run w).
Proof.
  intros Hs. assert (∀ a b, within steady (write_source ram source at_ a b)) as Hw by (intros; unfold write_source; within_steps).
  induction starts as [|p l IH]; intros run w; simpl; within_steps.
Qed.

Lemma write_nonzero_pages_steady source len at_ :
  (∀ o n, within calm (source o n)) → within steady (write_nonzero_pages ram source len at_).
Proof. intros Hs. by apply write_runs_steady. Qed.

Context (pread : Z → Z → option (list Z)) (ficlonerange : list Z → Z → Z → Z → option (list Z)).

Lemma overlay_touched_calm start touched : ∀ k bytes, within calm (overlay_touched ram start touched k bytes).
Proof. induction touched as [|t touched IH]; intros k bytes; simpl; within_steps. Qed.
#[local] Hint Resolve overlay_touched_calm : live.

Lemma write_chunk_steady p start e : within steady (write_chunk ram pread p start e).
Proof.
  unfold write_chunk. within_steps; apply write_nonzero_pages_steady; intros; within_steps.
Qed.

Lemma try_clone_steady start e t : within steady (try_clone ram pread ficlonerange start e t).
Proof.
  unfold try_clone, clone_untouched_op. within_steps. intros s Hs.
  destruct (clone_untouched _ _ _ _ _ _ _) as [r f]. split; [by apply beside_refl|done].
Qed.
#[local] Hint Resolve write_chunk_steady try_clone_steady : live.

Lemma lazy_chunks_steady fuel p chunk : ∀ start cl w t, within steady (lazy_chunks ram pread ficlonerange fuel p chunk start cl w t).
Proof. induction fuel as [|fuel IH]; intros start cl w t; cbn [lazy_chunks]; within_steps. Qed.
#[local] Hint Resolve lazy_chunks_steady : live.

Lemma bulk_steady : within steady (bulk ram pread ficlonerange).
Proof.
  unfold bulk, write_lazy_restored_pages. within_steps. apply write_nonzero_pages_steady. intros; within_steps.
Qed.

Lemma with_fence_beside (g : Guest) b : sane g → beside g (with_fence g b).
Proof.
  intros [? ? ? ? ?]. split; try done.
  split; [by split|done|apply same_part_refl|done|done|by left].
Qed.

Lemma update_fence_calm (f : Guest → bool) : within calm (update (fun g => with_fence g (f g))).
Proof. intros s Hs. split; [by apply with_fence_beside|done]. Qed.

Lemma fenced_steady {A} (c : op Live A) : within steady c → within steady (fenced ram c).
Proof.
  intros Hc. unfold fenced. within_steps; (eapply within_mono; [exact (calm_steady _ _)|]).
  - apply (update_fence_calm (fun g => match g_lazy g with Some _ => true | None => false end)).
  - apply (update_fence_calm (fun _ => false)).
Qed.

Lemma fenced_ok {A} (c : op Live A) s a s' :
  sane (l_guest s) → within steady c → fenced ram c s = (Ok a, s') →
  ∃ s1 s2, calm s s1 ∧ c s1 = (Ok a, s2) ∧ calm s2 s'.
Proof.
  intros Hs Hc Hf. apply bind_ok in Hf as (u & s1 & H1 & Hf). apply bind_ok in Hf as (u2 & s2 & H2 & Hf).
  apply bind_ok in Hf as (r & s3 & H3 & Hf). apply bind_ok in Hf as (u4 & s4 & H4 & [= -> <-]).
  assert (calm s s1) as C1 by (by eapply within_ok; [apply interfere_calm| |]).
  assert (calm s1 s2) as C2.
  { eapply (within_ok _ _ _ _ _ _ _ (update_fence_calm (fun g => match g_lazy g with Some _ => true | None => false end)));
      [exact (step_sane _ _ C1)|exact H2]. }
  unfold attempt in H3. destruct (c s2) as [r s3'] eqn:E. injection H3 as -> ->. exists s2, s3. split; [by eapply step_trans|]. split; [done|].
  eapply (within_ok _ _ _ _ _ _ _ (update_fence_calm (fun _ => false))); [|exact H4].
  refine (step_sane (T:=steady) s2 s3 _). eapply within_ok; [exact Hc|exact (step_sane _ _ C2)|exact E].
Qed.

(** ** When every processor is parked *)

Definition held (g : Guest) (i : nat) : Prop := ∃ v, g_vcpus g !! i = Some v ∧ v_control v = true.

Lemma held_beside (g g' : Guest) i : beside g g' → held g i → held g' i.
Proof.
  intros Hb (v & Hv & Hc). pose proof (b_control _ _ _ _ Hb) as Heq. apply (f_equal (.!! i)) in Heq.
  rewrite !list_lookup_fmap, Hv in Heq. simpl in Heq. destruct (g_vcpus g' !! i) as [v'|] eqn:Hv'; [|done].
  injection Heq as Heq. exists v'. by rewrite Heq.
Qed.

Lemma parked_held (g : Guest) i : parked g i → held g i.
Proof. intros (v & ? & ? & _). by exists v. Qed.

Lemma interfere_ok s u s' : sane (l_guest s) → interfere ram s = (Ok u, s') → calm s s'.
Proof. intros Hs Hi. by eapply within_ok; [apply interfere_calm| |]. Qed.

Lemma vcpu_ok_inv i (k : Vcpu R → op Live unit) s u s' :
  vcpu i k s = (Ok u, s') → ∃ v, g_vcpus (l_guest s) !! i = Some v ∧ k v s = (Ok u, s').
Proof.
  intros Hv. apply bind_ok in Hv as (g & s1 & [= <- <-] & Hv). destruct (g_vcpus (l_guest s) !! i) as [v|]; [|done]. eauto.
Qed.

Lemma request_snapshot_pause_ok s i u s' :
  sane (l_guest s) → request_snapshot_pause ram i s = (Ok u, s') → held (l_guest s') i ∧ ∀ j, held (l_guest s) j → held (l_guest s') j.
Proof.
  intros Hs Hr. apply bind_ok in Hr as (u1 & s1 & H1 & Hr). apply interfere_ok in H1 as (Hb & _); [|done].
  apply vcpu_ok_inv in Hr as (v & Hv & Hr). destruct (_ || _); [done|]. injection Hr as <- <-. simpl. split.
  - exists (set_control true (set_captured None v)). simpl. rewrite list_lookup_alter_eq, Hv. done.
  - intros j Hj. apply (held_beside _ _ _ Hb) in Hj as (w & Hw & Hc). destruct (decide (i = j)) as [<-|Hne].
    + exists (set_control true (set_captured None v)). simpl. rewrite list_lookup_alter_eq, Hv. done.
    + exists w. simpl. by rewrite list_lookup_alter_ne.
Qed.

Lemma wait_snapshot_paused_ok s i u s' :
  sane (l_guest s) → held (l_guest s) i → wait_snapshot_paused ram i s = (Ok u, s') → calm s s' ∧ parked (l_guest s') i.
Proof.
  intros Hs Hh Hw. apply bind_ok in Hw as (u1 & s1 & H1 & Hw). apply interfere_ok in H1 as Hc1; [|done]. pose proof Hc1 as (Hb & _).
  apply vcpu_ok_inv in Hw as (v & Hv & Hw).
  destruct (v_paused v) eqn:Ep; cbn [negb] in Hw; [|by destruct (v_exited v || negb (v_alive v))].
  destruct (v_exited v); [done|]. destruct (v_captured v) as [r|] eqn:Ec; [|done]. injection Hw as <- <-. split; [done|].
  destruct (held_beside _ _ _ Hb Hh) as (w & Hw & Hctl). assert (w = v) as -> by congruence.
  destruct (sane_vcpu _ _ _ (t_sane _ _ _ _ (b_tracks _ _ _ _ Hb)) i v Hv Hctl r Ec) as (-> & _ & ?). by exists v.
Qed.

Lemma each_request_ok ids : ∀ s u s',
  sane (l_guest s) → each (request_snapshot_pause ram) ids s = (Ok u, s') →
  ∀ i, i ∈ ids ∨ held (l_guest s) i → held (l_guest s') i.
Proof.
  induction ids as [|j ids IH]; intros s u s' Hs He i Hi; simpl in He.
  - injection He as <- <-. destruct Hi as [[]%not_elem_of_nil|]; done.
  - apply bind_ok in He as (u1 & s1 & H1 & He). destruct (request_snapshot_pause_ok _ _ _ _ Hs H1) as [Hj Hkeep].
    assert (quiet s s1) as Hq by (eapply within_ok; [apply (within_mono _ _ _ _ _ paced_quiet), request_snapshot_pause_paced|done|exact H1]).
    eapply IH; [exact (step_sane _ _ Hq)|exact He|]. rewrite elem_of_cons in Hi. destruct Hi as [[->|?]|?]; auto.
Qed.

Lemma each_wait_ok ids : ∀ s u s',
  sane (l_guest s) → (∀ i, i ∈ ids → held (l_guest s) i) → each (wait_snapshot_paused ram) ids s = (Ok u, s') →
  calm s s' ∧ ∀ i, i ∈ ids ∨ parked (l_guest s) i → parked (l_guest s') i.
Proof.
  induction ids as [|j ids IH]; intros s u s' Hs Hh He; simpl in He.
  - injection He as <- <-. split; [by apply step_refl|]. intros i [[]%not_elem_of_nil|]; done.
  - apply bind_ok in He as (u1 & s1 & H1 & He). destruct (wait_snapshot_paused_ok s j u1 s1) as [Hc Hj]; [done|apply Hh; by left|done|].
    pose proof Hc as (Hb & _). destruct (IH s1 u s' (step_sane _ _ Hc)) as [Hc' Hp].
    { intros i Hi. apply (held_beside _ _ _ Hb), Hh. by right. }
    { done. }
    split; [by eapply step_trans|]. intros i [[->|?]%elem_of_cons|?]; apply Hp; auto. right. by apply (b_parked _ _ _ _ Hb).
Qed.

Lemma pause_all_ok s u s' :
  sane (l_guest s) → pause_all ram s = (Ok u, s') → quiet s s' ∧ ∀ i, (i < length (g_vcpus (l_guest s')))%nat → parked (l_guest s') i.
Proof.
  intros Hs Hp. assert (quiet s s') as Hq by (eapply within_ok; [apply (within_mono _ _ _ _ _ paced_quiet), pause_all_paced|done|exact Hp]). split; [done|]. intros i Hi.
  apply bind_ok in Hp as (g & s0 & [= <- <-] & Hp). rewrite (t_vcpus _ _ _ _ (proj1 Hq)) in Hi.
  destruct (seq 0 (length (g_vcpus (l_guest s)))) as [|i0 ids] eqn:Hids; [done|]. rewrite <- Hids in Hp.
  apply bind_ok in Hp as (r & s1 & Hr & Hp). unfold attempt in Hr. destruct (op_bind _ _ s) as [r' s1'] eqn:Hc. injection Hr as <- <-.
  destruct r' as [u'|e].
  2: { apply bind_ok in Hp as (r & s2 & _ & Hp). by destruct r. }
  injection Hp as <- <-. apply bind_ok in Hc as (u1 & s2 & H1 & H2).
  assert (quiet s s2) as Hq2.
  { eapply within_ok; [apply within_each; [typeclasses eauto|intros j; apply (within_mono _ _ _ _ _ paced_quiet), request_snapshot_pause_paced]|done|exact H1]. }
  eapply each_wait_ok; [exact (step_sane _ _ Hq2)| |exact H2|left; apply elem_of_seq; lia].
  intros j Hj. eapply each_request_ok; [exact Hs|exact H1|by left].
Qed.

Lemma flush_marks_pending (g : Guest) :
  sane g → (∀ i, (i < length (g_vcpus g))%nat → parked g i) → g_pending (flush_marks g) = [].
Proof.
  intros Hs Hp. simpl. destruct (filter _ (g_pending g)) as [|e l] eqn:Hf; [done|].
  assert (e ∈ filter (fun e : option nat * Z * Z => e.1.1 ≠ None) (g_pending g)) as [Hn He]%list_elem_of_filter by (rewrite Hf; by left).
  destruct (e.1.1) as [i|] eqn:Ho; [|done]. destruct (Hp i) as (v & _ & _ & _ & _ & Hno); [by eapply sane_owner|].
  unfold no_pending_of in Hno. rewrite forallb_forall in Hno. specialize (Hno e ltac:(by apply list_elem_of_In)).
  rewrite Ho, bool_decide_eq_true_2 in Hno by done. done.
Qed.

Lemma quiesce_park_ok s u s' :
  sane (l_guest s) → (∀ i, (i < length (g_vcpus (l_guest s)))%nat → parked (l_guest s) i) → quiesce_io ram true s = (Ok u, s') →
  stopped (l_guest s').
Proof.
  intros Hs Hp Hq. apply bind_ok in Hq as (u1 & s1 & H1 & Hq). apply interfere_ok in H1 as ([Ht _ _ Hpk _ _] & _); [|done].
  destruct (pop _ _) as [[u2|e] rest]; [|done]. injection Hq as _ <-. simpl. pose proof (t_sane _ _ _ _ Ht) as Hs1.
  assert (∀ i, (i < length (g_vcpus (l_guest s1)))%nat → parked (l_guest s1) i) as Hp1.
  { intros i Hi. apply Hpk, Hp. by rewrite (t_vcpus _ _ _ _ Ht) in Hi. }
  split; [|split; [done|by apply (flush_marks_pending (l_guest s1))]].
  intros i Hi. exact (b_parked _ _ _ _ (flush_marks_beside _ Hs1) i (Hp1 i Hi)).
Qed.

(** ** Reading the dirty sets *)

(** What a step that takes the pages [X] out of the records keeps. *)
Record swept (X : Z → Prop) s s' : Prop := {
  sw_sane : sane (l_guest s');
  sw_file : l_file s' = l_file s;
  sw_consumed : l_consumed s' = l_consumed s;
  sw_source l' : g_lazy (l_guest s') = Some l' → ∃ l, g_lazy (l_guest s) = Some l ∧ source (lp_hook l') = source (lp_hook l);
  sw_logging sl : kvm_logging (g_kvm (l_guest s')) sl = kvm_logging (g_kvm (l_guest s)) sl;
  sw_io : g_io (l_guest s') = g_io (l_guest s);
  sw_vcpus : length (g_vcpus (l_guest s')) = length (g_vcpus (l_guest s));
  sw_parked i : parked (l_guest s) i → parked (l_guest s') i;
  sw_stopped : stopped (l_guest s) → stopped (l_guest s') ∧ g_mem (l_guest s') = g_mem (l_guest s);
  sw_dirty p : dirty (l_guest s) p → dirty (l_guest s') p ∨ X p;
  sw_mem : logging ram (l_guest s) → ∀ o, 0 ≤ o →
    g_mem (l_guest s') !! Z.to_nat o = g_mem (l_guest s) !! Z.to_nat o ∨ dirty (l_guest s') (o / PAGE_SIZE) ∨ X (o / PAGE_SIZE);
}.

Lemma calm_swept s s' : calm s s' → swept (fun _ => False) s s'.
Proof.
  intros ([Ht Hc Hio Hp Hst Hh] & Hcon & Hf). split; auto.
  - apply Ht.
  - intros l' Hl'. pose proof (t_lazy _ _ _ _ Ht) as Hsame. unfold same_lazy, same_part in Hsame. rewrite Hl' in Hsame.
    destruct (g_lazy (l_guest s)) as [l|]; [|done]. destruct Hsame as [? _]. eauto.
  - apply Ht.
  - apply Ht.
  - intros p Hd. left. by apply Ht.
  - intros Hl o Ho. destruct (t_mem _ _ _ _ Ht Hl o Ho); auto.
Qed.

Lemma swept_trans X Y s1 s2 s3 : swept X s1 s2 → swept Y s2 s3 → swept (fun p => X p ∨ Y p) s1 s3.
Proof.
  intros [? ? ? Hsrc1 Hlog1 ? ? ? Hst1 Hd1 Hm1] [? ? ? Hsrc2 Hlog2 ? ? ? Hst2 Hd2 Hm2]. split; try congruence; auto.
  - intros l' Hl'. destruct (Hsrc2 l' Hl') as (l & Hl & ->). by apply Hsrc1.
  - intros Hst. destruct (Hst1 Hst) as [Hst' Heq]. destruct (Hst2 Hst') as [? ?]. split; [done|congruence].
  - intros p Hd. destruct (Hd1 p Hd) as [Hd'|]; [|auto]. destruct (Hd2 p Hd'); auto.
  - intros Hl o Ho. assert (logging ram (l_guest s2)) as Hl2 by (intros p Hp; rewrite Hlog1; by apply Hl).
    destruct (Hm2 Hl2 o Ho) as [->|[?|?]]; auto. destruct (Hm1 Hl o Ho) as [?|[Hd|?]]; auto. destruct (Hd2 _ Hd); auto.
Qed.

Lemma elem_of_merge b b' p : p ∈ DirtyBitmap.dirty (DirtyBitmap.merge b b') ↔ p ∈ DirtyBitmap.dirty b ∨ p ∈ DirtyBitmap.dirty b'.
Proof. simpl. rewrite elem_of_foldl_insert_pfn, elem_of_elements. done. Qed.

Lemma swept_mono (X Y : Z → Prop) s s' : (∀ p, X p → Y p) → swept X s s' → swept Y s s'.
Proof.
  intros HXY [? ? ? ? ? ? ? ? ? Hd Hm]. split; try done.
  - intros p Hp. destruct (Hd p Hp); auto.
  - intros Hl o Ho. destruct (Hm Hl o Ho) as [?|[?|?]]; auto.
Qed.

(** A change of the records alone. *)
Lemma swept_records (X : Z → Prop) s v h :
  sane (l_guest s) → (∀ sl, kvm_logging v sl = kvm_logging (g_kvm (l_guest s)) sl) →
  (∀ p, logged ram (g_kvm (l_guest s)) p → logged ram v p ∨ X p) →
  (∀ p, p ∈ DirtyBitmap.dirty (g_host (l_guest s)) → p ∈ DirtyBitmap.dirty h ∨ X p) →
  swept X s (on_guest (fun g => with_host (with_kvm g v) h) s).
Proof.
  intros [Hm Hr Ho Hv Hl] Hlog Hkvm Hhost. split; try done; simpl.
  - eauto.
  - intros p [Hp|[Hp|?]]; [destruct (Hkvm p Hp)|destruct (Hhost p Hp)|]; auto; left; [by left|right; by left|right; by right].
  - by left.
Qed.

Lemma read_dirty_swept s b s' :
  sane (l_guest s) → read_dirty ram s = (Ok b, s') →
  swept (.∈ DirtyBitmap.dirty b) s s' ∧
  (stopped (l_guest s) → ∀ p, dirty (l_guest s) p → p ∈ DirtyBitmap.dirty b ∨ p ∈ DirtyBitmap.dirty (g_host (l_guest s'))).
Proof.
  intros Hs Hr. apply bind_ok in Hr as (u & s1 & H1 & Hr). apply interfere_ok in H1 as Hc; [|done].
  pose proof (read_dirty_log_logging ram (numbered_slots ram) (g_kvm (l_guest s1))) as Hlog.
  destruct (read_dirty_log _ _ _) as [[b'|e] v] eqn:Hread; [|done]. injection Hr as -> <-.
  destruct (read_dirty_log_ok ram _ b v Hram Hread) as [Hb _]. split.
  - eapply swept_mono; [|eapply swept_trans; [by apply calm_swept|]]; [by intros p [[]|Hp]; [exact Hp]|].
    apply (swept_records _ s1 v (g_host (l_guest s1))); [exact (step_sane _ _ Hc)|done| |auto]. intros p Hp. right. by apply Hb.
  - intros Hst p Hp. pose proof Hc as ([Ht _ _ _ Hstop _] & _). destruct (Hstop Hst) as [(_ & _ & Hpend) _].
    apply (t_dirty _ _ _ _ Ht) in Hp as [?|[?|(e & He & _)]]; [left; by apply Hb|by right|].
    rewrite Hpend in He. by apply not_elem_of_nil in He.
Qed.

Lemma drain_host_dirty_swept s r s' :
  sane (l_guest s) → drain_host_dirty ram s = (r, s') →
  ∃ h, r = Ok h ∧ swept (.∈ DirtyBitmap.dirty h) s s' ∧ ∀ p, p ∈ DirtyBitmap.dirty (g_host (l_guest s)) → p ∈ DirtyBitmap.dirty h.
Proof.
  intros Hs Hr. unfold drain_host_dirty, op_bind in Hr. destruct (interfere ram s) as [[u|e] s1] eqn:H1; [|by unfold interfere in H1; destruct (pop _ _)].
  apply interfere_ok in H1 as Hc; [|done]. simpl in Hr. injection Hr as <- <-. eexists. split; [done|]. split.
  - eapply swept_mono; [|eapply swept_trans; [by apply calm_swept|]]; [by intros p [[]|Hp]; [exact Hp]|].
    apply (swept_records _ s1 (g_kvm (l_guest s1)) (DirtyBitmap.mk ∅)); [exact (step_sane _ _ Hc)|done|auto|]. intros p Hp. by right.
  - intros p Hp. by apply (b_host _ _ _ _ (proj1 Hc)).
Qed.

(** Both sets, one after the other. *)
Lemma read_both_swept s b s1 h s' :
  sane (l_guest s) → read_dirty ram s = (Ok b, s1) → drain_host_dirty ram s1 = (Ok h, s') →
  swept (.∈ DirtyBitmap.dirty (DirtyBitmap.merge b h)) s s' ∧
  (stopped (l_guest s) → ∀ p, dirty (l_guest s) p → p ∈ DirtyBitmap.dirty (DirtyBitmap.merge b h)).
Proof.
  intros Hs Hb Hh. destruct (read_dirty_swept _ _ _ Hs Hb) as [Hsw1 Hall].
  destruct (drain_host_dirty_swept _ _ _ (sw_sane _ _ _ Hsw1) Hh) as (h' & [= <-] & Hsw2 & Hhost). split.
  - eapply swept_mono; [|by eapply swept_trans]. intros p. by rewrite elem_of_merge.
  - intros Hst p Hp. rewrite elem_of_merge. destruct (Hall Hst p Hp); auto.
Qed.

(** ** The rounds *)

Context (src : LazySource).
Notation logs := (logs (V:=V) (R:=R) (D:=D) ram src).
Notation seen := (seen (V:=V) (R:=R) (D:=D) ram).
Notation ready := (ready (V:=V) (R:=R) (D:=D) ram snap logs).
Notation right_at := (right_at (V:=V) (R:=R) (D:=D) seen).

(** Every byte of the file is right, or its page has changed since, or is
    still to be copied. *)
Definition copied_but (X : Z → Prop) s : Prop := ready s ∧ ∀ o, 0 ≤ o < ram → right_at s o ∨ X (o / PAGE_SIZE).

Lemma copied_steady X s s' : copied_but X s → calm s s' → copied_but X s'.
Proof.
  intros [Hr Hall] Hc. pose proof Hr as (_ & Hl & _). pose proof Hc as (Hb & _ & Hf).
  split; [eapply (ready_calm _ _ logs seen); [by apply knows_seen|done|done]|]. intros o Ho. destruct (Hall o Ho); [left|by right].
  eapply (right_at_steady _ _ logs seen); [by apply knows_seen|lia|done|done|by rewrite Hf|done].
Qed.

Lemma copied_swept (X Y : Z → Prop) s s' : copied_but X s → swept Y s s' → copied_but (fun p => X p ∨ Y p) s'.
Proof.
  intros [(Hs & [Hlog Hsrc] & Hlen) Hall] Hsw. split.
  - split; [apply Hsw|]. split; [|by rewrite (sw_file _ _ _ Hsw)]. split.
    + intros p Hp. rewrite (sw_logging _ _ _ Hsw). by apply Hlog.
    + intros l Hl. destruct (sw_source _ _ _ Hsw l Hl) as (l0 & Hl0 & ->). by apply Hsrc.
  - intros o Ho. destruct (Hall o Ho) as [(b & Hb & Hseen)|]; [|auto].
    assert (seen (l_guest s') o b ∨ Y (o / PAGE_SIZE)) as [?|?]; [|left; exists b; by rewrite (sw_file _ _ _ Hsw)|auto].
    destruct Hseen as [Hmem|Hd].
    + destruct (sw_mem _ _ _ Hsw Hlog o ltac:(lia)) as [Heq|[?|?]]; [left; left; by rewrite Heq|left; by right|by right].
    + destruct (sw_dirty _ _ _ Hsw _ Hd); [left; by right|by right].
Qed.

Lemma copied_mono (X Y : Z → Prop) s : (∀ p, X p → Y p) → copied_but X s → copied_but Y s.
Proof. intros HXY [? Hall]. split; [done|]. intros o Ho. destruct (Hall o Ho); auto. Qed.

Lemma copied_consume X b s u s' : copied_but X s → consume b s = (Ok u, s') → copied_but X s'.
Proof. by intros Hc [= <- <-]. Qed.

(** Copying a set settles its pages. *)
Lemma copied_dirty_pages X b s n s' :
  copied_but (fun p => X p ∨ p ∈ DirtyBitmap.dirty b) s → fenced ram (copy_dirty_pages ram b) s = (Ok n, s') → copied_but X s'.
Proof.
  intros Hcop Hf. pose proof Hcop as ((Hs & _) & _).
  destruct (fenced_ok _ _ _ _ Hs (copy_dirty_pages_steady b) Hf) as (s1 & s2 & C1 & Hc & C2).
  eapply copied_steady; [|exact C2]. destruct (copied_steady _ _ _ Hcop C1) as [Hr Hall].
  destruct (copy_dirty_pages_ok ram snap Hram logs seen ltac:(by apply knows_seen) b s1 n s2 Hr Hc) as (Hr2 & _ & Hright).
  split; [done|]. intros o Ho. destruct (Hall o Ho) as [?|[?|?]]; auto.
Qed.

Lemma copied_within {A} X (c : op Live A) s r s' : copied_but X s → within calm c → c s = (r, s') → copied_but X s'.
Proof. intros Hcop Hc Hr. eapply copied_steady; [done|]. eapply within_ok; [done| |done]. apply Hcop. Qed.

Ltac calm_op H :=
  lazymatch type of H with
  | _ ?s = (_, ?s') =>
      lazymatch goal with
      | Hcop : copied_but _ s |- _ => eapply copied_within in Hcop; [|clear Hcop|exact H]; [|solve [within_steps]]
      end
  end.

Section rounds.
Context (config : LiveSnapshotConfig) (start : Z).

Lemma copy_round_ok X round b bytes since st s st' continue s' :
  copied_but (fun p => X p ∨ p ∈ DirtyBitmap.dirty b) s →
  copy_round ram config round b bytes since st s = (Ok (st', continue), s') →
  copied_but X s' ∧ pc_pending_final st' = pc_pending_final st.
Proof.
  intros Hcop Hc. apply bind_ok in Hc as (t & s1 & H1 & Hc). calm_op H1. apply bind_ok in Hc as (n & s2 & H2 & Hc).
  eapply copied_dirty_pages in Hcop; [|exact H2]. apply bind_ok in Hc as (u & s3 & H3 & Hc). calm_op H3.
  apply bind_ok in Hc as (t' & s4 & H4 & Hc). calm_op H4. injection Hc as Hst <-. split; [done|].
  destruct (decide_round _ _ _); [destruct (round <? _)|..]; by injection Hst as <- <-.
Qed.

Lemma precopy_rounds_ok rounds : ∀ last st s st' s',
  copied_but (.∈ DirtyBitmap.dirty (pc_pending_final st)) s →
  precopy_rounds ram config start rounds last st s = (Ok st', s') →
  copied_but (.∈ DirtyBitmap.dirty (pc_pending_final st')) s'.
Proof.
  induction rounds as [|round rounds IH]; intros last st s st' s' Hcop Hp; cbn [precopy_rounds] in Hp.
  { by injection Hp as <- <-. }
  apply bind_ok in Hp as (t & s1 & H1 & Hp). calm_op H1. destruct (timeout config <? t); [by injection Hp as <- <-|].
  apply bind_ok in Hp as (u & s2 & H2 & Hp). calm_op H2. apply bind_ok in Hp as (b & s3 & H3 & Hp). apply bind_ok in Hp as (h & s4 & H4 & Hp).
  destruct (read_both_swept _ _ _ _ _ ltac:(apply Hcop) H3 H4) as [Hsw _]. eapply copied_swept in Hcop; [|exact Hsw].
  apply bind_ok in Hp as (t1 & s5 & H5 & Hp). calm_op H5. apply bind_ok in Hp as (t2 & s6 & H6 & Hp). calm_op H6.
  apply bind_ok in Hp as (u2 & s7 & H7 & Hp). eapply copied_consume in Hcop; [|exact H7].
  destruct (from_secs_f64 _) as [projected|]; [|done]. apply bind_ok in Hp as (t3 & s8 & H8 & Hp). calm_op H8.
  destruct (timeout config <=? _).
  { injection Hp as <- <-. eapply copied_mono; [|exact Hcop]. intros p. cbn [pc_pending_final]. by rewrite (elem_of_merge (pc_pending_final st)). }
  apply bind_ok in Hp as ([st1 continue] & s9 & H9 & Hp). destruct (copy_round_ok _ _ _ _ _ _ _ _ _ _ Hcop H9) as [Hcop' Hst].
  destruct continue; [eapply IH; [|exact Hp]; by rewrite Hst|]. injection Hp as <- <-. by rewrite Hst.
Qed.

End rounds.

(** ** The final stop *)

Definition frozen (M : list Z) (g : Guest) : Prop := stopped g ∧ g_mem g = M.
Definition final (M : list Z) (g : Guest) (o b : Z) : Prop := M !! Z.to_nat o = Some b.

Lemma knows_frozen M : Knows ram snap (frozen M) (final M).
Proof.
  split.
  - intros g g' [Hst <-] Hb. by apply (b_stopped _ _ _ _ Hb).
  - done.
  - intros g o b [_ <-] _ Hb. exact Hb.
Qed.

Context {Blob : Type} (capture_state : Guest → result Blob VmmError).

Lemma capture_ok pend s blob n copied s' :
  copied_but (.∈ DirtyBitmap.dirty pend) s → stopped (l_guest s) →
  capture ram capture_state pend s = (Ok (blob, n, copied), s') →
  stopped (l_guest s') ∧ sane (l_guest s') ∧ l_file s' = g_mem (l_guest s') ∧ capture_state (l_guest s') = Ok blob.
Proof.
  intros [(Hs & _ & Hlen) Hall] Hst Hc. apply bind_ok in Hc as (b & s1 & H1 & Hc). apply bind_ok in Hc as (h & s2 & H2 & Hc).
  destruct (read_both_swept _ _ _ _ _ Hs H1 H2) as [Hsw Hdirty]. set (M := g_mem (l_guest s)) in *.
  apply bind_ok in Hc as (u & s3 & [= <- <-] & Hc). apply bind_ok in Hc as (k & s4 & H4 & Hc). set (s3 := mkLive _ _ _ _ _ _ _ _) in *.
  assert (frozen M (l_guest s3)) as Hfr by (by apply (sw_stopped _ _ _ Hsw)).
  destruct (fenced_ok _ s3 _ _ ltac:(by eapply (sw_sane _ s s2)) (copy_dirty_pages_steady _) H4) as (s5 & s6 & C5 & Hcopy & C6).
  assert (LiveCopy.ready ram snap (frozen M) s5) as Hr5.
  { eapply (ready_calm _ _ (frozen M) (final M)); [apply knows_frozen| |exact C5]. split; [apply Hsw|]. split; [done|].
    simpl. by rewrite (sw_file _ _ _ Hsw). }
  destruct (copy_dirty_pages_ok ram snap Hram _ _ (knows_frozen M) _ _ _ _ Hr5 Hcopy) as (Hr6 & _ & Hright).
  apply bind_ok in Hc as (u & s7 & H7 & Hc). apply interfere_ok in H7 as C7; [|exact (step_sane _ _ C6)].
  pose proof (ready_calm _ _ _ _ (knows_frozen M) _ _ (ready_calm _ _ _ _ (knows_frozen M) _ _ Hr6 C6) C7) as (Hs7 & [Hst7 Hm7] & Hlen7).
  apply bind_ok in Hc as (g & s8 & [= <- <-] & Hc). destruct (capture_state (l_guest s7)) as [blob'|e] eqn:Ecap; [|done].
  injection Hc as -> _ _ <-. split; [done|]. split; [done|]. split; [|done]. rewrite Hm7. apply list_eq. intros i.
  pose proof (sane_mem _ _ _ Hs) as HM. fold M in HM. destruct (decide (Z.of_nat i < ram)) as [Hi|Hi].
  2: { rewrite !lookup_ge_None_2 by lia. done. }
  destruct (Hright (Z.of_nat i) ltac:(lia)) as (x & Hx & HxM).
  2: { unfold final in HxM. rewrite Nat2Z.id in Hx, HxM. destruct C6 as (_ & _ & Hf6), C7 as (_ & _ & Hf7).
       by rewrite Hf7, Hf6, Hx, HxM. }
  rewrite elem_of_merge. destruct (Hall (Z.of_nat i) ltac:(lia)) as [(x & Hx & [Hmem|Hd])|]; [| |by right; right].
  - left. exists x. destruct C5 as (_ & _ & ->). simpl. rewrite (sw_file _ _ _ Hsw). split; [done|exact Hmem].
  - right. left. by apply Hdirty.
Qed.

(** ** The first pause and the first pass *)

Lemma page_slot_range p : 0 ≤ p < ram / PAGE_SIZE → 0 ≤ (page_slot ram p).1 < Z.of_nat (length (GuestMemory.regions ram)).
Proof.
  intros Hp. destruct (ram_regions ram Hram) as [[Hle ->]|(Hgt & -> & _)]; unfold page_slot, low_pages.
  - rewrite Z.min_l by done. destruct (p <? _) eqn:E; bool_to_prop; simpl; lia.
  - destruct (p <? _); simpl; lia.
Qed.

Context (host_ptr : Z → Z).

Lemma enable_dirty_logging_ok s r s' :
  sane (l_guest s) → enable_dirty_logging ram host_ptr s = (r, s') →
  ∃ s1 v, calm s s1 ∧ s' = on_guest (fun g => with_kvm g v) s1 ∧
    (∀ p, logged ram (g_kvm (l_guest s1)) p → logged ram v p) ∧
    (∀ sl, kvm_logging (g_kvm (l_guest s1)) sl = true → kvm_logging v sl = true) ∧
    ∀ u, r = Ok u → logging ram (l_guest s').
Proof.
  intros Hs He. unfold enable_dirty_logging, op_bind in He.
  destruct (interfere ram s) as [[u|e] s1] eqn:H1; [|by unfold interfere in H1; destruct (pop _ _)]. apply interfere_ok in H1 as Hc; [|done].
  destruct (register_with_dirty_logging _ _ _) as [r' v] eqn:Hreg. injection He as Hr <-.
  destruct (register_regions_ok host_ptr _ _ _ _ _ _ Hreg) as (Hbit & Hlog & Hok). exists s1, v. split; [done|]. split; [done|]. split; [|split; [done|]].
  - intros p [? ?]. split; [done|]. by apply Hbit.
  - intros u' ->. destruct r' as [l|]; [|done]. intros p Hp. simpl. destruct (Hok l eq_refl) as [_ Hall]. apply Hall.
    by apply page_slot_range in Hp.
Qed.

(** The hook of the snapshot, and a file that has not changed. *)
Definition based (F : list Z) s : Prop :=
  sane (l_guest s) ∧ (∀ l, g_lazy (l_guest s) = Some l → source (lp_hook l) = src) ∧ l_file s = F.

Lemma based_quiet F s s' : based F s → quiet s s' → based F s'.
Proof.
  intros (Hs & Hsrc & Hf) (Ht & _ & Hf'). split; [apply Ht|]. split; [|congruence]. intros l' Hl'.
  pose proof (t_lazy _ _ _ _ Ht) as Hsame. unfold same_lazy, same_part in Hsame. rewrite Hl' in Hsame.
  destruct (g_lazy (l_guest s)) as [l|]; [|done]. destruct Hsame as [-> _]. by apply Hsrc.
Qed.

Lemma based_swept F X s s' : based F s → swept X s s' → based F s'.
Proof.
  intros (Hs & Hsrc & Hf) Hsw. split; [apply Hsw|]. split; [|by rewrite (sw_file _ _ _ Hsw)].
  intros l Hl. destruct (sw_source _ _ _ Hsw l Hl) as (l0 & Hl0 & ->). by apply Hsrc.
Qed.

Lemma consume_guest b s u s' : consume b s = (Ok u, s') → l_guest s' = l_guest s.
Proof. by intros [= <- <-]. Qed.

Lemma based_consume F b s u s' : based F s → consume b s = (Ok u, s') → based F s'.
Proof. by intros Hb [= <- <-]. Qed.

Lemma logging_quiet s s' : quiet s s' → logging ram (l_guest s) → logging ram (l_guest s').
Proof. intros [Ht _] Hl p Hp. rewrite (t_logging _ _ _ _ Ht). by apply Hl. Qed.

Lemma logging_swept X s s' : swept X s s' → logging ram (l_guest s) → logging ram (l_guest s').
Proof. intros Hsw Hl p Hp. rewrite (sw_logging _ _ _ Hsw). by apply Hl. Qed.

Lemma baseline_ok F s u s' :
  based F s → baseline ram host_ptr s = (Ok u, s') → based F s' ∧ logging ram (l_guest s').
Proof.
  intros Hb Hc. apply bind_ok in Hc as (u1 & s1 & H1 & Hc). destruct (pause_all_ok s u1 s1 (proj1 Hb) H1) as [Hq _].
  eapply based_quiet in Hb; [|exact Hq]. apply bind_ok in Hc as (r & s2 & H2 & Hc). unfold attempt in H2.
  destruct (op_bind _ _ s1) as [r' s2'] eqn:H2'. injection H2 as <- <-. destruct r' as [b|e].
  2: { by apply bind_ok in Hc as (u2 & s3 & _ & Hc). }
  apply bind_ok in H2' as (u2 & s3 & H3 & H4). destruct (enable_dirty_logging_ok _ _ _ (proj1 Hb) H3) as (s4 & v & C4 & -> & _ & _ & Hlog).
  specialize (Hlog u2 eq_refl). eapply based_quiet in Hb; [|by apply calm_quiet, C4].
  set (s5 := on_guest _ s4) in *. assert (based F s5) as Hb5 by (destruct Hb as ([? ? ? ? ?] & ? & ?); split; [by split|done]).
  destruct (read_dirty_swept _ _ _ (proj1 Hb5) H4) as [Hsw _]. eapply based_swept in Hb5; [|exact Hsw]. eapply logging_swept in Hlog; [|exact Hsw].
  apply bind_ok in Hc as (u6 & s6 & H6 & Hc). eapply based_consume in Hb5; [|exact H6]. apply consume_guest in H6 as H6'. rewrite <- H6' in Hlog.
  apply bind_ok in Hc as (h & s7 & H7 & Hc). destruct (drain_host_dirty_swept s6 _ s7 (proj1 Hb5) H7) as (h' & [= <-] & Hsw7 & _).
  eapply based_swept in Hb5; [|exact Hsw7]. eapply (logging_swept _ s6 s7) in Hlog; [|exact Hsw7].
  apply bind_ok in Hc as (u8 & s8 & H8 & Hc). eapply based_consume in Hb5; [|exact H8]. apply consume_guest in H8 as H8'. rewrite <- H8' in Hlog.
  assert (quiet s8 s') as Hq8 by (eapply within_ok; [apply (within_mono _ _ _ _ _ paced_quiet), resume_all_paced|exact (proj1 Hb5)|exact Hc]).
  split; [by eapply based_quiet|]. by eapply (logging_quiet s8).
Qed.

(** What [pread] and [FICLONERANGE] do on the snapshot's file. *)
Record snapshot_file : Prop := {
  file_read o n bs : source_integrity src = None → 0 ≤ o → 0 ≤ n → o + n ≤ ram →
    pread (source_offset src + o) n = Some bs → bs = slice (Z.to_nat o) (Z.to_nat n) snap;
  file_clone dest a n at_ dest' : 0 ≤ a → 0 ≤ n → a + n ≤ ram → 0 ≤ at_ →
    ficlonerange dest (source_offset src + a) n at_ = Some dest' →
    length dest' = length dest ∧
    ∀ x : Z, 0 ≤ x < Z.of_nat (length dest) →
      dest' !! Z.to_nat x = if decide (at_ ≤ x < at_ + n) then snap !! Z.to_nat (a + (x - at_)) else dest !! Z.to_nat x;
}.

Lemma bulk_ok s r s' :
  snapshot_file → ready s → (∀ o, 0 ≤ o < ram → l_file s !! Z.to_nat o = Some 0) →
  bulk ram pread ficlonerange s = (Ok r, s') → copied_but (fun _ => False) s'.
Proof.
  intros [Hread Hclone] Hr Hz Hb. apply bind_ok in Hb as (g & s1 & [= <- <-] & Hb). pose proof Hr as (Hs & [_ Hsrc] & _).
  destruct (g_lazy (l_guest s)) as [l|] eqn:Hl.
  - destruct (sane_lazy _ _ _ Hs l Hl) as (Hwf & _ & Hglen & _). specialize (Hsrc l eq_refl).
    destruct (untouched_chunk_pages (lp_hook l) Hwf) as [? ?].
    destruct (write_lazy_restored_pages_ok ram snap Hram src pread ficlonerange Hread Hclone (untouched_chunk (lp_hook l)) ltac:(done) ltac:(done) s r s' Hr Hz Hb)
      as (? & _ & Hright). split; [done|]. intros o Ho. left. by apply Hright.
  - apply bind_ok in Hb as (w & s2 & Hw & [= <- <-]). destruct Hram as [? _].
    destruct (write_nonzero_pages_ok ram snap Hram logs seen (knows_seen _ _ _) (load ram) ram 0
      (load_reads ram snap Hram logs seen (knows_seen _ _ _) 0 ram ltac:(lia) ltac:(lia)) ltac:(lia) ltac:(lia) ltac:(lia) s w s2 Hr) as (? & _ & Hright & _);
      [intros o Ho; left; apply Hz; lia|done|].
    split; [done|]. intros o Ho. left. apply Hright. lia.
Qed.

Lemma copied_quiet X s s' : copied_but X s → quiet s s' → copied_but X s'.
Proof.
  intros [(Hs & Hl & Hlen) Hall] (Ht & _ & Hf). split; [split; [apply Ht|split; [by eapply logs_tracks|by rewrite Hf]]|].
  intros o Ho. destruct (Hall o Ho) as [(b & Hb & Hseen)|]; [left|by right]. exists b. rewrite Hf. split; [done|].
  destruct Hseen as [Hm|Hd]; [|right; by apply (t_dirty _ _ _ _ Ht)].
  destruct (t_mem _ _ _ _ Ht (proj1 Hl) o ltac:(lia)) as [Heq|]; [left; by rewrite Heq|by right].
Qed.

Lemma attempt_ok {A} (c : op Live A) s r s' : attempt c s = (r, s') → ∃ a, r = Ok a ∧ c s = (a, s').
Proof. unfold attempt. destruct (c s) as [a s1]. intros [= <- <-]. eauto. Qed.

Lemma finish_final_stop_inv {T} (r : result T LiveError) s v s' : finish_final_stop ram r s = (Ok v, s') → r = Ok v.
Proof.
  intros Hf. apply bind_ok in Hf as (io & s1 & _ & Hf). destruct io; [|done]. apply bind_ok in Hf as (rr & s2 & _ & Hf).
  destruct r, rr; try done. by injection Hf as ->.
Qed.

Lemma final_stop_ok pend s blob n copied s' :
  copied_but (.∈ DirtyBitmap.dirty pend) s → final_stop ram capture_state pend s = (Ok (blob, n, copied), s') →
  sane (l_guest s') ∧ ∃ cut, stopped cut ∧ l_file s' = g_mem cut ∧ capture_state cut = Ok blob.
Proof.
  intros Hcop Hf. apply bind_ok in Hf as (u1 & s1 & H1 & Hf). destruct (pause_all_ok _ _ _ ltac:(apply Hcop) H1) as [Hq1 Hparked].
  eapply copied_quiet in Hcop; [|exact Hq1]. apply bind_ok in Hf as (io & s2 & H2 & Hf). apply attempt_ok in H2 as (r2 & [= ->] & H2).
  destruct r2 as [u2|e].
  2: { destruct (match e with Fails _ => _ | _ => _ end); [|done]. apply bind_ok in Hf as (r & s3 & _ & Hf). by destruct r. }
  assert (stopped (l_guest s2)) as Hst by (eapply quiesce_park_ok; [apply Hcop|done|exact H2]).
  eapply copied_quiet in Hcop; [|eapply within_ok; [apply quiesce_io_quiet|apply Hcop|exact H2]].
  apply bind_ok in Hf as (r & s3 & H3 & Hf). apply attempt_ok in H3 as (r3 & [= ->] & H3). apply finish_final_stop_inv in Hf as Hr. subst r3.
  destruct (capture_ok _ _ _ _ _ _ Hcop Hst H3) as (Hst3 & Hs3 & Hf3 & Hcap).
  assert (quiet s3 s') as Hq3 by (eapply within_ok; [apply finish_final_stop_quiet|exact Hs3|exact Hf]).
  split; [exact (step_sane _ _ Hq3)|]. exists (l_guest s3). destruct Hq3 as (_ & _ & ->). done.
Qed.

(** ** The image *)

Lemma set_len_ok s u s' : l_file s = [] → set_len ram s = (Ok u, s') → l_guest s' = l_guest s ∧ l_consumed s' = l_consumed s ∧ l_file s' = replicate (Z.to_nat ram) 0.
Proof.
  intros Hf Hl. apply bind_ok in Hl as (a & s1 & Ha & Hl). unfold answer in Ha. destruct (pop _ _) as [a' rest]. injection Ha as -> <-.
  destruct a; [done|]. injection Hl as _ <-. simpl. by rewrite Hf, take_nil, Nat.sub_0_r.
Qed.

Ltac quiet_op H Hc Hs := lazymatch type of H with _ ?s = (_, ?s') =>
  assert (calm s s') as Hc by (eapply within_ok; [|eassumption|exact H]; solve [within_steps]); pose proof (step_sane _ _ Hc) as Hs end.

Lemma snapshot_body_image config s out s' :
  snapshot_file → sane (l_guest s) → (∀ l, g_lazy (l_guest s) = Some l → source (lp_hook l) = src) → l_file s = [] →
  snapshot_body ram pread ficlonerange host_ptr capture_state config s = (Ok out, s') →
  ∃ cut, stopped cut ∧ l_file s' = g_mem cut ∧ capture_state cut = Ok (out_state_blob out).
Proof.
  intros Hfile Hs Hsrc Hf Hb. apply bind_ok in Hb as (start & s1 & H1 & Hb). quiet_op H1 C1 S1. destruct (ram =? 0); [done|].
  apply bind_ok in Hb as (u2 & s2 & H2 & Hb). apply set_len_ok in H2 as (Hg2 & _ & Hf2); [|destruct C1 as (_ & _ & ->); exact Hf].
  assert (based (l_file s2) s2) as Hbase.
  { assert (based [] s1) as (? & ? & _) by (eapply (based_quiet _ s); [done|by apply calm_quiet]).
    split; [by rewrite Hg2|]. split; [by rewrite Hg2|done]. }
  apply bind_ok in Hb as (u3 & s3 & H3 & Hb). destruct (baseline_ok _ _ _ _ Hbase H3) as [(Hs3 & Hsrc3 & Hf3) Hlog3].
  assert (ready s3) as Hr3.
  { split; [done|]. split; [done|]. rewrite Hf3, Hf2, length_replicate. destruct Hram. lia. }
  apply bind_ok in Hb as (last & s4 & H4 & Hb). quiet_op H4 C4 S4. apply bind_ok in Hb as (t & s5 & H5 & Hb). quiet_op H5 C5 S5.
  apply bind_ok in Hb as ([w ct] & s6 & H6 & Hb). destruct (fenced_ok _ _ _ _ ltac:(eassumption) bulk_steady H6) as (s7 & s8 & Ca & Hbulk & Cb).
  assert (calm s3 s7) as C37 by (eapply step_trans; [exact C4|]; by eapply step_trans).
  assert (copied_but (fun _ => False) s6) as Hcop.
  { eapply copied_steady; [|exact Cb]. eapply bulk_ok; [done| | |exact Hbulk].
    - eapply (ready_calm _ _ logs seen); [by apply knows_seen|exact Hr3|done].
    - intros o Ho. destruct C37 as (_ & _ & ->). rewrite Hf3, Hf2. apply lookup_replicate_2. lia. }
  apply bind_ok in Hb as (u9 & s9 & H9 & Hb). calm_op H9. apply bind_ok in Hb as (be & s10 & H10 & Hb). calm_op H10.
  apply bind_ok in Hb as (st & s11 & H11 & Hb).
  assert (copied_but (.∈ DirtyBitmap.dirty (pc_pending_final st)) s11) as Hcop11.
  { eapply precopy_rounds_ok; [|exact H11]. eapply copied_mono; [|exact Hcop]. by intros p []. }
  apply bind_ok in Hb as (fs & s12 & H12 & Hb). calm_op H12. apply bind_ok in Hb as ([[blob n] c] & s13 & H13 & Hb).
  destruct (final_stop_ok _ _ _ _ _ _ Hcop11 H13) as [Hs13 (cut & Hst & Hfc & Hcap)].
  apply bind_ok in Hb as (d & s14 & H14 & Hb). quiet_op H14 C14 S14. apply bind_ok in Hb as (u15 & s15 & H15 & Hb). quiet_op H15 C15 S15.
  apply bind_ok in Hb as (tt & s16 & H16 & Hb). quiet_op H16 C16 S16. apply bind_ok in Hb as (g & s17 & [= <- <-] & Hb). injection Hb as <- <-.
  exists cut. split; [done|]. split; [|done]. destruct C16 as (_ & _ & ->), C15 as (_ & _ & ->), C14 as (_ & _ & ->). done.
Qed.

(** C2: the image is a coherent cut. When [live_snapshot] succeeds, starting
    from an empty staging file, there is a state [cut] of the guest in which
    every processor is parked with its registers captured, every device
    worker is parked and nothing it wrote is left unmarked, such that the
    staging file holds exactly the memory of [cut] and the state blob is what
    [capture_state] returned for [cut]: memory and device state are of the same
    moment, whatever processors, devices and the fault handler did while pages
    were copied, and whichever pages came from the snapshot the guest was
    lazily restored from. It relies on devices that mark what they store. *)
Theorem live_snapshot_coherent config s out s' :
  snapshot_file → sane (l_guest s) → (∀ l, g_lazy (l_guest s) = Some l → source (lp_hook l) = src) → l_file s = [] →
  live_snapshot ram pread ficlonerange host_ptr capture_state config s = (Ok out, s') →
  ∃ cut, stopped cut ∧ l_file s' = g_mem cut ∧ capture_state cut = Ok (out_state_blob out).
Proof.
  intros Hfile Hs Hsrc Hf Hl. apply bind_ok in Hl as (u & s0 & [= <- <-] & Hl). apply bind_ok in Hl as (r & s1 & Hl & Hr). apply attempt_ok in Hl as (r1 & [= ->] & Hl).
  destruct r1 as [o|e]; [|by apply bind_ok in Hr as (u & s2 & _ & Hr)]. injection Hr as <- <-. by eapply snapshot_body_image; [| | | |exact Hl].
Qed.

(** ** No page is lost *)

(** Recorded in the guest, or in the guard that replays. *)
Definition covered s (p : Z) : Prop := dirty (l_guest s) p ∨ p ∈ DirtyBitmap.dirty (l_consumed s).

(** No record is lost but those of the pages [X], which are in hand. *)
Record owes (X : Z → Prop) s s' : Prop := {
  ow_sane : sane (l_guest s');
  ow_logging : logging ram (l_guest s) → logging ram (l_guest s');
  ow_covered p : covered s p → covered s' p ∨ X p;
  ow_mem : logging ram (l_guest s) → ∀ o, 0 ≤ o →
    g_mem (l_guest s') !! Z.to_nat o = g_mem (l_guest s) !! Z.to_nat o ∨ covered s' (o / PAGE_SIZE) ∨ X (o / PAGE_SIZE);
}.

Definition accounts : Live → Live → Prop := owes (fun _ => False).

Lemma owes_trans X Y s1 s2 s3 : owes X s1 s2 → owes Y s2 s3 → owes (fun p => X p ∨ Y p) s1 s3.
Proof.
  intros [? Hl1 Hc1 Hm1] [? Hl2 Hc2 Hm2]. split; auto.
  - intros p Hp. destruct (Hc1 p Hp) as [Hp2|]; [|auto]. destruct (Hc2 p Hp2); auto.
  - intros Hl o Ho. destruct (Hm2 (Hl1 Hl) o Ho) as [->|[?|?]]; auto. destruct (Hm1 Hl o Ho) as [?|[Hc|?]]; auto.
    destruct (Hc2 _ Hc); auto.
Qed.

Lemma owes_mono (X Y : Z → Prop) s s' : (∀ p, X p → Y p) → owes X s s' → owes Y s s'.
Proof.
  intros HXY [? ? Hc Hm]. split; auto.
  - intros p Hp. destruct (Hc p Hp); auto.
  - intros Hl o Ho. destruct (Hm Hl o Ho) as [?|[?|?]]; auto.
Qed.

Lemma owes_accounts X s1 s2 s3 : owes X s1 s2 → accounts s2 s3 → owes X s1 s3.
Proof. intros H1 H2. eapply owes_mono; [|by eapply owes_trans]. intros p [?|[]]. done. Qed.

#[local] Instance accounts_rel : StepRel ram snap accounts.
Proof.
  split.
  - intros s Hs. split; auto.
  - intros s1 s2 s3. apply owes_accounts.
  - intros s s' Ho. apply Ho.
Qed.

Lemma follows_accounts s s' : follows s s' → accounts s s'.
Proof.
  intros [Ht Hc]. assert (∀ p, covered s p → covered s' p) as Hcov.
  { intros p [Hp|Hp]; [left; by apply Ht|right; by rewrite Hc]. }
  split; [apply Ht| |auto|].
  - intros Hl p Hp. rewrite (t_logging _ _ _ _ Ht). by apply Hl.
  - intros Hl o Ho. destruct (t_mem _ _ _ _ Ht Hl o Ho); auto. right. left. by left.
Qed.

Lemma quiet_accounts s s' : quiet s s' → accounts s s'.
Proof. intros Hq. by apply follows_accounts, quiet_follows. Qed.

Lemma steady_accounts s s' : steady s s' → accounts s s'.
Proof. intros Hq. by apply follows_accounts, steady_follows. Qed.

#[local] Hint Extern 1 (LiveCopy.within _ _ accounts _) => eapply within_mono; [exact quiet_accounts|] : live.
#[local] Hint Extern 2 (LiveCopy.within _ _ accounts _) => eapply within_mono; [exact steady_accounts|] : live.

Lemma swept_owes X s s' : swept X s s' → owes X s s'.
Proof.
  intros Hsw. split; [apply Hsw|by apply (logging_swept X)| |].
  - intros p [Hp|Hp]; [destruct (sw_dirty _ _ _ Hsw p Hp); [left; by left|by right]|left; right]. by rewrite (sw_consumed _ _ _ Hsw).
  - intros Hl o Ho. destruct (sw_mem _ _ _ Hsw Hl o Ho) as [?|[?|?]]; auto. right. left. by left.
Qed.

Lemma owes_consume (X : Z → Prop) b s s1 u s2 :
  owes X s s1 → (∀ p, X p → p ∈ DirtyBitmap.dirty b) → consume b s1 = (Ok u, s2) → accounts s s2.
Proof.
  intros [? ? Hc Hm] HX [= <- <-].
  assert (∀ p, covered s1 p ∨ X p → covered (mkLive (l_guest s1) (l_file s1) (DirtyBitmap.merge (l_consumed s1) b) (l_sched s1) (l_waits s1)
    (l_answers s1) (l_quiesce s1) (l_clock s1)) p) as Hcov.
  { intros p [[?|?]|?]; [by left|right|right]; cbn [l_consumed]; rewrite elem_of_merge; auto. }
  split; [done|done|by auto|]. intros Hl o Ho. destruct (Hm Hl o Ho) as [?|[?|?]]; auto.
Qed.

(** RAM is one slot, so that a read that fails has read nothing, or reads do
    not fail. *)
Definition whole_reads : Prop := ram ≤ MMIO_GAP_START ∨ ∀ (v : V) sl len, (get_dirty_log v sl len).1 ≠ None.

Lemma read_dirty_log_err (v v' : V) e :
  whole_reads → read_dirty_log ram (numbered_slots ram) v = (Err e, v') → ∀ p, logged ram v p → logged ram v' p.
Proof.
  intros Hw. destruct (low_region ram Hram) as [H0 _]. unfold read_dirty_log.
  destruct (ram_regions ram Hram) as [[Hle ->]|(Hgt & -> & Hhi)]; cbn [read_regions]; rewrite H0.
  - destruct (get_dirty_log v _ ram) as [[ws|] v1] eqn:Hr; [done|]. intros [= _ <-] p [? Hp]. split; [done|].
    by rewrite (kvm_read_err _ _ _ _ Hr).
  - rewrite Hhi. destruct Hw as [?|Hw]; [lia|]. destruct (get_dirty_log v _ _) as [[ws|] v1] eqn:Hr.
    + destruct (get_dirty_log v1 _ _) as [[ws'|] v2] eqn:Hr'; [done|]. intros _. edestruct Hw. by apply (f_equal fst Hr').
    + intros _. edestruct Hw. by apply (f_equal fst Hr).
Qed.

Lemma read_dirty_err s e s' :
  whole_reads → sane (l_guest s) → read_dirty ram s = (Err e, s') → accounts s s'.
Proof.
  intros Hw Hs Hr. unfold read_dirty, op_bind in Hr.
  destruct (interfere ram s) as [[u|e'] s1] eqn:H1; [|by unfold interfere in H1; destruct (pop _ _)]. apply interfere_ok in H1 as Hc; [|done].
  pose proof (read_dirty_log_logging ram (numbered_slots ram) (g_kvm (l_guest s1))) as Hlog.
  destruct (read_dirty_log _ _ _) as [[b|e'] v] eqn:Hread; [done|]. injection Hr as _ <-.
  eapply owes_mono; [|eapply swept_owes, swept_trans; [by apply calm_swept|]].
  - by intros p [[]|Hp]; [exact Hp].
  - apply (swept_records _ s1 v (g_host (l_guest s1))); [exact (step_sane _ _ Hc)|done| |auto]. intros p Hp. left. by eapply read_dirty_log_err.
Qed.

Lemma enable_accounts : within accounts (enable_dirty_logging ram host_ptr).
Proof.
  intros s Hs. destruct (enable_dirty_logging ram host_ptr s) as [r s'] eqn:He.
  destruct (enable_dirty_logging_ok _ _ _ Hs He) as (s1 & v & C & -> & Hbit & Hlog & _). cbn [snd].
  eapply step_trans; [by apply quiet_accounts, calm_quiet|]. pose proof (step_sane _ _ C) as [? ? ? ? ?]. split; [by split| | |by left].
  - intros Hl p Hp. by apply Hlog, Hl.
  - intros p [[?|?]|?]; left; [left; left; by apply Hbit|left; by right|by right].
Qed.
#[local] Hint Resolve enable_accounts : live.

(** A continuation that settles what is in hand. *)
Definition settles {A} (X : Z → Prop) (k : op Live A) : Prop := ∀ s0 s, owes X s0 s → accounts s0 (k s).2.

Lemma settles_consume {A} (X : Z → Prop) b (k : op Live A) :
  (∀ p, X p → p ∈ DirtyBitmap.dirty b) → within accounts k → settles X (do! consume b in k).
Proof.
  intros HX Hk s0 s Ho. pose proof (owes_consume X b s0 s tt (consume b s).2 Ho HX eq_refl) as Ha.
  eapply step_trans; [exact Ha|]. apply Hk. exact (step_sane _ _ Ha).
Qed.

Lemma settles_clock {A} X (c : op Live Z) (k : Z → op Live A) :
  within calm c → (∀ s, ∃ a s', c s = (Ok a, s')) → (∀ t, settles X (k t)) → settles X (let! t := c in k t).
Proof.
  intros Hc Hok Hk s0 s Ho. destruct (Hok s) as (a & s' & Ha). unfold op_bind. rewrite Ha. apply Hk.
  eapply owes_accounts; [done|]. apply quiet_accounts, calm_quiet. eapply within_ok; [exact Hc|apply Ho|exact Ha].
Qed.

Lemma settles_read {A} (k : DirtyBitmap.t → op Live A) :
  whole_reads → (∀ b, settles (.∈ DirtyBitmap.dirty b) (k b)) → within accounts (let! b := read_dirty ram in k b).
Proof.
  intros Hw Hk s Hs. unfold op_bind. destruct (read_dirty ram s) as [[b|e] s1] eqn:Hr; cbn [snd].
  - apply Hk, swept_owes. by apply read_dirty_swept.
  - by eapply read_dirty_err.
Qed.

Lemma settles_drain {A} b (k : DirtyBitmap.t → op Live A) :
  (∀ h, settles (.∈ DirtyBitmap.dirty (DirtyBitmap.merge b h)) (k h)) →
  settles (.∈ DirtyBitmap.dirty b) (let! h := drain_host_dirty ram in k h).
Proof.
  intros Hk s0 s Ho. unfold op_bind. destruct (drain_host_dirty ram s) as [r s1] eqn:Hr.
  destruct (drain_host_dirty_swept _ _ _ (ow_sane _ _ _ Ho) Hr) as (h & -> & Hsw & _). apply Hk.
  eapply owes_mono; [|eapply owes_trans; [exact Ho|by apply swept_owes]]. intros p. by rewrite elem_of_merge.
Qed.

Lemma now_total s : ∃ t s', now s = (Ok t, s').
Proof. unfold now. destruct (pop _ _). eauto. Qed.

Lemma elapsed_total t s : ∃ d s', elapsed t s = (Ok d, s').
Proof. unfold elapsed, op_bind. destruct (now_total s) as (t' & s' & ->). unfold done. eauto. Qed.

Lemma settles_enable {A} (k : result DirtyBitmap.t LiveError → op Live A) :
  whole_reads → (∀ b, settles (.∈ DirtyBitmap.dirty b) (k (Ok b))) → (∀ e, within accounts (k (Err e))) →
  within accounts (let! r := attempt (do! enable_dirty_logging ram host_ptr in read_dirty ram) in k r).
Proof.
  intros Hw Hok Herr s Hs. pose proof (enable_accounts s Hs) as Ha. unfold op_bind, attempt.
  destruct (enable_dirty_logging ram host_ptr s) as [[u|e] s1] eqn:He; cbn [snd] in Ha; pose proof (step_sane _ _ Ha) as Hs1.
  - destruct (read_dirty ram s1) as [[b|e] s2] eqn:Hr.
    + apply (step_trans _ _ _ Ha). apply Hok, swept_owes. by apply read_dirty_swept.
    + pose proof (read_dirty_err _ _ _ Hw Hs1 Hr) as Hb. apply (step_trans _ _ _ Ha), (step_trans _ _ _ Hb), Herr. exact (step_sane _ _ Hb).
  - apply (step_trans _ _ _ Ha), Herr, Hs1.
Qed.

Lemma consume_accounts b : within accounts (consume b).
Proof.
  intros s Hs. assert (settles (fun _ => False) (do! consume b in done tt)) as Hset.
  { apply settles_consume; [done|]. apply within_done. typeclasses eauto. }
  exact (Hset s s (step_refl s Hs)).
Qed.
#[local] Hint Resolve consume_accounts : live.

Lemma drain_consume_accounts {A} (k : op Live A) :
  within accounts k → within accounts (let! h := drain_host_dirty ram in do! consume h in k).
Proof.
  intros Hk s Hs. assert (settles (.∈ DirtyBitmap.dirty DirtyBitmap.new) (let! h := drain_host_dirty ram in do! consume h in k)) as Hset.
  { apply settles_drain. intros h. apply settles_consume; [|done]. intros p. rewrite elem_of_merge. by intros [[]%not_elem_of_empty|]. }
  apply Hset. eapply owes_mono; [|exact (step_refl s Hs)]. by intros p [].
Qed.

Lemma baseline_accounts : whole_reads → within accounts (baseline ram host_ptr).
Proof.
  intros Hw. unfold baseline. apply within_bind; [typeclasses eauto|within_steps|intros _]. apply settles_enable; [done| |].
  - intros b. apply settles_consume; [done|]. apply drain_consume_accounts. within_steps.
  - intros e. within_steps.
Qed.

Lemma copy_round_accounts config round b bytes since st : within accounts (copy_round ram config round b bytes since st).
Proof.
  pose proof (fenced_steady _ (copy_dirty_pages_steady b)) as Hf. unfold copy_round. within_steps.
Qed.
#[local] Hint Resolve copy_round_accounts : live.

Lemma precopy_rounds_accounts config start rounds :
  whole_reads → ∀ last st, within accounts (precopy_rounds ram config start rounds last st).
Proof.
  intros Hw. induction rounds as [|round rounds IH]; intros last st; cbn [precopy_rounds]; [within_steps|].
  apply within_bind; [typeclasses eauto|within_steps|intros t]. destruct (timeout config <? t); [within_steps|].
  apply within_bind; [typeclasses eauto|within_steps|intros _]. apply settles_read; [done|]. intros b. apply settles_drain. intros h.
  apply settles_clock; [apply elapsed_calm|apply elapsed_total|intros since]. apply settles_clock; [apply now_calm|apply now_total|intros last'].
  apply settles_consume; [done|]. within_steps.
Qed.

Lemma capture_accounts pend : whole_reads → within accounts (capture ram capture_state pend).
Proof.
  intros Hw. apply settles_read; [done|]. intros b. apply settles_drain. intros h. apply settles_consume.
  - intros p Hp. rewrite elem_of_merge. by left.
  - pose proof (fenced_steady _ (copy_dirty_pages_steady (DirtyBitmap.merge (DirtyBitmap.merge b h) pend))) as Hf. within_steps.
Qed.

Lemma final_stop_accounts pend : whole_reads → within accounts (final_stop ram capture_state pend).
Proof. intros Hw. pose proof (capture_accounts pend Hw). unfold final_stop. within_steps. Qed.

Lemma snapshot_body_accounts config : whole_reads → within accounts (snapshot_body ram pread ficlonerange host_ptr capture_state config).
Proof.
  intros Hw. pose proof (baseline_accounts Hw). pose proof (final_stop_accounts). pose proof precopy_rounds_accounts.
  pose proof (fenced_steady _ bulk_steady) as Hb.
  assert (within steady (set_len ram)) as Hset by (unfold set_len; within_steps; intros s Hs; split; [by apply beside_refl|done]).
  unfold snapshot_body. within_steps. intros s Hs. by apply step_refl.
Qed.

Lemma replay_marks (l : list Z) : ∀ h p,
  p ∈ DirtyBitmap.dirty h ∨ (p ∈ l ∧ 0 ≤ p < ram / PAGE_SIZE) →
  p ∈ DirtyBitmap.dirty (foldl (fun h pfn => SoftwareDirtyBitmap.mark_range h (Z.min (pfn * PAGE_SIZE) U64_MAX) PAGE_SIZE) h l).
Proof.
  induction l as [|q l IH]; intros h p Hp; simpl; [by destruct Hp as [?|[[]%not_elem_of_nil _]]|]. apply IH.
  destruct Hp as [Hp|[[->|Hp]%elem_of_cons Hr]]; [left; by apply host_mark_mono| |by right]. left.
  destruct Hram as [? _]. rewrite Z.min_l by (unfold PAGE_SIZE, U64_MAX in *; zlia).
  eapply host_mark_covers; [exact Hram|unfold PAGE_SIZE; lia|done|unfold PAGE_SIZE in *; zlia|].
  exists (q * PAGE_SIZE). split; [unfold PAGE_SIZE; lia|]. by rewrite Z.div_mul.
Qed.

Lemma replay_covers s p : 0 ≤ p < ram / PAGE_SIZE → covered s p → dirty (l_guest (replay s).2) p.
Proof.
  intros Hp [[?|[?|?]]|?]; [by left|right; left; simpl|right; by right|right; left; simpl]; apply replay_marks; [by left|right].
  split; [by apply elem_of_elements|done].
Qed.

Lemma snapshot_body_consumed config s out s' :
  snapshot_body ram pread ficlonerange host_ptr capture_state config s = (Ok out, s') → out_consumed_dirty out = l_consumed s'.
Proof.
  unfold snapshot_body. intros Hb. apply bind_ok in Hb as (t & s1 & _ & Hb). destruct (ram =? 0); [done|].
  do 4 apply bind_ok in Hb as (? & ? & _ & Hb). apply bind_ok in Hb as ([? ?] & ? & _ & Hb).
  do 4 apply bind_ok in Hb as (? & ? & _ & Hb). apply bind_ok in Hb as ([[? ?] ?] & ? & _ & Hb).
  do 4 apply bind_ok in Hb as (? & ? & _ & Hb). by injection Hb as <- <-.
Qed.

(** C7: no dirty page is lost. [base] is the image of an earlier snapshot,
    which guest memory may differ from only in pages whose change is recorded.
    This is still so after [live_snapshot], whether it succeeds, fails at any
    point or panics, when the pages in the [consumed_dirty] of a success,
    which the caller is to merge, are counted as recorded: what the dirty sets
    lost to the rounds is in the output, or has been put back. It holds where
    the log is one slot, or where reading it does not fail, and relies on
    devices that mark what they store. *)
Theorem live_snapshot_loses_nothing config s r s' (base : list Z) :
  whole_reads → sane (l_guest s) → logging ram (l_guest s) →
  (∀ o, 0 ≤ o < ram → base !! Z.to_nat o = g_mem (l_guest s) !! Z.to_nat o ∨ dirty (l_guest s) (o / PAGE_SIZE)) →
  live_snapshot ram pread ficlonerange host_ptr capture_state config s = (r, s') →
  ∀ o, 0 ≤ o < ram → base !! Z.to_nat o = g_mem (l_guest s') !! Z.to_nat o ∨ dirty (l_guest s') (o / PAGE_SIZE) ∨
    ∃ out, r = Ok out ∧ o / PAGE_SIZE ∈ DirtyBitmap.dirty (out_consumed_dirty out).
Proof.
  intros Hw Hs Hlog Hbase Hl o Ho. set (s0 := (guard_new s).2). pose proof (snapshot_body_accounts config Hw s0 Hs) as Ha.
  assert (g_mem (l_guest (snapshot_body ram pread ficlonerange host_ptr capture_state config s0).2) !! Z.to_nat o = base !! Z.to_nat o ∨
    covered (snapshot_body ram pread ficlonerange host_ptr capture_state config s0).2 (o / PAGE_SIZE)) as Hend.
  { destruct (Hbase o Ho) as [->|Hd].
    - destruct (ow_mem _ _ _ Ha Hlog o ltac:(lia)) as [->|[?|[]]]; auto.
    - right. destruct (ow_covered _ _ _ Ha (o / PAGE_SIZE)) as [?|[]]; [by left|done]. }
  unfold live_snapshot, op_bind, attempt in Hl. change (guard_new s) with (Ok (E:=LiveError) tt, s0) in Hl. cbv iota in Hl.
  destruct (snapshot_body _ _ _ _ _ _ s0) as [[out|e] s1] eqn:Hb; cbn [snd] in Hend.
  - injection Hl as <- <-. destruct Hend as [?|[?|?]]; [by left|by right; left|right; right]. exists out. split; [done|].
    apply snapshot_body_consumed in Hb as ->. done.
  - injection Hl as <- <-. destruct Hend as [?|Hc]; [by left|right; left]. apply replay_covers; [|done]. by apply page_in_ram.
Qed.

(** ** Processors and workers at the end *)

Definition same_io s s' : Prop := sane (l_guest s') ∧ g_io (l_guest s') = g_io (l_guest s).
Definition holds s s' : Prop :=
  same_io s s' ∧ length (g_vcpus (l_guest s')) = length (g_vcpus (l_guest s)) ∧ ∀ i, parked (l_guest s) i → parked (l_guest s') i.

#[local] Instance same_io_rel : StepRel ram snap same_io.
Proof.
  split.
  - by intros s Hs.
  - intros s1 s2 s3 [? ?] [? ?]. split; [done|congruence].
  - by intros s s' [? _].
Qed.

#[local] Instance holds_rel : StepRel ram snap holds.
Proof.
  split.
  - intros s Hs. by split.
  - intros s1 s2 s3 (? & ? & ?) (? & ? & ?). split; [by eapply step_trans|]. split; [congruence|auto].
  - by intros s s' [[? _] _].
Qed.

Lemma steady_holds s s' : steady s s' → holds s s'.
Proof. intros [[[] ? ? ? ? ?] _]. by split. Qed.

Lemma holds_same_io s s' : holds s s' → same_io s s'.
Proof. by intros [? _]. Qed.

Lemma paced_same_io s s' : paced s s' → same_io s s'.
Proof. intros [Hq ?]. split; [exact (step_sane _ _ Hq)|done]. Qed.

#[local] Hint Extern 1 (LiveCopy.within _ _ holds _) => eapply within_mono; [exact steady_holds|] : live.
#[local] Hint Extern 1 (LiveCopy.within _ _ same_io _) => eapply within_mono; [exact paced_same_io|] : live.
#[local] Hint Extern 2 (LiveCopy.within _ _ same_io _) => eapply within_mono; [exact holds_same_io|] : live.

Lemma records_holds s v h : sane (l_guest s) → holds s (on_guest (fun g => with_host (with_kvm g v) h) s).
Proof. intros [? ? ? ? ?]. split; [by split|done]. Qed.

Lemma read_dirty_holds : within holds (read_dirty ram).
Proof.
  unfold read_dirty. within_steps. intros s Hs. destruct (read_dirty_log _ _ _) as [r v].
  exact (records_holds s v (g_host (l_guest s)) Hs).
Qed.

Lemma enable_holds : within holds (enable_dirty_logging ram host_ptr).
Proof.
  unfold enable_dirty_logging. within_steps. intros s Hs. destruct (register_with_dirty_logging _ _ _) as [r v].
  exact (records_holds s v (g_host (l_guest s)) Hs).
Qed.

Lemma drain_holds : within holds (drain_host_dirty ram).
Proof. unfold drain_host_dirty. within_steps. intros s Hs. exact (records_holds s (g_kvm (l_guest s)) _ Hs). Qed.

Lemma consume_holds b : within holds (consume b).
Proof. intros s Hs. exact (step_refl (T:=holds) s Hs). Qed.

Lemma fenced_copy_steady b : within steady (fenced ram (copy_dirty_pages ram b)).
Proof. apply fenced_steady, copy_dirty_pages_steady. Qed.
#[local] Hint Resolve read_dirty_holds enable_holds drain_holds consume_holds fenced_copy_steady : live.

Lemma capture_holds pend : within holds (capture ram capture_state pend).
Proof. unfold capture. within_steps. Qed.

Lemma baseline_same_io : within same_io (baseline ram host_ptr).
Proof. unfold baseline. within_steps. Qed.

Lemma precopy_rounds_same_io config start rounds : ∀ last st, within same_io (precopy_rounds ram config start rounds last st).
Proof.
  induction rounds as [|round rounds IH]; intros last st; cbn [precopy_rounds]; [within_steps|]. unfold copy_round. within_steps.
Qed.

(** Every processor is parked. *)
Definition all_parked s : Prop := ∀ i, (i < length (g_vcpus (l_guest s)))%nat → parked (l_guest s) i.

Definition closed s : Prop := g_io (l_guest s) = IoRunning ∨ all_parked s.

Lemma all_parked_holds s s' : holds s s' → all_parked s → all_parked s'.
Proof. intros (_ & Hlen & Hp) Hall i Hi. apply Hp, Hall. by rewrite <- Hlen. Qed.

Lemma quiesce_io_result park s r s' :
  sane (l_guest s) → quiesce_io ram park s = (r, s') →
  sane (l_guest s') ∧ (all_parked s → all_parked s') ∧
  match r with
  | Ok _ => g_io (l_guest s') = if park then IoParked else IoRunning
  | Err (Fails e) => park && vcpus_may_resume_after_io_error e = true → g_io (l_guest s') = IoRunning
  | Err _ => False
  end.
Proof.
  intros Hs Hq. pose proof (quiesce_io_quiet park s Hs) as Hqt. rewrite Hq in Hqt. split; [exact (step_sane _ _ Hqt)|].
  unfold quiesce_io, op_bind in Hq.
  destruct (interfere ram s) as [[u|e] s1] eqn:H1; [|by unfold interfere in H1; destruct (pop _ _)]. apply interfere_ok in H1 as Hc; [|done].
  pose proof (steady_holds _ _ (calm_steady _ _ _ _ Hc)) as Hh. pose proof (flush_marks_beside _ (step_sane _ _ Hc)) as Hfl.
  destruct (pop _ _) as [[u'|e] rest]; injection Hq as <- <-.
  - split; [|by destruct park]. intros Hall i Hi. simpl in *. destruct park; simpl in *; [|exact (all_parked_holds _ _ Hh Hall i Hi)].
    exact (b_parked _ _ _ _ Hfl i (all_parked_holds _ _ Hh Hall i Hi)).
  - split; [intros Hall i Hi; exact (all_parked_holds _ _ Hh Hall i Hi)|]. simpl. by intros ->.
Qed.

(** Started with the workers running, an operation leaves them running if it
    succeeds, and leaves them running or every processor parked if not. *)
Definition safe {A} (c : op Live A) : Prop :=
  ∀ s r s', sane (l_guest s) → g_io (l_guest s) = IoRunning → c s = (r, s') →
    sane (l_guest s') ∧ match r with Ok _ => g_io (l_guest s') = IoRunning | Err _ => closed s' end.

Lemma bind_cases {A B} (c : op Live A) (k : A → op Live B) s r s' :
  op_bind c k s = (r, s') → (∃ a s1, c s = (Ok a, s1) ∧ k a s1 = (r, s')) ∨ ∃ e, c s = (Err e, s') ∧ r = Err e.
Proof. unfold op_bind. destruct (c s) as [[a|e] s1]; [eauto|]. intros [= <- <-]. eauto. Qed.

Lemma safe_same_io {A} (c : op Live A) : within same_io c → safe c.
Proof.
  intros Hc s r s' Hs Hio Hr. assert (same_io s s') as [? Heq] by (by eapply within_ok). split; [done|].
  rewrite Hio in Heq. destruct r; [done|by left].
Qed.

Lemma safe_bind {A B} (c : op Live A) (k : A → op Live B) : safe c → (∀ a, safe (k a)) → safe (op_bind c k).
Proof.
  intros Hc Hk s r s' Hs Hio [(a & s1 & H1 & Hr)|(e & He & ->)]%bind_cases; [|by eapply (Hc s (Err e))].
  destruct (Hc _ _ _ Hs Hio H1) as [Hs1 Hio1]. by eapply Hk.
Qed.

Lemma resume_all_safe {A} (k : result unit LiveError → op Live A) :
  (∀ r, within same_io (k r)) → safe (let! r := attempt (resume_all ram) in k r).
Proof. intros Hk. apply safe_same_io. within_steps. Qed.

Lemma finish_final_stop_safe {T} (capture : result T LiveError) s r s' :
  sane (l_guest s) → all_parked s → finish_final_stop ram capture s = (r, s') →
  sane (l_guest s') ∧ match r with Ok _ => g_io (l_guest s') = IoRunning | Err _ => closed s' end.
Proof.
  intros Hs Hall Hf. apply bind_cases in Hf as [(io & s1 & H1 & Hf)|(e & He & ->)].
  2: { apply attempt_ok in He as (? & ? & _). done. }
  apply attempt_ok in H1 as (r1 & [= ->] & H1). destruct (quiesce_io_result _ _ _ _ Hs H1) as (Hs1 & Hpk & Hr1).
  destruct r1 as [u1|e1]; [|injection Hf as <- <-; split; [done|right; by apply Hpk]].
  refine (resume_all_safe _ _ s1 r s' Hs1 Hr1 Hf). intros r2. within_steps.
Qed.

Lemma final_stop_safe pend : safe (final_stop ram capture_state pend).
Proof.
  intros s r s' Hs Hio Hf. apply bind_cases in Hf as [(u & s1 & H1 & Hf)|(e & He & ->)].
  2: { by eapply (safe_same_io (pause_all ram) ltac:(within_steps) s (Err e)). }
  destruct (safe_same_io (pause_all ram) ltac:(within_steps) _ _ _ Hs Hio H1) as [Hs1 Hio1]. destruct (pause_all_ok _ _ _ Hs H1) as [_ Hall].
  apply bind_cases in Hf as [(io & s2 & H2 & Hf)|(e & He & ->)]; [|apply attempt_ok in He as (? & ? & _); done].
  apply attempt_ok in H2 as (r2 & [= ->] & H2). destruct (quiesce_io_result _ _ _ _ Hs1 H2) as (Hs2 & Hpk & Hr2). specialize (Hpk Hall).
  destruct r2 as [u2|error].
  - apply bind_cases in Hf as [(r3 & s3 & H3 & Hf)|(e & He & ->)]; [|apply attempt_ok in He as (? & ? & _); done].
    apply attempt_ok in H3 as (r3' & [= ->] & H3). assert (holds s2 s3) as Hh by (eapply within_ok; [apply capture_holds|done|exact H3]).
    eapply finish_final_stop_safe; [exact (step_sane _ _ Hh)|by eapply all_parked_holds|exact Hf].
  - destruct error as [e| |]; [|done..]. destruct (vcpus_may_resume_after_io_error e) eqn:Em.
    + refine (resume_all_safe _ _ s2 r s' Hs2 (Hr2 eq_refl) Hf). intros r5. within_steps.
    + injection Hf as <- <-. split; [done|by right].
Qed.

Lemma set_len_same_io : within same_io (set_len ram).
Proof. unfold set_len. within_steps. intros s Hs. by split. Qed.

Lemma snapshot_body_safe config : safe (snapshot_body ram pread ficlonerange host_ptr capture_state config).
Proof.
  pose proof (fenced_steady _ bulk_steady) as Hb. unfold snapshot_body.
  repeat first
    [ apply final_stop_safe
    | match goal with |- safe (op_bind _ _) => apply safe_bind; [|intros ?] | |- safe (let '(_, _) := ?x in _) => destruct x | |- safe (if ?b then _ else _) => destruct b end
    | apply safe_same_io; solve [within_steps; apply set_len_same_io || apply baseline_same_io || apply precopy_rounds_same_io] ].
  apply safe_same_io. intros s Hs. by split.
Qed.

(** A processor that is not held in its park. *)
Definition released (g : Guest) (i : nat) : Prop := ∀ v, g_vcpus g !! i = Some v → v_control v = false.

Lemma released_beside (g g' : Guest) i : beside g g' → released g i → released g' i.
Proof.
  intros Hb Hr v' Hv'. pose proof (b_control _ _ _ _ Hb) as Heq. apply (f_equal (.!! i)) in Heq.
  rewrite !list_lookup_fmap, Hv' in Heq. simpl in Heq. destruct (g_vcpus g !! i) as [v|] eqn:Hv; [|done].
  injection Heq as ->. by apply Hr.
Qed.

Lemma resume_vcpu_ok s i u s' :
  sane (l_guest s) → resume_vcpu ram i s = (Ok u, s') → ∀ j, j = i ∨ released (l_guest s) j → released (l_guest s') j.
Proof.
  intros Hs Hr. apply bind_ok in Hr as (u1 & s1 & H1 & Hr). apply interfere_ok in H1 as (Hb & _); [|done]. injection Hr as _ <-.
  intros j Hj v Hv. simpl in Hv. destruct (decide (i = j)) as [<-|Hne].
  - rewrite list_lookup_alter_eq in Hv. by apply fmap_Some in Hv as (w & _ & ->).
  - rewrite list_lookup_alter_ne in Hv by done. destruct Hj as [->|Hj]; [done|]. by apply (released_beside _ _ _ Hb Hj).
Qed.

Lemma each_resume_ok ids : ∀ s u s',
  sane (l_guest s) → each (resume_vcpu ram) ids s = (Ok u, s') → ∀ j, j ∈ ids ∨ released (l_guest s) j → released (l_guest s') j.
Proof.
  induction ids as [|i ids IH]; intros s u s' Hs He j Hj; simpl in He.
  - injection He as <- <-. by destruct Hj as [[]%not_elem_of_nil|].
  - apply bind_ok in He as (u1 & s1 & H1 & He). eapply IH; [|exact He|].
    + refine (step_sane (T:=paced) s s1 _). eapply within_ok; [apply resume_vcpu_paced|done|exact H1].
    + rewrite elem_of_cons in Hj. pose proof (resume_vcpu_ok _ _ _ _ Hs H1 j). destruct Hj as [[->|?]|?]; auto.
Qed.

Lemma wait_snapshot_resumed_ok s i u s' : sane (l_guest s) → wait_snapshot_resumed ram i s = (Ok u, s') → calm s s'.
Proof.
  intros Hs Hw. apply bind_ok in Hw as (u1 & s1 & H1 & Hw). apply interfere_ok in H1 as Hc; [|done].
  apply vcpu_ok_inv in Hw as (v & Hv & Hw). destruct (v_paused v); [by destruct (v_exited v || negb (v_alive v))|].
  destruct (v_exited v); [done|]. by injection Hw as _ <-.
Qed.

Lemma each_wait_resumed_ok ids : ∀ s u s', sane (l_guest s) → each (wait_snapshot_resumed ram) ids s = (Ok u, s') → calm s s'.
Proof.
  induction ids as [|i ids IH]; intros s u s' Hs He; simpl in He; [injection He as _ <-; by apply step_refl|].
  apply bind_ok in He as (u1 & s1 & H1 & He). apply wait_snapshot_resumed_ok in H1; [|done].
  eapply step_trans; [exact H1|]. eapply IH; [exact (step_sane _ _ H1)|exact He].
Qed.

Lemma resume_all_ok s u s' : sane (l_guest s) → resume_all ram s = (Ok u, s') → ∀ i, released (l_guest s') i.
Proof.
  intros Hs Hr i. apply bind_ok in Hr as (g & s0 & [= <- <-] & Hr). apply bind_ok in Hr as (u1 & s1 & H1 & H2).
  assert (paced s s1) as Hp.
  { eapply within_ok; [apply within_each; [typeclasses eauto|exact resume_vcpu_paced]|done|exact H1]. }
  apply each_wait_resumed_ok in H2 as (Hb & _); [|exact (step_sane _ _ Hp)]. apply (released_beside _ _ _ Hb).
  destruct (decide (i < length (g_vcpus (l_guest s)))%nat) as [Hi|Hi].
  - eapply each_resume_ok; [done|exact H1|]. left. apply elem_of_seq. lia.
  - intros v Hv%lookup_lt_Some. rewrite (t_vcpus _ _ _ _ (proj1 (proj1 Hp))) in Hv. lia.
Qed.

Lemma final_stop_released pend s v s' :
  sane (l_guest s) → final_stop ram capture_state pend s = (Ok v, s') → sane (l_guest s') ∧ ∀ i, released (l_guest s') i.
Proof.
  intros Hs Hf. apply bind_ok in Hf as (u1 & s1 & H1 & Hf).
  assert (paced s s1) as Hp1 by (eapply within_ok; [apply pause_all_paced|done|exact H1]).
  apply bind_ok in Hf as (io & s2 & H2 & Hf). apply attempt_ok in H2 as (r2 & [= ->] & H2).
  destruct (quiesce_io_result _ _ _ _ (step_sane _ _ Hp1) H2) as (Hs2 & _). destruct r2 as [u2|e].
  2: { destruct (match e with Fails _ => _ | _ => _ end); [|done]. apply bind_ok in Hf as (r & s3 & _ & Hf). by destruct r. }
  apply bind_ok in Hf as (r & s3 & H3 & Hf). apply attempt_ok in H3 as (r3 & [= ->] & H3).
  assert (holds s2 s3) as Hh by (eapply within_ok; [apply capture_holds|done|exact H3]).
  apply bind_ok in Hf as (io & s4 & H4 & Hf). apply attempt_ok in H4 as (r4 & [= ->] & H4).
  destruct (quiesce_io_result _ _ _ _ (step_sane _ _ Hh) H4) as (Hs4 & _). destruct r4; [|done].
  apply bind_ok in Hf as (rr & s5 & H5 & Hf). apply attempt_ok in H5 as (r5 & [= ->] & H5).
  destruct r3, r5; try done. injection Hf as _ <-. split; [|by eapply resume_all_ok].
  refine (step_sane (T:=paced) s4 s5 _). eapply within_ok; [apply resume_all_paced|done|exact H5].
Qed.

Ltac sane_op H Hs := lazymatch type of H with _ ?s = (_, ?s') =>
  assert (sane (l_guest s')) as Hs by (refine (step_sane (T:=same_io) s s' _); eapply within_ok; [|eassumption|exact H];
    solve [within_steps; apply set_len_same_io || apply baseline_same_io || apply precopy_rounds_same_io]) end.

Lemma snapshot_body_released config s out s' :
  sane (l_guest s) → snapshot_body ram pread ficlonerange host_ptr capture_state config s = (Ok out, s') → ∀ i, released (l_guest s') i.
Proof.
  intros Hs Hb. pose proof (fenced_steady _ bulk_steady) as Hbulk.
  apply bind_ok in Hb as (t1 & s1 & H1 & Hb). sane_op H1 S1. destruct (ram =? 0); [done|].
  apply bind_ok in Hb as (t2 & s2 & H2 & Hb). sane_op H2 S2. apply bind_ok in Hb as (t3 & s3 & H3 & Hb). sane_op H3 S3.
  apply bind_ok in Hb as (t4 & s4 & H4 & Hb). sane_op H4 S4. apply bind_ok in Hb as (t5 & s5 & H5 & Hb). sane_op H5 S5.
  apply bind_ok in Hb as ([w ct] & s6 & H6 & Hb). sane_op H6 S6. apply bind_ok in Hb as (t7 & s7 & H7 & Hb). sane_op H7 S7.
  apply bind_ok in Hb as (t8 & s8 & H8 & Hb). sane_op H8 S8. apply bind_ok in Hb as (t9 & s9 & H9 & Hb). sane_op H9 S9.
  apply bind_ok in Hb as (t10 & s10 & H10 & Hb). sane_op H10 S10. apply bind_ok in Hb as ([[blob n] c] & s11 & H11 & Hb).
  destruct (final_stop_released _ _ _ _ S10 H11) as [S11 Hrel]. apply bind_ok in Hb as (t12 & s12 & H12 & Hb). quiet_op H12 C12 S12.
  apply bind_ok in Hb as (t13 & s13 & H13 & Hb). quiet_op H13 C13 S13. apply bind_ok in Hb as (t14 & s14 & H14 & Hb). quiet_op H14 C14 S14.
  apply bind_ok in Hb as (g & s15 & [= <- <-] & Hb). injection Hb as _ <-. intros i.
  apply (released_beside _ _ _ (proj1 C14)), (released_beside _ _ _ (proj1 C13)), (released_beside _ _ _ (proj1 C12)), Hrel.
Qed.

(** C14: failing closed. A live snapshot that starts with the device workers
    running leaves them running or, when it cannot tell that they run, leaves
    every processor parked, with the registers it captured: no processor runs
    against workers that may be stopped, whatever the result. When it succeeds,
    the workers run and no processor is held. *)
Theorem live_snapshot_fails_closed config s r s' :
  sane (l_guest s) → g_io (l_guest s) = IoRunning →
  live_snapshot ram pread ficlonerange host_ptr capture_state config s = (r, s') →
  (g_io (l_guest s') = IoRunning ∨ ∀ i, (i < length (g_vcpus (l_guest s')))%nat → parked (l_guest s') i) ∧
  ∀ out, r = Ok out → g_io (l_guest s') = IoRunning ∧ ∀ i v, g_vcpus (l_guest s') !! i = Some v → v_control v = false.
Proof.
  intros Hs Hio Hl. unfold live_snapshot, op_bind, attempt in Hl. set (s0 := (guard_new s).2).
  change (guard_new s) with (Ok (E:=LiveError) tt, s0) in Hl. cbv iota in Hl. assert (sane (l_guest s0)) as Hs0 by exact Hs.
  destruct (snapshot_body _ _ _ _ _ _ s0) as [[out|e] s1] eqn:Hb; injection Hl as <- <-;
    destruct (snapshot_body_safe _ _ _ _ Hs0 Hio Hb) as [_ Hend]; (split; [|try done]).
  - by left.
  - intros out' _. split; [done|]. exact (snapshot_body_released _ _ _ _ Hs0 Hb).
  - exact Hend.
Qed.

(** ** The loop over the chunks ends *)

Definition ends {A} (c : op Live A) : Prop :=
  ∀ s r s', sane (l_guest s) → c s = (r, s') → sane (l_guest s') ∧ r ≠ Err Stuck.

Lemma ends_bind {A B} (c : op Live A) (k : A → op Live B) : ends c → (∀ a, ends (k a)) → ends (op_bind c k).
Proof.
  intros Hc Hk s r s' Hs [(a & s1 & H1 & Hr)|(e & He & ->)]%bind_cases.
  - destruct (Hc _ _ _ Hs H1) as [Hs1 _]. by eapply Hk.
  - destruct (Hc _ _ _ Hs He) as [? Hn]. split; [done|]. intros [= ->]. done.
Qed.

Lemma ends_done {A} (a : A) : ends (done a).
Proof. by intros s r s' Hs [= <- <-]. Qed.

Lemma ends_raise {A} e : e ≠ Stuck → ends (raise (A:=A) e).
Proof. intros He s r s' Hs [= <- <-]. split; [done|]. by intros [= ->]. Qed.

Lemma ends_the_guest : ends the_guest.
Proof. by intros s r s' Hs [= <- <-]. Qed.

(** An operation that keeps a relation, and whose result is known. *)
Lemma ends_within {A} T `{!StepRel ram snap T} (c : op Live A) : within T c → (∀ s, (c s).1 ≠ Err Stuck) → ends c.
Proof.
  intros Hc Hr s r s' Hs He. split.
  - refine (step_sane (T:=T) s s' _). by eapply within_ok.
  - specialize (Hr s). by rewrite He in Hr.
Qed.

Lemma ends_attempt {A B} (c : op Live A) (k : result A LiveError → op Live B) :
  ends c → (∀ r, r ≠ Err Stuck → ends (k r)) → ends (let! r := attempt c in k r).
Proof.
  intros Hc Hk s r s' Hs [(a & s1 & H1 & Hr)|(e & He & ->)]%bind_cases.
  - apply attempt_ok in H1 as (r1 & [= ->] & H1). destruct (Hc _ _ _ Hs H1) as [Hs1 Hn]. by eapply Hk.
  - apply attempt_ok in He as (? & ? & _). done.
Qed.

Lemma ends_each {A} (f : A → op Live unit) l : (∀ a, ends (f a)) → ends (each f l).
Proof. intros Hf. induction l as [|a l IH]; [apply ends_done|]. by apply ends_bind. Qed.

Lemma interfere_ends : ends (interfere ram).
Proof. apply (ends_within calm); [apply interfere_calm; done|]. intros s. unfold interfere. by destruct (pop _ _). Qed.

Lemma answer_ends : ends answer.
Proof. apply (ends_within calm); [apply answer_calm|]. intros s. unfold answer. by destruct (pop _ _). Qed.

Lemma now_ends : ends now.
Proof. apply (ends_within calm); [apply now_calm|]. intros s. by destruct (now_total s) as (? & ? & ->). Qed.

Lemma elapsed_ends t : ends (elapsed t).
Proof. apply ends_bind; [apply now_ends|]. intros. apply ends_done. Qed.

Lemma load_ends off n : ends (load ram off n).
Proof.
  apply (ends_within calm); [apply load_calm|]. unfold load. generalize (Z.to_nat n). intros m. revert off.
  induction m as [|m IH]; intros off s; cbn [load_bytes]; [done|].
  specialize (IH (off + 1) (on_guest (fun g => fault_in g [off / PAGE_SIZE]) (before_byte ram s))).
  destruct (load_bytes _ _ _ _) as [[]]; [done|]. simpl in *. congruence.
Qed.

#[local] Hint Resolve ends_done ends_the_guest interfere_ends answer_ends now_ends elapsed_ends load_ends : live.
#[local] Hint Extern 1 (ends (raise _)) => apply ends_raise; (done || congruence) : live.

Ltac ends_step :=
  match goal with
  | |- ends (op_bind (attempt _) _) => apply ends_attempt; [|intros ? ?]
  | |- ends (op_bind _ _) => apply ends_bind; [|intros ?]
  | |- ends (if ?b then _ else _) => destruct b
  | |- ends (match ?x with _ => _ end) => destruct x
  | |- ends (let '(_, _) := ?x in _) => destruct x
  | |- ends (each _ _) => apply ends_each; intros ?
  end.
Ltac ends_steps := repeat (ends_step || (progress eauto with live)).

Lemma write_all_at_ends bs at_ : ends (write_all_at ram bs at_).
Proof. unfold write_all_at. ends_steps; by intros s r s' Hs [= <- <-]. Qed.

Lemma set_len_ends : ends (set_len ram).
Proof. unfold set_len. ends_steps. by intros s r s' Hs [= <- <-]. Qed.

Lemma sync_data_ends : ends (sync_data ram).
Proof. unfold sync_data. ends_steps. Qed.
#[local] Hint Resolve write_all_at_ends set_len_ends sync_data_ends : live.

Lemma update_vcpu_ends i (f : Vcpu R → Vcpu R) :
  (∀ (g : Guest) v, vcpu_ok g i v → vcpu_ok g i (f v)) → ends (update (fun g => with_vcpu g i f)).
Proof. intros Hf. by apply (ends_within paced); [by apply update_vcpu_paced|]. Qed.

Lemma request_snapshot_pause_ends i : ends (request_snapshot_pause ram i).
Proof. unfold request_snapshot_pause, vcpu. ends_steps. apply update_vcpu_ends. intros g w _ _ r Hr. done. Qed.

Lemma wait_snapshot_paused_ends i : ends (wait_snapshot_paused ram i).
Proof. unfold wait_snapshot_paused, vcpu. ends_steps. by apply update_vcpu_ends. Qed.

Lemma resume_vcpu_ends i : ends (resume_vcpu ram i).
Proof. unfold resume_vcpu. ends_steps. by apply update_vcpu_ends. Qed.

Lemma wait_snapshot_resumed_ends i : ends (wait_snapshot_resumed ram i).
Proof. unfold wait_snapshot_resumed, vcpu. ends_steps. by apply update_vcpu_ends. Qed.
#[local] Hint Resolve request_snapshot_pause_ends wait_snapshot_paused_ends resume_vcpu_ends wait_snapshot_resumed_ends : live.

Lemma resume_all_ends : ends (resume_all ram).
Proof. unfold resume_all, vcpu_threads. ends_steps. Qed.
#[local] Hint Resolve resume_all_ends : live.

Lemma pause_all_ends : ends (pause_all ram).
Proof. unfold pause_all, vcpu_threads, or_finish, finish_failed_vcpu_pause. ends_steps. Qed.

Lemma quiesce_io_ends park : ends (quiesce_io ram park).
Proof.
  apply (ends_within quiet); [apply quiesce_io_quiet|]. intros s. unfold quiesce_io, op_bind, interfere.
  destruct (pop _ (l_waits s)); cbn [l_quiesce]. by destruct (pop _ (l_quiesce s)) as [[]].
Qed.
#[local] Hint Resolve pause_all_ends quiesce_io_ends : live.

Lemma finish_final_stop_ends {T} (r : result T LiveError) : r ≠ Err Stuck → ends (finish_final_stop ram r).
Proof. intros Hr. unfold finish_final_stop. destruct r; ends_steps. Qed.

Lemma copy_page_run_ends a e : ends (copy_page_run ram a e).
Proof. unfold copy_page_run, ok_or_memory. ends_steps. Qed.
#[local] Hint Resolve copy_page_run_ends : live.

Lemma copy_runs_ends pfns : ∀ run e c, ends (copy_runs ram pfns run e c).
Proof. induction pfns as [|p pfns IH]; intros run e c; simpl; ends_steps. Qed.

Lemma write_nonzero_pages_ends source len at_ : (∀ o n, ends (source o n)) → ends (write_nonzero_pages ram source len at_).
Proof.
  intros Hs. assert (∀ a b, ends (write_source ram source at_ a b)) as Hw by (intros; unfold write_source; ends_steps).
  assert (∀ starts run w, ends (write_runs ram source len at_ starts run w)) as Hruns; [|apply Hruns].
  induction starts as [|p l IH]; intros run w; simpl; ends_steps.
Qed.

Lemma populated_pages_ends : ends (populated_pages ram).
Proof. unfold populated_pages. ends_steps. Qed.

Lemma overlay_touched_ends start touched : ∀ k bytes, ends (overlay_touched ram start touched k bytes).
Proof. induction touched as [|t touched IH]; intros k bytes; simpl; ends_steps. Qed.
#[local] Hint Resolve overlay_touched_ends : live.

Lemma write_chunk_ends p start e : ends (write_chunk ram pread p start e).
Proof.
  unfold write_chunk, read_untouched_op, lazy_part. ends_steps; apply write_nonzero_pages_ends; intros; ends_steps.
Qed.

Lemma try_clone_ends start e t : ends (try_clone ram pread ficlonerange start e t).
Proof.
  unfold try_clone, clone_untouched_op. ends_steps. intros s r s' Hs Hr. destruct (clone_untouched _ _ _ _ _ _ _) as [r' f].
  injection Hr as <- <-. split; [done|by destruct r'].
Qed.
#[local] Hint Resolve write_chunk_ends try_clone_ends : live.

Lemma lazy_chunks_ends chunk p (Hchunk : 0 < chunk) (Hpages : chunk mod PAGE_SIZE = 0) (Hlen : Z.of_nat (length p) = ram / PAGE_SIZE) fuel :
  ∀ start cloning w t, 0 ≤ start → start ≤ ram → (start mod chunk = 0 ∨ start = ram) → ram - start ≤ Z.of_nat fuel * chunk →
  ends (lazy_chunks ram pread ficlonerange fuel p chunk start cloning w t).
Proof.
  induction fuel as [|fuel IH]; intros start cloning w t H0 Hle Hmod Hfuel; cbn [lazy_chunks];
    (destruct (ram <=? start) eqn:E; bool_to_prop; [apply ends_done|]); [lia|].
  destruct (clone_run_end_ok ram chunk Hchunk p start cloning H0 Hle Hmod Hlen) as (Hre & Hrm & Hrun).
  set (re := clone_run_end ram p chunk start cloning) in *.
  assert (Z.min (start + chunk) ram mod chunk = 0 ∨ Z.min (start + chunk) ram = ram) as Hem.
  { destruct Hmod as [Hmod|]; [|lia]. destruct (Z.le_gt_cases (start + chunk) ram); [left|right; lia]. rewrite Z.min_l by lia.
    replace (start + chunk) with (start + 1 * chunk) by lia. by rewrite Z.mod_add by lia. }
  assert (∀ cl t', ends (let! w' := write_chunk ram pread p start (Z.min (start + chunk) ram) in
    lazy_chunks ram pread ficlonerange fuel p chunk (Z.min (start + chunk) ram) cl (w + w') t')) as Hgo.
  { intros cl t'. apply ends_bind; [apply write_chunk_ends|]. intros w'. apply IH; [lia|lia|done|lia]. }
  destruct (start <? re) eqn:Er; bool_to_prop.
  - apply ends_bind; [apply try_clone_ends|]. intros [[[]|] t']; [|apply Hgo..]. destruct (Hrun Er) as (_ & _ & ?). apply IH; [lia|lia|done|lia].
  - unfold try_clone. rewrite (proj2 (Z.ltb_ge start re)) by done. apply Hgo.
Qed.

Lemma write_lazy_restored_pages_ends chunk :
  0 < chunk → chunk mod PAGE_SIZE = 0 → ends (write_lazy_restored_pages ram pread ficlonerange chunk).
Proof.
  intros Hc Hp s r s' Hs Hr. apply bind_cases in Hr as [(p & s1 & H1 & Hr)|(e & He & ->)].
  2: { destruct (populated_pages_ends _ _ _ Hs He) as [? Hn]. split; [done|]. by intros [= ->]. }
  destruct (populated_pages_ok _ _ Hram _ _ _ Hs H1) as (C1 & _ & Hlen & _). destruct Hram as [? _].
  eapply lazy_chunks_ends; [..|exact (step_sane _ _ C1)|exact Hr]; [done|done|done|lia|lia|left; by apply Z.mod_0_l; lia|].
  unfold div_ceil. rewrite Z2Nat.id by (apply Z.div_pos; lia). pose proof (Z.mod_pos_bound (ram + chunk - 1) chunk Hc).
  pose proof (Z.div_mod (ram + chunk - 1) chunk ltac:(lia)). lia.
Qed.

Lemma bulk_ends : ends (bulk ram pread ficlonerange).
Proof.
  intros s r s' Hs Hr. unfold bulk, op_bind at 1 in Hr. cbn [the_guest] in Hr. destruct (g_lazy (l_guest s)) as [l|] eqn:Hl.
  - destruct (sane_lazy _ _ _ Hs l Hl) as (Hwf & _). destruct (untouched_chunk_pages (lp_hook l) Hwf) as [? ?]. by eapply write_lazy_restored_pages_ends.
  - revert Hr. apply ends_bind; [|intros; apply ends_done|done]. apply write_nonzero_pages_ends. apply load_ends.
Qed.

Lemma enable_ends : ends (enable_dirty_logging ram host_ptr).
Proof.
  apply (ends_within holds); [apply enable_holds|]. intros s. unfold enable_dirty_logging, op_bind, interfere.
  destruct (pop _ _). by destruct (register_with_dirty_logging _ _ _) as [[]].
Qed.

Lemma read_dirty_ends : ends (read_dirty ram).
Proof.
  apply (ends_within holds); [apply read_dirty_holds|]. intros s. unfold read_dirty, op_bind, interfere.
  destruct (pop _ _). by destruct (read_dirty_log _ _ _) as [[]].
Qed.

Lemma drain_ends : ends (drain_host_dirty ram).
Proof.
  apply (ends_within holds); [apply drain_holds|]. intros s. unfold drain_host_dirty, op_bind, interfere.
  by destruct (pop _ _).
Qed.

Lemma consume_ends b : ends (consume b).
Proof. by intros s r s' Hs [= <- <-]. Qed.

Lemma fenced_ends {A} (c : op Live A) : ends c → ends (fenced ram c).
Proof.
  intros Hc. unfold fenced. apply ends_bind; [apply interfere_ends|intros _]. apply ends_bind; [|intros _].
  { apply (ends_within calm); [|done]. apply (update_fence_calm (fun g => match g_lazy g with Some _ => true | None => false end)). }
  apply ends_attempt; [done|]. intros r Hr. apply ends_bind; [|intros _].
  { apply (ends_within calm); [|done]. apply (update_fence_calm (fun _ => false)). }
  intros s r' s' Hs [= <- <-]. done.
Qed.

Lemma fenced_copy_ends b : ends (fenced ram (copy_dirty_pages ram b)).
Proof. apply fenced_ends, copy_runs_ends. Qed.
#[local] Hint Resolve enable_ends read_dirty_ends drain_ends consume_ends fenced_copy_ends : live.

Lemma baseline_ends : ends (baseline ram host_ptr).
Proof. unfold baseline. ends_steps. Qed.

Lemma precopy_rounds_ends config start rounds : ∀ last st, ends (precopy_rounds ram config start rounds last st).
Proof.
  induction rounds as [|round rounds IH]; intros last st; cbn [precopy_rounds]; [ends_steps|]. unfold copy_round. ends_steps.
Qed.

Lemma final_stop_ends pend : ends (final_stop ram capture_state pend).
Proof.
  unfold final_stop. apply ends_bind; [apply pause_all_ends|intros _]. apply ends_attempt; [apply quiesce_io_ends|]. intros io Hio. destruct io as [u|e].
  - apply ends_attempt; [|intros r Hr; by apply finish_final_stop_ends]. unfold capture. ends_steps.
  - ends_steps.
Qed.

(** C39: a live snapshot terminates. The loop over the chunks of a lazily
    restored guest advances by at least a chunk each time, so that it never
    uses up the iterations it is given, one for each chunk of RAM; every other
    loop of [live_snapshot] runs over a list. A run therefore returns an
    output, an error of the code or a panic of the code, whatever runs beside
    it and whatever the system calls answer. *)
Theorem live_snapshot_terminates config s :
  sane (l_guest s) → (live_snapshot ram pread ficlonerange host_ptr capture_state config s).1 ≠ Err Stuck.
Proof.
  intros Hs. destruct (live_snapshot _ _ _ _ _ _ s) as [r s'] eqn:Hl. simpl. revert s r s' Hs Hl.
  assert (ends (live_snapshot ram pread ficlonerange host_ptr capture_state config)) as Hends.
  { unfold live_snapshot. apply ends_bind; [by intros s r s' Hs [= <- <-]|intros _]. apply ends_attempt.
    - unfold snapshot_body. pose proof (fenced_ends _ bulk_ends). pose proof baseline_ends. pose proof precopy_rounds_ends.
      pose proof final_stop_ends. ends_steps. by intros s r s' Hs [= <- <-].
    - intros r Hr. destruct r as [out|e]; [apply ends_done|]. intros s r' s' Hs [= <- <-]. split; [|by intros [= ->]].
      destruct Hs as [? ? ? ? ?]. by split. }
  intros s r s' Hs Hl. by destruct (Hends _ _ _ Hs Hl).
Qed.
End phases.

(** ** A snapshot of a restored guest *)

Module LiveExamples.

#[local] Instance whole_hash : Sha256 := fun bs => bs.

Section run.
Context (m : list Z).

(** Two pages of RAM restored from [m] and not touched yet, one processor. *)
Definition ex_hook : LazyPageDiscard := discard_new 65536 8192 0 None.
Definition ex_pread (o n : Z) : option (list Z) := Some (slice (Z.to_nat o) (Z.to_nat n) m).
Definition ex_cloned (dest : list Z) (a n at_ : Z) : list Z :=
  imap (fun x b => if decide (at_ ≤ Z.of_nat x < at_ + n) then default b (m !! Z.to_nat (a + (Z.of_nat x - at_))) else b) dest.
Definition ex_clone (dest : list Z) (a n at_ : Z) : option (list Z) := Some (ex_cloned dest a n at_).
Definition ex_config : LiveSnapshotConfig := mkConfig 1000 2 1.
Definition ex_host_ptr (gpa : Z) : Z := gpa.
Definition ex_capture (g : Guest SlotLogs Z unit) : result (Guest SlotLogs Z unit) VmmError := Ok g.
Definition ex_logs (pages : gset (Z * Z)) : SlotLogs := mkSlotLogs pages {[ 0 ]} ∅.
Definition ex_vcpu (captured : option Z) (regs : Z) : Vcpu Z := mkVcpu false false false true captured regs.

Definition ex_at (mem : list Z) (v : SlotLogs) (vc : Vcpu Z) (pagemap file : list Z) (consumed : DirtyBitmap.t)
    (waits : list (list (action Z unit))) : Live SlotLogs Z unit :=
  mkLive (mkGuest mem v DirtyBitmap.new [] [vc] IoRunning tt (Some (mkLazyPart ex_hook pagemap)) false) file consumed [] waits [] [] [].

(** The processor parks when asked, and leaves when released; in between it
    stores two bytes, after the only round has read the log. *)
Definition ex_first : list (list (action Z unit)) := [[]; [VcpuParks 0 true]; []; []; []; []; [VcpuLeaves 0]].
Definition ex_bulk : list (list (action Z unit)) := [[]; []; []; []].
Definition ex_round : list (list (action Z unit)) := [[]; []; []; [VcpuStore 0 5 [9; 9] 43]].
Definition ex_last : list (list (action Z unit)) := [[]; [VcpuParks 0 true]; []; []; []; []; []; []; []; []; [VcpuLeaves 0]].

Definition ex_start : Live SlotLogs Z unit :=
  ex_at m (ex_logs ∅) (ex_vcpu None 42) [0; 0] [] DirtyBitmap.new (ex_first ++ ex_bulk ++ ex_round ++ ex_last).

Lemma bind_to {A B} (c : op (Live SlotLogs Z unit) A) (k : A → op (Live SlotLogs Z unit) B) s a s1 :
  c s = (Ok a, s1) → op_bind c k s = k a s1.
Proof. intros Hc. unfold op_bind. by rewrite Hc. Qed.

Lemma attempt_to {A} (c : op (Live SlotLogs Z unit) A) s r s1 : c s = (r, s1) → attempt c s = (Ok r, s1).
Proof. intros Hc. unfold attempt. by rewrite Hc. Qed.

(** With nothing beside it, a load returns the bytes. *)
Lemma load_bytes_alone (ram : Z) (s : Live SlotLogs Z unit) (n : nat) : ∀ off,
  l_sched s = [] → 0 ≤ off → off + Z.of_nat n ≤ Z.of_nat (length (g_mem (l_guest s))) →
  (∀ o, off ≤ o < off + Z.of_nat n → fault_in (l_guest s) [o / PAGE_SIZE] = l_guest s) →
  load_bytes ram off n s = (Ok (slice (Z.to_nat off) n (g_mem (l_guest s))), s).
Proof.
  induction n as [|n IH]; intros off Hsch H0 Hlen Hf; cbn [load_bytes]; [done|].
  assert (on_guest (fun g => fault_in g [off / PAGE_SIZE]) (before_byte ram s) = s) as ->.
  { unfold before_byte, on_guest. rewrite Hsch. simpl. rewrite Hf by lia. destruct s; simpl in *. by subst. }
  rewrite IH; [|done|lia|lia|intros o Ho; apply Hf; lia].
  destruct (lookup_lt_is_Some_2 (g_mem (l_guest s)) (Z.to_nat off)) as [b Hb]; [lia|]. rewrite Hb. cbn [default]. do 2 f_equal.
  unfold slice. rewrite (drop_S _ _ _ Hb). cbn [take]. f_equal. f_equal. f_equal. f_equal. lia.
Qed.

Context (F M : list Z) (rest : list (list (action Z unit))).

Lemma ex_baseline :
  baseline 8192 ex_host_ptr (ex_at m (ex_logs ∅) (ex_vcpu None 42) [0; 0] F DirtyBitmap.new (ex_first ++ rest)) =
  (Ok tt, ex_at m (ex_logs ∅) (ex_vcpu (Some 42) 42) [0; 0] F DirtyBitmap.new rest).
Proof. reflexivity. Qed.

Lemma ex_bulk_clones :
  fenced 8192 (bulk 8192 ex_pread ex_clone) (ex_at m (ex_logs ∅) (ex_vcpu (Some 42) 42) [0; 0] F DirtyBitmap.new (ex_bulk ++ rest)) =
  (Ok (0, 0), ex_at m (ex_logs ∅) (ex_vcpu (Some 42) 42) [0; 0] (ex_cloned F 0 8192 0) DirtyBitmap.new ([] :: rest)).
Proof. reflexivity. Qed.

Lemma ex_rounds :
  precopy_rounds 8192 ex_config 0 (seqZ 2 1) 0 (mkPrecopy 1 (Continue 1 8192) MaxRounds DirtyBitmap.new 0 DEFAULT_COPY_BANDWIDTH_BPS)
    (ex_at m (ex_logs ∅) (ex_vcpu (Some 42) 42) [0; 0] F DirtyBitmap.new (ex_round ++ rest)) =
  (Ok (mkPrecopy 2 (Diverging 2) DivergingStop DirtyBitmap.new 0 DEFAULT_COPY_BANDWIDTH_BPS),
    ex_at (copy_from_slice m (Z.to_nat 5) [9; 9]) (ex_logs {[ (0, 0) ]}) (ex_vcpu (Some 42) 43) [PAGEMAP_POPULATED; 0] F DirtyBitmap.new rest).
Proof. reflexivity. Qed.

(** The guest in the final stop. *)
Definition ex_stopped (v : SlotLogs) (fence : bool) : Guest SlotLogs Z unit :=
  mkGuest M v DirtyBitmap.new [] [mkVcpu true true false true (Some 43) 43] IoParked tt (Some (mkLazyPart ex_hook [PAGEMAP_POPULATED; 0])) fence.
Definition ex_stop (con : DirtyBitmap.t) (v : SlotLogs) (fence : bool) (file : list Z) (waits : list (list (action Z unit))) : Live SlotLogs Z unit :=
  mkLive (ex_stopped v fence) file con [] waits [] [] [].

Lemma ex_pause con :
  pause_all 8192 (ex_at M (ex_logs {[ (0, 0) ]}) (ex_vcpu (Some 42) 43) [PAGEMAP_POPULATED; 0] F con (ex_last ++ rest)) =
  (Ok tt, ex_at M (ex_logs {[ (0, 0) ]}) (mkVcpu true true false true (Some 43) 43) [PAGEMAP_POPULATED; 0] F con (drop 2 ex_last ++ rest)).
Proof. reflexivity. Qed.

Lemma ex_quiesce con w :
  quiesce_io 8192 true (ex_at M (ex_logs {[ (0, 0) ]}) (mkVcpu true true false true (Some 43) 43) [PAGEMAP_POPULATED; 0] F con ([] :: w)) =
  (Ok tt, ex_stop con (ex_logs {[ (0, 0) ]}) false F w).
Proof. reflexivity. Qed.

Lemma ex_read con w :
  read_dirty 8192 (ex_stop con (ex_logs {[ (0, 0) ]}) false F ([] :: w)) = (Ok (DirtyBitmap.mk {[ 0 ]}), ex_stop con (ex_logs ∅) false F w).
Proof. reflexivity. Qed.

Lemma ex_drain con w : drain_host_dirty 8192 (ex_stop con (ex_logs ∅) false F ([] :: w)) = (Ok DirtyBitmap.new, ex_stop con (ex_logs ∅) false F w).
Proof. reflexivity. Qed.

Hypothesis (HM : Z.of_nat (length M) = 8192).

Lemma ex_page_run con w :
  copy_page_run 8192 0 1 (ex_stop con (ex_logs ∅) true F ([] :: w)) = (Ok 1, ex_stop con (ex_logs ∅) true (file_write F 0 (slice 0 page_n M)) w).
Proof.
  unfold copy_page_run. set (s := ex_stop con (ex_logs ∅) true F ([] :: w)).
  rewrite (bind_to _ _ s 1 s eq_refl), (bind_to _ _ s 0 s eq_refl), (bind_to _ _ s 4096 s eq_refl), (bind_to _ _ s 4096 s eq_refl).
  change (8192 <? 4096) with false. cbv iota. erewrite bind_to; [|apply load_bytes_alone]; [reflexivity|done|lia| |].
  - cbn [g_mem l_guest ex_stop ex_stopped s]. lia.
  - intros o Ho. replace (o / PAGE_SIZE) with 0 by (unfold PAGE_SIZE; zlia). reflexivity.
Qed.

Lemma ex_copy con w :
  copy_dirty_pages 8192 (DirtyBitmap.mk {[ 0 ]}) (ex_stop con (ex_logs ∅) true F ([] :: w)) =
  (Ok 1, ex_stop con (ex_logs ∅) true (file_write F 0 (slice 0 page_n M)) w).
Proof.
  unfold copy_dirty_pages. change (sorted_pfns 8192 (DirtyBitmap.mk {[ 0 ]})) with [0]. cbn [copy_runs].
  rewrite (bind_to _ _ _ _ _ (ex_page_run con w)). reflexivity.
Qed.

Lemma ex_fenced con w :
  fenced 8192 (copy_dirty_pages 8192 (DirtyBitmap.mk {[ 0 ]})) (ex_stop con (ex_logs ∅) false F ([] :: [] :: w)) =
  (Ok 1, ex_stop con (ex_logs ∅) false (file_write F 0 (slice 0 page_n M)) w).
Proof.
  unfold fenced. rewrite (bind_to (interfere 8192) _ (ex_stop con (ex_logs ∅) false F ([] :: [] :: w)) tt (ex_stop con (ex_logs ∅) false F ([] :: w)) eq_refl).
  rewrite (bind_to (update _) _ (ex_stop con (ex_logs ∅) false F ([] :: w)) tt (ex_stop con (ex_logs ∅) true F ([] :: w)) eq_refl).
  rewrite (bind_to _ _ _ (Ok 1) (ex_stop con (ex_logs ∅) true (file_write F 0 (slice 0 page_n M)) w)); [reflexivity|].
  unfold attempt. by rewrite ex_copy.
Qed.

(** What the guard has after the final read. *)
Definition ex_consumed (con : DirtyBitmap.t) : DirtyBitmap.t := DirtyBitmap.merge con (DirtyBitmap.mk {[ 0 ]}).

Lemma ex_captured con :
  capture 8192 ex_capture DirtyBitmap.new (ex_stop con (ex_logs {[ (0, 0) ]}) false F (drop 3 ex_last ++ rest)) =
  (Ok (ex_stopped (ex_logs ∅) false, 1, 1),
    ex_stop (ex_consumed con) (ex_logs ∅) false (file_write F 0 (slice 0 page_n M)) (drop 8 ex_last ++ rest)).
Proof.
  unfold capture. rewrite (bind_to _ _ _ _ _ (ex_read con (drop 4 ex_last ++ rest))).
  rewrite (bind_to _ _ _ _ _ (ex_drain con (drop 5 ex_last ++ rest))).
  change (DirtyBitmap.merge (DirtyBitmap.merge (DirtyBitmap.mk {[0]}) DirtyBitmap.new) DirtyBitmap.new) with (DirtyBitmap.mk {[ 0 ]}).
  cbv zeta. rewrite (bind_to (consume (DirtyBitmap.mk {[ 0 ]})) _ (ex_stop con (ex_logs ∅) false F (drop 5 ex_last ++ rest)) tt
    (ex_stop (ex_consumed con) (ex_logs ∅) false F (drop 5 ex_last ++ rest)) eq_refl).
  rewrite (bind_to _ _ _ _ _ (ex_fenced (ex_consumed con) (drop 7 ex_last ++ rest))). reflexivity.
Qed.

Lemma ex_final_stop con :
  final_stop 8192 ex_capture DirtyBitmap.new
    (ex_at M (ex_logs {[ (0, 0) ]}) (ex_vcpu (Some 42) 43) [PAGEMAP_POPULATED; 0] F con (ex_last ++ rest)) =
  (Ok (ex_stopped (ex_logs ∅) false, 1, 1),
    ex_at M (ex_logs ∅) (ex_vcpu (Some 43) 43) [PAGEMAP_POPULATED; 0] (file_write F 0 (slice 0 page_n M)) (ex_consumed con) rest).
Proof.
  unfold final_stop. rewrite (bind_to _ _ _ _ _ (ex_pause con)).
  rewrite (bind_to _ _ _ _ _ (attempt_to _ _ _ _ (ex_quiesce con (drop 3 ex_last ++ rest)))).
  rewrite (bind_to _ _ _ _ _ (attempt_to _ _ _ _ (ex_captured con))). reflexivity.
Qed.
End run.

Definition ex_snap : list Z := replicate (Z.to_nat 4096) 7 ++ replicate (Z.to_nat 4096) 5.
Lemma ex_snap_length : Z.of_nat (length ex_snap) = 8192.
Proof. unfold ex_snap. rewrite length_app, !length_replicate. lia. Qed.

Lemma ex_runs m (Hm : Z.of_nat (length (copy_from_slice m (Z.to_nat 5) [9; 9])) = 8192) : ∃ out s',
  live_snapshot 8192 (ex_pread m) (ex_clone m) ex_host_ptr ex_capture ex_config (ex_start m) = (Ok out, s') ∧
  out_state_blob out = ex_stopped (copy_from_slice m (Z.to_nat 5) [9; 9]) (ex_logs ∅) false.
Proof.
  assert (∃ out s', snapshot_body 8192 (ex_pread m) (ex_clone m) ex_host_ptr ex_capture ex_config (ex_start m) = (Ok out, s') ∧
    out_state_blob out = ex_stopped (copy_from_slice m (Z.to_nat 5) [9; 9]) (ex_logs ∅) false) as (out & s' & Hrun & Hout).
  2: { exists out, s'. split; [|done]. unfold live_snapshot.
       rewrite (bind_to guard_new _ (ex_start m) tt (ex_start m) eq_refl), (bind_to _ _ _ _ _ (attempt_to _ _ _ _ Hrun)). reflexivity. }
  set (F0 := take (Z.to_nat 8192) [] ++ replicate (Z.to_nat 8192 - length (@nil Z)) 0).
  unfold snapshot_body. rewrite (bind_to now _ (ex_start m) 0 (ex_start m) eq_refl). change (8192 =? 0) with false. cbv iota.
  rewrite (bind_to (set_len 8192) _ (ex_start m) tt
    (ex_at m (ex_logs ∅) (ex_vcpu None 42) [0; 0] F0 DirtyBitmap.new (ex_first ++ ex_bulk ++ ex_round ++ ex_last)) eq_refl).
  clearbody F0. rewrite (bind_to _ _ _ _ _ (ex_baseline m F0 (ex_bulk ++ ex_round ++ ex_last))).
  set (s1 := ex_at m (ex_logs ∅) (ex_vcpu (Some 42) 42) [0; 0] F0 DirtyBitmap.new (ex_bulk ++ ex_round ++ ex_last)).
  rewrite (bind_to now _ s1 0 s1 eq_refl), (bind_to now _ s1 0 s1 eq_refl). unfold s1. clear s1.
  rewrite (bind_to _ _ _ _ _ (ex_bulk_clones m F0 (ex_round ++ ex_last))). generalize (ex_cloned m F0 0 8192 0). intros F1. cbv iota beta.
  set (s2 := ex_at m (ex_logs ∅) (ex_vcpu (Some 42) 42) [0; 0] F1 DirtyBitmap.new (ex_round ++ ex_last)).
  rewrite (bind_to (sync_data 8192) _ (ex_at m (ex_logs ∅) (ex_vcpu (Some 42) 42) [0; 0] F1 DirtyBitmap.new ([] :: ex_round ++ ex_last)) tt s2 eq_refl).
  rewrite (bind_to (elapsed 0) _ s2 0 s2 eq_refl). unfold s2. clear s2. cbv zeta.
  rewrite (bind_to _ _ _ _ _ (ex_rounds m F1 ex_last)). cbn [pc_pending_final].
  set (s3 := ex_at _ _ _ _ _ _ _). rewrite (bind_to now _ s3 0 s3 eq_refl). unfold s3. clear s3.
  rewrite (bind_to _ _ _ _ _ (ex_final_stop F1 (copy_from_slice m (Z.to_nat 5) [9; 9]) [] Hm DirtyBitmap.new)). cbv iota beta.
  eexists _, _. split; [reflexivity|done].
Qed.

Lemma ex_sane : sane 8192 ex_snap (l_guest (ex_start ex_snap)).
Proof.
  split.
  - exact ex_snap_length.
  - intros e []%not_elem_of_nil.
  - intros e i []%not_elem_of_nil.
  - intros i v Hv Hc. destruct i as [|i]; [|done]. by injection Hv as <-.
  - intros l [= <-]. split; [by split|]. split; [split; [exact ex_snap_length|done|done]|]. split; [done|]. split; [done|].
    intros q (e & Hq & _). unfold fresh, lp_hook, snap_page. rewrite Nat2Z.id. by destruct q as [|[|]].
Qed.

Lemma ex_snapshot_file : snapshot_file 8192 ex_snap (ex_pread ex_snap) (ex_clone ex_snap) (source ex_hook).
Proof.
  split.
  - intros o n bs _ _ _ _ [= <-]. done.
  - intros dest a n at_ dest' Ha Hn Hle _ [= <-]. split; [apply length_imap|]. intros x Hx. unfold ex_cloned. rewrite list_lookup_imap.
    destruct (lookup_lt_is_Some_2 dest (Z.to_nat x)) as [b Hb]; [lia|]. rewrite Hb. cbn [fmap option_fmap option_map].
    rewrite Z2Nat.id by lia. case_decide; [|reflexivity].
    destruct (lookup_lt_is_Some_2 ex_snap (Z.to_nat (a + (x - at_)))) as [y Hy]; [pose proof ex_snap_length; lia|].
    change (source_offset (source ex_hook)) with 0. rewrite (Z.add_0_l a), Hy. reflexivity.
Qed.

Lemma ex_stored : Z.of_nat (length (copy_from_slice ex_snap (Z.to_nat 5) [9; 9])) = 8192.
Proof. rewrite length_copy_from_slice; [apply ex_snap_length|]. pose proof ex_snap_length. simpl. lia. Qed.

Notation ex_snapshot := (live_snapshot 8192 (ex_pread ex_snap) (ex_clone ex_snap) ex_host_ptr ex_capture ex_config).

Lemma ex_ram : ram_size 8192.
Proof. split; [unfold U64_MAX; lia|reflexivity]. Qed.

Lemma ex_source l : g_lazy (l_guest (ex_start ex_snap)) = Some l → source (lp_hook l) = source ex_hook.
Proof. by intros [= <-]. Qed.

Lemma ex_whole : whole_reads (V:=SlotLogs) 8192.
Proof. left. unfold MMIO_GAP_START. lia. Qed.

Lemma ex_logging : logging 8192 (l_guest (ex_start ex_snap)).
Proof.
  intros p Hp. unfold page_slot, low_pages. change (8192 / PAGE_SIZE) with 2 in Hp.
  change (Z.min 8192 MMIO_GAP_START / PAGE_SIZE) with 2. rewrite (proj2 (Z.ltb_lt p 2)) by lia. reflexivity.
Qed.

(** The image has the bytes that were stored after the round. *)
Lemma live_snapshot_coherent_witness : ∃ out s',
  ex_snapshot (ex_start ex_snap) = (Ok out, s') ∧ l_file s' = copy_from_slice ex_snap (Z.to_nat 5) [9; 9].
Proof.
  destruct (ex_runs ex_snap ex_stored) as (out & s' & Hrun & Hout). exists out, s'. split; [exact Hrun|].
  pose proof (live_snapshot_coherent 8192 ex_snap ex_ram (ex_pread ex_snap) (ex_clone ex_snap) (source ex_hook) ex_capture ex_host_ptr ex_config
    (ex_start ex_snap) out s' ex_snapshot_file ex_sane ex_source eq_refl Hrun) as (cut & _ & Hf & Hc).
  injection Hc as ->. rewrite Hf, Hout. reflexivity.
Defined.

(** The page that was stored to differs from the snapshot it was restored
    from, and is among the consumed ones. *)
Lemma live_snapshot_loses_nothing_witness : ∃ out s',
  ex_snapshot (ex_start ex_snap) = (Ok out, s') ∧
  ∀ o, 0 ≤ o < 8192 → ex_snap !! Z.to_nat o = g_mem (l_guest s') !! Z.to_nat o ∨ dirty 8192 (l_guest s') (o / PAGE_SIZE) ∨
    ∃ out', Ok out = Ok (E:=LiveError) out' ∧ o / PAGE_SIZE ∈ DirtyBitmap.dirty (out_consumed_dirty out').
Proof.
  destruct (ex_runs ex_snap ex_stored) as (out & s' & Hrun & _). exists out, s'. split; [exact Hrun|].
  exact (live_snapshot_loses_nothing 8192 ex_snap ex_ram (ex_pread ex_snap) (ex_clone ex_snap) ex_capture ex_host_ptr ex_config
    (ex_start ex_snap) (Ok out) s' ex_snap ex_whole ex_sane ex_logging (fun _ _ => or_introl eq_refl) Hrun).
Defined.

(** The guest runs again. *)
Lemma live_snapshot_fails_closed_witness : ∃ out s',
  ex_snapshot (ex_start ex_snap) = (Ok out, s') ∧ g_io (l_guest s') = IoRunning ∧
  ∀ i v, g_vcpus (l_guest s') !! i = Some v → v_control v = false.
Proof.
  destruct (ex_runs ex_snap ex_stored) as (out & s' & Hrun & _). exists out, s'. split; [exact Hrun|].
  exact (proj2 (live_snapshot_fails_closed 8192 ex_snap ex_ram (ex_pread ex_snap) (ex_clone ex_snap) ex_capture ex_host_ptr ex_config
    (ex_start ex_snap) (Ok out) s' ex_sane eq_refl Hrun) out eq_refl).
Defined.

Lemma live_snapshot_terminates_witness : (ex_snapshot (ex_start ex_snap)).1 ≠ Err Stuck.
Proof.
  exact (live_snapshot_terminates 8192 ex_snap ex_ram (ex_pread ex_snap) (ex_clone ex_snap) ex_capture ex_host_ptr ex_config (ex_start ex_snap) ex_sane).
Defined.

End LiveExamples.
