(* ===== verification/RateLimit.v ===== *)
(** * The token bucket ([vmm-devices/src/rate_limit.rs])

    A bucket holds at most [capacity] tokens, refills with time and may go
    into debt for one request larger than itself. Times are [u64] nanoseconds
    and token counts are [i128]; the saturating operations are written out,
    and the invariant shows that they never saturate. *)

From S2P Require Import Prelude.

Definition NANOS_PER_SEC : Z := 1000000000.
Definition I128_MAX : Z := 2 ^ 127 - 1.
Definition I128_MIN : Z := - 2 ^ 127.

(** [i128::saturating_add] and [saturating_sub]. *)
Definition i128_saturating (x : Z) : Z := Z.max I128_MIN (Z.min x I128_MAX).

Module TokenBucket.

Record t := mk {
  capacity : Z;
  refill_per_sec : Z;
  tokens : Z;
  last_refill_ns : Z;
}.

Definition new_at (capacity refill_per_sec now_ns : Z) : t :=
  mk capacity refill_per_sec capacity now_ns.

Definition new (capacity refill_per_sec : Z) : t := new_at capacity refill_per_sec 0.

Definition refill (b : t) (now_ns : Z) : t :=
  if (refill_per_sec b =? 0) || (now_ns <=? last_refill_ns b) then b
  else
    let elapsed_ns := now_ns - last_refill_ns b in
    let added := elapsed_ns * refill_per_sec b / NANOS_PER_SEC in
    if added =? 0 then b
    else
      let elapsed_for_added := Z.max (added * NANOS_PER_SEC / refill_per_sec b) 1 in
      let added' := Z.min added I128_MAX in
      let tokens' := Z.min (i128_saturating (tokens b + added')) (capacity b) in
      let last' :=
        if capacity b <=? tokens' then now_ns
        else u64_saturating_add (last_refill_ns b) (Z.min elapsed_for_added elapsed_ns) in
      mk (capacity b) (refill_per_sec b) tokens' last'.

Definition can_consume (b : t) (amount : Z) : bool :=
  if amount =? 0 then true
  else if capacity b =? 0 then false
  else if amount <=? capacity b then amount <=? tokens b
  else capacity b <=? tokens b.

Definition consume_without_refill (b : t) (amount : Z) : t :=
  mk (capacity b) (refill_per_sec b) (i128_saturating (tokens b - amount)) (last_refill_ns b).

Definition consume (b : t) (amount now_ns : Z) : bool * t :=
  let b1 := refill b now_ns in
  if negb (can_consume b1 amount) then (false, b1)
  else (true, consume_without_refill b1 amount).

End TokenBucket.

Module RateLimiter.
Import TokenBucket.

Record t := mk {
  ops : TokenBucket.t;
  bytes : TokenBucket.t;
}.

(** [new_with_clock] with what the clock reads. *)
Definition new_at (ops_per_sec bytes_per_sec now_ns : Z) : t :=
  mk (TokenBucket.new_at ops_per_sec ops_per_sec now_ns)
    (TokenBucket.new_at bytes_per_sec bytes_per_sec now_ns).

Definition try_charge_at (l : t) (n_ops n_bytes now_ns : Z) : bool * t :=
  let o := refill (ops l) now_ns in
  let b := refill (bytes l) now_ns in
  if negb (can_consume o n_ops) || negb (can_consume b n_bytes) then (false, mk o b)
  else (true, mk (consume_without_refill o n_ops) (consume_without_refill b n_bytes)).

End RateLimiter.

Import TokenBucket.

(** The ranges of the fields, a full bucket at most, and a debt of at most
    one request. *)
Definition bucket_ok (b : t) : Prop :=
  in_u64 (capacity b) ∧ in_u64 (refill_per_sec b) ∧ in_u64 (last_refill_ns b) ∧
  - U64_MAX ≤ tokens b ≤ capacity b.

(** Requests (amount, time) one after the other; the amounts granted. *)
Fixpoint serve (b : t) (reqs : list (Z * Z)) : list Z * t :=
  match reqs with
  | [] => ([], b)
  | (amount, now) :: reqs' =>
      let '(ok, b1) := consume b amount now in
      let '(granted, b') := serve b1 reqs' in
      ((if ok then [amount] else []) ++ granted, b')
  end.

(** Request times do not go back. *)
Fixpoint times_from (t0 : Z) (reqs : list (Z * Z)) : Prop :=
  match reqs with
  | [] => True
  | (amount, now) :: reqs' => in_u64 amount ∧ t0 ≤ now ≤ U64_MAX ∧ times_from now reqs'
  end.

Definition last_time (t0 : Z) (reqs : list (Z * Z)) : Z :=
  match last reqs with Some (_, now) => now | None => t0 end.

Definition sum (l : list Z) : Z := foldr Z.add 0 l.

(** Tokens and the credit for time not yet turned into tokens, in units of
    a billionth of a token. *)
Definition credit (b : t) (now : Z) : Z :=
  tokens b * NANOS_PER_SEC + (now - last_refill_ns b) * refill_per_sec b.

Section bucket.

Lemma refill_same b now : capacity (refill b now) = capacity b ∧ refill_per_sec (refill b now) = refill_per_sec b.
Proof. unfold refill. by repeat case_goal. Qed.

Lemma refill_ok b now : bucket_ok b → in_u64 now → bucket_ok (refill b now).
Proof.
  intros (Hc & Hr & Hl & Ht) Hn. unfold refill.
  destruct (_ || _) eqn:E1; [done|]. bool_to_prop.
  destruct (_ =? 0) eqn:E2; [done|]. bool_to_prop.
  unfold bucket_ok, in_u64, u64_saturating_add, i128_saturating, I128_MAX, I128_MIN, U64_MAX in *.
  cbn [capacity refill_per_sec tokens last_refill_ns].
  set (added := _ / NANOS_PER_SEC) in *.
  assert (0 ≤ added) by (subst added; apply Z.div_pos; unfold NANOS_PER_SEC; nia).
  split_and!; try lia; case_goal; lia.
Qed.

(** Refilling at [now] never loses credit beyond the bucket's capacity and
    gains less than one nanosecond's worth. *)
Lemma refill_credit b now :
  bucket_ok b → in_u64 now → last_refill_ns b ≤ now →
  last_refill_ns b ≤ last_refill_ns (refill b now) ≤ now ∧
  credit (refill b now) now ≤ credit b now + refill_per_sec b.
Proof.
  intros (Hc & Hr & Hl & Ht) Hn Hle. unfold credit, refill.
  destruct (_ || _) eqn:E1; [split; [lia|unfold in_u64 in Hr; lia]|]. bool_to_prop.
  destruct (_ =? 0) eqn:E2; [split; [lia|unfold in_u64 in Hr; lia]|]. bool_to_prop.
  cbn [capacity refill_per_sec tokens last_refill_ns].
  set (el := now - last_refill_ns b) in *. set (added := el * refill_per_sec b / NANOS_PER_SEC) in *.
  unfold in_u64 in *.
  assert (0 < added ∧ added * NANOS_PER_SEC ≤ el * refill_per_sec b) as [Ha Hb].
  { subst added. unfold NANOS_PER_SEC in *. assert (0 ≤ el * refill_per_sec b) by nia. zlia. }
  assert (i128_saturating (tokens b + Z.min added I128_MAX) ≤ tokens b + added) as Hsat.
  { unfold i128_saturating, I128_MIN, I128_MAX, U64_MAX in *. lia. }
  set (sat := i128_saturating _) in *.
  destruct (capacity b <=? Z.min sat (capacity b)) eqn:E3; bool_to_prop.
  - split; [lia|]. unfold NANOS_PER_SEC in *. nia.
  - rewrite Z.min_l in * by lia. set (q := added * NANOS_PER_SEC / refill_per_sec b).
    assert (q * refill_per_sec b ≤ added * NANOS_PER_SEC < (q + 1) * refill_per_sec b) as Hq.
    { pose proof (Z.div_mod (added * NANOS_PER_SEC) (refill_per_sec b) ltac:(lia)).
      pose proof (Z.mod_pos_bound (added * NANOS_PER_SEC) (refill_per_sec b) ltac:(lia)).
      subst q. lia. }
    assert (q ≤ el) by nia.
    assert (1 ≤ el) by lia. unfold u64_saturating_add, U64_MAX in *.
    rewrite (Z.min_l (Z.max q 1) el) by lia. rewrite Z.min_l by lia. split; [lia|].
    assert (q * refill_per_sec b ≤ Z.max q 1 * refill_per_sec b)
      by (apply Z.mul_le_mono_nonneg_r; lia).
    unfold NANOS_PER_SEC in *. lia.
Qed.

Lemma can_consume_bound b amount :
  bucket_ok b → in_u64 amount → can_consume b amount = true →
  - U64_MAX ≤ tokens b - amount ≤ capacity b.
Proof.
  intros (Hc & Hr & Hl & Ht) Ha. unfold can_consume, in_u64 in *.
  repeat case_goal; intros; bool_to_prop; try done; lia.
Qed.

Lemma consume_charge b amount :
  bucket_ok b → in_u64 amount → can_consume b amount = true →
  bucket_ok (consume_without_refill b amount) ∧
  tokens (consume_without_refill b amount) = tokens b - amount.
Proof.
  intros Hok Ha Hcan. pose proof (can_consume_bound _ _ Hok Ha Hcan) as Hb.
  destruct Hok as (Hc & Hr & Hl & Ht). unfold consume_without_refill, bucket_ok.
  cbn [capacity refill_per_sec tokens last_refill_ns].
  assert (i128_saturating (tokens b - amount) = tokens b - amount) as ->
    by (unfold i128_saturating, I128_MIN, I128_MAX, in_u64, U64_MAX in *; lia).
  auto.
Qed.

(** A refill does not take tokens away. *)
Lemma refill_tokens b now : bucket_ok b → in_u64 now → tokens b ≤ tokens (refill b now).
Proof.
  intros (Hc & Hr & Hl & Ht) Hn. unfold refill.
  destruct (_ || _) eqn:E1; [done|]. bool_to_prop. destruct (_ =? 0) eqn:E2; [done|]. cbn [tokens].
  set (added := _ / NANOS_PER_SEC) in *.
  assert (0 ≤ added) by (subst added; apply Z.div_pos; unfold NANOS_PER_SEC, in_u64 in *; nia).
  unfold i128_saturating, I128_MAX, I128_MIN, in_u64, U64_MAX in *. lia.
Qed.

(** The debt of a bucket whose requests are at most [most]. *)
Lemma consume_debt b amount now most :
  bucket_ok b → in_u64 amount → in_u64 now → amount ≤ most → capacity b ≤ most →
  capacity b - most ≤ tokens b → capacity b - most ≤ tokens (consume b amount now).2.
Proof.
  intros Hok Ha Hn Hm Hcm Hdebt. pose proof (refill_ok b now Hok Hn) as Hok1.
  pose proof (refill_tokens b now Hok Hn) as Hup. destruct (refill_same b now) as [Hcap _].
  unfold consume. destruct (can_consume (refill b now) amount) eqn:Ec; cbn [negb snd]; [|lia].
  destruct (consume_charge _ _ Hok1 Ha Ec) as [_ ->]. revert Ec. unfold can_consume, in_u64 in *.
  rewrite Hcap. repeat case_goal; intros; bool_to_prop; try done; lia.
Qed.

Lemma consume_ok b amount now :
  bucket_ok b → in_u64 amount → in_u64 now → last_refill_ns b ≤ now →
  let '(ok, b') := consume b amount now in
  bucket_ok b' ∧ capacity b' = capacity b ∧ refill_per_sec b' = refill_per_sec b ∧
  last_refill_ns b' ≤ now ∧
  credit b' now + (if ok then amount else 0) * NANOS_PER_SEC ≤ credit b now + refill_per_sec b.
Proof.
  intros Hok Ha Hn Hle. unfold consume.
  pose proof (refill_ok b now Hok Hn) as Hok1.
  destruct (refill_credit b now Hok Hn Hle) as [Hl Hcr].
  destruct (refill_same b now) as [Hcap Hrate]. set (b1 := refill b now) in *.
  destruct (can_consume b1 amount) eqn:Ec; cbn [negb].
  - destruct (consume_charge b1 amount Hok1 Ha Ec) as [Hok2 Htok].
    split_and!; [done|done|done|cbn; lia|].
    unfold credit in *. rewrite Htok. cbn [refill_per_sec last_refill_ns consume_without_refill]. lia.
  - split_and!; [done|done|done|lia|lia].
Qed.

Lemma serve_ok reqs : ∀ b t0,
  bucket_ok b → last_refill_ns b ≤ t0 → times_from t0 reqs →
  let '(granted, b') := serve b reqs in
  bucket_ok b' ∧ last_refill_ns b' ≤ last_time t0 reqs ∧ refill_per_sec b' = refill_per_sec b ∧
  t0 ≤ last_time t0 reqs ∧
  credit b' (last_time t0 reqs) + sum granted * NANOS_PER_SEC ≤
  credit b t0 + (last_time t0 reqs - t0 + Z.of_nat (length reqs)) * refill_per_sec b.
Proof.
  induction reqs as [|[amount now] reqs IH]; intros b t0 Hok Hle Ht; cbn [serve].
  { unfold last_time. simpl. split_and!; [done|done|done|done|lia]. }
  destruct Ht as (Ha & Hn & Ht).
  assert (in_u64 now) as Hn' by (destruct Hok as (_ & _ & [? _] & _); unfold in_u64; lia).
  pose proof (consume_ok b amount now Hok Ha Hn' ltac:(lia)) as Hc.
  destruct (consume b amount now) as [ok b1]. destruct Hc as (Hok1 & Hcap & Hrate & Hle1 & Hcr).
  specialize (IH b1 now Hok1 Hle1 Ht). destruct (serve b1 reqs) as [granted b'].
  assert (last_time t0 ((amount, now) :: reqs) = last_time now reqs) as ->
    by (unfold last_time; rewrite last_cons; by destruct (last reqs) as [[]|]).
  destruct IH as (Hok' & Hl' & Hr' & Hge & Hcr'). rewrite Hrate in *.
  split_and!; [done|done|done|lia|].
  assert (sum ((if ok then [amount] else []) ++ granted) = (if ok then amount else 0) + sum granted)
    as -> by (destruct ok; simpl; unfold sum; simpl; lia).
  assert (credit b now = credit b t0 + (now - t0) * refill_per_sec b) as Hnow
    by (unfold credit; lia).
  rewrite length_cons, Nat2Z.inj_succ. lia.
Qed.

Lemma serve_debt most reqs : ∀ b t0,
  bucket_ok b → last_refill_ns b ≤ t0 → times_from t0 reqs → Forall (fun r => r.1 ≤ most) reqs →
  capacity b ≤ most → capacity b - most ≤ tokens b →
  capacity (serve b reqs).2 = capacity b ∧ capacity b - most ≤ tokens (serve b reqs).2.
Proof.
  induction reqs as [|[amount now] reqs IH]; intros b t0 Hok Hle Ht Hall Hcm Hdebt; cbn [serve]; [done|].
  destruct Ht as (Ha & Hn & Ht). apply Forall_cons in Hall as [Hm Hall].
  assert (in_u64 now) as Hn' by (destruct Hok as (_ & _ & [? _] & _); unfold in_u64; lia).
  pose proof (consume_ok b amount now Hok Ha Hn' ltac:(lia)) as Hc.
  pose proof (consume_debt b amount now most Hok Ha Hn' Hm Hcm Hdebt) as Hd.
  destruct (consume b amount now) as [ok b1]. destruct Hc as (Hok1 & Hcap & _ & Hle1 & _). cbn [snd] in Hd.
  rewrite <- Hcap in *. specialize (IH b1 now Hok1 Hle1 Ht Hall Hcm Hd). by destruct (serve b1 reqs).
Qed.

End bucket.

(** ** The claims *)

(** C33: Over any sequence of requests at non-decreasing times, none larger
    than [most] (which is at least the capacity of the bucket), what a bucket
    that starts full grants is at most [most] plus the refill for the elapsed
    time, up to the refill of one nanosecond per request: where no request
    exceeds the capacity, a full bucket plus the refill. The bucket never
    holds more than its capacity and never owes more than the part of one
    request that exceeds the capacity, the grants and what is left together
    are at most a full bucket plus the refill, and no operation saturates. *)
Theorem bucket_conserves cap rate t0 most reqs :
  in_u64 cap → in_u64 rate → in_u64 t0 → times_from t0 reqs →
  cap ≤ most → Forall (fun '(amount, _) => amount ≤ most) reqs →
  let '(granted, b) := serve (new_at cap rate t0) reqs in
  bucket_ok b ∧ cap - most ≤ tokens b ≤ cap ∧
  sum granted * NANOS_PER_SEC ≤
    most * NANOS_PER_SEC + (last_time t0 reqs - t0 + Z.of_nat (length reqs)) * rate ∧
  (sum granted + tokens b) * NANOS_PER_SEC ≤
    cap * NANOS_PER_SEC + (last_time t0 reqs - t0 + Z.of_nat (length reqs)) * rate.
Proof.
  intros Hc Hr Ht Hreqs Hcm Hall.
  assert (bucket_ok (new_at cap rate t0)) as Hok
    by (unfold bucket_ok, new_at, in_u64, U64_MAX in *; simpl; lia).
  pose proof (serve_ok reqs (new_at cap rate t0) t0 Hok (Z.le_refl t0) Hreqs) as Hs.
  pose proof (serve_debt most reqs (new_at cap rate t0) t0 Hok (Z.le_refl t0) Hreqs) as Hd.
  cbn [new_at capacity tokens] in Hd. destruct Hd as [Hcap Hdebt]; [|done|unfold in_u64 in Hc; lia|].
  { eapply Forall_impl; [exact Hall|]. by intros []. }
  destruct (serve (new_at cap rate t0) reqs) as [granted b]. cbn [snd] in Hcap, Hdebt.
  destruct Hs as (Hok' & Hl & Hrate & Hge & Hcr). split; [done|].
  unfold credit in Hcr. cbn [new_at tokens last_refill_ns refill_per_sec] in Hcr, Hrate.
  rewrite Hrate, Z.sub_diag, Z.mul_0_l in Hcr. unfold in_u64 in Hr.
  assert (0 ≤ (last_time t0 reqs - last_refill_ns b) * rate) by (apply Z.mul_nonneg_nonneg; lia).
  destruct Hok' as (_ & _ & _ & _ & Hfull). rewrite Hcap in Hfull.
  assert ((cap - most) * NANOS_PER_SEC ≤ tokens b * NANOS_PER_SEC) by (unfold NANOS_PER_SEC; lia).
  split_and!; lia.
Qed.

(** A request no larger than the bucket is granted as soon as enough time
    has passed for the missing tokens. *)
Theorem bucket_grants_when_due b amount now :
  bucket_ok b → in_u64 now → in_u64 amount → amount ≤ capacity b → 0 < refill_per_sec b →
  last_refill_ns b < now →
  (amount - tokens b) * NANOS_PER_SEC ≤ (now - last_refill_ns b) * refill_per_sec b →
  (consume b amount now).1 = true.
Proof.
  intros Hok Hn Ha Hcap Hr Hlt Hdue. destruct (refill_same b now) as [Hc _].
  assert (amount ≤ tokens (refill b now)) as Hge.
  { destruct Hok as (Hc' & Hr' & Hl & Ht). unfold refill.
    rewrite (proj2 (Z.eqb_neq _ _)), (proj2 (Z.leb_gt _ _)) by lia. cbn [orb].
    set (added := _ / NANOS_PER_SEC).
    assert (amount - tokens b ≤ added) as Hadd
      by (subst added; apply Z.div_le_lower_bound; unfold NANOS_PER_SEC in *; lia).
    destruct (added =? 0) eqn:E; bool_to_prop; [lia|]. cbn [tokens].
    unfold i128_saturating, I128_MIN, I128_MAX, in_u64, U64_MAX in *. lia. }
  unfold consume, can_consume. rewrite Hc.
  destruct (amount =? 0) eqn:E0; [done|]. bool_to_prop. unfold in_u64 in Ha.
  rewrite (proj2 (Z.eqb_neq (capacity b) 0)) by lia.
  rewrite (proj2 (Z.leb_le amount (capacity b))) by lia.
  by rewrite (proj2 (Z.leb_le amount _)).
Qed.

(** Charging both buckets is all or nothing: either both are charged by
    exactly what was asked, or neither is, and it is refused exactly when one
    of the refilled buckets cannot afford its part. *)
Theorem try_charge_atomic l n_ops n_bytes now :
  bucket_ok (RateLimiter.ops l) → bucket_ok (RateLimiter.bytes l) →
  in_u64 n_ops → in_u64 n_bytes → in_u64 now →
  let o := refill (RateLimiter.ops l) now in
  let b := refill (RateLimiter.bytes l) now in
  let '(ok, l') := RateLimiter.try_charge_at l n_ops n_bytes now in
  ok = can_consume o n_ops && can_consume b n_bytes ∧
  tokens (RateLimiter.ops l') = tokens o - (if ok then n_ops else 0) ∧
  tokens (RateLimiter.bytes l') = tokens b - (if ok then n_bytes else 0) ∧
  bucket_ok (RateLimiter.ops l') ∧ bucket_ok (RateLimiter.bytes l').
Proof.
  intros Ho Hb H1 H2 Hn o b. unfold RateLimiter.try_charge_at. fold o b.
  pose proof (refill_ok _ _ Ho Hn) as Ho'. pose proof (refill_ok _ _ Hb Hn) as Hb'.
  destruct (can_consume o n_ops) eqn:E1, (can_consume b n_bytes) eqn:E2; cbn [negb orb andb];
    cbn [RateLimiter.ops RateLimiter.bytes]; try (split_and!; try done; lia).
  destruct (consume_charge o n_ops Ho' H1 E1) as [? ->].
  destruct (consume_charge b n_bytes Hb' H2 E2) as [? ->]. done.
Qed.

(** ** Witnesses *)

(** A request larger than the bucket puts it into debt. *)
Definition example_requests : list (Z * Z) := [(5, 0); (4, 1333333333); (7, 1666666667); (7, 5000000000)].

Lemma example_requests_served :
  serve (new_at 5 3 0) example_requests = ([5; 7; 7], mk 5 3 (-2) 5000000000).
Proof. vm_compute. reflexivity. Qed.

Lemma bucket_conserves_witness :
  5 - 7 ≤ -2 ≤ 5 ∧
  sum [5; 7; 7] * NANOS_PER_SEC ≤
    7 * NANOS_PER_SEC + (last_time 0 example_requests - 0 + Z.of_nat (length example_requests)) * 3.
Proof.
  pose proof (bucket_conserves 5 3 0 7 example_requests) as H. rewrite example_requests_served in H.
  destruct H as (_ & H2 & H3 & _); [by vm_compute..| |].
  - unfold example_requests. rewrite !Forall_cons. split_and!; [lia..|]. apply Forall_nil_2.
  - exact (conj H2 H3).
Defined.

Lemma bucket_grants_when_due_witness :
  (consume (mk 5 3 0 0) 4 1333333334).1 = true.
Proof.
  apply (bucket_grants_when_due (mk 5 3 0 0) 4 1333333334);
    unfold bucket_ok, in_u64, U64_MAX, NANOS_PER_SEC; simpl; lia.
Defined.

Lemma try_charge_atomic_witness :
  let l := RateLimiter.new_at 10 100 0 in
  let '(ok, l') := RateLimiter.try_charge_at l 1 200 0 in
  ok = true ∧ tokens (RateLimiter.bytes l') = 100 - 200.
Proof.
  pose proof (try_charge_atomic (RateLimiter.new_at 10 100 0) 1 200 0) as H.
  unfold bucket_ok, in_u64, U64_MAX in H. simpl in H.
  specialize (H ltac:(lia) ltac:(lia) ltac:(lia) ltac:(lia) ltac:(lia)).
  destruct H as (H1 & _ & H3 & _). split; [exact H1|exact H3].
Defined.
