(* ===== verification/Bus.v ===== *)
(** * The MMIO bus ([vmm-devices/src/bus.rs])

    One flat bus dispatches vCPU MMIO exits by address. Devices are an
    interface with interior state: a write returns the device it leaves. The
    map is keyed by base address; [device_at] takes the entry with the largest
    base not above the address, which is the only candidate because ranges do
    not overlap. *)

From S2P Require Import Prelude.

Inductive BusError : Type :=
| Overlap (base end_ : Z)
| BusUnmapped (addr : Z).

Inductive MmioError : Type :=
| Unmapped (addr : Z)
| DeviceRejected.

Record MmioRange := mkRange {
  base : Z;
  rsize : Z;
}.

(** [base + size] on [u64]. *)
Definition range_end (r : MmioRange) : Z := (base r + rsize r) mod 18446744073709551616.

Definition range_contains (r : MmioRange) (addr : Z) : bool :=
  (base r <=? addr) && (addr <? range_end r).

(** [trait MmioDevice]. *)
Class MmioDevice (D : Type) := {
  mmio_read : D → Z → Z → result Z MmioError;
  mmio_write : D → Z → Z → Z → result unit MmioError * D;
}.

Section bus.
Context {D : Type} `{!MmioDevice D}.

Definition bus_new : gmap Z (MmioRange * D) := ∅.

Definition overlaps (range r : MmioRange) : bool :=
  (base range <? range_end r) && (base r <? range_end range).

Definition bus_insert (bus : gmap Z (MmioRange * D)) (range : MmioRange) (dev : D)
    : result (gmap Z (MmioRange * D)) BusError :=
  if existsb (fun e => overlaps range e.2.1) (map_to_list bus)
  then Err (Overlap (base range) (range_end range))
  else Ok (<[base range := (range, dev)]> bus).

(** The later of two entries by key. *)
Definition later (a b : option (Z * (MmioRange * D))) : option (Z * (MmioRange * D)) :=
  match a, b with
  | Some x, Some y => if x.1 <? y.1 then Some y else Some x
  | Some x, None => Some x
  | None, _ => b
  end.

(** [self.devices.range(..=addr).next_back()]. *)
Definition next_back (bus : gmap Z (MmioRange * D)) (addr : Z) : option (Z * (MmioRange * D)) :=
  foldr (fun e acc => if e.1 <=? addr then later (Some e) acc else acc) None (map_to_list bus).

Definition device_at (bus : gmap Z (MmioRange * D)) (addr : Z) : option (MmioRange * D) :=
  match next_back bus addr with
  | Some (_, (r, d)) => if range_contains r addr then Some (r, d) else None
  | None => None
  end.

Definition bus_read (bus : gmap Z (MmioRange * D)) (addr len : Z) : result Z MmioError :=
  match device_at bus addr with
  | None => Err (Unmapped addr)
  | Some (range, dev) => mmio_read dev (addr - base range) len
  end.

Definition bus_write (bus : gmap Z (MmioRange * D)) (addr val len : Z)
    : result unit MmioError * gmap Z (MmioRange * D) :=
  match device_at bus addr with
  | None => (Err (Unmapped addr), bus)
  | Some (range, dev) =>
      let '(r, dev') := mmio_write dev (addr - base range) val len in
      (r, <[base range := (range, dev')]> bus)
  end.

(** Ranges that fit in the address space and are not empty. *)
Definition range_ok (r : MmioRange) : Prop :=
  0 ≤ base r ∧ 0 < rsize r ∧ base r + rsize r ≤ U64_MAX.

(** Each range is keyed by its base and no two overlap. *)
Definition bus_ok (bus : gmap Z (MmioRange * D)) : Prop :=
  (∀ k r d, bus !! k = Some (r, d) → k = base r ∧ range_ok r) ∧
  ∀ k k' r r' d d', bus !! k = Some (r, d) → bus !! k' = Some (r', d') →
    k < k' → base r + rsize r ≤ base r'.

(** [addr] lies in a range of the bus. *)
Definition maps (bus : gmap Z (MmioRange * D)) (addr : Z) (r : MmioRange) (d : D) : Prop :=
  ∃ k, bus !! k = Some (r, d) ∧ base r ≤ addr < base r + rsize r.

Lemma range_end_ok r : range_ok r → range_end r = base r + rsize r.
Proof. intros (? & ? & ?). unfold range_end, U64_MAX in *. rewrite Z.mod_small; lia. Qed.

Lemma overlaps_true r r' :
  range_ok r → range_ok r' →
  overlaps r r' = true ↔ base r < base r' + rsize r' ∧ base r' < base r + rsize r.
Proof. intros. unfold overlaps. rewrite !range_end_ok, andb_true_iff, !Z.ltb_lt by done. done. Qed.

(** The fold picks an entry with the largest key not above [addr]. *)
Lemma next_back_spec (l : list (Z * (MmioRange * D))) addr :
  match foldr (fun e acc => if e.1 <=? addr then later (Some e) acc else acc) None l with
  | Some e => e ∈ l ∧ e.1 ≤ addr ∧ ∀ e', e' ∈ l → e'.1 ≤ addr → e'.1 ≤ e.1
  | None => ∀ e', e' ∈ l → addr < e'.1
  end.
Proof.
  induction l as [|e l IH]; cbn [foldr]; [intros e' He'; by apply not_elem_of_nil in He'|].
  set (acc := foldr _ None l) in *. destruct (e.1 <=? addr) eqn:E; bool_to_prop.
  - destruct acc as [x|]; cbn [later].
    + destruct IH as (Hx & Hle & Hmax). destruct (e.1 <? x.1) eqn:E2; bool_to_prop.
      * split; [by right|]. split; [done|]. intros e' [->|He']%elem_of_cons ?; [lia|by apply Hmax].
      * split; [by left|]. split; [done|]. intros e' [->|He']%elem_of_cons Hle'; [lia|].
        pose proof (Hmax e' He' Hle'). lia.
    + split; [by left|]. split; [done|]. intros e' [->|He']%elem_of_cons Hle'; [lia|].
      pose proof (IH e' He'). lia.
  - destruct acc as [x|].
    + destruct IH as (Hx & Hle & Hmax). split; [by right|]. split; [done|].
      intros e' [->|He']%elem_of_cons ?; [lia|by apply Hmax].
    + intros e' [->|He']%elem_of_cons; [lia|by apply IH].
Qed.

Lemma device_at_iff bus addr r d :
  bus_ok bus → device_at bus addr = Some (r, d) ↔ maps bus addr r d.
Proof.
  intros [Hk Hdis]. unfold device_at, next_back.
  pose proof (next_back_spec (map_to_list bus) addr) as Hn.
  destruct (foldr _ None (map_to_list bus)) as [[k [r0 d0]]|].
  - destruct Hn as (Hin & Hle & Hmax). apply elem_of_map_to_list in Hin. simpl in *.
    destruct (Hk _ _ _ Hin) as [-> Hok]. unfold range_contains. rewrite range_end_ok by done. split.
    + destruct (_ && _) eqn:E; [|done]. bool_to_prop. intros [= <- <-].
      exists (base r0). done.
    + intros (k & Hb & Hr). destruct (Hk _ _ _ Hb) as [-> Hokr].
      assert (base r ≤ base r0) as Hge
        by (apply (Hmax (base r, (r, d))); [by apply elem_of_map_to_list|simpl; lia]).
      destruct (decide (base r = base r0)) as [He|Hne].
      * rewrite He in Hb. rewrite Hb in Hin. injection Hin as <- <-.
        rewrite (proj2 (andb_true_iff _ _)); [done|]. rewrite Z.leb_le, Z.ltb_lt. done.
      * pose proof (Hdis _ _ _ _ _ _ Hb Hin ltac:(lia)). lia.
  - split; [done|]. intros (k & Hb & Hr). destruct (Hk _ _ _ Hb) as [-> _].
    pose proof (Hn (base r, (r, d)) (proj2 (elem_of_map_to_list _ _ _) Hb)). simpl in *. lia.
Qed.

Lemma existsb_overlap bus range :
  existsb (fun e : Z * (MmioRange * D) => overlaps range e.2.1) (map_to_list bus) = true ↔
  ∃ k r d, bus !! k = Some (r, d) ∧ overlaps range r = true.
Proof.
  rewrite existsb_exists. split.
  - intros ([k [r d]] & Hin & Ho). apply list_elem_of_In, elem_of_map_to_list in Hin. eauto.
  - intros (k & r & d & Hb & Ho). exists (k, (r, d)). split; [|done].
    by apply list_elem_of_In, elem_of_map_to_list.
Qed.

End bus.

(** ** The claims *)

(** Inserting a non-empty range fails exactly when it overlaps a device
    already on the bus, and then names the range; otherwise it keeps the ranges
    disjoint and maps exactly the new addresses in addition. *)
Theorem bus_insert_exact {D : Type} (bus : gmap Z (MmioRange * D)) range dev :
  bus_ok bus → range_ok range →
  match bus_insert bus range dev with
  | Ok bus' => bus_ok bus' ∧
      ∀ addr r d, maps bus' addr r d ↔
        (r = range ∧ d = dev ∧ base range ≤ addr < base range + rsize range) ∨ maps bus addr r d
  | Err e => e = Overlap (base range) (base range + rsize range) ∧
      ∃ addr r d, maps bus addr r d ∧ base range ≤ addr < base range + rsize range
  end.
Proof.
  intros [Hk Hdis] Hr. unfold bus_insert. destruct (existsb _ _) eqn:E.
  - rewrite range_end_ok by done. split; [done|].
    apply existsb_overlap in E as (k & r & d & Hb & Ho). destruct (Hk _ _ _ Hb) as [-> Hok].
    apply overlaps_true in Ho as [H1 H2]; [|done..].
    exists (Z.max (base range) (base r)), r, d. destruct Hr as (_ & ? & _), Hok as (_ & ? & _).
    split; [exists (base r); split; [done|lia]|lia].
  - assert (Hno : ∀ k r d, bus !! k = Some (r, d) →
      base range + rsize range ≤ base r ∨ base r + rsize r ≤ base range).
    { intros k r d Hb. destruct (Hk _ _ _ Hb) as [_ Hok].
      destruct (overlaps range r) eqn:Ho.
      - rewrite (proj2 (existsb_overlap bus range)) in E by eauto. done.
      - destruct (decide (base range < base r + rsize r)); [|lia].
        destruct (decide (base r < base range + rsize range)); [|lia].
        rewrite (proj2 (overlaps_true range r Hr Hok)) in Ho by lia. done. }
    destruct Hr as (Hr0 & Hr1 & Hr2).
    assert (Hlk : ∀ k r d, <[base range := (range, dev)]> bus !! k = Some (r, d) ↔
      (k = base range ∧ r = range ∧ d = dev) ∨ (k ≠ base range ∧ bus !! k = Some (r, d))).
    { intros k r d. rewrite lookup_insert. case_decide; naive_solver. }
    assert (bus !! base range = None) as Hfresh.
    { destruct (bus !! base range) as [[r d]|] eqn:Hb; [|done].
      destruct (Hk _ _ _ Hb) as [He (_ & ? & _)]. pose proof (Hno _ _ _ Hb). lia. }
    split; [split|].
    + intros k r d Hb. apply Hlk in Hb as [(-> & -> & ->)|[_ Hb]]; [done|by apply (Hk _ _ _ Hb)].
    + intros k k' r r' d d' Hb Hb' Hlt.
      apply Hlk in Hb as [(-> & -> & ->)|[_ Hb]], Hb' as [(-> & -> & ->)|[_ Hb']].
      * lia.
      * destruct (Hk _ _ _ Hb') as [-> (_ & ? & _)]. pose proof (Hno _ _ _ Hb'). lia.
      * destruct (Hk _ _ _ Hb) as [-> (_ & ? & _)]. pose proof (Hno _ _ _ Hb). lia.
      * by eapply (Hdis k k').
    + intros addr r d. unfold maps. setoid_rewrite Hlk. split.
      * intros (k & [(-> & -> & ->)|[_ Hb]] & Ha); [by left|right; eauto].
      * intros [(-> & -> & Ha)|(k & Hb & Ha)]; [exists (base range); auto|].
        exists k. split; [|done]. right. split; [|done]. intros ->. congruence.
Qed.

(** Dispatch is by address alone: a read or a write reaches the one
    device whose range contains the address, at its offset in that range, and
    changes no other; an address in no range is reported as unmapped and
    changes nothing. *)
Theorem bus_dispatch_exact {D : Type} `{!MmioDevice D} (bus : gmap Z (MmioRange * D)) addr val len :
  bus_ok bus →
  (∀ r d, maps bus addr r d →
    bus_read bus addr len = mmio_read d (addr - base r) len ∧
    0 ≤ addr - base r < rsize r ∧
    bus_write bus addr val len =
      ((mmio_write d (addr - base r) val len).1,
       <[base r := (r, (mmio_write d (addr - base r) val len).2)]> bus) ∧
    bus_ok (bus_write bus addr val len).2) ∧
  ((∀ r d, ¬ maps bus addr r d) →
    bus_read bus addr len = Err (Unmapped addr) ∧
    bus_write bus addr val len = (Err (Unmapped addr), bus)).
Proof.
  intros Hok. split.
  - intros r d Hm. pose proof (proj2 (device_at_iff bus addr r d Hok) Hm) as Hd.
    unfold bus_read, bus_write. rewrite Hd. destruct (mmio_write d _ _ _) as [res d'].
    destruct Hm as (k & Hb & Ha). destruct Hok as [Hk Hdis]. destruct (Hk _ _ _ Hb) as [-> Hrok].
    split_and!; [done|lia|lia|done|]. cbn [snd].
    assert (Hlk : ∀ k r1 d1, <[base r := (r, d')]> bus !! k = Some (r1, d1) →
      ∃ d2, bus !! k = Some (r1, d2)).
    { intros k r1 d1. rewrite lookup_insert. case_decide as He; [|eauto].
      intros [= <- <-]. exists d. by rewrite <- He. }
    split.
    + intros k r1 d1 (d2 & Hb')%Hlk. by apply (Hk _ _ _ Hb').
    + intros k k' r1 r2 d1 d2 (e1 & H1)%Hlk (e2 & H2)%Hlk. by eapply (Hdis k k').
  - intros Hno. assert (device_at bus addr = None) as Hd.
    { destruct (device_at bus addr) as [[r d]|] eqn:Ed; [|done].
      apply (device_at_iff bus addr r d Hok) in Ed. by destruct (Hno r d). }
    unfold bus_read, bus_write. by rewrite Hd.
Qed.

(** ** Witnesses: one register device at 0x1000 *)

#[export] Instance register_device : MmioDevice Z := {
  mmio_read := fun d off _ => if off =? 0 then Ok d else Err DeviceRejected;
  mmio_write := fun d off v _ => if off =? 0 then (Ok tt, v) else (Err DeviceRejected, d);
}.

Definition example_bus : gmap Z (MmioRange * Z) := {[ 4096 := (mkRange 4096 4096, 7) ]}.

Lemma example_bus_lookup k r d :
  example_bus !! k = Some (r, d) → k = 4096 ∧ r = mkRange 4096 4096 ∧ d = 7.
Proof. unfold example_bus. intros [<- [= <- <-]]%lookup_singleton_Some. done. Qed.

Lemma example_bus_ok : bus_ok example_bus.
Proof.
  split.
  - intros k r d (-> & -> & ->)%example_bus_lookup.
    split; [done|]. unfold range_ok, U64_MAX. simpl. lia.
  - intros k k' r r' d d' (-> & _)%example_bus_lookup (-> & _)%example_bus_lookup. lia.
Qed.

Lemma bus_insert_exact_witness :
  match bus_insert example_bus (mkRange 8000 4096) 9 with
  | Ok bus' => False
  | Err e => e = Overlap 8000 12096 ∧ ∃ addr r d, maps example_bus addr r d ∧ 8000 ≤ addr < 12096
  end.
Proof.
  pose proof (bus_insert_exact example_bus (mkRange 8000 4096) 9 example_bus_ok
    ltac:(unfold range_ok, U64_MAX; simpl; lia)) as H.
  assert (bus_insert example_bus (mkRange 8000 4096) 9 = Err (Overlap 8000 12096)) as E
    by (vm_compute; reflexivity).
  rewrite E in H |- *. exact H.
Defined.

Lemma bus_dispatch_exact_witness :
  bus_read example_bus 4096 4 = Ok 7 ∧ bus_read example_bus 0 4 = Err (Unmapped 0).
Proof.
  split.
  - refine (proj1 (proj1 (bus_dispatch_exact example_bus 4096 0 4 example_bus_ok)
      (mkRange 4096 4096) 7 _)).
    exists 4096. split; [reflexivity|simpl; lia].
  - refine (proj1 (proj2 (bus_dispatch_exact example_bus 0 0 4 example_bus_ok) _)).
    intros r d (k & (_ & -> & _)%example_bus_lookup & Ha). simpl in Ha. lia.
Defined.
