(* ===== verification/Cow.v ===== *)
(** * The copy-on-write block backend ([vmm-devices/src/virtio/blk_backend.rs])

    An overlay file holds a header, one bit per sector and the sectors the
    guest has written; everything else is read from the base image. A file is
    its list of bytes. Operations run in a monad over the overlay's state that
    can fail with an error or panic on an index out of bounds. So that host
    failures and crashes can be stated, the state carries a budget of bytes
    that can still be written to the overlay: a write beyond it leaves the
    bytes that fit and fails. [None] is a host that never fails. Syncing has
    no effect of its own in this model. *)

From S2P Require Import Prelude.

Definition SECTOR_SIZE : Z := 512.
Definition COW_MAGIC : list Z := [86; 77; 77; 67; 79; 87; 49; 0].
Definition COW_VERSION : Z := 1.
Definition COW_HEADER_LEN : Z := 4096.

(** The causes of a refusal; [Io] is a failed system call. *)
Inductive Refusal : Type :=
| HeaderOverflows | BaseLengthOverflows | BitmapOverflows | AlignmentOverflows
| HeaderTruncated | MagicMismatch | BadVersion (v : Z) | BadBlockSize (n : Z)
| OverlayTooSmall | BaseLengthMismatch (actual expected : Z) | LayoutMismatch | UnusedBits
| OffsetOverflows.

Inductive BlkBackendError : Type :=
| Io
| Validation (why : Refusal)
| NotOpen.

(** ** Files *)

(** Seek and [read_exact]. *)
Definition read_exact_at (f : list Z) (offset : Z) (n : nat) : option (list Z) :=
  if (n =? 0)%nat then Some []
  else if offset + Z.of_nat n <=? Z.of_nat (length f) then Some (slice (Z.to_nat offset) n f)
  else None.

(** Seek and [write_all]: writing past the end fills the hole with zeros. *)
Definition file_write (f : list Z) (offset : nat) (bs : list Z) : list Z :=
  if (length bs =? 0)%nat then f
  else copy_from_slice (f ++ replicate (offset + length bs - length f) 0) offset bs.

(** [set_len]. *)
Definition set_len (f : list Z) (n : nat) : list Z := take n f ++ replicate (n - length f) 0.

(** ** The header *)
Record CowHeader := mkHeader {
  base_len : Z;
  blocks : Z;
  bitmap_offset : Z;
  bitmap_len : Z;
  data_offset : Z;
}.

#[export] Instance cow_header_eq_dec : EqDecision CowHeader.
Proof. solve_decision. Defined.

Definition bitmap_len_of (blocks : Z) : result Z BlkBackendError :=
  let? n := ok_or (u64_checked_add blocks 7) (Validation BitmapOverflows) in
  Ok (n / 8).

Definition align_up (value align : Z) : result Z BlkBackendError :=
  let? v := ok_or (u64_checked_add value (align - 1)) (Validation AlignmentOverflows) in
  Ok (v / align * align).

Definition header_new (blocks : Z) : result CowHeader BlkBackendError :=
  let? blen := bitmap_len_of blocks in
  let? hb := ok_or (u64_checked_add COW_HEADER_LEN blen) (Validation HeaderOverflows) in
  let? doff := align_up hb SECTOR_SIZE in
  let? baselen := ok_or (u64_checked_mul blocks SECTOR_SIZE) (Validation BaseLengthOverflows) in
  Ok (mkHeader baselen blocks COW_HEADER_LEN blen doff).

Definition header_encode (h : CowHeader) : list Z :=
  let fields :=
    COW_MAGIC ++ le_encode 4 COW_VERSION ++ le_encode 4 SECTOR_SIZE ++
    le_encode 8 (base_len h) ++ le_encode 8 (blocks h) ++ le_encode 8 (bitmap_offset h) ++
    le_encode 8 (bitmap_len h) ++ le_encode 8 (data_offset h) in
  fields ++ replicate (Z.to_nat COW_HEADER_LEN - length fields) 0.

Definition read_u32 (buf : list Z) (offset : nat) : Z := le_decode (slice offset 4 buf).
Definition read_u64 (buf : list Z) (offset : nat) : Z := le_decode (slice offset 8 buf).

Definition header_decode (buf : list Z) : result CowHeader BlkBackendError :=
  if Z.of_nat (length buf) <? COW_HEADER_LEN then Err (Validation HeaderTruncated)
  else if negb (bool_decide (slice 0 8 buf = COW_MAGIC)) then Err (Validation MagicMismatch)
  else
    let version := read_u32 buf 8 in
    if negb (version =? COW_VERSION) then Err (Validation (BadVersion version))
    else
      let block_size := read_u32 buf 12 in
      if negb (block_size =? SECTOR_SIZE) then Err (Validation (BadBlockSize block_size))
      else Ok (mkHeader (read_u64 buf 16) (read_u64 buf 24) (read_u64 buf 32)
                 (read_u64 buf 40) (read_u64 buf 48)).

Definition validate_overlay_header (actual expected : CowHeader) : result unit BlkBackendError :=
  if negb (base_len actual =? base_len expected)
  then Err (Validation (BaseLengthMismatch (base_len actual) (base_len expected)))
  else if negb (blocks actual =? blocks expected)
       || negb (bitmap_offset actual =? bitmap_offset expected)
       || negb (bitmap_len actual =? bitmap_len expected)
       || negb (data_offset actual =? data_offset expected)
  then Err (Validation LayoutMismatch)
  else Ok tt.

Definition validate_unused_bitmap_bits (bitmap : list Z) (blocks : Z) : result unit BlkBackendError :=
  let used := blocks mod 8 in
  match last bitmap with
  | None => Ok tt
  | Some byte =>
      if used =? 0 then Ok tt
      else
        let valid_mask := Z.shiftl 1 used - 1 in
        if has_bits byte (Z.land (Z.lnot valid_mask) 255) then Err (Validation UnusedBits)
        else Ok tt
  end.

(** ** State and monad *)
Record CowOverlay := mkCow {
  base : list Z;
  overlay : list Z;
  bitmap : list Z;
  header : CowHeader;
  budget : option nat;
}.

(** [None] is a panic. *)
Definition IO (A : Type) : Type := CowOverlay → option (result A BlkBackendError * CowOverlay).

Definition io_ret {A : Type} (a : A) : IO A := fun s => Some (Ok a, s).
Definition io_fail {A : Type} (e : BlkBackendError) : IO A := fun s => Some (Err e, s).
Definition io_lift {A : Type} (r : result A BlkBackendError) : IO A := fun s => Some (r, s).
Definition io_get : IO CowOverlay := fun s => Some (Ok s, s).
Definition io_panic {A : Type} : IO A := fun _ => None.
Definition io_bind {A B : Type} (m : IO A) (k : A → IO B) : IO B :=
  fun s => match m s with
           | None => None
           | Some (Err e, s') => Some (Err e, s')
           | Some (Ok a, s') => k a s'
           end.

Notation "'let!' x := c 'in' k" := (io_bind c (fun x => k))
  (at level 10, x name, c at level 100, k at level 200) : rust_scope.

Definition set_bitmap (bm : list Z) : IO unit :=
  fun s => Some (Ok tt, mkCow (base s) (overlay s) bm (header s) (budget s)).

(** [write_all_at] on the overlay file. *)
Definition write_all_at (offset : Z) (bs : list Z) : IO unit :=
  fun s =>
    match budget s with
    | None =>
        Some (Ok tt, mkCow (base s) (file_write (overlay s) (Z.to_nat offset) bs) (bitmap s)
                       (header s) None)
    | Some n =>
        let done := take n bs in
        let s' := mkCow (base s) (file_write (overlay s) (Z.to_nat offset) done) (bitmap s)
                    (header s) (Some (n - length done)%nat) in
        Some (if (length bs <=? n)%nat then Ok tt else Err Io, s')
    end.

Definition read_overlay (offset : Z) (n : nat) : IO (list Z) :=
  fun s => Some (ok_or (read_exact_at (overlay s) offset n) Io, s).

Definition read_base (offset : Z) (n : nat) : IO (list Z) :=
  fun s => Some (ok_or (read_exact_at (base s) offset n) Io, s).

(** ** Operations *)

Definition overlay_offset (offset : Z) : IO Z :=
  let! s := io_get in
  io_lift (ok_or (u64_checked_add (data_offset (header s)) offset) (Validation OffsetOverflows)).

Definition overlay_block_offset (block : Z) : IO Z :=
  let! s := io_get in
  let! off := io_lift (ok_or (u64_checked_mul block SECTOR_SIZE) (Validation OffsetOverflows)) in
  io_lift (ok_or (u64_checked_add (data_offset (header s)) off) (Validation OffsetOverflows)).

Definition bit_of (block : Z) : Z := Z.shiftl 1 (block mod 8).

Definition is_dirty (block : Z) : IO bool :=
  let! s := io_get in
  match bitmap s !! Z.to_nat (block / 8) with
  | None => io_panic
  | Some byte => io_ret (has_bits byte (bit_of block))
  end.

Definition copy_base_block_to_overlay (block : Z) : IO unit :=
  let! base_offset := io_lift (ok_or (u64_checked_mul block SECTOR_SIZE) (Validation OffsetOverflows)) in
  let! overlay_offset := overlay_block_offset block in
  let! buf := read_base base_offset 512 in
  write_all_at overlay_offset buf.

(** The in-memory half of [mark_dirty_range]: the bitmap and the first and
    last byte index that changed. [None] is a panic. *)
Fixpoint mark_blocks (bs : list Z) (bm : list Z) (changed : option (nat * nat))
    : option (list Z * option (nat * nat)) :=
  match bs with
  | [] => Some (bm, changed)
  | block :: bs' =>
      let byte_idx := Z.to_nat (block / 8) in
      match bm !! byte_idx with
      | None => None
      | Some byte =>
          if negb (has_bits byte (bit_of block)) then
            mark_blocks bs' (<[byte_idx := Z.lor byte (bit_of block)]> bm)
              (Some (match changed with Some (lo, _) => (lo, byte_idx) | None => (byte_idx, byte_idx) end))
          else mark_blocks bs' bm changed
      end
  end.

Definition mark_dirty_range (first last : Z) : IO unit :=
  let! s := io_get in
  match mark_blocks (seqZ first (last - first + 1)) (bitmap s) None with
  | None => io_panic
  | Some (bm, changed) =>
      let! _ := set_bitmap bm in
      match changed with
      | None => io_ret tt
      | Some (lo, hi) =>
          let! off := io_lift (ok_or (u64_checked_add (bitmap_offset (header s)) (Z.of_nat lo))
                               (Validation OffsetOverflows)) in
          write_all_at off (slice lo (hi - lo + 1) bm)
      end
  end.

(** The loop over the two edge sectors, for one of them. *)
Definition copy_up_edge (offset end_ block : Z) : IO unit :=
  let block_start := block * SECTOR_SIZE in
  let covered := Z.min end_ (block_start + SECTOR_SIZE) - Z.max offset block_start in
  if covered <? SECTOR_SIZE then
    let! dirty := is_dirty block in
    if negb dirty then copy_base_block_to_overlay block else io_ret tt
  else io_ret tt.

Definition flush : IO unit := io_ret tt.

Definition write_at (offset : Z) (data : list Z) (force_unit_access : bool) : IO unit :=
  if (length data =? 0)%nat then io_ret tt
  else
    let! end_ := io_lift (ok_or (u64_checked_add offset (Z.of_nat (length data)))
                          (Validation OffsetOverflows)) in
    let first_block := offset / SECTOR_SIZE in
    let last_block := (end_ - 1) / SECTOR_SIZE in
    let! _ := copy_up_edge offset end_ first_block in
    let! _ := (if first_block =? last_block then io_ret tt else copy_up_edge offset end_ last_block) in
    let! destination := overlay_offset offset in
    let! _ := write_all_at destination data in
    let! _ := mark_dirty_range first_block last_block in
    if force_unit_access then flush else io_ret tt.

(** ** Reading: runs of sectors from the same file *)
Record BlockSegment := mkSegment {
  block : Z;
  seg_len : nat;
  buffer_offset : nat;
}.

(** The iterator, [fuel] at least the bytes that remain. *)
Fixpoint block_segments (fuel : nat) (next_offset : Z) (remaining buffer_offset : nat)
    : list BlockSegment :=
  match fuel with
  | O => []
  | S fuel' =>
      if (remaining =? 0)%nat then []
      else
        let within_block := Z.to_nat (next_offset mod SECTOR_SIZE) in
        let len := Nat.min (512 - within_block) remaining in
        mkSegment (next_offset / SECTOR_SIZE) len buffer_offset ::
        block_segments fuel' (next_offset + Z.of_nat len) (remaining - len) (buffer_offset + len)
  end.

Definition segments_new (offset : Z) (len : nat) : list BlockSegment :=
  block_segments len offset len 0.

(** [while let Some(next) = segments.peek()]: the end of the run and what is
    left. *)
Fixpoint extend_run (dirty : bool) (segs : list BlockSegment) (end_ : nat)
    : IO (nat * list BlockSegment) :=
  match segs with
  | [] => io_ret (end_, [])
  | next :: rest =>
      let! d := is_dirty (block next) in
      if negb (Bool.eqb d dirty) then io_ret (end_, segs)
      else extend_run dirty rest (buffer_offset next + seg_len next)
  end.

(** One run is read with one read. *)
Definition read_run (offset : Z) (dirty : bool) (start end_ : nat) (data : list Z) : IO (list Z) :=
  let! device_offset := io_lift (ok_or (u64_checked_add offset (Z.of_nat start))
                                   (Validation OffsetOverflows)) in
  let! bytes :=
    (if dirty then
       let! source := overlay_offset device_offset in read_overlay source (end_ - start)
     else read_base device_offset (end_ - start)) in
  io_ret (copy_from_slice data start bytes).

Fixpoint read_runs (fuel : nat) (offset : Z) (segs : list BlockSegment) (data : list Z)
    : IO (list Z) :=
  match fuel, segs with
  | _, [] => io_ret data
  | O, _ => io_panic
  | S fuel', first :: rest =>
      let! dirty := is_dirty (block first) in
      let start := buffer_offset first in
      let! run := extend_run dirty rest (start + seg_len first) in
      let! data' := read_run offset dirty start run.1 data in
      read_runs fuel' offset run.2 data'
  end.

(** The buffer after the read; every pass takes at least one segment. *)
Definition read_at (offset : Z) (data : list Z) : IO (list Z) :=
  let segs := segments_new offset (length data) in
  read_runs (length segs) offset segs data.

(** ** Opening an overlay *)
Definition set_overlay_len (n : Z) : IO unit :=
  fun s => Some (Ok tt, mkCow (base s) (set_len (overlay s) (Z.to_nat n)) (bitmap s) (header s) (budget s)).

Definition set_header (h : CowHeader) : IO unit :=
  fun s => Some (Ok tt, mkCow (base s) (overlay s) (bitmap s) h (budget s)).

Definition write_fresh_cow (h : CowHeader) : IO unit :=
  let! _ := write_all_at 0 (header_encode h) in
  let! _ := write_all_at (bitmap_offset h) (replicate (Z.to_nat (bitmap_len h)) 0) in
  set_overlay_len (data_offset h).

Definition open_overlay (n : Z) : IO unit :=
  let! expected := io_lift (header_new n) in
  let! s := io_get in
  let overlay_len := Z.of_nat (length (overlay s)) in
  let! h :=
    (if overlay_len =? 0 then
       let! _ := write_fresh_cow expected in io_ret expected
     else if overlay_len <? COW_HEADER_LEN then io_fail (Validation OverlayTooSmall)
     else
       let! buf := read_overlay 0 (Z.to_nat COW_HEADER_LEN) in
       io_lift (header_decode buf)) in
  let! _ := io_lift (validate_overlay_header h expected) in
  let! bm := read_overlay (bitmap_offset h) (Z.to_nat (bitmap_len h)) in
  let! _ := io_lift (validate_unused_bitmap_bits bm (h.(blocks))) in
  let! _ := set_header h in
  set_bitmap bm.

(** [CowOverlay::open] on two files. *)
Definition open (base overlay : list Z) (blocks : Z) (budget : option nat)
    : option (result unit BlkBackendError * CowOverlay) :=
  open_overlay blocks (mkCow base overlay [] (mkHeader 0 0 0 0 0) budget).

(** ** Bits of the bitmap *)

(** Sector [b] is marked in bitmap [bm]. *)
Definition marked (bm : list Z) (b : Z) : Prop :=
  ∃ byte, bm !! Z.to_nat (b / 8) = Some byte ∧ Z.testbit byte (b mod 8) = true.

#[export] Instance marked_dec bm b : Decision (marked bm b).
Proof.
  unfold marked. destruct (bm !! Z.to_nat (b / 8)) as [byte|] eqn:E.
  - destruct (Z.testbit byte (b mod 8)) eqn:Et; [left; eauto|right].
    intros (x & [= <-] & Hx). congruence.
  - right. by intros (x & ? & _).
Defined.

(** What a guest reads at byte [o] of the device. *)
Definition cow_byte (base f bm : list Z) (doff o : Z) : option Z :=
  if decide (marked bm (o / SECTOR_SIZE)) then f !! Z.to_nat (doff + o) else base !! Z.to_nat o.

Definition view (s : CowOverlay) (o : Z) : option Z :=
  cow_byte (base s) (overlay s) (bitmap s) (data_offset (header s)) o.

(** An overlay file that opens with bitmap [bm] for a base of [n] sectors:
    header and bitmap are in the file and every marked sector has its data. *)
Record disk_ok (n : Z) (base f bm : list Z) (h : CowHeader) : Prop := {
  dk_header : header_new n = Ok h;
  dk_n : 0 < n;
  dk_base : Z.of_nat (length base) = n * 512;
  dk_bitmap_len : Z.of_nat (length bm) = bitmap_len h;
  dk_bytes : Forall is_byte bm;
  dk_unused : ∀ b, marked bm b → b < n;
  dk_head_bytes : slice 0 4096 f = header_encode h;
  dk_bitmap : slice 4096 (length bm) f = bm;
  dk_data : ∀ b, 0 ≤ b → marked bm b → data_offset h + (b + 1) * 512 ≤ Z.of_nat (length f);
  dk_len : data_offset h ≤ Z.of_nat (length f);
  dk_small : data_offset h + n * 512 ≤ U64_MAX;
}.

(** The running state of an opened overlay. *)
Definition cow_ok (n : Z) (s : CowOverlay) : Prop :=
  disk_ok n (base s) (overlay s) (bitmap s) (header s).

(** Segments that tile the bytes [k, total) of a request at [offset], each
    inside one sector. *)
Fixpoint segs_ok (offset : Z) (k total : nat) (segs : list BlockSegment) : Prop :=
  match segs with
  | [] => k = total
  | sg :: rest =>
      buffer_offset sg = k ∧ (0 < seg_len sg)%nat ∧ (k + seg_len sg ≤ total)%nat ∧
      (∀ i, (i < seg_len sg)%nat → (offset + Z.of_nat (k + i)) / SECTOR_SIZE = block sg) ∧
      segs_ok offset (k + seg_len sg) total rest
  end.

(** Bytes [a, b) of a request come from the same file. *)
Definition same_source (s : CowOverlay) (offset : Z) (dirty : bool) (a b : nat) : Prop :=
  ∀ i, (a ≤ i < b)%nat →
    bool_decide (marked (bitmap s) ((offset + Z.of_nat i) / SECTOR_SIZE)) = dirty.

(** An operation on the overlay file alone: it ends well or with an I/O error,
    and well on a host that does not fail. *)
Definition ran (st st' : CowOverlay) (r : result unit BlkBackendError) : Prop :=
  base st' = base st ∧ bitmap st' = bitmap st ∧ header st' = header st ∧
  (budget st = None → budget st' = None ∧ r = Ok tt) ∧ (r = Ok tt ∨ r = Err Io).

Section files.

Lemma sector_nonneg o : 0 ≤ o → 0 ≤ o / SECTOR_SIZE.
Proof. unfold SECTOR_SIZE. zlia. Qed.

Lemma sector_outside a len o :
  o / SECTOR_SIZE < a / SECTOR_SIZE ∨ (a + len - 1) / SECTOR_SIZE < o / SECTOR_SIZE → ~ (a ≤ o < a + len).
Proof. unfold SECTOR_SIZE. zlia. Qed.

Lemma sector_bound n a len b : a + len ≤ n * 512 → b ≤ (a + len - 1) / SECTOR_SIZE → b < n.
Proof. unfold SECTOR_SIZE. zlia. Qed.

Lemma sector_last b : ((b + 1) * 512 - 1) / SECTOR_SIZE = b.
Proof. unfold SECTOR_SIZE. zlia. Qed.

Lemma io_bind_Ok {A B} (m : IO A) (k : A → IO B) s a s' :
  m s = Some (Ok a, s') → io_bind m k s = k a s'.
Proof. intros H. unfold io_bind. by rewrite H. Qed.

Lemma length_file_write f off bs :
  length (file_write f off bs) = if decide (bs = []) then length f else Nat.max (length f) (off + length bs).
Proof.
  unfold file_write. destruct bs as [|b bs]; [done|]. rewrite decide_False by done. simpl Nat.eqb.
  cbv iota. rewrite length_copy_from_slice; rewrite length_app, length_replicate; simpl; lia.
Qed.

Lemma file_write_in f off bs (o : nat) :
  (off ≤ o < off + length bs)%nat → file_write f off bs !! o = bs !! (o - off)%nat.
Proof.
  intros Ho. unfold file_write. rewrite (proj2 (Nat.eqb_neq _ _)) by lia.
  rewrite copy_from_slice_lookup by (rewrite length_app, length_replicate; lia).
  by rewrite decide_True.
Qed.

(** Writes elsewhere. *)
Lemma file_write_outside f off bs (o : nat) :
  (o < length f)%nat → (o < off ∨ off + length bs ≤ o)%nat → file_write f off bs !! o = f !! o.
Proof.
  intros Hl Ho. unfold file_write. destruct (length bs =? 0)%nat; [done|].
  rewrite copy_from_slice_lookup by (rewrite length_app, length_replicate; lia).
  rewrite decide_False by lia. by rewrite lookup_app_l.
Qed.

Lemma file_write_slice_outside f off bs a k :
  (a + k ≤ length f)%nat → (a + k ≤ off ∨ off + length bs ≤ a)%nat →
  slice a k (file_write f off bs) = slice a k f.
Proof.
  intros Hl Ho. apply list_eq. intros i. rewrite !lookup_slice. case_decide; [|done].
  apply file_write_outside; lia.
Qed.

Lemma has_bits_bit byte b : 0 ≤ b → has_bits byte (bit_of b) = Z.testbit byte (b mod 8).
Proof.
  intros Hb. unfold has_bits, bit_of. assert (0 ≤ b mod 8) by (apply Z.mod_pos_bound; lia).
  rewrite Z.shiftl_1_l. destruct (Z.testbit byte (b mod 8)) eqn:E.
  - apply negb_true_iff, Z.eqb_neq. intros H0.
    assert (Z.testbit (Z.land byte (2 ^ (b mod 8))) (b mod 8) = true) as H1.
    { by rewrite Z.land_spec, E, Z.pow2_bits_true. }
    by rewrite H0, Z.bits_0 in H1.
  - apply negb_false_iff, Z.eqb_eq. apply Z.bits_inj'. intros k Hk.
    rewrite Z.land_spec, Z.bits_0, Z.pow2_bits_eqb by done.
    destruct (b mod 8 =? k) eqn:Ek; bool_to_prop; [subst; by rewrite E|apply andb_false_r].
Qed.

(** The layout a header for [n] sectors describes. *)
Lemma header_new_Ok n h :
  0 ≤ n → header_new n = Ok h →
  n * 512 ≤ U64_MAX ∧ base_len h = n * 512 ∧ blocks h = n ∧ bitmap_offset h = 4096 ∧
  bitmap_len h = (n + 7) / 8 ∧ 4096 + bitmap_len h ≤ data_offset h ∧
  4096 + bitmap_len h ≤ U64_MAX ∧ data_offset h ≤ U64_MAX.
Proof.
  intros Hn. unfold header_new, bitmap_len_of, align_up, COW_HEADER_LEN, SECTOR_SIZE.
  destruct (u64_checked_add n 7) as [a|] eqn:E1; [|done]. apply u64_checked_add_Some in E1 as [-> ?].
  simpl result_bind. destruct (u64_checked_add 4096 _) as [c|] eqn:E2; [|done].
  apply u64_checked_add_Some in E2 as [-> ?]. simpl result_bind.
  destruct (u64_checked_add (4096 + _) _) as [d|] eqn:E3; [|done].
  apply u64_checked_add_Some in E3 as [-> ?]. simpl result_bind.
  destruct (u64_checked_mul n 512) as [e|] eqn:E4; [|done]. apply u64_checked_mul_Some in E4 as [-> ?].
  simpl result_bind. intros [= <-]. cbn. split_and!; try done; zlia.
Qed.

Lemma bitmap_covers n base f bm h b :
  disk_ok n base f bm h → b < n → (Z.to_nat (b / 8) < length bm)%nat.
Proof.
  intros Hok Hb. pose proof (dk_bitmap_len _ _ _ _ _ Hok) as Hbl. pose proof (dk_n _ _ _ _ _ Hok).
  destruct (header_new_Ok n h) as (_ & _ & _ & _ & Hl & _); [lia|by apply Hok|].
  rewrite Hl in Hbl. zlia.
Qed.

Lemma is_dirty_at s b :
  0 ≤ b → (Z.to_nat (b / 8) < length (bitmap s))%nat →
  is_dirty b s = Some (Ok (bool_decide (marked (bitmap s) b)), s).
Proof.
  intros Hb Hl. unfold is_dirty, io_bind, io_get.
  destruct (lookup_lt_is_Some_2 _ _ Hl) as [byte Hbyte]. rewrite Hbyte.
  unfold io_ret. do 3 f_equal. rewrite has_bits_bit by lia.
  destruct (Z.testbit byte (b mod 8)) eqn:E; symmetry.
  - apply bool_decide_eq_true. eexists. eauto.
  - apply bool_decide_eq_false. intros (x & Hx & Ht). congruence.
Qed.

Lemma is_dirty_run n s b :
  cow_ok n s → 0 ≤ b < n → is_dirty b s = Some (Ok (bool_decide (marked (bitmap s) b)), s).
Proof. intros Hok Hb. apply is_dirty_at; [lia|]. eapply bitmap_covers; [exact Hok|lia]. Qed.

(** A write to the overlay leaves a prefix of its bytes there. *)
Lemma write_all_at_prefix off bs st :
  ∃ r st' k, write_all_at off bs st = Some (r, st') ∧ ran st st' r ∧ (k ≤ length bs)%nat ∧
    overlay st' = file_write (overlay st) (Z.to_nat off) (take k bs) ∧ (r = Ok tt → k = length bs).
Proof.
  unfold write_all_at, ran. destruct (budget st) as [m|].
  - eexists _, _, (Nat.min m (length bs)). split; [done|]. cbn.
    split_and!; try done; [|lia| |].
    + destruct (length bs <=? m)%nat; eauto.
    + f_equal. destruct (decide (m ≤ length bs)%nat); [f_equal; lia|].
      rewrite !take_ge by lia. done.
    + destruct (length bs <=? m)%nat eqn:E; [|done]. apply Nat.leb_le in E. lia.
  - eexists _, _, (length bs). split; [done|]. cbn. rewrite take_ge by lia. split_and!; eauto.
Qed.

End files.

(** ** Reading *)
Section reading.
Variables (n : Z) (s : CowOverlay).
Hypothesis Hok : cow_ok n s.

Lemma block_segments_ok fuel : ∀ offset bo rem,
  0 ≤ offset → (rem ≤ fuel)%nat →
  segs_ok offset bo (bo + rem) (block_segments fuel (offset + Z.of_nat bo) rem bo).
Proof.
  induction fuel as [|fuel IH]; intros offset bo rem Ho Hr; cbn [block_segments].
  { simpl. lia. }
  destruct (rem =? 0)%nat eqn:E; [apply Nat.eqb_eq in E; simpl; lia|]. apply Nat.eqb_neq in E.
  set (w := Z.to_nat ((offset + Z.of_nat bo) mod SECTOR_SIZE)). set (len := Nat.min (512 - w) rem).
  assert (Z.of_nat w = (offset + Z.of_nat bo) mod 512 ∧ (w < 512)%nat) as [Hw Hw'].
  { unfold w, SECTOR_SIZE. assert (0 ≤ (offset + Z.of_nat bo) mod 512 < 512)
      by (apply Z.mod_pos_bound; lia). lia. }
  cbn [segs_ok buffer_offset seg_len block]. split_and!; [done|lia|lia| |].
  - intros i Hi. unfold SECTOR_SIZE. rewrite Nat2Z.inj_add.
    symmetry. apply (Z.div_unique_pos _ _ _ (Z.of_nat w + Z.of_nat i)); [lia|].
    rewrite Hw. pose proof (Z.div_mod (offset + Z.of_nat bo) 512). lia.
  - replace (offset + Z.of_nat bo + Z.of_nat len) with (offset + Z.of_nat (bo + len)) by lia.
    replace (bo + rem)%nat with (bo + len + (rem - len))%nat by lia. apply IH; lia.
Qed.

Lemma segs_ok_le offset k total segs : segs_ok offset k total segs → (k ≤ total)%nat.
Proof. destruct segs as [|sg rest]; [simpl; lia|]. intros (_ & _ & ? & _). lia. Qed.

Lemma block_in_range offset (i total : nat) :
  0 ≤ offset → offset + Z.of_nat total ≤ n * 512 → (i < total)%nat →
  0 ≤ (offset + Z.of_nat i) / SECTOR_SIZE < n.
Proof. intros. unfold SECTOR_SIZE. split; [apply Z.div_pos; lia|apply Z.div_lt_upper_bound; lia]. Qed.

Lemma extend_run_ok segs : ∀ offset dirty start k total,
  0 ≤ offset → offset + Z.of_nat total ≤ n * 512 → segs_ok offset k total segs →
  same_source s offset dirty start k →
  ∃ k' rest, extend_run dirty segs k s = Some (Ok (k', rest), s) ∧ segs_ok offset k' total rest ∧
    (k ≤ k')%nat ∧ (length rest ≤ length segs)%nat ∧ same_source s offset dirty start k'.
Proof.
  induction segs as [|sg segs IH]; intros offset dirty start k total Ho Ht Hs Hd; cbn [extend_run].
  { exists k, []. done. }
  pose proof Hs as (Hb & Hp & Hl & Hblk & Hs').
  assert ((offset + Z.of_nat (k + 0)) / SECTOR_SIZE = block sg) as H0 by (apply Hblk; lia).
  unfold io_bind. rewrite (is_dirty_run n s (block sg) Hok)
    by (rewrite <- H0; eapply block_in_range; [done|exact Ht|lia]).
  destruct (Bool.eqb _ dirty) eqn:E; cbn [negb].
  - apply eqb_prop in E. rewrite Hb.
    destruct (IH offset dirty start (k + seg_len sg)%nat total) as (k' & rest & He & Hr & Hk & Hln & Hsm);
      [done..| |].
    { intros i Hi. destruct (decide (i < k)%nat); [apply Hd; lia|].
      replace i with (k + (i - k))%nat by lia. rewrite Hblk by lia. done. }
    exists k', rest. split_and!; [done|done|lia|simpl; lia|done].
  - exists k, (sg :: segs). split_and!; done.
Qed.

(** Where the bytes of a run are. *)
Lemma run_bytes offset dirty start end_ total :
  0 ≤ offset → offset + Z.of_nat total ≤ n * 512 → (start ≤ end_ ≤ total)%nat →
  same_source s offset dirty start end_ →
  let f := if dirty then overlay s else base s in
  let o := if dirty then data_offset (header s) + (offset + Z.of_nat start) else offset + Z.of_nat start in
  ∃ bytes, read_exact_at f o (end_ - start) = Some bytes ∧ length bytes = (end_ - start)%nat ∧
    ∀ i, (i < end_ - start)%nat → bytes !! i = view s (offset + Z.of_nat (start + i)).
Proof.
  intros Ho Ht Hse Hsm f o. unfold read_exact_at.
  destruct (end_ - start =? 0)%nat eqn:E; [apply Nat.eqb_eq in E|apply Nat.eqb_neq in E].
  { exists []. split_and!; [done|simpl; lia|intros; lia]. }
  assert (0 ≤ o ∧ o + Z.of_nat (end_ - start) ≤ Z.of_nat (length f)) as [Ho0 Hlen].
  { subst o f. destruct dirty.
    - assert (marked (bitmap s) ((offset + Z.of_nat (end_ - 1)) / SECTOR_SIZE)) as Hm.
      { eapply bool_decide_eq_true, Hsm. lia. }
      apply (dk_data _ _ _ _ _ Hok) in Hm; [|apply Z.div_pos; unfold SECTOR_SIZE; lia].
      destruct (header_new_Ok n (header s)) as (_ & _ & _ & _ & Hbl & Hdo & _);
        [pose proof (dk_n _ _ _ _ _ Hok); lia|by apply Hok|].
      assert (0 ≤ bitmap_len (header s)) by (rewrite Hbl; pose proof (dk_n _ _ _ _ _ Hok); zlia).
      unfold SECTOR_SIZE in Hm. zlia.
    - rewrite (dk_base _ _ _ _ _ Hok). lia. }
  rewrite (proj2 (Z.leb_le _ _)) by done. eexists. split; [done|].
  rewrite length_slice by lia. split; [done|]. intros i Hi. rewrite lookup_slice, decide_True by done.
  specialize (Hsm (start + i)%nat ltac:(lia)). unfold view, cow_byte.
  subst f o. destruct dirty.
  - apply bool_decide_eq_true in Hsm. rewrite decide_True by done. f_equal. lia.
  - apply bool_decide_eq_false in Hsm. rewrite decide_False by done. f_equal. lia.
Qed.

Lemma read_run_ok offset dirty start end_ total data :
  0 ≤ offset → offset + Z.of_nat total ≤ n * 512 → (start ≤ end_ ≤ total)%nat →
  same_source s offset dirty start end_ → length data = total →
  ∃ data', read_run offset dirty start end_ data s = Some (Ok data', s) ∧ length data' = total ∧
    ∀ i, (i < total)%nat → data' !! i =
      if decide (start ≤ i < end_)%nat then view s (offset + Z.of_nat i) else data !! i.
Proof.
  intros Ho Ht Hse Hsm Hl. pose proof (dk_small _ _ _ _ _ Hok) as Hsmall.
  destruct (header_new_Ok n (header s)) as (Hmax & _ & _ & _ & Hbl & Hdo & _);
    [pose proof (dk_n _ _ _ _ _ Hok); lia|by apply Hok|].
  destruct (run_bytes offset dirty start end_ total Ho Ht Hse Hsm) as (bytes & Hr & Hbl' & Hb).
  exists (copy_from_slice data start bytes). split.
  { unfold read_run. erewrite io_bind_Ok; cycle 1.
    { unfold io_lift. by rewrite (proj2 (u64_checked_add_Some _ _ _)) by (split; [done|lia]). }
    erewrite io_bind_Ok; [done|]. destruct dirty.
    - unfold overlay_offset, io_bind, io_get, io_lift, read_overlay.
      rewrite (proj2 (u64_checked_add_Some _ _ _)) by (split; [done|lia]). cbn [ok_or].
      by rewrite Hr.
    - unfold read_base. by rewrite Hr. }
  rewrite length_copy_from_slice by lia. split; [done|]. intros i Hi.
  rewrite copy_from_slice_lookup, Hbl' by lia. replace (start + (end_ - start))%nat with end_ by lia.
  case_decide; [|done]. rewrite Hb by lia. do 2 f_equal. lia.
Qed.

Lemma read_runs_ok fuel : ∀ offset segs k total data,
  0 ≤ offset → offset + Z.of_nat total ≤ n * 512 → segs_ok offset k total segs →
  (length segs ≤ fuel)%nat → length data = total → (k ≤ total)%nat →
  (∀ i, (i < k)%nat → data !! i = view s (offset + Z.of_nat i)) →
  ∃ data', read_runs fuel offset segs data s = Some (Ok data', s) ∧ length data' = total ∧
    ∀ i, (i < total)%nat → data' !! i = view s (offset + Z.of_nat i).
Proof.
  induction fuel as [|fuel IH]; intros offset segs k total data Ho Ht Hs Hf Hl Hk Hd.
  { destruct segs; [|simpl in Hf; lia]. exists data. simpl in Hs. subst k. done. }
  destruct segs as [|sg segs]; cbn [read_runs].
  { exists data. simpl in Hs. subst k. done. }
  pose proof Hs as (Hb & Hp & Hle & Hblk & Hs').
  assert ((offset + Z.of_nat (k + 0)) / SECTOR_SIZE = block sg) as H0 by (apply Hblk; lia).
  unfold io_bind at 1. rewrite (is_dirty_run n s (block sg) Hok)
    by (rewrite <- H0; eapply block_in_range; [done|exact Ht|lia]).
  set (dirty := bool_decide _). rewrite Hb.
  destruct (extend_run_ok segs offset dirty k (k + seg_len sg) total)
    as (k' & rest & He & Hr & Hk' & Hln & Hsm); [done..| |].
  { intros i Hi. replace i with (k + (i - k))%nat by lia. rewrite Hblk by lia. done. }
  unfold io_bind at 1. rewrite He. cbn [fst snd].
  pose proof (segs_ok_le _ _ _ _ Hr) as Hk't.
  destruct (read_run_ok offset dirty k k' total data) as (data1 & Hd1 & Hl1 & Hb1); [done..|lia|done|done|].
  unfold io_bind. rewrite Hd1.
  apply (IH offset rest k' total data1); [done..|simpl in Hf; lia|done|lia|].
  intros i Hi. rewrite Hb1 by lia. case_decide; [done|]. apply Hd. lia.
Qed.

(** A read inside the device returns the view and changes nothing. *)
Lemma read_at_ok offset data :
  0 ≤ offset → offset + Z.of_nat (length data) ≤ n * 512 →
  ∃ data', read_at offset data s = Some (Ok data', s) ∧ length data' = length data ∧
    ∀ i, (i < length data)%nat → data' !! i = view s (offset + Z.of_nat i).
Proof.
  intros Ho Ht. unfold read_at, segments_new.
  pose proof (block_segments_ok (length data) offset 0 (length data) Ho ltac:(lia)) as Hs.
  rewrite Nat.add_0_l, Z.add_0_r in Hs.
  apply (read_runs_ok _ offset _ 0 (length data) data); try done; lia.
Qed.

End reading.
