(* ===== verification/CowWrite.v ===== *)
(** * Writing through the copy-on-write overlay

    A write copies up the two edge sectors, writes its data and marks its
    sectors in the bitmap. The lemmas follow those stages on the overlay file,
    so that they hold wherever the host stops the write. *)

From S2P Require Import Prelude Cow.

(** Byte [o] of the device after a write of [data] at [offset]. *)
Definition new_byte (s : CowOverlay) (offset : Z) (data : list Z) (o : Z) : option Z :=
  if decide (offset ≤ o < offset + Z.of_nat (length data)) then data !! Z.to_nat (o - offset)
  else view s o.

(** The overlay file [f] while sector data is being written: what precedes
    the data is as it was, and a marked sector's bytes are old or new. *)
Record data_stage (s : CowOverlay) (offset : Z) (data f : list Z) : Prop := {
  ds_head : ∀ i, Z.of_nat i < data_offset (header s) → f !! i = overlay s !! i;
  ds_len : (length (overlay s) ≤ length f)%nat;
  ds_old : ∀ o, 0 ≤ o → marked (bitmap s) (o / SECTOR_SIZE) →
    let x := f !! Z.to_nat (data_offset (header s) + o) in
    x = view s o ∨ x = new_byte s offset data o;
}.

(** What the write does not cover of sector [b] is in the overlay. *)
Definition edge_ready (s : CowOverlay) (offset : Z) (data f : list Z) (b : Z) : Prop :=
  ∀ o, 0 ≤ o → o / SECTOR_SIZE = b → ~ (offset ≤ o < offset + Z.of_nat (length data)) →
    f !! Z.to_nat (data_offset (header s) + o) = view s o.

(** Every sector the write touches is complete in the overlay. *)
Definition data_full (s : CowOverlay) (offset : Z) (data f : list Z) : Prop :=
  ∀ o, 0 ≤ o →
    offset / SECTOR_SIZE ≤ o / SECTOR_SIZE ≤ (offset + Z.of_nat (length data) - 1) / SECTOR_SIZE →
    f !! Z.to_nat (data_offset (header s) + o) = new_byte s offset data o.

(** [f] is an overlay file on which every byte is as before the write or as
    after it. *)
Definition survives (n : Z) (s : CowOverlay) (offset : Z) (data f : list Z) : Prop :=
  ∃ bm, disk_ok n (base s) f bm (header s) ∧
    ∀ o, 0 ≤ o < n * 512 →
      let x := cow_byte (base s) f bm (data_offset (header s)) o in
      x = view s o ∨ x = new_byte s offset data o.

(** The write has taken place in state [s']. *)
Definition written (n : Z) (s : CowOverlay) (offset : Z) (data : list Z) (s' : CowOverlay) : Prop :=
  cow_ok n s' ∧ base s' = base s ∧
  ∀ o, 0 ≤ o < n * 512 → view s' o = new_byte s offset data o.

(** The outcome of a write that started in [s]. *)
Definition write_outcome (n : Z) (s : CowOverlay) (offset : Z) (data : list Z)
    (r : result unit BlkBackendError) (s' : CowOverlay) : Prop :=
  (r = Ok tt ∨ r = Err Io) ∧ (budget s = None → budget s' = None ∧ r = Ok tt) ∧
  survives n s offset data (overlay s') ∧ (r = Ok tt → written n s offset data s').

(** ** The bitmap *)
Section bitmap.

Lemma marked_insert bm i byte byte' b :
  0 ≤ b → bm !! i = Some byte →
  marked (<[i := byte']> bm) b ↔
    if decide (Z.to_nat (b / 8) = i) then Z.testbit byte' (b mod 8) = true else marked bm b.
Proof.
  intros Hb Hi. unfold marked. pose proof (lookup_lt_Some _ _ _ Hi). case_decide as E.
  - rewrite E, list_lookup_insert_eq by done. naive_solver.
  - by rewrite list_lookup_insert_ne.
Qed.

Lemma bit_of_testbit b k : 0 ≤ b → 0 ≤ k → Z.testbit (bit_of b) k = bool_decide (k = b mod 8).
Proof.
  intros Hb Hk. assert (0 ≤ b mod 8) by (apply Z.mod_pos_bound; lia). unfold bit_of.
  rewrite Z.shiftl_1_l, Z.pow2_bits_eqb by done. case_bool_decide; bool_to_prop; lia.
Qed.

Lemma marked_same l l' b : l !! Z.to_nat (b / 8) = l' !! Z.to_nat (b / 8) → marked l b ↔ marked l' b.
Proof. intros E. unfold marked. by rewrite E. Qed.

(** Setting the bit of [b] marks [b] and nothing else. *)
Lemma marked_set bm b byte c :
  0 ≤ b → 0 ≤ c → bm !! Z.to_nat (b / 8) = Some byte →
  marked (<[Z.to_nat (b / 8) := Z.lor byte (bit_of b)]> bm) c ↔ marked bm c ∨ c = b.
Proof.
  intros Hb Hc Hi. rewrite marked_insert by done. case_decide as E.
  - assert (c / 8 = b / 8) as Ed by zlia. rewrite Z.lor_spec, bit_of_testbit by zlia.
    rewrite orb_true_iff, bool_decide_eq_true. unfold marked. rewrite E, Hi.
    split; [intros [?|?]; [left; eauto|right; zlia]|intros [(x & [= <-] & ?)| ->]; eauto].
  - split; [eauto|intros [?| ->]; done].
Qed.

Lemma is_byte_lor_bit byte b : 0 ≤ b → is_byte byte → is_byte (Z.lor byte (bit_of b)).
Proof.
  intros Hb Hy. unfold bit_of, is_byte in *. rewrite Z.shiftl_1_l.
  assert (0 ≤ b mod 8 < 8) as Hm by (apply Z.mod_pos_bound; lia).
  assert (0 < 2 ^ (b mod 8)) as Hp by lia.
  assert (0 ≤ Z.lor byte (2 ^ (b mod 8))) as H0 by (apply Z.lor_nonneg; lia).
  split; [done|]. change 256 with (2 ^ 8).
  destruct (decide (Z.lor byte (2 ^ (b mod 8)) = 0)) as [->|]; [lia|].
  apply Z.log2_lt_pow2; [lia|]. rewrite Z.log2_lor, Z.log2_pow2 by lia.
  destruct (decide (byte = 0)) as [->|]; [simpl; lia|].
  assert (Z.log2 byte < 8) by (apply Z.log2_lt_pow2; lia). lia.
Qed.

(** Marking [k] sectors from [first] on: which bits are set, and that all
    changed bytes lie between the reported first and last one. *)
Lemma mark_blocks_ok k : ∀ first bm c,
  0 ≤ first → (Z.to_nat ((first + Z.of_nat k - 1) / 8) < length bm)%nat ∨ k = O →
  Forall is_byte bm →
  (∀ lo hi, c = Some (lo, hi) → lo ≤ hi ∧ hi < length bm ∧ hi ≤ Z.to_nat (first / 8))%nat →
  ∃ bm' ch, mark_blocks (seqZ first (Z.of_nat k)) bm c = Some (bm', ch) ∧
    length bm' = length bm ∧ Forall is_byte bm' ∧
    (∀ b, 0 ≤ b → marked bm' b ↔ marked bm b ∨ first ≤ b < first + Z.of_nat k) ∧
    (∀ lo hi, c = Some (lo, hi) → ∃ hi', ch = Some (lo, hi') ∧ hi ≤ hi')%nat ∧
    (∀ lo hi, ch = Some (lo, hi) → lo ≤ hi ∧ hi < length bm)%nat ∧
    (∀ j, bm' !! j ≠ bm !! j → ∃ lo hi, ch = Some (lo, hi) ∧ lo ≤ j ≤ hi)%nat.
Proof.
  induction k as [|k IH]; intros first bm c Hf Hl Hby Hc.
  { exists bm, c. split_and!; try done; [intros; split; [eauto|intros [?|?]; [done|lia]]|eauto|naive_solver]. }
  rewrite seqZ_cons by lia. replace (Z.pred (Z.of_nat (S k))) with (Z.of_nat k) by lia.
  replace (Z.succ first) with (first + 1) by lia. cbn [mark_blocks].
  assert (Z.to_nat (first / 8) < length bm)%nat as Hlt by zlia.
  destruct (lookup_lt_is_Some_2 _ _ Hlt) as [byte Hi]. rewrite Hi, has_bits_bit by done.
  assert (∀ bm1 : list Z, length bm1 = length bm →
    (Z.to_nat ((first + 1 + Z.of_nat k - 1) / 8) < length bm1)%nat ∨ k = O) as Hl1.
  { intros bm1 E1. rewrite E1. replace (first + 1 + Z.of_nat k - 1) with (first + Z.of_nat (S k) - 1) by lia. zlia. }
  destruct (Z.testbit byte (first mod 8)) eqn:Et; cbn [negb].
  - destruct (IH (first + 1) bm c) as (bm' & ch & He & Hln & Hby' & Hm & H1 & H2 & H3);
      [lia|by apply Hl1|done|intros lo hi E; specialize (Hc lo hi E); zlia|].
    exists bm', ch. split_and!; try done. intros b Hb. rewrite Hm by done.
    split; [intros [?|?]; [eauto|right; lia]|intros [?|?]; [eauto|]].
    destruct (decide (b = first)) as [->|]; [left; eexists; eauto|right; lia].
  - set (c' := match c with Some (lo, _) => _ | None => _ end).
    set (bm1 := <[_ := _]> bm).
    assert (length bm1 = length bm) as Hln1 by apply length_insert.
    assert (∃ lo', c' = (lo', Z.to_nat (first / 8)) ∧ (lo' ≤ Z.to_nat (first / 8))%nat ∧
      ∀ lo hi, c = Some (lo, hi) → lo = lo') as (lo' & Hc' & Hlo & Hlo').
    { unfold c'. destruct c as [[lo hi]|]; [|naive_solver]. destruct (Hc lo hi eq_refl).
      exists lo. split_and!; [done|lia|naive_solver]. }
    destruct (IH (first + 1) bm1 (Some c')) as (bm' & ch & He & Hln & Hby' & Hm & H1 & H2 & H3).
    + lia.
    + by apply Hl1.
    + apply Forall_insert; [done|]. apply is_byte_lor_bit; [done|].
      by apply (Forall_lookup_1 _ _ _ _ Hby Hi).
    + intros lo hi [= E]. rewrite Hc' in E. injection E as <- <-. rewrite Hln1. zlia.
    + destruct (H1 lo' (Z.to_nat (first / 8))) as (hi' & Hch & Hhi); [by rewrite Hc'|].
      exists bm', ch. rewrite Hln1 in *. split_and!; try done.
      * intros b Hb. rewrite Hm by done. unfold bm1. rewrite marked_set by done. split; intros; naive_solver lia.
      * intros lo hi E. rewrite (Hlo' lo hi E). exists hi'. specialize (Hc lo hi E). split; [done|lia].
      * intros j Hj. destruct (decide (j = Z.to_nat (first / 8))) as [->|Hne].
        { exists lo', hi'. split; [done|lia]. }
        apply H3. unfold bm1. by rewrite list_lookup_insert_ne.
Qed.

End bitmap.

(** ** Writing *)
Section writing.
Variables (n : Z) (s : CowOverlay) (offset : Z) (data : list Z).
Hypothesis Hok : cow_ok n s.
Hypothesis Ho : 0 ≤ offset.
Hypothesis Hin : offset + Z.of_nat (length data) ≤ n * 512.
Let doff := data_offset (header s).

Lemma doff_pos : 4096 ≤ doff ∧ doff + n * 512 ≤ U64_MAX ∧ 0 < n ∧ doff ≤ Z.of_nat (length (overlay s)).
Proof.
  pose proof (dk_n _ _ _ _ _ Hok). pose proof (dk_small _ _ _ _ _ Hok). pose proof (dk_len _ _ _ _ _ Hok).
  destruct (header_new_Ok n (header s)) as (_ & _ & _ & _ & Hbl & Hdo & _); [lia|by apply Hok|].
  assert (0 ≤ bitmap_len (header s)) by (rewrite Hbl; zlia). subst doff. lia.
Qed.

Lemma data_stage_start : data_stage s offset data (overlay s).
Proof.
  split; [done|done|]. intros o H0 Hm x. left. subst x. unfold view, cow_byte. by rewrite decide_True.
Qed.

(** A write at or after the data area that leaves marked sectors old or new. *)
Lemma data_stage_write f w bs :
  data_stage s offset data f → doff ≤ w →
  (∀ o, 0 ≤ o → w ≤ doff + o < w + Z.of_nat (length bs) → marked (bitmap s) (o / SECTOR_SIZE) →
     bs !! Z.to_nat (doff + o - w) = new_byte s offset data o) →
  data_stage s offset data (file_write f (Z.to_nat w) bs).
Proof.
  intros [Hh Hl Hd] Hw Hb. destruct doff_pos as (Hd0 & _ & _ & Hd1). split.
  - intros i Hi. rewrite file_write_outside; [by apply Hh|fold doff in Hi; lia..].
  - rewrite length_file_write. case_decide; lia.
  - intros o H0 Hm x. subst x. fold doff.
    destruct (decide (w ≤ doff + o < w + Z.of_nat (length bs))) as [Hr|Hr].
    + right. rewrite file_write_in by lia. rewrite <- Hb by done. f_equal. lia.
    + rewrite file_write_outside; [by apply Hd| |lia].
      pose proof (dk_data _ _ _ _ _ Hok (o / SECTOR_SIZE)) as Hx. fold doff in Hx.
      unfold SECTOR_SIZE in *. assert (0 ≤ o / 512) by (apply Z.div_pos; lia).
      specialize (Hx ltac:(done) Hm). zlia.
Qed.

Lemma edge_ready_write f w bs b :
  edge_ready s offset data f b → doff ≤ w →
  (∀ o, 0 ≤ o → o / SECTOR_SIZE = b → w ≤ doff + o < w + Z.of_nat (length bs) →
     offset ≤ o < offset + Z.of_nat (length data)) →
  0 ≤ b < n →
  edge_ready s offset data (file_write f (Z.to_nat w) bs) b.
Proof.
  intros He Hw Hb Hbn o H0 Hob Hr. destruct doff_pos as (Hd0 & _ & _ & Hd1). fold doff.
  specialize (He o H0 Hob Hr). fold doff in He. rewrite <- He. apply file_write_outside.
  - apply lookup_lt_is_Some_1. rewrite He. unfold view, cow_byte. case_decide as Hm.
    + pose proof (dk_data _ _ _ _ _ Hok b) as Hx. rewrite Hob in Hm. fold doff in Hx |- *.
      specialize (Hx ltac:(lia) Hm). apply lookup_lt_is_Some_2. unfold SECTOR_SIZE in *. zlia.
    + apply lookup_lt_is_Some_2. pose proof (dk_base _ _ _ _ _ Hok). unfold SECTOR_SIZE in *. zlia.
  - destruct (decide (w ≤ doff + o < w + Z.of_nat (length bs))) as [Hr'|Hr']; [|lia].
    by specialize (Hb o H0 Hob Hr').
Qed.

Lemma ran_ret st : ran st st (Ok tt).
Proof. unfold ran. naive_solver. Qed.

(** One edge sector: copied up from the base unless it is covered or dirty. *)
Lemma copy_up_edge_ok st b :
  base st = base s → bitmap st = bitmap s → header st = header s →
  data_stage s offset data (overlay st) → 0 ≤ b < n →
  ∃ r st', copy_up_edge offset (offset + Z.of_nat (length data)) b st = Some (r, st') ∧ ran st st' r ∧
    data_stage s offset data (overlay st') ∧ (r = Ok tt → edge_ready s offset data (overlay st') b) ∧
    (∀ b', 0 ≤ b' < n → b' ≠ b → edge_ready s offset data (overlay st) b' →
       edge_ready s offset data (overlay st') b').
Proof.
  intros E1 E2 E3 Hd Hb. destruct doff_pos as (Hd0 & Hdm & Hn & Hd1). unfold copy_up_edge, SECTOR_SIZE.
  destruct (_ <? 512) eqn:Ec; bool_to_prop; cycle 1.
  { exists (Ok tt), st. split_and!; [done|apply ran_ret|done| |done].
    intros _ o H0 Hob Hr. exfalso. apply Hr. unfold SECTOR_SIZE in Hob. zlia. }
  erewrite io_bind_Ok by (apply is_dirty_at; [lia|rewrite E2; eapply bitmap_covers; [exact Hok|lia]]).
  rewrite E2. case_bool_decide as Hm; cbn [negb].
  { exists (Ok tt), st. split_and!; [done|apply ran_ret|done| |done].
    intros _ o H0 Hob Hr. subst b. destruct (ds_old _ _ _ _ Hd o H0 Hm) as [Hx|Hx]; rewrite Hx; [done|].
    unfold new_byte. by rewrite decide_False. }
  unfold copy_base_block_to_overlay, overlay_block_offset.
  assert (u64_checked_mul b SECTOR_SIZE = Some (b * 512)) as Em.
  { apply u64_checked_mul_Some. unfold SECTOR_SIZE. split; [done|]. lia. }
  erewrite io_bind_Ok by (unfold io_lift; rewrite Em; done).
  erewrite io_bind_Ok; cycle 1.
  { erewrite io_bind_Ok by done. erewrite io_bind_Ok by (unfold io_lift; rewrite Em; done).
    rewrite E3. fold doff. unfold io_lift.
    rewrite (proj2 (u64_checked_add_Some _ _ _)) by (split; [done|lia]). done. }
  set (blk := slice (Z.to_nat (b * 512)) 512 (base s)).
  pose proof (dk_base _ _ _ _ _ Hok) as Hbl.
  assert (length blk = 512%nat) as Hblk by (apply length_slice; lia).
  erewrite io_bind_Ok; cycle 1.
  { unfold read_base, read_exact_at. rewrite E1. simpl (512 =? 0)%nat. cbv iota.
    rewrite (proj2 (Z.leb_le _ _)) by lia. done. }
  fold blk. destruct (write_all_at_prefix (doff + b * 512) blk st) as (r & st' & k & He & Hran & Hk & Hf & Hr).
  assert (length (take k blk) = k) as Htk by (rewrite length_take; lia).
  exists r, st'. rewrite Hf. split_and!; [done|done| | |].
  - apply data_stage_write; [done|lia|]. rewrite Htk. intros o H0 Hor Hmo. exfalso. apply Hm.
    replace b with (o / SECTOR_SIZE); [done|]. unfold SECTOR_SIZE. zlia.
  - intros ->. rewrite (Hr eq_refl), take_ge by done. intros o H0 Hob _. unfold SECTOR_SIZE in Hob. fold doff.
    rewrite file_write_in by zlia. unfold view, cow_byte, SECTOR_SIZE. rewrite Hob, decide_False by done.
    unfold blk. rewrite lookup_slice, decide_True by zlia. f_equal. zlia.
  - intros b' Hb' Hne He'. apply edge_ready_write; [done|lia| |done]. intros o H0 Hob Hor.
    rewrite Htk in Hor. unfold SECTOR_SIZE in Hob. exfalso. apply Hne. zlia.
Qed.

Lemma new_byte_is_Some o : 0 ≤ o < n * 512 → is_Some (new_byte s offset data o).
Proof.
  intros H0. unfold new_byte. case_decide; [apply lookup_lt_is_Some_2; lia|].
  unfold view, cow_byte. case_decide as Hm; apply lookup_lt_is_Some_2.
  - destruct doff_pos as (? & _ & _ & _). unfold SECTOR_SIZE in *.
    apply (dk_data _ _ _ _ _ Hok) in Hm; [fold doff in Hm |- *; zlia|zlia].
  - pose proof (dk_base _ _ _ _ _ Hok). lia.
Qed.

Lemma data_full_write f :
  data ≠ [] → data_stage s offset data f → edge_ready s offset data f (offset / SECTOR_SIZE) →
  edge_ready s offset data f ((offset + Z.of_nat (length data) - 1) / SECTOR_SIZE) →
  data_full s offset data (file_write f (Z.to_nat (doff + offset)) data).
Proof.
  intros Hne Hd He1 He2 o H0 Hr. fold doff. destruct doff_pos as (Hd0 & _ & _ & _).
  assert (0 < length data)%nat by (destruct data; [done|simpl; lia]).
  assert (Z.of_nat (length data) - 1 + offset < n * 512) by lia.
  destruct (decide (offset ≤ o < offset + Z.of_nat (length data))) as [Hi|Hi].
  - rewrite file_write_in by lia. unfold new_byte. rewrite decide_True by done. f_equal. lia.
  - assert (o / SECTOR_SIZE = offset / SECTOR_SIZE ∨
            o / SECTOR_SIZE = (offset + Z.of_nat (length data) - 1) / SECTOR_SIZE) as Hb
      by (unfold SECTOR_SIZE in *; zlia).
    unfold new_byte. rewrite decide_False by done.
    assert (edge_ready s offset data f (o / SECTOR_SIZE)) as He by (destruct Hb as [-> | ->]; done).
    apply (edge_ready_write f (doff + offset) data (o / SECTOR_SIZE)); [done|lia| |by unfold SECTOR_SIZE in *; zlia|done..].
    intros; lia.
Qed.

(** The disk at any point of the data stage. *)
Lemma data_stage_disk f :
  data_stage s offset data f →
  disk_ok n (base s) f (bitmap s) (header s) ∧
  ∀ o, 0 ≤ o < n * 512 → let x := cow_byte (base s) f (bitmap s) doff o in
    x = view s o ∨ x = new_byte s offset data o.
Proof.
  intros [Hh Hl Hd]. destruct doff_pos as (Hd0 & _ & Hn & Hd1). split.
  - destruct (header_new_Ok n (header s)) as (_ & _ & _ & _ & Hbl & Hdo & _); [lia|by apply Hok|].
    pose proof (dk_bitmap_len _ _ _ _ _ Hok) as Hbm. subst doff.
    destruct Hok as [Dhdr Dn Dbase Dbml Dbytes Dunused Dhead Dbitmap Ddata Dlen Dsmall]. split; try done.
    + rewrite <- Dhead. apply list_eq. intros i. rewrite !lookup_slice. case_decide; [|done].
      apply Hh. lia.
    + rewrite <- Dbitmap at 2. apply list_eq. intros i. rewrite !lookup_slice. case_decide; [|done].
      apply Hh. lia.
    + intros b Hb Hm. specialize (Ddata b Hb Hm). lia.
    + lia.
  - intros o H0 x. subst x. unfold cow_byte. case_decide as Hm; [apply Hd; [lia|done]|].
    left. unfold view, cow_byte. by rewrite decide_False.
Qed.

Lemma bitmap_disk f g bm1 bmd :
  disk_ok n (base s) f (bitmap s) (header s) → data_full s offset data f → data ≠ [] →
  Forall is_byte bm1 →
  (∀ b, 0 ≤ b → marked bm1 b ↔ marked (bitmap s) b ∨
     offset / SECTOR_SIZE ≤ b ≤ (offset + Z.of_nat (length data) - 1) / SECTOR_SIZE) →
  (∀ b, 0 ≤ b → marked bmd b → marked bm1 b) →
  length g = length f → slice 0 4096 g = slice 0 4096 f →
  slice 4096 (length bmd) g = bmd → length bmd = length (bitmap s) →
  (∀ j, bmd !! j = bitmap s !! j ∨ bmd !! j = bm1 !! j) →
  disk_ok n (base s) g bmd (header s).
Proof.
  intros Hdisk Hf Hne Hby Hm1 Hdown Hlg Hhead Hbmd Hlb Hbt.
  assert (0 < length data)%nat as Hpos by (destruct data; [done|simpl; lia]).
  destruct doff_pos as (Hd0 & _ & Hn & Hd1).
  assert (∀ b, 0 ≤ b → marked bmd b → marked (bitmap s) b ∨
    offset / SECTOR_SIZE ≤ b ≤ (offset + Z.of_nat (length data) - 1) / SECTOR_SIZE) as Hm.
  { intros b Hb Hx. apply Hm1; [done|]. by apply Hdown. }
  assert (∀ b, 0 ≤ b → marked bmd b → b < n) as Hbn.
  { intros b Hb Hx. apply Hm in Hx as [Hx|[_ Hx]]; [by apply Hok| |done]. by eapply sector_bound. }
  destruct Hdisk as [Dhdr Dn Dbase Dbml Dbytes Dunused Dhead Dbitmap Ddata Dlen Dsmall].
  split; try done; try lia.
  - apply Forall_lookup. intros j x Hx.
    destruct (Hbt j) as [E|E]; rewrite E in Hx; [by eapply (Forall_lookup_1 _ _ _ _ Dbytes)|].
    by eapply (Forall_lookup_1 _ _ _ _ Hby).
  - intros b Hx. destruct (decide (0 ≤ b)); [by apply Hbn|lia].
  - by rewrite Hhead.
  - intros b Hb Hx. rewrite Hlg. apply Hm in Hx as [Hx|Hx]; [by apply Ddata| |done].
    assert (is_Some (f !! Z.to_nat (doff + ((b + 1) * 512 - 1)))) as Hs.
    { rewrite Hf; [apply new_byte_is_Some|lia|by rewrite sector_last].
      assert (b < n) by (eapply sector_bound; [exact Hin|apply Hx]). lia. }
    apply lookup_lt_is_Some_1 in Hs. fold doff. lia.
Qed.

(** The disk once the data is complete, with each byte of the bitmap on disk
    the old or the new one. *)
Lemma bitmap_stage_disk f g bm1 bmd :
  data_stage s offset data f → data_full s offset data f → data ≠ [] →
  length bm1 = length (bitmap s) → Forall is_byte bm1 →
  (∀ b, 0 ≤ b → marked bm1 b ↔ marked (bitmap s) b ∨
     offset / SECTOR_SIZE ≤ b ≤ (offset + Z.of_nat (length data) - 1) / SECTOR_SIZE) →
  length g = length f → slice 0 4096 g = slice 0 4096 f →
  slice 4096 (length bmd) g = bmd → length bmd = length bm1 →
  (∀ i, doff ≤ Z.of_nat i → g !! i = f !! i) →
  (∀ j, bmd !! j = bitmap s !! j ∨ bmd !! j = bm1 !! j) →
  disk_ok n (base s) g bmd (header s) ∧
  (∀ o, 0 ≤ o < n * 512 → let x := cow_byte (base s) g bmd doff o in
     x = view s o ∨ x = new_byte s offset data o) ∧
  (bmd = bm1 → ∀ o, 0 ≤ o < n * 512 → cow_byte (base s) g bmd doff o = new_byte s offset data o).
Proof.
  intros Hd Hf Hne Hl1 Hby Hm1 Hlg Hhead Hbmd Hlb Htail Hbt.
  assert (0 < length data)%nat as Hpos by (destruct data; [done|simpl; lia]).
  destruct doff_pos as (Hd0 & _ & Hn & Hd1).
  destruct (data_stage_disk f Hd) as [Hdisk _].
  assert (∀ b, 0 ≤ b → marked (bitmap s) b → marked bmd b) as Hup.
  { intros b Hb Hm. destruct (Hbt (Z.to_nat (b / 8))) as [E|E]; apply (marked_same _ _ _ E); [done|].
    apply Hm1; eauto. }
  assert (∀ b, 0 ≤ b → marked bmd b → marked bm1 b) as Hdown.
  { intros b Hb Hm. destruct (Hbt (Z.to_nat (b / 8))) as [E|E]; apply (marked_same _ _ _ E) in Hm; [|done].
    apply Hm1; eauto. }
  assert (∀ o, o / SECTOR_SIZE < offset / SECTOR_SIZE ∨
     (offset + Z.of_nat (length data) - 1) / SECTOR_SIZE < o / SECTOR_SIZE →
     new_byte s offset data o = view s o) as Hout.
  { intros o Hx. unfold new_byte. rewrite decide_False; [done|]. by apply sector_outside. }
  assert (∀ o, 0 ≤ o → marked bmd (o / SECTOR_SIZE) → cow_byte (base s) g bmd doff o = f !! Z.to_nat (doff + o)) as Hmk.
  { intros o H0 Hm. unfold cow_byte. rewrite decide_True by done. apply Htail. lia. }
  assert (∀ o, ~ marked bmd (o / SECTOR_SIZE) → 0 ≤ o → cow_byte (base s) g bmd doff o = view s o) as Hcl.
  { intros o Hm H0. unfold cow_byte, view, cow_byte. rewrite !decide_False; [done| |done].
    intros Hx. apply Hm, Hup; [by apply sector_nonneg|done]. }
  split_and!.
  - apply (bitmap_disk f g bm1 bmd); try done. by rewrite Hlb.
  - intros o H0 x. subst x. assert (0 ≤ o / SECTOR_SIZE) as Hq by (apply sector_nonneg; lia).
    destruct (decide (marked bmd (o / SECTOR_SIZE))) as [Hm|Hm]; [|left; apply Hcl; [done|lia]].
    rewrite Hmk by (lia || done). apply Hdown in Hm; [|done]. apply Hm1 in Hm as [Hm|Hr]; [| |done].
    + apply (ds_old _ _ _ _ Hd o ltac:(lia) Hm).
    + right. apply Hf; [lia|done].
  - intros -> o H0. assert (0 ≤ o / SECTOR_SIZE) as Hq by (apply sector_nonneg; lia).
    destruct (decide (marked bm1 (o / SECTOR_SIZE))) as [Hm|Hm].
    + rewrite Hmk by (lia || done).
      destruct (decide (offset / SECTOR_SIZE ≤ o / SECTOR_SIZE
        ≤ (offset + Z.of_nat (length data) - 1) / SECTOR_SIZE)) as [Hr|Hr]; [apply Hf; [lia|done]|].
      apply Hm1 in Hm as [Hm|?]; [|done..].
      rewrite (Hout o) by lia. destruct (ds_old _ _ _ _ Hd o ltac:(lia) Hm) as [Hx|Hx]; fold doff in Hx; rewrite Hx; [done|].
      apply Hout. lia.
    + rewrite Hcl by (lia || done). symmetry. apply Hout.
      assert (~ (offset / SECTOR_SIZE ≤ o / SECTOR_SIZE
        ≤ (offset + Z.of_nat (length data) - 1) / SECTOR_SIZE)); [|lia].
      intros Hr. apply Hm, Hm1; eauto.
Qed.

(** Persisting the bytes [lo..hi] of the new bitmap. *)
Lemma bitmap_write_disk f bm1 lo hi k :
  data_stage s offset data f → data_full s offset data f → data ≠ [] →
  length bm1 = length (bitmap s) → Forall is_byte bm1 →
  (∀ b, 0 ≤ b → marked bm1 b ↔ marked (bitmap s) b ∨
     offset / SECTOR_SIZE ≤ b ≤ (offset + Z.of_nat (length data) - 1) / SECTOR_SIZE) →
  (lo ≤ hi < length bm1)%nat → (∀ j, bm1 !! j ≠ bitmap s !! j → lo ≤ j ≤ hi)%nat →
  (k ≤ hi - lo + 1)%nat →
  let g := file_write f (4096 + lo) (take k (slice lo (hi - lo + 1) bm1)) in
  survives n s offset data g ∧
  (k = (hi - lo + 1)%nat → disk_ok n (base s) g bm1 (header s) ∧
     ∀ o, 0 ≤ o < n * 512 → cow_byte (base s) g bm1 doff o = new_byte s offset data o).
Proof.
  intros Hd Hf Hne Hl1 Hby Hm1 Hlo Hch Hk g. destruct (data_stage_disk f Hd) as [Hdisk _].
  assert (Z.of_nat (4096 + length bm1) ≤ doff ∧ doff ≤ Z.of_nat (length f)) as [Hend Hlf].
  { split; [|apply Hdisk]. destruct (header_new_Ok n (header s)) as (_ & _ & _ & _ & _ & Hdo & _);
      [pose proof (dk_n _ _ _ _ _ Hdisk); lia|by apply Hdisk|].
    rewrite Hl1. pose proof (dk_bitmap_len _ _ _ _ _ Hdisk). subst doff. lia. }
  set (w := take k (slice lo (hi - lo + 1) bm1)) in *.
  assert (length w = k) as Hw by (unfold w; rewrite length_take, length_slice by lia; lia).
  assert (length g = length f) as Hlg by (unfold g; rewrite length_file_write; case_decide; lia).
  set (bmd := slice 4096 (length bm1) g).
  assert (length bmd = length bm1) as Hlb by (apply length_slice; lia).
  assert (∀ j, (j < length bm1)%nat →
    bmd !! j = if decide (lo ≤ j < lo + k)%nat then bm1 !! j else bitmap s !! j) as Hlk.
  { intros j Hj. unfold bmd, g. rewrite lookup_slice, decide_True by done. case_decide.
    - rewrite file_write_in by lia. unfold w. rewrite lookup_take_lt by lia.
      rewrite lookup_slice, decide_True by lia. f_equal. lia.
    - rewrite file_write_outside by lia. rewrite <- (dk_bitmap _ _ _ _ _ Hdisk), lookup_slice, decide_True by lia.
      done. }
  destruct (bitmap_stage_disk f g bm1 bmd Hd Hf Hne Hl1 Hby Hm1 Hlg) as (H1 & H2 & H3).
  - apply file_write_slice_outside; lia.
  - by rewrite Hlb.
  - done.
  - intros i Hi. destruct (decide (i < length f)%nat).
    + apply file_write_outside; lia.
    + rewrite !lookup_ge_None_2; [done|lia..].
  - intros j. destruct (decide (j < length bm1)%nat); [|left; rewrite !lookup_ge_None_2; [done|lia..]].
    rewrite Hlk by done. case_decide; eauto.
  - split; [exists bmd; done|]. intros ->.
    assert (bmd = bm1) as E; [|rewrite E in *; eauto].
    apply list_eq. intros j. destruct (decide (j < length bm1)%nat); [|rewrite !lookup_ge_None_2; [done|lia..]].
    rewrite Hlk by done. case_decide; [done|].
    destruct (decide (bm1 !! j = bitmap s !! j)) as [E|E]; [done|]. apply Hch in E. lia.
Qed.

(** The last step of a write, in the state [st] that has all its data. *)
Lemma mark_dirty_range_ok st :
  base st = base s → bitmap st = bitmap s → header st = header s →
  data_stage s offset data (overlay st) → data_full s offset data (overlay st) → data ≠ [] →
  ∃ r st', mark_dirty_range (offset / SECTOR_SIZE) ((offset + Z.of_nat (length data) - 1) / SECTOR_SIZE) st
      = Some (r, st') ∧ (r = Ok tt ∨ r = Err Io) ∧ (budget st = None → budget st' = None ∧ r = Ok tt) ∧
    survives n s offset data (overlay st') ∧ (r = Ok tt → written n s offset data st').
Proof.
  intros E1 E2 E3 Hd Hf Hne.
  assert (0 < length data)%nat as Hpos by (destruct data; [done|simpl; lia]).
  set (first := offset / SECTOR_SIZE). set (last := (offset + Z.of_nat (length data) - 1) / SECTOR_SIZE).
  assert (0 ≤ first ≤ last ∧ last < n) as [Hfl Hln].
  { subst first last. split; [|by eapply sector_bound]. unfold SECTOR_SIZE.
    clear -Hpos Ho. split; [|apply Z.div_le_mono]; zlia. }
  destruct (mark_blocks_ok (Z.to_nat (last - first + 1)) first (bitmap s) None)
    as (bm1 & ch & He & Hl1 & Hby & Hm & _ & H2 & H3); [lia| |by apply Hok|done|].
  { left. rewrite Z2Nat.id by lia. replace (first + (last - first + 1) - 1) with last by lia.
    eapply bitmap_covers; [exact Hok|done]. }
  rewrite Z2Nat.id in He, Hm by lia.
  assert (∀ b, 0 ≤ b → marked bm1 b ↔ marked (bitmap s) b ∨ first ≤ b ≤ last) as Hm1.
  { intros b Hb. rewrite Hm by done. split; intros [?|?]; auto; right; lia. }
  unfold mark_dirty_range. erewrite io_bind_Ok by done. rewrite E2, He.
  erewrite io_bind_Ok by done. destruct ch as [[lo hi]|].
  - destruct (H2 lo hi eq_refl) as [Hlh Hhl].
    assert (u64_checked_add (bitmap_offset (header s)) (Z.of_nat lo) = Some (4096 + Z.of_nat lo)) as Hadd.
    { destruct (header_new_Ok n (header s)) as (_ & _ & _ & -> & _ & Hdo & Hbm & _); [lia|by apply Hok|].
      pose proof (dk_bitmap_len _ _ _ _ _ Hok). apply u64_checked_add_Some. split; [done|lia]. }
    erewrite io_bind_Ok by (unfold io_lift; rewrite E3, Hadd; done).
    destruct (write_all_at_prefix (4096 + Z.of_nat lo) (slice lo (hi - lo + 1) bm1)
      (mkCow (base st) (overlay st) bm1 (header s) (budget st))) as (r & st' & k & Hw & Hran & Hk & Hov & Hr).
    exists r, st'. destruct Hran as (R1 & R2 & R3 & R4 & R5). cbn in R1, R2, R3, R4, Hov.
    rewrite length_slice in Hk, Hr by lia. replace (Z.to_nat (4096 + Z.of_nat lo)) with (4096 + lo)%nat in Hov by lia.
    destruct (bitmap_write_disk (overlay st) bm1 lo hi k) as [S1 S2]; try done; [lia| |].
    { intros j Hj. destruct (H3 j Hj) as (x & y & [= <- <-] & ?). done. }
    rewrite <- Hov in S1, S2. split_and!; try done. intros ->. destruct (S2 (Hr eq_refl)).
    unfold written, cow_ok, view. rewrite R1, R2, R3, E1. done.
  - exists (Ok tt). eexists. split; [done|]. cbn. rewrite E1, E3.
    assert (bm1 = bitmap s) as ->.
    { apply list_eq. intros j. destruct (decide (bm1 !! j = bitmap s !! j)) as [E|E]; [done|].
      destruct (H3 j E) as (? & ? & ? & _). done. }
    destruct (data_stage_disk _ Hd) as [Hdisk Hv].
    destruct (bitmap_stage_disk (overlay st) (overlay st) (bitmap s) (bitmap s) Hd Hf Hne) as (S1 & S2 & S3);
      try done; try (by apply Hdisk); [auto|].
    split_and!; [auto|auto|eexists; done|]. intros _. unfold written, cow_ok, view. cbn. auto.
Qed.

Lemma data_stage_survives f : data_stage s offset data f → survives n s offset data f.
Proof. intros Hd. exists (bitmap s). by apply data_stage_disk. Qed.

(** An I/O error in the data stage ends the write there. *)
Lemma data_stage_stop st st' :
  ran st st' (Err Io) → (budget s = None → budget st = None) → data_stage s offset data (overlay st') →
  write_outcome n s offset data (Err Io) st'.
Proof.
  intros (_ & _ & _ & Hb & _) Hs Hd. split_and!; [auto| |by apply data_stage_survives|done].
  intros E. by destruct (Hb (Hs E)).
Qed.

(** Writing the data and marking its sectors, once the edges are ready. *)
Lemma write_data_ok st fua :
  data ≠ [] → ran s st (Ok tt) → data_stage s offset data (overlay st) →
  edge_ready s offset data (overlay st) (offset / SECTOR_SIZE) →
  edge_ready s offset data (overlay st) ((offset + Z.of_nat (length data) - 1) / SECTOR_SIZE) →
  ∃ r s', io_bind (overlay_offset offset) (fun destination =>
    io_bind (write_all_at destination data) (fun _ =>
    io_bind (mark_dirty_range (offset / SECTOR_SIZE) ((offset + Z.of_nat (length data) - 1) / SECTOR_SIZE))
      (fun _ => if fua : bool then flush else io_ret tt))) st = Some (r, s') ∧
    write_outcome n s offset data r s'.
Proof.
  intros Hne (E1 & E2 & E3 & Eb & _) Hd He1 He2. destruct doff_pos as (Hd0 & Hdm & Hn & Hd1).
  erewrite io_bind_Ok; cycle 1.
  { unfold overlay_offset. erewrite io_bind_Ok by done. rewrite E3. fold doff. unfold io_lift.
    rewrite (proj2 (u64_checked_add_Some doff offset _)) by (split; [done|lia]). done. }
  destruct (write_all_at_prefix (doff + offset) data st) as (r & st' & k & Hw & Hran & Hk & Hov & Hr).
  assert (data_stage s offset data (overlay st')) as Hd'.
  { rewrite Hov. apply data_stage_write; [done|lia|]. rewrite length_take.
    intros o H0 Hx _. unfold new_byte. rewrite lookup_take_lt, decide_True by lia. f_equal. lia. }
  pose proof Hran as (R1 & R2 & R3 & R4 & [-> | ->]); cycle 1.
  { exists (Err Io), st'. split; [unfold io_bind; by rewrite Hw|].
    apply (data_stage_stop st); [done| |done]. intros E. by destruct (Eb E). }
  erewrite io_bind_Ok by exact Hw.
  destruct (mark_dirty_range_ok st') as (r & s' & Hm & Hor & Hbud & Hsv & Hwr);
    [congruence..|done| |done|].
  { rewrite Hov, (Hr eq_refl), take_ge by done. by apply data_full_write. }
  assert (budget s = None → budget s' = None ∧ r = Ok tt) as Hb'.
  { intros E. destruct (Eb E) as [E' _]. destruct (R4 E'). by apply Hbud. }
  exists r, s'. unfold io_bind. rewrite Hm. unfold write_outcome.
  destruct Hor as [-> | ->]; [destruct fua; auto|split_and!; auto].
Qed.

Lemma write_at_run fua :
  ∃ r s', write_at offset data fua s = Some (r, s') ∧ write_outcome n s offset data r s'.
Proof.
  unfold write_at. destruct (length data =? 0)%nat eqn:E0.
  { apply Nat.eqb_eq in E0. exists (Ok tt), s. split; [done|].
    assert (∀ o, new_byte s offset data o = view s o) as Hnb.
    { intros o. unfold new_byte. by rewrite decide_False by lia. }
    split_and!; [auto|auto|exists (bitmap s); auto|]. intros _. split_and!; [done|done|]. intros. by rewrite Hnb. }
  assert (data ≠ []) as Hne by (intros ->; done). apply Nat.eqb_neq in E0.
  destruct doff_pos as (Hd0 & Hdm & Hn & Hd1).
  erewrite io_bind_Ok by (unfold io_lift; rewrite (proj2 (u64_checked_add_Some _ _ _)) by (split; [done|lia]); done).
  set (first := offset / SECTOR_SIZE). set (last := (offset + Z.of_nat (length data) - 1) / SECTOR_SIZE).
  assert (0 ≤ first < n ∧ 0 ≤ last < n) as [Hf Hl].
  { subst first last. unfold SECTOR_SIZE. clear -E0 Ho Hin. zlia. }
  destruct (copy_up_edge_ok s first) as (r1 & st1 & C1 & R1 & D1 & F1 & _);
    [done..|apply data_stage_start|done|].
  pose proof R1 as (Eb1 & Em1 & Eh1 & Bd1 & [-> | ->]); cycle 1.
  { exists (Err Io), st1. unfold io_bind. rewrite C1. split; [done|]. by apply (data_stage_stop s). }
  erewrite io_bind_Ok by exact C1.
  destruct (first =? last) eqn:Efl; bool_to_prop.
  { erewrite io_bind_Ok by done. apply write_data_ok; [done|done|done|by apply F1|].
    fold last. rewrite <- Efl. by apply F1. }
  destruct (copy_up_edge_ok st1 last) as (r2 & st2 & C2 & R2 & D2 & F2 & K2); [done..|].
  pose proof R2 as (Eb2 & Em2 & Eh2 & Bd2 & [-> | ->]); cycle 1.
  { exists (Err Io), st2. unfold io_bind. rewrite C2. split; [done|].
    apply (data_stage_stop st1); [done| |done]. intros E. by apply Bd1. }
  erewrite io_bind_Ok by exact C2. apply write_data_ok; [done| |done|apply K2; auto|by apply F2].
  split_and!; [congruence..| |auto]. intros E. destruct (Bd1 E). by apply Bd2.
Qed.

End writing.
