(* ===== verification/CowOpen.v ===== *)
(** * Opening an overlay, and what a guest can rely on

    The header's encoding, opening a fresh and an existing overlay file, and
    the properties of the backend as a whole. *)

From S2P Require Import Prelude Cow CowWrite.

(** The fields fit their encoding. *)
Definition header_range (h : CowHeader) : Prop :=
  in_u64 (base_len h) ∧ in_u64 (blocks h) ∧ in_u64 (bitmap_offset h) ∧ in_u64 (bitmap_len h) ∧
  in_u64 (data_offset h).

(** ** Opening *)
Section opening.

Lemma header_new_range n h : 0 ≤ n → header_new n = Ok h → header_range h.
Proof.
  intros Hn Hh. unfold header_range.
  destruct (header_new_Ok n h Hn Hh) as (H1 & -> & -> & -> & H2 & H3 & H4 & H5). rewrite H2 in *. autounfold with tarit in *. zlia.
Qed.

Lemma header_encode_fields h :
  header_encode h = COW_MAGIC ++ le_encode 4 COW_VERSION ++ le_encode 4 SECTOR_SIZE ++
    le_encode 8 (base_len h) ++ le_encode 8 (blocks h) ++ le_encode 8 (bitmap_offset h) ++
    le_encode 8 (bitmap_len h) ++ le_encode 8 (data_offset h) ++ replicate (4096 - 56) 0.
Proof.
  unfold header_encode. rewrite !length_app, !length_le_encode.
  change (Z.to_nat COW_HEADER_LEN) with 4096%nat. change (length COW_MAGIC) with 8%nat.
  rewrite <- !app_assoc. do 8 f_equal.
Qed.

Lemma length_header_encode h : length (header_encode h) = 4096%nat.
Proof. rewrite header_encode_fields, !length_app, !length_le_encode, length_replicate. done. Qed.

Ltac field := unfold read_u32, read_u64;
  match goal with buf := _ |- _ => subst buf end;
  rewrite !slice_app_r by (rewrite ?length_le_encode; simpl length; lia);
  rewrite ?length_le_encode; cbn [length COW_MAGIC Nat.sub];
  rewrite slice_exact by apply length_le_encode; apply le_decode_encode.

Lemma header_decode_encode h : header_range h → header_decode (header_encode h) = Ok h.
Proof.
  intros (H1 & H2 & H3 & H4 & H5). autounfold with tarit in *. unfold header_decode.
  rewrite length_header_encode. change (Z.of_nat 4096 <? COW_HEADER_LEN) with false. cbv iota.
  rewrite header_encode_fields. rewrite slice_exact by done. rewrite bool_decide_true by done. cbn [negb].
  match goal with |- context [read_u32 ?l 8] => set (buf := l) end.
  assert (read_u32 buf 8 = COW_VERSION) as -> by (field; done).
  assert (read_u32 buf 12 = SECTOR_SIZE) as -> by (field; done).
  assert (read_u64 buf 16 = base_len h) as -> by (field; lia).
  assert (read_u64 buf 24 = blocks h) as -> by (field; lia).
  assert (read_u64 buf 32 = bitmap_offset h) as -> by (field; lia).
  assert (read_u64 buf 40 = bitmap_len h) as -> by (field; lia).
  assert (read_u64 buf 48 = data_offset h) as -> by (field; lia).
  by destruct h.
Qed.

Lemma unused_mask_bit used k :
  0 ≤ used < 8 → 0 ≤ k →
  Z.testbit (Z.land (Z.lnot (Z.shiftl 1 used - 1)) 255) k = bool_decide (used ≤ k < 8).
Proof.
  intros Hu Hk. rewrite Z.land_spec, Z.lnot_spec by done. change 255 with (Z.ones 8).
  rewrite Z.shiftl_1_l. replace (2 ^ used - 1) with (Z.ones used) by (rewrite Z.ones_equiv; lia).
  rewrite !Z.ones_spec by lia. repeat case_bool_decide; try done; lia.
Qed.

Lemma has_bits_false_iff a m :
  has_bits a m = false ↔ ∀ k, 0 ≤ k → Z.testbit m k = true → Z.testbit a k = false.
Proof.
  unfold has_bits. rewrite negb_false_iff, Z.eqb_eq. split.
  - intros E k Hk Hm. assert (Z.testbit (Z.land a m) k = false) as H by (by rewrite E, Z.bits_0).
    rewrite Z.land_spec, Hm, andb_true_r in H. done.
  - intros H. apply Z.bits_inj'. intros k Hk. rewrite Z.land_spec, Z.bits_0.
    destruct (Z.testbit m k) eqn:E; [by rewrite (H k Hk E)|apply andb_false_r].
Qed.

(** The check on the last bitmap byte: no sector past the device is marked. *)
Lemma validate_unused_iff bm n :
  0 < n → Z.of_nat (length bm) = (n + 7) / 8 →
  validate_unused_bitmap_bits bm n = Ok tt ↔ ∀ b, marked bm b → b < n.
Proof.
  intros Hn Hl. unfold validate_unused_bitmap_bits. rewrite last_lookup.
  assert (Init.Nat.pred (length bm) < length bm)%nat as Hlt by zlia.
  destruct (lookup_lt_is_Some_2 _ _ Hlt) as [byte Hb]. rewrite Hb.
  assert (∀ b, marked bm b → b < 8 * Z.of_nat (length bm)) as Hm.
  { intros b (x & Hx & _). apply lookup_lt_Some in Hx. zlia. }
  destruct (n mod 8 =? 0) eqn:E0; bool_to_prop.
  { split; [|done]. intros _ b Hx. apply Hm in Hx. zlia. }
  assert (0 ≤ n mod 8 < 8) as Hu by (apply Z.mod_pos_bound; lia).
  destruct (has_bits byte _) eqn:Eh.
  - split; [done|]. intros Hall. exfalso.
    assert (has_bits byte (Z.land (Z.lnot (Z.shiftl 1 (n mod 8) - 1)) 255) = false) as Hf; [|congruence].
    apply has_bits_false_iff. intros k Hk Hmk. rewrite unused_mask_bit, bool_decide_eq_true in Hmk by done.
    destruct (Z.testbit byte k) eqn:Et; [|done]. exfalso.
    assert (8 * (Z.of_nat (length bm) - 1) + k < n); [|zlia]. apply Hall. exists byte.
    replace ((8 * (Z.of_nat (length bm) - 1) + k) / 8) with (Z.of_nat (length bm) - 1) by zlia.
    replace ((8 * (Z.of_nat (length bm) - 1) + k) mod 8) with k by zlia.
    split; [|done]. rewrite <- Hb. f_equal. lia.
  - split; [|done]. intros _ b Hx. destruct (decide (b < n)) as [|Hge]; [done|]. exfalso.
    pose proof (Hm b Hx). destruct Hx as (x & Hx & Ht).
    replace (Z.to_nat (b / 8)) with (Init.Nat.pred (length bm)) in Hx by zlia.
    rewrite Hb in Hx. injection Hx as ->.
    rewrite (proj1 (has_bits_false_iff _ _) Eh (b mod 8)) in Ht; [done|zlia|].
    rewrite unused_mask_bit by zlia. apply bool_decide_eq_true. zlia.
Qed.

Lemma validate_header_refl h : validate_overlay_header h h = Ok tt.
Proof. unfold validate_overlay_header. by rewrite !Z.eqb_refl. Qed.

Lemma slice_length_le (off n : nat) (f l : list Z) :
  (0 < n)%nat → slice off n f = l → length l = n → (off + n ≤ length f)%nat.
Proof. intros Hn <- Hl. unfold slice in Hl. rewrite length_take, length_drop in Hl. lia. Qed.

(** Opening a well-formed overlay file gives the state it stands for. *)
Lemma open_disk n base f bm h bud :
  disk_ok n base f bm h → open base f n bud = Some (Ok tt, mkCow base f bm h bud).
Proof.
  intros Hok. pose proof (dk_n _ _ _ _ _ Hok) as Hn. pose proof (dk_header _ _ _ _ _ Hok) as Hh.
  destruct (header_new_Ok n h) as (_ & _ & Hb & Hbo & Hbl & Hdo & _); [lia|done|].
  pose proof (dk_bitmap_len _ _ _ _ _ Hok) as Hbm.
  assert (0 < length bm)%nat by zlia.
  assert (4096 + length bm ≤ length f)%nat as Hlf
    by (eapply slice_length_le; [done|apply Hok|done]).
  unfold open, open_overlay. erewrite io_bind_Ok by (unfold io_lift; rewrite Hh; done).
  erewrite io_bind_Ok by done. cbn [overlay].
  rewrite (proj2 (Z.eqb_neq _ _)), (proj2 (Z.ltb_ge _ _)) by (unfold COW_HEADER_LEN; lia).
  erewrite io_bind_Ok; cycle 1.
  { unfold io_bind, read_overlay, read_exact_at, COW_HEADER_LEN. cbn [overlay].
    rewrite (proj2 (Nat.eqb_neq _ _)), (proj2 (Z.leb_le _ _)) by lia. cbn [ok_or].
    change (Z.to_nat 0) with 0%nat. change (Z.to_nat 4096) with 4096%nat.
    rewrite (dk_head_bytes _ _ _ _ _ Hok). unfold io_lift.
    rewrite header_decode_encode by (eapply header_new_range; [|exact Hh]; lia). done. }
  erewrite io_bind_Ok by (unfold io_lift; rewrite validate_header_refl; done).
  erewrite io_bind_Ok; cycle 1.
  { unfold read_overlay, read_exact_at. cbn [overlay]. rewrite <- Hbm, Nat2Z.id, Hbo.
    rewrite (proj2 (Nat.eqb_neq _ _)), (proj2 (Z.leb_le _ _)) by lia. cbn [ok_or].
    change (Z.to_nat 4096) with 4096%nat. rewrite (dk_bitmap _ _ _ _ _ Hok). done. }
  erewrite io_bind_Ok; cycle 1.
  { unfold io_lift. rewrite Hb, (proj2 (validate_unused_iff bm n Hn ltac:(lia))) by apply Hok. done. }
  done.
Qed.

Lemma file_write_append f bs : file_write f (length f) bs = f ++ bs.
Proof.
  unfold file_write. destruct bs as [|x bs]; [simpl; by rewrite app_nil_r|].
  cbn [length Nat.eqb]. unfold copy_from_slice.
  replace (length f + S (length bs) - length f)%nat with (S (length bs)) by lia.
  rewrite take_app_length, drop_ge, app_nil_r; [done|].
  rewrite length_app, length_replicate. simpl. lia.
Qed.

Lemma not_marked_zeros k b : ~ marked (replicate k 0) b.
Proof. intros (x & Hx & Ht). apply lookup_replicate in Hx as [-> _]. by rewrite Z.bits_0 in Ht. Qed.

(** The file [write_fresh_cow] leaves. *)
Definition fresh_file (h : CowHeader) : list Z :=
  header_encode h ++ replicate (Z.to_nat (bitmap_len h)) 0 ++
  replicate (Z.to_nat (data_offset h - 4096 - bitmap_len h)) 0.

Lemma write_fresh_run n h st :
  0 < n → header_new n = Ok h → overlay st = [] → budget st = None →
  write_fresh_cow h st = Some (Ok tt, mkCow (base st) (fresh_file h) (bitmap st) (header st) None).
Proof.
  intros Hn Hh Ho Hb. destruct (header_new_Ok n h) as (_ & _ & _ & Hbo & Hbl & Hdo & _); [lia|done|].
  unfold write_fresh_cow, io_bind, write_all_at. rewrite Hb, Ho, Hbo. cbn [overlay bitmap header base budget].
  assert (file_write [] (Z.to_nat 0) (header_encode h) = header_encode h) as ->
    by (change (Z.to_nat 0) with (@length Z []); by rewrite file_write_append).
  replace (Z.to_nat 4096) with (length (header_encode h)) by (rewrite length_header_encode; lia).
  rewrite file_write_append.
  unfold set_overlay_len. cbn [overlay bitmap header base budget]. do 3 f_equal.
  assert (0 ≤ bitmap_len h) by (rewrite Hbl; zlia).
  unfold set_len, fresh_file. rewrite take_ge, length_app, length_header_encode, length_replicate.
  - rewrite <- app_assoc. do 3 f_equal. lia.
  - rewrite length_app, length_header_encode, length_replicate. lia.
Qed.

Lemma fresh_disk n base h :
  0 < n → header_new n = Ok h → Z.of_nat (length base) = n * 512 → data_offset h + n * 512 ≤ U64_MAX →
  disk_ok n base (fresh_file h) (replicate (Z.to_nat (bitmap_len h)) 0) h.
Proof.
  intros Hn Hh Hb Hs. destruct (header_new_Ok n h) as (_ & _ & _ & Hbo & Hbl & Hdo & _); [lia|done|].
  assert (0 ≤ bitmap_len h) by (rewrite Hbl; zlia).
  assert (∀ b, ~ marked (replicate (Z.to_nat (bitmap_len h)) 0) b) as Hnm by (intros; apply not_marked_zeros).
  split; [exact Hh|exact Hn|exact Hb| | | | | | | |exact Hs].
  - rewrite length_replicate. lia.
  - apply Forall_replicate. unfold is_byte. lia.
  - intros b Hm. by apply Hnm in Hm.
  - apply slice_exact, length_header_encode.
  - unfold fresh_file. rewrite slice_app_r by (rewrite length_header_encode; lia).
    rewrite length_header_encode, Nat.sub_diag. apply slice_exact. done.
  - intros b _ Hm. by apply Hnm in Hm.
  - unfold fresh_file. rewrite !length_app, length_header_encode, !length_replicate. lia.
Qed.

Lemma open_fresh n base h :
  0 < n → header_new n = Ok h → Z.of_nat (length base) = n * 512 → data_offset h + n * 512 ≤ U64_MAX →
  open base [] n None =
    Some (Ok tt, mkCow base (fresh_file h) (replicate (Z.to_nat (bitmap_len h)) 0) h None).
Proof.
  intros Hn Hh Hb Hs. pose proof (fresh_disk n base h Hn Hh Hb Hs) as Hok.
  destruct (header_new_Ok n h) as (_ & _ & Hbk & Hbo & Hbl & Hdo & _); [lia|done|].
  assert (0 ≤ bitmap_len h) by (rewrite Hbl; zlia).
  assert (Z.of_nat (length (replicate (Z.to_nat (bitmap_len h)) 0)) = (n + 7) / 8) as Hlz
    by (rewrite length_replicate; lia).
  unfold open, open_overlay. erewrite io_bind_Ok by (unfold io_lift; rewrite Hh; done).
  erewrite io_bind_Ok by done. cbn [overlay].
  change (Z.of_nat (length (@nil Z)) =? 0) with true. cbv iota.
  erewrite io_bind_Ok; cycle 1.
  { erewrite io_bind_Ok by (eapply write_fresh_run; done). done. }
  cbn [Cow.base bitmap header]. erewrite io_bind_Ok by (unfold io_lift; rewrite validate_header_refl; done).
  erewrite io_bind_Ok; cycle 1.
  { unfold read_overlay, read_exact_at. cbn [overlay]. rewrite Hbo.
    assert (Z.of_nat (length (fresh_file h)) = data_offset h) as ->.
    { unfold fresh_file. rewrite !length_app, length_header_encode, !length_replicate. lia. }
    rewrite (proj2 (Nat.eqb_neq _ _)), (proj2 (Z.leb_le _ _)) by zlia. cbn [ok_or].
    pose proof (dk_bitmap _ _ _ _ _ Hok) as Hx. rewrite length_replicate in Hx.
    change (Z.to_nat 4096) with 4096%nat. rewrite Hx. done. }
  erewrite io_bind_Ok; cycle 1.
  { unfold io_lift. rewrite Hbk, (proj2 (validate_unused_iff _ n Hn Hlz)) by apply Hok. done. }
  done.
Qed.

End opening.

(** The bitmap is determined by the file. *)
Lemma disk_bitmap_unique n base f bm bm' h :
  disk_ok n base f bm h → disk_ok n base f bm' h → bm = bm'.
Proof.
  intros H1 H2. rewrite <- (dk_bitmap _ _ _ _ _ H1), <- (dk_bitmap _ _ _ _ _ H2). f_equal.
  pose proof (dk_bitmap_len _ _ _ _ _ H1). pose proof (dk_bitmap_len _ _ _ _ _ H2). lia.
Qed.

(** ** A bitmap byte that could not be written *)



Section failed_mark.
Variables (n : Z) (s : CowOverlay) (b : Z).
Hypothesis Hok : cow_ok n s.
Hypothesis Hb : 0 ≤ b < n.








End failed_mark.

(** ** An example device: two sectors of fives *)
Module ExampleCow.

Definition base : list Z := replicate 1024 5.
Definition header : CowHeader := mkHeader 1024 2 4096 1 4608.
Definition cow (budget : option nat) : CowOverlay :=
  mkCow base (fresh_file header) (replicate (Z.to_nat (bitmap_len header)) 0) header budget.

Lemma ok budget : cow_ok 2 (cow budget).
Proof. apply fresh_disk; vm_compute; reflexivity || done. Qed.

End ExampleCow.

(** ** Properties *)

(** A new overlay shows the base image. Opening an empty overlay file for a
    base of [n] sectors succeeds, and every read inside the device returns
    exactly the bytes of the base there. *)
Theorem cow_fresh_reads_base n base h :
  0 < n → header_new n = Ok h → Z.of_nat (length base) = n * 512 → data_offset h + n * 512 ≤ U64_MAX →
  ∃ s, open base [] n None = Some (Ok tt, s) ∧ cow_ok n s ∧
    ∀ offset buf, 0 ≤ offset → offset + Z.of_nat (length buf) ≤ n * 512 →
      read_at offset buf s = Some (Ok (slice (Z.to_nat offset) (length buf) base), s).
Proof.
  intros Hn Hh Hb Hs. eexists. split; [by apply open_fresh|].
  set (s := mkCow base (fresh_file h) _ h None).
  assert (cow_ok n s) as Hok by (by apply fresh_disk). split; [done|].
  intros offset buf Ho Hin. destruct (read_at_ok n s Hok offset buf Ho Hin) as (buf' & Hr & Hl & Hv).
  rewrite Hr. do 3 f_equal. apply list_eq_same_length with (length buf); [rewrite length_slice; lia|lia|].
  intros i x y Hi Hx Hy. rewrite Hv in Hx by done. rewrite lookup_slice, decide_True in Hy by done.
  unfold view, cow_byte in Hx. rewrite decide_False in Hx by apply not_marked_zeros.
  cbn [Cow.base s] in Hx. replace (Z.to_nat (offset + Z.of_nat i)) with (Z.to_nat offset + i)%nat in Hx by lia.
  congruence.
Qed.

Lemma cow_fresh_reads_base_witness :
  ∃ s, open ExampleCow.base [] 2 None = Some (Ok tt, s) ∧ cow_ok 2 s ∧
    ∀ offset buf, 0 ≤ offset → offset + Z.of_nat (length buf) ≤ 2 * 512 →
      read_at offset buf s = Some (Ok (slice (Z.to_nat offset) (length buf) ExampleCow.base), s).
Proof.
  apply (cow_fresh_reads_base 2 ExampleCow.base ExampleCow.header); vm_compute; reflexivity || done.
Defined.

(** C23: A read returns what was last written. On a host that does not fail, a
    write inside the device succeeds and leaves a well-formed overlay, on which
    every later read returns the written bytes inside the written range and the
    earlier contents everywhere else, whatever sectors the two requests share. *)
Theorem cow_read_after_write n s offset data fua :
  cow_ok n s → budget s = None → 0 ≤ offset → offset + Z.of_nat (length data) ≤ n * 512 →
  ∃ s', write_at offset data fua s = Some (Ok tt, s') ∧ cow_ok n s' ∧
    ∀ roff buf, 0 ≤ roff → roff + Z.of_nat (length buf) ≤ n * 512 →
      ∃ buf', read_at roff buf s' = Some (Ok buf', s') ∧ length buf' = length buf ∧
        ∀ i, (i < length buf)%nat → buf' !! i = new_byte s offset data (roff + Z.of_nat i).
Proof.
  intros Hok Hb Ho Hin. destruct (write_at_run n s offset data Hok Ho Hin fua) as (r & s' & Hw & Hout).
  destruct Hout as (_ & Hr & _ & Hwr). destruct (Hr Hb) as [_ ->]. destruct (Hwr eq_refl) as (Hok' & _ & Hv).
  exists s'. split_and!; [done|done|]. intros roff buf Hro Hrin.
  destruct (read_at_ok n s' Hok' roff buf Hro Hrin) as (buf' & Hrd & Hl & Hx).
  exists buf'. split_and!; [done|done|]. intros i Hi. rewrite Hx by done. apply Hv. lia.
Qed.

Lemma cow_read_after_write_witness :
  let s := ExampleCow.cow None in
  ∃ s', write_at 510 [1; 2; 3] false s = Some (Ok tt, s') ∧ cow_ok 2 s' ∧
    ∀ roff buf, 0 ≤ roff → roff + Z.of_nat (length buf) ≤ 2 * 512 →
      ∃ buf', read_at roff buf s' = Some (Ok buf', s') ∧ length buf' = length buf ∧
        ∀ i, (i < length buf)%nat → buf' !! i = new_byte s 510 [1; 2; 3] (roff + Z.of_nat i).
Proof.
  apply (cow_read_after_write 2 (ExampleCow.cow None) 510 [1; 2; 3] false);
    [apply ExampleCow.ok|reflexivity|lia|simpl; lia].
Defined.

(** C6: A write never corrupts the overlay. Wherever the host stops it (every
    byte written to the overlay file is a point of failure), [write_at] does not
    panic, and the overlay file it leaves opens again; each byte of the device
    then is the old one or, inside the written range, the new one. If the write
    reported success, the reopened device has all of it. *)
Theorem cow_write_crash_safe n s offset data fua :
  cow_ok n s → 0 ≤ offset → offset + Z.of_nat (length data) ≤ n * 512 →
  ∃ r s' s2, write_at offset data fua s = Some (r, s') ∧ (r = Ok tt ∨ r = Err Io) ∧
    open (base s) (overlay s') n None = Some (Ok tt, s2) ∧ cow_ok n s2 ∧
    (∀ o, 0 ≤ o < n * 512 → view s2 o = view s o ∨
       offset ≤ o < offset + Z.of_nat (length data) ∧ view s2 o = data !! Z.to_nat (o - offset)) ∧
    (r = Ok tt → ∀ o, 0 ≤ o < n * 512 → view s2 o = new_byte s offset data o).
Proof.
  intros Hok Ho Hin. destruct (write_at_run n s offset data Hok Ho Hin fua) as (r & s' & Hw & Hout).
  destruct Hout as (Hr & _ & (bm & Hdisk & Hv) & Hwr). exists r, s'. eexists.
  split_and!; [done|done|by apply open_disk|done| |].
  - intros o H0. specialize (Hv o H0). unfold view at 1. cbn. unfold new_byte in Hv.
    case_decide; naive_solver.
  - intros E o H0. destruct (Hwr E) as (Hok' & Eb & Hv'). rewrite <- Hv' by done.
    assert (Cow.header s' = Cow.header s) as Eh.
    { pose proof (dk_header _ _ _ _ _ Hok') as H1. rewrite (dk_header _ _ _ _ _ Hdisk) in H1. by injection H1. }
    assert (bm = bitmap s') as ->; [|unfold view; cbn; by rewrite Eb, Eh].
    unfold cow_ok in Hok'. rewrite Eb, Eh in Hok'. by apply (disk_bitmap_unique _ _ _ _ _ _ Hdisk Hok').
Qed.

Lemma cow_write_crash_safe_witness :
  let s := ExampleCow.cow (Some 600%nat) in
  ∃ r s' s2, write_at 510 [1; 2; 3] true s = Some (r, s') ∧ (r = Ok tt ∨ r = Err Io) ∧
    open (base s) (overlay s') 2 None = Some (Ok tt, s2) ∧ cow_ok 2 s2 ∧
    (∀ o, 0 ≤ o < 2 * 512 → view s2 o = view s o ∨
       510 ≤ o < 510 + Z.of_nat (length [1; 2; 3]) ∧ view s2 o = [1; 2; 3] !! Z.to_nat (o - 510)) ∧
    (r = Ok tt → ∀ o, 0 ≤ o < 2 * 512 → view s2 o = new_byte s 510 [1; 2; 3] o).
Proof.
  apply (cow_write_crash_safe 2 (ExampleCow.cow (Some 600%nat)) 510 [1; 2; 3] true);
    [apply ExampleCow.ok|lia|simpl; lia].
Defined.


