(* ===== verification/Blk.v ===== *)
(** * Block requests ([virtio/blk.rs], [BlkBackend] of [virtio/blk_backend.rs])

    Parsing and checking a request header, and [service] over a raw file or a
    copy-on-write overlay. A request runs on the device a guest sees: a flat
    array of bytes, [spec_service] below, which the backend refines whichever
    storage it has. *)

From S2P Require Import Prelude Cow CowWrite CowOpen.

(** ** Requests *)
Definition IN : Z := 0.
Definition OUT : Z := 1.
Definition FLUSH : Z := 4.
Definition GET_ID : Z := 8.
Definition DISCARD : Z := 11.
Definition WRITE_ZEROES : Z := 13.

Definition STATUS_OK : Z := 0.
Definition STATUS_IO_ERR : Z := 1.
Definition STATUS_UNSUPP : Z := 2.

Record BlkReqHeader := mkReq {
  req_type : Z;
  reserved : Z;
  sector : Z;
}.

Definition from_bytes (b : list Z) : option BlkReqHeader :=
  if Z.of_nat (length b) <? 16 then None
  else Some (mkReq (le_decode (slice 0 4 b)) (le_decode (slice 4 4 b)) (le_decode (slice 8 8 b))).

Inductive BlkParseError : Type :=
| UnknownReqType (t : Z)
| OutOfBounds (sector n sectors : Z)
| Overflow.

Definition known_req_type (t : Z) : bool :=
  (t =? IN) || (t =? OUT) || (t =? FLUSH) || (t =? GET_ID) || (t =? DISCARD) || (t =? WRITE_ZEROES).

Definition validate_req (header : BlkReqHeader) (data_len sectors : Z) : result Z BlkParseError :=
  if negb (known_req_type (req_type header)) then Err (UnknownReqType (req_type header))
  else if req_type header =? GET_ID then Ok 0
  else if req_type header =? FLUSH then Ok 0
  else
    let n_sectors := Z.max (data_len / 512) 1 in
    let fits := match u64_checked_add (sector header) n_sectors with
                | None => false
                | Some end_ => negb (sectors <? end_)
                end in
    if negb fits then Err (OutOfBounds (sector header) n_sectors sectors)
    else ok_or (u64_checked_mul (sector header) 512) Overflow.

(** ** The backend *)

(** The raw file has the budget of bytes the overlay has. *)
Inductive BackendStorage : Type :=
| Raw (file : list Z) (budget : option nat)
| Cow (cow : CowOverlay).

Record BlkBackend := mkBackend {
  storage : BackendStorage;
  read_only : bool;
  sectors : Z;
}.

Definition VIRTIO_BLK_T_BARRIER : Z := 2147483648.

Inductive ServiceError : Type :=
| Parse (e : BlkParseError)
| DeviceLengthOverflows
| RequestEndOverflows
| RequestPastEnd (end_ device_len : Z).

Definition validate_service_req (b : BlkBackend) (header : BlkReqHeader) (data_len : Z)
    : result (Z * Z * bool) ServiceError :=
  let op := Z.ldiff (req_type header) VIRTIO_BLK_T_BARRIER in
  let force_unit_access := has_bits (req_type header) VIRTIO_BLK_T_BARRIER in
  let normalized := mkReq op (reserved header) (sector header) in
  let? offset :=
    match validate_req normalized data_len (sectors b) with
    | Ok o => Ok o
    | Err e => Err (Parse e)
    end in
  if (op =? IN) || (op =? OUT) then
    let? device_len := ok_or (u64_checked_mul (sectors b) SECTOR_SIZE) DeviceLengthOverflows in
    let? end_ := ok_or (u64_checked_add offset data_len) RequestEndOverflows in
    if device_len <? end_ then Err (RequestPastEnd end_ device_len)
    else Ok (op, offset, force_unit_access)
  else Ok (op, offset, force_unit_access).

Definition with_storage (b : BlkBackend) (st : BackendStorage) : BlkBackend :=
  mkBackend st (read_only b) (sectors b).

(** [BlkBackend::read_at]: the buffer when the read succeeds. *)
Definition backend_read_at (b : BlkBackend) (offset : Z) (data : list Z)
    : option (result (list Z) BlkBackendError * BlkBackend) :=
  match storage b with
  | Raw f bud => Some (ok_or (read_exact_at f offset (length data)) Io, b)
  | Cow c =>
      let?o out := read_at offset data c in
      Some (out.1, with_storage b (Cow out.2))
  end.

(** [write_all_at] on a raw file. *)
Definition raw_write (f : list Z) (budget : option nat) (offset : Z) (data : list Z)
    : result unit BlkBackendError * BackendStorage :=
  match budget with
  | None => (Ok tt, Raw (file_write f (Z.to_nat offset) data) None)
  | Some n =>
      let done := take n data in
      (if (length data <=? n)%nat then Ok tt else Err Io,
       Raw (file_write f (Z.to_nat offset) done) (Some (n - length done)%nat))
  end.

(** [BlkBackend::write_at]. *)
Definition backend_write_at (b : BlkBackend) (offset : Z) (data : list Z) (force_unit_access : bool)
    : option (result unit BlkBackendError * BlkBackend) :=
  match storage b with
  | Raw f bud =>
      let '(r, st) := raw_write f bud offset data in
      Some (r, with_storage b st)
  | Cow c =>
      let?o out := write_at offset data force_unit_access c in
      Some (out.1, with_storage b (Cow out.2))
  end.

Definition serial : list Z := [118; 109; 109; 45; 98; 108; 107] ++ replicate 14 0.

(** [service]: the status byte and the buffer. What a failed read leaves in
    the buffer is not specified: [torn] stands for it. *)
Definition service (torn : list Z → list Z) (header : BlkReqHeader) (data : list Z) (b : BlkBackend)
    : option (Z * list Z * BlkBackend) :=
  match validate_service_req b header (Z.of_nat (length data)) with
  | Err _ => Some (STATUS_IO_ERR, data, b)
  | Ok (op, offset, force_unit_access) =>
      if op =? IN then
        let?o out := backend_read_at b offset data in
        Some (match out.1 with
              | Ok data' => (STATUS_OK, data', out.2)
              | Err _ => (STATUS_IO_ERR, torn data, out.2)
              end)
      else if op =? OUT then
        if read_only b then Some (STATUS_IO_ERR, data, b)
        else
          let?o out := backend_write_at b offset data force_unit_access in
          Some (match out.1 with
                | Ok _ => (STATUS_OK, data, out.2)
                | Err _ => (STATUS_IO_ERR, data, out.2)
                end)
      else if op =? FLUSH then Some (STATUS_OK, data, b)
      else if op =? GET_ID then
        let len := Nat.min (length data) 20 in
        Some (STATUS_OK, copy_from_slice data 0 (take len serial), b)
      else Some (STATUS_UNSUPP, data, b)
  end.

(** ** The device a guest sees *)

(** A request that lies inside the device. *)
Definition fits (header : BlkReqHeader) (len : nat) (sectors : Z) : bool :=
  (sector header <? sectors) && (sector header * 512 + Z.of_nat len <=? sectors * 512).

(** One request on a device with contents [disk]: status, buffer, contents. *)
Definition spec_service (ro : bool) (sectors : Z) (header : BlkReqHeader) (data disk : list Z)
    : Z * list Z * list Z :=
  let op := Z.ldiff (req_type header) VIRTIO_BLK_T_BARRIER in
  let off := Z.to_nat (sector header * 512) in
  if op =? IN then
    if fits header (length data) sectors then (STATUS_OK, slice off (length data) disk, disk)
    else (STATUS_IO_ERR, data, disk)
  else if op =? OUT then
    if fits header (length data) sectors && negb ro
    then (STATUS_OK, data, copy_from_slice disk off data)
    else (STATUS_IO_ERR, data, disk)
  else if op =? FLUSH then (STATUS_OK, data, disk)
  else if op =? GET_ID then (STATUS_OK, take (length data) (take 20 serial) ++ drop 20 data, disk)
  else if ((op =? DISCARD) || (op =? WRITE_ZEROES)) &&
          (sector header + Z.max (Z.of_nat (length data) / 512) 1 <=? sectors)
  then (STATUS_UNSUPP, data, disk)
  else (STATUS_IO_ERR, data, disk).

Definition dev_byte (b : BlkBackend) (o : Z) : option Z :=
  match storage b with
  | Raw f _ => f !! Z.to_nat o
  | Cow c => view c o
  end.

(** A backend as [from_file] or [open_cow] makes it, on a host that does not
    fail. *)
Definition backend_ok (b : BlkBackend) : Prop :=
  0 < sectors b ∧ sectors b * 512 ≤ U64_MAX ∧
  match storage b with
  | Raw f bud => Z.of_nat (length f) = sectors b * 512 ∧ bud = None
  | Cow c => cow_ok (sectors b) c ∧ budget c = None
  end.

(** The device has the contents [disk]. *)
Definition represents (b : BlkBackend) (disk : list Z) : Prop :=
  Z.of_nat (length disk) = sectors b * 512 ∧
  ∀ o, 0 ≤ o < sectors b * 512 → dev_byte b o = disk !! Z.to_nat o.

Section service.

Lemma validate_service_rw b header len :
  let op := Z.ldiff (req_type header) VIRTIO_BLK_T_BARRIER in
  sectors b * 512 ≤ U64_MAX → 0 ≤ sector header → op = IN ∨ op = OUT →
  if fits header len (sectors b)
  then validate_service_req b header (Z.of_nat len) =
         Ok (op, sector header * 512, has_bits (req_type header) VIRTIO_BLK_T_BARRIER)
  else ∃ e, validate_service_req b header (Z.of_nat len) = Err e.
Proof.
  intros op Hmax Hs Hop. unfold validate_service_req. fold op.
  assert (known_req_type op = true ∧ op =? GET_ID = false ∧ op =? FLUSH = false ∧
    (op =? IN) || (op =? OUT) = true) as (Hk & Hg & Hf & Hio) by (destruct Hop as [-> | ->]; done).
  unfold validate_req. cbn [req_type sector]. rewrite Hk, Hg, Hf, Hio. cbn [negb].
  unfold fits. set (n := Z.max (Z.of_nat len / 512) 1).
  destruct (u64_checked_add (sector header) n) as [e|] eqn:Ea.
  - apply u64_checked_add_Some in Ea as [-> Hb1]. destruct (sectors b <? sector header + n) eqn:E1; bool_to_prop.
    + cbn [negb]. destruct (_ && _) eqn:E2; [|simpl; eauto]. exfalso. bool_to_prop.
      subst n. zlia.
    + cbn [negb]. rewrite (proj2 (u64_checked_mul_Some (sector header) 512 _)) by (split; [done|]; subst n; lia).
      cbn [ok_or result_bind]. unfold SECTOR_SIZE.
      rewrite (proj2 (u64_checked_mul_Some (sectors b) 512 _)) by (split; [done|lia]). cbn [ok_or result_bind].
      rewrite (proj2 (Z.ltb_lt _ _)) by (subst n; lia). cbn [andb].
      destruct (u64_checked_add (sector header * 512) (Z.of_nat len)) as [e|] eqn:Ee; cbn [ok_or result_bind].
      * apply u64_checked_add_Some in Ee as [-> He].
        destruct (sectors b * 512 <? _) eqn:E3; bool_to_prop.
        -- rewrite (proj2 (Z.leb_gt _ _)) by lia. eauto.
        -- by rewrite (proj2 (Z.leb_le _ _)) by lia.
      * destruct (_ <=? sectors b * 512) eqn:E3; [|eauto]. bool_to_prop. exfalso.
        unfold u64_checked_add in Ee. rewrite (proj2 (Z.leb_le _ _)) in Ee by lia. done.
  - cbn [negb]. destruct (_ && _) eqn:E2; [|simpl; eauto]. exfalso. bool_to_prop.
    unfold u64_checked_add in Ea.
    rewrite (proj2 (Z.leb_le _ _)) in Ea; [done|]. subst n. zlia.
Qed.

Lemma with_storage_id b : with_storage b (storage b) = b.
Proof. by destruct b. Qed.

Lemma backend_read_ok b disk offset data :
  backend_ok b → represents b disk → 0 ≤ offset → offset + Z.of_nat (length data) ≤ sectors b * 512 →
  backend_read_at b offset data = Some (Ok (slice (Z.to_nat offset) (length data) disk), b).
Proof.
  intros (Hs & _ & Hst) (Hl & Hd) Ho Hin. unfold backend_read_at.
  unfold dev_byte in Hd. pose proof (with_storage_id b) as Hid.
  destruct (storage b) as [f bud|c] eqn:Es.
  - destruct Hst as [Hf _]. unfold read_exact_at.
    assert (f = disk) as <-.
    { apply list_eq_same_length with (length f); [lia|done|]. intros i x y Hi Hx Hy.
      specialize (Hd (Z.of_nat i) ltac:(lia)). rewrite Nat2Z.id in Hd. congruence. }
    destruct (length data =? 0)%nat eqn:E0.
    + apply Nat.eqb_eq in E0. rewrite E0. done.
    + rewrite (proj2 (Z.leb_le _ _)) by lia. done.
  - destruct Hst as [Hok _]. destruct (read_at_ok (sectors b) c Hok offset data Ho Hin) as (d & Hr & Hdl & Hv).
    rewrite Hr. cbn [fst snd]. rewrite Hid. do 3 f_equal.
    apply list_eq_same_length with (length data); [rewrite length_slice; lia|done|].
    intros i x y Hi Hx Hy. rewrite Hv, Hd in Hx by lia. rewrite lookup_slice, decide_True in Hy by done.
    replace (Z.to_nat (offset + Z.of_nat i)) with (Z.to_nat offset + i)%nat in Hx by lia. congruence.
Qed.

Lemma backend_write_ok b disk offset data fua :
  backend_ok b → represents b disk → 0 ≤ offset → offset + Z.of_nat (length data) ≤ sectors b * 512 →
  ∃ b', backend_write_at b offset data fua = Some (Ok tt, b') ∧ backend_ok b' ∧
    read_only b' = read_only b ∧ sectors b' = sectors b ∧
    represents b' (copy_from_slice disk (Z.to_nat offset) data).
Proof.
  intros (Hs & Hm & Hst) (Hl & Hd) Ho Hin. unfold backend_write_at, backend_ok, represents.
  unfold dev_byte in Hd. rewrite length_copy_from_slice by lia.
  assert (∀ o, copy_from_slice disk (Z.to_nat offset) data !! o =
    if decide (Z.to_nat offset ≤ o < Z.to_nat offset + length data)%nat
    then data !! (o - Z.to_nat offset)%nat else disk !! o) as Hcp
    by (intros; apply copy_from_slice_lookup; lia).
  destruct (storage b) as [f bud|c] eqn:Es.
  - destruct Hst as [Hf ->]. cbn [raw_write]. eexists. split; [done|]. cbn [storage sectors read_only with_storage].
    split_and!; try done.
    + rewrite length_file_write. case_decide; [done|]. lia.
    + intros o H0. cbn. rewrite Hcp. case_decide; [by rewrite file_write_in by lia|].
      rewrite file_write_outside by lia. by apply Hd.
  - destruct Hst as [Hok Hb].
    destruct (write_at_run (sectors b) c offset data Hok Ho Hin fua) as (r & c' & Hw & _ & Hbud & _ & Hwr).
    destruct (Hbud Hb) as [Hb' ->]. destruct (Hwr eq_refl) as (Hok' & _ & Hv).
    rewrite Hw. cbn [fst snd]. eexists. split; [done|]. cbn [storage sectors read_only with_storage].
    split_and!; try done. intros o H0. unfold dev_byte. cbn [storage with_storage]. rewrite Hv, Hcp by done.
    unfold new_byte. case_decide.
    + rewrite decide_True by lia. f_equal. lia.
    + rewrite decide_False by lia. by apply Hd.
Qed.

(** The requests that reach no data: flush, the serial number, the two types
    that are refused as unsupported, and unknown ones. *)
Lemma service_other torn b header data disk :
  let op := Z.ldiff (req_type header) VIRTIO_BLK_T_BARRIER in
  op ≠ IN → op ≠ OUT → 0 ≤ sector header → sectors b * 512 ≤ U64_MAX →
  service torn header data b =
    Some ((spec_service (read_only b) (sectors b) header data disk).1, b) ∧
  (spec_service (read_only b) (sectors b) header data disk).2 = disk.
Proof.
  intros op Hi Ho Hs Hm. unfold service, spec_service, validate_service_req. fold op.
  apply Z.eqb_neq in Hi, Ho. rewrite Hi, Ho. cbn [orb].
  unfold validate_req, known_req_type. cbn [req_type sector]. rewrite Hi, Ho. cbn [orb].
  destruct (op =? FLUSH) eqn:Ef; [bool_to_prop; rewrite Ef; done|].
  destruct (op =? GET_ID) eqn:Eg; cbn [orb negb result_bind].
  - rewrite Hi, Ho, Ef, Eg. split; [|done]. cbn [fst]. do 2 f_equal. unfold copy_from_slice.
    rewrite take_0, app_nil_l, take_take, length_take. change (length serial) with 21%nat. f_equal.
    destruct (decide (length data ≤ 20)%nat); [rewrite !drop_ge; [done|lia..]|].
    do 3 f_equal. lia.
  - destruct ((op =? DISCARD) || (op =? WRITE_ZEROES)) eqn:Ed; cbn [andb negb]; [|done].
    set (n := Z.max _ 1).
    destruct (u64_checked_add (sector header) n) as [e|] eqn:Ea; cycle 1.
    { cbn [negb result_bind]. rewrite (proj2 (Z.leb_gt _ _)); [done|].
      unfold u64_checked_add in Ea. case_hyp Ea; [done|]. bool_to_prop. lia. }
    apply u64_checked_add_Some in Ea as [-> He]. destruct (sectors b <? _) eqn:El;
      [apply Z.ltb_lt in El|apply Z.ltb_ge in El]; cbn [negb].
    + rewrite (proj2 (Z.leb_gt _ _)) by lia. done.
    + rewrite (proj2 (u64_checked_mul_Some (sector header) 512 _)) by (split; [done|]; subst n; lia).
      cbn [ok_or result_bind]. rewrite Hi, Ho, Ef, Eg, (proj2 (Z.leb_le _ _)) by lia. done.
Qed.

Lemma service_ok torn b disk header data :
  backend_ok b → represents b disk → 0 ≤ sector header →
  let out := spec_service (read_only b) (sectors b) header data disk in
  ∃ b', service torn header data b = Some (out.1, b') ∧ backend_ok b' ∧ represents b' out.2 ∧
    read_only b' = read_only b ∧ sectors b' = sectors b.
Proof.
  intros Hok Hrep Hs out. pose proof Hok as (Hn & Hm & _).
  set (op := Z.ldiff (req_type header) VIRTIO_BLK_T_BARRIER).
  destruct (decide (op = IN ∨ op = OUT)) as [Hop|Hop]; cycle 1.
  { destruct (service_other torn b header data disk) as [H1 H2]; [fold op; tauto..|done|done|].
    exists b. fold out in H1, H2. by rewrite H1, H2. }
  pose proof (validate_service_rw b header (length data) Hm Hs Hop) as Hv. fold op in Hv.
  unfold service, out, spec_service. fold op. destruct (fits header (length data) (sectors b)) eqn:Ef; cycle 1.
  { destruct Hv as [e ->]. exists b. destruct Hop as [-> | ->]; done. }
  rewrite Hv. unfold fits in Ef. bool_to_prop. destruct Hop as [-> | ->].
  - change (IN =? IN) with true. cbv iota. rewrite (backend_read_ok b disk) by (done || lia).
    exists b. done.
  - change (OUT =? IN) with false. change (OUT =? OUT) with true. cbn [andb]. cbv iota.
    destruct (read_only b) eqn:Er; cbn [negb]; [exists b; done|].
    destruct (backend_write_ok b disk (sector header * 512) data
      (has_bits (req_type header) VIRTIO_BLK_T_BARRIER) Hok Hrep) as (b' & Hw & Hok' & H1 & H2 & H3); [lia..|].
    rewrite Hw. exists b'. rewrite Er in H1. done.
Qed.

End service.

(** ** Properties *)

(** C11: The block backend refines a flat disk. For every request header and
    buffer, [service] on a raw file or on a copy-on-write overlay does not
    panic and gives the status byte, the buffer and the device contents of
    [spec_service]: reads and writes inside the device take effect exactly
    there, anything that would leave it, a write to a read-only device and an
    unknown type are refused without effect, and the device keeps its size. *)
Theorem service_refines torn b disk header data :
  backend_ok b → represents b disk → 0 ≤ sector header →
  let out := spec_service (read_only b) (sectors b) header data disk in
  ∃ b', service torn header data b = Some (out.1, b') ∧ backend_ok b' ∧ represents b' out.2 ∧
    read_only b' = read_only b ∧ sectors b' = sectors b.
Proof. apply service_ok. Qed.

Lemma service_refines_witness :
  let b := mkBackend (Cow (ExampleCow.cow None)) false 2 in
  let out := spec_service false 2 (mkReq 2147483649 0 1) [1; 2; 3] ExampleCow.base in
  ∃ b', service (fun d => d) (mkReq 2147483649 0 1) [1; 2; 3] b = Some (out.1, b') ∧ backend_ok b' ∧
    represents b' out.2 ∧ read_only b' = false ∧ sectors b' = 2.
Proof.
  apply (service_refines (fun d => d) (mkBackend (Cow (ExampleCow.cow None)) false 2) ExampleCow.base
    (mkReq 2147483649 0 1) [1; 2; 3]).
  - split_and!; [done|vm_compute; done|split; [apply ExampleCow.ok|done]].
  - split; [done|]. intros o Ho. unfold dev_byte, view, cow_byte. cbn [storage].
    rewrite decide_False by apply not_marked_zeros. done.
  - simpl. lia.
Defined.
