(* ===== verification/BlkIov.v ===== *)
(** * Reading straight into guest memory ([read_vectored_at], [service_read_into])

    The vectored path of [virtio/blk_backend.rs]: a request's buffers are a
    list of iovecs into guest memory, each named by the guest address it is a
    view of, and the kernel fills them with [preadv]. The kernel may be interrupted and may return fewer bytes than asked for: the
    answers it will give are a list, after which it transfers all it can. *)

From S2P Require Import Prelude Dirty GuestMem Cow CowWrite CowOpen Blk.

Record iovec := mkIov {
  iov_base : Z;
  iov_len : nat;
}.

Definition UIO_MAXIOV : nat := 1024.
Definition I64_MAX : Z := 9223372036854775807.

(** ** Kernel and memory *)

(** One answer of [preadv]: interrupted, failed, or at most [n] bytes. *)
Inductive answer : Type :=
| Interrupted
| Failed
| Short (n : nat).

Record kernel (M : Type) := mkKernel {
  memory : M;
  answers : list answer;
}.
Arguments mkKernel {M} memory answers.
Arguments memory {M} k.
Arguments answers {M} k.

Definition addrs (iov : list iovec) : list Z :=
  iov ≫= fun v => seqZ (iov_base v) (Z.of_nat (iov_len v)).

Section guest.
Context {M : Type} `{!GuestMemoryBackend M}.

(** Bytes stored at addresses, in order. *)
Fixpoint store_bytes (m : M) (as_ bs : list Z) : M :=
  match as_, bs with
  | a :: as', b :: bs' => store_bytes (gm_write_slice m a [b]).2 as' bs'
  | _, _ => m
  end.

(** [preadv]: an error, or the number of bytes stored. It stores
    at least one byte when there is room and the file has one. *)
Definition preadv (f : list Z) (iov : list iovec) (offset : Z) (w : kernel M)
    : (answer + nat) * kernel M :=
  let room := length (addrs iov) in
  let avail := Nat.min room (length f - Z.to_nat offset) in
  let go (want : nat) (rest : list answer) :=
    let n := Nat.min avail want in
    (inr n, mkKernel (store_bytes (memory w) (addrs iov) (slice (Z.to_nat offset) n f)) rest) in
  match answers w with
  | [] => go avail []
  | Short k :: rest => go (S k) rest
  | a :: rest => (inl a, mkKernel (memory w) rest)
  end.

(** ** Lists of buffers *)

Definition iov_total (iov : list iovec) : nat := sum_list_with iov_len iov.

(** The loop of [iov_range], from position [at_]. *)
Fixpoint iov_range_from (at_ : nat) (iov : list iovec) (start end_ : nat) : list iovec :=
  match iov with
  | [] => []
  | v :: rest =>
      let lo := at_ in
      let hi := (at_ + iov_len v)%nat in
      if ((hi <=? start) || (end_ <=? lo))%nat then iov_range_from hi rest start end_
      else
        let from := (Nat.max start lo - lo)%nat in
        let to := (Nat.min end_ hi - lo)%nat in
        mkIov (iov_base v + Z.of_nat from) (to - from) :: iov_range_from hi rest start end_
  end.

Definition iov_range (iov : list iovec) (start end_ : nat) : list iovec :=
  iov_range_from 0 iov start end_.

(** [while done > 0]: the buffers left after [done] bytes. The index into an
    empty list panics. *)
Fixpoint advance (iov : list iovec) (done : nat) : option (list iovec) :=
  if (done =? 0)%nat then Some iov
  else
    match iov with
    | [] => None
    | v :: rest =>
        if (iov_len v <=? done)%nat then advance rest (done - iov_len v)
        else Some (mkIov (iov_base v + Z.of_nat done) (iov_len v - done) :: rest)
    end.

(** The outer loop of [preadv_exact] on the buffers that are left. The outer
    option is a panic or no fuel. *)
Fixpoint preadv_loop (fuel : nat) (f : list Z) (iov : list iovec) (offset : Z) (w : kernel M)
    : option (result unit BlkBackendError * kernel M) :=
  match iov with
  | [] => Some (Ok tt, w)
  | _ :: _ =>
      match fuel with
      | O => None
      | S fuel' =>
          if I64_MAX <? offset then Some (Err Io, w)
          else
            match preadv f (take UIO_MAXIOV iov) offset w with
            | (inl Interrupted, w') => preadv_loop fuel' f iov offset w'
            | (inl _, w') => Some (Err Io, w')
            | (inr O, w') => Some (Err Io, w')
            | (inr n, w') =>
                let?o iov' := advance iov n in
                preadv_loop fuel' f iov' (offset + Z.of_nat n) w'
            end
      end
  end.

Definition preadv_exact (f : list Z) (iov : list iovec) (offset : Z) (w : kernel M)
    : option (result unit BlkBackendError * kernel M) :=
  let iov := filter (fun v => (0 < iov_len v)%nat) iov in
  preadv_loop (length (answers w) + iov_total iov) f iov offset w.

(** ** The vectored read *)

(** Where a run of the overlay comes from: the file and the offset in it. *)
Definition run_source (s : CowOverlay) (offset : Z) (dirty : bool) (start : nat)
    : option (result (list Z * Z) BlkBackendError) :=
  match u64_checked_add offset (Z.of_nat start) with
  | None => Some (Err (Validation OffsetOverflows))
  | Some device_offset =>
      if dirty then
        match overlay_offset device_offset s with
        | Some (Ok source, _) => Some (Ok (overlay s, source))
        | Some (Err e, _) => Some (Err e)
        | None => None
        end
      else Some (Ok (base s, device_offset))
  end.

Fixpoint read_vectored_runs (fuel : nat) (s : CowOverlay) (offset : Z) (segs : list BlockSegment)
    (iov : list iovec) (w : kernel M) : option (result unit BlkBackendError * kernel M) :=
  match fuel, segs with
  | _, [] => Some (Ok tt, w)
  | O, _ => None
  | S fuel', first :: rest =>
      let start := buffer_offset first in
      match is_dirty (block first) s with
      | Some (Ok dirty, _) =>
          match extend_run dirty rest (start + seg_len first) s with
          | Some (Ok (end_, rest'), _) =>
              match run_source s offset dirty start with
              | Some (Ok (f, source)) =>
                  match preadv_exact f (iov_range iov start end_) source w with
                  | Some (Ok _, w') => read_vectored_runs fuel' s offset rest' iov w'
                  | other => other
                  end
              | Some (Err e) => Some (Err e, w)
              | None => None
              end
          | Some (Err e, _) => Some (Err e, w)
          | None => None
          end
      | Some (Err e, _) => Some (Err e, w)
      | None => None
      end
  end.

(** Each pass takes at least one segment. *)
Definition read_vectored_at (s : CowOverlay) (offset : Z) (iov : list iovec) (w : kernel M)
    : option (result unit BlkBackendError * kernel M) :=
  let segs := segments_new offset (iov_total iov) in
  read_vectored_runs (length segs) s offset segs iov w.

Definition service_read_into (header : BlkReqHeader) (iov : list iovec) (b : BlkBackend) (w : kernel M)
    : option (Z * kernel M) :=
  if negb (Z.ldiff (req_type header) VIRTIO_BLK_T_BARRIER =? IN) then Some (STATUS_IO_ERR, w)
  else
    match validate_service_req b header (Z.of_nat (iov_total iov)) with
    | Err _ => Some (STATUS_IO_ERR, w)
    | Ok (_, offset, _) =>
        let?o out :=
          match storage b with
          | Raw f _ => preadv_exact f iov offset w
          | Cow c => read_vectored_at c offset iov w
          end in
        Some (match out.1 with Ok _ => STATUS_OK | Err _ => STATUS_IO_ERR end, out.2)
    end.

(** ** Lemmas *)

(** The kernel reports no error. *)
Definition fault_free (w : kernel M) : Prop := Failed ∉ answers w.

(** No buffer is empty. *)
Definition no_empty (iov : list iovec) : Prop := Forall (fun v => (0 < iov_len v)%nat) iov.

Section buffers.

Lemma addrs_cons v iov : addrs (v :: iov) = seqZ (iov_base v) (Z.of_nat (iov_len v)) ++ addrs iov.
Proof. done. Qed.

Lemma length_addrs iov : length (addrs iov) = iov_total iov.
Proof.
  induction iov as [|v iov IH]; [done|]. rewrite addrs_cons, length_app, length_seqZ, IH.
  unfold iov_total. simpl. lia.
Qed.

Lemma seqZ_drop (m : Z) (n k : nat) :
  (k ≤ n)%nat → drop k (seqZ m (Z.of_nat n)) = seqZ (m + Z.of_nat k) (Z.of_nat (n - k)).
Proof.
  intros Hk. replace (Z.of_nat n) with (Z.of_nat k + Z.of_nat (n - k)) by lia.
  rewrite seqZ_app by lia. apply drop_app_length'. rewrite length_seqZ. lia.
Qed.

Lemma seqZ_take (m : Z) (n k : nat) :
  (k ≤ n)%nat → take k (seqZ m (Z.of_nat n)) = seqZ m (Z.of_nat k).
Proof.
  intros Hk. replace (Z.of_nat n) with (Z.of_nat k + Z.of_nat (n - k)) by lia.
  rewrite seqZ_app by lia. apply take_app_length'. rewrite length_seqZ. lia.
Qed.

Lemma advance_ok iov : ∀ k,
  (k ≤ iov_total iov)%nat → no_empty iov →
  ∃ iov', advance iov k = Some iov' ∧ addrs iov' = drop k (addrs iov) ∧ no_empty iov'.
Proof.
  induction iov as [|v iov IH]; intros k Hk Hp.
  { simpl in Hk. assert (k = 0)%nat as -> by (unfold iov_total in Hk; simpl in Hk; lia). exists []. done. }
  cbn [advance]. destruct (k =? 0)%nat eqn:E0; [apply Nat.eqb_eq in E0 as ->; eauto|].
  apply Forall_cons in Hp as [Hv Hp]. unfold iov_total in Hk. simpl in Hk.
  assert (length (seqZ (iov_base v) (Z.of_nat (iov_len v))) = iov_len v) as Hl by (rewrite length_seqZ; lia).
  destruct (iov_len v <=? k)%nat eqn:Ek; [apply Nat.leb_le in Ek|apply Nat.leb_gt in Ek].
  - destruct (IH (k - iov_len v)%nat) as (iov' & Ha & Hd & Hp'); [unfold iov_total; lia|done|].
    exists iov'. split_and!; [done| |done]. rewrite addrs_cons, drop_app_ge, Hl by lia. done.
  - eexists. split_and!; [done| |apply Forall_cons; simpl; split; [lia|done]].
    rewrite !addrs_cons, drop_app_le by lia. by rewrite seqZ_drop by lia.
Qed.

Lemma iov_range_addrs iov : ∀ at_ start end_,
  (start ≤ end_)%nat →
  addrs (iov_range_from at_ iov start end_) =
    take (end_ - Nat.max start at_) (drop (start - at_) (addrs iov)).
Proof.
  induction iov as [|v iov IH]; intros at_ start end_ Hse; cbn [iov_range_from].
  { change (addrs []) with (@nil Z). by rewrite drop_nil, take_nil. }
  assert (length (seqZ (iov_base v) (Z.of_nat (iov_len v))) = iov_len v) as Hl by (rewrite length_seqZ; lia).
  rewrite addrs_cons.
  destruct (_ || _)%bool eqn:E.
  - rewrite IH by done. apply orb_true_iff in E as [E|E]; apply Nat.leb_le in E.
    + rewrite (drop_app_ge (seqZ _ _)), Hl by lia. f_equal; [lia|f_equal; lia].
    + replace (end_ - _)%nat with 0%nat by lia. replace (end_ - start `max` at_)%nat with 0%nat by lia. done.
  - apply orb_false_iff in E as [E1 E2]. apply Nat.leb_gt in E1, E2.
    rewrite addrs_cons, IH by done. cbn [iov_base iov_len].
    rewrite (drop_app_le (seqZ _ _)) by lia. rewrite seqZ_drop by lia.
    replace (start `max` at_ - at_)%nat with (start - at_)%nat by lia.
    destruct (decide (end_ ≤ at_ + iov_len v)%nat).
    + replace (end_ - start `max` (at_ + iov_len v))%nat with 0%nat by lia. rewrite take_0, app_nil_r.
      rewrite take_app_le by (rewrite length_seqZ; lia). rewrite seqZ_take by lia. f_equal. lia.
    + rewrite take_app_ge by (rewrite length_seqZ; lia). rewrite length_seqZ. f_equal; [f_equal; lia|].
      replace (start - (at_ + iov_len v))%nat with 0%nat by lia. rewrite drop_0. f_equal. lia.
Qed.

Lemma addrs_filter iov : addrs (filter (fun v => (0 < iov_len v)%nat) iov) = addrs iov.
Proof.
  induction iov as [|v iov IH]; [done|]. rewrite filter_cons. case_decide; rewrite !addrs_cons, IH; [done|].
  by replace (iov_len v) with 0%nat by lia.
Qed.

Lemma store_bytes_app as1 : ∀ m as2 bs1 bs2,
  length as1 = length bs1 → store_bytes m (as1 ++ as2) (bs1 ++ bs2) = store_bytes (store_bytes m as1 bs1) as2 bs2.
Proof.
  induction as1 as [|a as1 IH]; intros m as2 [|b bs1] bs2 Hl; try done. simpl. apply IH. by injection Hl.
Qed.

Lemma store_bytes_take as_ : ∀ m bs, (length bs ≤ length as_)%nat → store_bytes m as_ bs = store_bytes m (take (length bs) as_) bs.
Proof.
  induction as_ as [|a as_ IH]; intros m [|b bs] Hl; simpl in *; try done. apply IH. lia.
Qed.

End buffers.

Section kernel.

Lemma slice_app_split (off n1 n2 : nat) (f : list Z) :
  slice off (n1 + n2) f = slice off n1 f ++ slice (off + n1) n2 f.
Proof.
  unfold slice. rewrite <- drop_drop. rewrite <- (take_drop n1 (take (n1 + n2) (drop off f))).
  rewrite take_take, Nat.min_l by lia. f_equal. rewrite skipn_firstn_comm. f_equal. lia.
Qed.

(** A transfer of [n] bytes followed by the rest. *)
Lemma store_bytes_step m iov iov' f (off n : nat) :
  (n ≤ iov_total iov)%nat → (off + iov_total iov ≤ length f)%nat → addrs iov' = drop n (addrs iov) →
  store_bytes (store_bytes m (addrs iov) (slice off n f)) (addrs iov')
    (slice (off + n) (iov_total iov - n) f) =
  store_bytes m (addrs iov) (slice off (iov_total iov) f).
Proof.
  intros Hn Hf Ha. rewrite Ha.
  assert (slice off (iov_total iov) f = slice off n f ++ slice (off + n) (iov_total iov - n) f) as ->.
  { rewrite <- slice_app_split. f_equal. lia. }
  transitivity (store_bytes m (take n (addrs iov) ++ drop n (addrs iov))
    (slice off n f ++ slice (off + n) (iov_total iov - n) f)); [|by rewrite take_drop].
  rewrite store_bytes_app by (rewrite length_slice, length_take, length_addrs by lia; lia).
  rewrite (store_bytes_take (addrs iov)) by (rewrite length_slice, length_addrs; lia).
  by rewrite length_slice by lia.
Qed.

(** The buffers of one call are a prefix of those left, and not nothing. *)
Lemma take_addrs iov :
  no_empty iov → iov ≠ [] →
  ∃ k, addrs (take UIO_MAXIOV iov) = take k (addrs iov) ∧ (0 < k ≤ iov_total iov)%nat.
Proof.
  intros Hp Hne. exists (iov_total (take UIO_MAXIOV iov)).
  assert (addrs iov = addrs (take UIO_MAXIOV iov) ++ addrs (drop UIO_MAXIOV iov)) as E.
  { rewrite <- (take_drop UIO_MAXIOV iov) at 1. unfold addrs. apply bind_app. }
  split.
  - rewrite E at 1. rewrite take_app_length'; [done|symmetry; apply length_addrs].
  - rewrite <- (length_addrs iov), E, length_app, !length_addrs.
    destruct iov as [|v iov]; [done|]. apply Forall_cons in Hp as [Hv _].
    unfold iov_total, UIO_MAXIOV. simpl. lia.
Qed.

(** One call without an error. *)
Lemma preadv_ok f iov offset w :
  fault_free w → no_empty iov → iov ≠ [] → (Z.to_nat offset + iov_total iov ≤ length f)%nat →
  ∃ a w', preadv f (take UIO_MAXIOV iov) offset w = (a, w') ∧ fault_free w' ∧
    (length (answers w') ≤ length (answers w))%nat ∧
    (a = inl Interrupted ∧ memory w' = memory w ∧ (length (answers w') < length (answers w))%nat ∨
     ∃ n, a = inr (S n) ∧ (S n ≤ iov_total iov)%nat ∧
       memory w' = store_bytes (memory w) (addrs iov) (slice (Z.to_nat offset) (S n) f)).
Proof.
  intros Hff Hp Hne Hf. destruct (take_addrs iov Hp Hne) as (k & Hk & Hk0 & Hkt).
  unfold preadv. rewrite Hk, length_take, length_addrs, (Nat.min_l k) by lia.
  rewrite (Nat.min_l k) by lia.
  assert (∀ n, (0 < n ≤ k)%nat → ∃ n', n = S n' ∧ (S n' ≤ iov_total iov)%nat ∧
    store_bytes (memory w) (take k (addrs iov)) (slice (Z.to_nat offset) n f) =
    store_bytes (memory w) (addrs iov) (slice (Z.to_nat offset) (S n') f)) as Hgo.
  { intros [|n'] Hn; [lia|]. exists n'. split_and!; [done|lia|].
    rewrite (store_bytes_take (take k _)), (store_bytes_take (addrs iov)), take_take
      by (rewrite length_slice, ?length_take, length_addrs; lia).
    rewrite length_slice by lia. by rewrite Nat.min_l by lia. }
  unfold fault_free in *. destruct (answers w) as [|[| |x] rest] eqn:Ea.
  - destruct (Hgo k) as (n' & Ek & Hle & Hs); [lia|]. rewrite Nat.min_id.
    eexists _, _. split; [done|]. split_and!; [done|simpl; lia|]. right. exists n'. rewrite <- Ek at 1. done.
  - eexists _, _. split; [done|]. split_and!; [set_solver|simpl; lia|]. left. simpl. split_and!; [done|done|lia].
  - set_solver.
  - destruct (Hgo (Nat.min k (S x))) as (n' & Ek & Hle & Hs); [lia|].
    eexists _, _. split; [done|]. split_and!; [set_solver|simpl; lia|]. right. exists n'. rewrite <- Ek at 1. done.
Qed.

Lemma preadv_loop_ok fuel : ∀ f iov offset w,
  fault_free w → no_empty iov → 0 ≤ offset → (Z.to_nat offset + iov_total iov ≤ length f)%nat →
  offset + Z.of_nat (iov_total iov) ≤ I64_MAX → (length (answers w) + iov_total iov ≤ fuel)%nat →
  ∃ w', preadv_loop fuel f iov offset w = Some (Ok tt, w') ∧ fault_free w' ∧
    memory w' = store_bytes (memory w) (addrs iov) (slice (Z.to_nat offset) (iov_total iov) f).
Proof.
  induction fuel as [|fuel IH]; intros f iov offset w Hff Hp Ho Hf Hmax Hfuel.
  { destruct iov as [|v iov]; [exists w; done|]. apply Forall_cons in Hp as [Hv _].
    unfold iov_total in Hfuel. simpl in Hfuel. lia. }
  destruct (decide (iov = [])) as [->|Hne]; [exists w; done|].
  destruct (preadv_ok f iov offset w Hff Hp Hne Hf) as (a & w1 & Hcall & Hff1 & Hlen & Hcase).
  destruct iov as [|v iov0]; [done|]. cbn [preadv_loop]. set (iov := v :: iov0) in *.
  rewrite (proj2 (Z.ltb_ge _ _)) by lia. rewrite Hcall.
  destruct Hcase as [(-> & Hm & Hlt)|(n & -> & Hn & Hm)].
  - rewrite <- Hm. apply IH; [done..|lia].
  - destruct (advance_ok iov (S n) Hn Hp) as (iov' & Hadv & Ha & Hp'). rewrite Hadv.
    assert (iov_total iov' = iov_total iov - S n)%nat as Hl'
      by (rewrite <- !length_addrs, Ha, length_drop; done).
    replace (offset + Z.of_nat (S n)) with (Z.of_nat (Z.to_nat offset + S n)) by lia.
    destruct (IH f iov' (Z.of_nat (Z.to_nat offset + S n)) w1) as (w' & He & Hff' & Hm'); [done|done|lia..|].
    exists w'. split_and!; [done|done|]. rewrite Hm', Hm, Hl', Nat2Z.id. by apply store_bytes_step.
Qed.

Lemma preadv_exact_ok f iov offset w :
  fault_free w → 0 ≤ offset → offset + Z.of_nat (iov_total iov) ≤ Z.of_nat (length f) →
  offset + Z.of_nat (iov_total iov) ≤ I64_MAX →
  ∃ w', preadv_exact f iov offset w = Some (Ok tt, w') ∧ fault_free w' ∧
    memory w' = store_bytes (memory w) (addrs iov) (slice (Z.to_nat offset) (iov_total iov) f).
Proof.
  intros Hff Ho Hf Hmax. unfold preadv_exact. set (iov' := filter _ iov).
  assert (addrs iov' = addrs iov) as Ha by apply addrs_filter.
  assert (iov_total iov' = iov_total iov) as Ht by (by rewrite <- !length_addrs, Ha).
  rewrite <- Ha, <- Ht. apply preadv_loop_ok; [done| |lia..]. apply Forall_forall. intros v Hv.
  by apply list_elem_of_filter in Hv as [Hv _].
Qed.

End kernel.

Section vectored.
Variables (n : Z) (s : CowOverlay) (offset : Z) (iov : list iovec) (D : list Z).
Hypothesis Hok : cow_ok n s.
Hypothesis Ho : 0 ≤ offset.
Hypothesis Hin : offset + Z.of_nat (iov_total iov) ≤ n * 512.
Hypothesis Hfiles : data_offset (header s) + n * 512 ≤ I64_MAX.
Hypothesis HD : length D = iov_total iov ∧
  ∀ i, (i < iov_total iov)%nat → D !! i = view s (offset + Z.of_nat i).

(** A run of the overlay, located and read into its share of the buffers. *)
Lemma vectored_run dirty start end_ w :
  (start < end_ ≤ iov_total iov)%nat → same_source s offset dirty start end_ → fault_free w →
  ∃ f o w', run_source s offset dirty start = Some (Ok (f, o)) ∧
    preadv_exact f (iov_range iov start end_) o w = Some (Ok tt, w') ∧ fault_free w' ∧
    memory w' = store_bytes (memory w) (take (end_ - start) (drop start (addrs iov)))
                  (slice start (end_ - start) D).
Proof.
  intros Hse Hsm Hff. destruct HD as [HDl HDv].
  destruct (run_bytes n s Hok offset dirty start end_ (iov_total iov) Ho Hin) as (bytes & Hr & Hbl & Hb);
    [lia|done|].
  set (f := if dirty then overlay s else base s) in *.
  set (o := if dirty then data_offset (header s) + (offset + Z.of_nat start) else offset + Z.of_nat start) in *.
  unfold read_exact_at in Hr.
  rewrite (proj2 (Nat.eqb_neq _ _)) in Hr by lia. case_hyp Hr; [|done]. injection Hr as Hr. bool_to_prop.
  assert (addrs (iov_range iov start end_) = take (end_ - start) (drop start (addrs iov))) as Ha.
  { unfold iov_range. rewrite iov_range_addrs by lia. by rewrite Nat.max_0_r, Nat.sub_0_r. }
  assert (iov_total (iov_range iov start end_) = end_ - start)%nat as Ht.
  { rewrite <- length_addrs, Ha, length_take, length_drop, length_addrs. lia. }
  pose proof (dk_small _ _ _ _ _ Hok) as Hsmall. pose proof (dk_n _ _ _ _ _ Hok) as Hn.
  assert (0 ≤ data_offset (header s)) as Hdo.
  { destruct (header_new_Ok n (header s)) as (_ & _ & _ & _ & Hbm & Hx & _); [lia|by apply Hok|].
    rewrite Hbm in Hx. zlia. }
  assert (run_source s offset dirty start = Some (Ok (f, o))) as Hsrc.
  { unfold run_source. rewrite (proj2 (u64_checked_add_Some _ _ _)) by (split; [done|lia]).
    destruct dirty; [|done]. unfold overlay_offset, io_bind, io_get, io_lift.
    by rewrite (proj2 (u64_checked_add_Some _ _ _)) by (split; [done|lia]). }
  destruct (preadv_exact_ok f (iov_range iov start end_) o w Hff) as (w' & Hp & Hff' & Hm).
  - subst o. destruct dirty; lia.
  - rewrite Ht. lia.
  - rewrite Ht. subst o. destruct dirty; lia.
  - exists f, o, w'. split_and!; [done..|]. rewrite Hm, Ha, Ht, Hr. f_equal.
    apply list_eq_same_length with (end_ - start)%nat; [rewrite length_slice; lia|done|].
    intros i x y Hi Hx Hy. rewrite lookup_slice, decide_True, HDv in Hy by lia. rewrite Hb in Hx by done.
    congruence.
Qed.

Lemma read_vectored_runs_ok fuel : ∀ segs k m w,
  segs_ok offset k (iov_total iov) segs → (length segs ≤ fuel)%nat → (k ≤ iov_total iov)%nat →
  fault_free w → memory w = store_bytes m (take k (addrs iov)) (take k D) →
  ∃ w', read_vectored_runs fuel s offset segs iov w = Some (Ok tt, w') ∧ fault_free w' ∧
    memory w' = store_bytes m (addrs iov) D.
Proof.
  destruct HD as [HDl HDv]. pose proof (length_addrs iov) as HAl.
  induction fuel as [|fuel IH]; intros segs k m w Hs Hf Hk Hff Hm.
  { destruct segs; [|simpl in Hf; lia]. simpl in Hs. subst k. rewrite !take_ge in Hm by lia. exists w. done. }
  destruct segs as [|sg segs]; cbn [read_vectored_runs].
  { simpl in Hs. subst k. rewrite !take_ge in Hm by lia. exists w. done. }
  pose proof Hs as (Hb & Hp & Hle & Hblk & Hs').
  assert ((offset + Z.of_nat (k + 0)) / SECTOR_SIZE = block sg) as H0 by (apply Hblk; lia).
  rewrite (is_dirty_run n s (block sg) Hok) by (rewrite <- H0; eapply block_in_range; [done|exact Hin|lia]).
  set (dirty := bool_decide _). rewrite Hb.
  destruct (extend_run_ok n s Hok segs offset dirty k (k + seg_len sg) (iov_total iov))
    as (k' & rest & He & Hr & Hk' & Hln & Hsm); [done..| |].
  { intros i Hi. replace i with (k + (i - k))%nat by lia. rewrite Hblk by lia. done. }
  rewrite He. pose proof (segs_ok_le _ _ _ _ Hr) as Hk't.
  destruct (vectored_run dirty k k' w) as (f & o & w1 & Hsrc & Hpr & Hff1 & Hm1); [lia|done|done|].
  rewrite Hsrc, Hpr. apply (IH rest k' m w1); [done|simpl in Hf; lia|done|done|].
  rewrite Hm1, Hm. rewrite <- store_bytes_app by (rewrite !length_take; lia). f_equal.
  - replace k' with (k + (k' - k))%nat at 2 by lia. by rewrite <- take_take_drop.
  - unfold slice. replace k' with (k + (k' - k))%nat at 2 by lia. by rewrite <- take_take_drop.
Qed.

End vectored.

(** File offsets fit [off_t], in the base and in an overlay. *)
Definition files_small (b : BlkBackend) : Prop :=
  sectors b * 512 ≤ I64_MAX ∧
  ∀ h, header_new (sectors b) = Ok h → data_offset h + sectors b * 512 ≤ I64_MAX.

(** The device's bytes reach the buffers. *)
Lemma read_into_ok b disk offset iov w :
  backend_ok b → represents b disk → files_small b → fault_free w →
  0 ≤ offset → offset + Z.of_nat (iov_total iov) ≤ sectors b * 512 →
  ∃ w', match storage b with
        | Raw f _ => preadv_exact f iov offset w
        | Cow c => read_vectored_at c offset iov w
        end = Some (Ok tt, w') ∧ fault_free w' ∧
    memory w' = store_bytes (memory w) (addrs iov) (slice (Z.to_nat offset) (iov_total iov) disk).
Proof.
  intros Hok Hrep Hsm Hff Ho Hin.
  pose proof (backend_read_ok b disk offset (replicate (iov_total iov) 0) Hok Hrep Ho) as Hr.
  rewrite length_replicate in Hr. specialize (Hr Hin). unfold backend_read_at, files_small in *.
  destruct Hok as (Hs & _ & Hst). destruct Hrep as [Hl Hd]. unfold dev_byte in Hd.
  destruct (storage b) as [f bud|c].
  - destruct Hst as [Hf _]. destruct (preadv_exact_ok f iov offset w Hff Ho) as (w' & Hp & Hff' & Hm); [lia..|].
    exists w'. split; [done|]. split; [done|]. rewrite Hm. f_equal. rewrite length_replicate in Hr. unfold read_exact_at in Hr.
    destruct (iov_total iov =? 0)%nat eqn:E0; [apply Nat.eqb_eq in E0; by rewrite E0|].
    rewrite (proj2 (Z.leb_le _ _)) in Hr by lia. by injection Hr.
  - destruct Hst as [Hcok _]. unfold read_vectored_at, segments_new.
    pose proof (block_segments_ok (iov_total iov) offset 0 (iov_total iov) Ho ltac:(lia)) as Hseg.
    rewrite Nat.add_0_l, Z.add_0_r in Hseg.
    set (D := slice (Z.to_nat offset) (iov_total iov) disk).
    assert (length D = iov_total iov ∧
      ∀ i, (i < iov_total iov)%nat → D !! i = view c (offset + Z.of_nat i)) as HD.
    { split; [apply length_slice; lia|]. intros i Hi. unfold D. rewrite lookup_slice, decide_True by done.
      rewrite Hd by lia. f_equal. lia. }
    destruct (read_vectored_runs_ok (sectors b) c offset iov D Hcok Ho Hin (proj2 Hsm _ (dk_header _ _ _ _ _ Hcok)) HD _ _ 0
      (memory w) w Hseg (Nat.le_refl _)) as (w' & Hw & Hff' & Hm); [lia|done|done|eauto].
Qed.

Lemma service_read_into_ok torn b disk header iov data w :
  backend_ok b → represents b disk → files_small b → fault_free w → 0 ≤ sector header →
  Z.ldiff (req_type header) VIRTIO_BLK_T_BARRIER = IN → length data = iov_total iov →
  ∃ st data' w', service torn header data b = Some (st, data', b) ∧
    service_read_into header iov b w = Some (st, w') ∧ fault_free w' ∧
    memory w' = if st =? STATUS_OK then store_bytes (memory w) (addrs iov) data' else memory w.
Proof.
  intros Hok Hrep Hsm Hff Hs Hop Hlen. pose proof Hok as (Hn & Hmax & _).
  pose proof (validate_service_rw b header (iov_total iov) Hmax Hs (or_introl Hop)) as Hv.
  unfold service, service_read_into. rewrite Hlen, Hop in *. change (IN =? IN) with true. cbn [negb].
  destruct (fits header (iov_total iov) (sectors b)) eqn:Ef; cycle 1.
  { destruct Hv as [e ->]. exists STATUS_IO_ERR, data, w. done. }
  rewrite Hv. unfold fits in Ef. bool_to_prop. change (IN =? IN) with true. cbv iota.
  rewrite (backend_read_ok b disk) by (done || lia). cbn [fst snd].
  destruct (read_into_ok b disk (sector header * 512) iov w) as (w' & Hw & Hff' & Hm); [done..|lia|lia|].
  rewrite Hw, Hlen. cbn [fst snd]. eexists STATUS_OK, _, w'. done.
Qed.

(** Reading straight into guest buffers is reading through a bounce buffer.
    For a read request, [service_read_into] gives the status byte [service]
    gives, and on success leaves in the buffers, in order, exactly the bytes
    [service] returns; otherwise memory is as it was. This holds for every way
    of splitting the buffers, for requests that mix base and overlay sectors,
    and for every sequence of interruptions and short reads of the kernel. *)
Theorem service_read_into_matches_service torn b disk header iov data w :
  backend_ok b → represents b disk → files_small b → fault_free w → 0 ≤ sector header →
  Z.ldiff (req_type header) VIRTIO_BLK_T_BARRIER = IN → length data = iov_total iov →
  ∃ st data' w', service torn header data b = Some (st, data', b) ∧
    service_read_into header iov b w = Some (st, w') ∧
    memory w' = if st =? STATUS_OK then store_bytes (memory w) (addrs iov) data' else memory w.
Proof.
  intros. destruct (service_read_into_ok torn b disk header iov data w) as (st & data' & w' & ? & ? & _ & ?); [done..|].
  by exists st, data', w'.
Qed.

End guest.

Lemma service_read_into_matches_service_witness :
  let b := mkBackend (Cow (ExampleCow.cow None)) false 2 in
  let h := mkReq 0 0 0 in
  let iov := [mkIov 4096 3; mkIov 8192 0; mkIov 8192 600] in
  let w := mkKernel (ByteMap.zeros 4096 8192) [Interrupted; Short 1; Short 500; Interrupted] in
  ∃ st data' w', service (fun d => d) h (replicate 603 0) b = Some (st, data', b) ∧
    service_read_into h iov b w = Some (st, w') ∧
    memory w' = if st =? STATUS_OK then store_bytes (memory w) (addrs iov) data' else memory w.
Proof.
  apply (service_read_into_matches_service (fun d => d) (mkBackend (Cow (ExampleCow.cow None)) false 2)
    ExampleCow.base (mkReq 0 0 0) [mkIov 4096 3; mkIov 8192 0; mkIov 8192 600] (replicate 603 0)
    (mkKernel (ByteMap.zeros 4096 8192) [Interrupted; Short 1; Short 500; Interrupted])).
  - split_and!; [done|vm_compute; done|split; [apply ExampleCow.ok|done]].
  - split; [done|]. intros o Ho. unfold dev_byte, view, cow_byte. cbn [storage].
    rewrite decide_False by apply not_marked_zeros. done.
  - split; [done|]. intros h [= <-]. vm_compute. done.
  - unfold fault_free. set_solver.
  - simpl. lia.
  - reflexivity.
  - reflexivity.
Defined.
