(* ===== verification/Regs.v ===== *)
(** * The virtio-mmio register map ([virtio/regs.rs], [blk_transport::status_bits]) *)

From S2P Require Import Prelude.

Module reg.
Definition MAGIC_VALUE : Z := 0.
Definition VERSION : Z := 4.
Definition DEVICE_ID : Z := 8.
Definition VENDOR_ID : Z := 12.
Definition HOST_FEATURES : Z := 16.
Definition HOST_FEATURES_SEL : Z := 20.
Definition GUEST_FEATURES : Z := 32.
Definition GUEST_FEATURES_SEL : Z := 36.
Definition QUEUE_SEL : Z := 48.
Definition QUEUE_NUM_MAX : Z := 52.
Definition QUEUE_NUM : Z := 56.
Definition QUEUE_READY : Z := 68.
Definition QUEUE_NOTIFY : Z := 80.
Definition INTERRUPT_STATUS : Z := 96.
Definition INTERRUPT_ACK : Z := 100.
Definition STATUS : Z := 112.
Definition QUEUE_DESC_LOW : Z := 128.
Definition QUEUE_DESC_HIGH : Z := 132.
Definition QUEUE_DRIVER_LOW : Z := 144.
Definition QUEUE_DRIVER_HIGH : Z := 148.
Definition QUEUE_DEVICE_LOW : Z := 160.
Definition QUEUE_DEVICE_HIGH : Z := 164.
Definition CONFIG_GENERATION : Z := 252.
Definition CONFIG : Z := 256.
End reg.

Definition MMIO_MAGIC : Z := 1953655158.

Definition DRIVER_OK : Z := 4.
Definition DEVICE_NEEDS_RESET : Z := 64.
Definition FAILED : Z := 128.

(** The low and the high half of a 64-bit register. *)
Definition low_half (a : Z) : Z := Z.land a 4294967295.
Definition high_half (a : Z) : Z := Z.shiftr a 32.
Definition set_low (a v : Z) : Z := Z.lor (Z.land a 18446744069414584320) v.
Definition set_high (a v : Z) : Z := Z.lor (Z.land a 4294967295) (Z.shiftl v 32).

(** [fetch_add] on a 64-bit and a 32-bit counter. *)
Definition u64_fetch_add (a b : Z) : Z := (a + b) mod 18446744073709551616.
Definition u32_fetch_add (a b : Z) : Z := (a + b) mod 4294967296.

(** [fetch_and(!v)] on a 32-bit register. *)
Definition clear_bits (a v : Z) : Z := Z.ldiff a v.

Section halves.

Lemma land_ones32 a : Z.land a 4294967295 = a mod 4294967296.
Proof. change 4294967295 with (Z.ones 32). by rewrite Z.land_ones. Qed.

Lemma lor_disjoint a b : 0 ≤ a < 4294967296 → Z.lor a (Z.shiftl b 32) = a + b * 4294967296.
Proof. intros Ha. rewrite Z.lor_comm, lor_shiftl_low by (cbn; lia). cbn. lia. Qed.

Lemma high_mask a : in_u64 a → Z.land a 18446744069414584320 = Z.shiftl (high_half a) 32.
Proof.
  unfold in_u64, U64_MAX, high_half. intros Ha. apply Z.bits_inj'. intros k Hk.
  rewrite Z.land_spec, Z.shiftl_spec by done.
  replace 18446744069414584320 with (Z.shiftl (Z.ones 32) 32) by done. rewrite Z.shiftl_spec by done.
  destruct (decide (k < 32)).
  { rewrite !(Z.testbit_neg_r _ (k - 32)) by lia. apply andb_false_r. }
  rewrite Z.shiftr_spec by lia. replace (k - 32 + 32) with k by lia.
  rewrite Z.ones_spec by lia. case_bool_decide; [by rewrite andb_true_r|].
  rewrite <- (Z.mod_small a (2 ^ 64)), Z.mod_pow2_bits_high by (split; lia || done). done.
Qed.

(** Writing one half and reading both. *)
Lemma set_low_spec a v : in_u64 a → in_u32 v →
  set_low a v = high_half a * 4294967296 + v ∧ in_u64 (set_low a v) ∧
  low_half (set_low a v) = v ∧ high_half (set_low a v) = high_half a.
Proof.
  intros Ha Hv. assert (set_low a v = high_half a * 4294967296 + v) as E.
  { unfold set_low. rewrite high_mask by done. rewrite Z.lor_comm, lor_disjoint; autounfold with tarit in *; lia. }
  assert (0 ≤ high_half a < 4294967296) as Hh.
  { unfold high_half. rewrite Z.shiftr_div_pow2 by lia. change (2 ^ 32) with 4294967296.
    autounfold with tarit in *. zlia. }
  rewrite E. unfold low_half, high_half in *. rewrite land_ones32, !Z.shiftr_div_pow2 in * by lia.
  change (2 ^ 32) with 4294967296 in *. autounfold with tarit in *. zlia.
Qed.

Lemma set_high_spec a v : in_u64 a → in_u32 v →
  set_high a v = v * 4294967296 + low_half a ∧ in_u64 (set_high a v) ∧
  low_half (set_high a v) = low_half a ∧ high_half (set_high a v) = v.
Proof.
  intros Ha Hv. unfold set_high, low_half, high_half. rewrite !land_ones32, lor_disjoint by zlia.
  rewrite Z.shiftr_div_pow2 by lia. change (2 ^ 32) with 4294967296. autounfold with tarit in *. zlia.
Qed.

End halves.
