(* ===== verification/Dev.v ===== *)
(** * Device operations: state, failure and completion

    Device methods thread the device through calls that can fail, and keep
    what was changed before a failure. [dev St E A] is such a method over the
    state [St]; [None] is a loop of the model that ran out of fuel, so a
    statement [wp c Q s] says that [c] completes from [s] and that its
    outcome satisfies [Q]. *)

From S2P Require Import Prelude.

Definition dev (St E A : Type) : Type := St → option (result A E * St).

Section monad.
Context {St E : Type}.

Definition ret {A : Type} (a : A) : dev St E A := fun s => Some (Ok a, s).
Definition fail {A : Type} (e : E) : dev St E A := fun s => Some (Err e, s).
Definition get : dev St E St := fun s => Some (Ok s, s).
Definition modify (f : St → St) : dev St E unit := fun s => Some (Ok tt, f s).

Definition dev_bind {A B : Type} (c : dev St E A) (k : A → dev St E B) : dev St E B :=
  fun s =>
    match c s with
    | None => None
    | Some (Err e, s') => Some (Err e, s')
    | Some (Ok a, s') => k a s'
    end.

(** [Result::map_err]. *)
Definition map_err {E' A : Type} (f : E → E') (c : dev St E A) : dev St E' A :=
  fun s =>
    match c s with
    | None => None
    | Some (Ok a, s') => Some (Ok a, s')
    | Some (Err e, s') => Some (Err (f e), s')
    end.

(** A [for] loop over a list, with [?] in its body. *)
Fixpoint for_each {A : Type} (f : A → dev St E unit) (l : list A) : dev St E unit :=
  match l with
  | [] => ret tt
  | a :: l' => dev_bind (f a) (fun _ => for_each f l')
  end.

End monad.

Notation "'let*' x := c 'in' k" := (dev_bind c (fun x => k))
  (at level 10, x name, c at level 100, k at level 200,
   format "'[v' 'let*'  x  :=  c  'in' '/' k ']'") : rust_scope.
Notation "'do*' c 'in' k" := (dev_bind c (fun _ => k))
  (at level 10, c at level 100, k at level 200,
   format "'[v' 'do*'  c  'in' '/' k ']'") : rust_scope.

(** ** Completion with a postcondition *)

Definition wp {St E A : Type} (c : dev St E A) (Q : result A E → St → Prop) (s : St) : Prop :=
  ∃ r s', c s = Some (r, s') ∧ Q r s'.

(** An invariant of the state: [keeps I c] when [c] completes from every
    state in [I] and ends in one, failing or not. *)
Definition keeps {St E A : Type} (I : St → Prop) (c : dev St E A) : Prop := ∀ s, I s → wp c (fun _ s' => I s') s.

Section rules.
Context {St E : Type}.
Implicit Types (s : St).

Lemma wp_ret {A} (a : A) (Q : result A E → St → Prop) s : Q (Ok a) s → wp (ret a) Q s.
Proof. intros. by eexists _, _. Qed.

Lemma wp_fail {A} (e : E) (Q : result A E → St → Prop) s : Q (Err e) s → wp (fail e) Q s.
Proof. intros. by eexists _, _. Qed.

Lemma wp_modify f (Q : result unit E → St → Prop) s : Q (Ok tt) (f s) → wp (modify f) Q s.
Proof. intros. by eexists _, _. Qed.

Lemma wp_bind {A B} (c : dev St E A) (k : A → dev St E B) Q s :
  wp c (fun r s' => match r with Ok a => wp (k a) Q s' | Err e => Q (Err e) s' end) s →
  wp (dev_bind c k) Q s.
Proof.
  intros ([a|e] & s' & Hc & Hk).
  - destruct Hk as (r & s'' & Hk & HQ). exists r, s''. unfold dev_bind. by rewrite Hc.
  - exists (Err e), s'. unfold dev_bind. by rewrite Hc.
Qed.

Lemma dev_bind_ok {A B} (c : dev St E A) (k : A → dev St E B) s a s' :
  c s = Some (Ok a, s') → dev_bind c k s = k a s'.
Proof. unfold dev_bind. by intros ->. Qed.

Lemma wp_get {B} (k : St → dev St E B) Q s : wp (k s) Q s → wp (dev_bind get k) Q s.
Proof. done. Qed.

Lemma wp_mono {A} (c : dev St E A) (Q R : result A E → St → Prop) s :
  wp c Q s → (∀ r s', Q r s' → R r s') → wp c R s.
Proof. intros (r & s' & Hc & HQ) H. exists r, s'. auto. Qed.

Lemma wp_map_err {E' A} (f : E → E') (c : dev St E A) (Q : result A E' → St → Prop) s :
  wp c (fun r s' => match r with Ok a => Q (Ok a) s' | Err e => Q (Err (f e)) s' end) s →
  wp (map_err f c) Q s.
Proof.
  intros ([a|e] & s' & Hc & HQ); unfold map_err; [exists (Ok a), s'|exists (Err (f e)), s']; by rewrite Hc.
Qed.

Lemma keeps_ret {A} I (a : A) : keeps (E:=E) I (ret (St:=St) a).
Proof. intros s Hs. by apply wp_ret. Qed.

Lemma keeps_fail {A} I (e : E) : keeps (A:=A) I (fail (St:=St) e).
Proof. intros s Hs. by apply wp_fail. Qed.

Lemma keeps_modify I f : (∀ s, I s → I (f s)) → keeps (E:=E) I (modify (St:=St) f).
Proof. intros Hf s Hs. apply wp_modify. auto. Qed.

Lemma keeps_bind {A B} I (c : dev St E A) (k : A → dev St E B) :
  keeps I c → (∀ a, keeps I (k a)) → keeps I (dev_bind c k).
Proof.
  intros Hc Hk s Hs. apply wp_bind. eapply wp_mono; [by apply Hc|]. intros [a|e] s' Hs'; [by apply Hk|done].
Qed.

(** The continuation of a read may use what the invariant says of the state
    it was given, but has to hold from every state. *)
Lemma keeps_get {B} I (k : St → dev St E B) : (∀ s, I s → wp (k s) (fun _ => I) s) → keeps I (dev_bind get k).
Proof. intros Hk s Hs. apply wp_get. auto. Qed.

Lemma keeps_map_err {E' A} I (f : E → E') (c : dev St E A) : keeps I c → keeps I (map_err f c).
Proof. intros Hc s Hs. apply wp_map_err. eapply wp_mono; [by apply Hc|]. by intros [] ?. Qed.

Lemma keeps_for_each {A} I (f : A → dev St E unit) l :
  (∀ a, a ∈ l → keeps I (f a)) → keeps I (for_each f l).
Proof.
  induction l as [|a l IH]; intros Hf; [apply keeps_ret|]. cbn [for_each]. apply keeps_bind.
  - apply Hf. set_solver.
  - intros _. apply IH. set_solver.
Qed.

Lemma keeps_if {A} I (b : bool) (c1 c2 : dev St E A) : keeps I c1 → keeps I c2 → keeps I (if b then c1 else c2).
Proof. by destruct b. Qed.

End rules.

#[export] Hint Resolve keeps_ret keeps_fail keeps_map_err keeps_if : tarit.

(** The branches of conditionals, as they are written. *)
Ltac keeps_cases := repeat match goal with |- keeps _ (if _ then _ else _) => apply keeps_if end.

(** ** Register accesses *)

Inductive mmio_access : Type :=
| MmioRead (offset : Z)
| MmioWrite (offset value : Z).

(** A sequence of accesses to a device, with what the guest sees of each. *)
Section accesses.
Context {St E : Type}.
Variables (rd : Z → dev St E Z) (wr : Z → Z → dev St E unit).

Definition run_access (a : mmio_access) : dev St E (option Z) :=
  match a with
  | MmioRead o => let* v := rd o in ret (Some v)
  | MmioWrite o v => do* wr o v in ret None
  end.

Fixpoint run_mmio (l : list mmio_access) (s : St) : option (list (result (option Z) E) * St) :=
  match l with
  | [] => Some ([], s)
  | a :: l' =>
      let?o out := run_access a s in
      let?o rest := run_mmio l' out.2 in
      Some (out.1 :: rest.1, rest.2)
  end.
End accesses.

(** Outcomes that agree up to a relation on states: both out of fuel, or the
    same result. *)
Definition alike {St A : Type} (R : St → St → Prop) (o o' : option (A * St)) : Prop :=
  match o, o' with
  | None, None => True
  | Some (a, s), Some (a', s') => a = a' ∧ R s s'
  | _, _ => False
  end.

(** A computation that takes related states to outcomes that agree. *)
Definition respects {St E A : Type} (R : St → St → Prop) (c : dev St E A) : Prop :=
  ∀ s s', R s s' → alike R (c s) (c s').

Section respects.
Context {St E : Type} (R : St → St → Prop).

Lemma respects_ret {A} (a : A) : respects (E:=E) R (ret a).
Proof. by intros s s' Hs. Qed.

Lemma respects_fail {A} (e : E) : respects (A:=A) R (fail e).
Proof. by intros s s' Hs. Qed.

Lemma respects_modify f : (∀ s s', R s s' → R (f s) (f s')) → respects (E:=E) R (modify f).
Proof. intros Hf s s' Hs. split; [done|by apply Hf]. Qed.

Lemma respects_bind {A B} (c : dev St E A) (k : A → dev St E B) :
  respects R c → (∀ a, respects R (k a)) → respects R (dev_bind c k).
Proof.
  intros Hc Hk s s' Hs. specialize (Hc s s' Hs). unfold dev_bind, alike in *.
  destruct (c s) as [[r t]|], (c s') as [[r' t']|]; try done. destruct Hc as [<- Ht]. destruct r; [by apply Hk|done].
Qed.

Lemma respects_get {B} (k : St → dev St E B) :
  (∀ s s', R s s' → k s' = k s ∧ respects R (k s)) → respects R (dev_bind get k).
Proof. intros Hk s s' Hs. destruct (Hk s s' Hs) as [Hks Hr]. unfold dev_bind, get. rewrite Hks. by apply Hr. Qed.

Lemma respects_run rd wr (l : list mmio_access) : ∀ s s',
  (∀ o, respects (E:=E) R (rd o)) → (∀ o v, respects (E:=E) R (wr o v)) →
  R s s' → alike R (run_mmio rd wr l s) (run_mmio rd wr l s').
Proof.
  induction l as [|a l IH]; intros s s' Hr Hw Hs; [done|]. cbn [run_mmio].
  assert (respects R (run_access rd wr a)) as Ha.
  { destruct a; apply respects_bind; auto using respects_ret. }
  specialize (Ha s s' Hs). unfold alike in Ha. destruct (run_access rd wr a s) as [[r t]|], (run_access rd wr a s') as [[r' t']|];
    try done. destruct Ha as [<- Ht]. specialize (IH t t' Hr Hw Ht). unfold alike in *. cbn [snd fst].
  destruct (run_mmio rd wr l t) as [[? ?]|], (run_mmio rd wr l t') as [[? ?]|]; try done. destruct IH as [<- ?]. done.
Qed.

End respects.

(** An invariant as a relation: a computation that respects it leaves the
    invariant true if it completes. *)
Definition keeping {St : Type} (I : St → Prop) (s s' : St) : Prop := s' = s ∧ I s.

Lemma respects_keeping_modify {St E : Type} (I : St → Prop) f :
  (∀ s, I s → I (f s)) → respects (E:=E) (keeping I) (modify f).
Proof. intros Hf. apply respects_modify. intros s s' [-> Hs]. split; auto. Qed.

Lemma respects_keeping {St E A : Type} (I : St → Prop) (c : dev St E A) :
  (∀ s r s', I s → c s = Some (r, s') → I s') → respects (keeping I) c.
Proof.
  intros Hc s s' [-> Hs]. specialize (Hc s). unfold alike. destruct (c s) as [[r t]|]; [|done].
  split; [done|]. split; [done|]. by eapply Hc.
Qed.
