(* ===== verification/Transport.v ===== *)
(** * Queues and registers shared by the virtio-mmio transports

    [blk_transport.rs], [rng_transport.rs] and [net_transport.rs] each define
    the same queue configuration and keep the same negotiation registers; they
    differ in the largest queue they offer. They are defined once here, in the
    order of [blk_transport.rs]; each device is a record around [Transport]. *)

From S2P Require Import Prelude Dirty GuestMem GuestRam VQueue Regs.

Definition INT_VRING_BIT : Z := 1.

(** ** Queue configuration *)
Record QueueState := mkQueue {
  q_size : Z;
  q_desc_table_addr : Z;
  q_avail_ring_addr : Z;
  q_used_ring_addr : Z;
  q_ready : bool;
}.

Definition queue_default : QueueState := mkQueue 0 0 0 0 false.

(** With [max] the largest size the transport offers. *)
Definition valid_size_upto (max : Z) (q : QueueState) : bool := is_valid_queue_size (q_size q) max.

Definition valid_size (q : QueueState) : bool := valid_size_upto MAX_QUEUE_SIZE q.

Definition with_size_ready (q : QueueState) (sz : Z) (r : bool) : QueueState :=
  mkQueue sz (q_desc_table_addr q) (q_avail_ring_addr q) (q_used_ring_addr q) r.

Definition set_size_upto (max size : Z) (q : QueueState) : QueueState :=
  if U16_MAX <? size then with_size_ready q 0 false
  else if size =? 0 then with_size_ready q 0 false
  else if is_valid_queue_size size max then with_size_ready q size (q_ready q)
  else with_size_ready q 0 false.

Definition set_size (size : Z) (q : QueueState) : QueueState := set_size_upto MAX_QUEUE_SIZE size q.

Definition set_ready_upto (max : Z) (r : bool) (q : QueueState) : QueueState :=
  if r && negb (valid_size_upto max q) then with_size_ready q (q_size q) false
  else with_size_ready q (q_size q) r.

Definition set_ready (r : bool) (q : QueueState) : QueueState := set_ready_upto MAX_QUEUE_SIZE r q.

Definition set_desc (f : Z → Z) (q : QueueState) : QueueState :=
  mkQueue (q_size q) (f (q_desc_table_addr q)) (q_avail_ring_addr q) (q_used_ring_addr q) (q_ready q).
Definition set_driver (f : Z → Z) (q : QueueState) : QueueState :=
  mkQueue (q_size q) (q_desc_table_addr q) (f (q_avail_ring_addr q)) (q_used_ring_addr q) (q_ready q).
Definition set_device (f : Z → Z) (q : QueueState) : QueueState :=
  mkQueue (q_size q) (q_desc_table_addr q) (q_avail_ring_addr q) (f (q_used_ring_addr q)) (q_ready q).

Definition queue_config_from_state (q : QueueState) : QueueConfig :=
  mkQueueConfig (q_size q) (q_desc_table_addr q) (q_avail_ring_addr q) (q_used_ring_addr q) (q_ready q).

(** Both halves of an address register as they are read. *)
Definition addr_low (a : Z) : Z := as_u32 a.
Definition addr_high (a : Z) : Z := as_u32 (high_half a).

(** ** Registers *)
Record Transport := mkTransport {
  t_status : Z;
  t_queue_sel : Z;
  t_host_features_sel : Z;
  t_guest_features_sel : Z;
  t_guest_features_low : Z;
  t_guest_features_high : Z;
  t_queues : list QueueState;
  t_activated : bool;
  t_interrupt_status : Z;
  t_irq_evt : option Z;
  t_notify_count : Z;
  t_status_writes : Z;
}.

Definition with_status (t : Transport) (v : Z) : Transport :=
  mkTransport v (t_queue_sel t) (t_host_features_sel t) (t_guest_features_sel t)
    (t_guest_features_low t) (t_guest_features_high t) (t_queues t) (t_activated t)
    (t_interrupt_status t) (t_irq_evt t) (t_notify_count t) (t_status_writes t).
Definition with_queue_sel (t : Transport) (v : Z) : Transport :=
  mkTransport (t_status t) v (t_host_features_sel t) (t_guest_features_sel t)
    (t_guest_features_low t) (t_guest_features_high t) (t_queues t) (t_activated t)
    (t_interrupt_status t) (t_irq_evt t) (t_notify_count t) (t_status_writes t).
Definition with_host_features_sel (t : Transport) (v : Z) : Transport :=
  mkTransport (t_status t) (t_queue_sel t) v (t_guest_features_sel t) (t_guest_features_low t)
    (t_guest_features_high t) (t_queues t) (t_activated t) (t_interrupt_status t) (t_irq_evt t)
    (t_notify_count t) (t_status_writes t).
Definition with_guest_features_sel (t : Transport) (v : Z) : Transport :=
  mkTransport (t_status t) (t_queue_sel t) (t_host_features_sel t) v (t_guest_features_low t)
    (t_guest_features_high t) (t_queues t) (t_activated t) (t_interrupt_status t) (t_irq_evt t)
    (t_notify_count t) (t_status_writes t).
Definition with_guest_features_low (t : Transport) (v : Z) : Transport :=
  mkTransport (t_status t) (t_queue_sel t) (t_host_features_sel t) (t_guest_features_sel t) v
    (t_guest_features_high t) (t_queues t) (t_activated t) (t_interrupt_status t) (t_irq_evt t)
    (t_notify_count t) (t_status_writes t).
Definition with_guest_features_high (t : Transport) (v : Z) : Transport :=
  mkTransport (t_status t) (t_queue_sel t) (t_host_features_sel t) (t_guest_features_sel t)
    (t_guest_features_low t) v (t_queues t) (t_activated t) (t_interrupt_status t) (t_irq_evt t)
    (t_notify_count t) (t_status_writes t).
Definition with_queues (t : Transport) (v : list QueueState) : Transport :=
  mkTransport (t_status t) (t_queue_sel t) (t_host_features_sel t) (t_guest_features_sel t)
    (t_guest_features_low t) (t_guest_features_high t) v (t_activated t) (t_interrupt_status t)
    (t_irq_evt t) (t_notify_count t) (t_status_writes t).
Definition with_activated (t : Transport) (v : bool) : Transport :=
  mkTransport (t_status t) (t_queue_sel t) (t_host_features_sel t) (t_guest_features_sel t)
    (t_guest_features_low t) (t_guest_features_high t) (t_queues t) v (t_interrupt_status t)
    (t_irq_evt t) (t_notify_count t) (t_status_writes t).
Definition with_interrupt_status (t : Transport) (v : Z) : Transport :=
  mkTransport (t_status t) (t_queue_sel t) (t_host_features_sel t) (t_guest_features_sel t)
    (t_guest_features_low t) (t_guest_features_high t) (t_queues t) (t_activated t) v (t_irq_evt
    t) (t_notify_count t) (t_status_writes t).
Definition with_irq_evt (t : Transport) (v : option Z) : Transport :=
  mkTransport (t_status t) (t_queue_sel t) (t_host_features_sel t) (t_guest_features_sel t)
    (t_guest_features_low t) (t_guest_features_high t) (t_queues t) (t_activated t)
    (t_interrupt_status t) v (t_notify_count t) (t_status_writes t).
Definition with_notify_count (t : Transport) (v : Z) : Transport :=
  mkTransport (t_status t) (t_queue_sel t) (t_host_features_sel t) (t_guest_features_sel t)
    (t_guest_features_low t) (t_guest_features_high t) (t_queues t) (t_activated t)
    (t_interrupt_status t) (t_irq_evt t) v (t_status_writes t).
Definition with_status_writes (t : Transport) (v : Z) : Transport :=
  mkTransport (t_status t) (t_queue_sel t) (t_host_features_sel t) (t_guest_features_sel t)
    (t_guest_features_low t) (t_guest_features_high t) (t_queues t) (t_activated t)
    (t_interrupt_status t) (t_irq_evt t) (t_notify_count t) v.

Definition transport_new (queues : nat) : Transport :=
  mkTransport 0 0 0 0 0 0 (replicate queues queue_default) false 0 None 0 0.

(** What a reset by the driver leaves: the event and the two counters stay. *)
Definition reset_regs (t : Transport) : Transport :=
  mkTransport 0 0 0 0 0 0 ((fun _ => queue_default) <$> t_queues t) false 0 (t_irq_evt t)
    (t_notify_count t) (t_status_writes t).

(** The selected queue. *)
Definition selected (t : Transport) : option QueueState := t_queues t !! Z.to_nat (t_queue_sel t).

Definition update_selected (f : QueueState → QueueState) (t : Transport) : Transport :=
  with_queues t (alter f (Z.to_nat (t_queue_sel t)) (t_queues t)).

(** Registers the transports read the same way; the rest is [None]. *)
Definition read_queue_reg_upto (max : Z) (t : Transport) (off : Z) : option Z :=
  let on (f : QueueState → Z) := Some (match selected t with Some q => f q | None => 0 end) in
  if off =? reg.QUEUE_NUM then on q_size
  else if off =? reg.QUEUE_READY then on (fun q => Z.b2z (q_ready q && valid_size_upto max q))
  else if off =? reg.QUEUE_DESC_LOW then on (fun q => addr_low (q_desc_table_addr q))
  else if off =? reg.QUEUE_DESC_HIGH then on (fun q => addr_high (q_desc_table_addr q))
  else if off =? reg.QUEUE_DRIVER_LOW then on (fun q => addr_low (q_avail_ring_addr q))
  else if off =? reg.QUEUE_DRIVER_HIGH then on (fun q => addr_high (q_avail_ring_addr q))
  else if off =? reg.QUEUE_DEVICE_LOW then on (fun q => addr_low (q_used_ring_addr q))
  else if off =? reg.QUEUE_DEVICE_HIGH then on (fun q => addr_high (q_used_ring_addr q))
  else None.

Definition read_queue_reg (t : Transport) (off : Z) : option Z := read_queue_reg_upto MAX_QUEUE_SIZE t off.

(** What a write to a register of the selected queue does to it. *)
Definition write_queue_reg_upto (max off val : Z) : option (QueueState → QueueState) :=
  if off =? reg.QUEUE_NUM then Some (set_size_upto max val)
  else if off =? reg.QUEUE_DESC_LOW then Some (set_desc (fun a => set_low a val))
  else if off =? reg.QUEUE_DESC_HIGH then Some (set_desc (fun a => set_high a val))
  else if off =? reg.QUEUE_DRIVER_LOW then Some (set_driver (fun a => set_low a val))
  else if off =? reg.QUEUE_DRIVER_HIGH then Some (set_driver (fun a => set_high a val))
  else if off =? reg.QUEUE_DEVICE_LOW then Some (set_device (fun a => set_low a val))
  else if off =? reg.QUEUE_DEVICE_HIGH then Some (set_device (fun a => set_high a val))
  else if off =? reg.QUEUE_READY then Some (set_ready_upto max (negb (val =? 0)))
  else None.

Definition write_queue_reg (off val : Z) : option (QueueState → QueueState) :=
  write_queue_reg_upto MAX_QUEUE_SIZE off val.

Definition write_guest_features (t : Transport) (val : Z) : Transport :=
  if t_guest_features_sel t =? 0 then with_guest_features_low t val
  else if t_guest_features_sel t =? 1 then with_guest_features_high t val
  else t.

(** [STATUS] with a value other than zero. *)
Definition write_status_bits (t : Transport) (val : Z) : Transport :=
  let t := with_status t val in
  if has_bits val DRIVER_OK then with_activated t true else t.

Definition acknowledge (t : Transport) (val : Z) : Transport :=
  with_interrupt_status t (clear_bits (t_interrupt_status t) val).

Definition count_status_write (t : Transport) : Transport :=
  with_status_writes t (u64_fetch_add (t_status_writes t) 1).
Definition count_notify (t : Transport) : Transport :=
  with_notify_count t (u64_fetch_add (t_notify_count t) 1).

(** An interrupt on the used ring: the bit, and one write to the event. *)
Definition raise (t : Transport) : Transport :=
  with_interrupt_status t (Z.lor (t_interrupt_status t) INT_VRING_BIT).
Definition bump_irq (t : Transport) : Transport := with_irq_evt t ((fun n => n + 1) <$> t_irq_evt t).
