(* ===== verification/BlkDev.v ===== *)
(** * The block device ([virtio/blk_transport.rs])

    One definition per method, in the order of the source, over the backend of
    [Blk] and [BlkIov], the processor of [VQueue] and the limiter of
    [RateLimit]. A mutex that a panicking thread left behind is listed in
    [poisoned]; the interrupt event is the count of its writes. What the host
    answers is part of the state: the answers of [preadv] and the readings of
    the clock. Log output has no counterpart. *)

From S2P Require Import Prelude Dirty GuestMem GuestRam VQueue RateLimit Bus Regs Dev Blk BlkIov Transport.

Definition VIRTIO_RING_F_EVENT_IDX : Z := 536870912.
Definition VIRTIO_BLK_F_SIZE_MAX : Z := 2.
Definition VIRTIO_BLK_F_RO : Z := 32.
Definition BLK_FEATURES_LOW : Z := Z.lor (Z.lor 512 VIRTIO_BLK_F_SIZE_MAX) VIRTIO_RING_F_EVENT_IDX.
Definition BLK_FEATURES_HIGH : Z := 1.
Definition HEADER_SIZE : Z := 16.

(** [GuestMemory::get_slices]: views of host memory that together are the
    range, or [None] when one of them is refused. *)
Class GuestSlices (M : Type) `{!GuestMemoryBackend M} := gm_slices : M → Z → Z → option (list iovec).

(** A backed range has such views, in order. *)
Class GuestSlicesLaws (M : Type) `{!GuestMemoryBackend M} `{!GuestSlices M} : Prop :=
  gm_slices_cover : ∀ (m : M) a n, 0 ≤ n → n = 0 ∨ gm_check_range m a n = true →
    ∃ iov, gm_slices m a n = Some iov ∧ addrs iov = seqZ a n.

Inductive PersistError : Type :=
| Unavailable.

(** The mutexes. *)
Inductive Lock : Type :=
| LQueues | LBackend | LGuestMem | LHostDirty | LProcessor | LRateLimiter | LIrqEvt.

#[export] Instance lock_eq_dec : EqDecision Lock.
Proof. solve_decision. Defined.

Record VirtioBlkMmioState := mkBlkState {
  s_status : Z;
  s_queue_sel : Z;
  s_host_features_sel : Z;
  s_guest_features_sel : Z;
  s_guest_features_low : Z;
  s_guest_features_high : Z;
  s_queues : list QueueState;
  s_activated : bool;
  s_interrupt_status : Z;
  s_processor : option VirtQueueProcessorState;
}.

Section device.
Context {M : Type}.

Record VirtioBlkMmio := mkBlk {
  irq : Z;
  device_id : Z;
  vendor_id : Z;
  version : Z;
  regs : Transport;
  backend : option BlkBackend;
  guest_mem : option M;
  host_dirty : option DirtyBitmap.t;
  processor : option VirtQueueProcessor;
  rate_limiter : option RateLimiter.t;
  poisoned : list Lock;
  answers_ : list answer;
  clock : nat → Z;
  ticks : nat;
}.

Definition with_regs (d : VirtioBlkMmio) (v : Transport) : VirtioBlkMmio :=
  mkBlk (irq d) (device_id d) (vendor_id d) (version d) v (backend d) (guest_mem d) (host_dirty d)
    (processor d) (rate_limiter d) (poisoned d) (answers_ d) (clock d) (ticks d).
Definition with_backend (d : VirtioBlkMmio) (v : option BlkBackend) : VirtioBlkMmio :=
  mkBlk (irq d) (device_id d) (vendor_id d) (version d) (regs d) v (guest_mem d) (host_dirty d)
    (processor d) (rate_limiter d) (poisoned d) (answers_ d) (clock d) (ticks d).
Definition with_guest_mem (d : VirtioBlkMmio) (v : option M) : VirtioBlkMmio :=
  mkBlk (irq d) (device_id d) (vendor_id d) (version d) (regs d) (backend d) v (host_dirty d)
    (processor d) (rate_limiter d) (poisoned d) (answers_ d) (clock d) (ticks d).
Definition with_host_dirty (d : VirtioBlkMmio) (v : option DirtyBitmap.t) : VirtioBlkMmio :=
  mkBlk (irq d) (device_id d) (vendor_id d) (version d) (regs d) (backend d) (guest_mem d) v
    (processor d) (rate_limiter d) (poisoned d) (answers_ d) (clock d) (ticks d).
Definition with_processor (d : VirtioBlkMmio) (v : option VirtQueueProcessor) : VirtioBlkMmio :=
  mkBlk (irq d) (device_id d) (vendor_id d) (version d) (regs d) (backend d) (guest_mem d)
    (host_dirty d) v (rate_limiter d) (poisoned d) (answers_ d) (clock d) (ticks d).
Definition with_rate_limiter (d : VirtioBlkMmio) (v : option RateLimiter.t) : VirtioBlkMmio :=
  mkBlk (irq d) (device_id d) (vendor_id d) (version d) (regs d) (backend d) (guest_mem d)
    (host_dirty d) (processor d) v (poisoned d) (answers_ d) (clock d) (ticks d).
Definition with_poisoned (d : VirtioBlkMmio) (v : list Lock) : VirtioBlkMmio :=
  mkBlk (irq d) (device_id d) (vendor_id d) (version d) (regs d) (backend d) (guest_mem d)
    (host_dirty d) (processor d) (rate_limiter d) v (answers_ d) (clock d) (ticks d).
Definition with_answers (d : VirtioBlkMmio) (v : list answer) : VirtioBlkMmio :=
  mkBlk (irq d) (device_id d) (vendor_id d) (version d) (regs d) (backend d) (guest_mem d)
    (host_dirty d) (processor d) (rate_limiter d) (poisoned d) v (clock d) (ticks d).
Definition with_ticks (d : VirtioBlkMmio) (v : nat) : VirtioBlkMmio :=
  mkBlk (irq d) (device_id d) (vendor_id d) (version d) (regs d) (backend d) (guest_mem d)
    (host_dirty d) (processor d) (rate_limiter d) (poisoned d) (answers_ d) (clock d) v.

Definition on_regs (f : Transport → Transport) (d : VirtioBlkMmio) : VirtioBlkMmio :=
  with_regs d (f (regs d)).

(** [new] on a host with the given clock and answers. *)
Definition blk_new (irq : Z) (b : BlkBackend) (as_ : list answer) (clock : nat → Z) : VirtioBlkMmio :=
  mkBlk irq 2 0 2 (transport_new 1) (Some b) None None None None [] as_ clock 0.

Definition new_stub (irq device_id : Z) (as_ : list answer) (clock : nat → Z) : VirtioBlkMmio :=
  mkBlk irq device_id 0 2 (transport_new 1) None None None None None [] as_ clock 0.

Definition current_status (d : VirtioBlkMmio) : Z := t_status (regs d).
Definition is_activated (d : VirtioBlkMmio) : bool := t_activated (regs d).

End device.

Arguments VirtioBlkMmio : clear implicits.

(** ** Guest buffers *)
Section buffers.
Context {M : Type} `{!GuestMemoryBackend M} `{!GuestSlices M}.

(** Every writable buffer but the last, which takes the status byte. *)
Definition data_bufs (writable : list (Z * Z)) : list (Z * Z) := take (length writable - 1) writable.

(** The loop of [read_descs]. *)
Fixpoint read_loop (m : M) (descs : list (Z * Z)) (data : list Z) : option (list Z) :=
  match descs with
  | [] => Some data
  | (addr, len) :: descs' =>
      if len =? 0 then read_loop m descs' data
      else
        let?o _ := u64_checked_add (Z.of_nat (length data)) len in
        let?o bs := gm_read_slice m addr len in
        read_loop m descs' (data ++ bs)
  end.

Definition read_descs (m : M) (descs : list (Z * Z)) : option (list Z) :=
  let?o _ := fold_capacity 0 descs in
  read_loop m descs [].

Definition writable_data_len (writable : list (Z * Z)) : option Z := fold_capacity 0 (data_bufs writable).

Definition request_bytes (header : BlkReqHeader) (readable_len : Z) (writable : list (Z * Z)) : option Z :=
  if req_type header =? IN then writable_data_len writable
  else if req_type header =? OUT then u64_checked_sub readable_len HEADER_SIZE
  else if req_type header =? GET_ID then Some 20
  else Some 0.

(** The loop of [write_writable_data]: how far it came. *)
Fixpoint write_data_loop (w : World M) (bufs : list (Z * Z)) (data : list Z) (cursor : Z) : Z * World M :=
  let total := Z.of_nat (length data) in
  match bufs with
  | [] => (cursor, w)
  | (addr, len) :: bufs' =>
      if total <=? cursor then (cursor, w)
      else
        let take := Z.min len (total - cursor) in
        if take =? 0 then write_data_loop w bufs' data cursor
        else match u64_checked_add cursor take with
        | None => (cursor, w)
        | Some next_cursor =>
            match write_mem w (slice (Z.to_nat cursor) (Z.to_nat take) data) addr with
            | (false, w') => (cursor, w')
            | (true, w') => write_data_loop w' bufs' data next_cursor
            end
        end
  end.

Definition write_writable_data (w : World M) (writable : list (Z * Z)) (data : list Z) : Z * World M :=
  write_data_loop w (data_bufs writable) data 0.

(** The views of a list of buffers. *)
Fixpoint slices_of (m : M) (bufs : list (Z * Z)) : option (list iovec) :=
  match bufs with
  | [] => Some []
  | (addr, len) :: bufs' =>
      let?o iov := gm_slices m addr len in
      let?o rest := slices_of m bufs' in
      Some (iov ++ rest)
  end.

Definition mark_bufs (bufs : list (Z * Z)) (dirty : DirtyBitmap.t) : DirtyBitmap.t :=
  foldl (fun d b => SoftwareDirtyBitmap.mark_guest_range d b.1 b.2) dirty bufs.

(** The inner option is the answer of the source; the outer is [None] for a
    panic of the backend. *)
Definition read_into_guest (w : World M) (as_ : list answer) (b : BlkBackend) (header : BlkReqHeader)
    (writable : list (Z * Z)) : option (option (Z * World M * list answer)) :=
  let data := data_bufs writable in
  match slices_of (w_mem w) data with
  | None => Some None
  | Some iov =>
      let?o out := service_read_into header iov b (mkKernel (w_mem w) as_) in
      Some (Some (out.1, mkWorld (memory out.2) (mark_bufs data <$> w_dirty w), answers out.2))
  end.

Definition write_status (w : World M) (writable : list (Z * Z)) (st : Z) : Z * World M :=
  match last writable with
  | Some (addr, len) =>
      if 0 <? len then
        match write_mem w [st] addr with
        | (true, w') => (1, w')
        | (false, w') => (0, w')
        end
      else (0, w)
  | None => (0, w)
  end.

End buffers.

Section blk.
Context {M : Type} `{!GuestMemoryBackend M} `{!GuestSlices M}.

(** What a failed read leaves in a bounce buffer is not specified. *)
Variable torn : list Z → list Z.

Abbreviation device := (VirtioBlkMmio M).
Abbreviation op_ A := (dev device MmioError A).

(** ** Failure and locks *)

Definition fail_device (d : device) : device :=
  on_regs (fun t => with_activated (with_status t (Z.lor (t_status t) (Z.lor DEVICE_NEEDS_RESET FAILED))) false) d.

Definition fail_worker (d : device) : device := fail_device d.

Definition is_failed (d : device) : bool := has_bits (t_status (regs d)) (Z.lor DEVICE_NEEDS_RESET FAILED).

Definition ensure_operational : op_ unit :=
  let* d := get in
  if is_failed d then fail DeviceRejected else ret tt.

Definition try_lock_state (l : Lock) : op_ unit :=
  fun d => if decide (l ∈ poisoned d) then Some (Err DeviceRejected, fail_device d) else Some (Ok tt, d).

Definition snapshot_lock (l : Lock) : dev device PersistError unit :=
  fun d => if decide (l ∈ poisoned d) then Some (Err Unavailable, fail_device d) else Some (Ok tt, d).

(** A poisoned lock is entered all the same. *)
Definition lock_state {E : Type} (l : Lock) : dev device E unit :=
  modify (fun d => if decide (l ∈ poisoned d) then fail_device d else d).

Definition snapshot_state : dev device PersistError VirtioBlkMmioState :=
  let* d := get in
  if is_failed d then fail Unavailable
  else
    let t := regs d in
    do* snapshot_lock LQueues in
    do* snapshot_lock LProcessor in
    ret (mkBlkState (t_status t) (t_queue_sel t) (t_host_features_sel t) (t_guest_features_sel t)
           (t_guest_features_low t) (t_guest_features_high t) (t_queues t) (t_activated t)
           (t_interrupt_status t) (save_state <$> processor d)).

Definition reset (d : device) : device :=
  with_processor (on_regs reset_regs (with_poisoned d [])) None.

(** ** Configuration by the controller *)

Definition set_irq_evt (evt : Z) : op_ unit :=
  do* lock_state LIrqEvt in modify (on_regs (fun t => with_irq_evt t (Some evt))).

Definition set_guest_memory (mem : M) : op_ unit :=
  do* lock_state LGuestMem in modify (fun d => with_guest_mem d (Some mem)).

Definition set_guest_dirty_tracker (dirty : DirtyBitmap.t) : op_ unit :=
  do* lock_state LHostDirty in modify (fun d => with_host_dirty d (Some dirty)).

Definition set_rate_limiter (rl : RateLimiter.t) : op_ unit :=
  do* lock_state LRateLimiter in modify (fun d => with_rate_limiter d (Some rl)).

(** ** Interrupts *)

Definition reassert_pending_interrupt : op_ unit :=
  fun d =>
    if t_interrupt_status (regs d) =? 0 then Some (Ok tt, d)
    else match try_lock_state LIrqEvt d with
    | Some (Ok _, d') => Some (Ok tt, on_regs bump_irq d')
    | Some (Err _, d') => Some (Ok tt, d')
    | None => None
    end.

Definition trigger_interrupt : op_ unit :=
  do* modify (on_regs raise) in
  do* try_lock_state LIrqEvt in
  modify (on_regs bump_irq).

(** ** Requests *)

Definition rate_limit_allows (bytes : Z) : op_ bool :=
  do* try_lock_state LRateLimiter in
  let* d := get in
  match rate_limiter d with
  | Some rl =>
      let '(allowed, rl') := RateLimiter.try_charge_at rl 1 bytes (clock d (ticks d)) in
      do* modify (fun d => with_ticks (with_rate_limiter d (Some rl')) (S (ticks d))) in
      ret allowed
  | None => ret true
  end.

(** What the closure of [process_queue] captures: the device, whether
    processing failed and whether the backend panicked. *)
Record Captured := mkCaptured {
  c_dev : device;
  c_failed : bool;
  c_panicked : bool;
}.

(** Asks the limiter; [false] when the request is to be left in the queue. *)
Definition charge (bytes : Z) (h : Captured) : bool * Captured :=
  match rate_limit_allows bytes (c_dev h) with
  | Some (Ok allowed, d) => (allowed, mkCaptured d (c_failed h) (c_panicked h))
  | Some (Err _, d) => (false, mkCaptured d true (c_panicked h))
  | None => (false, h)
  end.

(** A request that is answered with an error before it reaches the backend. *)
Definition refuse (w : World M) (h : Captured) (writable : list (Z * Z)) (used_len : Z)
    : World M * Captured * option Z :=
  match charge 0 h with
  | (true, h') => ((write_status w writable STATUS_IO_ERR).2, h', Some used_len)
  | (false, h') => (w, h', None)
  end.

(** The status of a request, what it does to memory and to the backend, and
    the answers of the kernel that are left. [None]: the backend panics. *)
Definition perform (w : World M) (as_ : list answer) (b : BlkBackend) (header : BlkReqHeader)
    (readable : list Z) (writable : list (Z * Z)) : option (Z * World M * list answer * BlkBackend) :=
  if req_type header =? IN then
    match writable_data_len writable with
    | None => Some (STATUS_IO_ERR, w, as_, b)
    | Some data_len =>
        if data_len =? 0 then Some (STATUS_IO_ERR, w, as_, b)
        else
          let?o direct := read_into_guest w as_ b header writable in
          match direct with
          | Some (st, w', as') => Some (st, w', as', b)
          | None =>
              let?o out := service torn header (replicate (Z.to_nat data_len) 0) b in
              Some (out.1.1, (write_writable_data w writable out.1.2).2, as_, out.2)
          end
    end
  else if req_type header =? OUT then
    let?o out := service torn header (drop 16 readable) b in
    Some (out.1.1, w, as_, out.2)
  else if req_type header =? FLUSH then
    let?o out := service torn header [] b in
    Some (out.1.1, w, as_, out.2)
  else if req_type header =? GET_ID then
    let?o out := service torn header (replicate 20 0) b in
    Some (out.1.1, (write_writable_data w writable out.1.2).2, as_, out.2)
  else Some (STATUS_UNSUPP, w, as_, b).

(** The closure of [process_queue]. *)
Definition blk_handler (w : World M) (h : Captured) (readable writable : list (Z * Z))
    : World M * Captured * option Z :=
  let used_len := as_u32 (Z.of_nat (length readable + length writable)) in
  match read_descs (w_mem w) readable with
  | None => refuse w h writable used_len
  | Some data =>
      if Z.of_nat (length data) <? 16 then refuse w h writable used_len
      else match from_bytes (take 16 data) with
      | None => refuse w h writable used_len
      | Some header =>
          match request_bytes header (Z.of_nat (length data)) writable with
          | None => refuse w h writable used_len
          | Some bytes =>
              match charge bytes h with
              | (false, h') => (w, h', None)
              | (true, h') =>
                  let d := c_dev h' in
                  match (let?o b := backend d in perform w (answers_ d) b header data writable) with
                  | None => (w, mkCaptured d (c_failed h') true, None)
                  | Some (st, w', as', b') =>
                      ((write_status w' writable st).2,
                       mkCaptured (with_answers (with_backend d (Some b')) as') (c_failed h') (c_panicked h'),
                       Some used_len)
                  end
              end
          end
      end
  end.

(** One pass: guest memory and the tracker are shared with it, so what it
    leaves of them is put back. [rounds] bounds how often the ring is looked
    at again when event indices are in use. *)
Definition run_pass (rounds : nat) (mem : M) (p : VirtQueueProcessor)
    : op_ (Z * bool * VirtQueueProcessor) :=
  fun d =>
    match process_queue_descriptors_dirty blk_handler rounds p (mkWorld mem (host_dirty d))
            (mkCaptured d false false) with
    | None => None
    | Some (p', w', h', processed) =>
        if c_panicked h' then None
        else Some (Ok (processed, c_failed h', p'),
               with_processor (with_host_dirty (with_guest_mem (c_dev h') (Some (w_mem w'))) (w_dirty w')) (Some p'))
    end.

Definition process_queue (rounds : nat) : op_ unit :=
  do* ensure_operational in
  do* try_lock_state LGuestMem in
  let* d := get in
  match guest_mem d with
  | None => ret tt
  | Some mem =>
      do* try_lock_state LHostDirty in
      do* try_lock_state LQueues in
      match t_queues (regs d) with
      | [] => ret tt
      | q :: _ =>
          if negb (q_ready q) || negb (valid_size q) then ret tt
          else
            let config := queue_config_from_state q in
            do* try_lock_state LProcessor in
            let p := match processor d with
                     | None => new config
                     | Some p => update_config p config
                     end in
            let p := set_event_idx p (has_bits (t_guest_features_low (regs d)) VIRTIO_RING_F_EVENT_IDX) in
            do* modify (fun d => with_processor d (Some p)) in
            do* try_lock_state LBackend in
            match backend d with
            | None => ret tt
            | Some _ =>
                let* out := run_pass rounds mem p in
                let '(count, processing_failed, p') := out in
                do* (if 0 <? count then
                       let* d := get in
                       if from_option (fun m => needs_notification p' m (last_used_idx p)) false (guest_mem d)
                       then trigger_interrupt else ret tt
                     else ret tt) in
                let* d := get in
                if processing_failed || is_failed d then fail DeviceRejected else ret tt
            end
      end
  end.

(** ** Snapshots *)

Definition restore (st : VirtioBlkMmioState) : op_ unit :=
  do* modify (on_regs (fun t =>
    with_guest_features_high (with_guest_features_low (with_guest_features_sel (with_host_features_sel
      (with_queue_sel (with_status t (s_status st)) (s_queue_sel st)) (s_host_features_sel st))
      (s_guest_features_sel st)) (s_guest_features_low st)) (s_guest_features_high st))) in
  do* lock_state LQueues in
  do* modify (on_regs (fun t => with_queues t (s_queues st))) in
  do* modify (on_regs (fun t => with_interrupt_status (with_activated t (s_activated st)) (s_interrupt_status st))) in
  do* lock_state LQueues in
  let config := match s_queues st with
                | q :: _ => queue_config_from_state q
                | [] => mkQueueConfig 0 0 0 0 false
                end in
  do* lock_state LProcessor in
  modify (fun d => with_processor d (from_state config <$> s_processor st)).

(** ** Registers *)

(** The window of four bytes of the configuration space at [cfg_off]. *)
Definition read_config (b : BlkBackend) (cfg_off : Z) : Z :=
  let cfg := le_encode 8 (sectors b) ++ le_encode 4 MAX_DESC_LEN in
  let end_ := Z.min (cfg_off + 4) 12 in
  if cfg_off <? end_ then
    let at_ (i : Z) := default 0 (cfg !! Z.to_nat i) in
    le_decode [at_ cfg_off; at_ (cfg_off + 1); at_ (cfg_off + 2); at_ (cfg_off + 3)]
  else 0.

Definition mmio_read (off : Z) : op_ Z :=
  let* d := get in
  if off =? reg.MAGIC_VALUE then ret MMIO_MAGIC
  else if off =? reg.VERSION then ret (version d)
  else if off =? reg.DEVICE_ID then ret (device_id d)
  else if off =? reg.VENDOR_ID then ret (vendor_id d)
  else if off =? reg.HOST_FEATURES then
    if t_host_features_sel (regs d) =? 0 then
      do* lock_state LBackend in
      ret (if from_option read_only false (backend d) then Z.lor BLK_FEATURES_LOW VIRTIO_BLK_F_RO
           else BLK_FEATURES_LOW)
    else if t_host_features_sel (regs d) =? 1 then ret BLK_FEATURES_HIGH
    else ret 0
  else if off =? reg.QUEUE_NUM_MAX then ret MAX_QUEUE_SIZE
  else if off =? reg.STATUS then ret (t_status (regs d))
  else if off =? reg.INTERRUPT_STATUS then ret (t_interrupt_status (regs d))
  else if off =? reg.CONFIG_GENERATION then ret 0
  else if reg.CONFIG <=? off then
    do* lock_state LBackend in
    ret (from_option (fun b => read_config b (off - reg.CONFIG)) 0 (backend d))
  else match read_queue_reg (regs d) off with
  | Some v => do* lock_state LQueues in ret v
  | None => ret 0
  end.

Definition mmio_write (rounds : nat) (off raw : Z) : op_ unit :=
  let val := as_u32 raw in
  let* d := get in
  if is_failed d && negb ((off =? reg.STATUS) && (val =? 0)) then fail DeviceRejected
  else if off =? reg.STATUS then
    do* modify (on_regs count_status_write) in
    if val =? 0 then modify reset
    else modify (on_regs (fun t => write_status_bits t val))
  else if off =? reg.HOST_FEATURES_SEL then modify (on_regs (fun t => with_host_features_sel t val))
  else if off =? reg.GUEST_FEATURES then modify (on_regs (fun t => write_guest_features t val))
  else if off =? reg.GUEST_FEATURES_SEL then modify (on_regs (fun t => with_guest_features_sel t val))
  else if off =? reg.QUEUE_SEL then modify (on_regs (fun t => with_queue_sel t val))
  else if off =? reg.QUEUE_NOTIFY then
    do* modify (on_regs count_notify) in
    process_queue rounds
  else if off =? reg.INTERRUPT_ACK then modify (on_regs (fun t => acknowledge t val))
  else match write_queue_reg off val with
  | Some f => do* lock_state LQueues in modify (on_regs (update_selected f))
  | None => ret tt
  end.

End blk.
