(* ===== verification/BlkBufs.v ===== *)
(** * Buffers of block requests

    Reading and writing lists of guest buffers, and reading a device straight
    into them: what each does to the bytes at the buffers' addresses, in
    order. *)

From S2P Require Import Prelude Dirty GuestMem GuestRam VQueue VQueueWalk VQueueRun VQueueServe GuestBufs Cow Blk BlkIov Transport BlkDev.

Section bufs.
Context {M : Type} `{!GuestMemoryBackend M} `{!GuestMemoryLaws M}.
Implicit Types (m : M) (w : World M) (bufs : list (Z * Z)).

Lemma read_loop_ok m rds : ∀ data,
  Forall (valid_buf m) rds → Z.of_nat (length data) + sum_lens rds ≤ U64_MAX →
  read_loop m rds data = Some (data ++ bytes_at m (buf_addrs rds)).
Proof.
  induction rds as [|[a l] rds IH]; intros data Hv Hs; cbn [read_loop]; [by rewrite app_nil_r|].
  apply Forall_cons in Hv as [Hb Hv]. pose proof (sum_lens_nonneg m rds Hv).
  change (sum_lens ((a, l) :: rds)) with (l + sum_lens rds) in Hs.
  rewrite buf_addrs_cons, bytes_at_app. cbn [fst snd]. destruct (l =? 0) eqn:E; bool_to_prop.
  { subst l. rewrite IH by (done || lia). done. }
  pose proof Hb as (_ & Hl & _). cbn [snd] in Hl. apply valid_buf_check in Hb; [|simpl; lia].
  rewrite (proj2 (u64_checked_add_Some _ _ _)) by (split; [done|lia]).
  destruct (gm_read_total m a l ltac:(lia) Hb) as (bs & Hr & Hlen & _). rewrite Hr.
  rewrite IH by (done || rewrite length_app; lia). rewrite (bytes_at_seqZ m a l bs) by (done || lia).
  by rewrite app_assoc.
Qed.

Lemma read_descs_ok m rds :
  Forall (valid_buf m) rds → sum_lens rds ≤ U64_MAX → read_descs m rds = Some (bytes_at m (buf_addrs rds)).
Proof.
  intros Hv Hs. unfold read_descs. rewrite (fold_capacity_Some _ 0 m) by (done || lia). by apply read_loop_ok.
Qed.

Lemma store_bytes_check m as_ : ∀ bs x n,
  gm_check_range (store_bytes m as_ bs) x n = gm_check_range m x n.
Proof. revert m. induction as_ as [|a as_ IH]; intros m [|b bs] x n; try done. cbn. by rewrite IH, gm_write_check. Qed.

Lemma store_bytes_changes as_ : ∀ m bs, changes_only (fun x => x ∈ as_) m (store_bytes m as_ bs).
Proof.
  induction as_ as [|a as_ IH]; intros m [|b bs]; try reflexivity. cbn [store_bytes].
  eapply changes_only_trans; [|eapply changes_only_mono; [apply IH|set_solver]].
  intros x Hx. destruct (decide (x = a)) as [->|]; [set_solver|]. destruct Hx. apply gm_write_frame. simpl. lia.
Qed.

Lemma store_bytes_holds as_ : ∀ m bs,
  NoDup as_ → length bs = length as_ → (∀ a, a ∈ as_ → gm_check_range m a 1 = true) → Forall is_byte bs →
  holds (store_bytes m as_ bs) as_ bs.
Proof.
  induction as_ as [|a as_ IH]; intros m [|b bs] Hnd Hl Hck Hby; try done.
  apply NoDup_cons in Hnd as [Ha Hnd]. apply Forall_cons in Hby as [Hb Hby]. cbn [store_bytes].
  destruct (IH (gm_write_slice m a [b]).2 bs) as [_ IHh]; [done|by injection Hl| |done|].
  { intros x Hx. rewrite gm_write_check. apply Hck. by right. }
  split; [lia|]. intros [|i] x y Hx Hy; [|by eapply IHh]. injection Hx as <-. injection Hy as <-.
  transitivity (byte_at (gm_write_slice m a [b]).2 a).
  - destruct (decide (byte_at (store_bytes (gm_write_slice m a [b]).2 as_ bs) a =
      byte_at (gm_write_slice m a [b]).2 a)) as [|Hne]; [done|].
    by apply store_bytes_changes in Hne.
  - pose proof (gm_write_read m a [b] 0 b) as Hw. rewrite Z.add_0_r in Hw. apply Hw; [by constructor| |done].
    apply Hck. by left.
Qed.

(** The data goes to the buffers, in order, as far as they reach. *)
Lemma write_data_loop_ok data sz : Forall is_byte data → Z.of_nat (length data) ≤ U64_MAX →
  ∀ bufs w k, laid_out (w_mem w) sz → Forall (valid_buf (w_mem w)) bufs → (k ≤ length data)%nat →
  let w' := (write_data_loop w bufs data (Z.of_nat k)).2 in
  tracked w w' ∧ changes_only (in_bufs bufs) (w_mem w) (w_mem w') ∧
  (bufs_disjoint bufs → holds (w_mem w') (buf_addrs bufs) (take (length (buf_addrs bufs)) (drop k data))).
Proof.
  intros Hby Hmax bufs. induction bufs as [|[a l] bufs IH]; intros w k Hlay Hv Hk; cbn [write_data_loop].
  { split_and!; [reflexivity|reflexivity|]. intros _. apply holds_nil. }
  apply Forall_cons in Hv as [Hb Hv]. pose proof Hb as (_ & Hl & _). cbn [snd] in Hl.
  destruct (_ <=? _) eqn:E; bool_to_prop.
  { cbn [snd]. split_and!; [reflexivity|reflexivity|]. intros _. rewrite drop_ge, take_nil by lia. apply holds_nil. }
  destruct (_ =? 0) eqn:E0; bool_to_prop.
  { assert (l = 0) as -> by lia. destruct (IH w k Hlay Hv Hk) as (Ht & Hc & Hh). split_and!; [done| |].
    - eapply changes_only_mono; [exact Hc|]. intros x Hx. apply in_bufs_cons. by right.
    - intros [_ Hd]. by apply Hh. }
  set (n := Z.min l (Z.of_nat (length data) - Z.of_nat k)) in *.
  rewrite (proj2 (u64_checked_add_Some _ _ _)) by (split; [done|lia]).
  assert (length (slice k (Z.to_nat n) data) = Z.to_nat n) as Hsl by (apply length_slice; lia).
  rewrite Nat2Z.id.
  destruct (write_front w sz a l (slice k (Z.to_nat n) data)) as (w1 & -> & Ht1 & Hc1 & Hh1); [done|done| | | |].
  { intros Hn. rewrite Hn in Hsl. simpl in Hsl. lia. }
  { lia. }
  { by apply Forall_slice. }
  replace (Z.of_nat k + n) with (Z.of_nat (k + Z.to_nat n)) by lia.
  destruct (IH w1 (k + Z.to_nat n)%nat) as (Ht2 & Hc2 & Hh2); [by eapply tracked_laid_out| |lia|].
  { eapply Forall_impl; [exact Hv|]. intros b. by apply valid_buf_tracked. }
  split_and!; [by transitivity w1| |].
  - eapply changes_only_trans; (eapply changes_only_mono; [eassumption|]); intros x Hx; apply in_bufs_cons; auto.
  - intros [Hd Hds]. rewrite buf_addrs_cons. apply holds_append; cbn [fst snd].
    + eapply holds_frame; [exact Hc2| |].
      * intros x Hx. apply elem_of_seqZ in Hx. by apply Hd.
      * rewrite take_take, length_app, length_seqZ, Nat.min_l by lia.
        replace (take (Z.to_nat l) (drop k data)) with (slice k (Z.to_nat n) data); [done|].
        unfold slice. destruct (decide (n = l)) as [Hnl|]; [by rewrite Hnl|]. rewrite !take_ge by (rewrite length_drop; lia). done.
    + rewrite skipn_firstn_comm, length_app, length_seqZ, drop_drop.
      replace (Z.to_nat l + length (buf_addrs bufs) - Z.to_nat l)%nat with (length (buf_addrs bufs)) by lia.
      destruct (decide (n = l)) as [Hnl|]; [rewrite <- Hnl; by apply Hh2|].
      rewrite drop_ge, take_nil by lia. apply holds_nil.
Qed.

(** The status byte, and nothing else. *)
Lemma write_status_ok w sz wr st :
  laid_out (w_mem w) sz → Forall (valid_buf (w_mem w)) wr → is_byte st →
  let w' := (write_status w wr st).2 in
  tracked w w' ∧
  changes_only (fun x => ∃ l, last wr = Some (x, l) ∧ 0 < l) (w_mem w) (w_mem w') ∧
  (∀ a l, last wr = Some (a, l) → 0 < l → byte_at (w_mem w') a = Some [st]).
Proof.
  intros Hlay Hv Hst. unfold write_status. destruct (last wr) as [[a l]|] eqn:El.
  2: { cbn [snd]. split_and!; [reflexivity|reflexivity|done]. }
  case_goal; bool_to_prop; cycle 1.
  { cbn [snd]. split_and!; [reflexivity|reflexivity|]. intros a' l' [= <- <-] ?. lia. }
  assert (valid_buf (w_mem w) (a, l)) as Hb.
  { rewrite Forall_forall in Hv. apply Hv. by apply last_Some_elem_of. }
  destruct (write_front w sz a 1 [st]) as (w' & -> & Ht & Hc & Hh); [done| |done|simpl; lia|by constructor|].
  { pose proof Hb as (? & ? & _). cbn [fst snd] in *. split_and!; [done|simpl; lia|]. unfold guest_range_is_valid.
    simpl Z.eqb. cbv iota. apply valid_buf_check in Hb; [|done]. cbn [fst snd] in *.
    destruct (gm_check_range_u64_bound _ _ l ltac:(lia) Hb).
    rewrite (proj2 (u64_checked_add_Some _ _ _)) by (split; [done|lia]).
    by apply (gm_check_range_sub (w_mem w) a l); [lia..|]. }
  cbn [snd]. split_and!; [done| |].
  - eapply changes_only_mono; [exact Hc|]. intros x Hx. simpl in Hx. assert (x = a) as -> by lia. eauto.
  - intros a' l' [= <- <-] _. apply (proj2 Hh 0%nat); [|done]. by rewrite seqZ_1.
Qed.

Lemma addrs_app i1 i2 : addrs (i1 ++ i2) = addrs i1 ++ addrs i2.
Proof. apply bind_app. Qed.

(** What changed in the buffers is recorded when all of them are marked. *)
Lemma mark_bufs_tracked m m' dirty bufs sz :
  laid_out m sz → Forall (valid_buf m) bufs → (∀ x n, gm_check_range m' x n = gm_check_range m x n) →
  changes_only (in_bufs bufs) m m' →
  tracked (mkWorld m dirty) (mkWorld m' (mark_bufs bufs <$> dirty)).
Proof.
  intros Hlay Hv Hck Hc. split; [done|]. destruct dirty as [d|]; [|done]. cbn [w_dirty fmap option_fmap option_map].
  assert (∀ bufs d, dirty_le d (mark_bufs bufs d)) as Hle.
  { clear. induction bufs as [|b bufs IH]; intros d; [done|]. unfold mark_bufs. cbn [foldl].
    etransitivity; [apply dirty_le_mark_guest|apply IH]. }
  split; [apply Hle|]. intros x Hx Hne. apply Hc in Hne. clear Hc. cbn [w_mem] in *. revert d.
  induction bufs as [|b bufs IH]; intros d; [by destruct Hne as (b & Hb%elem_of_nil & _)|].
  apply Forall_cons in Hv as [Hb Hv]. unfold mark_bufs. cbn [foldl]. fold (mark_bufs bufs).
  apply in_bufs_cons in Hne as [Hne|Hne]; [|by apply IH]. apply Hle.
  apply valid_buf_check in Hb; [|lia]. destruct (laid_out_range m sz b.1 b.2 Hlay ltac:(lia) Hb) as (_ & _ & ? & ?).
  by apply mark_guest_range_covers.
Qed.

End bufs.

Section direct.
Context {M : Type} `{!GuestMemoryBackend M} `{!GuestMemoryLaws M} `{!GuestSlices M} `{!GuestSlicesLaws M}.
Implicit Types (m : M) (w : World M).

Lemma slices_of_ok m bufs :
  Forall (valid_buf m) bufs → ∃ iov, slices_of m bufs = Some iov ∧ addrs iov = buf_addrs bufs.
Proof.
  induction 1 as [|[a l] bufs Hb _ (rest & Hr & Ha)]; [by exists []|]. pose proof Hb as (_ & Hl & _).
  cbn [snd] in Hl. cbn [slices_of].
  destruct (gm_slices_cover m a l Hl) as (iov & -> & Hi).
  { destruct (decide (l = 0)); [by left|right]. apply (valid_buf_check _ _ Hb). simpl. lia. }
  rewrite Hr. exists (iov ++ rest). split; [done|]. by rewrite addrs_app, Hi, Ha.
Qed.

(** Reading straight into the buffers leaves what [service] returns in them. *)
Lemma read_into_guest_ok w as_ b header wr disk sz :
  let data := data_bufs wr in
  let n := length (buf_addrs data) in
  let out := spec_service (read_only b) (sectors b) header (replicate n 0) disk in
  backend_ok b → represents b disk → files_small b → Failed ∉ as_ → 0 ≤ sector header → req_type header = IN →
  Forall is_byte disk → laid_out (w_mem w) sz → Forall (valid_buf (w_mem w)) data →
  ∃ w' as', read_into_guest w as_ b header wr = Some (Some (out.1.1, w', as')) ∧ Failed ∉ as' ∧
    tracked w w' ∧ changes_only (in_bufs data) (w_mem w) (w_mem w') ∧
    (bufs_disjoint data → out.1.1 = STATUS_OK → holds (w_mem w') (buf_addrs data) out.1.2).
Proof.
  intros data n out Hok Hrep Hsm Hff Hs Hty Hby Hlay Hv. unfold read_into_guest. fold data.
  destruct (slices_of_ok _ _ Hv) as (iov & -> & Ha).
  assert (iov_total iov = n) as Hn by (by rewrite <- length_addrs, Ha).
  assert (Z.ldiff (req_type header) VIRTIO_BLK_T_BARRIER = IN) as Hop by (by rewrite Hty).
  destruct (service_read_into_ok id b disk header iov (replicate n 0) (mkKernel (w_mem w) as_))
    as (st & data' & k & Hsv & Hri & Hff' & Hm); [done..|by rewrite length_replicate|].
  destruct (service_ok id b disk header (replicate n 0) Hok Hrep Hs) as (b' & Hsv' & _). fold out in Hsv'.
  rewrite Hsv in Hsv'. injection Hsv' as Ho1 _.
  assert (st = out.1.1 ∧ data' = out.1.2) as [-> ->] by (by rewrite <- Ho1). rewrite Hri. cbn [fst snd].
  eexists _, _. split; [done|]. cbn [w_mem memory] in *. rewrite Ha in Hm.
  assert (changes_only (in_bufs data) (w_mem w) (memory k)) as Hc.
  { rewrite Hm. case_goal; [|reflexivity]. eapply changes_only_mono; [apply store_bytes_changes|].
    intros x. by rewrite elem_of_buf_addrs. }
  split_and!; [done| |done|].
  - destruct w as [mm dd]. apply (mark_bufs_tracked mm (memory k) dd data sz); [done..| |done].
    intros x z. rewrite Hm. case_goal; [apply store_bytes_check|done].
  - intros Hd Hst. rewrite Hst in Hm. rewrite Hm. simpl Z.eqb. cbv iota.
    assert (out.1.2 = slice (Z.to_nat (sector header * 512)) n disk) as Ho.
    { revert Hst. subst out. unfold spec_service. rewrite Hop, Z.eqb_refl, length_replicate. by case_goal. }
    assert (length out.1.2 = n) as Hl.
    { rewrite Ho. revert Hst. subst out. unfold spec_service. rewrite Hop, Z.eqb_refl, length_replicate.
      destruct (fits header n (sectors b)) eqn:Ef; [|done]. intros _. apply length_slice. unfold fits in Ef. bool_to_prop.
      destruct Hrep as [Hdl _]. lia. }
    apply store_bytes_holds; [by apply NoDup_buf_addrs|done| |rewrite Ho; by apply Forall_slice].
    intros a Hx. apply elem_of_buf_addrs in Hx. by eapply valid_byte.
Qed.

End direct.
