(* ===== verification/BlkKick.v ===== *)
(** * A kick of the block device, from the registers to the disk

    The guest publishes chains in a virtqueue and notifies the device. The
    disk it sees is a flat array of bytes ([Blk.spec_service]); each chain is
    one request on it, [spec_request], read from guest memory as the driver
    left it. A pass does the requests in order, puts data and status where
    the chains say, and reports them. *)

From S2P Require Import Prelude Dirty GuestMem GuestRam VQueue VQueueWalk VQueueRun VQueuePeek VQueueServe GuestBufs.
From S2P Require Import RateLimit Bus Regs Dev Cow CowOpen Blk BlkIov Transport BlkDev BlkBufs.

(** ** Requests on a flat disk *)

(** A request with the bytes [data] of its readable buffers and room for
    [room] bytes: its status, the bytes it returns, and the disk after it. *)
Definition spec_request (ro : bool) (sectors : Z) (data : list Z) (room : nat) (disk : list Z)
    : Z * list Z * list Z :=
  match from_bytes (take 16 data) with
  | None => (STATUS_IO_ERR, [], disk)
  | Some header =>
      if req_type header =? IN then
        if (room =? 0)%nat then (STATUS_IO_ERR, [], disk)
        else
          let out := spec_service ro sectors header (replicate room 0) disk in
          (out.1.1, if out.1.1 =? STATUS_OK then out.1.2 else [], disk)
      else if req_type header =? OUT then
        let out := spec_service ro sectors header (drop 16 data) disk in
        (out.1.1, [], out.2)
      else if req_type header =? FLUSH then (STATUS_OK, [], disk)
      else if req_type header =? GET_ID then (STATUS_OK, take room (take 20 serial), disk)
      else (STATUS_UNSUPP, [], disk)
  end.

(** The requests of chains, in order, as guest memory [m] has them. *)
Fixpoint spec_requests {M : Type} `{!GuestMemoryBackend M} (ro : bool) (sectors : Z) (m : M)
    (reqs : list (Z * DescriptorChain)) (disk : list Z) : list (DescriptorChain * Z * list Z) * list Z :=
  match reqs with
  | [] => ([], disk)
  | (_, ch) :: reqs' =>
      let out := spec_request ro sectors (bytes_at m (buf_addrs (readable ch)))
                   (length (buf_addrs (data_bufs (writable ch)))) disk in
      let rest := spec_requests ro sectors m reqs' out.2 in
      ((ch, out.1.1, out.1.2) :: rest.1, rest.2)
  end.

(** The guest finds the status in the last buffer and the data in the others. *)
Definition answered {M : Type} `{!GuestMemoryBackend M} (m : M) (wr : list (Z * Z)) (st : Z) (bytes : list Z) : Prop :=
  (∀ a l, last wr = Some (a, l) → 0 < l → byte_at m a = Some [st]) ∧
  holds m (buf_addrs (data_bufs wr)) bytes.

Definition delivered {M : Type} `{!GuestMemoryBackend M} (m : M) (o : DescriptorChain * Z * list Z) : Prop :=
  answered m (writable o.1.1) o.1.2 o.2.

(** The length reported for a chain is the number of its descriptors. *)
Definition reported (r : Z * DescriptorChain) : Z :=
  as_u32 (Z.of_nat (length (readable r.2) + length (writable r.2))).

(** ** One request *)

(** The device is [d0] but for a backend that holds [disk] and answers of the
    kernel that are no errors. *)
Definition serving {M : Type} (d0 : VirtioBlkMmio M) (ro : bool) (n : Z) (disk : list Z)
    (d : VirtioBlkMmio M) : Prop :=
  ∃ b as_, d = with_answers (with_backend d0 (Some b)) as_ ∧ backend_ok b ∧ represents b disk ∧
    files_small b ∧ read_only b = ro ∧ sectors b = n ∧ Failed ∉ as_ ∧ Forall is_byte disk.

Section request.
Context {M : Type} `{!GuestMemoryBackend M} `{!GuestMemoryLaws M}.
Implicit Types (m : M) (w : World M).

Lemma spec_service_plain ro n header data disk :
  let op := req_type header in
  op = FLUSH ∨ op = GET_ID →
  (spec_service ro n header data disk).1.1 = STATUS_OK ∧ (spec_service ro n header data disk).2 = disk ∧
  (op = GET_ID → (spec_service ro n header data disk).1.2 = take (length data) (take 20 serial) ++ drop 20 data).
Proof. intros op [Hop|Hop]; unfold spec_service; rewrite <- ?Hop; unfold op in *; by rewrite Hop. Qed.

Lemma spec_service_bytes ro n header data disk :
  Forall is_byte data → Forall is_byte disk → Forall is_byte (spec_service ro n header data disk).2.
Proof.
  intros Hda Hdi. unfold spec_service, copy_from_slice. repeat case_goal; cbn [snd]; try done.
  repeat apply Forall_app_2; [by apply Forall_take|done|by apply Forall_drop].
Qed.

Lemma spec_service_status ro n header data disk : is_byte (spec_service ro n header data disk).1.1.
Proof. unfold spec_service, is_byte. repeat case_goal; done. Qed.

Lemma files_small_eq b b' : sectors b' = sectors b → files_small b → files_small b'.
Proof. unfold files_small. by intros ->. Qed.

Lemma serial_bytes : Forall is_byte (take 20 serial).
Proof. cbn. repeat (apply Forall_cons_2; [done|]). done. Qed.

Lemma header_sector data header : Forall is_byte data → from_bytes data = Some header → 0 ≤ sector header.
Proof.
  intros Hb. unfold from_bytes. case_goal; [done|]. intros [= <-]. cbn [sector].
  apply (le_decode_bound (slice 8 8 data)). by apply Forall_slice.
Qed.

(** The state after a request, in the terms of [spec_request]. *)
Definition performed (ro : bool) (n : Z) (out : Z * list Z * list Z) (wr : list (Z * Z)) w
    (st : Z) (w' : World M) (as' : list answer) (b' : BlkBackend) : Prop :=
  st = out.1.1 ∧ is_byte st ∧ tracked w w' ∧ changes_only (in_bufs (data_bufs wr)) (w_mem w) (w_mem w') ∧
  Failed ∉ as' ∧ backend_ok b' ∧ represents b' out.2 ∧ files_small b' ∧ read_only b' = ro ∧ sectors b' = n ∧
  Forall is_byte out.2 ∧
  (bufs_disjoint (data_bufs wr) → holds (w_mem w') (buf_addrs (data_bufs wr)) out.1.2).

Lemma sum_lens_data m wr :
  Forall (valid_buf m) wr → Forall (valid_buf m) (data_bufs wr) ∧ 0 ≤ sum_lens (data_bufs wr) ≤ sum_lens wr.
Proof.
  intros Hv. assert (Forall (valid_buf m) (data_bufs wr)) as Hd by by apply Forall_take. split; [done|].
  pose proof (sum_lens_nonneg _ _ Hd). assert (wr = data_bufs wr ++ drop (length wr - 1) wr) as Hw
    by (unfold data_bufs; by rewrite take_drop).
  pose proof (f_equal sum_lens Hw) as Hs. rewrite sum_lens_app in Hs.
  pose proof (sum_lens_nonneg m (drop (length wr - 1) wr) ltac:(by apply Forall_drop)). lia.
Qed.

Lemma data_bufs_last wr a l : last wr = Some (a, l) → wr = data_bufs wr ++ [(a, l)].
Proof.
  intros Hl. apply last_Some in Hl as [wr' ->]. unfold data_bufs. rewrite length_app. simpl.
  by replace (length wr' + 1 - 1)%nat with (length wr') by lia; rewrite take_app_length.
Qed.

Lemma in_data_bufs wr x : in_bufs (data_bufs wr) x → in_bufs wr x.
Proof. intros (b & Hb & Hx). exists b. split; [|done]. by eapply subseteq_take. Qed.

Lemma data_bufs_disjoint wr :
  bufs_disjoint wr →
  bufs_disjoint (data_bufs wr) ∧
  ∀ x l, last wr = Some (x, l) → 0 < l → ¬ in_bufs (data_bufs wr) x.
Proof.
  intros Hd. destruct (last wr) as [[a l]|] eqn:El.
  2: { apply last_None in El as ->. done. }
  rewrite (data_bufs_last _ _ _ El) in Hd. apply bufs_disjoint_app in Hd as (Hd & _ & Ha). split; [done|].
  intros x k [= <- <-] Hp Hx. apply (Ha a Hx). exists (a, l). split; [set_solver|simpl; lia].
Qed.

(** The answer of the device to a chain, once the status is written. *)
Lemma answer_ok w w1 wr st bytes sz :
  laid_out (w_mem w) sz → Forall (valid_buf (w_mem w)) wr → is_byte st → tracked w w1 →
  changes_only (in_bufs (data_bufs wr)) (w_mem w) (w_mem w1) →
  (bufs_disjoint (data_bufs wr) → holds (w_mem w1) (buf_addrs (data_bufs wr)) bytes) →
  let w2 := (write_status w1 wr st).2 in
  tracked w w2 ∧ changes_only (in_bufs wr) (w_mem w) (w_mem w2) ∧
  (bufs_disjoint wr → answered (w_mem w2) wr st bytes).
Proof.
  intros Hlay Hv Hst Ht Hc Hh w2.
  destruct (write_status_ok w1 sz wr st) as (Ht2 & Hc2 & Hs2);
    [by eapply tracked_laid_out|eapply Forall_impl; [exact Hv|]; intros b; by apply valid_buf_tracked|done|].
  fold w2 in Ht2, Hc2, Hs2. split_and!.
  - by transitivity w1.
  - eapply changes_only_trans; [eapply changes_only_mono; [exact Hc|]; intros x; apply in_data_bufs|].
    eapply changes_only_mono; [exact Hc2|]. intros x (l & Hl & Hp). exists (x, l).
    split; [by apply last_Some_elem_of|simpl; lia].
  - intros Hd. destruct (data_bufs_disjoint _ Hd) as [Hdd Hda]. split; [done|].
    eapply holds_frame; [exact Hc2| |by apply Hh]. intros x Hx (l & Hl & Hp).
    apply (Hda x l Hl Hp). by apply elem_of_buf_addrs.
Qed.

(** A request that fits in a chain is not refused for its size. *)
Lemma request_bytes_Some header wr m len :
  Forall (valid_buf m) (data_bufs wr) → sum_lens (data_bufs wr) ≤ U64_MAX → 16 ≤ len ≤ U64_MAX →
  is_Some (request_bytes header len wr).
Proof.
  intros Hv Hs Hl. unfold request_bytes, writable_data_len. rewrite (fold_capacity_Some _ 0 m) by (done || lia).
  repeat case_goal; try done. exists (len - HEADER_SIZE). apply u64_checked_sub_Some. unfold HEADER_SIZE. lia.
Qed.

(** ** The requests of a queue *)

Lemma spec_requests_ext ro n m m' reqs : ∀ disk,
  (∀ r x, r ∈ reqs → in_bufs (readable r.2) x → byte_at m' x = byte_at m x) →
  spec_requests ro n m' reqs disk = spec_requests ro n m reqs disk.
Proof.
  induction reqs as [|[hd ch] reqs IH]; intros disk Hx; [done|]. cbn [spec_requests].
  rewrite (bytes_at_ext m m'); [|intros a Ha; apply (Hx (hd, ch)); [by left|by apply elem_of_buf_addrs]].
  rewrite IH; [done|]. intros r x Hr. apply Hx. by right.
Qed.

Lemma delivered_frame (P : Z → Prop) m m' ch st bytes :
  changes_only P m m' → (∀ x, in_bufs (writable ch) x → ¬ P x) →
  answered m (writable ch) st bytes → delivered m' (ch, st, bytes).
Proof.
  intros Hc Hn [Hs Hh]. split; cbn [fst snd].
  - intros a l Hl Hp. rewrite <- (Hs a l Hl Hp). eapply changes_only_same; [exact Hc|]. apply Hn.
    exists (a, l). split; [by apply last_Some_elem_of|simpl; lia].
  - eapply holds_frame; [exact Hc| |done]. intros a Ha. apply Hn, in_data_bufs. by apply elem_of_buf_addrs.
Qed.

Lemma delivered_frames (P : Z → Prop) ro n m m1 m2 reqs : ∀ disk,
  changes_only P m1 m2 → (∀ x, written reqs x → ¬ P x) →
  Forall (delivered m1) (spec_requests ro n m reqs disk).1 → Forall (delivered m2) (spec_requests ro n m reqs disk).1.
Proof.
  induction reqs as [|[hd ch] reqs IH]; intros disk Hc Hn Hd; [done|]. setoid_rewrite written_cons in Hn.
  cbn [spec_requests fst] in *. apply Forall_cons in Hd as [Hd1 Hd2]. apply Forall_cons_2; [|apply IH; naive_solver].
  eapply delivered_frame; [exact Hc|naive_solver|exact Hd1].
Qed.

End request.

(** ** The handler *)

Section handler.
Context {M : Type} `{!GuestMemoryBackend M} `{!GuestMemoryLaws M} `{!GuestSlices M} `{!GuestSlicesLaws M}.
Variable torn : list Z → list Z.
Implicit Types (m : M) (w : World M).

Lemma perform_ok w as_ b disk data wr header sz :
  let out := spec_request (read_only b) (sectors b) data (length (buf_addrs (data_bufs wr))) disk in
  backend_ok b → represents b disk → files_small b → Failed ∉ as_ → Forall is_byte disk → Forall is_byte data →
  from_bytes (take 16 data) = Some header → laid_out (w_mem w) sz →
  Forall (valid_buf (w_mem w)) (data_bufs wr) → sum_lens (data_bufs wr) ≤ U64_MAX →
  ∃ st w' as' b', perform torn w as_ b header data wr = Some (st, w', as', b') ∧
    performed (read_only b) (sectors b) out wr w st w' as' b'.
Proof.
  intros out Hok Hrep Hsm Hff Hdb Hby Hhdr Hlay Hv Hsum.
  assert (0 ≤ sector header) as Hs by (eapply header_sector; [|exact Hhdr]; by apply Forall_take).
  pose proof (length_buf_addrs _ _ Hv) as Hlen. subst out. unfold spec_request, perform. rewrite Hhdr.
  assert (Hstay : ∀ st, is_byte st → performed (read_only b) (sectors b) (st, [], disk) wr w st w as_ b).
  { intros st Hst. split_and!; try done. intros _. apply holds_nil. }
  destruct (req_type header =? IN) eqn:Ei; bool_to_prop.
  { unfold writable_data_len. rewrite (fold_capacity_Some _ 0 (w_mem w)) by (done || lia).
    rewrite Z.add_0_l, <- Hlen. destruct (length (buf_addrs (data_bufs wr)) =? 0)%nat eqn:E0.
    { apply Nat.eqb_eq in E0. rewrite E0. eexists _, _, _, _. split; [done|]. by apply Hstay. }
    apply Nat.eqb_neq in E0. rewrite (proj2 (Z.eqb_neq _ _)) by lia.
    destruct (read_into_guest_ok w as_ b header wr disk sz) as (w' & as' & -> & Hff' & Ht & Hc & Hh); [done..|].
    eexists _, _, _, _. split; [done|]. set (o := spec_service _ _ _ _ _) in *.
    split_and!; try done; [apply spec_service_status|]. cbn [fst snd]. intros Hd.
    destruct (o.1.1 =? STATUS_OK) eqn:Eo; bool_to_prop; [by apply Hh|apply holds_nil]. }
  destruct (req_type header =? OUT) eqn:Eo; bool_to_prop.
  { destruct (service_ok torn b disk header (drop 16 data) Hok Hrep Hs) as (b' & -> & Hok' & Hrep' & Hro & Hse).
    eexists _, _, _, _. split; [done|]. split_and!; try done.
    - apply spec_service_status.
    - by eapply files_small_eq.
    - apply spec_service_bytes; [by apply Forall_drop|done].
    - intros _. apply holds_nil. }
  destruct (req_type header =? FLUSH) eqn:Ef; bool_to_prop.
  { destruct (service_ok torn b disk header [] Hok Hrep Hs) as (b' & -> & Hok' & Hrep' & Hro & Hse).
    destruct (spec_service_plain (read_only b) (sectors b) header [] disk (or_introl Ef)) as (Hst & Hdk & _).
    rewrite Hdk in Hrep'. cbn [fst snd]. rewrite Hst. eexists _, _, _, _. split; [done|]. split_and!; try done.
    - by eapply files_small_eq.
    - intros _. apply holds_nil. }
  destruct (req_type header =? GET_ID) eqn:Eg; bool_to_prop; cycle 1.
  { eexists _, _, _, _. split; [done|]. by apply Hstay. }
  destruct (service_ok torn b disk header (replicate 20 0) Hok Hrep Hs) as (b' & -> & Hok' & Hrep' & Hro & Hse).
  destruct (spec_service_plain (read_only b) (sectors b) header (replicate 20 0) disk (or_intror Eg)) as (Hst & Hdk & Hid).
  specialize (Hid Eg). rewrite length_replicate in Hid. set (o := spec_service _ _ _ _ _) in *.
  rewrite Hdk in Hrep'. cbn [fst snd]. rewrite Hst, Hid. change (take 20 (take 20 serial) ++ drop 20 (replicate 20 0)) with (take 20 serial).
  eexists _, _, _, _. split; [done|].
  destruct (write_data_loop_ok (take 20 serial) sz) with (bufs := data_bufs wr) (w := w) (k := 0%nat)
    as (Ht & Hc & Hh); [apply serial_bytes|done|done|done|simpl; lia|].
  split_and!; try done. by eapply files_small_eq.
Qed.

(** Requests without a limiter are not held back. *)
Lemma charge_free bytes (d : VirtioBlkMmio M) :
  rate_limiter d = None → LRateLimiter ∉ poisoned d →
  charge bytes (mkCaptured d false false) = (true, mkCaptured d false false).
Proof.
  intros Hn Hp. unfold charge, rate_limit_allows, try_lock_state, dev_bind, get, ret. cbn [c_dev c_failed c_panicked].
  rewrite decide_False by done. by rewrite Hn.
Qed.

(** One chain: the request it asks for, on the disk and in guest memory. *)
Lemma blk_handler_ok d0 ro n disk d w rds wrs sz :
  let out := spec_request ro n (bytes_at (w_mem w) (buf_addrs rds)) (length (buf_addrs (data_bufs wrs))) disk in
  rate_limiter d0 = None → LRateLimiter ∉ poisoned d0 → serving d0 ro n disk d → laid_out (w_mem w) sz →
  Forall (valid_buf (w_mem w)) rds → Forall (valid_buf (w_mem w)) wrs → sum_lens (rds ++ wrs) ≤ MAX_CHAIN_BYTES →
  ∃ w1 d1,
    blk_handler torn w (mkCaptured d false false) rds wrs =
      (w1, mkCaptured d1 false false, Some (as_u32 (Z.of_nat (length rds + length wrs)))) ∧
    serving d0 ro n out.2 d1 ∧ tracked w w1 ∧ changes_only (in_bufs wrs) (w_mem w) (w_mem w1) ∧
    (bufs_disjoint wrs → answered (w_mem w1) wrs out.1.1 out.1.2).
Proof.
  intros out Hrl Hpo (b & as_ & -> & Hok & Hrep & Hsm & <- & <- & Hff & Hdb) Hlay Hrd Hwr Hsum.
  pose proof (sum_lens_nonneg _ _ Hrd) as Hs1. pose proof (sum_lens_nonneg _ _ Hwr) as Hs2.
  rewrite sum_lens_app in Hsum. pose proof (sum_lens_data _ _ Hwr) as [Hdv Hds].
  unfold MAX_CHAIN_BYTES in Hsum. set (data := bytes_at (w_mem w) (buf_addrs rds)) in *.
  assert (Z.of_nat (length data) = sum_lens rds) as Hlen by by eapply length_bytes_at.
  assert (Forall is_byte data) as Hby by by apply bytes_at_bytes.
  unfold blk_handler. rewrite read_descs_ok by (done || unfold U64_MAX; lia). fold data.
  set (d := with_answers _ _).
  assert (Hch : ∀ k, charge k (mkCaptured d false false) = (true, mkCaptured d false false)) by (intros; by apply charge_free).
  assert (Hshort : from_bytes (take 16 data) = None ↔ Z.of_nat (length data) < 16).
  { unfold from_bytes. rewrite length_take. case_goal; bool_to_prop; split; intros; try done; lia. }
  destruct (Z.of_nat (length data) <? 16) eqn:El; bool_to_prop.
  { unfold refuse. rewrite Hch. subst out. unfold spec_request. rewrite (proj2 Hshort El). cbn [fst snd].
    destruct (answer_ok w w wrs STATUS_IO_ERR [] sz) as (Ht & Hc & Ha); [done|done|done|reflexivity|reflexivity|intros; apply holds_nil|].
    eexists _, _. split_and!; [done| |done..]. exists b, as_. done. }
  destruct (from_bytes (take 16 data)) as [header|] eqn:Ehd; [|naive_solver lia].
  destruct (request_bytes_Some header wrs (w_mem w) (Z.of_nat (length data))) as [k ->]; [done|unfold U64_MAX; lia..|].
  rewrite Hch. cbn [c_dev c_failed c_panicked]. change (backend d) with (Some b). change (answers_ d) with as_. cbn beta iota.
  destruct (perform_ok w as_ b disk data wrs header sz) as (st & w1 & as' & b' & Hpf & Hpd); [done..|unfold U64_MAX; lia|].
  rewrite Hpf. destruct Hpd as (Hst & Hsb & Ht & Hc & Hff' & Hok' & Hrep' & Hsm' & Hro & Hse & Hdb' & Hh).
  destruct (answer_ok w w1 wrs st out.1.2 sz) as (Ht2 & Hc2 & Ha); [done..|].
  eexists _, _. split_and!; [done| |done|done|by subst st]. exists b', as'. done.
Qed.

Definition captured_ok (d0 : VirtioBlkMmio M) (ro : bool) (n : Z) (h : Captured (M:=M)) : Prop :=
  ∃ disk d, h = mkCaptured d false false ∧ serving d0 ro n disk d.

Lemma blk_handler_serves d0 ro n w h rds wrs sz :
  rate_limiter d0 = None → LRateLimiter ∉ poisoned d0 →
  captured_ok d0 ro n h → laid_out (w_mem w) sz →
  Forall (valid_buf (w_mem w)) rds → Forall (valid_buf (w_mem w)) wrs →
  sum_lens (rds ++ wrs) ≤ MAX_CHAIN_BYTES →
  ∃ w1 h1 len, blk_handler torn w h rds wrs = (w1, h1, Some len) ∧ captured_ok d0 ro n h1 ∧ tracked w w1 ∧
    changes_only (in_bufs wrs) (w_mem w) (w_mem w1).
Proof.
  intros Hrl Hpo (disk & d & -> & Hs) Hlay Hrd Hwr Hsum.
  destruct (blk_handler_ok d0 ro n disk d w rds wrs sz) as (w1 & d1 & -> & Hs1 & Ht & Hc & _); [done..|].
  eexists _, _, _. split_and!; [done| |done|done]. by eexists _, _.
Qed.

(** Serving chains is doing their requests, in order. *)
Lemma serves_requests d0 ro n c sz u reqs w h lens w' h' :
  serves (blk_handler torn) c u reqs w h lens w' h' →
  rate_limiter d0 = None → LRateLimiter ∉ poisoned d0 → ∀ disk d, h = mkCaptured d false false →
  serving d0 ro n disk d → laid_out (w_mem w) sz → rings_ok c (w_mem w) → in_u16 u → requests_ok (w_mem w) reqs →
  Z.of_nat (length reqs) ≤ size c → well_separated c reqs →
  let out := spec_requests ro n (w_mem w) reqs disk in
  lens = reported <$> reqs ∧ Forall (delivered (w_mem w')) out.1 ∧
  ∃ d', h' = mkCaptured d' false false ∧ serving d0 ro n out.2 d'.
Proof.
  intros Hsv Hrl Hpo. induction Hsv as [u w h|u hd ch reqs w h w1 h1 len lens w' h' Hrun Hs IH];
    intros disk d -> Hd Hlay Hr Hu Hv Hsz Hsep out.
  { split_and!; [done|by constructor|]. by eexists. }
  apply Forall_cons in Hv as [(Hrd & Hwr & Hsum) Hv]. apply well_separated_cons in Hsep as (Hsep & Hdj & Hwx & Hrx).
  cbn [snd] in *. pose proof Hsep as ([_ Hwz] & _).
  destruct (blk_handler_ok d0 ro n disk d w (readable ch) (writable ch) sz) as (w1' & d1 & Hrun' & Hd1 & Ht1 & Hc1 & Ha1); [done..|].
  rewrite Hrun in Hrun'. injection Hrun' as <- -> ->. set (len := as_u32 _) in *.
  destruct (used_elem_reports w1 c u hd len sz) as (Ht2 & Hc2 & _);
    [by eapply tracked_laid_out|by eapply rings_ok_tracked|done|].
  set (w2 := write_mem_ w1 _ _) in *. assert (tracked w w2) as Htw by (by transitivity w1).
  assert (laid_out (w_mem w2) sz ∧ rings_ok c (w_mem w2) ∧ requests_ok (w_mem w2) reqs ∧
    Z.of_nat (length reqs) ≤ size c ∧ in_u16 (u16_wrapping_add u 1)) as (Hlay2 & Hr2 & Hv2 & Hsz2 & Hu2).
  { split_and!; [by eapply tracked_laid_out|by eapply rings_ok_tracked|by eapply requests_ok_tracked|simpl in Hsz; lia
      |apply u16_wrapping_add_range]. }
  destruct (serves_effect (blk_handler torn) (captured_ok d0 ro n)) with (c := c) (u := u16_wrapping_add u 1)
    (reqs := reqs) (w := w2) (h := mkCaptured d1 false false) (lens := lens) (w' := w') (h' := h') (sz := sz)
    as (_ & Hc3 & _); try done; [by intros; eapply blk_handler_serves|by eexists _, _|by apply Hwz|].
  destruct (IH _ d1 eq_refl Hd1) as (Hl & Hdel & d' & Hh' & Hd'); [done..|].
  rewrite (spec_requests_ext ro n (w_mem w) (w_mem w2)) in Hdel, Hd'.
  2, 3: intros r x Hin Hx; destruct (Hrx r x Hin Hx) as [Hn Hz];
    rewrite (changes_only_same _ _ _ _ Hc2) by (contradict Hz; by apply used_ring_zone);
    by eapply changes_only_same.
  split_and!; [by rewrite Hl| |by exists d']. apply Forall_cons_2; [|done].
  apply (delivered_frame (fun x => written reqs x ∨ used_zone c x) (w_mem w1)); [|naive_solver|by apply Ha1].
  eapply changes_only_trans; [|exact Hc3]. eapply changes_only_mono; [exact Hc2|].
  intros x Hx. right. by apply used_ring_zone.
Qed.

End handler.

(** ** The kick *)

(** The processor [process_queue] works with. *)
Definition queue_processor {M : Type} (d : VirtioBlkMmio M) (q : QueueState) : VirtQueueProcessor :=
  let config := queue_config_from_state q in
  set_event_idx (match processor d with
                 | None => new config
                 | Some p => update_config p config
                 end) (has_bits (t_guest_features_low (regs d)) VIRTIO_RING_F_EVENT_IDX).

(** A device in operation, attached to guest memory, whose driver has set up
    the queue and published chains up to [avail]. *)
Record attached {M : Type} `{!GuestMemoryBackend M} (d : VirtioBlkMmio M) (m : M) (q : QueueState)
    (b : BlkBackend) (avail sz : Z) : Prop := {
  k_live : is_failed d = false;
  k_locks : poisoned d = [];
  k_mem : guest_mem d = Some m;
  k_backend : backend d = Some b;
  k_queue : t_queues (regs d) !! 0%nat = Some q;
  k_ready : q_ready q && valid_size q = true;
  k_indices : in_u16 (last_avail_idx (queue_processor d q)) ∧ in_u16 (last_used_idx (queue_processor d q));
  k_laid_out : laid_out m sz;
  k_usable : queue_is_usable (queue_processor d q) m = true;
  k_event : event_idx (queue_processor d q) = true →
    gm_check_range m (q_used_ring_addr q + (4 + q_size q * 8)) 2 = true;
  k_avail : read_avail_idx m (q_avail_ring_addr q) = Some avail;
}.

(** Moreover, nothing holds requests back, the backend is in order and the
    driver keeps what it publishes apart. *)
Record kickable {M : Type} `{!GuestMemoryBackend M} (d : VirtioBlkMmio M) (m : M) (q : QueueState)
    (b : BlkBackend) (disk : list Z) (avail sz : Z) : Prop := {
  k_attached : attached d m q b avail sz;
  k_free : rate_limiter d = None;
  k_ok : backend_ok b;
  k_disk : represents b disk;
  k_small : files_small b;
  k_answers : Failed ∉ answers_ d;
  k_bytes : Forall is_byte disk;
  k_count : u16_wrapping_sub avail (last_avail_idx (queue_processor d q)) ≤ q_size q;
  k_separated : well_separated (queue_config_from_state q) (pending m (queue_processor d q) avail);
}.

(** After the kick: the requests are done on the disk, in order, their answers
    are in guest memory, and the used ring lists them. *)
Record kicked {M : Type} `{!GuestMemoryBackend M} (d : VirtioBlkMmio M) (m : M) (q : QueueState)
    (b : BlkBackend) (disk : list Z) (avail : Z) (d' : VirtioBlkMmio M) (m' : M) (b' : BlkBackend) : Prop := {
  kd_mem : guest_mem d' = Some m';
  kd_backend : backend d' = Some b';
  kd_ok : backend_ok b' ∧ read_only b' = read_only b ∧ sectors b' = sectors b;
  kd_disk : represents b' (spec_requests (read_only b) (sectors b) m (pending m (queue_processor d q) avail) disk).2;
  kd_answers : Forall (delivered m')
    (spec_requests (read_only b) (sectors b) m (pending m (queue_processor d q) avail) disk).1;
  kd_entries : ∀ (j : nat) r, pending m (queue_processor d q) avail !! j = Some r →
    gm_read_slice m' (used_slot_addr (queue_config_from_state q)
      (u16_wrapping_add (last_used_idx (queue_processor d q)) (Z.of_nat j))) 8 =
    Some (encode_used_elem r.1 (reported r));
  kd_used : read_u16 m' (q_used_ring_addr q + 2) =
    Some (u16_wrapping_add (last_used_idx (queue_processor d q))
      (Z.of_nat (length (pending m (queue_processor d q) avail))));
  kd_confined : changes_only (fun x => written (pending m (queue_processor d q) avail) x ∨
    used_zone (queue_config_from_state q) x) m m';
  kd_tracked : tracked (mkWorld m (host_dirty d)) (mkWorld m' (host_dirty d'));
  kd_processor : ∃ p', processor d' = Some p' ∧ last_avail_idx p' = avail ∧
    regs d' = (if (0 <? Z.of_nat (length (pending m (queue_processor d q) avail))) &&
                  needs_notification p' m' (last_used_idx (queue_processor d q))
               then bump_irq (raise (regs d)) else regs d);
}.

Lemma try_lock_free {M : Type} (l : Lock) (d : VirtioBlkMmio M) : poisoned d = [] → try_lock_state l d = Some (Ok tt, d).
Proof. intros Hp. unfold try_lock_state. by rewrite Hp. Qed.

Section kick.
#[local] Arguments spec_requests : simpl never.
Context {M : Type} `{!GuestMemoryBackend M} `{!GuestMemoryLaws M} `{!GuestSlices M} `{!GuestSlicesLaws M}.
Variable torn : list Z → list Z.

(** The pass itself. *)
Lemma run_pass_ok rounds d m p b disk avail sz :
  let c := config p in
  let reqs := pending m p avail in
  let out := spec_requests (read_only b) (sectors b) m reqs disk in
  let p' := set_indices p avail (u16_wrapping_add (last_used_idx p) (Z.of_nat (length reqs))) in
  poisoned d = [] → rate_limiter d = None → serving d (read_only b) (sectors b) disk d →
  in_u16 (last_avail_idx p) → in_u16 (last_used_idx p) → laid_out m sz → queue_is_usable p m = true →
  (event_idx p = true → gm_check_range m (used_ring_addr c + (4 + size c * 8)) 2 = true) →
  read_avail_idx m (avail_ring_addr c) = Some avail →
  u16_wrapping_sub avail (last_avail_idx p) ≤ size c → well_separated c reqs →
  ∃ d1 w', run_pass torn (S rounds) m p d = Some (Ok (Z.of_nat (length reqs), false, p'),
      with_processor (with_host_dirty (with_guest_mem d1 (Some (w_mem w'))) (w_dirty w')) (Some p')) ∧
    serving d (read_only b) (sectors b) out.2 d1 ∧ Forall (delivered (w_mem w')) out.1 ∧
    (∀ (j : nat) r, reqs !! j = Some r →
      gm_read_slice (w_mem w') (used_slot_addr c (u16_wrapping_add (last_used_idx p) (Z.of_nat j))) 8 =
      Some (encode_used_elem r.1 (reported r))) ∧
    read_u16 (w_mem w') (used_ring_addr c + 2) = Some (last_used_idx p') ∧
    changes_only (fun x => written reqs x ∨ used_zone c x) m (w_mem w') ∧
    tracked (mkWorld m (host_dirty d)) w'.
Proof.
  intros c reqs out p' Hpo Hrl Hsv Hla Hlu Hlay Hus Hev Hav Hsz Hsep.
  assert (LRateLimiter ∉ poisoned d) as Hpr by (rewrite Hpo; set_solver).
  destruct (descriptors_pass_reports (blk_handler torn) (captured_ok d (read_only b) (sectors b))) with
    (fuel := rounds) (q := p) (w := mkWorld m (host_dirty d)) (h := mkCaptured d false false) (sz := sz) (avail := avail)
    as (lens & w1 & w' & h' & Hp & Hs & Hv & Hr & Hcnt & Ht & Hz & Hc & Hu & Hent); try done.
  { intros. by eapply blk_handler_serves. }
  { apply Hsep. }
  { by eexists _, _. }
  change (w_mem (mkWorld m (host_dirty d))) with m in *. fold c in Hs, Hz, Hc, Hu, Hent. fold reqs in Hp, Hs, Hc, Hu, Hent.
  destruct (serves_requests torn d (read_only b) (sectors b) c sz _ _ _ _ _ _ _ Hs Hrl Hpr disk d)
    as (-> & Hdel & d1 & -> & Hd1); [done..|].
  exists d1, w'. unfold run_pass. rewrite Hp. cbn [c_panicked c_failed c_dev]. split_and!; try done.
  - eapply delivered_frames; [exact Hz| |done]. intros x Hx. destruct Hsep as ([_ Hap] & _). by apply (Hap x Hx).
  - intros j r Hj. apply (Hent j r); [done|]. by rewrite list_lookup_fmap, Hj.
Qed.

(** The end of [process_queue]: the interrupt, when the driver asked for one. *)
Lemma interrupt_ok count p old m d :
  let fire := (0 <? count) && needs_notification p m old in
  poisoned d = [] → is_failed d = false → guest_mem d = Some m →
  (do* (if 0 <? count then
          let* d := get in
          if from_option (fun m => needs_notification p m old) false (guest_mem d)
          then trigger_interrupt else ret tt
        else ret tt) in
   let* d := get in
   if false || is_failed d then fail DeviceRejected else ret tt) d =
  Some (Ok tt, if fire then on_regs bump_irq (on_regs raise d) else d).
Proof.
  intros fire Hpo Hf Hm. subst fire.
  assert (is_failed (on_regs bump_irq (on_regs raise d)) = is_failed d) as Hf2 by done.
  unfold trigger_interrupt. destruct (0 <? count) eqn:E; cbn [andb]; unfold dev_bind, get, ret, modify.
  2: { by rewrite Hf. }
  rewrite Hm. cbn [from_option]. destruct (needs_notification p m old); [|by rewrite Hf].
  rewrite try_lock_free by done. by rewrite Hf2, Hf.
Qed.

Lemma queue_processor_config (d : VirtioBlkMmio M) q : config (queue_processor d q) = queue_config_from_state q.
Proof. unfold queue_processor. by destruct (processor d). Qed.

(** From the registers to the pass and back. *)
Lemma process_queue_runs rounds d m q b avail sz count p' d2 m' :
  let p := queue_processor d q in
  let fire := (0 <? count) && needs_notification p' m' (last_used_idx p) in
  attached d m q b avail sz →
  run_pass torn rounds m p (with_processor d (Some p)) = Some (Ok (count, false, p'), d2) →
  poisoned d2 = [] → is_failed d2 = false → guest_mem d2 = Some m' →
  process_queue torn rounds d = Some (Ok tt, if fire then on_regs bump_irq (on_regs raise d2) else d2).
Proof.
  intros p fire [] Hrun Hpo Hf Hm. set (d0 := with_processor d (Some p)) in *.
  assert (Hl : ∀ l, try_lock_state l d = Some (Ok tt, d)) by (intros; by apply try_lock_free).
  unfold process_queue. rewrite (dev_bind_ok _ _ _ tt d) by (unfold ensure_operational, dev_bind, get; by rewrite k_live0).
  rewrite (dev_bind_ok _ _ _ tt d), (dev_bind_ok _ _ _ d d) by done. rewrite k_mem0.
  rewrite (dev_bind_ok _ _ _ tt d), (dev_bind_ok _ _ _ tt d) by done.
  destruct (t_queues (regs d)) as [|q' qs]; [done|]. injection k_queue0 as ->. rewrite <- negb_andb, k_ready0. cbn [negb].
  rewrite (dev_bind_ok _ _ _ tt d) by done. fold (queue_processor d q). fold p.
  rewrite (dev_bind_ok _ _ _ tt d0), (dev_bind_ok _ _ _ tt d0) by (done || by apply try_lock_free).
  rewrite k_backend0, (dev_bind_ok _ _ _ _ _ Hrun). by apply interrupt_ok.
Qed.

(** The notify register leads to [process_queue]. *)
Lemma notify_runs rounds raw d :
  is_failed d = false →
  mmio_write torn rounds reg.QUEUE_NOTIFY raw d = process_queue torn rounds (on_regs count_notify d).
Proof. intros Hf. unfold mmio_write. rewrite (dev_bind_ok _ _ _ d d) by done. by rewrite Hf. Qed.

Lemma attached_notified d m q b avail sz : attached d m q b avail sz → attached (on_regs count_notify d) m q b avail sz.
Proof. intros []. by split. Qed.

(** C1: A kick of the block device does what the driver asked for. On a device
    in operation, whose driver has published chains up to the available index
    and keeps rings and buffers apart, a write to the notify register
    succeeds, with and without event indices, however often the ring is looked
    at again: the disk afterwards is the flat disk after the requests of all
    pending chains, in order; the guest finds each status byte and all data
    read in its buffers, an entry for each chain in the used ring, and the
    used index; nothing else in guest memory changes, every change is tracked,
    and the interrupt is raised exactly when there is something to report and
    the driver wants to know. *)
Theorem blk_kick_serves rounds raw d m q b disk avail sz :
  kickable d m q b disk avail sz →
  ∃ d' m' b', mmio_write torn (S rounds) reg.QUEUE_NOTIFY raw d = Some (Ok tt, d') ∧
    kicked (on_regs count_notify d) m q b disk avail d' m' b'.
Proof.
  intros [Hat]. pose proof (k_live _ _ _ _ _ _ Hat) as Hlive. rewrite notify_runs by done.
  apply attached_notified in Hat. set (d1 := on_regs count_notify d) in *. pose proof Hat as [].
  set (p := queue_processor d1 q) in *. pose proof (queue_processor_config d1 q) as Hcfg. fold p in Hcfg.
  change (queue_processor d q) with p in *. rewrite <- Hcfg in k_separated0. set (d0 := with_processor d1 (Some p)).
  assert (serving d0 (read_only b) (sectors b) disk d0) as Hsv.
  { exists b, (answers_ d). split_and!; try done. destruct d; simpl in *; by subst. }
  destruct (run_pass_ok rounds d0 m p b disk avail sz) as (d2 & w' & Hrun & Hd2 & Hdel & Hent & Hused & Hch & Ht);
    try done; try apply k_indices0; rewrite ?Hcfg; try done.
  destruct Hd2 as (b' & as' & -> & Hok & Hrep & _ & Hro & Hse & _).
  eexists _, (w_mem w'), b'. split; [by eapply (process_queue_runs _ _ _ _ _ _ _ _ _ _ (w_mem w') Hat Hrun)|].
  fold p. set (fire := _ && _). set (p' := set_indices p _ _) in *. rewrite Hcfg in *. split; try (by destruct fire).
  exists p'. split_and!; [by destruct fire|done|]. fold p. change (last_used_idx (queue_processor _ q)) with (last_used_idx p).
  fold fire. by destruct fire.
Qed.

End kick.

(** ** An instance *)

#[export] Instance byte_map_slices : GuestSlices (gmap Z Z) :=
  fun m a n => if (n =? 0) || gm_check_range m a n then Some [mkIov a (Z.to_nat n)] else None.

#[export] Instance byte_map_slices_laws : GuestSlicesLaws (gmap Z Z).
Proof.
  intros m a n Hn Hr. exists [mkIov a (Z.to_nat n)]. unfold gm_slices, byte_map_slices. split.
  - destruct Hr as [-> | ->]; [done|]. by rewrite orb_true_r.
  - unfold addrs. simpl. rewrite app_nil_r. f_equal. lia.
Qed.

(** A driver that asks for the serial number, with event indices. *)
Module ExampleKick.

Definition queue : QueueState := mkQueue 4 0 64 96 true.
Definition mem : gmap Z Z :=
  ByteMap.store (ByteMap.store (ByteMap.store (ByteMap.zeros 0 256) 0
    (ExampleQueue.encode_desc (mkDesc 144 16 NEXT 1) ++ ExampleQueue.encode_desc (mkDesc 160 20 (NEXT + WRITE) 2) ++
     ExampleQueue.encode_desc (mkDesc 200 1 WRITE 0)))
    64 [0; 0; 1; 0; 0; 0]) 144 [8].
Definition chain : DescriptorChain := mkChain [(144, 16)] [(160, 20); (200, 1)] 3.
Definition backend : BlkBackend := mkBackend (Cow (ExampleCow.cow None)) false 2.
Definition device : VirtioBlkMmio (gmap Z Z) :=
  with_guest_mem (on_regs (fun t => with_guest_features_low (with_queues t [queue]) VIRTIO_RING_F_EVENT_IDX)
    (blk_new 5 backend [] (fun _ => 0))) (Some mem).

Lemma laid_out_mem : laid_out mem 256.
Proof.
  split; [lia|]. intros a Ha. unfold mem.
  rewrite !store_check by (vm_compute; reflexivity). rewrite bm_zeros_check by (unfold U64_MAX; lia).
  split; [intros ?; exists a|intros [o Ho]; revert Ho]; rewrite gpa_to_offset_Some by lia;
    unfold MMIO_GAP_START, MMIO_GAP_END; lia.
Qed.

Lemma pending_mem : pending mem (queue_processor device queue) 1 = [(0, chain)].
Proof. vm_compute. reflexivity. Qed.

Lemma done_mem :
  spec_requests false 2 mem [(0, chain)] ExampleCow.base = ([(chain, STATUS_OK, take 20 serial)], ExampleCow.base).
Proof. vm_compute. reflexivity. Qed.

Lemma written_mem x : written [(0, chain)] x ↔ 160 ≤ x < 180 ∨ x = 200.
Proof.
  unfold written, in_bufs. split.
  - intros (r & ->%list_elem_of_singleton & b & Hb & Hx). cbn in Hb.
    apply elem_of_cons in Hb as [-> | ->%list_elem_of_singleton]; simpl in Hx; lia.
  - intros Hx. exists (0, chain). split; [set_solver|]. destruct Hx as [Hx | ->].
    + exists (160, 20). split; [by left|simpl; lia].
    + exists (200, 1). split; [right; by left|simpl; lia].
Qed.

Lemma separated_mem : well_separated (queue_config_from_state queue) (pending mem (queue_processor device queue) 1).
Proof.
  rewrite pending_mem. unfold well_separated, rings_apart, used_zone, table_or_avail. setoid_rewrite written_mem. cbn.
  split_and!; try (intros; lia).
  - intros x Hx (b & ->%list_elem_of_singleton & Hb). simpl in Hb. lia.
  - intros x Hx (b & []%not_elem_of_nil & _).
  - intros r x ->%list_elem_of_singleton (b & ->%list_elem_of_singleton & Hx). simpl in Hx. lia.
Qed.

Lemma attached_mem : attached device mem queue backend 1 256.
Proof.
  split.
  1-6: reflexivity.
  - unfold in_u16. vm_compute. split_and!; discriminate.
  - exact laid_out_mem.
  - vm_compute. reflexivity.
  - intros _. vm_compute. reflexivity.
  - vm_compute. reflexivity.
Qed.

Lemma ready : kickable device mem queue backend ExampleCow.base 1 256.
Proof.
  split; [exact attached_mem|reflexivity|..].
  - split_and!; [done|vm_compute; done|split; [apply ExampleCow.ok|done]].
  - split; [done|]. intros o Ho. unfold dev_byte, view, cow_byte. cbn [storage backend].
    rewrite decide_False by apply not_marked_zeros. done.
  - split; [vm_compute; discriminate|]. intros h [= <-]. vm_compute. discriminate.
  - set_solver.
  - apply Forall_replicate. done.
  - vm_compute. discriminate.
  - exact separated_mem.
Qed.


End ExampleKick.

Lemma blk_kick_serves_witness :
  ∃ d' m' b', mmio_write (fun d => d) 1 reg.QUEUE_NOTIFY 0 ExampleKick.device = Some (Ok tt, d') ∧
    backend d' = Some b' ∧ represents b' ExampleCow.base ∧
    Forall (delivered m') [(ExampleKick.chain, STATUS_OK, take 20 serial)].
Proof.
  destruct (blk_kick_serves (fun d => d) 0 0 ExampleKick.device ExampleKick.mem ExampleKick.queue ExampleKick.backend
    ExampleCow.base 1 256 ExampleKick.ready) as (d' & m' & b' & Hrun & Hk).
  exists d', m', b'. destruct Hk as [_ Hb _ Hd Ha _ _ _ _ _].
  change (queue_processor (on_regs count_notify ExampleKick.device) ExampleKick.queue) with
    (queue_processor ExampleKick.device ExampleKick.queue) in Hd, Ha. rewrite ExampleKick.pending_mem in Hd, Ha.
  change (read_only ExampleKick.backend) with false in Hd, Ha. change (sectors ExampleKick.backend) with 2 in Hd, Ha.
  rewrite ExampleKick.done_mem in Hd, Ha. exact (conj Hrun (conj Hb (conj Hd Ha))).
Defined.
