(* ===== verification/BlkLimit.v ===== *)
(** * Requests held back by the rate limiter

    A handler that answers [None] stops a pass before its chain is taken from
    the available ring. When the limiter of the block device has no tokens, a
    kick leaves every pending chain pending, the disk and the used ring as
    they were, and no interrupt: the chains are there for the next kick. *)

From S2P Require Import Prelude Dirty GuestMem GuestRam VQueue VQueueWalk VQueueRun VQueuePeek VQueueServe GuestBufs.
From S2P Require Import RateLimit Bus Regs Dev Cow CowOpen Blk BlkIov Transport BlkDev BlkBufs BlkKick.

Section refused.
Context {M H : Type} `{!GuestMemoryBackend M} `{!GuestMemoryLaws M}.
Variable handler : World M → H → list (Z * Z) → list (Z * Z) → World M * H * option Z.
Implicit Types (m : M) (w : World M) (q : VirtQueueProcessor).

(** The state [h] in which the handler refuses the next chain, and the state
    it is in once it has. *)
Variables h h1 : H.
Hypothesis refuses : ∀ w rds wrs, handler w h rds wrs = (w, h1, None).

(** The loop skips chains it cannot read and stops at the first other one. *)
Lemma descriptors_loop_refused avail w n fuel : ∀ q,
  rings_ok (config q) (w_mem w) → in_u16 avail → in_u16 (last_avail_idx q) →
  Z.to_nat (u16_wrapping_sub avail (last_avail_idx q)) = fuel →
  ∃ la h' stopped, descriptors_loop handler fuel avail q w h n =
      Some (set_indices q la (last_used_idx q), w, h', n, stopped) ∧ in_u16 la ∧
    pending (w_mem w) (set_indices q la (last_used_idx q)) avail = pending (w_mem w) q avail ∧
    (h' = h ∨ h' = h1) ∧ (stopped = false → la = avail).
Proof.
  induction fuel as [|fuel IH]; intros q Hr Ha Hla Hf; cbn [descriptors_loop];
    destruct (last_avail_idx q =? avail) eqn:E; bool_to_prop.
  1, 3: exists (last_avail_idx q), h, false; split_and!; try done; [by destruct q|by left].
  { pose proof (u16_wrapping_sub_range avail (last_avail_idx q)) as [? _].
    destruct E. symmetry. apply u16_wrapping_sub_0_iff; [done..|]. lia. }
  assert (avail ≠ last_avail_idx q) as E' by done. pose proof (u16_wrapping_sub_succ _ _ Ha Hla E') as Hsuc.
  pose proof (u16_wrapping_sub_range avail (last_avail_idx q)) as [? _].
  destruct (avail_entry_ok q (w_mem w)) as [Hae Hca]; [done|]. rewrite Hae.
  destruct (read_u16_ok _ _ Hca) as (hd & Hhd & Hhr). rewrite Hhd.
  destruct (walk_descriptor_chain (config q) (w_mem w) hd) as [ch|] eqn:Ew.
  { rewrite refuses. exists (last_avail_idx q), h1, true. split_and!; try done; [by destruct q|by right]. }
  destruct (IH (reject_available_chain q)) as (la & h' & st & -> & Hu & Hp & Hh & Hs);
    [done|done|apply u16_wrapping_add_range|simpl; lia|].
  exists la, h', st. split_and!; try done.
  etransitivity; [exact Hp|]. unfold pending. cbn [config last_avail_idx reject_available_chain set_indices]. rewrite Hsuc, Hf.
  replace (Z.to_nat (u16_wrapping_sub avail (last_avail_idx q) - 1)) with fuel by lia. cbn [published].
  rewrite Hhd. unfold requests at 2. cbn [omap list_omap]. by rewrite Ew.
Qed.

Lemma pending_stable m m' q avail :
  rings_ok (config q) m → (∀ x n, gm_check_range m' x n = gm_check_range m x n) →
  changes_only (fun x => ¬ table_or_avail (config q) x) m m' → pending m' q avail = pending m q avail.
Proof.
  intros Hr Hck Hc. unfold pending. set (n := Z.to_nat _). generalize (last_avail_idx q).
  assert (rings_ok (config q) m') as Hr' by (unfold rings_ok; by rewrite !Hck).
  induction n as [|n IH]; intros from; [done|]. cbn [published].
  destruct (avail_entry_ok (new_with_indices (config q) from 0) m Hr) as [_ Hca]. cbn [new_with_indices config last_avail_idx] in Hca.
  destruct (read_u16_ok _ _ Hca) as (hd & Hhd & Hhr). rewrite Hhd.
  assert (read_u16 m' (avail_slot_addr (config q) from) = Some hd) as ->.
  { rewrite <- Hhd. unfold read_u16. f_equal. eapply read_outside; [done|exact Hc|].
    pose proof (slot_range _ _ from Hr). intros x Hx Hn. apply Hn. right. unfold avail_slot_addr in Hx. lia. }
  unfold requests in *. cbn [omap list_omap]. rewrite (walk_stable _ m m') by (done || apply Hhr).
  destruct (walk_descriptor_chain _ _ _); cbn [fmap option_fmap option_map]; [f_equal|]; apply IH.
Qed.

(** A pass that the handler stops at its first chain. *)
Lemma descriptors_pass_refused fuel q w sz avail :
  let c := config q in
  let event := used_ring_addr c + (4 + size c * 8) in
  laid_out (w_mem w) sz → in_u16 (last_avail_idx q) → in_u16 (last_used_idx q) →
  queue_is_usable q (w_mem w) = true → (∀ x, used_zone c x → ¬ table_or_avail c x) →
  (event_idx q = true → gm_check_range (w_mem w) event 2 = true) →
  read_avail_idx (w_mem w) (avail_ring_addr c) = Some avail →
  ∃ la h' w',
    process_queue_descriptors_dirty handler (S fuel) q w h = Some (set_indices q la (last_used_idx q), w', h', 0) ∧
    in_u16 la ∧ pending (w_mem w') (set_indices q la (last_used_idx q)) avail = pending (w_mem w) q avail ∧
    (h' = h ∨ h' = h1) ∧ tracked w w' ∧
    changes_only (fun x => used_ring_addr c + 2 ≤ x < used_ring_addr c + 4 ∨ event ≤ x < event + 2)
      (w_mem w) (w_mem w') ∧
    read_u16 (w_mem w') (used_ring_addr c + 2) = Some (last_used_idx q).
Proof.
  intros c event Hlay Hla Hlu Hus Hz Hev Hav. pose proof (queue_is_usable_rings _ _ Hus) as Hr. fold c in Hr.
  destruct (read_avail_idx_ok _ _ Hr) as (avail' & Hav' & Ha). rewrite Hav in Hav'. injection Hav' as <-.
  destruct (descriptors_loop_refused avail w 0 _ q Hr Ha Hla eq_refl) as (la & h' & st & Hp & Hu & Hpe & Hh & Hs).
  destruct (descriptors_outer_end handler fuel q w h 0 (set_indices q la (last_used_idx q)) w h' 0 st sz avail)
    as (w' & Ho & Ht & Hc & Hrd); try done. cbn [set_indices config] in Hc, Hrd. fold c in Hc, Hrd.
  exists la, h', w'. unfold process_queue_descriptors_dirty. rewrite Hus. cbn [negb]. split_and!; try done.
  rewrite <- Hpe. apply pending_stable; [done|apply Ht|]. eapply changes_only_mono; [exact Hc|].
  intros x Hx. apply Hz. unfold used_zone. destruct Hr as (? & _). subst event. simpl in Hx. lia.
Qed.

End refused.

(** ** The block device *)

Section limit.
Context {M : Type} `{!GuestMemoryBackend M} `{!GuestMemoryLaws M} `{!GuestSlices M}.
Variable torn : list Z → list Z.

(** The limiter has no token for any request when it is asked next. *)
Definition exhausted (d : VirtioBlkMmio M) (rl rl' : RateLimiter.t) : Prop :=
  rate_limiter d = Some rl ∧ ∀ bytes, RateLimiter.try_charge_at rl 1 bytes (clock d (ticks d)) = (false, rl').

Lemma charge_exhausted bytes d rl rl' :
  poisoned d = [] → exhausted d rl rl' →
  charge bytes (mkCaptured d false false) =
    (false, mkCaptured (with_ticks (with_rate_limiter d (Some rl')) (S (ticks d))) false false).
Proof.
  intros Hp [Hrl Hch]. unfold charge, rate_limit_allows. cbn [c_dev c_failed c_panicked].
  rewrite (dev_bind_ok _ _ _ tt d) by by apply try_lock_free. rewrite (dev_bind_ok _ _ _ d d) by done.
  by rewrite Hrl, Hch.
Qed.

(** Whatever the chain asks for, the device asks the limiter first. *)
Lemma blk_handler_exhausted d rl rl' w rds wrs :
  poisoned d = [] → exhausted d rl rl' →
  blk_handler torn w (mkCaptured d false false) rds wrs =
    (w, mkCaptured (with_ticks (with_rate_limiter d (Some rl')) (S (ticks d))) false false, None).
Proof.
  intros Hp He. unfold blk_handler, refuse.
  repeat case_match; simplify_eq; rewrite ?(charge_exhausted _ _ _ _ Hp He) in *; simplify_eq; done.
Qed.

(** C25: A request the rate limiter holds back stays in the queue. When the
    limiter has no token, a write to the notify register succeeds; whatever
    the published chains ask for, the same chains are pending afterwards, the
    backend and the used index are as they were, guest memory changes in the
    used index and the event word alone, and no interrupt is raised. *)
Theorem blk_throttled_stays_queued rounds raw d m q b rl rl' avail sz :
  let c := queue_config_from_state q in
  attached d m q b avail sz → exhausted d rl rl' → (∀ x, used_zone c x → ¬ table_or_avail c x) →
  ∃ d' m' p', mmio_write torn (S rounds) reg.QUEUE_NOTIFY raw d = Some (Ok tt, d') ∧
    guest_mem d' = Some m' ∧ backend d' = Some b ∧ processor d' = Some p' ∧
    pending m' p' avail = pending m (queue_processor d q) avail ∧
    last_used_idx p' = last_used_idx (queue_processor d q) ∧
    read_u16 m' (used_ring_addr c + 2) = Some (last_used_idx p') ∧
    changes_only (fun x => used_ring_addr c + 2 ≤ x < used_ring_addr c + 4 ∨
      used_ring_addr c + (4 + size c * 8) ≤ x < used_ring_addr c + (4 + size c * 8) + 2) m m' ∧
    regs d' = count_notify (regs d).
Proof.
  intros c Hat He Hz. pose proof (k_live _ _ _ _ _ _ Hat) as Hlive. rewrite notify_runs by done.
  apply attached_notified in Hat. set (d1 := on_regs count_notify d) in *. pose proof Hat as [].
  set (p := queue_processor d1 q) in *. pose proof (queue_processor_config d1 q) as Hcfg. fold p c in Hcfg.
  destruct k_indices as [Hi1 Hi2]. change (queue_processor d q) with p. set (d0 := with_processor d1 (Some p)).
  destruct (descriptors_pass_refused (blk_handler torn) (mkCaptured d0 false false)
    (mkCaptured (with_ticks (with_rate_limiter d0 (Some rl')) (S (ticks d0))) false false)) with
    (fuel := rounds) (q := p) (w := mkWorld m (host_dirty d0)) (sz := sz) (avail := avail)
    as (la & h' & w' & Hp & Hu & Hpe & Hh & Ht & Hch & Hrd); rewrite ?Hcfg in *; try done.
  { intros. by apply (blk_handler_exhausted _ rl). }
  set (p' := set_indices p la _) in *.
  assert (Hrun : run_pass torn (S rounds) m p d0 = Some (Ok (0, false, p'),
    with_processor (with_host_dirty (with_guest_mem (c_dev h') (Some (w_mem w'))) (w_dirty w')) (Some p'))).
  { unfold run_pass. rewrite Hp. by destruct Hh as [-> | ->]. }
  eexists _, (w_mem w'), p'. split.
  - eapply (process_queue_runs torn _ _ _ _ _ _ _ _ _ _ (w_mem w') Hat Hrun); by destruct Hh as [-> | ->].
  - cbn [andb Z.ltb Z.compare]. split_and!; try done; by destruct Hh as [-> | ->].
Qed.

End limit.

(** A limiter of one operation a second whose token is spent. *)
Definition spent : RateLimiter.t := RateLimiter.mk (TokenBucket.mk 1 1 0 0) (TokenBucket.new 512 512).

Lemma blk_throttled_stays_queued_witness :
  let d := with_rate_limiter ExampleKick.device (Some spent) in
  ∃ d' m' p', mmio_write (fun d => d) 1 reg.QUEUE_NOTIFY 0 d = Some (Ok tt, d') ∧
    backend d' = Some ExampleKick.backend ∧ pending m' p' 1 = [(0, ExampleKick.chain)].
Proof.
  intros d.
  destruct (blk_throttled_stays_queued (fun d => d) 0 0 d ExampleKick.mem ExampleKick.queue ExampleKick.backend
    spent spent 1 256) as (d' & m' & p' & Hrun & _ & Hb & _ & Hp & _).
  - destruct ExampleKick.attached_mem. split; assumption.
  - split; [reflexivity|]. intros bytes. reflexivity.
  - exact (proj1 (proj1 ExampleKick.separated_mem)).
  - exists d', m', p'. rewrite <- ExampleKick.pending_mem. exact (conj Hrun (conj Hb Hp)).
Defined.
