(* ===== verification/BlkSnap.v ===== *)
(** * Snapshot and restore of the block device

    What a snapshot leaves out of the processor, its view of the queue and the
    event index setting, is set again before every pass, and the block device
    never peeks. So the device a snapshot is restored to answers every
    sequence of register accesses as the saved one would have. *)

From S2P Require Import Prelude Dirty GuestMem GuestRam VQueue VQueueWalk VQueueRun VQueuePeek VQueueServe GuestBufs.
From S2P Require Import RateLimit Bus Regs Dev Cow CowOpen Blk BlkIov Transport BlkDev BlkBufs BlkKick.

(** ** Chains set aside *)

Section peeked.
Context {M H : Type} `{!GuestMemoryBackend M}.
Variable handler : World M → H → list (Z * Z) → list (Z * Z) → World M * H * option Z.

(** A pass over descriptors leaves the peeked chains alone. *)
Lemma descriptors_loop_peeked fuel : ∀ avail q w h n q' w' h' n' st,
  descriptors_loop handler fuel avail q w h n = Some (q', w', h', n', st) → peeked q' = peeked q.
Proof.
  induction fuel as [|fuel IH]; intros avail q w h n q' w' h' n' st; cbn [descriptors_loop];
    (case_goal; [by intros [= <- _ _ _ _]|]); [done|].
  destruct (match avail_entry_addr q with Some a => _ | None => _ end) as [hd|]; [|by intros [= <- _ _ _ _]].
  destruct (walk_descriptor_chain _ _ _) as [ch|]; [|intros Hx; by apply IH in Hx].
  destruct (handler _ _ _ _) as [[w1 h1] [len|]]; [|by intros [= <- _ _ _ _]].
  destruct (used_entry_addr q); [|by intros [= <- _ _ _ _]]. intros Hx. by apply IH in Hx.
Qed.

Lemma descriptors_outer_peeked fuel : ∀ q w h n q' w' h' n',
  descriptors_outer handler fuel q w h n = Some (q', w', h', n') → peeked q' = peeked q.
Proof.
  induction fuel as [|fuel IH]; intros q w h n q' w' h' n'; cbn [descriptors_outer]; [done|].
  destruct (read_avail_idx _ _) as [avail|]; [|by intros [= <- _ _ _]].
  destruct (descriptors_loop _ _ _ _ _ _ _) as [[[[[q1 w1] h1] n1] st]|] eqn:Hl; [|done].
  apply descriptors_loop_peeked in Hl. intros Hx. rewrite <- Hl. revert Hx.
  case_goal; [by intros [= <- _ _ _]|]. destruct st; [by intros [= <- _ _ _]|].
  destruct (match avail_idx_addr q1 with Some a => _ | None => _ end); [|by intros [= <- _ _ _]].
  case_goal; [apply IH|by intros [= <- _ _ _]].
Qed.

Lemma descriptors_dirty_peeked fuel q w h q' w' h' n' :
  process_queue_descriptors_dirty handler fuel q w h = Some (q', w', h', n') → peeked q' = peeked q.
Proof. unfold process_queue_descriptors_dirty. case_goal; [by intros [= <- _ _ _]|apply descriptors_outer_peeked]. Qed.

End peeked.

(** ** Devices that cannot be told apart *)

(** Nothing is set aside. *)
Definition unpeeked {M : Type} (d : VirtioBlkMmio M) : Prop := from_option (fun p => peeked p = []) True (processor d).

(** The same device, or one that differs in what the next pass sets again. *)
Definition same_device {M : Type} (d d' : VirtioBlkMmio M) : Prop :=
  d' = d ∨ ∃ p p', processor d = Some p ∧ d' = with_processor d (Some p') ∧
    save_state p' = save_state p ∧ peeked p = [] ∧ peeked p' = [].

Section same.
Context {M : Type} `{!GuestMemoryBackend M} `{!GuestSlices M}.
Variable torn : list Z → list Z.
Implicit Types d : VirtioBlkMmio M.

(** A step that neither reads nor sets the processor. *)
Lemma same_step (f : VirtioBlkMmio M → VirtioBlkMmio M) :
  (∀ d p, processor (f d) = processor d ∧ f (with_processor d p) = with_processor (f d) p) →
  ∀ d d', same_device d d' → same_device (f d) (f d').
Proof.
  intros Hf d d' [-> | (p & p' & Hp & -> & Hs)]; [by left|]. right. exists p, p'.
  destruct (Hf d (Some p')) as [Hp1 Hf1]. by rewrite Hp1.
Qed.

Lemma same_on_regs f d d' : same_device d d' → same_device (on_regs f d) (on_regs f d').
Proof. by apply same_step. Qed.

Lemma respects_try_lock l : respects (E:=MmioError) same_device (try_lock_state (M:=M) l).
Proof.
  intros d d' Hs. assert (poisoned d' = poisoned d) as Hp by by destruct Hs as [-> | (?&?&?&->&_)].
  unfold try_lock_state. rewrite Hp. case_decide; (split; [done|]); [by apply same_on_regs|done].
Qed.

Lemma respects_lock l : respects (E:=MmioError) same_device (lock_state (M:=M) l).
Proof.
  apply respects_modify, (same_step (fun d => if decide (l ∈ poisoned d) then fail_device d else d)).
  intros d p. simpl. by case_decide.
Qed.

(** What the next pass works with does not differ. *)
Lemma queue_processor_same d d' q : same_device d d' → queue_processor d' q = queue_processor d q.
Proof.
  intros [-> | (p & p' & Hp & -> & Hs & H1 & H2)]; [done|]. unfold queue_processor. rewrite Hp. cbn [processor with_processor].
  unfold update_config, save_state in *. injection Hs as -> ->. rewrite H1, H2. unfold set_event_idx. cbn. by repeat case_match.
Qed.

(** Setting the processor makes the devices equal. *)
Lemma respects_set_processor {A} p (c : dev (VirtioBlkMmio M) MmioError A) :
  respects same_device (do* modify (fun d => with_processor d (Some p)) in c).
Proof.
  intros d d' Hs. assert (with_processor d' (Some p) = with_processor d (Some p)) as Hd.
  { by destruct Hs as [-> | (?&?&?&->&_)]. }
  unfold dev_bind, modify. rewrite Hd. destruct (c _) as [[r s]|]; [|done]. split; [done|by left].
Qed.

Lemma same_fields d d' :
  same_device d d' → is_failed d' = is_failed d ∧ guest_mem d' = guest_mem d ∧ regs d' = regs d ∧ backend d' = backend d ∧
    version d' = version d ∧ device_id d' = device_id d ∧ vendor_id d' = vendor_id d.
Proof. by intros [-> | (?&?&?&->&_)]. Qed.

Lemma respects_ensure : respects same_device (ensure_operational (M:=M)).
Proof.
  apply respects_get. intros d d' Hs. destruct (same_fields d d' Hs) as (-> & _). split; [done|].
  case_match; auto using respects_ret, respects_fail.
Qed.

Lemma respects_process_queue rounds : respects same_device (process_queue torn rounds).
Proof.
  unfold process_queue. apply respects_bind; [apply respects_ensure|intros _]. apply respects_bind; [apply respects_try_lock|intros _].
  apply respects_get. intros d d' Hs. destruct (same_fields d d' Hs) as (_ & -> & -> & -> & _). split.
  - destruct (guest_mem d); [|done]. destruct (t_queues (regs d)) as [|q qs]; [done|].
    pose proof (queue_processor_same d d' q Hs) as Hq. unfold queue_processor in Hq.
    rewrite (proj1 (proj2 (proj2 (same_fields d d' Hs)))) in Hq. by rewrite Hq.
  - destruct (guest_mem d) as [mem|]; [|apply respects_ret].
    do 2 (apply respects_bind; [apply respects_try_lock|intros _]).
    destruct (t_queues (regs d)) as [|q qs]; [apply respects_ret|]. case_match; [apply respects_ret|].
    apply respects_bind; [apply respects_try_lock|intros _]. apply respects_set_processor.
Qed.

Lemma respects_mmio_write rounds o v : respects same_device (mmio_write torn rounds o v).
Proof.
  unfold mmio_write. apply respects_get. intros d d' Hs. destruct (same_fields d d' Hs) as (-> & _). split; [done|].
  repeat match goal with |- respects _ (if _ then _ else _) => case_match end;
    try apply respects_fail; try apply respects_bind; intros; try apply respects_modify; try apply respects_process_queue;
    intros; try (by apply same_on_regs).
  - case_match; apply respects_modify; [|intros; by apply same_on_regs].
    intros d0 d0' Hs0. left. by destruct Hs0 as [-> | (?&?&?&->&_)].
  - case_match; [|apply respects_ret]. apply respects_bind; [apply respects_lock|intros _].
    apply respects_modify. intros. by apply same_on_regs.
Qed.

Lemma respects_mmio_read o : respects same_device (mmio_read (M:=M) o).
Proof.
  unfold mmio_read. apply respects_get. intros d d' Hs.
  destruct (same_fields d d' Hs) as (_ & _ & -> & -> & -> & -> & ->). split; [done|].
  repeat match goal with |- respects _ (if _ then _ else _) => case_match end; try apply respects_ret;
    try (apply respects_bind; [apply respects_lock|intros _; apply respects_ret]).
  case_match; [|apply respects_ret]. apply respects_bind; [apply respects_lock|intros _; apply respects_ret].
Qed.

End same.

(** ** The device never sets chains aside *)

Section unpeeked.
Context {M : Type} `{!GuestMemoryBackend M} `{!GuestSlices M}.
Variable torn : list Z → list Z.
Implicit Types d : VirtioBlkMmio M.

Lemma unpeeked_queue_processor d q : unpeeked d → peeked (queue_processor d q) = [].
Proof.
  unfold unpeeked, queue_processor. destruct (processor d) as [p|]; [|done]. cbn. intros ->. by case_match.
Qed.

Abbreviation unpeeked_rel := (keeping (unpeeked (M:=M))).

Lemma keeps_unpeeked_lock l : respects (E:=MmioError) unpeeked_rel (lock_state (M:=M) l).
Proof. apply respects_keeping_modify. intros d Hd. by case_decide. Qed.

Lemma keeps_unpeeked_try_lock l : respects unpeeked_rel (try_lock_state (M:=M) l).
Proof. apply respects_keeping. intros d r d' Hd. unfold try_lock_state. by case_decide; intros [= _ <-]. Qed.

Lemma keeps_unpeeked_run rounds mem p : peeked p = [] → respects unpeeked_rel (run_pass torn rounds mem p).
Proof.
  intros Hp. apply respects_keeping. intros d r d' _. unfold run_pass.
  destruct (process_queue_descriptors_dirty _ _ _ _ _) as [[[[p' w'] h'] n]|] eqn:Hx; [|done].
  apply descriptors_dirty_peeked in Hx. case_match; [done|]. intros [= _ <-]. unfold unpeeked. cbn. congruence.
Qed.

Lemma keeps_unpeeked_interrupt : respects unpeeked_rel (trigger_interrupt (M:=M)).
Proof.
  unfold trigger_interrupt. repeat (apply respects_bind; [|intros _]); try (by apply respects_keeping_modify);
    apply keeps_unpeeked_try_lock.
Qed.

Lemma keeps_unpeeked_get {A} (k : VirtioBlkMmio M → dev (VirtioBlkMmio M) MmioError A) :
  (∀ d, unpeeked d → respects unpeeked_rel (k d)) → respects unpeeked_rel (let* d := get in k d).
Proof. intros Hk. apply respects_get. intros d d' [-> Hd]. auto. Qed.

Lemma keeps_unpeeked_process_queue rounds : respects unpeeked_rel (process_queue torn rounds).
Proof.
  unfold process_queue. apply respects_bind.
  { apply keeps_unpeeked_get. intros d Hd. case_match; auto using respects_ret, respects_fail. }
  intros _. apply respects_bind; [apply keeps_unpeeked_try_lock|intros _]. apply keeps_unpeeked_get. intros d Hd.
  case_match; [|apply respects_ret]. do 2 (apply respects_bind; [apply keeps_unpeeked_try_lock|intros _]).
  destruct (t_queues (regs d)) as [|q qs]; [apply respects_ret|]. case_match; [apply respects_ret|].
  apply respects_bind; [apply keeps_unpeeked_try_lock|intros _]. pose proof (unpeeked_queue_processor d q Hd) as Hp.
  apply respects_bind; [by apply respects_keeping_modify|intros _].
  apply respects_bind; [apply keeps_unpeeked_try_lock|intros _]. case_match; [|apply respects_ret].
  apply respects_bind; [by apply keeps_unpeeked_run|]. intros [[n f] p']. apply respects_bind.
  { case_match; [|apply respects_ret]. apply keeps_unpeeked_get. intros. case_match; [apply keeps_unpeeked_interrupt|apply respects_ret]. }
  intros _. apply keeps_unpeeked_get. intros. case_match; auto using respects_ret, respects_fail.
Qed.

Lemma keeps_unpeeked_write rounds o v : respects unpeeked_rel (mmio_write torn rounds o v).
Proof.
  unfold mmio_write. apply keeps_unpeeked_get. intros d _.
  repeat match goal with |- respects _ (if _ then _ else _) => case_match end;
    try apply respects_fail; try apply respects_bind; intros; try apply keeps_unpeeked_process_queue;
    try (by apply respects_keeping_modify).
  - case_match; by apply respects_keeping_modify.
  - case_match; [|apply respects_ret]. apply respects_bind; [apply keeps_unpeeked_lock|intros _]. by apply respects_keeping_modify.
Qed.

Lemma keeps_unpeeked_read o : respects unpeeked_rel (mmio_read (M:=M) o).
Proof.
  unfold mmio_read. apply keeps_unpeeked_get. intros d _.
  repeat match goal with |- respects _ (if _ then _ else _) => case_match end; try apply respects_ret;
    try (apply respects_bind; [apply keeps_unpeeked_lock|intros _; apply respects_ret]).
  case_match; [|apply respects_ret]. apply respects_bind; [apply keeps_unpeeked_lock|intros _; apply respects_ret].
Qed.

Lemma run_unpeeked rounds l d out d' :
  unpeeked d → run_mmio mmio_read (mmio_write torn rounds) l d = Some (out, d') → unpeeked d'.
Proof.
  intros Hd Hr. pose proof (respects_run unpeeked_rel mmio_read (mmio_write torn rounds) l d d keeps_unpeeked_read
    (keeps_unpeeked_write rounds) (conj eq_refl Hd)) as Ha. rewrite Hr in Ha. apply Ha.
Qed.

End unpeeked.

(** ** Restore *)

Section restore.
Context {M : Type} `{!GuestMemoryBackend M} `{!GuestSlices M}.
Variable torn : list Z → list Z.
Implicit Types d : VirtioBlkMmio M.

Lemma snapshot_lock_free l d : poisoned d = [] → snapshot_lock l d = Some (Ok tt, d).
Proof. intros Hp. unfold snapshot_lock. by rewrite Hp. Qed.

(** The state a restore leaves. *)
Definition restored (st : VirtioBlkMmioState) d : VirtioBlkMmio M :=
  let t := regs d in
  with_processor (with_regs d
    (mkTransport (s_status st) (s_queue_sel st) (s_host_features_sel st) (s_guest_features_sel st)
       (s_guest_features_low st) (s_guest_features_high st) (s_queues st) (s_activated st) (s_interrupt_status st)
       (t_irq_evt t) (t_notify_count t) (t_status_writes t)))
    (from_state (match s_queues st with
                 | q :: _ => queue_config_from_state q
                 | [] => mkQueueConfig 0 0 0 0 false
                 end) <$> s_processor st).

Lemma lock_free {E} l d : poisoned d = [] → lock_state (E:=E) l d = Some (Ok tt, d).
Proof. intros Hp. unfold lock_state, modify. by rewrite Hp. Qed.

Lemma restore_free st d : poisoned d = [] → restore st d = Some (Ok tt, restored st d).
Proof.
  intros Hp. unfold restore. erewrite dev_bind_ok by done. erewrite dev_bind_ok by by apply lock_free.
  do 2 (erewrite dev_bind_ok by done). erewrite dev_bind_ok by by apply lock_free.
  erewrite dev_bind_ok by by apply lock_free. done.
Qed.

Lemma same_restored d c x t :
  unpeeked d →
  same_device d (with_processor (with_regs (with_processor (with_regs d t) x) (regs d)) (from_state c <$> (save_state <$> processor d))).
Proof.
  intros Hu. unfold unpeeked in Hu. destruct d as [? ? ? ? r ? ? ? p ? ? ? ? ?]. cbn in *.
  destruct p as [p|]; [right|by left]. exists p, (from_state c (save_state p)). done.
Qed.

(** C26: A block device that a snapshot is restored to cannot be told from the
    one that was saved. Let a device with no chain set aside (a new one, say)
    be driven by any register accesses to [d]; if it has not failed, the
    snapshot succeeds, and restoring it, whatever the registers and the processor of
    the target held, gives a device that answers every further sequence of
    accesses like [d], queue passes and errors included: same values, same
    effect on guest memory, disk and interrupts. *)
Theorem blk_restore_bisimilar rounds d0 before out d t x :
  unpeeked d0 → run_mmio mmio_read (mmio_write torn rounds) before d0 = Some (out, d) →
  is_failed d = false → poisoned d = [] →
  t_irq_evt t = t_irq_evt (regs d) → t_notify_count t = t_notify_count (regs d) →
  t_status_writes t = t_status_writes (regs d) →
  ∃ st d', snapshot_state d = Some (Ok st, d) ∧ restore st (with_processor (with_regs d t) x) = Some (Ok tt, d') ∧
    ∀ after, alike same_device (run_mmio mmio_read (mmio_write torn rounds) after d)
      (run_mmio mmio_read (mmio_write torn rounds) after d').
Proof.
  intros H0 Hrun Hf Hp E1 E2 E3. apply run_unpeeked in Hrun; [|done].
  assert (Hsnap : snapshot_state d = Some (Ok (mkBlkState (t_status (regs d)) (t_queue_sel (regs d))
    (t_host_features_sel (regs d)) (t_guest_features_sel (regs d)) (t_guest_features_low (regs d))
    (t_guest_features_high (regs d)) (t_queues (regs d)) (t_activated (regs d)) (t_interrupt_status (regs d))
    (save_state <$> processor d)), d)).
  { unfold snapshot_state. rewrite (dev_bind_ok _ _ _ d d) by done. rewrite Hf.
    by rewrite !(dev_bind_ok _ _ _ tt d) by by apply snapshot_lock_free. }
  eexists _, _. split; [exact Hsnap|]. split; [by apply restore_free|]. intros after.
  apply respects_run; [intros; apply respects_mmio_read|intros; apply respects_mmio_write|].
  unfold restored. cbn [regs with_processor with_regs s_status s_queue_sel s_host_features_sel s_guest_features_sel
    s_guest_features_low s_guest_features_high s_queues s_activated s_interrupt_status s_processor].
  rewrite E1, E2, E3. set (r := mkTransport _ _ _ _ _ _ _ _ _ _ _ _). assert (r = regs d) as -> by (by destruct d as [????[]]).
  apply (same_restored d _ x); done.
Qed.

End restore.

(** The example device after a pass, up to its next access. *)
Definition served : VirtioBlkMmio (gmap Z Z) :=
  with_processor ExampleKick.device (Some (mkProc (queue_config_from_state ExampleKick.queue) 1 1 true [])).

Lemma select_queue {M : Type} `{!GuestMemoryBackend M} `{!GuestSlices M} torn (d : VirtioBlkMmio M) :
  is_failed d = false →
  run_mmio mmio_read (mmio_write torn 1) [MmioWrite reg.QUEUE_SEL 1] d =
    Some ([Ok None], on_regs (fun t => with_queue_sel t 1) d).
Proof. intros Hf. cbn [run_mmio run_access]. unfold mmio_write, dev_bind, get. by rewrite Hf. Qed.

Lemma blk_restore_bisimilar_witness :
  let d := on_regs (fun t => with_queue_sel t 1) served in
  ∃ st d', snapshot_state d = Some (Ok st, d) ∧
    restore st (with_processor (with_regs d (transport_new 1)) None) = Some (Ok tt, d') ∧
    alike same_device (run_mmio mmio_read (mmio_write (fun d => d) 1) [MmioWrite reg.QUEUE_NOTIFY 0] d)
      (run_mmio mmio_read (mmio_write (fun d => d) 1) [MmioWrite reg.QUEUE_NOTIFY 0] d').
Proof.
  intros d. destruct (blk_restore_bisimilar (fun d => d) 1 served [MmioWrite reg.QUEUE_SEL 1] [Ok None] d
    (transport_new 1) None) as (st & d' & H1 & H2 & H3).
  - reflexivity.
  - apply (select_queue (fun d => d) served). reflexivity.
  - reflexivity.
  - reflexivity.
  - reflexivity.
  - reflexivity.
  - reflexivity.
  - exists st, d'. exact (conj H1 (conj H2 (H3 [MmioWrite reg.QUEUE_NOTIFY 0]))).
Defined.
