(* ===== verification/Rng.v ===== *)
(** * The entropy device ([virtio/rng.rs] and [virtio/rng_transport.rs])

    One definition per method, over the registers of [Transport] and the
    processor of [VQueue]. The host's generator is a stream of bytes with the
    position of the next one; what single calls of [getrandom] answer is a
    list: fewer bytes than asked for, an interruption or an error. With the
    list used up a call gives all it is asked for. The device never enables
    event indices, so a pass looks at the ring once. The locks are taken with
    [unwrap] and nothing panics while it holds one. *)

From S2P Require Import Prelude Dirty GuestMem GuestRam VQueue VQueueWalk VQueueRun VQueuePass VQueueServe GuestBufs Regs Dev Transport.

(** ** The generator *)

(** An answer of [getrandom]: a number of bytes, [EINTR], another error. *)
Inductive getrandom : Type :=
| Gave (n : nat)
| Interrupted
| Refused.

Record Host := mkHost {
  source : nat → Z;
  drawn : nat;
  script : list getrandom;
}.

(** The next [n] bytes of the generator. *)
Definition draws (h : Host) (n : nat) : list Z := (fun i => source h (drawn h + i)%nat) <$> seq 0 n.

(** The loop of [fill_host_entropy] for [n] more bytes behind [acc]; [None]
    is an error. *)
Fixpoint fill_loop (src : nat → Z) (pos : nat) (answers : list getrandom) (n : nat) (acc : list Z)
    : option (list Z) * Host :=
  match n, answers with
  | O, _ => (Some acc, mkHost src pos answers)
  | _, [] => (Some (acc ++ draws (mkHost src pos []) n), mkHost src (pos + n) [])
  | _, Interrupted :: rest => fill_loop src pos rest n acc
  | _, Refused :: rest => (None, mkHost src pos rest)
  | _, Gave O :: rest => (None, mkHost src pos rest)
  | _, Gave k :: rest =>
      let k := Nat.min k n in
      fill_loop src (pos + k) rest (n - k) (acc ++ draws (mkHost src pos rest) k)
  end.

Definition fill_host_entropy (h : Host) (n : nat) : option (list Z) * Host :=
  fill_loop (source h) (drawn h) (script h) n [].

Definition DEVICE_ID_RNG : Z := 4.

Record VirtioRng := mkRng {
  bytes_served : Z;
}.

Definition rng_new : VirtioRng := mkRng 0.

Definition fill_entropy (r : VirtioRng) (h : Host) (n : nat) : option (list Z) * VirtioRng * Host :=
  match fill_host_entropy h n with
  | (None, h') => (None, r, h')
  | (Some bs, h') => (Some bs, mkRng (u64_fetch_add (bytes_served r) (Z.of_nat n)), h')
  end.

(** ** The device *)

Definition RNG_FEATURES_LOW : Z := 0.
Definition RNG_FEATURES_HIGH : Z := 1.
Definition QUEUE_RNG : nat := 0.

Record VirtioRngMmioState := mkRngState {
  s_status : Z;
  s_queue_sel : Z;
  s_host_features_sel : Z;
  s_guest_features_sel : Z;
  s_guest_features_low : Z;
  s_guest_features_high : Z;
  s_queues : list QueueState;
  s_activated : bool;
  s_interrupt_status : Z;
  s_processor : option VirtQueueProcessorState;
}.

Section device.
Context {M : Type}.

Record VirtioRngMmio := mkRngMmio {
  irq : Z;
  device_id : Z;
  vendor_id : Z;
  version : Z;
  regs : Transport;
  rng : VirtioRng;
  guest_mem : option M;
  host_dirty : option DirtyBitmap.t;
  processor : option VirtQueueProcessor;
  host : Host;
}.

Definition with_regs (d : VirtioRngMmio) (v : Transport) : VirtioRngMmio :=
  mkRngMmio (irq d) (device_id d) (vendor_id d) (version d) v (rng d) (guest_mem d) (host_dirty d)
    (processor d) (host d).
Definition with_guest_mem (d : VirtioRngMmio) (v : option M) : VirtioRngMmio :=
  mkRngMmio (irq d) (device_id d) (vendor_id d) (version d) (regs d) (rng d) v (host_dirty d)
    (processor d) (host d).
Definition with_host_dirty (d : VirtioRngMmio) (v : option DirtyBitmap.t) : VirtioRngMmio :=
  mkRngMmio (irq d) (device_id d) (vendor_id d) (version d) (regs d) (rng d) (guest_mem d) v
    (processor d) (host d).
Definition with_processor (d : VirtioRngMmio) (v : option VirtQueueProcessor) : VirtioRngMmio :=
  mkRngMmio (irq d) (device_id d) (vendor_id d) (version d) (regs d) (rng d) (guest_mem d)
    (host_dirty d) v (host d).
Definition with_rng (d : VirtioRngMmio) (v : VirtioRng) (h : Host) : VirtioRngMmio :=
  mkRngMmio (irq d) (device_id d) (vendor_id d) (version d) (regs d) v (guest_mem d)
    (host_dirty d) (processor d) h.

Definition on_regs (f : Transport → Transport) (d : VirtioRngMmio) : VirtioRngMmio := with_regs d (f (regs d)).

Definition rng_mmio_new (irq : Z) (r : VirtioRng) (h : Host) : VirtioRngMmio :=
  mkRngMmio irq DEVICE_ID_RNG 0 2 (transport_new 1) r None None None h.

Definition current_status (d : VirtioRngMmio) : Z := t_status (regs d).
Definition is_activated (d : VirtioRngMmio) : bool := t_activated (regs d).

Definition set_guest_memory (mem : M) (d : VirtioRngMmio) : VirtioRngMmio := with_guest_mem d (Some mem).
Definition set_guest_dirty_tracker (dirty : DirtyBitmap.t) (d : VirtioRngMmio) : VirtioRngMmio :=
  with_host_dirty d (Some dirty).
Definition set_irq_evt (evt : Z) (d : VirtioRngMmio) : VirtioRngMmio :=
  on_regs (fun t => with_irq_evt t (Some evt)) d.

Definition trigger_interrupt (d : VirtioRngMmio) : VirtioRngMmio := on_regs (fun t => bump_irq (raise t)) d.

Definition queue_config (t : Transport) (idx : nat) : option QueueConfig :=
  let?o q := t_queues t !! idx in
  if negb (q_ready q) || negb (valid_size q) then None else Some (queue_config_from_state q).

End device.

Arguments VirtioRngMmio : clear implicits.

(** [u32::checked_add]. *)
Definition u32_checked_add (a b : Z) : option Z := if a + b <=? U32_MAX then Some (a + b) else None.

Section rng.
Context {M : Type} `{!GuestMemoryBackend M}.
Abbreviation device := (VirtioRngMmio M).

(** ** Requests *)

(** The loop of the closure over the writable buffers. *)
Fixpoint entropy_loop (w : World M) (r : VirtioRng) (h : Host) (writable : list (Z * Z)) (used_len : Z)
    : World M * VirtioRng * Host * Z :=
  match writable with
  | [] => (w, r, h, used_len)
  | (addr, len) :: rest =>
      if len =? 0 then entropy_loop w r h rest used_len
      else match fill_entropy r h (Z.to_nat len) with
      | (None, r', h') => (w, r', h', used_len)
      | (Some entropy, r', h') =>
          match write_mem w entropy addr with
          | (false, w') => (w', r', h', used_len)
          | (true, w') =>
              match u32_checked_add used_len len with
              | None => (w', r', h', used_len)
              | Some next_used_len => entropy_loop w' r' h' rest next_used_len
              end
          end
      end
  end.

Definition rng_handler (w : World M) (rh : VirtioRng * Host) (readable writable : list (Z * Z))
    : World M * (VirtioRng * Host) * option Z :=
  let '(w', r', h', used_len) := entropy_loop w rh.1 rh.2 writable 0 in
  (w', (r', h'), Some used_len).

Definition process_queue (queue_idx : Z) (d : device) : option (Z * device) :=
  if negb (Z.to_nat queue_idx =? QUEUE_RNG)%nat then Some (0, d)
  else match guest_mem d with
  | None => Some (0, d)
  | Some mem =>
      match queue_config (regs d) QUEUE_RNG with
      | None => Some (0, d)
      | Some cfg =>
          let p := match processor d with
                   | None => new cfg
                   | Some p => update_config p cfg
                   end in
          match process_queue_descriptors_dirty rng_handler 1 p (mkWorld mem (host_dirty d)) (rng d, host d) with
          | None => None
          | Some (p', w', (r', h'), processed) =>
              let d' := with_rng (with_processor (with_host_dirty (with_guest_mem d (Some (w_mem w')))
                          (w_dirty w')) (Some p')) r' h' in
              Some (processed, if 0 <? processed then trigger_interrupt d' else d')
          end
      end
  end.

Definition reset (d : device) : device := with_processor (on_regs reset_regs d) None.

(** ** Snapshots *)

Definition save (d : device) : VirtioRngMmioState :=
  let t := regs d in
  mkRngState (t_status t) (t_queue_sel t) (t_host_features_sel t) (t_guest_features_sel t)
    (t_guest_features_low t) (t_guest_features_high t) (t_queues t) (t_activated t)
    (t_interrupt_status t) (save_state <$> processor d).

Definition apply_state (d : device) (st : VirtioRngMmioState) : device :=
  let t := regs d in
  let t' := mkTransport (s_status st) (s_queue_sel st) (s_host_features_sel st) (s_guest_features_sel st)
              (s_guest_features_low st) (s_guest_features_high st) (s_queues st) (s_activated st)
              (s_interrupt_status st) (t_irq_evt t) (t_notify_count t) (t_status_writes t) in
  with_processor (with_regs d t')
    (let?o cursor := s_processor st in
     let?o config := queue_config t' QUEUE_RNG in
     Some (from_state config cursor)).

Definition reassert_pending_interrupt (d : device) : device :=
  if t_interrupt_status (regs d) =? 0 then d else on_regs bump_irq d.

(** ** Registers *)

Definition mmio_read (d : device) (off : Z) : Z :=
  if off =? reg.MAGIC_VALUE then MMIO_MAGIC
  else if off =? reg.VERSION then version d
  else if off =? reg.DEVICE_ID then device_id d
  else if off =? reg.VENDOR_ID then vendor_id d
  else if off =? reg.HOST_FEATURES then
    if t_host_features_sel (regs d) =? 0 then RNG_FEATURES_LOW
    else if t_host_features_sel (regs d) =? 1 then RNG_FEATURES_HIGH
    else 0
  else if off =? reg.QUEUE_NUM_MAX then MAX_QUEUE_SIZE
  else if off =? reg.STATUS then t_status (regs d)
  else if off =? reg.INTERRUPT_STATUS then t_interrupt_status (regs d)
  else if off =? reg.CONFIG_GENERATION then 0
  else default 0 (read_queue_reg (regs d) off).

Definition mmio_write (d : device) (off raw : Z) : option device :=
  let val := as_u32 raw in
  if off =? reg.STATUS then
    let d := on_regs count_status_write d in
    Some (if val =? 0 then reset d else on_regs (fun t => write_status_bits t val) d)
  else if off =? reg.HOST_FEATURES_SEL then Some (on_regs (fun t => with_host_features_sel t val) d)
  else if off =? reg.GUEST_FEATURES then Some (on_regs (fun t => write_guest_features t val) d)
  else if off =? reg.GUEST_FEATURES_SEL then Some (on_regs (fun t => with_guest_features_sel t val) d)
  else if off =? reg.QUEUE_SEL then Some (on_regs (fun t => with_queue_sel t val) d)
  else if off =? reg.QUEUE_NOTIFY then
    let?o out := process_queue val (on_regs count_notify d) in Some out.2
  else if off =? reg.INTERRUPT_ACK then Some (on_regs (fun t => acknowledge t val) d)
  else match write_queue_reg off val with
  | Some f => Some (on_regs (update_selected f) d)
  | None => Some d
  end.

End rng.

(** ** The generator *)

Lemma length_draws h n : length (draws h n) = n.
Proof. unfold draws. by rewrite length_fmap, length_seq. Qed.

Lemma draws_app h k n : draws h (k + n) = draws h k ++ draws (mkHost (source h) (drawn h + k) (script h)) n.
Proof.
  unfold draws. rewrite seq_app, fmap_app. f_equal. simpl.
  replace (seq k n) with ((fun i => k + i)%nat <$> seq 0 n) by (rewrite fmap_add_seq; f_equal; lia).
  rewrite <- list_fmap_compose. apply list_fmap_ext.
  intros i x _. simpl. f_equal. lia.
Qed.

(** No error in the script. *)
Definition obliging (h : Host) : Prop := Forall (fun a => a ≠ Refused ∧ a ≠ Gave 0) (script h).

(** The same generator, [n] bytes further. *)
Definition further (h : Host) (n : nat) (h' : Host) : Prop :=
  source h' = source h ∧ drawn h' = (drawn h + n)%nat ∧ obliging h'.

Lemma fill_loop_obliging src answers : ∀ pos n acc,
  Forall (fun a => a ≠ Refused ∧ a ≠ Gave 0) answers →
  ∃ h', fill_loop src pos answers n acc = (Some (acc ++ draws (mkHost src pos []) n), h') ∧
    further (mkHost src pos []) n h'.
Proof.
  induction answers as [|a answers IH]; intros pos n acc Ha.
  { destruct n; cbn [fill_loop]; eexists.
    - split; [by rewrite app_nil_r|]. split_and!; [done|simpl; lia|constructor].
    - split; [done|]. split_and!; [done|done|constructor]. }
  apply Forall_cons in Ha as [[Hr Hz] Ha]. destruct n as [|n].
  { cbn [fill_loop]. eexists. split; [by rewrite app_nil_r|]. split_and!; [done|simpl; lia|]. by constructor. }
  destruct a as [[|k]| |]; try done; cbn [fill_loop]; [|by apply IH].
  set (j := Nat.min (S k) (S n)). assert (j ≤ S n)%nat as Hj by lia.
  destruct (IH (pos + j)%nat (S n - j)%nat (acc ++ draws (mkHost src pos answers) j) Ha) as (h' & -> & Hs & Hd & Ho).
  exists h'. cbn [source drawn] in *. split; [|unfold further; cbn; split_and!; [done|lia|done]].
  do 2 f_equal. rewrite <- app_assoc. f_equal. replace (S n) with (j + (S n - j))%nat at 2 by lia. by rewrite draws_app.
Qed.

Lemma fill_host_entropy_obliging h n :
  obliging h → ∃ h', fill_host_entropy h n = (Some (draws h n), h') ∧ further h n h'.
Proof. intros Ho. destruct (fill_loop_obliging (source h) (script h) (drawn h) n [] Ho) as (h' & Hf & Hn). by exists h'. Qed.

(** ** Requests *)

Section requests.
Context {M : Type} `{!GuestMemoryBackend M} `{!GuestMemoryLaws M}.
Implicit Types (m : M) (w : World M).

(** A generator of bytes that makes no errors. *)
Definition generator (h : Host) : Prop := obliging h ∧ ∀ i, is_byte (source h i).

Lemma generator_further h n h' : generator h → further h n h' → generator h'.
Proof. intros [_ Hb] (Hs & _ & Ho). split; [done|]. by rewrite Hs. Qed.

Lemma further_trans h1 n h2 k h3 : further h1 n h2 → further h2 k h3 → further h1 (n + k) h3.
Proof. unfold further. intros (-> & -> & _) (-> & -> & Ho). split_and!; [done|lia|done]. Qed.

Lemma draws_further h n h' k : further h n h' → draws h (n + k) = draws h n ++ draws h' k.
Proof. intros (Hs & Hd & _). rewrite draws_app. f_equal. unfold draws. by rewrite Hs, Hd. Qed.

Lemma draws_bytes h n : generator h → Forall is_byte (draws h n).
Proof. intros [_ Hb]. unfold draws. apply Forall_fmap, Forall_forall. intros i _. apply Hb. Qed.

(** Every buffer is filled, with the next bytes of the generator. *)
Lemma entropy_loop_ok bufs sz : ∀ w r h used,
  generator h → laid_out (w_mem w) sz → Forall (valid_buf (w_mem w)) bufs → 0 ≤ used →
  used + sum_lens bufs ≤ U32_MAX →
  let n := length (buf_addrs bufs) in
  ∃ w' r' h', entropy_loop w r h bufs used = (w', r', h', used + sum_lens bufs) ∧
    further h n h' ∧ tracked w w' ∧ changes_only (in_bufs bufs) (w_mem w) (w_mem w') ∧
    (bufs_disjoint bufs → holds (w_mem w') (buf_addrs bufs) (draws h n)).
Proof.
  induction bufs as [|[a l] bufs IH]; intros w r h used Hg Hlay Hv Hu Hs n; cbn [entropy_loop].
  { exists w, r, h. split; [f_equal; simpl; lia|]. split; [unfold further; split_and!; [done|subst n; simpl; lia|apply Hg]|].
    split_and!; [reflexivity|reflexivity|]. intros _. apply holds_nil. }
  apply Forall_cons in Hv as [Hv1 Hv2]. pose proof (sum_lens_nonneg _ _ Hv2) as Hn.
  change (sum_lens ((a, l) :: bufs)) with (l + sum_lens bufs) in *. pose proof Hv1 as (? & ? & _). cbn [fst snd] in *.
  destruct (l =? 0) eqn:El; bool_to_prop.
  { subst l. destruct (IH w r h used Hg Hlay Hv2 Hu ltac:(lia)) as (w' & r' & h' & -> & Hf & Ht & Hc & Hh).
    exists w', r', h'. split; [done|]. split; [exact Hf|]. split_and!; [done| |].
    - eapply changes_only_mono; [exact Hc|]. intros x Hx. apply in_bufs_cons. by right.
    - intros [_ Hd]. by apply Hh. }
  unfold fill_entropy. destruct (fill_host_entropy_obliging h (Z.to_nat l) (proj1 Hg)) as (h1 & -> & Hf1).
  pose proof (draws_bytes h (Z.to_nat l) Hg) as Hb.
  destruct (write_front w sz a l (draws h (Z.to_nat l))) as (w1 & -> & Ht1 & Hc1 & Hh1); [done|done| | |done|].
  { intros Hx. apply (f_equal length) in Hx. rewrite length_draws in Hx. simpl in Hx. lia. }
  { rewrite length_draws. lia. }
  unfold u32_checked_add. rewrite (proj2 (Z.leb_le _ _)) by lia.
  set (r1 := mkRng _). destruct (IH w1 r1 h1 (used + l)) as (w' & r' & h' & -> & Hf & Ht & Hc & Hh);
    [by eapply generator_further|by eapply tracked_laid_out| |lia|lia|].
  { eapply Forall_impl; [exact Hv2|]. intros b. by apply valid_buf_tracked. }
  assert (n = (Z.to_nat l + length (buf_addrs bufs))%nat) as Hlen.
  { subst n. by rewrite buf_addrs_cons, length_app, length_seqZ. }
  exists w', r', h'. split; [f_equal; lia|]. split; [rewrite Hlen; by eapply further_trans|].
  split; [by transitivity w1|]. split.
  - eapply changes_only_trans; (eapply changes_only_mono; [eassumption|]); intros x Hx; apply in_bufs_cons; auto.
  - intros [Hd Hds]. rewrite buf_addrs_cons, Hlen, (draws_further _ _ _ _ Hf1). cbn [fst snd] in *.
    assert (length (seqZ a l) = Z.to_nat l) as Hll by apply length_seqZ. apply holds_append.
    + rewrite Hll, take_app_length' by by rewrite length_draws. eapply holds_frame; [exact Hc| |exact Hh1].
      intros x Hx. apply elem_of_seqZ in Hx. by apply Hd.
    + rewrite Hll, drop_app_length' by by rewrite length_draws. by apply Hh.
Qed.

(** The buffers of chains, all together. *)
Definition all_writable (reqs : list (Z * DescriptorChain)) : list (Z * Z) := concat ((fun r => writable r.2) <$> reqs).

Definition rng_reported (r : Z * DescriptorChain) : Z := sum_lens (writable r.2).

Lemma rng_handler_ok w r h rds wrs sz :
  generator h → laid_out (w_mem w) sz → Forall (valid_buf (w_mem w)) wrs → sum_lens (rds ++ wrs) ≤ MAX_CHAIN_BYTES →
  Forall (valid_buf (w_mem w)) rds →
  let n := length (buf_addrs wrs) in
  ∃ w' r' h', rng_handler w (r, h) rds wrs = (w', (r', h'), Some (sum_lens wrs)) ∧ further h n h' ∧
    tracked w w' ∧ changes_only (in_bufs wrs) (w_mem w) (w_mem w') ∧
    (bufs_disjoint wrs → holds (w_mem w') (buf_addrs wrs) (draws h n)).
Proof.
  intros Hg Hlay Hv Hs Hrd n. rewrite sum_lens_app in Hs. pose proof (sum_lens_nonneg _ _ Hrd).
  destruct (entropy_loop_ok wrs sz w r h 0 Hg Hlay Hv ltac:(lia)) as (w' & r' & h' & He & Hx).
  { unfold MAX_CHAIN_BYTES in Hs. unfold U32_MAX. lia. }
  exists w', r', h'. unfold rng_handler. cbn [fst snd]. by rewrite He.
Qed.

Lemma rng_handler_serves w (rh : VirtioRng * Host) rds wrs sz :
  generator rh.2 → laid_out (w_mem w) sz → Forall (valid_buf (w_mem w)) rds → Forall (valid_buf (w_mem w)) wrs →
  sum_lens (rds ++ wrs) ≤ MAX_CHAIN_BYTES →
  ∃ w1 rh1 len, rng_handler w rh rds wrs = (w1, rh1, Some len) ∧ generator rh1.2 ∧ tracked w w1 ∧
    changes_only (in_bufs wrs) (w_mem w) (w_mem w1).
Proof.
  intros Hg Hlay Hrd Hwr Hs. destruct rh as [r h].
  destruct (rng_handler_ok w r h rds wrs sz) as (w' & r' & h' & -> & Hf & Ht & Hc & _); [done..|].
  eexists _, _, _. split_and!; [done|by eapply generator_further|done|done].
Qed.

(** Serving chains hands out the generator's bytes, in order. *)
Lemma serves_entropy c sz u reqs w rh lens w' rh' :
  serves rng_handler c u reqs w rh lens w' rh' →
  generator rh.2 → laid_out (w_mem w) sz → rings_ok c (w_mem w) → in_u16 u → requests_ok (w_mem w) reqs →
  Z.of_nat (length reqs) ≤ size c → well_separated c reqs →
  let as_ := buf_addrs (all_writable reqs) in
  lens = rng_reported <$> reqs ∧ further rh.2 (length as_) rh'.2 ∧ holds (w_mem w') as_ (draws rh.2 (length as_)).
Proof.
  induction 1 as [u w rh|u hd ch reqs w rh w1 rh1 len lens w' rh' Hrun Hs IH];
    intros Hg Hlay Hr Hu Hv Hsz Hsep as_.
  { split; [done|]. split; [unfold further; split_and!; [done|subst as_; simpl; lia|apply Hg]|apply holds_nil]. }
  apply Forall_cons in Hv as [(Hrd & Hwr & Hsum) Hv]. apply well_separated_cons in Hsep as (Hsep & Hdj & Hwx & _).
  cbn [snd] in *. pose proof Hsep as ([_ Hwz] & _). destruct rh as [r h].
  destruct (rng_handler_ok w r h (readable ch) (writable ch) sz) as (w1' & r1 & h1 & Hrun' & Hf1 & Ht1 & Hc1 & Hh1); [done..|].
  rewrite Hrun in Hrun'. injection Hrun' as <- -> ->. set (len := sum_lens _) in *.
  destruct (used_elem_reports w1 c u hd len sz) as (Ht2 & Hc2 & _);
    [by eapply tracked_laid_out|by eapply rings_ok_tracked|done|].
  set (w2 := write_mem_ w1 _ _) in *. assert (tracked w w2) as Htw by (by transitivity w1).
  assert (laid_out (w_mem w2) sz ∧ rings_ok c (w_mem w2) ∧ requests_ok (w_mem w2) reqs ∧
    Z.of_nat (length reqs) ≤ size c ∧ in_u16 (u16_wrapping_add u 1) ∧ generator h1)
    as (Hlay2 & Hr2 & Hv2 & Hsz2 & Hu2 & Hg1).
  { split_and!; [by eapply tracked_laid_out|by eapply rings_ok_tracked|by eapply requests_ok_tracked|simpl in Hsz; lia
      |apply u16_wrapping_add_range|by eapply generator_further]. }
  destruct (serves_effect rng_handler (fun rh => generator rh.2)) with (2 := Hs) (sz := sz) as (_ & Hc3 & _);
    try done; [by intros; eapply rng_handler_serves|by apply Hwz|].
  destruct IH as (Hl & Hf & Hh); [done..|]. cbn [snd] in *.
  assert (as_ = buf_addrs (writable ch) ++ buf_addrs (all_writable reqs)) as Has by apply bind_app.
  rewrite Has, length_app. split; [by rewrite Hl|]. split; [by eapply further_trans|].
  rewrite (draws_further _ _ _ _ Hf1). apply holds_append.
  - rewrite take_app_length' by by rewrite length_draws.
    eapply holds_frame; [exact Hc3| |eapply holds_frame; [exact Hc2| |by apply Hh1]]; intros x Hx;
      apply elem_of_buf_addrs, Hwx in Hx as [Hn1 Hn2]; [naive_solver|contradict Hn2; by apply used_ring_zone].
  - by rewrite drop_app_length' by by rewrite length_draws.
Qed.

End requests.

(** ** The kick *)

(** The processor a pass works with, for the queue configuration [c]. *)
Definition queue_processor {M : Type} (d : VirtioRngMmio M) (c : QueueConfig) : VirtQueueProcessor :=
  match processor d with
  | None => new c
  | Some p => update_config p c
  end.

(** A device attached to guest memory and a generator, whose driver has
    published chains up to [avail] and keeps them apart. *)
Record kickable {M : Type} `{!GuestMemoryBackend M} (d : VirtioRngMmio M) (m : M) (c : QueueConfig) (avail sz : Z) : Prop := {
  k_mem : guest_mem d = Some m;
  k_queue : queue_config (regs d) QUEUE_RNG = Some c;
  k_processor : processor_ok (queue_processor d c);
  k_host : generator (host d);
  k_laid_out : laid_out m sz;
  k_usable : queue_is_usable (queue_processor d c) m = true;
  k_avail : read_avail_idx m (avail_ring_addr c) = Some avail;
  k_count : u16_wrapping_sub avail (last_avail_idx (queue_processor d c)) ≤ size c;
  k_separated : well_separated c (pending m (queue_processor d c) avail);
}.

Section kick.
Context {M : Type} `{!GuestMemoryBackend M} `{!GuestMemoryLaws M}.
Implicit Types d : VirtioRngMmio M.

Lemma rng_queue_processor_config d c : config (queue_processor d c) = c.
Proof. unfold queue_processor. by destruct (processor d). Qed.

Lemma rng_process_queue_runs d m c p' w' r' h' n :
  guest_mem d = Some m → queue_config (regs d) QUEUE_RNG = Some c →
  process_queue_descriptors_dirty rng_handler 1 (queue_processor d c) (mkWorld m (host_dirty d)) (rng d, host d) =
    Some (p', w', (r', h'), n) →
  let d' := with_rng (with_processor (with_host_dirty (with_guest_mem d (Some (w_mem w'))) (w_dirty w')) (Some p')) r' h' in
  process_queue 0 d = Some (n, if 0 <? n then trigger_interrupt d' else d').
Proof.
  intros Hm Hq Hp. unfold process_queue. cbn [negb Z.to_nat Nat.eqb QUEUE_RNG]. rewrite Hm, Hq.
  fold (queue_processor d c). by rewrite Hp.
Qed.

Lemma rng_notify_runs d :
  mmio_write d reg.QUEUE_NOTIFY 0 = (let?o out := process_queue 0 (on_regs count_notify d) in Some out.2).
Proof. reflexivity. Qed.

(** C30: Every buffer the guest offers the entropy device is filled with fresh
    bytes of the host. On a device whose driver has published chains and keeps
    rings and buffers apart, a write to the notify register succeeds however
    [getrandom] splits or interrupts its answers; the writable buffers of all
    pending chains, in order, hold the next bytes of the generator, which
    moves on by as many, so that no byte is handed out twice; each used entry
    has the number of bytes written for its chain; nothing else changes in
    guest memory, every change is tracked, and the interrupt is raised exactly
    when a chain was served. *)
Theorem rng_kick_fresh d m c avail sz :
  kickable d m c avail sz →
  let p := queue_processor d c in
  let reqs := pending m p avail in
  let as_ := buf_addrs (all_writable reqs) in
  ∃ d' m', mmio_write d reg.QUEUE_NOTIFY 0 = Some d' ∧ guest_mem d' = Some m' ∧
    holds m' as_ (draws (host d) (length as_)) ∧ further (host d) (length as_) (host d') ∧
    (∀ (j : nat) r, reqs !! j = Some r →
      gm_read_slice m' (used_slot_addr c (u16_wrapping_add (last_used_idx p) (Z.of_nat j))) 8 =
      Some (encode_used_elem r.1 (rng_reported r))) ∧
    read_u16 m' (used_ring_addr c + 2) = Some (u16_wrapping_add (last_used_idx p) (Z.of_nat (length reqs))) ∧
    changes_only (fun x => written reqs x ∨ used_zone c x) m m' ∧
    tracked (mkWorld m (host_dirty d)) (mkWorld m' (host_dirty d')) ∧
    regs d' = (if bool_decide (reqs = []) then count_notify (regs d)
               else bump_irq (raise (count_notify (regs d)))).
Proof.
  intros [] p reqs as_. fold p in k_processor0, k_usable0, k_count0, k_separated0. fold reqs in k_separated0.
  pose proof (rng_queue_processor_config d c) as Hcfg. fold p in Hcfg.
  rewrite <- Hcfg in k_avail0, k_count0, k_separated0. destruct k_processor0 as (Hla & Hlu & He & _).
  destruct (descriptors_pass_reports rng_handler (fun rh => generator rh.2)) with (fuel := 0%nat) (q := p)
    (w := mkWorld m (host_dirty d)) (h := (rng d, host d)) (sz := sz) (avail := avail)
    as (lens & w1 & w' & [r' h'] & Hp & Hs & Hv & Hr & Hcnt & Ht & Hz & Hc & Hu & Hent); try done.
  { intros. by eapply rng_handler_serves. }
  { by rewrite He. }
  { apply k_separated0. }
  change (w_mem (mkWorld m (host_dirty d))) with m in *. fold reqs in Hp, Hs, Hc, Hu, Hent.
  destruct (serves_entropy _ sz _ _ _ _ _ _ _ Hs) as (-> & Hf & Hh); [done..|]. fold as_ in Hf, Hh. rewrite Hcfg in *.
  pose proof (rng_process_queue_runs (on_regs count_notify d) m c _ w' r' h' _ k_mem0 k_queue0 Hp) as Hrun.
  eexists _, (w_mem w'). split; [rewrite rng_notify_runs, Hrun; reflexivity|]. cbn [snd].
  assert (bool_decide (reqs = []) = negb (0 <? Z.of_nat (length reqs))) as ->.
  { destruct reqs; [done|]. rewrite bool_decide_eq_false_2 by done. symmetry. apply negb_false_iff, Z.ltb_lt. simpl. lia. }
  assert (holds (w_mem w') as_ (draws (host d) (length as_))) as Hh'.
  { eapply holds_frame; [exact Hz| |exact Hh]. intros x Hx. apply elem_of_buf_addrs, written_concat in Hx.
    destruct k_separated0 as ([_ Hap] & _). by apply (Hap x Hx). }
  assert (∀ (j : nat) r, reqs !! j = Some r → (rng_reported <$> reqs) !! j = Some (rng_reported r)) as Hlens.
  { intros j r Hj. by rewrite list_lookup_fmap, Hj. }
  destruct (0 <? Z.of_nat (length reqs)); cbn [negb]; (split_and!; try done; [by intros; apply Hent; auto]).
Qed.

End kick.

(** ** Sequences of accesses, and restore *)

Fixpoint run_accesses {M : Type} `{!GuestMemoryBackend M} (l : list mmio_access) (d : VirtioRngMmio M)
    : option (list Z * VirtioRngMmio M) :=
  match l with
  | [] => Some ([], d)
  | MmioRead o :: l' =>
      let?o r := run_accesses l' d in
      Some (mmio_read d o :: r.1, r.2)
  | MmioWrite o v :: l' =>
      let?o d1 := mmio_write d o v in
      run_accesses l' d1
  end.

Definition rng_ok {M : Type} (d : VirtioRngMmio M) : Prop := from_option processor_ok True (processor d).

(** The same device, or one whose processor is at the same place of the queue. *)
Definition same_device {M : Type} (d d' : VirtioRngMmio M) : Prop :=
  d' = d ∨ ∃ p p', processor d = Some p ∧ d' = with_processor d (Some p') ∧ save_state p' = save_state p ∧
    processor_ok p ∧ processor_ok p'.

Section snapshot.
Context {M : Type} `{!GuestMemoryBackend M} `{!GuestMemoryLaws M}.
Implicit Types d : VirtioRngMmio M.

Lemma queue_processor_ok d c : rng_ok d → processor_ok (queue_processor d c).
Proof.
  unfold rng_ok, queue_processor. destruct (processor d); [apply update_config_ok|].
  intros _. split_and!; unfold in_u16, U16_MAX; simpl; lia || done.
Qed.

Lemma rng_queue_processor_same d d' c : same_device d d' → queue_processor d' c = queue_processor d c.
Proof.
  intros [-> | (p & p' & Hp & -> & Hs & (_ & _ & He & Hk) & (_ & _ & He' & Hk'))]; [done|].
  unfold queue_processor. rewrite Hp. cbn [processor with_processor]. unfold update_config. injection Hs as -> ->.
  rewrite He, He', Hk, Hk'. by repeat case_match.
Qed.

Lemma rng_same_step (f : VirtioRngMmio M → VirtioRngMmio M) :
  (∀ d p, processor (f d) = processor d ∧ f (with_processor d p) = with_processor (f d) p) →
  ∀ d d', rng_ok d → same_device d d' → same_device (f d) (f d') ∧ rng_ok (f d).
Proof.
  intros Hf d d' Hok Hs. destruct (Hf d None) as [Hp _]. split; [|unfold rng_ok; by rewrite Hp].
  destruct Hs as [-> | (p & p' & Hpd & -> & Hs)]; [by left|]. right. exists p, p'. destruct (Hf d (Some p')) as [_ Hfp].
  by rewrite Hp.
Qed.

Lemma rng_process_queue_same i d d' :
  rng_ok d → same_device d d' →
  ∃ n d1 d1', process_queue i d = Some (n, d1) ∧ process_queue i d' = Some (n, d1') ∧ same_device d1 d1' ∧ rng_ok d1.
Proof.
  intros Hok Hs. unfold process_queue. case_goal; [by eexists _, _, _|].
  assert (guest_mem d' = guest_mem d ∧ regs d' = regs d ∧ host_dirty d' = host_dirty d ∧ rng d' = rng d ∧ host d' = host d)
    as (-> & -> & -> & -> & ->) by (by destruct Hs as [-> | (?&?&?&->&_)]).
  destruct (guest_mem d) as [mem|]; [|by eexists _, _, _].
  destruct (queue_config (regs d) QUEUE_RNG) as [c|]; [|by eexists _, _, _].
  fold (queue_processor d c) (queue_processor d' c). rewrite (rng_queue_processor_same _ _ _ Hs).
  destruct (descriptors_total rng_handler (fun _ => True)) with (q := queue_processor d c)
    (w := mkWorld mem (host_dirty d)) (h := (rng d, host d)) as (p' & w' & [r' h'] & n & -> & Hp & _ & _);
    [done|by apply queue_processor_ok|done|].
  eexists _, _, _. split; [reflexivity|]. split; [reflexivity|]. split; [|by case_goal].
  left. by destruct Hs as [-> | (?&?&?&->&_)].
Qed.

Lemma rng_mmio_write_same o v d d' :
  rng_ok d → same_device d d' →
  ∃ d1 d1', mmio_write d o v = Some d1 ∧ mmio_write d' o v = Some d1' ∧ same_device d1 d1' ∧ rng_ok d1.
Proof.
  intros Hok Hs.
  assert (Hstep : ∀ f, (∀ d p, processor (f d) = processor d ∧ f (with_processor d p) = with_processor (f d) p) →
    ∃ d1 d1', Some (f d) = Some d1 ∧ Some (f d') = Some d1' ∧ same_device d1 d1' ∧ rng_ok d1).
  { intros f Hf. eexists _, _. split; [done|]. split; [done|]. by apply rng_same_step. }
  unfold mmio_write. repeat match goal with |- context [if ?b then _ else _] => case_eq b; intros ? end; try (by apply Hstep).
  - eexists _, _. split; [done|]. split; [done|]. split; [|done]. left. by destruct Hs as [-> | (?&?&?&->&_)].
  - by apply (Hstep (fun d => on_regs (fun t => write_status_bits t (as_u32 v)) (on_regs count_status_write d))).
  - destruct (rng_same_step (on_regs count_notify)) with (d := d) (d' := d') as [Hs1 Hok1]; [done..|].
    destruct (rng_process_queue_same (as_u32 v) _ _ Hok1 Hs1) as (n & d1 & d1' & -> & -> & Hs2 & Hok2). by eexists _, _.
  - destruct (write_queue_reg o (as_u32 v)); [by apply Hstep|]. by apply (Hstep (fun d => d)).
Qed.

Lemma rng_mmio_read_same o d d' : same_device d d' → mmio_read d' o = mmio_read d o.
Proof. by intros [-> | (?&?&?&->&_)]. Qed.

Lemma rng_run_accesses_same l : ∀ d d',
  rng_ok d → same_device d d' →
  ∃ out d1 d1', run_accesses l d = Some (out, d1) ∧ run_accesses l d' = Some (out, d1') ∧ same_device d1 d1' ∧ rng_ok d1.
Proof.
  induction l as [|[o|o v] l IH]; intros d d' Hok Hs; cbn [run_accesses]; [by eexists _, _, _| |].
  - destruct (IH d d' Hok Hs) as (out & d1 & d1' & -> & -> & ?). rewrite (rng_mmio_read_same _ _ _ Hs). by eexists _, _, _.
  - destruct (rng_mmio_write_same o v d d' Hok Hs) as (d1 & d1' & -> & -> & Hs1 & Hok1). by apply IH.
Qed.

Lemma rng_restored_same d d0 :
  rng_ok d → with_processor (with_regs d0 (regs d)) (processor d) = d →
  t_irq_evt (regs d0) = t_irq_evt (regs d) → t_notify_count (regs d0) = t_notify_count (regs d) →
  t_status_writes (regs d0) = t_status_writes (regs d) →
  (processor d ≠ None → queue_config (regs d) QUEUE_RNG ≠ None) → same_device d (apply_state d0 (save d)).
Proof.
  intros Hok Hd0 E1 E2 E3 Hq. unfold apply_state. cbn [s_status s_queue_sel s_host_features_sel s_guest_features_sel
    s_guest_features_low s_guest_features_high s_queues s_activated s_interrupt_status s_processor save].
  rewrite E1, E2, E3. set (t := mkTransport _ _ _ _ _ _ _ _ _ _ _ _).
  assert (t = regs d) as -> by (by destruct d as [????[]]).
  assert (∀ x, with_processor (with_regs d0 (regs d)) x = with_processor d x) as -> by (intros x; by rewrite <- Hd0).
  unfold rng_ok in Hok. destruct (processor d) as [p|] eqn:Hp; cbn [fmap option_fmap option_map]; [|left; by destruct d; simpl in *; subst].
  destruct (queue_config (regs d) QUEUE_RNG) as [c|]; [|by destruct Hq].
  right. exists p. eexists. split; [done|]. split; [done|]. split; [done|]. cbn in Hok. split; [exact Hok|].
  destruct Hok as (? & ? & _). done.
Qed.

(** The driver cannot wedge the entropy device, and a snapshot of it loses
    nothing. From a new device every sequence of register accesses completes,
    whatever guest memory and the generator hold. Restoring what was saved at
    any point into a device on the same memory and generator gives one that
    answers every further sequence of accesses with the same values, provided
    the queue, once served, is still configured. *)
Theorem rng_restore_bisimilar irq r h (mem : M) dirty before after :
  ∃ out d, run_accesses before (set_guest_memory mem (with_host_dirty (rng_mmio_new irq r h) dirty)) = Some (out, d) ∧
    ∀ d0, with_processor (with_regs d0 (regs d)) (processor d) = d → t_irq_evt (regs d0) = t_irq_evt (regs d) →
      t_notify_count (regs d0) = t_notify_count (regs d) → t_status_writes (regs d0) = t_status_writes (regs d) →
      (processor d ≠ None → queue_config (regs d) QUEUE_RNG ≠ None) →
      ∃ out' d1 d1', run_accesses after d = Some (out', d1) ∧
        run_accesses after (apply_state d0 (save d)) = Some (out', d1') ∧ same_device d1 d1'.
Proof.
  set (dn := set_guest_memory _ _).
  destruct (rng_run_accesses_same before dn dn) as (out & d & _ & Hrun & _ & _ & Hok); [done|by left|].
  exists out, d. split; [done|]. intros d0 Hd0 E1 E2 E3 Hq.
  destruct (rng_run_accesses_same after d (apply_state d0 (save d)) Hok) as (out' & d1 & d1' & H1 & H2 & H3 & _);
    [by apply rng_restored_same|]. by eexists _, _, _.
Qed.

End snapshot.

(** A driver that offers one buffer of 32 bytes to a host that is interrupted
    and then gives half of them. *)
Module ExampleRng.

Definition queue : QueueState := mkQueue 2 0 64 96 true.
Definition cfg : QueueConfig := queue_config_from_state queue.
Definition mem : gmap Z Z :=
  ByteMap.store (ByteMap.store (ByteMap.zeros 0 192) 0 (ExampleQueue.encode_desc (mkDesc 128 32 WRITE 0))) 64 [0; 0; 1; 0; 0; 0].
Definition chain : DescriptorChain := mkChain [] [(128, 32)] 1.
Definition generator_ : Host := mkHost (fun i => Z.of_nat i mod 256) 7 [Interrupted; Gave 16].
Definition device : VirtioRngMmio (gmap Z Z) :=
  with_guest_mem (on_regs (fun t => with_queues t [queue]) (rng_mmio_new 5 rng_new generator_)) (Some mem).

Lemma rng_mem_laid_out : laid_out mem 192.
Proof.
  split; [lia|]. intros a Ha. unfold mem.
  rewrite !store_check by (vm_compute; reflexivity). rewrite bm_zeros_check by (unfold U64_MAX; lia).
  split; [intros ?; exists a|intros [o Ho]; revert Ho]; rewrite gpa_to_offset_Some by lia;
    unfold MMIO_GAP_START, MMIO_GAP_END; lia.
Qed.

Lemma rng_mem_pending : pending mem (queue_processor device cfg) 1 = [(0, chain)].
Proof. vm_compute. reflexivity. Qed.

Lemma rng_mem_ready : kickable device mem cfg 1 192.
Proof.
  split; try reflexivity.
  - split_and!; unfold in_u16, U16_MAX; simpl; lia || done.
  - split; [repeat constructor; done|]. intros i. cbn [source generator_]. unfold is_byte.
    apply Z.mod_pos_bound. lia.
  - exact rng_mem_laid_out.
  - vm_compute. discriminate.
  - rewrite rng_mem_pending. unfold well_separated, rings_apart, used_zone, table_or_avail, written, in_bufs. cbn. split_and!.
    + intros. lia.
    + intros x (r & ->%list_elem_of_singleton & b & ->%list_elem_of_singleton & Hx). simpl in Hx. lia.
    + intros x _ (b & []%not_elem_of_nil & _).
    + done.
    + intros r x ->%list_elem_of_singleton (b & []%not_elem_of_nil & _).
Qed.

End ExampleRng.

Lemma rng_kick_fresh_witness :
  ∃ d' m', mmio_write ExampleRng.device reg.QUEUE_NOTIFY 0 = Some d' ∧ guest_mem d' = Some m' ∧
    holds m' (seqZ 128 32) (seqZ 7 32) ∧ drawn (host d') = 39%nat.
Proof.
  destruct (rng_kick_fresh ExampleRng.device ExampleRng.mem ExampleRng.cfg 1 192 ExampleRng.rng_mem_ready)
    as (d' & m' & Hrun & Hm & Hh & Hf & _).
  exists d', m'. rewrite ExampleRng.rng_mem_pending in Hh, Hf. split; [exact Hrun|]. split; [exact Hm|].
  split; [exact Hh|exact (proj1 (proj2 Hf))].
Defined.

Lemma rng_restore_bisimilar_witness :
  ∃ out' d1 d1', run_accesses [MmioRead reg.QUEUE_NUM] (set_guest_memory ExampleRng.mem (rng_mmio_new 5 rng_new ExampleRng.generator_)) = Some (out', d1) ∧
    run_accesses [MmioRead reg.QUEUE_NUM] (apply_state (set_guest_memory ExampleRng.mem (rng_mmio_new 5 rng_new ExampleRng.generator_))
      (save (set_guest_memory ExampleRng.mem (rng_mmio_new 5 rng_new ExampleRng.generator_)))) = Some (out', d1') ∧ same_device d1 d1'.
Proof.
  destruct (rng_restore_bisimilar 5 rng_new ExampleRng.generator_ ExampleRng.mem None [] [MmioRead reg.QUEUE_NUM])
    as (out & d & Hrun & H). injection Hrun as _ <-. apply H; try reflexivity. intros []. reflexivity.
Defined.
