(* ===== verification/Net.v ===== *)
(** * The network device ([virtio/net_transport.rs])

    One definition per method, in the order of the source, over the registers
    of [Transport], the processor of [VQueue] and the limiter of [RateLimit].
    The tap is part of the state: the frames that wait to be read, the frames
    that were written, and what single calls of [write] answer. A mutex that a
    panicking thread left behind is listed in [poisoned]; the interrupt event
    is the count of its writes. Log output has no counterpart. *)

From S2P Require Import Prelude Dirty GuestMem GuestRam VQueue RateLimit Bus Regs Dev BlkIov Transport.

Definition VIRTIO_NET_HDR_LEN : Z := 12.
Definition VIRTIO_NET_HDR_NUM_BUFFERS_OFF : Z := 10.
Definition NET_QUEUE_SIZE_MAX : Z := 1024.
Definition MAX_FRAME_BYTES : Z := 1600.
Definition MAX_GSO_FRAME_BYTES : Z := VIRTIO_NET_HDR_LEN + 65550.

Module net_features.
Definition CSUM : Z := 1.
Definition GUEST_CSUM : Z := 2.
Definition MAC : Z := 32.
Definition GUEST_TSO4 : Z := 128.
Definition GUEST_TSO6 : Z := 256.
Definition HOST_TSO4 : Z := 2048.
Definition HOST_TSO6 : Z := 4096.
Definition MRG_RXBUF : Z := 32768.
Definition RING_EVENT_IDX : Z := 536870912.
Definition OFFLOADS : Z :=
  Z.lor (Z.lor (Z.lor (Z.lor (Z.lor CSUM GUEST_CSUM) GUEST_TSO4) GUEST_TSO6) HOST_TSO4) HOST_TSO6.
End net_features.

Definition VIRTIO_NET_HDR_F_NEEDS_CSUM : Z := 1.
Definition VIRTIO_NET_HDR_GSO_NONE : Z := 0.
Definition VIRTIO_NET_HDR_GSO_TCPV4 : Z := 1.
Definition VIRTIO_NET_HDR_GSO_TCPV6 : Z := 4.
Definition VIRTIO_NET_HDR_GSO_ECN : Z := 128.

Definition tap_offloads_for (guest_features : Z) : Z :=
  if negb (has_bits guest_features net_features.GUEST_CSUM) then 0
  else
    let flags := 1 in
    let flags := if has_bits guest_features net_features.GUEST_TSO4 then Z.lor flags 2 else flags in
    if has_bits guest_features net_features.GUEST_TSO6 then Z.lor flags 4 else flags.

Definition QUEUE_RX : nat := 0.
Definition QUEUE_TX : nat := 1.

(** [GuestMemory::get_slice]: whether one view of host memory is the range. *)
Class GuestSlice (M : Type) := gm_slice : M → Z → Z → bool.

(** ** The tap *)

(** What a read of the tap can find next. *)
Inductive tap_read : Type :=
| Frame (bs : list Z)
| ReadError.

(** What a call of [write] answers: a number of bytes, or an error. *)
Inductive tap_write : Type :=
| Wrote (n : nat)
| WriteError.

Record Tap := mkTap {
  incoming : list tap_read;
  sent : list (list Z);
  writes : list tap_write;
}.

(** [libc::write]: how many bytes the tap took, [None] for an error. With the
    answers used up it takes the whole frame. *)
Definition tap_send (t : Tap) (wire : list Z) : option nat * Tap :=
  match writes t with
  | [] => (Some (length wire), mkTap (incoming t) (sent t ++ [wire]) [])
  | Wrote O :: rest => (Some O, mkTap (incoming t) (sent t) rest)
  | Wrote n :: rest => (Some (Nat.min n (length wire)), mkTap (incoming t) (sent t ++ [take n wire]) rest)
  | WriteError :: rest => (None, mkTap (incoming t) (sent t) rest)
  end.

(** [libc::readv]: the next frame goes to the views, cut off where they end.
    More views than [UIO_MAXIOV] are refused, and without room nothing is
    read. *)
Definition tap_readv {M : Type} `{!GuestMemoryBackend M} (t : Tap) (m : M) (iov : list iovec)
    : option nat * Tap * M :=
  let room := length (addrs iov) in
  if (UIO_MAXIOV <? length iov)%nat then (None, t, m)
  else if (room =? 0)%nat then (Some O, t, m)
  else match incoming t with
  | [] => (None, t, m)
  | ReadError :: rest => (None, mkTap rest (sent t) (writes t), m)
  | Frame bs :: rest =>
      (Some (Nat.min room (length bs)), mkTap rest (sent t) (writes t), store_bytes m (addrs iov) bs)
  end.

(** The mutexes. *)
Inductive Lock : Type :=
| LQueues | LGuestMem | LHostDirty | LRxProcessor | LTxProcessor | LRateLimiter | LTapFd | LIrqEvt.

#[export] Instance net_lock_eq_dec : EqDecision Lock.
Proof. solve_decision. Defined.

Inductive PersistError : Type :=
| Unavailable.

Record VirtioNetMmioState := mkNetState {
  s_status : Z;
  s_queue_sel : Z;
  s_host_features_sel : Z;
  s_guest_features_sel : Z;
  s_guest_features : Z;
  s_queues : list QueueState;
  s_activated : bool;
  s_interrupt_status : Z;
  s_rx_processor : option VirtQueueProcessorState;
  s_tx_processor : option VirtQueueProcessorState;
}.

(** ** The device

    The one word of guest features is the low word of the registers. *)
Section device.
Context {M : Type}.

Record VirtioNetMmio := mkNet {
  irq : Z;
  device_id : Z;
  vendor_id : Z;
  version : Z;
  mac : list Z;
  features : Z;
  regs : Transport;
  guest_mem : option M;
  host_dirty : option DirtyBitmap.t;
  rx_processor : option VirtQueueProcessor;
  tx_processor : option VirtQueueProcessor;
  rate_limiter : option RateLimiter.t;
  tap_fd : option Z;
  vnet_hdr : bool;
  pending_offloads : Z;
  rx_irq_pending : bool;
  tx_packets : Z;
  rx_packets : Z;
  tx_bytes : Z;
  rx_bytes : Z;
  poisoned : list Lock;
  tap : Tap;
  clock : nat → Z;
  ticks : nat;
}.

Definition with_regs (d : VirtioNetMmio) (v : Transport) : VirtioNetMmio :=
  mkNet (irq d) (device_id d) (vendor_id d) (version d) (mac d) (features d) v (guest_mem d)
    (host_dirty d) (rx_processor d) (tx_processor d) (rate_limiter d) (tap_fd d) (vnet_hdr d)
    (pending_offloads d) (rx_irq_pending d) (tx_packets d) (rx_packets d) (tx_bytes d) (rx_bytes
    d) (poisoned d) (tap d) (clock d) (ticks d).
Definition with_guest_mem (d : VirtioNetMmio) (v : option M) : VirtioNetMmio :=
  mkNet (irq d) (device_id d) (vendor_id d) (version d) (mac d) (features d) (regs d) v
    (host_dirty d) (rx_processor d) (tx_processor d) (rate_limiter d) (tap_fd d) (vnet_hdr d)
    (pending_offloads d) (rx_irq_pending d) (tx_packets d) (rx_packets d) (tx_bytes d) (rx_bytes
    d) (poisoned d) (tap d) (clock d) (ticks d).
Definition with_host_dirty (d : VirtioNetMmio) (v : option DirtyBitmap.t) : VirtioNetMmio :=
  mkNet (irq d) (device_id d) (vendor_id d) (version d) (mac d) (features d) (regs d) (guest_mem
    d) v (rx_processor d) (tx_processor d) (rate_limiter d) (tap_fd d) (vnet_hdr d)
    (pending_offloads d) (rx_irq_pending d) (tx_packets d) (rx_packets d) (tx_bytes d) (rx_bytes
    d) (poisoned d) (tap d) (clock d) (ticks d).
Definition with_rx_processor (d : VirtioNetMmio) (v : option VirtQueueProcessor) : VirtioNetMmio :=
  mkNet (irq d) (device_id d) (vendor_id d) (version d) (mac d) (features d) (regs d) (guest_mem
    d) (host_dirty d) v (tx_processor d) (rate_limiter d) (tap_fd d) (vnet_hdr d)
    (pending_offloads d) (rx_irq_pending d) (tx_packets d) (rx_packets d) (tx_bytes d) (rx_bytes
    d) (poisoned d) (tap d) (clock d) (ticks d).
Definition with_tx_processor (d : VirtioNetMmio) (v : option VirtQueueProcessor) : VirtioNetMmio :=
  mkNet (irq d) (device_id d) (vendor_id d) (version d) (mac d) (features d) (regs d) (guest_mem
    d) (host_dirty d) (rx_processor d) v (rate_limiter d) (tap_fd d) (vnet_hdr d)
    (pending_offloads d) (rx_irq_pending d) (tx_packets d) (rx_packets d) (tx_bytes d) (rx_bytes
    d) (poisoned d) (tap d) (clock d) (ticks d).
Definition with_rate_limiter (d : VirtioNetMmio) (v : option RateLimiter.t) : VirtioNetMmio :=
  mkNet (irq d) (device_id d) (vendor_id d) (version d) (mac d) (features d) (regs d) (guest_mem
    d) (host_dirty d) (rx_processor d) (tx_processor d) v (tap_fd d) (vnet_hdr d)
    (pending_offloads d) (rx_irq_pending d) (tx_packets d) (rx_packets d) (tx_bytes d) (rx_bytes
    d) (poisoned d) (tap d) (clock d) (ticks d).
Definition with_tap_fd (d : VirtioNetMmio) (v : option Z) : VirtioNetMmio :=
  mkNet (irq d) (device_id d) (vendor_id d) (version d) (mac d) (features d) (regs d) (guest_mem
    d) (host_dirty d) (rx_processor d) (tx_processor d) (rate_limiter d) v (vnet_hdr d)
    (pending_offloads d) (rx_irq_pending d) (tx_packets d) (rx_packets d) (tx_bytes d) (rx_bytes
    d) (poisoned d) (tap d) (clock d) (ticks d).
Definition with_vnet_hdr (d : VirtioNetMmio) (v : bool) : VirtioNetMmio :=
  mkNet (irq d) (device_id d) (vendor_id d) (version d) (mac d) (features d) (regs d) (guest_mem
    d) (host_dirty d) (rx_processor d) (tx_processor d) (rate_limiter d) (tap_fd d) v
    (pending_offloads d) (rx_irq_pending d) (tx_packets d) (rx_packets d) (tx_bytes d) (rx_bytes
    d) (poisoned d) (tap d) (clock d) (ticks d).
Definition with_pending_offloads (d : VirtioNetMmio) (v : Z) : VirtioNetMmio :=
  mkNet (irq d) (device_id d) (vendor_id d) (version d) (mac d) (features d) (regs d) (guest_mem
    d) (host_dirty d) (rx_processor d) (tx_processor d) (rate_limiter d) (tap_fd d) (vnet_hdr d) v
    (rx_irq_pending d) (tx_packets d) (rx_packets d) (tx_bytes d) (rx_bytes d) (poisoned d) (tap
    d) (clock d) (ticks d).
Definition with_rx_irq_pending (d : VirtioNetMmio) (v : bool) : VirtioNetMmio :=
  mkNet (irq d) (device_id d) (vendor_id d) (version d) (mac d) (features d) (regs d) (guest_mem
    d) (host_dirty d) (rx_processor d) (tx_processor d) (rate_limiter d) (tap_fd d) (vnet_hdr d)
    (pending_offloads d) v (tx_packets d) (rx_packets d) (tx_bytes d) (rx_bytes d) (poisoned d)
    (tap d) (clock d) (ticks d).
Definition with_tx_packets (d : VirtioNetMmio) (v : Z) : VirtioNetMmio :=
  mkNet (irq d) (device_id d) (vendor_id d) (version d) (mac d) (features d) (regs d) (guest_mem
    d) (host_dirty d) (rx_processor d) (tx_processor d) (rate_limiter d) (tap_fd d) (vnet_hdr d)
    (pending_offloads d) (rx_irq_pending d) v (rx_packets d) (tx_bytes d) (rx_bytes d) (poisoned
    d) (tap d) (clock d) (ticks d).
Definition with_rx_packets (d : VirtioNetMmio) (v : Z) : VirtioNetMmio :=
  mkNet (irq d) (device_id d) (vendor_id d) (version d) (mac d) (features d) (regs d) (guest_mem
    d) (host_dirty d) (rx_processor d) (tx_processor d) (rate_limiter d) (tap_fd d) (vnet_hdr d)
    (pending_offloads d) (rx_irq_pending d) (tx_packets d) v (tx_bytes d) (rx_bytes d) (poisoned
    d) (tap d) (clock d) (ticks d).
Definition with_tx_bytes (d : VirtioNetMmio) (v : Z) : VirtioNetMmio :=
  mkNet (irq d) (device_id d) (vendor_id d) (version d) (mac d) (features d) (regs d) (guest_mem
    d) (host_dirty d) (rx_processor d) (tx_processor d) (rate_limiter d) (tap_fd d) (vnet_hdr d)
    (pending_offloads d) (rx_irq_pending d) (tx_packets d) (rx_packets d) v (rx_bytes d) (poisoned
    d) (tap d) (clock d) (ticks d).
Definition with_rx_bytes (d : VirtioNetMmio) (v : Z) : VirtioNetMmio :=
  mkNet (irq d) (device_id d) (vendor_id d) (version d) (mac d) (features d) (regs d) (guest_mem
    d) (host_dirty d) (rx_processor d) (tx_processor d) (rate_limiter d) (tap_fd d) (vnet_hdr d)
    (pending_offloads d) (rx_irq_pending d) (tx_packets d) (rx_packets d) (tx_bytes d) v (poisoned
    d) (tap d) (clock d) (ticks d).
Definition with_poisoned (d : VirtioNetMmio) (v : list Lock) : VirtioNetMmio :=
  mkNet (irq d) (device_id d) (vendor_id d) (version d) (mac d) (features d) (regs d) (guest_mem
    d) (host_dirty d) (rx_processor d) (tx_processor d) (rate_limiter d) (tap_fd d) (vnet_hdr d)
    (pending_offloads d) (rx_irq_pending d) (tx_packets d) (rx_packets d) (tx_bytes d) (rx_bytes
    d) v (tap d) (clock d) (ticks d).
Definition with_tap (d : VirtioNetMmio) (v : Tap) : VirtioNetMmio :=
  mkNet (irq d) (device_id d) (vendor_id d) (version d) (mac d) (features d) (regs d) (guest_mem
    d) (host_dirty d) (rx_processor d) (tx_processor d) (rate_limiter d) (tap_fd d) (vnet_hdr d)
    (pending_offloads d) (rx_irq_pending d) (tx_packets d) (rx_packets d) (tx_bytes d) (rx_bytes
    d) (poisoned d) v (clock d) (ticks d).
Definition with_ticks (d : VirtioNetMmio) (v : nat) : VirtioNetMmio :=
  mkNet (irq d) (device_id d) (vendor_id d) (version d) (mac d) (features d) (regs d) (guest_mem
    d) (host_dirty d) (rx_processor d) (tx_processor d) (rate_limiter d) (tap_fd d) (vnet_hdr d)
    (pending_offloads d) (rx_irq_pending d) (tx_packets d) (rx_packets d) (tx_bytes d) (rx_bytes
    d) (poisoned d) (tap d) (clock d) v.

Definition on_regs (f : Transport → Transport) (d : VirtioNetMmio) : VirtioNetMmio := with_regs d (f (regs d)).

(** [new] on a host with the given tap and clock. *)
Definition net_new (irq : Z) (mac : list Z) (tap : Tap) (clock : nat → Z) : VirtioNetMmio :=
  mkNet irq 1 0 2 mac net_features.MAC (transport_new 2) None None None None None None false U32_MAX false
    0 0 0 0 [] tap clock 0.

Definition current_status (d : VirtioNetMmio) : Z := t_status (regs d).
Definition is_activated (d : VirtioNetMmio) : bool := t_activated (regs d).
Definition guest_features (d : VirtioNetMmio) : Z := t_guest_features_low (regs d).

Definition set_vnet_hdr (v : bool) (d : VirtioNetMmio) : VirtioNetMmio := with_vnet_hdr d v.

Definition host_features (d : VirtioNetMmio) : Z :=
  let features := Z.lor (Z.lor (features d) net_features.RING_EVENT_IDX) net_features.MRG_RXBUF in
  if vnet_hdr d then Z.lor features net_features.OFFLOADS else features.

Definition negotiated_event_idx (d : VirtioNetMmio) : bool := has_bits (guest_features d) net_features.RING_EVENT_IDX.
Definition mergeable (d : VirtioNetMmio) : bool := has_bits (guest_features d) net_features.MRG_RXBUF.
Definition negotiated_offloads (d : VirtioNetMmio) : Z := Z.land (guest_features d) net_features.OFFLOADS.

Definition request_tap_offloads (guest_features : Z) (d : VirtioNetMmio) : VirtioNetMmio :=
  if vnet_hdr d then with_pending_offloads d (tap_offloads_for guest_features) else d.

Definition take_offload_request (d : VirtioNetMmio) : option Z * VirtioNetMmio :=
  (if pending_offloads d =? U32_MAX then None else Some (pending_offloads d),
   with_pending_offloads d U32_MAX).

(** A frame counted as sent or as received. *)
Definition count_tx (bytes : Z) (d : VirtioNetMmio) : VirtioNetMmio :=
  with_tx_bytes (with_tx_packets d (u64_fetch_add (tx_packets d) 1)) (u64_fetch_add (tx_bytes d) bytes).
Definition count_rx (bytes : Z) (d : VirtioNetMmio) : VirtioNetMmio :=
  with_rx_bytes (with_rx_packets d (u64_fetch_add (rx_packets d) 1)) (u64_fetch_add (rx_bytes d) bytes).

End device.

Arguments VirtioNetMmio : clear implicits.

(** ** Descriptor chains *)
Section chains.
Context {M : Type} `{!GuestMemoryBackend M}.

(** [n] bytes at offset [at_] of a chain, [acc] the bytes read before. *)
Fixpoint read_chain (m : M) (chain : list (Z * Z)) (at_ n : Z) (acc : list Z) : option (list Z) :=
  match chain with
  | [] => None
  | (addr, len) :: chain' =>
      if len <=? at_ then read_chain m chain' (at_ - len) n acc
      else
        let take := Z.min (len - at_) (n - Z.of_nat (length acc)) in
        let?o bs := gm_read_slice m (addr + at_) take in
        if Z.of_nat (length (acc ++ bs)) =? n then Some (acc ++ bs) else read_chain m chain' 0 n (acc ++ bs)
  end.

(** [data] at offset [at_] of a chain; whether it was written. *)
Fixpoint write_chain (m : M) (chain : list (Z * Z)) (at_ : Z) (data : list Z) : bool * M :=
  match chain with
  | [] => (false, m)
  | (addr, len) :: chain' =>
      if len <=? at_ then write_chain m chain' (at_ - len) data
      else
        let n := Z.to_nat (Z.min (len - at_) (Z.of_nat (length data))) in
        match gm_write_slice m (addr + at_) (take n data) with
        | (false, m') => (false, m')
        | (true, m') => if (n =? length data)%nat then (true, m') else write_chain m' chain' 0 (drop n data)
        end
  end.

(** The copy loop over the buffers of a chain: [source] is what is left of the
    piece being copied, [sources] the pieces after it. *)
Fixpoint copy_buf (w : World M) (at_ room : Z) (source : list Z) (sources : list (list Z))
    : bool * World M * list Z * list (list Z) :=
  if room <=? 0 then (true, w, source, sources)
  else
    let n := Nat.min (Z.to_nat room) (length source) in
    let '(ok, w) := if (n =? 0)%nat then (true, w) else write_mem w (take n source) at_ in
    if negb ok then (false, w, source, sources)
    else if Z.of_nat n =? room then (true, w, drop n source, sources)
    else match sources with
    | [] => (true, w, [], [])
    | next :: rest => copy_buf w (at_ + Z.of_nat n) (room - Z.of_nat n) next rest
    end.

Fixpoint copy_bufs (w : World M) (bufs : list (Z * Z)) (source : list Z) (sources : list (list Z)) : bool * World M :=
  match bufs with
  | [] => (true, w)
  | (addr, len) :: bufs' =>
      match copy_buf w addr len source sources with
      | (false, w', _, _) => (false, w')
      | (true, w', source', sources') => copy_bufs w' bufs' source' sources'
      end
  end.

(** The pages of the first [left] bytes of a chain. *)
Fixpoint mark_frame (left : Z) (bufs : list (Z * Z)) (dirty : DirtyBitmap.t) : DirtyBitmap.t :=
  match bufs with
  | [] => dirty
  | (addr, size) :: bufs' =>
      let take := Z.min left size in
      let dirty := SoftwareDirtyBitmap.mark_guest_range dirty addr take in
      if left - take =? 0 then dirty else mark_frame (left - take) bufs' dirty
  end.

(** How many bytes of a frame go to each chain. *)
Fixpoint split_lens (left : Z) (capacities : list Z) : list Z :=
  match capacities with
  | [] => []
  | capacity :: rest =>
      if left =? 0 then []
      else let take := Z.min left capacity in as_u32 take :: split_lens (left - take) rest
  end.

(** The views of buffers, [None] when one has none. *)
Definition views `{!GuestSlice M} (m : M) (bufs : list (Z * Z)) : option (list iovec) :=
  if forallb (fun b => gm_slice m b.1 b.2) bufs then Some ((fun b => mkIov b.1 (Z.to_nat b.2)) <$> bufs) else None.

End chains.

(** A frame header with its count of buffers. *)
Definition set_num_buffers (header : list Z) (n : Z) : list Z := take 10 header ++ le_encode 2 n.

(** Whether the offloads of a received frame are among the accepted ones. *)
Definition rx_header_allowed (accepted : Z) (header : list Z) : bool :=
  let needs_csum := has_bits (nth 0 header 0) VIRTIO_NET_HDR_F_NEEDS_CSUM in
  let gso := nth 1 header 0 in
  let gso_ok :=
    if gso =? VIRTIO_NET_HDR_GSO_NONE then true
    else if gso =? VIRTIO_NET_HDR_GSO_TCPV4 then has_bits accepted net_features.GUEST_TSO4
    else if gso =? VIRTIO_NET_HDR_GSO_TCPV6 then has_bits accepted net_features.GUEST_TSO6
    else false in
  (negb needs_csum || has_bits accepted net_features.GUEST_CSUM) && gso_ok.

Definition rx_frame_limit (accepted : Z) : Z :=
  if has_bits accepted (Z.lor net_features.GUEST_TSO4 net_features.GUEST_TSO6) then MAX_GSO_FRAME_BYTES
  else MAX_FRAME_BYTES.

Section net.
Context {M : Type} `{!GuestMemoryBackend M} `{!GuestSlice M}.

Abbreviation device := (VirtioNetMmio M).
Abbreviation op_ A := (dev device MmioError A).

(** ** Failure and locks *)

Definition fail_device (d : device) : device :=
  on_regs (fun t => with_activated (with_status t (Z.lor (t_status t) (Z.lor DEVICE_NEEDS_RESET FAILED))) false) d.

Definition fail_worker (d : device) : device := fail_device d.

Definition is_failed (d : device) : bool := has_bits (t_status (regs d)) (Z.lor DEVICE_NEEDS_RESET FAILED).

Definition ensure_operational : op_ unit :=
  let* d := get in
  if is_failed d then fail DeviceRejected else ret tt.

Definition try_lock_state (l : Lock) : op_ unit :=
  fun d => if decide (l ∈ poisoned d) then Some (Err DeviceRejected, fail_device d) else Some (Ok tt, d).

Definition snapshot_lock (l : Lock) : dev device PersistError unit :=
  fun d => if decide (l ∈ poisoned d) then Some (Err Unavailable, fail_device d) else Some (Ok tt, d).

(** A poisoned lock is entered all the same. *)
Definition lock_state {E : Type} (l : Lock) : dev device E unit :=
  modify (fun d => if decide (l ∈ poisoned d) then fail_device d else d).

(** ** Configuration by the controller *)

Definition set_guest_memory (mem : M) : op_ unit :=
  do* lock_state LGuestMem in modify (fun d => with_guest_mem d (Some mem)).

Definition set_guest_dirty_tracker (dirty : DirtyBitmap.t) : op_ unit :=
  do* lock_state LHostDirty in modify (fun d => with_host_dirty d (Some dirty)).

Definition set_rate_limiter (rl : RateLimiter.t) : op_ unit :=
  do* lock_state LRateLimiter in modify (fun d => with_rate_limiter d (Some rl)).

Definition rate_limit_allows (bytes : Z) : op_ bool :=
  do* try_lock_state LRateLimiter in
  let* d := get in
  match rate_limiter d with
  | Some rl =>
      let '(allowed, rl') := RateLimiter.try_charge_at rl 1 bytes (clock d (ticks d)) in
      do* modify (fun d => with_ticks (with_rate_limiter d (Some rl')) (S (ticks d))) in
      ret allowed
  | None => ret true
  end.

Definition set_tap_fd (fd : Z) (v : bool) : op_ unit :=
  do* lock_state LTapFd in
  modify (fun d => set_vnet_hdr v (with_tap_fd d (Some fd))).

Definition set_irq_evt (evt : Z) : op_ unit :=
  do* lock_state LIrqEvt in modify (on_regs (fun t => with_irq_evt t (Some evt))).

(** ** Interrupts *)

Definition reassert_pending_interrupt : op_ unit :=
  fun d =>
    if t_interrupt_status (regs d) =? 0 then Some (Ok tt, d)
    else match try_lock_state LIrqEvt d with
    | Some (Ok _, d') => Some (Ok tt, on_regs bump_irq d')
    | Some (Err _, d') => Some (Ok tt, d')
    | None => None
    end.

Definition trigger_interrupt : op_ unit :=
  do* modify (on_regs raise) in
  do* try_lock_state LIrqEvt in
  modify (on_regs bump_irq).

Definition queue_config (idx : nat) : op_ (option QueueConfig) :=
  do* try_lock_state LQueues in
  let* d := get in
  ret (let?o q := t_queues (regs d) !! idx in
       if negb (q_ready q) || negb (valid_size_upto NET_QUEUE_SIZE_MAX q) then None
       else Some (queue_config_from_state q)).

(** The walker of a queue as the calls find it. *)
Definition ready_processor (p : option VirtQueueProcessor) (cfg : QueueConfig) (ev : bool) : VirtQueueProcessor :=
  VQueue.set_event_idx (match p with None => new cfg | Some p => update_config p cfg end) ev.

(** ** Transmission *)

(** What the closure of [process_tx_queue] captures. *)
Record Sending := mkSending {
  x_dev : device;
  x_pkts : Z;
  x_failed : bool;
}.

(** The readable buffers in one, [None] when they are more than a frame. *)
Fixpoint assemble (m : M) (max_frame : Z) (readable : list (Z * Z)) (buf : list Z) : option (list Z) :=
  match readable with
  | [] => Some buf
  | (addr, len) :: rest =>
      if len =? 0 then assemble m max_frame rest buf
      else
        let?o new_len := u64_checked_add (Z.of_nat (length buf)) len in
        if max_frame <? new_len then None
        else
          let?o bs := gm_read_slice m addr len in
          assemble m max_frame rest (buf ++ bs)
  end.

(** One frame to the tap. *)
Definition transmit (wire : list Z) (s : Sending) : Sending :=
  let d := x_dev s in
  match tap_send (tap d) wire with
  | (Some (S _ as n), t) => mkSending (count_tx (Z.of_nat n) (with_tap d t)) (x_pkts s + 1) (x_failed s)
  | (_, t) => mkSending (with_tap d t) (x_pkts s) (x_failed s)
  end.

Definition tx_handler (fd : option Z) (vnet : bool) (w : World M) (s : Sending) (readable writable : list (Z * Z))
    : World M * Sending * option Z :=
  let max_frame := if vnet then MAX_GSO_FRAME_BYTES else MAX_FRAME_BYTES in
  match assemble (w_mem w) max_frame readable [] with
  | None => (w, s, Some 0)
  | Some buf =>
      if Z.of_nat (length buf) <=? VIRTIO_NET_HDR_LEN then (w, s, Some 0)
      else
        let packet := drop 12 buf in
        let wire := if vnet then buf else packet in
        match rate_limit_allows (Z.of_nat (length packet)) (x_dev s) with
        | Some (Ok true, d) =>
            let s := mkSending d (x_pkts s) (x_failed s) in
            (w, match fd with Some _ => transmit wire s | None => s end, Some 0)
        | Some (Ok false, d) => (w, mkSending d (x_pkts s) (x_failed s), None)
        | Some (Err _, d) => (w, mkSending d (x_pkts s) true, None)
        | None => (w, s, None)
        end
  end.

(** Guest memory and the tracker are shared with the device, so what a pass
    leaves of them is put back with the walker. *)
Definition put_tx (p : VirtQueueProcessor) (w : World M) (d : device) : device :=
  with_tx_processor (with_host_dirty (with_guest_mem d (Some (w_mem w))) (w_dirty w)) (Some p).
Definition put_rx (p : VirtQueueProcessor) (w : World M) (d : device) : device :=
  with_rx_processor (with_host_dirty (with_guest_mem d (Some (w_mem w))) (w_dirty w)) (Some p).

(** The pass; [rounds] bounds how often the ring is looked at again when event
    indices are in use. *)
Definition run_tx (rounds : nat) (fd : option Z) (vnet : bool) (mem : M) (p : VirtQueueProcessor)
    : op_ (VirtQueueProcessor * World M * Sending * Z) :=
  fun d =>
    match process_queue_descriptors_dirty (tx_handler fd vnet) rounds p (mkWorld mem (host_dirty d))
            (mkSending d 0 false) with
    | None => None
    | Some (p', w', s', processed) => Some (Ok (p', w', s', processed), put_tx p' w' (x_dev s'))
    end.

Definition process_tx_queue (rounds : nat) : op_ Z :=
  do* ensure_operational in
  do* try_lock_state LGuestMem in
  let* d := get in
  match guest_mem d with
  | None => ret 0
  | Some mem =>
      do* try_lock_state LHostDirty in
      let* cfg := queue_config QUEUE_TX in
      match cfg with
      | None => ret 0
      | Some cfg =>
          do* try_lock_state LTapFd in
          do* try_lock_state LTxProcessor in
          let p := ready_processor (tx_processor d) cfg (negotiated_event_idx d) in
          let* out := run_tx rounds (tap_fd d) (vnet_hdr d) mem p in
          let '(p', w', s', processed) := out in
          do* (if (0 <? processed) && needs_notification p' (w_mem w') (last_used_idx p)
               then trigger_interrupt else ret tt) in
          let* d := get in
          if x_failed s' || is_failed d then fail DeviceRejected else ret (x_pkts s')
      end
  end.

(** ** Reception *)

(** What the closure of [rx_from_vnet_tap] captures, and the variables of
    [rx_mergeable_from_tap]. *)
Record Receiving := mkReceiving {
  v_dev : device;
  v_delivered : Z;
  v_tap_empty : bool;
}.

Definition on_tap (t : Tap) (v : Receiving) : Receiving :=
  mkReceiving (with_tap (v_dev v) t) (v_delivered v) (v_tap_empty v).

Definition delivered_one (bytes : Z) (v : Receiving) : Receiving :=
  mkReceiving (count_rx bytes (v_dev v)) (v_delivered v + 1) (v_tap_empty v).

Definition found_empty (v : Receiving) : Receiving := mkReceiving (v_dev v) (v_delivered v) true.

(** The closure of [rx_from_vnet_tap]: one chain per frame. *)
Definition rx_handler (accepted max_frames : Z) (w : World M) (v : Receiving) (readable writable : list (Z * Z))
    : World M * Receiving * option Z :=
  if v_delivered v =? max_frames then (w, v, None)
  else match views (w_mem w) writable with
  | None => (w, v, Some 0)
  | Some iov =>
      match tap_readv (tap (v_dev v)) (w_mem w) iov with
      | (None, t, m) => (mkWorld m (w_dirty w), found_empty (on_tap t v), None)
      | (Some n, t, m) =>
          let v := on_tap t v in
          let len := Z.of_nat n in
          if len <=? VIRTIO_NET_HDR_LEN then (mkWorld m (w_dirty w), v, Some 0)
          else
            let dirty := mark_frame len writable <$> w_dirty w in
            match read_chain m writable 0 VIRTIO_NET_HDR_LEN [] with
            | None => (mkWorld m dirty, v, Some 0)
            | Some header =>
                if negb (rx_header_allowed accepted header) then (mkWorld m dirty, v, Some 0)
                else match write_chain m writable VIRTIO_NET_HDR_NUM_BUFFERS_OFF (le_encode 2 1) with
                | (false, m') => (mkWorld m' dirty, v, Some 0)
                | (true, m') =>
                    (mkWorld m' dirty, delivered_one (len - VIRTIO_NET_HDR_LEN) v, Some (as_u32 len))
                end
            end
      end
  end.

(** The chains a frame may need: their buffers, capacities and room. *)
Fixpoint take_room (limit room : Z) (chains : list PeekedChain) : list (Z * Z) * list Z * Z :=
  match chains with
  | [] => ([], [], room)
  | c :: rest =>
      let room := room + capacity c in
      if limit <=? room then (buffers c, [capacity c], room)
      else let '(bufs, capacities, room') := take_room limit room rest in
           (buffers c ++ bufs, capacity c :: capacities, room')
  end.

(** How one turn of the inner loop of [rx_mergeable_from_tap] ends. *)
Inductive Turn : Type :=
| Waiting (p : VirtQueueProcessor)
| Stopped (p : VirtQueueProcessor) (w : World M) (v : Receiving)
| Onward (p : VirtQueueProcessor) (w : World M) (v : Receiving).

(** A frame of [len] bytes read into the buffers of the first chains. *)
Definition accept_frame (p : VirtQueueProcessor) (w : World M) (v : Receiving) (bufs : list (Z * Z))
    (capacities : list Z) (len : Z) : Turn :=
  let allowed :=
    if len <=? VIRTIO_NET_HDR_LEN then false
    else match read_chain (w_mem w) bufs 0 VIRTIO_NET_HDR_LEN [] with
    | None => false
    | Some header => rx_header_allowed (guest_features (v_dev v)) header
    end in
  if negb allowed then Onward p w v
  else
    let lens := split_lens len capacities in
    let count := Z.of_nat (length lens) mod 65536 in
    match write_chain (w_mem w) bufs VIRTIO_NET_HDR_NUM_BUFFERS_OFF (le_encode 2 count) with
    | (false, m) => Onward p (mkWorld m (w_dirty w)) v
    | (true, m) =>
        let '(p', w') := use_peeked p (mkWorld m (mark_frame len bufs <$> w_dirty w)) lens in
        Onward p' w' (delivered_one (len - VIRTIO_NET_HDR_LEN) v)
    end.

Definition receive_one (limit : Z) (p : VirtQueueProcessor) (w : World M) (v : Receiving) : option Turn :=
  let?o p := peek_writable p (w_mem w) limit in
  let '(bufs, capacities, room) := take_room limit 0 (peeked p) in
  if room <? limit then Some (Waiting p)
  else match views (w_mem w) bufs with
  | None => Some (Stopped p w (mkReceiving (fail_device (v_dev v)) (v_delivered v) (v_tap_empty v)))
  | Some iov =>
      match tap_readv (tap (v_dev v)) (w_mem w) iov with
      | (None, t, m) => Some (Stopped p (mkWorld m (w_dirty w)) (found_empty (on_tap t v)))
      | (Some n, t, m) =>
          Some (accept_frame p (mkWorld m (w_dirty w)) (on_tap t v) bufs capacities (Z.of_nat n))
      end
  end.

(** The inner loop: a turn reads a frame or is the last. The first component
    of the result is [waiting]. *)
Fixpoint receive_loop (fuel : nat) (limit max_frames : Z) (p : VirtQueueProcessor) (w : World M) (v : Receiving)
    : option (bool * VirtQueueProcessor * World M * Receiving) :=
  if negb (v_delivered v <? max_frames) then Some (false, p, w, v)
  else match fuel with
  | O => None
  | S fuel' =>
      match receive_one limit p w v with
      | None => None
      | Some (Waiting p') => Some (true, p', w, v)
      | Some (Stopped p' w' v') => Some (false, p', w', v')
      | Some (Onward p' w' v') => receive_loop fuel' limit max_frames p' w' v'
      end
  end.

(** The outer loop; [rounds] bounds how often it looks for buffers again. *)
Fixpoint rx_mergeable_from_tap (rounds : nat) (limit max_frames : Z) (p : VirtQueueProcessor) (w : World M)
    (v : Receiving) : option (VirtQueueProcessor * World M * Receiving) :=
  match rounds with
  | O => None
  | S rounds' =>
      match receive_loop (S (length (incoming (tap (v_dev v))))) limit max_frames p w v with
      | None => None
      | Some (waiting, p', w', v') =>
          let '(w'', again) := publish_used p' w' in
          if negb again || negb waiting || is_failed (v_dev v') then Some (p', w'', v')
          else rx_mergeable_from_tap rounds' limit max_frames p' w'' v'
      end
  end.

(** Notes that the driver is to be interrupted for what was delivered. *)
Definition note_rx (old_used : Z) (p : VirtQueueProcessor) (w : World M) (d : device) : device :=
  if needs_notification p (w_mem w) old_used then with_rx_irq_pending d true else d.

(** Both ways [rx_from_vnet_tap] reads the tap. *)
Definition run_rx (rounds : nat) (max_frames : Z) (mem : M) (p : VirtQueueProcessor) : op_ (Z * bool) :=
  fun d =>
    let w := mkWorld mem (host_dirty d) in
    let v := mkReceiving d 0 false in
    let?o out :=
      (if mergeable d then rx_mergeable_from_tap rounds (rx_frame_limit (guest_features d)) max_frames p w v
       else let?o out := process_queue_descriptors_dirty (rx_handler (guest_features d) max_frames) rounds p w v in
            Some out.1) in
    let '(p', w', v') := out in
    let d' := put_rx p' w' (v_dev v') in
    Some (Ok (v_delivered v', v_tap_empty v'),
          if 0 <? v_delivered v' then note_rx (last_used_idx p) p' w' d' else d').

Definition rx_from_vnet_tap (rounds : nat) (max_frames : Z) : op_ (option (Z * bool)) :=
  do* ensure_operational in
  let* d := get in
  if negb (vnet_hdr d) then ret None
  else
    do* try_lock_state LRateLimiter in
    if bool_decide (rate_limiter d ≠ None) then ret None
    else
      do* try_lock_state LGuestMem in
      match guest_mem d with
      | None => ret None
      | Some mem =>
          do* try_lock_state LHostDirty in
          let* cfg := queue_config QUEUE_RX in
          match cfg with
          | None => ret (Some (0, false))
          | Some cfg =>
              do* try_lock_state LRxProcessor in
              let p := ready_processor (rx_processor d) cfg (negotiated_event_idx d) in
              let* out := run_rx rounds max_frames mem p in
              let* d := get in
              if is_failed d then fail DeviceRejected else ret (Some out)
          end
      end.

(** ** Injection of a frame *)

(** The first loop of [inject_rx_mergeable]: whether the posted buffers can
    hold [need] bytes. *)
Fixpoint make_room (rounds : nat) (need : Z) (p : VirtQueueProcessor) (w : World M)
    : option (bool * VirtQueueProcessor * World M) :=
  match rounds with
  | O => None
  | S rounds' =>
      let?o p := peek_writable p (w_mem w) need in
      if need <=? peeked_have (peeked p) then Some (true, p, w)
      else match publish_used p w with
      | (w', false) => Some (false, p, w')
      | (w', true) => make_room rounds' need p w'
      end
  end.

(** The end of [inject_rx_mergeable], once there is room and the limiter
    agreed: whether the frame was written. *)
Definition place_frame (p : VirtQueueProcessor) (w : World M) (header packet : list Z)
    : option (bool * VirtQueueProcessor * World M) :=
  let need := VIRTIO_NET_HDR_LEN + Z.of_nat (length packet) in
  let?o p := peek_writable p (w_mem w) need in
  let lens := split_lens need (capacity <$> peeked p) in
  let header := set_num_buffers header (Z.of_nat (length lens) mod 65536) in
  let?o p := peek_writable p (w_mem w) need in
  match copy_bufs w (concat (buffers <$> take (length lens) (peeked p))) header [packet] with
  | (false, w') => Some (false, p, w')
  | (true, w') =>
      let '(p', w'') := use_peeked p w' lens in
      Some (true, p', (publish_used p' w'').1)
  end.

(** The walker and guest memory are shared, so every way out puts them
    back. *)
Definition inject_rx_mergeable (rounds : nat) (mem : M) (p : VirtQueueProcessor) (header packet : list Z)
    : op_ bool :=
  let need := VIRTIO_NET_HDR_LEN + Z.of_nat (length packet) in
  let* d := get in
  match make_room rounds need p (mkWorld mem (host_dirty d)) with
  | None => fun _ => None
  | Some (room, p, w) =>
      do* modify (put_rx p w) in
      if negb room then ret false
      else
        let* allowed := rate_limit_allows (Z.of_nat (length packet)) in
        if negb allowed then ret false
        else match place_frame p w header packet with
        | None => fun _ => None
        | Some (written, p, w) =>
            do* modify (put_rx p w) in
            if written then do* modify (count_rx (Z.of_nat (length packet))) in ret true
            else do* modify fail_device in fail DeviceRejected
        end
  end.

(** What the closure of [inject_rx] captures. *)
Record Injecting := mkInjecting {
  i_dev : device;
  i_delivered : bool;
  i_failed : bool;
}.

Definition inject_handler (header : option (list Z)) (packet : list Z) (w : World M) (s : Injecting)
    (readable writable : list (Z * Z)) : World M * Injecting * option Z :=
  let need := Z.of_nat (length packet) + VIRTIO_NET_HDR_LEN in
  if i_delivered s then (w, s, None)
  else match fold_capacity 0 writable with
  | None => (w, s, Some 0)
  | Some cap =>
      if cap <? need then (w, s, Some 0)
      else match rate_limit_allows (Z.of_nat (length packet)) (i_dev s) with
      | Some (Ok true, d) =>
          let header := default (set_num_buffers (replicate 12 0) 1) header in
          match copy_bufs w writable header [packet] with
          | (false, w') => (w', mkInjecting d (i_delivered s) (i_failed s), Some 0)
          | (true, w') =>
              (w', mkInjecting (count_rx (Z.of_nat (length packet)) d) true (i_failed s), Some (as_u32 need))
          end
      | Some (Ok false, d) => (w, mkInjecting d (i_delivered s) (i_failed s), None)
      | Some (Err _, d) => (w, mkInjecting d (i_delivered s) true, None)
      | None => (w, s, None)
      end
  end.

(** The pass over the ring: whether the frame was delivered and whether the
    limiter failed. *)
Definition run_inject (rounds : nat) (mem : M) (p : VirtQueueProcessor) (header : option (list Z)) (packet : list Z)
    : op_ (bool * bool) :=
  fun d =>
    match process_queue_descriptors_dirty (inject_handler header packet) rounds p (mkWorld mem (host_dirty d))
            (mkInjecting d false false) with
    | None => None
    | Some (p', w', s', _) => Some (Ok (i_delivered s', i_failed s'), put_rx p' w' (i_dev s'))
    end.

(** Interrupts the driver now or leaves it to [signal_rx]. *)
Definition notify_rx (delivered notify : bool) (old_used : Z) : op_ unit :=
  let* d := get in
  if delivered
     && match rx_processor d, guest_mem d with
        | Some p, Some m => needs_notification p m old_used
        | _, _ => false
        end
  then if notify then trigger_interrupt else modify (fun d => with_rx_irq_pending d true)
  else ret tt.

Definition inject_rx (rounds : nat) (header : option (list Z)) (packet : list Z) (notify : bool) : op_ bool :=
  do* ensure_operational in
  match u64_checked_add (Z.of_nat (length packet)) VIRTIO_NET_HDR_LEN with
  | None => ret false
  | Some need =>
      if (if header then MAX_GSO_FRAME_BYTES else MAX_FRAME_BYTES) <? need then ret false
      else
        do* try_lock_state LGuestMem in
        let* d := get in
        match guest_mem d with
        | None => ret false
        | Some mem =>
            do* try_lock_state LHostDirty in
            let* cfg := queue_config QUEUE_RX in
            match cfg with
            | None => ret false
            | Some cfg =>
                do* try_lock_state LRxProcessor in
                let p := ready_processor (rx_processor d) cfg (negotiated_event_idx d) in
                do* modify (fun d => with_rx_processor d (Some p)) in
                if mergeable d then
                  let* delivered := inject_rx_mergeable rounds mem p (default (replicate 12 0) header) packet in
                  do* notify_rx delivered notify (last_used_idx p) in
                  ret delivered
                else
                  let* out := run_inject rounds mem p header packet in
                  do* notify_rx out.1 notify (last_used_idx p) in
                  let* d := get in
                  if out.2 || is_failed d then fail DeviceRejected else ret out.1
            end
        end
  end.

Definition inject_rx_packet (rounds : nat) (packet : list Z) : op_ bool := inject_rx rounds None packet true.
Definition inject_rx_packet_quiet (rounds : nat) (packet : list Z) : op_ bool := inject_rx rounds None packet false.

Definition signal_rx : op_ unit :=
  let* d := get in
  do* modify (fun d => with_rx_irq_pending d false) in
  if rx_irq_pending d then trigger_interrupt else ret tt.

Definition inject_rx_vnet_frame (rounds : nat) (frame : list Z) : op_ bool :=
  if Z.of_nat (length frame) <=? VIRTIO_NET_HDR_LEN then ret false
  else
    let* d := get in
    let header := take 12 frame in
    let accepted := guest_features d in
    let needs_csum := has_bits (nth 0 header 0) VIRTIO_NET_HDR_F_NEEDS_CSUM in
    let gso := Z.land (nth 1 header 0) 127 in
    let gso_allowed :=
      if gso =? VIRTIO_NET_HDR_GSO_NONE then true
      else if gso =? VIRTIO_NET_HDR_GSO_TCPV4 then has_bits accepted net_features.GUEST_TSO4
      else if gso =? VIRTIO_NET_HDR_GSO_TCPV6 then has_bits accepted net_features.GUEST_TSO6
      else false in
    if (needs_csum && negb (has_bits accepted net_features.GUEST_CSUM)) || negb gso_allowed
       || has_bits (nth 1 header 0) VIRTIO_NET_HDR_GSO_ECN
    then ret false
    else inject_rx rounds (Some (set_num_buffers header 1)) (drop 12 frame) false.

(** ** Snapshots and reset *)

Definition snapshot_state : dev device PersistError VirtioNetMmioState :=
  let* d := get in
  if is_failed d then fail Unavailable
  else
    let t := regs d in
    do* snapshot_lock LQueues in
    do* snapshot_lock LRxProcessor in
    do* snapshot_lock LTxProcessor in
    ret (mkNetState (t_status t) (t_queue_sel t) (t_host_features_sel t) (t_guest_features_sel t)
           (guest_features d) (t_queues t) (t_activated t) (t_interrupt_status t)
           (save_state <$> rx_processor d) (save_state <$> tx_processor d)).

Definition reset (d : device) : device :=
  let d := request_tap_offloads 0 (with_poisoned d []) in
  with_tx_processor (with_rx_processor (on_regs reset_regs d) None) None.

Definition restore (st : VirtioNetMmioState) : op_ unit :=
  let config (idx : nat) :=
    from_option queue_config_from_state (mkQueueConfig 0 0 0 0 false) (s_queues st !! idx) in
  do* modify (on_regs (fun t =>
    with_guest_features_low (with_guest_features_sel (with_host_features_sel
      (with_queue_sel (with_status t (s_status st)) (s_queue_sel st)) (s_host_features_sel st))
      (s_guest_features_sel st)) (s_guest_features st))) in
  do* lock_state LQueues in
  do* modify (on_regs (fun t => with_activated (with_queues t (s_queues st)) (s_activated st))) in
  do* (if s_activated st then modify (request_tap_offloads (s_guest_features st)) else ret tt) in
  do* modify (on_regs (fun t => with_interrupt_status t (s_interrupt_status st))) in
  do* lock_state LQueues in
  do* lock_state LRxProcessor in
  do* modify (fun d => with_rx_processor d (from_state (config QUEUE_RX) <$> s_rx_processor st)) in
  do* lock_state LTxProcessor in
  modify (fun d => with_tx_processor d (from_state (config QUEUE_TX) <$> s_tx_processor st)).

(** ** Registers *)

Definition read_config (d : device) (off len : Z) : Z :=
  match u64_checked_sub off reg.CONFIG with
  | None => 0
  | Some cfg_off =>
      let size := Z.of_nat (length (mac d)) in
      if size <=? cfg_off then 0
      else
        let copy_len := Z.min (Z.min (size - cfg_off) len) 4 in
        le_decode (slice (Z.to_nat cfg_off) (Z.to_nat copy_len) (mac d) ++ replicate (4 - Z.to_nat copy_len) 0)
  end.

Definition mmio_read (off len : Z) : op_ Z :=
  let* d := get in
  if (reg.CONFIG <=? off) && (off <? reg.CONFIG + 16) then ret (read_config d off len)
  else if off =? reg.MAGIC_VALUE then ret MMIO_MAGIC
  else if off =? reg.VERSION then ret (version d)
  else if off =? reg.DEVICE_ID then ret (device_id d)
  else if off =? reg.VENDOR_ID then ret (vendor_id d)
  else if off =? reg.HOST_FEATURES then
    ret (if t_host_features_sel (regs d) =? 0 then host_features d else 1)
  else if off =? reg.QUEUE_NUM_MAX then ret NET_QUEUE_SIZE_MAX
  else if off =? reg.STATUS then ret (t_status (regs d))
  else if off =? reg.INTERRUPT_STATUS then ret (t_interrupt_status (regs d))
  else if off =? reg.CONFIG_GENERATION then ret 0
  else match read_queue_reg_upto NET_QUEUE_SIZE_MAX (regs d) off with
  | Some v => do* lock_state LQueues in ret v
  | None => ret 0
  end.

(** [STATUS] with a value other than zero. *)
Definition write_status (val : Z) (d : device) : device :=
  let was := t_activated (regs d) in
  let d := on_regs (fun t => write_status_bits t val) d in
  if has_bits val DRIVER_OK && negb was then request_tap_offloads (guest_features d) d else d.

Definition mmio_write (rounds : nat) (off raw : Z) : op_ unit :=
  let val := as_u32 raw in
  let* d := get in
  if is_failed d && negb ((off =? reg.STATUS) && (val =? 0)) then fail DeviceRejected
  else if off =? reg.STATUS then
    do* modify (on_regs count_status_write) in
    if val =? 0 then modify reset else modify (write_status val)
  else if off =? reg.HOST_FEATURES_SEL then modify (on_regs (fun t => with_host_features_sel t val))
  else if off =? reg.GUEST_FEATURES_SEL then modify (on_regs (fun t => with_guest_features_sel t val))
  else if (off =? reg.GUEST_FEATURES) && (t_guest_features_sel (regs d) =? 0) then
    modify (on_regs (fun t => with_guest_features_low t (Z.land val (host_features d))))
  else if off =? reg.QUEUE_SEL then modify (on_regs (fun t => with_queue_sel t val))
  else if off =? reg.QUEUE_NOTIFY then
    do* modify (on_regs count_notify) in
    if (Z.to_nat val =? QUEUE_TX)%nat then do* process_tx_queue rounds in ret tt else ret tt
  else if off =? reg.INTERRUPT_ACK then modify (on_regs (fun t => acknowledge t val))
  else match write_queue_reg_upto NET_QUEUE_SIZE_MAX off val with
  | Some f => do* lock_state LQueues in modify (on_regs (update_selected f))
  | None => ret tt
  end.

End net.
