(* ===== verification/NetTx.v ===== *)
(** * Transmission by the network device

    What a kick of the transmit queue sends. The bytes of a chain's readable
    buffers are a frame behind its header; [wire_of] is what of them goes to
    the tap, and the frames of all pending chains go there in order. *)

From S2P Require Import Prelude Dirty GuestMem GuestRam VQueue VQueueWalk VQueueRun VQueuePeek VQueuePass VQueueServe GuestBufs.
From S2P Require Import RateLimit Bus Regs Dev BlkIov Transport Net.

(** What the tap is given for the bytes of a chain: nothing for an empty frame
    or one that is too long. *)
Definition wire_of (vnet : bool) (bs : list Z) : option (list Z) :=
  let max_frame := if vnet then MAX_GSO_FRAME_BYTES else MAX_FRAME_BYTES in
  if (VIRTIO_NET_HDR_LEN <? Z.of_nat (length bs)) && (Z.of_nat (length bs) <=? max_frame)
  then Some (if vnet then bs else drop 12 bs) else None.

(** The frames of chains, in order. *)
Definition wires {M : Type} `{!GuestMemoryBackend M} (m : M) (vnet : bool) (reqs : list (Z * DescriptorChain))
    : list (list Z) :=
  omap (fun r => wire_of vnet (bytes_at m (buf_addrs (readable r.2)))) reqs.

(** The tap after frames were written to it. *)
Definition tap_after (t : Tap) (frames : list (list Z)) : Tap := foldl (fun t f => (tap_send t f).2) t frames.

Definition total_length (frames : list (list Z)) : Z := foldr (fun f n => Z.of_nat (length f) + n) 0 frames.

(** A tap that takes every frame whole. *)
Lemma tap_after_whole frames : ∀ t,
  writes t = [] → tap_after t frames = mkTap (incoming t) (sent t ++ frames) [].
Proof.
  induction frames as [|f frames IH]; intros t Hw; cbn [tap_after foldl].
  { rewrite app_nil_r. destruct t; simpl in *. by subst. }
  unfold tap_send at 2. rewrite Hw. cbn [snd]. fold (tap_after (mkTap (incoming t) (sent t ++ [f]) []) frames).
  rewrite IH by done. cbn [incoming sent]. by rewrite <- app_assoc.
Qed.

Section tx.
Context {M : Type} `{!GuestMemoryBackend M} `{!GuestMemoryLaws M}.
Implicit Types (m : M) (w : World M) (d : VirtioNetMmio M).

Lemma assemble_ok m max_frame bufs : ∀ buf,
  Forall (valid_buf m) bufs → Z.of_nat (length buf) + sum_lens bufs ≤ U64_MAX → Z.of_nat (length buf) ≤ max_frame →
  assemble m max_frame bufs buf =
    if Z.of_nat (length buf) + sum_lens bufs <=? max_frame then Some (buf ++ bytes_at m (buf_addrs bufs)) else None.
Proof.
  induction bufs as [|[a l] bufs IH]; intros buf Hv Hs Hm; cbn [assemble].
  { rewrite app_nil_r. simpl. by rewrite Z.add_0_r, (proj2 (Z.leb_le _ _) Hm). }
  apply Forall_cons in Hv as [Hv1 Hv2]. pose proof (sum_lens_nonneg _ _ Hv2) as Hn. pose proof Hv1 as (? & ? & _).
  change (sum_lens ((a, l) :: bufs)) with (l + sum_lens bufs) in *. cbn [fst snd] in *. rewrite buf_addrs_cons, bytes_at_app.
  cbn [fst snd]. destruct (l =? 0) eqn:El; bool_to_prop.
  { subst l. rewrite IH by (done || lia). done. }
  apply valid_buf_check in Hv1; [|simpl; lia]. cbn [fst snd] in Hv1.
  destruct (gm_read_total m a l ltac:(lia) Hv1) as (bs & Hr & Hlen & _). rewrite Hr.
  rewrite (proj2 (u64_checked_add_Some _ _ _)) by (split; [done|lia]).
  destruct (max_frame <? Z.of_nat (length buf) + l) eqn:Em; bool_to_prop.
  { by rewrite (proj2 (Z.leb_gt _ _)) by lia. }
  rewrite IH by (done || (rewrite length_app; lia)). rewrite (bytes_at_seqZ m a l bs) by (done || lia).
  rewrite length_app, app_assoc. replace (Z.of_nat (length buf + length bs)) with (Z.of_nat (length buf) + l) by lia.
  by rewrite <- Z.add_assoc.
Qed.

(** ** The handler *)

(** A device no limiter holds back. *)
Definition unhindered (s : Sending (M:=M)) : Prop :=
  rate_limiter (x_dev s) = None ∧ LRateLimiter ∉ poisoned (x_dev s) ∧ x_failed s = false.

Definition transmit_all (frames : list (list Z)) (s : Sending (M:=M)) : Sending :=
  foldl (fun s f => transmit f s) s frames.

Lemma transmit_unhindered f s : unhindered s → unhindered (transmit f s).
Proof. unfold unhindered, transmit. by destruct (tap_send _ _) as [[[|n]|] t]. Qed.

(** Only the tap and the counters change. *)
Lemma transmit_all_dev frames : ∀ s,
  ∃ n k, x_dev (transmit_all frames s) =
      with_tx_bytes (with_tx_packets (with_tap (x_dev s) (tap_after (tap (x_dev s)) frames)) n) k ∧
    x_failed (transmit_all frames s) = x_failed s.
Proof.
  induction frames as [|f frames IH]; intros s; cbn [transmit_all foldl tap_after].
  { exists (tx_packets (x_dev s)), (tx_bytes (x_dev s)). split; [|done]. by destruct s as [[]]. }
  destruct (IH (transmit f s)) as (n & k & Hd & Hf). exists n, k. fold (transmit_all frames (transmit f s)).
  rewrite Hd, Hf. unfold transmit. by destruct (tap_send (tap (x_dev s)) f) as [[[|j]|] t].
Qed.

(** A tap that takes every frame whole: each is counted. *)
Lemma transmit_all_counts frames : ∀ s,
  writes (tap (x_dev s)) = [] → Forall (fun f => f ≠ []) frames →
  in_u64 (tx_packets (x_dev s)) → in_u64 (tx_bytes (x_dev s)) →
  let d' := x_dev (transmit_all frames s) in
  tx_packets d' = u64_fetch_add (tx_packets (x_dev s)) (Z.of_nat (length frames)) ∧
  tx_bytes d' = u64_fetch_add (tx_bytes (x_dev s)) (total_length frames).
Proof.
  induction frames as [|f frames IH]; intros s Hw Hne Hp Hb; cbn [transmit_all foldl].
  { unfold u64_fetch_add. cbn. rewrite !Z.add_0_r. unfold in_u64, U64_MAX in *. by rewrite !Z.mod_small by lia. }
  apply Forall_cons in Hne as [Hf Hne]. fold (transmit_all frames (transmit f s)).
  assert (∃ t, transmit f s = mkSending (count_tx (Z.of_nat (length f)) (with_tap (x_dev s) t)) (x_pkts s + 1) (x_failed s)
    ∧ writes t = []) as (t & Ht & Hwt).
  { unfold transmit, tap_send. rewrite Hw. destruct f as [|x f]; [done|]. by eexists. }
  assert (Hu : ∀ a b, in_u64 (u64_fetch_add a b)).
  { intros a b. unfold u64_fetch_add, in_u64, U64_MAX. pose proof (Z.mod_pos_bound (a + b) 18446744073709551616). lia. }
  destruct (IH (transmit f s)) as [-> ->]; rewrite ?Ht; try done; try apply Hu.
  cbn [x_dev tx_packets tx_bytes count_tx with_tx_packets with_tx_bytes with_tap]. unfold u64_fetch_add.
  rewrite !Zplus_mod_idemp_l. split; f_equal; cbn [length total_length foldr]; [lia|]. unfold total_length. lia.
Qed.

Lemma rate_limit_free bytes d :
  rate_limiter d = None → LRateLimiter ∉ poisoned d → rate_limit_allows bytes d = Some (Ok true, d).
Proof.
  intros Hn Hp. unfold rate_limit_allows, try_lock_state, dev_bind, get, ret. rewrite decide_False by done. by rewrite Hn.
Qed.

(** One chain: its frame, if it has one. *)
Lemma net_tx_handler_ok fd vnet w s rds wrs :
  unhindered s → Forall (valid_buf (w_mem w)) rds → Forall (valid_buf (w_mem w)) wrs →
  sum_lens (rds ++ wrs) ≤ MAX_CHAIN_BYTES →
  let f := wire_of vnet (bytes_at (w_mem w) (buf_addrs rds)) in
  tx_handler (Some fd) vnet w s rds wrs = (w, transmit_all (option_list f) s, Some 0).
Proof.
  intros (Hrl & Hpo & Hf) Hrd Hwr Hs f. rewrite sum_lens_app in Hs. pose proof (sum_lens_nonneg _ _ Hwr).
  pose proof (length_bytes_at (w_mem w) rds Hrd) as Hlen. set (bs := bytes_at _ _) in *.
  unfold tx_handler. unfold MAX_CHAIN_BYTES in Hs.
  rewrite assemble_ok by (try done; unfold U64_MAX, MAX_GSO_FRAME_BYTES, MAX_FRAME_BYTES, VIRTIO_NET_HDR_LEN; simpl; try lia; by destruct vnet).
  cbn [length app]. rewrite Z.add_0_l. fold bs. unfold f, wire_of. rewrite Hlen.
  set (max_frame := if vnet then _ else _). destruct (sum_lens rds <=? max_frame); [|by rewrite andb_false_r].
  rewrite andb_true_r, Z.leb_antisym, Hlen. destruct (VIRTIO_NET_HDR_LEN <? sum_lens rds); cbn [negb]; [|done].
  rewrite rate_limit_free by done. destruct s. by destruct vnet.
Qed.

Lemma tx_handler_serves fd vnet w s rds wrs (sz : Z) :
  unhindered s → laid_out (w_mem w) sz → Forall (valid_buf (w_mem w)) rds → Forall (valid_buf (w_mem w)) wrs →
  sum_lens (rds ++ wrs) ≤ MAX_CHAIN_BYTES →
  ∃ w1 s1 len, tx_handler (Some fd) vnet w s rds wrs = (w1, s1, Some len) ∧ unhindered s1 ∧ tracked w w1 ∧
    changes_only (in_bufs wrs) (w_mem w) (w_mem w1).
Proof.
  intros Hu _ Hrd Hwr Hs. rewrite net_tx_handler_ok by done. eexists _, _, _. split_and!; [done| |reflexivity|reflexivity].
  destruct (wire_of _ _); [by apply transmit_unhindered|done].
Qed.

Lemma wires_ext m m' vnet reqs :
  (∀ r x, r ∈ reqs → in_bufs (readable r.2) x → byte_at m' x = byte_at m x) → wires m' vnet reqs = wires m vnet reqs.
Proof.
  intros Hx. unfold wires. induction reqs as [|r reqs IH]; [done|]. cbn [omap list_omap].
  rewrite (bytes_at_ext m m'), IH; [done| |].
  - intros r' x Hr'. apply Hx. by right.
  - intros a Ha. apply (Hx r); [by left|]. by apply elem_of_buf_addrs.
Qed.

(** Serving chains sends their frames, in order. *)
Lemma serves_wires fd vnet c sz u reqs w s lens w' s' :
  serves (tx_handler (Some fd) vnet) c u reqs w s lens w' s' →
  unhindered s → laid_out (w_mem w) sz → rings_ok c (w_mem w) → in_u16 u → requests_ok (w_mem w) reqs →
  Z.of_nat (length reqs) ≤ size c → well_separated c reqs →
  lens = replicate (length reqs) 0 ∧ s' = transmit_all (wires (w_mem w) vnet reqs) s ∧
  changes_only (used_zone c) (w_mem w) (w_mem w').
Proof.
  induction 1 as [u w s|u hd ch reqs w s w1 s1 len lens w' s' Hrun Hs IH]; intros Hu Hlay Hr Hui Hv Hsz Hsep; [done|].
  apply Forall_cons in Hv as [(Hrd & Hwr & Hsum) Hv]. apply well_separated_cons in Hsep as (Hsep & _ & _ & Hrx).
  cbn [snd] in *. rewrite net_tx_handler_ok in Hrun by done. injection Hrun as <- <- <-.
  destruct (used_elem_reports w c u hd 0 sz) as (Ht & Hc & _); [done..|]. set (w2 := write_mem_ w _ _) in *.
  assert (changes_only (used_zone c) (w_mem w) (w_mem w2)) as Hz
    by (eapply changes_only_mono; [exact Hc|]; apply used_ring_zone).
  destruct IH as (-> & -> & Hc').
  { destruct (wire_of _ _); [by apply transmit_unhindered|done]. }
  { by eapply tracked_laid_out. }
  { by eapply rings_ok_tracked. }
  { apply u16_wrapping_add_range. }
  { by eapply requests_ok_tracked. }
  { simpl in Hsz. lia. }
  { done. }
  split; [done|]. split; [|by eapply changes_only_trans].
  rewrite (wires_ext (w_mem w)) by (intros r x Hin Hx; eapply changes_only_same; [exact Hz|]; by apply (Hrx r x)).
  unfold wires. cbn [omap list_omap snd]. by destruct (wire_of _ _).
Qed.

End tx.

(** ** The kick *)

(** The processor [process_tx_queue] works with. *)
Definition tx_walker {M : Type} (d : VirtioNetMmio M) (q : QueueState) : VirtQueueProcessor :=
  ready_processor (tx_processor d) (queue_config_from_state q) (negotiated_event_idx d).

(** A device in operation, attached to guest memory and to a tap, which no
    limiter holds back; its driver has set up the transmit queue, published
    chains up to [avail], and keeps rings and buffers apart. *)
Record transmitting {M : Type} `{!GuestMemoryBackend M} (d : VirtioNetMmio M) (m : M) (q : QueueState)
    (fd avail sz : Z) : Prop := {
  n_live : is_failed d = false;
  n_locks : poisoned d = [];
  n_mem : guest_mem d = Some m;
  n_tap : tap_fd d = Some fd;
  n_free : rate_limiter d = None;
  n_queue : t_queues (regs d) !! QUEUE_TX = Some q;
  n_ready : q_ready q && valid_size_upto NET_QUEUE_SIZE_MAX q = true;
  n_indices : in_u16 (last_avail_idx (tx_walker d q)) ∧ in_u16 (last_used_idx (tx_walker d q));
  n_laid_out : laid_out m sz;
  n_usable : queue_is_usable (tx_walker d q) m = true;
  n_event : negotiated_event_idx d = true → gm_check_range m (q_used_ring_addr q + (4 + q_size q * 8)) 2 = true;
  n_avail : read_avail_idx m (q_avail_ring_addr q) = Some avail;
  n_count : u16_wrapping_sub avail (last_avail_idx (tx_walker d q)) ≤ q_size q;
  n_separated : well_separated (queue_config_from_state q) (pending m (tx_walker d q) avail);
}.

(** After the kick: the frames are on the tap, the used ring lists their
    chains, and nothing else changed in guest memory. *)
Record transmitted {M : Type} `{!GuestMemoryBackend M} (d : VirtioNetMmio M) (m : M) (q : QueueState)
    (reqs : list (Z * DescriptorChain)) (d' : VirtioNetMmio M) (m' : M) : Prop := {
  s_mem : guest_mem d' = Some m';
  s_tap : tap d' = tap_after (tap d) (wires m (vnet_hdr d) reqs);
  s_counts : writes (tap d) = [] → in_u64 (tx_packets d) → in_u64 (tx_bytes d) →
    tx_packets d' = u64_fetch_add (tx_packets d) (Z.of_nat (length (wires m (vnet_hdr d) reqs))) ∧
    tx_bytes d' = u64_fetch_add (tx_bytes d) (total_length (wires m (vnet_hdr d) reqs));
  s_entries : ∀ (j : nat) r, reqs !! j = Some r →
    gm_read_slice m' (used_slot_addr (queue_config_from_state q)
      (u16_wrapping_add (last_used_idx (tx_walker d q)) (Z.of_nat j))) 8 = Some (encode_used_elem r.1 0);
  s_used : read_u16 m' (q_used_ring_addr q + 2) =
    Some (u16_wrapping_add (last_used_idx (tx_walker d q)) (Z.of_nat (length reqs)));
  s_confined : changes_only (used_zone (queue_config_from_state q)) m m';
  s_tracked : tracked (mkWorld m (host_dirty d)) (mkWorld m' (host_dirty d'));
  s_regs : ∃ p', tx_processor d' = Some p' ∧
    regs d' = (if (0 <? Z.of_nat (length reqs)) && needs_notification p' m' (last_used_idx (tx_walker d q))
               then bump_irq (raise (regs d)) else regs d);
}.

Lemma net_try_lock_free {M : Type} (l : Lock) (d : VirtioNetMmio M) :
  poisoned d = [] → try_lock_state l d = Some (Ok tt, d).
Proof. intros Hp. unfold try_lock_state. by rewrite Hp. Qed.

Section kick.
Context {M : Type} `{!GuestMemoryBackend M} `{!GuestMemoryLaws M}.
Implicit Types (d : VirtioNetMmio M) (m : M).

Lemma wires_nonempty m vnet reqs : Forall (fun f => f ≠ []) (wires m vnet reqs).
Proof.
  unfold wires. induction reqs as [|r reqs IH]; [constructor|]. cbn [omap list_omap]. unfold wire_of.
  set (bs := bytes_at _ _). destruct (VIRTIO_NET_HDR_LEN <? _) eqn:E; cbn [andb]; [|done]. case_goal; [|done].
  constructor; [|done]. unfold VIRTIO_NET_HDR_LEN in E. bool_to_prop. intros Hx. apply (f_equal length) in Hx.
  destruct vnet; rewrite ?length_drop in Hx; simpl in Hx; lia.
Qed.

Lemma net_queue_config_ok d idx q :
  poisoned d = [] → t_queues (regs d) !! idx = Some q → q_ready q && valid_size_upto NET_QUEUE_SIZE_MAX q = true →
  queue_config idx d = Some (Ok (Some (queue_config_from_state q)), d).
Proof.
  intros Hp Hq Hr. unfold queue_config, dev_bind, get. rewrite net_try_lock_free by done. rewrite Hq. cbn beta iota.
  by rewrite <- negb_andb, Hr.
Qed.

(** From the registers to the pass and back. *)
Lemma process_tx_runs rounds d m q fd avail sz p' w' s' n :
  let p := tx_walker d q in
  let d2 := put_tx p' w' (x_dev s') in
  transmitting d m q fd avail sz →
  run_tx rounds (Some fd) (vnet_hdr d) m p d = Some (Ok (p', w', s', n), d2) →
  poisoned d2 = [] → is_failed d2 = false → x_failed s' = false →
  process_tx_queue rounds d =
    Some (Ok (x_pkts s'), if (0 <? n) && needs_notification p' (w_mem w') (last_used_idx p)
                          then on_regs bump_irq (on_regs raise d2) else d2).
Proof.
  intros p d2 [] Hrun Hpo Hf Hx.
  assert (Hl : ∀ l, try_lock_state l d = Some (Ok tt, d)) by (intros; by apply net_try_lock_free).
  unfold process_tx_queue.
  rewrite (dev_bind_ok _ _ _ tt d) by (unfold ensure_operational, dev_bind, get; by rewrite n_live0).
  rewrite (dev_bind_ok _ _ _ tt d), (dev_bind_ok _ _ _ d d) by done. rewrite n_mem0.
  rewrite (dev_bind_ok _ _ _ tt d) by done. erewrite dev_bind_ok by (by apply (net_queue_config_ok d _ q)). lazy beta iota.
  rewrite (dev_bind_ok _ _ _ tt d), (dev_bind_ok _ _ _ tt d) by done. fold (tx_walker d q). fold p. rewrite n_tap0.
  erewrite dev_bind_ok by exact Hrun. lazy beta iota. unfold trigger_interrupt, dev_bind, get, ret, modify.
  destruct ((0 <? n) && _); [|by rewrite Hx, Hf]. rewrite net_try_lock_free by done. rewrite Hx.
  assert (is_failed (on_regs bump_irq (on_regs raise d2)) = is_failed d2) as -> by done. by rewrite Hf.
Qed.

(** The notify register leads to [process_tx_queue]. *)
Lemma tx_notify_runs rounds d r d' :
  is_failed d = false → process_tx_queue rounds (on_regs count_notify d) = Some (Ok r, d') →
  mmio_write rounds reg.QUEUE_NOTIFY 1 d = Some (Ok tt, d').
Proof.
  intros Hf Hp. unfold mmio_write. rewrite (dev_bind_ok _ _ _ d d) by done. rewrite Hf.
  change (as_u32 1) with 1. cbn [andb]. change (Z.to_nat 1 =? QUEUE_TX)%nat with true. cbn [negb].
  change (dev_bind (process_tx_queue rounds) (fun _ => ret tt) (on_regs count_notify d) = Some (Ok tt, d')).
  by rewrite (dev_bind_ok _ _ _ _ _ Hp).
Qed.

(** C8: A kick of the transmit queue sends what the driver queued. On a device
    in operation, whose driver has published chains up to the available index
    and keeps rings and buffers apart, a write to the notify register
    succeeds, with and without event indices: the frames of all pending
    chains, put together from their buffers, go to the tap in order, with the
    header when the tap carries one and without it otherwise; a chain without
    a frame, or with more than the largest one, sends nothing; every chain is
    handed back with an entry of length zero, packets and bytes are counted,
    only the used ring changes in guest memory, every change is tracked, and
    the interrupt is raised exactly when there is something to report and the
    driver wants to know. *)
Theorem net_tx_sends rounds d m q fd avail sz :
  transmitting d m q fd avail sz →
  ∃ d' m', mmio_write (S rounds) reg.QUEUE_NOTIFY 1 d = Some (Ok tt, d') ∧
    transmitted (on_regs count_notify d) m q (pending m (tx_walker d q) avail) d' m'.
Proof.
  intros Hat0. pose proof (n_live _ _ _ _ _ _ Hat0) as Hlive. set (d1 := on_regs count_notify d).
  assert (transmitting d1 m q fd avail sz) as Hat by (destruct Hat0; by split).
  pose proof Hat as []. change (tx_walker d q) with (tx_walker d1 q). set (p := tx_walker d1 q) in *.
  assert (config p = queue_config_from_state q) as Hcfg by (unfold p, tx_walker, ready_processor; by case_match).
  set (reqs := pending m p avail) in *. destruct n_indices0 as [Hla Hlu].
  assert (unhindered (mkSending d1 0 false)) as Hu by (split_and!; [done|cbn [x_dev]; rewrite n_locks0; set_solver|done]).
  destruct (descriptors_pass_reports (tx_handler (Some fd) (vnet_hdr d1)) unhindered) with
    (fuel := rounds) (q := p) (w := mkWorld m (host_dirty d1)) (h := mkSending d1 0 false) (sz := sz) (avail := avail)
    as (lens & w1 & w' & s' & Hp & Hs & Hv & Hr & Hcnt & Ht & Hz & _ & Hused & Hent);
    rewrite ?Hcfg; try done.
  { intros. by eapply tx_handler_serves. }
  { apply n_separated0. }
  change (w_mem (mkWorld m (host_dirty d1))) with m in *. fold reqs in Hp, Hs, Hused, Hent. rewrite Hcfg in *.
  destruct (serves_wires _ _ _ sz _ _ _ _ _ _ _ Hs) as (-> & -> & Hc); [done..|].
  change (w_mem (mkWorld m (host_dirty d1))) with m in *.
  set (frames := wires m (vnet_hdr d1) reqs) in *. set (s' := transmit_all frames _) in *.
  destruct (transmit_all_dev frames (mkSending d1 0 false)) as (n & k & Hd' & Hf'). fold s' in Hd', Hf'. cbn [x_dev x_failed] in Hd', Hf'.
  pose proof (fun p' k => process_tx_runs (S rounds) d1 m q fd avail sz p' w' s' k Hat) as Hrun.
  eexists _, (w_mem w'). split.
  { eapply tx_notify_runs; [done|]. apply Hrun; [|by rewrite Hd'|by rewrite Hd'|done].
    unfold run_tx. fold p. rewrite Hp. reflexivity. }
  set (fire := _ && _). split; try (by destruct fire); try (destruct fire; cbn; by rewrite Hd').
  - intros Hw Hi1 Hi2. destruct (transmit_all_counts frames (mkSending d1 0 false)) as [H1 H2]; [done|apply wires_nonempty|done..|].
    by destruct fire.
  - intros j r Hj. apply (Hent j r 0 Hj). apply lookup_replicate_2. by eapply lookup_lt_Some.
  - by eapply changes_only_trans.
  - eexists. split; [by destruct fire|]. fold fire. destruct fire; cbn; by rewrite Hd'.
Qed.

End kick.

(** A driver that sends a packet of three bytes behind its header. *)
Module ExampleTx.

Definition queue : QueueState := mkQueue 2 0 64 96 true.
Definition mem : gmap Z Z :=
  ByteMap.store (ByteMap.store (ByteMap.store (ByteMap.zeros 0 192)
    0 (ExampleQueue.encode_desc (mkDesc 128 12 NEXT 1) ++ ExampleQueue.encode_desc (mkDesc 144 3 0 0)))
    64 [0; 0; 1; 0; 0; 0]) 144 [7; 8; 9].
Definition chain : DescriptorChain := mkChain [(128, 12); (144, 3)] [] 2.
Definition device : VirtioNetMmio (gmap Z Z) :=
  with_tap_fd (with_guest_mem (on_regs (fun t => with_queues t [queue_default; queue])
    (net_new 5 [2; 0; 0; 0; 0; 1] (mkTap [] [[1]] []) (fun _ => 0))) (Some mem)) (Some 9).

Lemma tx_mem_laid_out : laid_out mem 192.
Proof.
  split; [lia|]. intros a Ha. unfold mem.
  rewrite !store_check by (vm_compute; reflexivity). rewrite bm_zeros_check by (unfold U64_MAX; lia).
  split; [intros ?; exists a|intros [o Ho]; revert Ho]; rewrite gpa_to_offset_Some by lia;
    unfold MMIO_GAP_START, MMIO_GAP_END; lia.
Qed.

Lemma tx_mem_pending : pending mem (tx_walker device queue) 1 = [(0, chain)].
Proof. vm_compute. reflexivity. Qed.

Lemma tx_mem_wires : wires mem (vnet_hdr (on_regs count_notify device)) [(0, chain)] = [[7; 8; 9]].
Proof. vm_compute. reflexivity. Qed.

Lemma tx_ready : transmitting device mem queue 9 1 192.
Proof.
  split; try reflexivity.
  - split; vm_compute; split; discriminate.
  - exact tx_mem_laid_out.
  - vm_compute. discriminate.
  - rewrite tx_mem_pending. unfold well_separated, rings_apart, used_zone, table_or_avail, written, in_bufs. cbn. split_and!.
    + intros. lia.
    + intros x (r & ->%list_elem_of_singleton & b & []%not_elem_of_nil & Hx).
    + done.
    + intros r x ->%list_elem_of_singleton (b & Hb & Hx). split.
      * intros (r & ->%list_elem_of_singleton & b' & []%not_elem_of_nil & _).
      * cbn in Hb. apply elem_of_cons in Hb as [-> | ->%list_elem_of_singleton]; cbn in Hx; lia.
Qed.

End ExampleTx.

Lemma net_tx_sends_witness :
  ∃ d' m', mmio_write 1 reg.QUEUE_NOTIFY 1 ExampleTx.device = Some (Ok tt, d') ∧ guest_mem d' = Some m' ∧
    sent (tap d') = [[1]; [7; 8; 9]] ∧ tx_packets d' = 1 ∧ read_u16 m' 98 = Some 1.
Proof.
  destruct (net_tx_sends 0 ExampleTx.device ExampleTx.mem ExampleTx.queue 9 1 192 ExampleTx.tx_ready)
    as (d' & m' & Hrun & Hs).
  exists d', m'. destruct Hs as [Hm Ht Hc _ Hu _ _ _]. rewrite ExampleTx.tx_mem_pending in Ht, Hc, Hu.
  rewrite ExampleTx.tx_mem_wires in Ht, Hc. split; [exact Hrun|]. split; [exact Hm|]. split; [by rewrite Ht|].
  split; [|exact Hu]. apply Hc; [reflexivity| |]; unfold in_u64, U64_MAX; cbn; lia.
Defined.
