(* ===== verification/NetPeek.v ===== *)
(** * Looking for receive buffers

    The network device peeks at its receive ring until the buffers it sees can
    hold a frame. Peeking twice sees the same, and so does peeking after the
    device wrote its side of the rings; [make_room] therefore ends in its first
    round or never. *)

From S2P Require Import Prelude Dirty GuestMem GuestRam VQueue VQueueWalk VQueueRun VQueuePeek VQueueServe GuestBufs.
From S2P Require Import RateLimit Bus Regs Dev BlkIov Transport Net.

(** A ring the device can peek at: the driver has published entries up to
    [avail], what is peeked already is what they hold, and the device's side of
    the rings is apart from the driver's. *)
Record peekable {M : Type} `{!GuestMemoryBackend M} (m : M) (q : VirtQueueProcessor) (avail : Z) : Prop := {
  pk_usable : queue_is_usable q m = true;
  pk_avail_u16 : in_u16 (last_avail_idx q);
  pk_used_u16 : in_u16 (last_used_idx q);
  pk_avail : (let?o a := avail_idx_addr q in read_u16 m a) = Some avail;
  pk_count : Z.of_nat (length (peeked q)) ≤ Z.min (u16_wrapping_sub avail (last_avail_idx q)) (size (config q));
  pk_peeked : peeked_ok (config q) m (last_avail_idx q) (peeked q);
  pk_apart : ∀ x, used_zone (config q) x → ¬ table_or_avail (config q) x;
  pk_event : event_idx q = true → gm_check_range m (used_ring_addr (config q) + (4 + size (config q) * 8)) 2 = true;
}.

(** The index behind the entries the device has seen. *)
Definition seen_idx (q : VirtQueueProcessor) : Z :=
  u16_wrapping_add (last_avail_idx q) (Z.of_nat (length (peeked q)) mod 65536).

(** The device sees too little, but is told that there is more. *)
Definition spins (q : VirtQueueProcessor) (avail need : Z) : bool :=
  event_idx q && (peeked_have (peeked q) <? need) && negb (avail =? seen_idx q).

Section peek.
Context {M : Type} `{!GuestMemoryBackend M} `{!GuestMemoryLaws M}.
Implicit Types (m : M) (w : World M) (q : VirtQueueProcessor).

Lemma peekable_rings m q avail : peekable m q avail → rings_ok (config q) m.
Proof. intros []. by apply queue_is_usable_rings. Qed.

Lemma peekable_u16 m q avail : peekable m q avail → in_u16 avail.
Proof.
  intros Hp. destruct (avail_idx_ok q m (peekable_rings _ _ _ Hp)) as (a & Ha & Hu).
  rewrite (pk_avail _ _ _ Hp) in Ha. by injection Ha as <-.
Qed.

Lemma peek_once m q avail want :
  peekable m q avail → ∃ q', peek_writable q m want = Some q' ∧ peek_result m avail want q q'.
Proof. intros []. by apply peek_writable_sound. Qed.

Lemma peek_result_peekable m q avail want q' :
  peekable m q avail → peek_result m avail want q q' →
  peekable m q' avail ∧ config q' = config q ∧ last_used_idx q' = last_used_idx q ∧ event_idx q' = event_idx q ∧
  peek_done m avail want q'.
Proof.
  intros Hp (r & new & -> & Hr0 & Hr & Hcnt & Hsz & Hok & Hd). pose proof (peekable_u16 _ _ _ Hp) as Ha.
  destruct Hp. split; [|done]. split; try done; cbn [last_avail_idx config peeked] in *.
  - apply u16_wrapping_add_range.
  - assert (u16_wrapping_sub avail (u16_wrapping_add (last_avail_idx q) r) = u16_wrapping_sub avail (last_avail_idx q) - r) as ->; [|lia].
    pose proof (u16_wrapping_sub_range avail (last_avail_idx q)). unfold u16_wrapping_sub, u16_wrapping_add, in_u16, U16_MAX in *. zlia.
Qed.

(** Peeking again sees the same. *)
Lemma peek_again m q avail want :
  peekable m q avail → peek_done m avail want q → peek_writable q m want = Some q.
Proof.
  intros Hp Hd. pose proof (peekable_rings _ _ _ Hp) as (Hsz & _). destruct Hp.
  unfold peek_writable. rewrite pk_usable0, pk_avail0. cbn [negb].
  set (n := Z.of_nat (length (peeked q))) in *. pose proof (u16_wrapping_sub_range avail (last_avail_idx q)) as Hu.
  unfold in_u16 in Hu. destruct (Z.to_nat (2 * u16_wrapping_sub avail (last_avail_idx q))) as [|fuel] eqn:Ef;
    cbn [peek_loop]; fold n; rewrite (Z.mod_small n) by lia;
    destruct (negb _) eqn:Eg; try done; bool_to_prop; [lia|].
  destruct Hd as [Hd|[Hd|(Hne & hd & Hh & Hw)]]; [lia|fold n in Hd; lia|]. fold n in Hh. rewrite Hh, Hw.
  by destruct (peeked q).
Qed.

(** What the device writes on its side of the rings changes nothing of it. *)
Section stable.
Variables (m m' : M) (q : VirtQueueProcessor) (avail : Z).
Hypothesis Hp : peekable m q avail.
Hypothesis Hck : ∀ x n, gm_check_range m' x n = gm_check_range m x n.
Hypothesis Hch : changes_only (fun x => ¬ table_or_avail (config q) x) m m'.

Lemma read_head_stable i : read_head (config q) m' i = read_head (config q) m i.
Proof.
  pose proof (peekable_rings _ _ _ Hp) as Hr. pose proof (slot_range _ _ i Hr). unfold read_head.
  destruct (u64_checked_add 4 _) as [o|] eqn:Eo; [|done]. apply u64_checked_add_Some in Eo as [-> _].
  destruct (u64_checked_add (avail_ring_addr _) _) as [a|] eqn:Ea; [|done]. apply u64_checked_add_Some in Ea as [-> _].
  unfold read_u16. f_equal. eapply read_outside; [done|exact Hch|]. intros x Hx Hn. apply Hn. right. lia.
Qed.

Lemma walk_writable_stable hd : 0 ≤ hd → walk_writable (config q) m' hd = walk_writable (config q) m hd.
Proof.
  intros Hh. unfold walk_writable. by rewrite (walk_stable _ m m' hd Hh (peekable_rings _ _ _ Hp) Hck Hch).
Qed.

Lemma read_head_nonneg i hd : read_head (config q) m i = Some hd → 0 ≤ hd.
Proof.
  intros Hh. destruct (read_head_ok (config q) m i (peekable_rings _ _ _ Hp)) as (hd' & Hh' & Hu).
  rewrite Hh in Hh'. injection Hh' as <-. apply Hu.
Qed.

Lemma peek_done_stable want : peek_done m avail want q → peek_done m' avail want q.
Proof.
  intros [?|[?|(? & hd & Hh & Hw)]]; [by left|by right; left|]. right. right. split; [done|]. exists hd.
  rewrite read_head_stable, walk_writable_stable by by eapply read_head_nonneg. done.
Qed.

Lemma peekable_stable : peekable m' q avail.
Proof.
  pose proof (peekable_rings _ _ _ Hp) as Hr. pose proof Hp as []. split; try done.
  - rewrite <- pk_usable0. unfold queue_is_usable. assert (∀ a n, guest_range_is_valid m' a n = guest_range_is_valid m a n) as Hv.
    { intros a n. unfold guest_range_is_valid. by rewrite Hck. }
    repeat case_match; try done. by rewrite !Hv.
  - unfold avail_idx_addr in *. destruct (u64_checked_add _ 2) as [a|] eqn:Ea; [|done].
    apply u64_checked_add_Some in Ea as [-> _]. rewrite <- pk_avail0. cbn beta iota. unfold read_u16. f_equal.
    destruct Hr as (? & _). eapply read_outside; [done|exact Hch|]. intros x Hx Hn. apply Hn. right. lia.
  - intros i pc Hi. destruct (pk_peeked0 i pc Hi) as (Hh & dc & Hw & Hb). rewrite read_head_stable. split; [done|].
    exists dc. rewrite walk_writable_stable by by eapply read_head_nonneg. done.
  - intros He. rewrite Hck. by apply pk_event0.
Qed.

End stable.

(** Publishing says whether the driver's index is beyond what was seen. *)
Lemma publish_used_ok w q avail sz :
  laid_out (w_mem w) sz → peekable (w_mem w) q avail →
  ∃ w', publish_used q w = (w', event_idx q && negb (avail =? seen_idx q)) ∧ tracked w w' ∧
    changes_only (fun x => used_zone (config q) x ∧ (x < used_ring_addr (config q) + 4 ∨
      used_ring_addr (config q) + (4 + size (config q) * 8) ≤ x)) (w_mem w) (w_mem w') ∧
    read_u16 (w_mem w') (used_ring_addr (config q) + 2) = Some (last_used_idx q).
Proof.
  intros Hlay Hp. pose proof (peekable_rings _ _ _ Hp) as Hr. pose proof Hr as (Hsz & _). set (c := config q) in *.
  destruct (publish_used_idx_ok q w sz) as (Ht1 & Hrd & Hc1); [done|done|apply Hp|]. fold c in Hrd, Hc1.
  unfold publish_used. set (w1 := publish_used_idx q w) in *.
  assert (changes_only (fun x => used_zone c x ∧ (x < used_ring_addr c + 4 ∨ used_ring_addr c + (4 + size c * 8) ≤ x))
    (w_mem w) (w_mem w1)) as Hz1.
  { eapply changes_only_mono; [exact Hc1|]. intros x Hx. unfold used_zone. simpl in Hx. lia. }
  destruct (event_idx q) eqn:Ee; cbn [negb andb]; [|by exists w1]. fold (seen_idx q).
  destruct (avail_event_ok q w1 sz (seen_idx q)) as (Ht2 & _ & Hc2);
    [by eapply tracked_laid_out|by eapply rings_ok_tracked|apply u16_wrapping_add_range
    |rewrite (proj1 Ht1); by apply (pk_event _ _ _ Hp)|].
  fold c in Hc2. set (w2 := publish_avail_event q w1 (seen_idx q)) in *.
  assert (changes_only (fun x => used_zone c x ∧ (x < used_ring_addr c + 4 ∨ used_ring_addr c + (4 + size c * 8) ≤ x))
    (w_mem w) (w_mem w2)) as Hz2.
  { eapply changes_only_trans; [exact Hz1|]. eapply changes_only_mono; [exact Hc2|]. intros x Hx. unfold used_zone. simpl in Hx. lia. }
  assert (peekable (w_mem w2) q avail) as Hp2.
  { apply (peekable_stable (w_mem w)); [done| |].
    - intros x n. by rewrite (proj1 Ht2), (proj1 Ht1).
    - eapply changes_only_mono; [exact Hz2|]. intros x [Hx _]. by apply (pk_apart _ _ _ Hp). }
  rewrite (pk_avail _ _ _ Hp2). eexists. split; [done|]. split_and!; [by transitivity w1|done|].
  rewrite <- Hrd. unfold read_u16. f_equal. eapply read_outside; [done|exact Hc2|]. intros x Hx. simpl. lia.
Qed.

(** What publishing leaves to peek at. *)
Lemma publish_peekable w w' q avail :
  peekable (w_mem w) q avail → tracked w w' →
  changes_only (fun x => used_zone (config q) x ∧ (x < used_ring_addr (config q) + 4 ∨
    used_ring_addr (config q) + (4 + size (config q) * 8) ≤ x)) (w_mem w) (w_mem w') →
  peekable (w_mem w') q avail ∧ ∀ want, peek_done (w_mem w) avail want q → peek_done (w_mem w') avail want q.
Proof.
  intros Hp Ht Hc. assert (changes_only (fun x => ¬ table_or_avail (config q) x) (w_mem w) (w_mem w')) as Hc'.
  { eapply changes_only_mono; [exact Hc|]. intros x [Hx _]. by apply (pk_apart _ _ _ Hp). }
  split; [|intros want]; [apply (peekable_stable (w_mem w))|apply (peek_done_stable (w_mem w))]; try done; apply Ht.
Qed.

(** A device that spins does so for ever. *)
Lemma make_room_spins need q1 avail sz rounds : ∀ q w,
  laid_out (w_mem w) sz → peekable (w_mem w) q1 avail → peek_done (w_mem w) avail need q1 →
  peek_writable q (w_mem w) need = Some q1 → spins q1 avail need = true → make_room rounds need q w = None.
Proof.
  induction rounds as [|rounds IH]; intros q w Hlay Hp Hd Hq Hs; [done|]. cbn [make_room]. rewrite Hq.
  assert (peeked_have (peeked q1) <? need = true ∧ event_idx q1 && negb (avail =? seen_idx q1) = true) as [Hlt Hag].
  { unfold spins in Hs. apply andb_true_iff in Hs as [[-> ->]%andb_true_iff ->]. done. }
  rewrite Z.leb_antisym, Hlt. cbn [negb].
  destruct (publish_used_ok w q1 avail sz Hlay Hp) as (w' & -> & Ht & Hc & _).
  destruct (publish_peekable w w' q1 avail Hp Ht Hc) as [Hp' Hd'].
  rewrite Hag. apply (IH q1 w'); try done; [by eapply tracked_laid_out|by apply Hd'|]. apply (peek_again _ _ avail); [done|by apply Hd'].
Qed.

(** Otherwise the first round is the last. *)
Lemma make_room_ends need q q1 avail sz rounds w :
  laid_out (w_mem w) sz → peekable (w_mem w) q1 avail → peek_writable q (w_mem w) need = Some q1 →
  spins q1 avail need = false →
  ∃ w', make_room (S rounds) need q w = Some (need <=? peeked_have (peeked q1), q1, w') ∧ tracked w w' ∧
    changes_only (used_zone (config q1)) (w_mem w) (w_mem w') ∧ (need ≤ peeked_have (peeked q1) → w' = w).
Proof.
  intros Hlay Hp Hq Hs. cbn [make_room]. rewrite Hq. destruct (need <=? peeked_have (peeked q1)) eqn:E; bool_to_prop.
  { exists w. split_and!; [done|reflexivity|reflexivity|done]. }
  destruct (publish_used_ok w q1 avail sz Hlay Hp) as (w' & -> & Ht & Hc & _). unfold spins in Hs.
  assert (peeked_have (peeked q1) <? need = true) as Hlt by (apply Z.ltb_lt; lia). rewrite Hlt, andb_true_r in Hs. rewrite Hs. exists w'.
  split_and!; [done|done| |lia]. eapply changes_only_mono; [exact Hc|]. by intros x [].
Qed.

End peek.
