(* ===== verification/NetRx.v ===== *)
(** * Reception by the network device

    A frame handed to [inject_rx] on a device with mergeable buffers: the
    header with its count of buffers and the packet end up in the buffers of
    as many posted chains as they need, or the device waits; and when it waits
    for ever. *)

From S2P Require Import Prelude Dirty GuestMem GuestRam VQueue VQueueWalk VQueueRun VQueuePeek VQueueServe GuestBufs.
From S2P Require Import RateLimit Bus Regs Dev BlkIov Transport Net NetPeek NetTx.

(** ** Copying pieces into buffers *)

Section copy.
Context {M : Type} `{!GuestMemoryBackend M} `{!GuestMemoryLaws M}.
Implicit Types (m : M) (w : World M).

Lemma valid_buf_suffix m a l n : valid_buf m (a, l) → 0 ≤ n ≤ l → valid_buf m (a + n, l - n).
Proof.
  intros Hv Hn. pose proof Hv as (Ha & Hl & _). cbn [fst snd] in *. split_and!; cbn [fst snd]; [lia..|].
  unfold guest_range_is_valid. destruct (l - n =? 0) eqn:E; [done|]. bool_to_prop.
  apply valid_buf_check in Hv; [|simpl; lia]. cbn [fst snd] in Hv.
  assert (gm_check_range m (a + n) (l - n) = true) as Hc by (apply (gm_check_range_sub m a l); [lia..|done]).
  pose proof (gm_check_range_u64_bound m (a + n) (l - n) ltac:(lia) Hc). by rewrite (proj2 (u64_checked_add_Some _ _ _)) by (split; [done|lia]).
Qed.

(** One buffer takes the next pieces, as far as it has room. *)
Lemma copy_buf_ok sz sources : ∀ w a room source,
  let data := source ++ concat sources in
  laid_out (w_mem w) sz → valid_buf (w_mem w) (a, room) → Forall is_byte data →
  ∃ w' s' ss', copy_buf w a room source sources = (true, w', s', ss') ∧
    s' ++ concat ss' = drop (Z.to_nat room) data ∧ tracked w w' ∧
    changes_only (fun x => a ≤ x < a + room) (w_mem w) (w_mem w') ∧
    holds (w_mem w') (seqZ a room) (take (Z.to_nat room) data).
Proof.
  induction sources as [|next rest IH]; intros w a room source data Hlay Hv Hby;
    (destruct (room <=? 0) eqn:Er; cbn [copy_buf]; rewrite Er; bool_to_prop;
     [exists w, source; eexists; split; [done|]; replace (Z.to_nat room) with 0%nat by lia;
      split; [done|]; split_and!; [reflexivity..|apply holds_nil]|]).
  all: pose proof Hv as (Ha & _ & _); cbn [fst snd] in Ha.
  all: set (n := Nat.min (Z.to_nat room) (length source)).
  all: assert ((n ≤ Z.to_nat room)%nat ∧ (n ≤ length source)%nat ∧ (n = Z.to_nat room ∨ n = length source)) as (Hn1 & Hn2 & Hn3)
    by (subst n; lia); clearbody n.
  all: assert (take n data = take n source) as Htn by (subst data; by rewrite take_app_le by lia).
  all: assert (∃ w1, (if (n =? 0)%nat then (true, w) else write_mem w (take n source) a) = (true, w1) ∧ tracked w w1 ∧
    changes_only (fun x => a ≤ x < a + room) (w_mem w) (w_mem w1) ∧ holds (w_mem w1) (seqZ a room) (take n data))
    as (w1 & -> & Ht1 & Hc1 & Hh1).
  1, 3: destruct (n =? 0)%nat eqn:En;
    [apply Nat.eqb_eq in En; exists w; split_and!; [done|reflexivity|reflexivity|rewrite En; apply holds_nil]|];
    apply Nat.eqb_neq in En; rewrite Htn;
    destruct (write_front w sz a room (take n source)) as (w1 & Hw & ? & ? & ?);
    [done|done|intros Hx; apply (f_equal length) in Hx; rewrite length_take in Hx; simpl in Hx; lia
    |rewrite length_take; lia|rewrite <- Htn; by apply Forall_take|by exists w1].
  all: cbn [negb]; destruct (Z.of_nat n =? room) eqn:E; bool_to_prop.
  1, 3: exists w1; do 2 eexists; split; [done|]; replace (Z.to_nat room) with n by lia;
    split; [subst data; by rewrite drop_app_le by lia|done].
  - assert (n = length source) as Hn by lia. exists w1, [], []. split; [done|].
    assert (length data = length source) as Hld by (subst data; cbn [concat]; by rewrite app_nil_r).
    split; [by rewrite drop_ge by lia|]. split_and!; [done|done|]. rewrite take_ge by lia. by rewrite take_ge in Hh1 by lia.
  - assert (n = length source) as Hn by lia.
    destruct (IH w1 (a + Z.of_nat n) (room - Z.of_nat n) next) as (w' & s' & ss' & -> & Hd & Ht & Hc & Hh).
    { by eapply tracked_laid_out. }
    { eapply valid_buf_tracked; [done|]. apply valid_buf_suffix; [done|lia]. }
    { apply Forall_app in Hby as [_ Hby]. done. }
    exists w', s', ss'. split; [done|]. change (concat (next :: rest)) with (next ++ concat rest) in data.
    replace (Z.to_nat (room - Z.of_nat n)) with (Z.to_nat room - length source)%nat in * by lia.
    split; [rewrite Hd; subst data; by rewrite (drop_app_ge source) by lia|]. split; [by transitivity w1|]. split.
    { eapply changes_only_trans; [exact Hc1|]. eapply changes_only_mono; [exact Hc|]. simpl. intros. lia. }
    replace (seqZ a room) with (seqZ a (Z.of_nat n) ++ seqZ (a + Z.of_nat n) (room - Z.of_nat n))
      by (rewrite <- seqZ_app by lia; f_equal; lia).
    apply holds_append; rewrite length_seqZ, Nat2Z.id.
    + rewrite take_take, Nat.min_l by lia.
      assert (holds (w_mem w1) (seqZ a (Z.of_nat n)) (take n data)) as Hh2.
      { destruct Hh1 as [_ Hh1]. split; [rewrite length_seqZ, length_take; lia|]. intros i x b Hx Hb.
        apply (Hh1 i); [|done]. apply lookup_seqZ in Hx as [-> Hx]. apply lookup_seqZ. lia. }
      eapply holds_frame; [exact Hc| |exact Hh2]. intros x Hx%elem_of_seqZ. simpl. lia.
    + rewrite skipn_firstn_comm. subst data n. rewrite drop_app_length. exact Hh.
Qed.

(** Buffers take the pieces one after the other. *)
Lemma copy_bufs_ok sz bufs : ∀ w source sources,
  let data := source ++ concat sources in
  laid_out (w_mem w) sz → Forall (valid_buf (w_mem w)) bufs → bufs_disjoint bufs → Forall is_byte data →
  ∃ w', copy_bufs w bufs source sources = (true, w') ∧ tracked w w' ∧
    changes_only (in_bufs bufs) (w_mem w) (w_mem w') ∧
    holds (w_mem w') (buf_addrs bufs) (take (length (buf_addrs bufs)) data).
Proof.
  induction bufs as [|[a l] bufs IH]; intros w source sources data Hlay Hv Hd Hby; cbn [copy_bufs].
  { exists w. split_and!; [done|reflexivity|reflexivity|apply holds_nil]. }
  apply Forall_cons in Hv as [Hv1 Hv2]. destruct Hd as [Hd1 Hd2].
  destruct (copy_buf_ok sz sources w a l source) as (w1 & s' & ss' & -> & Hdr & Ht1 & Hc1 & Hh1); [done..|].
  fold data in Hdr, Hh1. destruct (IH w1 s' ss') as (w' & -> & Ht & Hc & Hh); [by eapply tracked_laid_out| |done| |].
  { eapply Forall_impl; [exact Hv2|]. intros b. by apply valid_buf_tracked. }
  { rewrite Hdr. by apply Forall_drop. }
  exists w'. split; [done|]. split; [by transitivity w1|]. cbn [fst snd] in *. split.
  - eapply changes_only_trans; (eapply changes_only_mono; [eassumption|]); intros x Hx; apply in_bufs_cons; auto.
  - rewrite buf_addrs_cons. cbn [fst snd]. apply holds_append; rewrite length_app, length_seqZ.
    + rewrite take_take, Nat.min_l by lia. eapply holds_frame; [exact Hc| |exact Hh1].
      intros x Hx%elem_of_seqZ. by apply Hd1.
    + rewrite skipn_firstn_comm. replace (Z.to_nat l + length (buf_addrs bufs) - Z.to_nat l)%nat with (length (buf_addrs bufs)) by lia.
      by rewrite <- Hdr.
Qed.

End copy.

(** ** Chains for a frame *)

(** The buffers of chains, and the chains that take a frame of [need] bytes. *)
Definition chain_bufs (chains : list PeekedChain) : list (Z * Z) := concat (buffers <$> chains).
Definition frame_lens (need : Z) (q : VirtQueueProcessor) : list Z := split_lens need (capacity <$> peeked q).
Definition frame_chains (need : Z) (q : VirtQueueProcessor) : list PeekedChain :=
  take (length (frame_lens need q)) (peeked q).

Definition total (l : list Z) : Z := foldr Z.add 0 l.

Lemma total_cons x l : total (x :: l) = x + total l.
Proof. done. Qed.

Lemma total_nonneg l : Forall (fun c => 0 ≤ c) l → 0 ≤ total l.
Proof. induction 1 as [|c l Hc _ IH]; [done|]. rewrite total_cons. lia. Qed.

Lemma split_lens_ok caps : ∀ need,
  0 ≤ need ≤ U32_MAX → Forall (fun c => 0 ≤ c) caps → need ≤ total caps →
  let lens := split_lens need caps in
  (length lens ≤ length caps)%nat ∧ total lens = need ∧ need ≤ total (take (length lens) caps) ∧
  Forall2 (fun len cap => 0 ≤ len ≤ cap) lens (take (length lens) caps).
Proof.
  induction caps as [|c caps IH]; intros need Hn Hc Hle; cbn [split_lens].
  { change (total []) with 0 in Hle. split_and!; [done|change (0 = need); lia|change (need ≤ 0); lia|constructor]. }
  apply Forall_cons in Hc as [Hc0 Hc]. rewrite total_cons in Hle. pose proof (total_nonneg caps Hc).
  destruct (need =? 0) eqn:E; bool_to_prop.
  { subst need. split_and!; [simpl; lia|done|done|constructor]. }
  destruct (IH (need - Z.min need c)) as (H1 & H2 & H3 & H4); [lia|done|lia|]. cbn [length take].
  assert (as_u32 (Z.min need c) = Z.min need c) as -> by (apply Z.mod_small; unfold U32_MAX in *; lia).
  rewrite !total_cons.
  split_and!; [lia..|]. constructor; [lia|done].
Qed.

Section frame.
Context {M : Type} `{!GuestMemoryBackend M} `{!GuestMemoryLaws M}.
Implicit Types (m : M) (w : World M) (q : VirtQueueProcessor).

(** Peeked chains have valid buffers, and their capacity is what they hold. *)
Lemma peeked_valid m q avail :
  peekable m q avail →
  Forall (fun pc => Forall (valid_buf m) (buffers pc) ∧ capacity pc = sum_lens (buffers pc)) (peeked q).
Proof.
  intros Hp. apply Forall_lookup. intros i pc Hi. destruct (pk_peeked _ _ _ Hp i pc Hi) as (Hh & dc & Hw & -> & ->).
  split; [|done]. unfold walk_writable in Hw. destruct (walk_descriptor_chain _ _ _) as [ch|] eqn:Ew; [|done].
  assert (ch = dc) as -> by (destruct (readable ch), (writable ch); congruence).
  eapply walk_valid_bufs; [|exact Ew]. by eapply read_head_nonneg.
Qed.

Lemma sum_chain_bufs m chains :
  Forall (fun pc => Forall (valid_buf m) (buffers pc) ∧ capacity pc = sum_lens (buffers pc)) chains →
  Forall (valid_buf m) (chain_bufs chains) ∧ sum_lens (chain_bufs chains) = total (capacity <$> chains) ∧
  Forall (fun c => 0 ≤ c) (capacity <$> chains).
Proof.
  induction 1 as [|pc chains [Hv Hc] _ (IH1 & IH2 & IH3)]; [by split_and!; try constructor|].
  unfold chain_bufs in *. cbn [fmap list_fmap concat]. rewrite sum_lens_app.
  rewrite total_cons.
  split_and!; [by apply Forall_app|lia|]. constructor; [|done]. rewrite Hc. by eapply sum_lens_nonneg.
Qed.

Lemma peeked_have_total l : peeked_have l = total (capacity <$> l).
Proof. induction l as [|pc l IH]; [done|]. unfold peeked_have in *. simpl. by rewrite IH. Qed.

(** The driver keeps the buffers the frame goes to apart from each other and
    from the rings. *)
Definition frame_apart (need : Z) (q : VirtQueueProcessor) : Prop :=
  let bufs := chain_bufs (frame_chains need q) in
  bufs_disjoint bufs ∧ ∀ x, in_bufs bufs x → ¬ table_or_avail (config q) x ∧ ¬ used_zone (config q) x.

(** Using the first chains leaves a ring to peek at. *)
Lemma use_peekable m m' q avail k :
  peekable m q avail → (k ≤ length (peeked q))%nat → (∀ x n, gm_check_range m' x n = gm_check_range m x n) →
  changes_only (fun x => ¬ table_or_avail (config q) x) m m' →
  peekable m' (mkProc (config q) (u16_wrapping_add (last_avail_idx q) (Z.of_nat k))
    (u16_wrapping_add (last_used_idx q) (Z.of_nat k)) (event_idx q) (drop k (peeked q))) avail.
Proof.
  intros Hp Hk Hck Hch. pose proof (peekable_stable m m' q avail Hp Hck Hch) as [].
  pose proof (peekable_u16 _ _ _ Hp) as Ha.
  split; cbn [config last_avail_idx last_used_idx event_idx peeked]; try done; try apply u16_wrapping_add_range.
  - rewrite length_drop.
    assert (u16_wrapping_sub avail (u16_wrapping_add (last_avail_idx q) (Z.of_nat k)) =
      u16_wrapping_sub avail (last_avail_idx q) - Z.of_nat k) as ->; [|lia].
    unfold u16_wrapping_sub, u16_wrapping_add, in_u16, U16_MAX in *. zlia.
  - by apply peeked_ok_drop.
Qed.

Lemma length_frame_lens m q avail need :
  peekable m q avail → 0 ≤ need ≤ U32_MAX → need ≤ peeked_have (peeked q) →
  let k := length (frame_lens need q) in
  (k ≤ length (peeked q))%nat ∧ Z.of_nat k ≤ 1024 ∧ total (frame_lens need q) = need ∧
  need ≤ sum_lens (chain_bufs (frame_chains need q)) ∧ Forall (valid_buf m) (chain_bufs (frame_chains need q)).
Proof.
  intros Hp Hn Hh k. pose proof (peeked_valid _ _ _ Hp) as Hv. rewrite peeked_have_total in Hh.
  destruct (sum_chain_bufs m _ Hv) as (_ & _ & Hc). destruct (split_lens_ok (capacity <$> peeked q) need) as (H1 & H2 & H3 & _); [done..|].
  rewrite length_fmap in H1. fold (frame_lens need q) in H1, H2, H3. fold k in H1, H3.
  destruct (sum_chain_bufs m (frame_chains need q)) as (Hvb & Hs & _); [by apply Forall_take|].
  pose proof (pk_count _ _ _ Hp). pose proof (peekable_rings _ _ _ Hp) as (Hsz & _).
  split_and!; [done|lia|done| |done]. rewrite Hs. unfold frame_chains. fold k. by rewrite fmap_take.
Qed.

(** With the bytes of a frame in the buffers of its chains, using the chains
    and publishing the index makes it the driver's. *)
Lemma use_publish_ok w w1 q avail sz need data :
  let lens := frame_lens need q in
  let k := length lens in
  let bufs := chain_bufs (frame_chains need q) in
  let q' := mkProc (config q) (u16_wrapping_add (last_avail_idx q) (Z.of_nat k))
              (u16_wrapping_add (last_used_idx q) (Z.of_nat k)) (event_idx q) (drop k (peeked q)) in
  laid_out (w_mem w) sz → peekable (w_mem w) q avail → 0 ≤ need ≤ U32_MAX → need ≤ peeked_have (peeked q) →
  frame_apart need q → tracked w w1 → changes_only (in_bufs bufs) (w_mem w) (w_mem w1) →
  holds (w_mem w1) (buf_addrs bufs) data →
  ∃ w2 w' again, use_peeked q w1 lens = (q', w2) ∧ publish_used q' w2 = (w', again) ∧ tracked w w' ∧
    changes_only (fun x => in_bufs bufs x ∨ used_zone (config q) x) (w_mem w) (w_mem w') ∧
    holds (w_mem w') (buf_addrs bufs) data ∧
    (∀ (j : nat) pc len, peeked q !! j = Some pc → lens !! j = Some len →
      gm_read_slice (w_mem w') (used_slot_addr (config q) (u16_wrapping_add (last_used_idx q) (Z.of_nat j))) 8 =
      Some (encode_used_elem (head pc) len)) ∧
    read_u16 (w_mem w') (used_ring_addr (config q) + 2) = Some (last_used_idx q').
Proof.
  intros lens k bufs q' Hlay Hp Hn Hh [_ Hap] Ht1 Hc1 Hh1. fold bufs in Hap. set (c := config q) in *.
  destruct (length_frame_lens (w_mem w) q avail need Hp Hn Hh) as (Hk & _). fold lens in Hk. fold k in Hk.
  pose proof (peekable_rings _ _ _ Hp) as Hr.
  assert (length (zip (head <$> peeked q) lens) = k) as Hzip by (change k with (length lens) in *; rewrite length_zip_with, length_fmap; lia).
  destruct (use_peeked_ok lens q w1 sz) as (w2 & Huse & Ht2 & Hc2 & Hrep).
  { by eapply tracked_laid_out. }
  { by eapply rings_ok_tracked. }
  { apply Hp. }
  { apply Hp. }
  { rewrite Hzip. pose proof (pk_count _ _ _ Hp). lia. }
  rewrite Hzip in Huse. fold c in Huse, Hc2, Hrep. fold q' in Huse.
  assert (changes_only (fun x => in_bufs bufs x ∨ used_zone c x) (w_mem w) (w_mem w2)) as Hc12.
  { eapply changes_only_trans; (eapply changes_only_mono; [eassumption|]); [by auto|]. intros x Hx. right. by apply used_ring_zone. }
  assert (peekable (w_mem w2) q' avail) as Hp2.
  { apply (use_peekable (w_mem w)); [done|done| |].
    - intros x n. by rewrite (proj1 Ht2), (proj1 Ht1).
    - eapply changes_only_mono; [exact Hc12|]. intros x [Hx|Hx]; [by apply Hap|by apply (pk_apart _ _ _ Hp)]. }
  assert (laid_out (w_mem w2) sz) as Hlay2 by (eapply tracked_laid_out; [|exact Hlay]; by transitivity w1).
  destruct (publish_used_ok w2 q' avail sz Hlay2 Hp2) as (w3 & Hpub & Ht3 & Hc3 & Hrd3).
  change (config q') with c in *. exists w2, w3. eexists. split; [done|]. split; [done|].
  split; [transitivity w2; [by transitivity w1|done]|]. split; [|split; [|split; [|done]]].
  - eapply changes_only_trans; [exact Hc12|]. eapply changes_only_mono; [exact Hc3|]. intros x [Hx _]. by right.
  - eapply holds_frame; [exact Hc3| |eapply holds_frame; [exact Hc2| |exact Hh1]]; intros x Hx%elem_of_buf_addrs.
    + intros [Hz _]. by apply (Hap x Hx).
    + intros Hz%used_ring_zone. by apply (Hap x Hx).
  - intros j pc len Hj Hl. rewrite <- (proj2 Hrep j (head pc) len).
    2: { rewrite lookup_zip_with_Some. exists (head pc), len. rewrite list_lookup_fmap, Hj. done. }
    eapply read_outside; [done|exact Hc3|]. intros x Hx [_ Hz].
    pose proof (used_slot_in_ring c (w_mem w) _ x Hr Hx) as [Hx1 Hx2]. unfold used_ring_byte in Hx1. lia.
Qed.

(** The frame is written, its chains are used and the index is published. *)
Lemma place_frame_ok w q avail sz header packet :
  let need := VIRTIO_NET_HDR_LEN + Z.of_nat (length packet) in
  let lens := frame_lens need q in
  let k := length lens in
  let bufs := chain_bufs (frame_chains need q) in
  let q' := mkProc (config q) (u16_wrapping_add (last_avail_idx q) (Z.of_nat k))
              (u16_wrapping_add (last_used_idx q) (Z.of_nat k)) (event_idx q) (drop k (peeked q)) in
  laid_out (w_mem w) sz → peekable (w_mem w) q avail → peek_done (w_mem w) avail need q →
  need ≤ peeked_have (peeked q) → need ≤ U32_MAX → length header = 12%nat → Forall is_byte header →
  Forall is_byte packet → frame_apart need q →
  ∃ w', place_frame q w header packet = Some (true, q', w') ∧ tracked w w' ∧
    changes_only (fun x => in_bufs bufs x ∨ used_zone (config q) x) (w_mem w) (w_mem w') ∧
    holds (w_mem w') (buf_addrs bufs) (set_num_buffers header (Z.of_nat k) ++ packet) ∧
    (∀ (j : nat) pc len, peeked q !! j = Some pc → lens !! j = Some len →
      gm_read_slice (w_mem w') (used_slot_addr (config q) (u16_wrapping_add (last_used_idx q) (Z.of_nat j))) 8 =
      Some (encode_used_elem (head pc) len)) ∧
    read_u16 (w_mem w') (used_ring_addr (config q) + 2) = Some (last_used_idx q').
Proof.
  intros need lens k bufs q' Hlay Hp Hd Hh Hn Hlh Hbh Hbp Hap. pose proof (proj1 Hap) as Hdj. fold bufs in Hdj.
  assert (0 ≤ need ≤ U32_MAX) as Hn0 by (unfold need, VIRTIO_NET_HDR_LEN in *; lia).
  destruct (length_frame_lens (w_mem w) q avail need Hp Hn0 Hh) as (_ & Hk2 & _ & Hsum & Hvb).
  fold bufs in Hsum, Hvb. fold lens in Hk2. fold k in Hk2.
  pose proof (peek_again _ _ _ _ Hp Hd) as Hpk. unfold place_frame. fold need. rewrite Hpk. fold (frame_lens need q). fold lens.
  rewrite Hpk. fold k. rewrite (Z.mod_small (Z.of_nat k)) by lia. fold (frame_chains need q).
  change (concat (buffers <$> take k (peeked q))) with bufs. set (hdr := set_num_buffers header (Z.of_nat k)).
  assert (length hdr = 12%nat) as Hlhdr by (unfold hdr, set_num_buffers; rewrite length_app, length_take, length_le_encode; lia).
  assert (Forall is_byte (hdr ++ concat [packet])) as Hby.
  { cbn [concat]. rewrite app_nil_r. apply Forall_app. split; [|done]. apply Forall_app. split; [by apply Forall_take|].
    auto with tarit. }
  destruct (copy_bufs_ok sz bufs w hdr [packet]) as (w1 & -> & Ht1 & Hc1 & Hh1); [done..|].
  cbn [concat] in Hh1. rewrite app_nil_r, take_ge in Hh1.
  2: { pose proof (length_buf_addrs _ _ Hvb). rewrite length_app, Hlhdr. unfold need, VIRTIO_NET_HDR_LEN in Hsum. lia. }
  destruct (use_publish_ok w w1 q avail sz need (hdr ++ packet)) as (w2 & w' & again & Hu & Hpub & Hres); [done..|].
  fold lens in Hu, Hpub, Hres. fold k in Hu, Hpub, Hres. fold q' in Hu, Hpub, Hres. rewrite Hu, Hpub. by exists w'.
Qed.

End frame.

(** ** The device *)

(** The processor [inject_rx] works with. *)
Definition rx_walker {M : Type} (d : VirtioNetMmio M) (q : QueueState) : VirtQueueProcessor :=
  ready_processor (rx_processor d) (queue_config_from_state q) (negotiated_event_idx d).

(** A device in operation with mergeable buffers, attached to guest memory,
    which no limiter holds back; [q1] is what it sees of the receive ring when
    it needs [need] bytes. *)
Record listening {M : Type} `{!GuestMemoryBackend M} (d : VirtioNetMmio M) (m : M) (q : QueueState)
    (q1 : VirtQueueProcessor) (need avail sz : Z) : Prop := {
  l_live : is_failed d = false;
  l_locks : poisoned d = [];
  l_mem : guest_mem d = Some m;
  l_free : rate_limiter d = None;
  l_merge : mergeable d = true;
  l_queue : t_queues (regs d) !! QUEUE_RX = Some q;
  l_ready : q_ready q && valid_size_upto NET_QUEUE_SIZE_MAX q = true;
  l_laid_out : laid_out m sz;
  l_ring : peekable m (rx_walker d q) avail;
  l_sees : peek_writable (rx_walker d q) m need = Some q1;
}.

(** The largest frame [inject_rx] takes. *)
Definition max_frame (header : option (list Z)) : Z := if header then MAX_GSO_FRAME_BYTES else MAX_FRAME_BYTES.

(** The interrupt for a frame: now, or left to [signal_rx]. *)
Definition alerted {M : Type} (wanted notify : bool) (d : VirtioNetMmio M) : VirtioNetMmio M :=
  if wanted then if notify then on_regs bump_irq (on_regs raise d) else with_rx_irq_pending d true else d.

(** After the frame was delivered into the buffers of the chains it needs. *)
Record delivered {M : Type} `{!GuestMemoryBackend M} (d : VirtioNetMmio M) (m : M) (q1 : VirtQueueProcessor)
    (header packet : list Z) (notify : bool) (need : Z) (d' : VirtioNetMmio M) (m' : M) : Prop := {
  d_mem : guest_mem d' = Some m';
  d_frame : holds m' (buf_addrs (chain_bufs (frame_chains need q1)))
    (set_num_buffers header (Z.of_nat (length (frame_lens need q1))) ++ packet);
  d_total : total (frame_lens need q1) = need;
  d_entries : ∀ (j : nat) pc len, peeked q1 !! j = Some pc → frame_lens need q1 !! j = Some len →
    gm_read_slice m' (used_slot_addr (config q1) (u16_wrapping_add (last_used_idx q1) (Z.of_nat j))) 8 =
    Some (encode_used_elem (head pc) len);
  d_used : read_u16 m' (used_ring_addr (config q1) + 2) =
    Some (u16_wrapping_add (last_used_idx q1) (Z.of_nat (length (frame_lens need q1))));
  d_confined : changes_only (fun x => in_bufs (chain_bufs (frame_chains need q1)) x ∨ used_zone (config q1) x) m m';
  d_tracked : tracked (mkWorld m (host_dirty d)) (mkWorld m' (host_dirty d'));
  d_counts : rx_packets d' = u64_fetch_add (rx_packets d) 1 ∧
    rx_bytes d' = u64_fetch_add (rx_bytes d) (Z.of_nat (length packet));
  d_walker : ∃ q', rx_processor d' = Some q' ∧ peeked q' = drop (length (frame_lens need q1)) (peeked q1) ∧
    last_avail_idx q' = u16_wrapping_add (last_avail_idx q1) (Z.of_nat (length (frame_lens need q1))) ∧
    let d1 := alerted (needs_notification q' m' (last_used_idx q1)) notify d in
    regs d' = regs d1 ∧ rx_irq_pending d' = rx_irq_pending d1;
}.

Section inject.
Context {M : Type} `{!GuestMemoryBackend M} `{!GuestMemoryLaws M}.
Implicit Types (d : VirtioNetMmio M) (m : M).

(** From the call to the copy. *)
Lemma inject_runs rounds d m q q1 avail sz header packet notify :
  let need := VIRTIO_NET_HDR_LEN + Z.of_nat (length packet) in
  let p := rx_walker d q in
  listening d m q q1 need avail sz → need ≤ max_frame header →
  inject_rx rounds header packet notify d =
    (let* delivered := inject_rx_mergeable rounds m p (default (replicate 12 0) header) packet in
     do* notify_rx delivered notify (last_used_idx p) in
     ret delivered) (with_rx_processor d (Some p)).
Proof.
  intros need p [] Hn. assert (Hl : ∀ l, try_lock_state l d = Some (Ok tt, d)) by (intros; by apply net_try_lock_free).
  unfold inject_rx. rewrite (dev_bind_ok _ _ _ tt d) by (unfold ensure_operational, dev_bind, get; by rewrite l_live0).
  assert (max_frame header ≤ MAX_GSO_FRAME_BYTES) as Hg by (destruct header; vm_compute; discriminate).
  assert (need ≤ U64_MAX) as Hu by (unfold MAX_GSO_FRAME_BYTES, VIRTIO_NET_HDR_LEN, U64_MAX in *; lia).
  rewrite (proj2 (u64_checked_add_Some _ _ need)) by (unfold need; lia). fold (max_frame header).
  rewrite (proj2 (Z.ltb_ge _ _)) by lia. rewrite (dev_bind_ok _ _ _ tt d), (dev_bind_ok _ _ _ d d) by done. rewrite l_mem0.
  rewrite (dev_bind_ok _ _ _ tt d) by done. erewrite dev_bind_ok by (by apply (net_queue_config_ok d _ q)). lazy beta iota.
  rewrite (dev_bind_ok _ _ _ tt d) by done. fold (rx_walker d q). fold p.
  rewrite (dev_bind_ok _ _ _ tt (with_rx_processor d (Some p))) by done. by rewrite l_merge0.
Qed.

Lemma notify_rx_ok d p m del notify old :
  poisoned d = [] → rx_processor d = Some p → guest_mem d = Some m →
  notify_rx del notify old d = Some (Ok tt, if del then alerted (needs_notification p m old) notify d else d).
Proof.
  intros Hl Hp Hm. unfold notify_rx, trigger_interrupt, dev_bind, get, modify, ret. rewrite Hp, Hm.
  destruct del; [|done]. cbn [andb]. destruct (needs_notification p m old); [|done]. destruct notify; [|done].
  by rewrite net_try_lock_free.
Qed.

Lemma notify_rx_returns del notify old d : ∃ r, notify_rx del notify old d = Some r.
Proof.
  unfold notify_rx, trigger_interrupt, try_lock_state, dev_bind, get, modify, ret.
  case_goal; [|eauto]. destruct notify; [|eauto]. by case_decide; eauto.
Qed.

(** With the search for room over, so is the call, soon. *)
Lemma mergeable_returns rounds d m p q1 w room avail hdr packet :
  let need := VIRTIO_NET_HDR_LEN + Z.of_nat (length packet) in
  poisoned d = [] → rate_limiter d = None →
  make_room rounds need p (mkWorld m (host_dirty d)) = Some (room, q1, w) →
  (room = true → peekable (w_mem w) q1 avail ∧ peek_done (w_mem w) avail need q1) →
  ∃ r, inject_rx_mergeable rounds m p hdr packet d = Some r.
Proof.
  intros need Hl Hf Hr Hp. unfold inject_rx_mergeable. rewrite (dev_bind_ok _ _ _ d d) by done. fold need. rewrite Hr.
  rewrite (dev_bind_ok _ _ _ tt (put_rx q1 w d)) by done. destruct room; cbn [negb]; [|by eexists]. destruct (Hp eq_refl) as [Hp1 Hd1].
  rewrite (dev_bind_ok _ _ _ true (put_rx q1 w d)) by (apply rate_limit_free; [done|]; cbn; rewrite Hl; set_solver).
  cbn [negb]. unfold place_frame. fold need. rewrite !(peek_again _ _ _ _ Hp1 Hd1). destruct (copy_bufs _ _ _ _) as [[] w1]; [|by eexists].
  destruct (use_peeked _ _ _). by eexists.
Qed.

(** What is there to see, and that it stays so. *)
Lemma listening_sees d m q q1 need avail sz :
  listening d m q q1 need avail sz →
  peekable m q1 avail ∧ peek_done m avail need q1 ∧ last_used_idx q1 = last_used_idx (rx_walker d q) ∧
  config q1 = queue_config_from_state q.
Proof.
  intros []. destruct (peek_once _ _ _ need l_ring0) as (q' & Hq & Hres). rewrite l_sees0 in Hq. injection Hq as <-.
  destruct (peek_result_peekable _ _ _ _ _ l_ring0 Hres) as (Hp & Hc & Hu & _ & Hd). split_and!; [done..|].
  rewrite Hc. unfold rx_walker, ready_processor. by case_match.
Qed.

(** C9: A frame for the guest arrives whole. On a device with mergeable
    buffers that sees enough of them, an injected packet is delivered at once:
    the header, with the number of chains it took as its count of buffers, and
    the packet stand in the buffers of the first posted chains, in order; each
    of these chains has its entry in the used ring, the lengths add up to
    header and packet, and the used index counts them; the other chains stay
    posted; nothing but these buffers and the used ring changes in guest
    memory, every change is tracked, and the driver is interrupted, now or by
    the next [signal_rx], exactly when it wants to know. *)
Theorem net_rx_delivers rounds d m q q1 avail sz header packet notify :
  let need := VIRTIO_NET_HDR_LEN + Z.of_nat (length packet) in
  let hdr := default (replicate 12 0) header in
  listening d m q q1 need avail sz → need ≤ max_frame header → need ≤ peeked_have (peeked q1) →
  frame_apart need q1 → length hdr = 12%nat → Forall is_byte hdr → Forall is_byte packet →
  ∃ d' m', inject_rx (S rounds) header packet notify d = Some (Ok true, d') ∧
    delivered d m q1 hdr packet notify need d' m'.
Proof.
  intros need hdr Hl Hn Hh Hap Hlh Hbh Hbp. destruct (listening_sees _ _ _ _ _ _ _ Hl) as (Hp & Hd & Hlu & _).
  rewrite (inject_runs _ _ _ _ _ _ _ _ _ _ Hl Hn). fold hdr. pose proof Hl as [].
  set (p := rx_walker d q) in *. set (d0 := with_rx_processor d (Some p)). set (w := mkWorld m (host_dirty d)).
  assert (need ≤ U32_MAX) as Hn2.
  { assert (max_frame header ≤ U32_MAX) by (destruct header; vm_compute; discriminate). lia. }
  destruct (make_room_ends need p q1 avail sz rounds w) as (w0 & Hroom & _ & _ & Hw0); [done..| |].
  { unfold spins. by rewrite (proj2 (Z.ltb_ge _ _) Hh), andb_false_r. }
  rewrite (Hw0 Hh), (proj2 (Z.leb_le _ _) Hh) in Hroom. clear Hw0.
  destruct (place_frame_ok w q1 avail sz hdr packet) as (w' & Hpl & Ht & Hc & Hho & Hent & Hus); [done..|].
  set (k := length (frame_lens need q1)) in *. set (q' := mkProc _ _ _ _ _) in *.
  assert (inject_rx_mergeable (S rounds) m p hdr packet d0 =
    Some (Ok true, count_rx (Z.of_nat (length packet)) (put_rx q' w' (put_rx q1 w d0)))) as Hrun.
  { unfold inject_rx_mergeable. rewrite (dev_bind_ok _ _ _ d0 d0) by done. fold need. change (host_dirty d0) with (host_dirty d). fold w.
    rewrite Hroom. rewrite (dev_bind_ok _ _ _ tt (put_rx q1 w d0)) by done. cbn [negb].
    rewrite (dev_bind_ok _ _ _ true (put_rx q1 w d0)) by (apply rate_limit_free; [done|]; cbn; rewrite l_locks0; set_solver).
    cbn [negb]. by rewrite Hpl. }
  rewrite (dev_bind_ok _ _ _ _ _ Hrun). set (d2 := count_rx _ _).
  eexists _, (w_mem w'). split.
  { rewrite (dev_bind_ok _ _ _ tt _ (notify_rx_ok d2 q' (w_mem w') true notify (last_used_idx p) l_locks0 eq_refl eq_refl)). reflexivity. }
  destruct (length_frame_lens m q1 avail need Hp ltac:(unfold need, VIRTIO_NET_HDR_LEN in *; lia) Hh) as (_ & _ & Htot & _).
  rewrite <- Hlu. set (wanted := needs_notification q' _ _).
  split; try done; try (by destruct wanted, notify). exists q'. fold wanted. by destruct wanted, notify.
Qed.

(** C31: When the worker hangs. Injecting a packet into a device with mergeable
    buffers never returns, however often the ring is looked at, exactly when
    the driver uses event indices, the device sees too little room for the
    frame, and the available index is not the one behind what it sees: the
    driver has put a chain the device cannot use behind smaller ones it can,
    or has published more entries than the ring has. In every other case the
    first round is the last. *)
Theorem net_rx_hangs_exactly d m q q1 avail sz header packet notify :
  let need := VIRTIO_NET_HDR_LEN + Z.of_nat (length packet) in
  listening d m q q1 need avail sz → need ≤ max_frame header →
  ((∀ rounds, inject_rx rounds header packet notify d = None) ↔ spins q1 avail need = true) ∧
  (spins q1 avail need = false → ∀ rounds, ∃ r, inject_rx (S rounds) header packet notify d = Some r).
Proof.
  intros need Hl Hn. destruct (listening_sees _ _ _ _ _ _ _ Hl) as (Hp & Hd & _).
  pose proof (fun rounds => inject_runs rounds d m q q1 avail sz header packet notify Hl Hn) as Hrun.
  set (hdr := default _ _) in Hrun. pose proof Hl as [].
  set (p := rx_walker d q) in *. set (d0 := with_rx_processor d (Some p)) in *. set (w := mkWorld m (host_dirty d)).
  assert (Hbind : ∀ {A} (c : dev _ MmioError A) r, c d0 = None → dev_bind c r d0 = None (A := result bool MmioError * VirtioNetMmio M)).
  { intros A c r Hc. unfold dev_bind. by rewrite Hc. }
  assert (spins q1 avail need = true → ∀ rounds, inject_rx rounds header packet notify d = None) as Hhang.
  { intros Hs rounds. rewrite Hrun. apply Hbind. unfold inject_rx_mergeable. rewrite (dev_bind_ok _ _ _ d0 d0) by done.
    fold need. change (mkWorld m (host_dirty d0)) with w. by rewrite (make_room_spins need q1 avail sz). }
  assert (spins q1 avail need = false → ∀ rounds, ∃ r, inject_rx (S rounds) header packet notify d = Some r) as Hret.
  { intros Hs rounds. rewrite Hrun.
    destruct (make_room_ends need p q1 avail sz rounds w) as (w0 & Hroom & _ & _ & Hw0); [done..|].
    destruct (mergeable_returns (S rounds) d0 m p q1 w0 _ avail hdr packet l_locks0 l_free0 Hroom) as [[[del|e] d1] Hm].
    { intros Hle%Z.leb_le. by rewrite (Hw0 Hle). }
    - rewrite (dev_bind_ok _ _ _ _ _ Hm). destruct (notify_rx_returns del notify (last_used_idx p) d1) as [[[u|e] d2] Hnt].
      + rewrite (dev_bind_ok _ _ _ _ _ Hnt). by eexists.
      + eexists. unfold dev_bind. by rewrite Hnt.
    - eexists. unfold dev_bind. by rewrite Hm. }
  split; [|done]. split; [|done]. intros Hnone. destruct (spins q1 avail need); [done|].
  destruct (Hret eq_refl 0%nat) as [r Hr]. by rewrite Hnone in Hr.
Qed.

End inject.

(** A driver that has posted two buffers of eight bytes, and one that has put
    a buffer the device may only read behind the first. *)
Module ExampleRx.

Definition queue : QueueState := mkQueue 2 0 64 96 true.
Definition mem (flags : Z) : gmap Z Z :=
  ByteMap.store (ByteMap.store (ByteMap.zeros 0 192)
    0 (ExampleQueue.encode_desc (mkDesc 128 8 WRITE 0) ++ ExampleQueue.encode_desc (mkDesc 144 8 flags 0)))
    64 [0; 0; 2; 0; 0; 0; 1; 0].
Definition device (features flags : Z) : VirtioNetMmio (gmap Z Z) :=
  with_guest_mem (on_regs (fun t => with_guest_features_low (with_queues t [queue; queue_default]) features)
    (net_new 5 [2; 0; 0; 0; 0; 1] (mkTap [] [] []) (fun _ => 0))) (Some (mem flags)).
Definition walker (ev : bool) (chains : list PeekedChain) : VirtQueueProcessor :=
  mkProc (queue_config_from_state queue) 0 0 ev chains.
Definition chain (head addr : Z) : PeekedChain := mkPeeked head [(addr, 8)] 8.

Lemma rx_mem_laid_out flags : laid_out (mem flags) 192.
Proof.
  split; [lia|]. intros a Ha. unfold mem.
  rewrite !store_check by done. rewrite bm_zeros_check by (unfold U64_MAX; lia).
  split; [intros ?; exists a|intros [o Ho]; revert Ho]; rewrite gpa_to_offset_Some by lia;
    unfold MMIO_GAP_START, MMIO_GAP_END; lia.
Qed.

Lemma fresh_peekable m ev :
  queue_is_usable (walker ev []) m = true → read_u16 m 66 = Some 2 → gm_check_range m 116 2 = true →
  peekable m (walker ev []) 2.
Proof.
  intros Hu Ha He. split; try done; try (vm_compute; split; discriminate).
  intros x. unfold used_zone, table_or_avail. cbn. lia.
Qed.

(** Two good chains, without event indices. *)
Lemma rx_listening :
  listening (device net_features.MRG_RXBUF WRITE) (mem WRITE) queue (walker false [chain 0 128; chain 1 144]) 15 2 192.
Proof.
  split; try reflexivity; [exact (rx_mem_laid_out _)|]. by apply fresh_peekable; vm_compute.
Qed.

(** The second chain is not writable, and there are event indices. *)
Lemma rx_blocked :
  listening (device (Z.lor net_features.MRG_RXBUF net_features.RING_EVENT_IDX) 0) (mem 0) queue
    (walker true [chain 0 128]) 15 2 192.
Proof.
  split; try reflexivity; [exact (rx_mem_laid_out _)|]. by apply fresh_peekable; vm_compute.
Qed.

Lemma rx_apart : frame_apart 15 (walker false [chain 0 128; chain 1 144]).
Proof.
  split.
  - split; [|split; [|done]]; intros x Hx (b & Hb & Hx').
    + apply list_elem_of_singleton in Hb as ->. cbn in *. lia.
    + by apply not_elem_of_nil in Hb.
  - intros x (b & Hb & Hx). unfold table_or_avail, used_zone. cbn. cbn in Hb.
    apply elem_of_cons in Hb as [-> | ->%list_elem_of_singleton]; cbn in Hx; lia.
Qed.

End ExampleRx.

Lemma net_rx_delivers_witness :
  ∃ d' m', inject_rx 1 None [7; 8; 9] true (ExampleRx.device net_features.MRG_RXBUF WRITE) = Some (Ok true, d') ∧
    guest_mem d' = Some m' ∧
    holds m' (seqZ 128 8 ++ seqZ 144 8) ([0; 0; 0; 0; 0; 0; 0; 0; 0; 0; 2; 0] ++ [7; 8; 9]) ∧ read_u16 m' 98 = Some 2.
Proof.
  destruct (net_rx_delivers 0 (ExampleRx.device net_features.MRG_RXBUF WRITE) (ExampleRx.mem WRITE) ExampleRx.queue
    (ExampleRx.walker false [ExampleRx.chain 0 128; ExampleRx.chain 1 144]) 2 192 None [7; 8; 9] true
    ExampleRx.rx_listening) as (d' & m' & Hrun & Hd);
    [vm_compute; discriminate|vm_compute; discriminate|exact ExampleRx.rx_apart|done
    |repeat constructor; unfold is_byte; lia|repeat constructor; unfold is_byte; lia|].
  exists d', m'. destruct Hd as [Hm Hf _ _ Hu _ _ _ _]. split; [exact Hrun|]. split; [exact Hm|]. split; [exact Hf|exact Hu].
Defined.

Lemma net_rx_hangs_exactly_witness :
  (∀ rounds, inject_rx rounds None [7; 8; 9] true
    (ExampleRx.device (Z.lor net_features.MRG_RXBUF net_features.RING_EVENT_IDX) 0) = None) ∧
  ∃ r, inject_rx 1 None [7; 8; 9] true (ExampleRx.device net_features.MRG_RXBUF WRITE) = Some r.
Proof.
  split.
  - refine (proj2 (proj1 (net_rx_hangs_exactly _ _ _ _ _ _ None [7; 8; 9] true ExampleRx.rx_blocked _)) _);
      vm_compute; [discriminate|reflexivity].
  - refine (proj2 (net_rx_hangs_exactly _ _ _ _ _ _ None [7; 8; 9] true ExampleRx.rx_listening _) _ 0%nat);
      vm_compute; [discriminate|reflexivity].
Defined.
