(* ===== verification/NetTap.v ===== *)
(** * Reading the tap into receive buffers

    [rx_from_vnet_tap] on a device with mergeable buffers lets the kernel write
    a frame straight into posted buffers and then looks at its header. A frame
    the guest accepts is handed over; one it does not accept has already been
    written. *)

From S2P Require Import Prelude Dirty GuestMem GuestRam VQueue VQueueWalk VQueueRun VQueuePeek VQueueServe GuestBufs.
From S2P Require Import RateLimit Bus Regs Dev BlkIov Transport BlkDev BlkBufs Net NetPeek NetTx NetRx.

Lemma drop_seqZ (k : nat) a l : Z.of_nat k ≤ l → drop k (seqZ a l) = seqZ (a + Z.of_nat k) (l - Z.of_nat k).
Proof.
  intros Hk. replace l with (Z.of_nat k + (l - Z.of_nat k)) at 1 by lia. rewrite seqZ_app by lia.
  apply drop_app_length'. rewrite length_seqZ. lia.
Qed.

Section chains.
Context {M : Type} `{!GuestMemoryBackend M} `{!GuestMemoryLaws M}.
Implicit Types (m : M) (bufs : list (Z * Z)).

(** ** Reading and writing at an offset *)

Lemma read_chain_front m bufs : ∀ n acc,
  Forall (valid_buf m) bufs → Z.of_nat (length acc) < n → n ≤ Z.of_nat (length acc) + sum_lens bufs →
  read_chain m bufs 0 n acc = Some (take (Z.to_nat n) (acc ++ bytes_at m (buf_addrs bufs))).
Proof.
  induction bufs as [|[a l] bufs IH]; intros n acc Hv Hlt Hle; cbn [read_chain]; [simpl in Hle; lia|].
  apply Forall_cons in Hv as [Hv1 Hv2]. change (sum_lens ((a, l) :: bufs)) with (l + sum_lens bufs) in Hle.
  pose proof Hv1 as (_ & Hl & _). cbn [snd] in Hl. rewrite buf_addrs_cons, bytes_at_app. cbn [fst snd].
  destruct (l <=? 0) eqn:E; bool_to_prop.
  { assert (l = 0) as -> by lia. change (0 - 0) with 0. rewrite IH by (done || lia). done. }
  apply valid_buf_check in Hv1; [|done]. cbn [fst snd] in Hv1. rewrite Z.add_0_r, Z.sub_0_r.
  set (k := Z.min l (n - Z.of_nat (length acc))).
  destruct (gm_read_total m a k) as (bs & Hr & Hlen & _); [lia|by apply (gm_check_range_sub m a l); [lia..|]|].
  destruct (gm_read_total m a l) as (bs' & Hr' & Hlen' & _); [lia|done|].
  rewrite Hr, (bytes_at_seqZ m a l bs') by (done || lia). assert (bs = take (Z.to_nat k) bs') as Hbs.
  { apply gm_read_iff in Hr as [_ Hr]; [|lia]. apply gm_read_iff in Hr' as [_ Hr']; [|lia]. apply list_eq_same_length with (n := length bs); [rewrite length_take; lia|done|].
    intros i x y _ Hx Hy. apply lookup_take_Some in Hy as [Hy _]. specialize (Hr i x Hx). specialize (Hr' i y Hy). congruence. }
  rewrite length_app. destruct (_ =? n) eqn:En; bool_to_prop.
  - f_equal. rewrite app_assoc, take_app_le by (rewrite length_app; lia). subst bs. rewrite take_app.
    rewrite (take_ge acc) by lia. f_equal. f_equal. lia.
  - assert (k = l) as Hkl by lia. rewrite IH by (done || (rewrite length_app; lia)). rewrite <- app_assoc. do 3 f_equal.
    subst bs. rewrite take_ge by lia. done.
Qed.

(** A write inside a valid buffer. *)
Lemma gm_write_inside m a l n bs :
  valid_buf m (a, l) → 0 ≤ n → bs ≠ [] → n + Z.of_nat (length bs) ≤ l → Forall is_byte bs →
  ∃ m', gm_write_slice m (a + n) bs = (true, m') ∧ (∀ x k, gm_check_range m' x k = gm_check_range m x k) ∧
    changes_only (fun x => a + n ≤ x < a + n + Z.of_nat (length bs)) m m' ∧ holds m' (seqZ (a + n) (l - n)) bs.
Proof.
  intros Hv Hn Hne Hl Hby. assert (0 < Z.of_nat (length bs)) as H0 by (destruct bs; [done|simpl; lia]).
  apply valid_buf_check in Hv; [|simpl; lia]. cbn [fst snd] in Hv.
  assert (gm_check_range m (a + n) (Z.of_nat (length bs)) = true) as Hck by (apply (gm_check_range_sub m a l); [lia..|done]).
  pose proof (gm_write_ok m (a + n) bs Hne) as Hok. rewrite Hck in Hok.
  destruct (gm_write_slice m (a + n) bs) as [ok m'] eqn:Hw. simpl in Hok. subst ok. exists m'.
  assert (m' = (gm_write_slice m (a + n) bs).2) as Hm by by rewrite Hw.
  split; [done|]. split; [intros; subst m'; apply gm_write_check|]. split.
  - intros x Hx. destruct (decide (a + n ≤ x < a + n + Z.of_nat (length bs))) as [|Ho]; [done|].
    destruct Hx. subst m'. apply gm_write_frame. lia.
  - split; [rewrite length_seqZ; lia|]. intros i x b Hx Hb. apply lookup_seqZ in Hx as [-> _].
    subst m'. by apply gm_write_read.
Qed.

Lemma holds_shorter m as1 as2 bs : holds m (as1 ++ as2) bs → (length bs ≤ length as1)%nat → holds m as1 bs.
Proof.
  intros [_ Hh] Hl. split; [done|]. intros i a b Ha Hb. apply (Hh i); [|done]. by apply lookup_app_l_Some.
Qed.

Lemma holds_longer m as1 as2 bs : holds m as1 bs → holds m (as1 ++ as2) bs.
Proof.
  intros [Hl Hh]. split; [rewrite length_app; lia|]. intros i a b Ha Hb. apply (Hh i); [|done].
  rewrite lookup_app_l in Ha; [done|]. apply lookup_lt_Some in Hb. lia.
Qed.

(** [data] at offset [at_] of a chain, and nothing else. *)
Lemma write_chain_ok bufs : ∀ m (at_ : nat) data,
  Forall (valid_buf m) bufs → bufs_disjoint bufs → data ≠ [] → Forall is_byte data →
  Z.of_nat (at_ + length data) ≤ sum_lens bufs →
  ∃ m', write_chain m bufs (Z.of_nat at_) data = (true, m') ∧
    (∀ x k, gm_check_range m' x k = gm_check_range m x k) ∧
    changes_only (fun x => x ∈ take (length data) (drop at_ (buf_addrs bufs))) m m' ∧
    holds m' (drop at_ (buf_addrs bufs)) data.
Proof.
  induction bufs as [|[a l] bufs IH]; intros m at_ data Hv Hd Hne Hby Hle; cbn [write_chain].
  { destruct data; simpl in *; [done|lia]. }
  apply Forall_cons in Hv as [Hv1 Hv2]. destruct Hd as [Hd1 Hd2]. cbn [fst snd] in Hd1. pose proof Hv1 as (_ & Hl & _). cbn [snd] in Hl.
  change (sum_lens ((a, l) :: bufs)) with (l + sum_lens bufs) in Hle. rewrite buf_addrs_cons. cbn [fst snd].
  assert (length (seqZ a l) = Z.to_nat l) as Hlen by apply length_seqZ.
  destruct (l <=? Z.of_nat at_) eqn:E; bool_to_prop.
  { replace (Z.of_nat at_ - l) with (Z.of_nat (at_ - Z.to_nat l)) by lia.
    rewrite (drop_app_ge (seqZ a l)) by lia. rewrite Hlen. apply IH; [done..|]. lia. }
  set (n := Z.to_nat (Z.min (l - Z.of_nat at_) (Z.of_nat (length data)))).
  assert (0 < length data)%nat as H0 by (destruct data; [done|simpl; lia]).
  assert ((n ≤ length data)%nat ∧ (0 < n)%nat ∧ Z.of_nat (at_ + n) ≤ l ∧ (n = length data ∨ Z.of_nat (at_ + n) = l)) as (Hn1 & Hn2 & Hn3 & Hn4)
    by (subst n; lia). clearbody n.
  assert (length (take n data) = n) as Hltk by (rewrite length_take; lia).
  destruct (gm_write_inside m a l (Z.of_nat at_) (take n data)) as (m1 & -> & Hck1 & Hc1 & Hh1);
    [done|lia|intros Hx; rewrite Hx in Hltk; simpl in Hltk; lia|lia|by apply Forall_take|].
  rewrite drop_app_le, drop_seqZ by lia. rewrite Hltk in Hc1.
  assert (Hfront : ∀ x, a + Z.of_nat at_ ≤ x < a + Z.of_nat at_ + Z.of_nat n →
    x ∈ take (length data) (seqZ (a + Z.of_nat at_) (l - Z.of_nat at_) ++ buf_addrs bufs)).
  { intros x Hx. apply list_elem_of_lookup. exists (Z.to_nat (x - (a + Z.of_nat at_))). apply lookup_take_Some.
    split; [|lia]. apply lookup_app_l_Some, lookup_seqZ. lia. }
  destruct (n =? length data)%nat eqn:En.
  - apply Nat.eqb_eq in En. exists m1. split; [done|]. split; [done|]. split.
    + eapply changes_only_mono; [exact Hc1|]. intros x Hx. by apply Hfront.
    + rewrite take_ge in Hh1 by lia. by apply holds_longer.
  - apply Nat.eqb_neq in En. destruct (IH m1 0%nat (drop n data)) as (m' & Hw & Hck & Hc & Hh).
    { eapply Forall_impl; [exact Hv2|]. intros b. unfold valid_buf, guest_range_is_valid. by rewrite Hck1. }
    { done. }
    { intros Hx. apply (f_equal length) in Hx. rewrite length_drop in Hx. simpl in Hx. lia. }
    { by apply Forall_drop. }
    { rewrite length_drop. lia. }
    rewrite drop_0 in Hc, Hh. exists m'. split; [exact Hw|]. split; [intros; by rewrite Hck, Hck1|]. rewrite length_drop in Hc.
    assert (length (seqZ (a + Z.of_nat at_) (l - Z.of_nat at_)) = n) as Hln by (rewrite length_seqZ; lia). split.
    + eapply changes_only_trans; (eapply changes_only_mono; [eassumption|]); intros x Hx; [by apply Hfront|].
      rewrite take_app, Hln. apply elem_of_app. by right.
    + apply holds_append; rewrite Hln.
      * eapply holds_frame; [exact Hc| |exact Hh1]. intros x Hx%elem_of_seqZ Hx2.
        apply (Hd1 x); [lia|]. apply elem_of_buf_addrs. eapply subseteq_take. exact Hx2.
      * done.
Qed.

(** Overwriting a part of what is held. *)
Lemma holds_splice m m' as_ bs data (at_ : nat) :
  NoDup as_ → holds m as_ bs → changes_only (fun x => x ∈ take (length data) (drop at_ as_)) m m' →
  holds m' (drop at_ as_) data → (at_ + length data ≤ length bs)%nat →
  holds m' as_ (take at_ bs ++ data ++ drop (at_ + length data) bs).
Proof.
  intros Hnd [Hl Hh] Hc [_ Hh'] Hle.
  split; [rewrite !length_app, length_take, length_drop; lia|]. intros i a b Ha Hb.
  assert (Hkeep : (i < at_ ∨ at_ + length data ≤ i)%nat → byte_at m' a = byte_at m a).
  { intros Hi. eapply changes_only_same; [exact Hc|]. intros Hx. apply list_elem_of_lookup in Hx as [j Hj].
    apply lookup_take_Some in Hj as [Hj Hjl]. rewrite lookup_drop in Hj. pose proof (NoDup_lookup _ _ _ _ Hnd Ha Hj). lia. }
  apply lookup_app_Some in Hb as [Hb|[Hi Hb]].
  { apply lookup_take_Some in Hb as [Hb Hi]. rewrite Hkeep by lia. by apply (Hh i). }
  rewrite length_take, Nat.min_l in Hi, Hb by lia. apply lookup_app_Some in Hb as [Hb|[Hi2 Hb]].
  - apply (Hh' (i - at_)%nat); [|done]. rewrite lookup_drop. by replace (at_ + (i - at_))%nat with i by lia.
  - rewrite lookup_drop in Hb. rewrite Hkeep by lia. apply (Hh i); [done|]. rewrite <- Hb. f_equal. lia.
Qed.

End chains.

(** ** The frame in memory, and its marks *)

(** The first [left] bytes of buffers. *)
Fixpoint clip (left : Z) (bufs : list (Z * Z)) : list (Z * Z) :=
  match bufs with
  | [] => []
  | (a, l) :: bufs' => let n := Z.min left l in (a, n) :: if left - n =? 0 then [] else clip (left - n) bufs'
  end.

Lemma mark_frame_clip bufs : ∀ left dirty, mark_frame left bufs dirty = mark_bufs (clip left bufs) dirty.
Proof.
  induction bufs as [|[a l] bufs IH]; intros left dirty; [done|]. cbn [mark_frame clip]. unfold mark_bufs. cbn [foldl fst snd].
  destruct (_ =? 0); [done|]. apply IH.
Qed.

Section store.
Context {M : Type} `{!GuestMemoryBackend M} `{!GuestMemoryLaws M}.
Implicit Types (m : M) (bufs : list (Z * Z)).

Lemma valid_buf_prefix m a l n : valid_buf m (a, l) → 0 ≤ n ≤ l → valid_buf m (a, n).
Proof.
  intros Hv Hn. pose proof Hv as (Ha & _ & _). cbn [fst] in Ha. split_and!; [done|simpl; lia|]. cbn [fst snd].
  unfold guest_range_is_valid. destruct (n =? 0) eqn:E; [done|]. bool_to_prop.
  apply valid_buf_check in Hv; [|simpl; lia]. cbn [fst snd] in Hv.
  assert (gm_check_range m a n = true) as Hc by (apply (gm_check_range_sub m a l); [lia..|done]).
  pose proof (gm_check_range_u64_bound m a n ltac:(lia) Hc). by rewrite (proj2 (u64_checked_add_Some _ _ _)) by (split; [done|lia]).
Qed.

Lemma clip_ok m bufs : ∀ left,
  Forall (valid_buf m) bufs → 0 ≤ left ≤ sum_lens bufs →
  Forall (valid_buf m) (clip left bufs) ∧ buf_addrs (clip left bufs) = take (Z.to_nat left) (buf_addrs bufs).
Proof.
  induction bufs as [|[a l] bufs IH]; intros left Hv Hl; cbn [clip].
  { simpl in Hl. split; [constructor|]. by replace left with 0 by lia. }
  apply Forall_cons in Hv as [Hv1 Hv2]. change (sum_lens ((a, l) :: bufs)) with (l + sum_lens bufs) in Hl.
  pose proof Hv1 as (_ & Hl0 & _). cbn [snd] in Hl0. set (n := Z.min left l) in *.
  assert (valid_buf m (a, n)) as Hvn by (apply (valid_buf_prefix m a l); [done|lia]). rewrite !buf_addrs_cons. cbn [fst snd].
  assert (take (Z.to_nat left) (seqZ a l) = seqZ a n) as Htk.
  { replace (seqZ a l) with (seqZ a n ++ seqZ (a + n) (l - n)) by (rewrite <- seqZ_app by lia; f_equal; lia).
    destruct (decide (left ≤ l)); [|rewrite take_ge by (rewrite length_app, !length_seqZ; lia);
      replace (l - n) with 0 by lia; by rewrite app_nil_r].
    apply take_app_length'. rewrite length_seqZ. lia. }
  rewrite take_app, Htk, length_seqZ. destruct (left - n =? 0) eqn:E; bool_to_prop.
  - split; [constructor; [done|constructor]|]. replace (Z.to_nat left - Z.to_nat l)%nat with 0%nat by lia. done.
  - destruct (IH (left - n)) as [IH1 IH2]; [done|lia|]. split; [by constructor|]. rewrite IH2. do 2 f_equal. lia.
Qed.

Lemma store_bytes_clip as_ : ∀ m bs, store_bytes m as_ bs = store_bytes m (take (length bs) as_) bs.
Proof. induction as_ as [|a as_ IH]; intros m [|b bs]; try done. cbn. apply IH. Qed.

(** A frame read into buffers with room for it. *)
Lemma store_frame_ok m bufs bs :
  Forall (valid_buf m) bufs → bufs_disjoint bufs → Forall is_byte bs → Z.of_nat (length bs) ≤ sum_lens bufs →
  let m' := store_bytes m (buf_addrs bufs) bs in
  (∀ x n, gm_check_range m' x n = gm_check_range m x n) ∧ holds m' (buf_addrs bufs) bs ∧
  changes_only (in_bufs (clip (Z.of_nat (length bs)) bufs)) m m'.
Proof.
  intros Hv Hd Hby Hl m'. pose proof (length_buf_addrs _ _ Hv) as Hlen.
  destruct (clip_ok m bufs (Z.of_nat (length bs)) Hv ltac:(lia)) as [_ Hclip]. rewrite Nat2Z.id in Hclip.
  unfold m'. rewrite store_bytes_clip, <- Hclip. set (as_ := buf_addrs (clip _ bufs)) in *.
  split; [intros; apply store_bytes_check|]. split.
  - rewrite <- (take_drop (length bs) (buf_addrs bufs)), <- Hclip. apply holds_longer. apply store_bytes_holds; [| | |done].
    + rewrite Hclip. eapply sublist_NoDup; [by apply NoDup_buf_addrs|]. apply sublist_take.
    + rewrite Hclip, length_take. lia.
    + intros a Ha. eapply valid_byte; [exact Hv|]. apply elem_of_buf_addrs. rewrite Hclip in Ha. by eapply subseteq_take.
  - eapply changes_only_mono; [apply store_bytes_changes|]. intros x Hx. by apply elem_of_buf_addrs.
Qed.

End store.

(** ** Chains for the largest frame *)

Lemma take_room_ok limit chains : ∀ room,
  room < limit → Forall (fun c => 0 ≤ c) (capacity <$> chains) → limit ≤ room + total (capacity <$> chains) →
  ∃ n, take_room limit room chains =
      (chain_bufs (take n chains), capacity <$> take n chains, room + total (capacity <$> take n chains)) ∧
    limit ≤ room + total (capacity <$> take n chains) ∧ (n ≤ length chains)%nat.
Proof.
  induction chains as [|c chains IH]; intros room Hr Hc Hl; cbn [take_room]; [change (total _) with 0 in Hl; lia|].
  cbn [fmap list_fmap] in Hc, Hl. apply Forall_cons in Hc as [Hc0 Hc]. rewrite total_cons in Hl.
  destruct (limit <=? room + capacity c) eqn:E; bool_to_prop.
  - exists 1%nat. cbn. unfold chain_bufs. cbn. rewrite app_nil_r, Z.add_0_r. split_and!; [done|lia|lia].
  - destruct (IH (room + capacity c)) as (n & -> & Hn & Hle); [done|done|unfold fmap in *; lia|].
    exists (S n). cbn [take fmap list_fmap length]. rewrite total_cons. unfold fmap in *. split_and!; [|lia|lia]. f_equal. lia.
Qed.

(** The chains whose buffers the tap is read into. *)
Definition room_chains (limit : Z) (q : VirtQueueProcessor) : list PeekedChain :=
  take (length (take_room limit 0 (peeked q)).1.2) (peeked q).

Lemma take_room_chains limit q :
  0 < limit → Forall (fun c => 0 ≤ c) (capacity <$> peeked q) → limit ≤ peeked_have (peeked q) →
  let chains := room_chains limit q in
  ∃ room, take_room limit 0 (peeked q) = (chain_bufs chains, capacity <$> chains, room) ∧ limit ≤ room ∧
    room = total (capacity <$> chains).
Proof.
  intros H0 Hc Hl chains. rewrite peeked_have_total in Hl.
  destruct (take_room_ok limit (peeked q) 0 H0 Hc Hl) as (n & Hr & Hn & Hle). unfold chains, room_chains. rewrite Hr.
  cbn [fst snd]. rewrite length_fmap, length_take, Nat.min_l by done. eexists. split_and!; [done|lia|lia].
Qed.

Lemma split_lens_prefix caps : ∀ need n,
  0 ≤ need → Forall (fun c => 0 ≤ c) caps → need ≤ total (take n caps) →
  split_lens need (take n caps) = split_lens need caps.
Proof.
  induction caps as [|c caps IH]; intros need n H0 Hc Hl; [by rewrite take_nil|]. apply Forall_cons in Hc as [Hc0 Hc].
  destruct n as [|n]; cbn [take split_lens] in *.
  { change (total []) with 0 in Hl. by rewrite (proj2 (Z.eqb_eq _ _)) by lia. }
  destruct (need =? 0) eqn:E; [done|]. rewrite total_cons in Hl. f_equal. apply IH; [lia|done|].
  pose proof (total_nonneg (take n caps) ltac:(by apply Forall_take)). lia.
Qed.

Lemma bufs_disjoint_prefix l1 l2 : bufs_disjoint (l1 ++ l2) → bufs_disjoint l1.
Proof. by intros (? & _ & _)%bufs_disjoint_app. Qed.

(** The chains a frame takes are the first of them. *)
Lemma frame_chains_prefix limit need q :
  0 < limit → Forall (fun c => 0 ≤ c) (capacity <$> peeked q) → limit ≤ peeked_have (peeked q) →
  0 ≤ need ≤ limit → limit ≤ U32_MAX →
  split_lens need (capacity <$> room_chains limit q) = frame_lens need q ∧
  ∃ rest, chain_bufs (room_chains limit q) = chain_bufs (frame_chains need q) ++ rest.
Proof.
  intros H0 Hc Hl Hn Hu. destruct (take_room_chains limit q H0 Hc Hl) as (room & _ & Hr & ->).
  assert (split_lens need (capacity <$> room_chains limit q) = frame_lens need q) as Hs.
  { unfold room_chains in *. rewrite fmap_take in *. apply split_lens_prefix; [lia|done|lia]. }
  split; [done|]. exists (chain_bufs (drop (length (frame_lens need q)) (room_chains limit q))).
  unfold chain_bufs. rewrite <- concat_app, <- fmap_app. f_equal. f_equal.
  rewrite <- (take_drop (length (frame_lens need q)) (room_chains limit q)) at 1. f_equal.
  unfold frame_chains, room_chains. rewrite take_take. f_equal. rewrite Nat.min_l; [done|].
  destruct (split_lens_ok (capacity <$> room_chains limit q) need) as (Hlen & _); [lia| |lia|].
  { unfold room_chains. rewrite fmap_take. by apply Forall_take. }
  rewrite Hs, length_fmap in Hlen. unfold room_chains in Hlen. rewrite length_take in Hlen. lia.
Qed.

(** ** One turn *)

(** The device sees room for the largest frame: each buffer has one view and
    there are no more of them than one call takes; the tap has a frame. *)
Record readable_tap {M : Type} `{!GuestMemoryBackend M} `{!GuestSlice M} (m : M) (q1 : VirtQueueProcessor)
    (limit avail : Z) (t : Tap) (bs : list Z) (rest : list tap_read) : Prop := {
  rt_limit : 0 < limit ≤ U32_MAX;
  rt_ring : peekable m q1 avail;
  rt_room : limit ≤ peeked_have (peeked q1);
  rt_views : Forall (fun b => gm_slice m b.1 b.2 = true) (chain_bufs (room_chains limit q1));
  rt_count : (length (chain_bufs (room_chains limit q1)) ≤ UIO_MAXIOV)%nat;
  rt_apart : bufs_disjoint (chain_bufs (room_chains limit q1));
  rt_frame : incoming t = Frame bs :: rest;
  rt_length : 0 < Z.of_nat (length bs) ≤ limit;
  rt_bytes : Forall is_byte bs;
}.

Section turn.
Context {M : Type} `{!GuestMemoryBackend M} `{!GuestMemoryLaws M} `{!GuestSlice M}.
Implicit Types (m : M) (w : World M) (v : Receiving (M:=M)).

Lemma room_valid m q1 limit avail t bs rest :
  readable_tap m q1 limit avail t bs rest →
  Forall (valid_buf m) (chain_bufs (room_chains limit q1)) ∧ limit ≤ sum_lens (chain_bufs (room_chains limit q1)) ∧
  Forall (fun c => 0 ≤ c) (capacity <$> peeked q1).
Proof.
  intros []. pose proof (peeked_valid _ _ _ rt_ring0) as Hv. destruct (sum_chain_bufs m _ Hv) as (_ & _ & Hc).
  destruct (take_room_chains limit q1 (proj1 rt_limit0) Hc rt_room0) as (room & _ & Hr & ->).
  destruct (sum_chain_bufs m (room_chains limit q1)) as (Hvb & Hs & _); [by apply Forall_take|].
  split; [done|]. split; [by rewrite Hs|done].
Qed.

(** The kernel writes the frame before the device looks at it. *)
Lemma receive_one_reads limit p q1 w v avail bs rest :
  let bufs := chain_bufs (room_chains limit q1) in
  let m' := store_bytes (w_mem w) (buf_addrs bufs) bs in
  let t' := mkTap rest (sent (tap (v_dev v))) (writes (tap (v_dev v))) in
  readable_tap (w_mem w) q1 limit avail (tap (v_dev v)) bs rest → peek_writable p (w_mem w) limit = Some q1 →
  receive_one limit p w v =
    Some (accept_frame q1 (mkWorld m' (w_dirty w)) (on_tap t' v) bufs (capacity <$> room_chains limit q1)
      (Z.of_nat (length bs))).
Proof.
  intros bufs m' t' Hrt Hpk. destruct (room_valid _ _ _ _ _ _ _ Hrt) as (Hv & Hs & Hc). fold bufs in Hv, Hs.
  pose proof (length_buf_addrs _ _ Hv) as Hlen. destruct Hrt. unfold receive_one. rewrite Hpk.
  destruct (take_room_chains limit q1 (proj1 rt_limit0) Hc rt_room0) as (room & Hr & Hle & _). rewrite Hr. fold bufs.
  rewrite (proj2 (Z.ltb_ge _ _)) by lia. unfold views.
  assert (forallb (fun b => gm_slice (w_mem w) b.1 b.2) bufs = true) as ->.
  { apply forallb_forall. intros b Hb. rewrite Forall_forall in rt_views0. apply rt_views0. by apply list_elem_of_In. }
  assert (addrs ((fun b => mkIov b.1 (Z.to_nat b.2)) <$> bufs) = buf_addrs bufs) as Ha.
  { clear -Hv. induction Hv as [|[a l] bufs (_ & Hl & _) _ IH]; [done|]. rewrite buf_addrs_cons. cbn [fmap list_fmap].
    unfold addrs in *. cbn [mbind list_bind]. rewrite <- IH. cbn [iov_base iov_len fst snd] in *. by rewrite Z2Nat.id. }
  unfold tap_readv. rewrite Ha, length_fmap. fold bufs in rt_count0. rewrite (proj2 (Nat.ltb_ge _ _)) by done.
  rewrite (proj2 (Nat.eqb_neq _ _)) by lia. rewrite rt_frame0, Nat.min_r by lia. done.
Qed.

(** The header it finds is the frame's. *)
Lemma frame_header_read m m' q1 limit avail t bs rest :
  let bufs := chain_bufs (room_chains limit q1) in
  readable_tap m q1 limit avail t bs rest → VIRTIO_NET_HDR_LEN < Z.of_nat (length bs) →
  (∀ x n, gm_check_range m' x n = gm_check_range m x n) → holds m' (buf_addrs bufs) bs →
  read_chain m' bufs 0 VIRTIO_NET_HDR_LEN [] = Some (take 12 bs).
Proof.
  intros bufs Hrt Hl Hck [Hlh Hh]. destruct (room_valid _ _ _ _ _ _ _ Hrt) as (Hv & Hs & _). fold bufs in Hv, Hs.
  unfold VIRTIO_NET_HDR_LEN in *. destruct Hrt.
  assert (Forall (valid_buf m') bufs) as Hv'.
  { eapply Forall_impl; [exact Hv|]. intros b. unfold valid_buf, guest_range_is_valid. by rewrite Hck. }
  rewrite read_chain_front by (done || simpl; lia). cbn [app]. change (Z.to_nat 12) with 12%nat. f_equal.
  apply list_eq_same_length with (n := 12%nat); [rewrite length_take; lia| |].
  { pose proof (length_bytes_at m' bufs Hv'). rewrite length_take. lia. }
  intros i x y Hi Hx Hy. apply lookup_take_Some in Hx as [Hx _]. apply lookup_take_Some in Hy as [Hy _].
  assert (i < length (buf_addrs bufs))%nat as Hia by lia. apply lookup_lt_is_Some in Hia as [a Ha].
  specialize (Hh i a y Ha Hy). clear -Hh Ha Hx Hv' GuestMemoryLaws0. revert i Ha Hx.
  assert (Hin : ∀ a, a ∈ buf_addrs bufs → ∃ b, byte_at m' a = Some [b]).
  { intros a' Ha'. apply elem_of_buf_addrs in Ha'. destruct (gm_read_byte m' a') as (b & Hb & _); [by eapply valid_byte|]. by exists b. }
  induction (buf_addrs bufs) as [|a0 as_ IH]; intros i Ha Hx; [done|]. unfold bytes_at in Hx. cbn [mbind list_bind] in Hx.
  destruct (Hin a0) as (b0 & Hb0); [by left|]. rewrite Hb0 in Hx. cbn in Hx. destruct i as [|i].
  - injection Ha as ->. rewrite Hb0 in Hh. cbn in Hx. congruence.
  - apply (IH ltac:(intros; apply Hin; by right) i); [done|exact Hx].
Qed.

(** A frame the guest accepts: in its buffers, with its count, and used. *)
Lemma accept_frame_ok w q1 limit avail v t bs rest sz :
  let need := Z.of_nat (length bs) in
  let bufs := chain_bufs (room_chains limit q1) in
  let m1 := store_bytes (w_mem w) (buf_addrs bufs) bs in
  let lens := frame_lens need q1 in
  readable_tap (w_mem w) q1 limit avail t bs rest → laid_out (w_mem w) sz →
  VIRTIO_NET_HDR_LEN < need → rx_header_allowed (guest_features (v_dev v)) (take 12 bs) = true →
  ∃ w1, accept_frame q1 (mkWorld m1 (w_dirty w)) v bufs (capacity <$> room_chains limit q1) need =
      (let out := use_peeked q1 w1 lens in Onward out.1 out.2 (delivered_one (need - VIRTIO_NET_HDR_LEN) v)) ∧
    tracked w w1 ∧ changes_only (in_bufs (chain_bufs (frame_chains need q1))) (w_mem w) (w_mem w1) ∧
    holds (w_mem w1) (buf_addrs (chain_bufs (frame_chains need q1)))
      (set_num_buffers (take 12 bs) (Z.of_nat (length lens)) ++ drop 12 bs).
Proof.
  intros need bufs m1 lens Hrt Hlay Hn Hal. destruct (room_valid _ _ _ _ _ _ _ Hrt) as (Hv & Hs & Hc). fold bufs in Hv, Hs.
  pose proof (length_buf_addrs _ _ Hv) as Hlen. pose proof Hrt as [[Hl1 Hl2] Hring Hroom _ _ Hdj _ Hln Hby]. fold bufs in Hdj.
  fold need in Hln. destruct (store_frame_ok (w_mem w) bufs bs) as (Hck1 & Hh1 & Hc1); [done..|fold need; lia|].
  fold m1 in Hck1, Hh1, Hc1. fold need in Hc1. unfold accept_frame. rewrite (proj2 (Z.leb_gt _ _)) by done. cbn [w_mem].
  pose proof (frame_header_read (w_mem w) m1 q1 limit avail t bs rest Hrt Hn Hck1 Hh1) as Hhd. fold bufs in Hhd. rewrite Hhd, Hal. cbn [negb].
  destruct (frame_chains_prefix limit need q1) as [-> [more Hmore]]; [done..|lia|done|]. fold lens. fold bufs in Hmore.
  destruct (length_frame_lens (w_mem w) q1 avail need Hring) as (_ & Hk & _ & Hsum & Hvk); [lia|lia|]. fold lens in Hk.
  rewrite (Z.mod_small (Z.of_nat (length lens))) by lia.
  destruct (write_chain_ok bufs m1 10 (le_encode 2 (Z.of_nat (length lens)))) as (m2 & Hw & Hck2 & Hc2 & Hh2).
  { eapply Forall_impl; [exact Hv|]. intros b. unfold valid_buf, guest_range_is_valid. by rewrite Hck1. }
  { done. }
  { intros Hx. apply (f_equal length) in Hx. by rewrite length_le_encode in Hx. }
  { auto with tarit. }
  { rewrite length_le_encode. unfold VIRTIO_NET_HDR_LEN in Hn. lia. }
  rewrite length_le_encode in Hc2. change VIRTIO_NET_HDR_NUM_BUFFERS_OFF with (Z.of_nat 10). rewrite Hw.
  destruct (clip_ok (w_mem w) bufs need Hv ltac:(lia)) as [Hvc Hclip].
  assert (changes_only (in_bufs (clip need bufs)) (w_mem w) m2) as Hc12.
  { eapply changes_only_trans; [exact Hc1|]. eapply changes_only_mono; [exact Hc2|]. intros x Hx. apply elem_of_buf_addrs.
    rewrite Hclip. apply list_elem_of_lookup in Hx as [i Hi]. apply lookup_take_Some in Hi as [Hi Hi2]. rewrite lookup_drop in Hi.
    apply list_elem_of_lookup. exists (10 + i)%nat. apply lookup_take_Some. split; [done|]. unfold VIRTIO_NET_HDR_LEN in Hn. lia. }
  exists (mkWorld m2 (mark_frame need bufs <$> w_dirty w)). split; [by destruct (use_peeked _ _ _)|]. split_and!.
  - destruct w as [mw dw]. cbn [w_mem w_dirty] in *. assert (mark_frame need bufs <$> dw = mark_bufs (clip need bufs) <$> dw) as ->.
    { destruct dw; [|done]. cbn. by rewrite mark_frame_clip. }
    apply (mark_bufs_tracked _ _ _ _ sz); [done|done| |done]. intros. by rewrite Hck2, Hck1.
  - eapply changes_only_mono; [exact Hc12|]. intros x Hx. apply elem_of_buf_addrs. apply elem_of_buf_addrs in Hx. rewrite Hclip in Hx.
    rewrite Hmore in Hx. unfold buf_addrs in Hx at 1. rewrite bind_app in Hx. fold (buf_addrs (chain_bufs (frame_chains need q1))) in Hx.
    pose proof (length_buf_addrs _ _ Hvk). rewrite take_app_le in Hx by lia. by eapply subseteq_take.
  - assert (holds m2 (buf_addrs bufs) (set_num_buffers (take 12 bs) (Z.of_nat (length lens)) ++ drop 12 bs)) as Hh.
    { pose proof (holds_splice m1 m2 (buf_addrs bufs) bs (le_encode 2 (Z.of_nat (length lens))) 10) as Hsp.
      rewrite length_le_encode in Hsp. unfold set_num_buffers. rewrite take_take, <- app_assoc. apply Hsp; try done; [by apply NoDup_buf_addrs|].
      unfold VIRTIO_NET_HDR_LEN in Hn. lia. }
    rewrite Hmore in Hh. unfold buf_addrs in Hh at 1. rewrite bind_app in Hh. eapply holds_shorter; [exact Hh|].
    fold (buf_addrs (chain_bufs (frame_chains need q1))). pose proof (length_buf_addrs _ _ Hvk).
    unfold set_num_buffers. rewrite !length_app, !length_take, length_le_encode, length_drop. unfold VIRTIO_NET_HDR_LEN in Hn. lia.
Qed.

End turn.

(** ** The device *)

Section tap.
Context {M : Type} `{!GuestMemoryBackend M} `{!GuestMemoryLaws M} `{!GuestSlice M}.
Implicit Types (d : VirtioNetMmio M) (m : M).

(** From the call to the loop. *)
Lemma rx_tap_runs rounds n d m q q1 need avail sz out d' :
  listening d m q q1 need avail sz → vnet_hdr d = true →
  run_rx rounds n m (rx_walker d q) d = Some (Ok out, d') → is_failed d' = false →
  rx_from_vnet_tap rounds n d = Some (Ok (Some out), d').
Proof.
  intros [] Hv Hrun Hf. assert (Hl : ∀ l, try_lock_state l d = Some (Ok tt, d)) by (intros; by apply net_try_lock_free).
  unfold rx_from_vnet_tap. rewrite (dev_bind_ok _ _ _ tt d) by (unfold ensure_operational, dev_bind, get; by rewrite l_live).
  rewrite (dev_bind_ok _ _ _ d d) by done. rewrite Hv. cbn [negb]. rewrite (dev_bind_ok _ _ _ tt d) by done.
  rewrite bool_decide_eq_false_2 by (rewrite l_free; naive_solver).
  rewrite (dev_bind_ok _ _ _ tt d) by done. rewrite l_mem. rewrite (dev_bind_ok _ _ _ tt d) by done.
  erewrite dev_bind_ok by (by apply (net_queue_config_ok d _ q)). lazy beta iota. rewrite (dev_bind_ok _ _ _ tt d) by done.
  fold (rx_walker d q). rewrite (dev_bind_ok _ _ _ _ _ Hrun). unfold dev_bind, get. by rewrite Hf.
Qed.

(** C4: A frame from the tap arrives whole, without a copy. On a device whose
    tap carries headers, whose guest accepts mergeable buffers, has posted
    room for the largest frame in buffers that map and do not overlap each
    other, and keeps them apart from its rings, reading one frame that is
    longer than its header and uses only accepted offloads reports one frame delivered: the frame is taken from the tap; its
    bytes, with the number of chains it took as the header's count of buffers,
    stand in the buffers of the first posted chains; each has its entry in the
    used ring, the lengths add up to the frame, and the used index counts them;
    nothing but these buffers and the used ring changes in guest memory, every
    change is tracked, and the interrupt is left to the next [signal_rx] when
    the driver wants to know. *)
Theorem net_tap_delivers rounds d m q q1 avail sz bs rest :
  let limit := rx_frame_limit (guest_features d) in
  listening d m q q1 limit avail sz → vnet_hdr d = true →
  readable_tap m q1 limit avail (tap d) bs rest → frame_apart (Z.of_nat (length bs)) q1 →
  VIRTIO_NET_HDR_LEN < Z.of_nat (length bs) → rx_header_allowed (guest_features d) (take 12 bs) = true →
  ∃ d' m', rx_from_vnet_tap (S rounds) 1 d = Some (Ok (Some (1, false)), d') ∧ incoming (tap d') = rest ∧
    delivered d m q1 (take 12 bs) (drop 12 bs) false (Z.of_nat (length bs)) d' m'.
Proof.
  intros limit Hl Hvn Hrt Hap Hn Hal. destruct (listening_sees _ _ _ _ _ _ _ Hl) as (Hp & _ & Hlu & _). pose proof Hl as [].
  set (need := Z.of_nat (length bs)) in *. set (w := mkWorld m (host_dirty d)). set (v := mkReceiving d 0 false).
  pose proof (receive_one_reads limit (rx_walker d q) q1 w v avail bs rest Hrt l_sees) as Hone. cbv zeta in Hone.
  set (v1 := on_tap _ v) in Hone.
  destruct (accept_frame_ok w q1 limit avail v1 (tap d) bs rest sz) as (w1 & Hacc & Ht1 & Hc1 & Hh1); [done..|].
  rewrite Hacc in Hone. clear Hacc. fold need in Hone, Hc1, Hh1. pose proof Hrt as [? _ Hroom _ _ _ _ Hlen _]. fold need in Hlen.
  edestruct (use_publish_ok w w1 q1 avail sz need) as (w2 & w' & again & Hu & Hpub & Ht & Hc & Hh & Hent & Hus);
    [done|done|lia|lia|done|done|done|exact Hh1|].
  rewrite Hu in Hone. cbn [fst snd] in Hone. set (q' := mkProc _ _ _ _ _) in *.
  set (v' := delivered_one (need - VIRTIO_NET_HDR_LEN) v1) in *.
  assert (rx_mergeable_from_tap (S rounds) limit 1 (rx_walker d q) w v = Some (q', w', v')) as Hloop.
  { cbn [rx_mergeable_from_tap receive_loop]. change (negb (v_delivered v <? 1)) with false. cbv iota. rewrite Hone.
    destruct (length (incoming (tap (v_dev v)))) as [|n]; cbn [receive_loop]; change (negb (v_delivered v' <? 1)) with true;
      cbv iota; rewrite Hpub; by rewrite orb_true_r. }
  set (wanted := needs_notification q' (w_mem w') (last_used_idx q1)).
  eexists (if wanted then with_rx_irq_pending (put_rx q' w' (v_dev v')) true else put_rx q' w' (v_dev v')), (w_mem w').
  split; [eapply rx_tap_runs; [exact Hl|done| |]|split; [by destruct wanted|]].
  - unfold run_rx. fold w v. rewrite l_merge. fold limit. rewrite Hloop. change (v_delivered v') with 1. change (v_tap_empty v') with false.
    unfold note_rx. rewrite <- Hlu. reflexivity.
  - by destruct wanted.
  - assert (Z.of_nat (length (drop 12 bs)) = need - VIRTIO_NET_HDR_LEN) as Hld
      by (rewrite length_drop; unfold need, VIRTIO_NET_HDR_LEN in *; lia).
    destruct (length_frame_lens m q1 avail need Hp ltac:(lia) ltac:(lia)) as (_ & _ & Htot & _).
    split; try done; try (by destruct wanted).
    + rewrite Hld. by destruct wanted.
    + exists q'. fold wanted. by destruct wanted.
Qed.

(** C32: A frame the guest does not accept has been written to its buffers, and
    the tracker does not know. When the device sees room for the largest frame
    and the tap's next frame is no longer than its header or uses offloads the
    guest did not accept, one turn of the loop takes the frame from the tap and delivers
    nothing, but its bytes stand in the posted buffers while the record of
    dirty pages is the one from before: if a byte changed on a page that was
    clean, the turn is not tracked. *)
Theorem net_drop_untracked limit p q1 (w : World M) (v : Receiving) avail bs rest :
  let bufs := chain_bufs (room_chains limit q1) in
  readable_tap (w_mem w) q1 limit avail (tap (v_dev v)) bs rest → peek_writable p (w_mem w) limit = Some q1 →
  Z.of_nat (length bs) ≤ VIRTIO_NET_HDR_LEN ∨ rx_header_allowed (guest_features (v_dev v)) (take 12 bs) = false →
  ∃ w' v', receive_one limit p w v = Some (Onward q1 w' v') ∧ v_delivered v' = v_delivered v ∧
    incoming (tap (v_dev v')) = rest ∧ holds (w_mem w') (buf_addrs bufs) bs ∧ w_dirty w' = w_dirty w ∧
    ∀ dirty a, w_dirty w = Some dirty → ¬ (MMIO_GAP_START ≤ a < MMIO_GAP_END) →
      byte_at (w_mem w') a ≠ byte_at (w_mem w) a → ¬ page_dirty dirty (packed_offset a) → ¬ tracked w w'.
Proof.
  intros bufs Hrt Hpk Hal. destruct (room_valid _ _ _ _ _ _ _ Hrt) as (Hv & Hs & _). fold bufs in Hv, Hs.
  rewrite (receive_one_reads limit p q1 w v avail bs rest Hrt Hpk). fold bufs. set (m1 := store_bytes _ _ _). set (v1 := on_tap _ v).
  pose proof Hrt as [_ _ _ _ _ Hdj _ Hln Hby]. fold bufs in Hdj.
  destruct (store_frame_ok (w_mem w) bufs bs) as (Hck & Hh & _); [done..|lia|]. fold m1 in Hck, Hh.
  exists (mkWorld m1 (w_dirty w)), v1. split.
  { unfold accept_frame. destruct (Z.leb_spec (Z.of_nat (length bs)) VIRTIO_NET_HDR_LEN) as [|Hn]; [done|].
    destruct Hal as [?|Hal]; [lia|].
    pose proof (frame_header_read (w_mem w) m1 q1 limit avail _ bs rest Hrt Hn Hck Hh) as Hhd. fold bufs in Hhd. cbn [w_mem].
    rewrite Hhd. change (guest_features (v_dev v1)) with (guest_features (v_dev v)). by rewrite Hal. }
  split_and!; try done.
  intros dirty a Hd Hg Hne Hcl [_ Ht]. cbn [w_dirty w_mem] in *. rewrite Hd in Ht. apply Hcl. by apply (proj2 Ht).
Qed.

End tap.

#[export] Instance byte_map_slice : GuestSlice (gmap Z Z) := fun m a n => (n =? 0) || gm_check_range m a n.

(** A driver that has posted one buffer for a frame of the usual size. *)
Module ExampleTap.

Definition queue : QueueState := mkQueue 2 0 64 96 true.
Definition mem : gmap Z Z :=
  ByteMap.store (ByteMap.store (ByteMap.zeros 0 1792) 0 (ExampleQueue.encode_desc (mkDesc 192 1600 WRITE 0)))
    64 [0; 0; 1; 0; 0; 0].
Definition frame (flags : Z) : list Z := [flags; 0; 0; 0; 0; 0; 0; 0; 0; 0; 0; 0; 7; 8; 9; 10].
Definition device (flags : Z) : VirtioNetMmio (gmap Z Z) :=
  with_vnet_hdr (with_guest_mem
    (on_regs (fun t => with_guest_features_low (with_queues t [queue; queue_default]) net_features.MRG_RXBUF)
      (net_new 5 [2; 0; 0; 0; 0; 1] (mkTap [Frame (frame flags)] [] []) (fun _ => 0))) (Some mem)) true.
Definition fresh : VirtQueueProcessor := mkProc (queue_config_from_state queue) 0 0 false [].
Definition walker : VirtQueueProcessor :=
  mkProc (queue_config_from_state queue) 0 0 false [mkPeeked 0 [(192, 1600)] 1600].

Lemma tap_mem_laid_out : laid_out mem 1792.
Proof.
  split; [lia|]. intros a Ha. unfold mem.
  rewrite !store_check by (vm_compute; reflexivity). rewrite bm_zeros_check by (unfold U64_MAX; lia).
  split; [intros ?; exists a|intros [o Ho]; revert Ho]; rewrite gpa_to_offset_Some by lia;
    unfold MMIO_GAP_START, MMIO_GAP_END; lia.
Qed.

Lemma tap_apart x : used_zone (queue_config_from_state queue) x → ¬ table_or_avail (queue_config_from_state queue) x.
Proof. unfold used_zone, table_or_avail. cbn. lia. Qed.

Lemma tap_sees : peek_writable fresh mem 1600 = Some walker.
Proof. vm_compute. reflexivity. Qed.

Lemma tap_fresh : peekable mem fresh 1.
Proof.
  split; [by vm_compute|vm_compute; split; discriminate|vm_compute; split; discriminate|by vm_compute|vm_compute; discriminate
    | |exact tap_apart|discriminate].
  intros i pc Hi. destruct i; discriminate.
Qed.

Lemma tap_ring : peekable mem walker 1.
Proof.
  destruct (peek_once _ _ _ 1600 tap_fresh) as (q' & Hq & Hr). rewrite tap_sees in Hq. injection Hq as <-.
  by apply (peek_result_peekable _ _ _ _ _ tap_fresh Hr).
Qed.

Lemma tap_listening flags : listening (device flags) mem queue walker 1600 1 1792.
Proof.
  split; [reflexivity|reflexivity|reflexivity|reflexivity|reflexivity|reflexivity|reflexivity
    |exact tap_mem_laid_out|exact tap_fresh|exact tap_sees].
Qed.

Lemma tap_readable flags : is_byte flags → readable_tap mem walker 1600 1 (tap (device flags)) (frame flags) [].
Proof.
  intros Hf. split; [unfold U32_MAX; lia|exact tap_ring|vm_compute; discriminate| | | |done|vm_compute; split; done || discriminate|].
  - constructor; [by vm_compute|constructor].
  - vm_compute. lia.
  - split; [intros x _ (b & Hb & _); by apply not_elem_of_nil in Hb|done].
  - repeat (constructor; [done || (unfold is_byte; lia)|]). constructor.
Qed.

Lemma tap_first_byte : byte_at mem 192 = Some [0].
Proof. vm_compute. reflexivity. Qed.

Lemma tap_frame_apart : frame_apart 16 walker.
Proof.
  split; [split; [intros x _ (b & Hb & _); by apply not_elem_of_nil in Hb|done]|].
  intros x (b & Hb & Hx). unfold table_or_avail, used_zone. cbn. cbn in Hb. apply list_elem_of_singleton in Hb as ->. cbn in Hx. lia.
Qed.

End ExampleTap.

Lemma net_tap_delivers_witness :
  ∃ d' m', rx_from_vnet_tap 1 1 (ExampleTap.device 0) = Some (Ok (Some (1, false)), d') ∧ guest_mem d' = Some m' ∧
    holds m' (seqZ 192 1600) [0; 0; 0; 0; 0; 0; 0; 0; 0; 0; 1; 0; 7; 8; 9; 10] ∧ read_u16 m' 98 = Some 1.
Proof.
  destruct (net_tap_delivers 0 (ExampleTap.device 0) ExampleTap.mem ExampleTap.queue ExampleTap.walker 1 1792
    (ExampleTap.frame 0) [] (ExampleTap.tap_listening 0) eq_refl) as (d' & m' & Hrun & _ & Hd);
    [apply ExampleTap.tap_readable; unfold is_byte; lia|exact ExampleTap.tap_frame_apart|done|done|].
  exists d', m'. destruct Hd as [Hm Hf _ _ Hu _ _ _ _]. split; [exact Hrun|]. split; [exact Hm|]. split; [exact Hf|exact Hu].
Defined.

(** A frame with a checksum offload the guest did not accept arrives with no
    page dirty: it stands at 192 and the tracker still has no page. *)
Lemma net_drop_untracked_witness :
  let w := mkWorld ExampleTap.mem (Some DirtyBitmap.new) in
  ∃ w' v', receive_one 1600 ExampleTap.fresh w (mkReceiving (ExampleTap.device 1) 0 false) =
      Some (Onward ExampleTap.walker w' v') ∧ v_delivered v' = 0 ∧
    holds (w_mem w') (buf_addrs [(192, 1600)]) (ExampleTap.frame 1) ∧
    w_dirty w' = Some DirtyBitmap.new ∧ ¬ tracked w w'.
Proof.
  intros w. destruct (net_drop_untracked 1600 ExampleTap.fresh ExampleTap.walker w
    (mkReceiving (ExampleTap.device 1) 0 false) 1 (ExampleTap.frame 1) [])
    as (w' & v' & Hrun & Hdel & _ & Hh & Hd & Hnt);
    [apply ExampleTap.tap_readable; unfold is_byte; lia|exact ExampleTap.tap_sees|right; reflexivity|].
  exists w', v'. split_and!; [exact Hrun|exact Hdel|exact Hh|exact Hd|].
  apply (Hnt DirtyBitmap.new 192).
  - reflexivity.
  - unfold MMIO_GAP_START, MMIO_GAP_END. lia.
  - assert (byte_at (w_mem w') 192 = Some [1]) as -> by (apply (proj2 Hh 0%nat); [exact eq_refl|exact eq_refl]).
    change (w_mem w) with ExampleTap.mem. rewrite ExampleTap.tap_first_byte. discriminate.
  - unfold page_dirty, DirtyBitmap.new. cbn [DirtyBitmap.dirty]. apply not_elem_of_empty.
Defined.
