(* ===== verification/Balloon.v ===== *)
(** * The memory balloon ([virtio/balloon.rs])

    The register interface, the two queues of page numbers, and inflation:
    checking a request, sorting and coalescing its pages, and releasing them
    through [GuestMemory::discard_range]. Atomics and mutexes are the fields of
    one record; the interrupt event is the count of its writes. *)

From S2P Require Import Prelude Dirty GuestMem FileRanges GuestRam VQueue VQueueWalk VQueueRun VQueuePeek VQueuePass Regs.

Definition DEVICE_ID_BALLOON : Z := 5.
Definition MAX_PFNS_PER_REQUEST : Z := 256.
Definition QUEUE_INFLATE : Z := 0.
Definition QUEUE_DEFLATE : Z := 1.
Definition QUEUE_COUNT : nat := 2.
Definition FEATURES_LOW : Z := 0.
Definition FEATURES_HIGH : Z := 1.
Definition INT_VRING : Z := 1.
Definition INT_CONFIG : Z := 2.

(** ** Queues as the driver sets them up *)
Record QueueState := mkQueue {
  q_size : Z;
  q_desc_table_addr : Z;
  q_avail_ring_addr : Z;
  q_used_ring_addr : Z;
  q_ready : bool;
}.

Definition queue_default : QueueState := mkQueue 0 0 0 0 false.

Definition valid_size (q : QueueState) : bool := is_valid_queue_size (q_size q) MAX_QUEUE_SIZE.

Definition set_size (raw : Z) (q : QueueState) : QueueState :=
  let off := mkQueue 0 (q_desc_table_addr q) (q_avail_ring_addr q) (q_used_ring_addr q) false in
  if U16_MAX <? raw then off
  else if is_valid_queue_size raw MAX_QUEUE_SIZE
  then mkQueue raw (q_desc_table_addr q) (q_avail_ring_addr q) (q_used_ring_addr q) (q_ready q)
  else off.

Definition set_ready (r : bool) (q : QueueState) : QueueState :=
  mkQueue (q_size q) (q_desc_table_addr q) (q_avail_ring_addr q) (q_used_ring_addr q)
    (r && valid_size q).

Definition queue_config (q : QueueState) : option QueueConfig :=
  if q_ready q && valid_size q
  then Some (mkQueueConfig (q_size q) (q_desc_table_addr q) (q_avail_ring_addr q)
               (q_used_ring_addr q) true)
  else None.

Definition set_desc (f : Z → Z) (q : QueueState) : QueueState :=
  mkQueue (q_size q) (f (q_desc_table_addr q)) (q_avail_ring_addr q) (q_used_ring_addr q) (q_ready q).
Definition set_driver (f : Z → Z) (q : QueueState) : QueueState :=
  mkQueue (q_size q) (q_desc_table_addr q) (f (q_avail_ring_addr q)) (q_used_ring_addr q) (q_ready q).
Definition set_device (f : Z → Z) (q : QueueState) : QueueState :=
  mkQueue (q_size q) (q_desc_table_addr q) (q_avail_ring_addr q) (f (q_used_ring_addr q)) (q_ready q).

(** ** Page lists *)

(** [dedup]: of equal neighbours the first stays. *)
Fixpoint dedup (l : list Z) : list Z :=
  match l with
  | a :: rest =>
      match rest with
      | b :: _ => if a =? b then dedup rest else a :: dedup rest
      | [] => [a]
      end
  | [] => []
  end.

(** The inner [while] of [inflate]: the last page of the run and what follows. *)
Fixpoint take_run (end_ : Z) (l : list Z) : Z * list Z :=
  match l with
  | p :: rest => if p =? Z.min (end_ + 1) U32_MAX then take_run p rest else (end_, l)
  | [] => (end_, [])
  end.

Section balloon.
Context {M : Type} `{!GuestMemoryBackend M}.
(** How the host releases pages, and the file handles held elsewhere. *)
Variable os : @GuestMemory.DiscardOps M.
Variable held : gset FileRanges.file.

Record VirtioBalloonMmio := mkBalloon {
  status : Z;
  queue_sel : Z;
  host_features_sel : Z;
  guest_features_sel : Z;
  guest_features_low : Z;
  guest_features_high : Z;
  queues : list QueueState;
  processors : list (option VirtQueueProcessor);
  memory : GuestMemory.t M;
  activated : bool;
  interrupt_status : Z;
  config_generation : Z;
  target_pages : Z;
  actual_pages : Z;
  irq_evt : option Z;
  inflate_pages : Z;
  deflate_pages : Z;
  rejected_pfns : Z;
}.

Definition with_status (d : VirtioBalloonMmio) (v : Z) : VirtioBalloonMmio :=
  mkBalloon v (queue_sel d) (host_features_sel d) (guest_features_sel d) (guest_features_low
    d) (guest_features_high d) (queues d) (processors d) (memory d) (activated d)
    (interrupt_status d) (config_generation d) (target_pages d) (actual_pages d) (irq_evt d)
    (inflate_pages d) (deflate_pages d) (rejected_pfns d).
Definition with_queue_sel (d : VirtioBalloonMmio) (v : Z) : VirtioBalloonMmio :=
  mkBalloon (status d) v (host_features_sel d) (guest_features_sel d) (guest_features_low d)
    (guest_features_high d) (queues d) (processors d) (memory d) (activated d)
    (interrupt_status d) (config_generation d) (target_pages d) (actual_pages d) (irq_evt d)
    (inflate_pages d) (deflate_pages d) (rejected_pfns d).
Definition with_host_features_sel (d : VirtioBalloonMmio) (v : Z) : VirtioBalloonMmio :=
  mkBalloon (status d) (queue_sel d) v (guest_features_sel d) (guest_features_low d)
    (guest_features_high d) (queues d) (processors d) (memory d) (activated d)
    (interrupt_status d) (config_generation d) (target_pages d) (actual_pages d) (irq_evt d)
    (inflate_pages d) (deflate_pages d) (rejected_pfns d).
Definition with_guest_features_sel (d : VirtioBalloonMmio) (v : Z) : VirtioBalloonMmio :=
  mkBalloon (status d) (queue_sel d) (host_features_sel d) v (guest_features_low d)
    (guest_features_high d) (queues d) (processors d) (memory d) (activated d)
    (interrupt_status d) (config_generation d) (target_pages d) (actual_pages d) (irq_evt d)
    (inflate_pages d) (deflate_pages d) (rejected_pfns d).
Definition with_guest_features_low (d : VirtioBalloonMmio) (v : Z) : VirtioBalloonMmio :=
  mkBalloon (status d) (queue_sel d) (host_features_sel d) (guest_features_sel d) v
    (guest_features_high d) (queues d) (processors d) (memory d) (activated d)
    (interrupt_status d) (config_generation d) (target_pages d) (actual_pages d) (irq_evt d)
    (inflate_pages d) (deflate_pages d) (rejected_pfns d).
Definition with_guest_features_high (d : VirtioBalloonMmio) (v : Z) : VirtioBalloonMmio :=
  mkBalloon (status d) (queue_sel d) (host_features_sel d) (guest_features_sel d)
    (guest_features_low d) v (queues d) (processors d) (memory d) (activated d)
    (interrupt_status d) (config_generation d) (target_pages d) (actual_pages d) (irq_evt d)
    (inflate_pages d) (deflate_pages d) (rejected_pfns d).
Definition with_queues (d : VirtioBalloonMmio) (v : list QueueState) : VirtioBalloonMmio :=
  mkBalloon (status d) (queue_sel d) (host_features_sel d) (guest_features_sel d)
    (guest_features_low d) (guest_features_high d) v (processors d) (memory d) (activated d)
    (interrupt_status d) (config_generation d) (target_pages d) (actual_pages d) (irq_evt d)
    (inflate_pages d) (deflate_pages d) (rejected_pfns d).
Definition with_processors (d : VirtioBalloonMmio) (v : list (option VirtQueueProcessor)) : VirtioBalloonMmio :=
  mkBalloon (status d) (queue_sel d) (host_features_sel d) (guest_features_sel d)
    (guest_features_low d) (guest_features_high d) (queues d) v (memory d) (activated d)
    (interrupt_status d) (config_generation d) (target_pages d) (actual_pages d) (irq_evt d)
    (inflate_pages d) (deflate_pages d) (rejected_pfns d).
Definition with_memory (d : VirtioBalloonMmio) (v : GuestMemory.t M) : VirtioBalloonMmio :=
  mkBalloon (status d) (queue_sel d) (host_features_sel d) (guest_features_sel d)
    (guest_features_low d) (guest_features_high d) (queues d) (processors d) v (activated d)
    (interrupt_status d) (config_generation d) (target_pages d) (actual_pages d) (irq_evt d)
    (inflate_pages d) (deflate_pages d) (rejected_pfns d).
Definition with_activated (d : VirtioBalloonMmio) (v : bool) : VirtioBalloonMmio :=
  mkBalloon (status d) (queue_sel d) (host_features_sel d) (guest_features_sel d)
    (guest_features_low d) (guest_features_high d) (queues d) (processors d) (memory d) v
    (interrupt_status d) (config_generation d) (target_pages d) (actual_pages d) (irq_evt d)
    (inflate_pages d) (deflate_pages d) (rejected_pfns d).
Definition with_interrupt_status (d : VirtioBalloonMmio) (v : Z) : VirtioBalloonMmio :=
  mkBalloon (status d) (queue_sel d) (host_features_sel d) (guest_features_sel d)
    (guest_features_low d) (guest_features_high d) (queues d) (processors d) (memory d)
    (activated d) v (config_generation d) (target_pages d) (actual_pages d) (irq_evt d)
    (inflate_pages d) (deflate_pages d) (rejected_pfns d).
Definition with_config_generation (d : VirtioBalloonMmio) (v : Z) : VirtioBalloonMmio :=
  mkBalloon (status d) (queue_sel d) (host_features_sel d) (guest_features_sel d)
    (guest_features_low d) (guest_features_high d) (queues d) (processors d) (memory d)
    (activated d) (interrupt_status d) v (target_pages d) (actual_pages d) (irq_evt d)
    (inflate_pages d) (deflate_pages d) (rejected_pfns d).
Definition with_target_pages (d : VirtioBalloonMmio) (v : Z) : VirtioBalloonMmio :=
  mkBalloon (status d) (queue_sel d) (host_features_sel d) (guest_features_sel d)
    (guest_features_low d) (guest_features_high d) (queues d) (processors d) (memory d)
    (activated d) (interrupt_status d) (config_generation d) v (actual_pages d) (irq_evt d)
    (inflate_pages d) (deflate_pages d) (rejected_pfns d).
Definition with_actual_pages (d : VirtioBalloonMmio) (v : Z) : VirtioBalloonMmio :=
  mkBalloon (status d) (queue_sel d) (host_features_sel d) (guest_features_sel d)
    (guest_features_low d) (guest_features_high d) (queues d) (processors d) (memory d)
    (activated d) (interrupt_status d) (config_generation d) (target_pages d) v (irq_evt d)
    (inflate_pages d) (deflate_pages d) (rejected_pfns d).
Definition with_irq_evt (d : VirtioBalloonMmio) (v : option Z) : VirtioBalloonMmio :=
  mkBalloon (status d) (queue_sel d) (host_features_sel d) (guest_features_sel d)
    (guest_features_low d) (guest_features_high d) (queues d) (processors d) (memory d)
    (activated d) (interrupt_status d) (config_generation d) (target_pages d) (actual_pages d)
    v (inflate_pages d) (deflate_pages d) (rejected_pfns d).
Definition with_inflate_pages (d : VirtioBalloonMmio) (v : Z) : VirtioBalloonMmio :=
  mkBalloon (status d) (queue_sel d) (host_features_sel d) (guest_features_sel d)
    (guest_features_low d) (guest_features_high d) (queues d) (processors d) (memory d)
    (activated d) (interrupt_status d) (config_generation d) (target_pages d) (actual_pages d)
    (irq_evt d) v (deflate_pages d) (rejected_pfns d).
Definition with_deflate_pages (d : VirtioBalloonMmio) (v : Z) : VirtioBalloonMmio :=
  mkBalloon (status d) (queue_sel d) (host_features_sel d) (guest_features_sel d)
    (guest_features_low d) (guest_features_high d) (queues d) (processors d) (memory d)
    (activated d) (interrupt_status d) (config_generation d) (target_pages d) (actual_pages d)
    (irq_evt d) (inflate_pages d) v (rejected_pfns d).
Definition with_rejected_pfns (d : VirtioBalloonMmio) (v : Z) : VirtioBalloonMmio :=
  mkBalloon (status d) (queue_sel d) (host_features_sel d) (guest_features_sel d)
    (guest_features_low d) (guest_features_high d) (queues d) (processors d) (memory d)
    (activated d) (interrupt_status d) (config_generation d) (target_pages d) (actual_pages d)
    (irq_evt d) (inflate_pages d) (deflate_pages d) v.

(** [balloon target exceeds guest memory] *)
Definition TargetTooLarge : unit := tt.

Definition balloon_new (mem : GuestMemory.t M) (target : Z) : result VirtioBalloonMmio unit :=
  if GuestMemory.size_bytes mem / PAGE_SIZE <? target then Err TargetTooLarge
  else Ok (mkBalloon 0 0 0 0 0 0 (replicate QUEUE_COUNT queue_default) (replicate QUEUE_COUNT None)
             mem false 0 0 target 0 None 0 0 0).

(** The event is its counter: a write to it adds one. *)
Definition set_irq_evt (d : VirtioBalloonMmio) (event : Z) : VirtioBalloonMmio :=
  with_irq_evt d (Some event).

Definition trigger_interrupt (d : VirtioBalloonMmio) (kind : Z) : VirtioBalloonMmio :=
  let d1 := with_interrupt_status d (Z.lor (interrupt_status d) kind) in
  with_irq_evt d1 ((fun n => n + 1) <$> irq_evt d).

Definition reassert_pending_interrupt (d : VirtioBalloonMmio) : VirtioBalloonMmio :=
  if interrupt_status d =? 0 then d else with_irq_evt d ((fun n => n + 1) <$> irq_evt d).

Definition set_target_pages (d : VirtioBalloonMmio) (pages : Z) : result unit unit * VirtioBalloonMmio :=
  if GuestMemory.size_bytes (memory d) / PAGE_SIZE <? pages then (Err TargetTooLarge, d)
  else
    let d1 := with_target_pages d pages in
    let d2 := with_config_generation d1 (u32_fetch_add (config_generation d1) 1) in
    (Ok tt, trigger_interrupt d2 INT_CONFIG).

Definition selected_queue (d : VirtioBalloonMmio) : option QueueState :=
  queues d !! Z.to_nat (queue_sel d).

Definition update_selected_queue (d : VirtioBalloonMmio) (update : QueueState → QueueState)
    : VirtioBalloonMmio :=
  with_queues d (alter update (Z.to_nat (queue_sel d)) (queues d)).

(** ** Requests *)

(** [try_fold] over the lengths: the number of page numbers. *)
Fixpoint count_pfns (readable : list (Z * Z)) (total : Z) : option Z :=
  match readable with
  | [] => Some total
  | (_, length) :: rest =>
      if (length =? 0) || negb (length mod 4 =? 0) then None
      else let?o t := u64_checked_add total (length / 4) in count_pfns rest t
  end.

(** One page number: its four bytes are in memory and its page in the device's
    memory size. *)
Definition read_pfn (g : GuestMemory.t M) (address offset : Z) : option Z :=
  let?o a := u64_checked_add address offset in
  let?o raw := gm_read_slice (GuestMemory.inner g) a 4 in
  let pfn := le_decode raw in
  let?o start := u64_checked_mul pfn PAGE_SIZE in
  let?o end_ := u64_checked_add start PAGE_SIZE in
  if GuestMemory.size_bytes g <? end_ then None else Some pfn.

Definition pfn_slots (readable : list (Z * Z)) : list (Z * Z) :=
  readable ≫= fun b => (fun k => (b.1, 4 * k)) <$> seqZ 0 (b.2 / 4).

Definition parse_pfns (g : GuestMemory.t M) (readable writable : list (Z * Z)) : option (list Z) :=
  match writable with
  | _ :: _ => None
  | [] =>
      let?o total := count_pfns readable 0 in
      if (total =? 0) || (MAX_PFNS_PER_REQUEST <? total) then None
      else mapM (fun ao => read_pfn g ao.1 ao.2) (pfn_slots readable)
  end.

(** The outer [while] of [inflate], one run per step. *)
Fixpoint inflate_runs (fuel : nat) (g : GuestMemory.t M) (pfns : list Z) : bool * GuestMemory.t M :=
  match fuel, pfns with
  | _, [] => (true, g)
  | O, _ => (false, g)
  | S fuel', start :: rest =>
      let '(end_, rest') := take_run start rest in
      match GuestMemory.discard_range os held g (start * PAGE_SIZE) ((end_ - start + 1) * PAGE_SIZE) with
      | (Ok _, g') => inflate_runs fuel' g' rest'
      | (Err _, g') => (false, g')
      end
  end.

(** [inflate]: the outcome, the number of pages, the memory. *)
Definition inflate (g : GuestMemory.t M) (pfns : list Z) : bool * Z * GuestMemory.t M :=
  let pfns := dedup (merge_sort Z.le pfns) in
  let '(ok, g') := inflate_runs (length pfns) g pfns in
  (ok, Z.of_nat (length pfns), g').

(** The three counters. *)
Record Counters := mkCounters {
  c_inflate : Z;
  c_deflate : Z;
  c_rejected : Z;
}.

(** The closure of [process_queue], on the memory as the pass has left it. *)
Definition balloon_handler (queue_index : Z) (w : World M) (h : GuestMemory.t M * Counters)
    (readable writable : list (Z * Z)) : World M * (GuestMemory.t M * Counters) * option Z :=
  let '(g0, c) := h in
  let g := GuestMemory.set_host_dirty (GuestMemory.set_inner g0 (w_mem w))
             (default (GuestMemory.host_dirty g0) (w_dirty w)) in
  let back (g' : GuestMemory.t M) := mkWorld (GuestMemory.inner g') (Some (GuestMemory.host_dirty g')) in
  let reject c := mkCounters (c_inflate c) (c_deflate c) (u64_fetch_add (c_rejected c) 1) in
  match parse_pfns g readable writable with
  | None => (w, (g, reject c), Some 0)
  | Some pfns =>
      if queue_index =? QUEUE_INFLATE then
        let '(ok, count, g') := inflate g pfns in
        let c' := if ok then mkCounters (u64_fetch_add (c_inflate c) count) (c_deflate c) (c_rejected c)
                  else reject c in
        (back g', (g', c'), Some 0)
      else if queue_index =? QUEUE_DEFLATE then
        (w, (g, mkCounters (c_inflate c) (u64_fetch_add (c_deflate c) (Z.of_nat (length pfns))) (c_rejected c)),
         Some 0)
      else (w, (g, c), Some 0)
  end.

(** [process_queue]; [None] is an index out of bounds or the descriptor loop
    out of fuel. One pass is enough, since the balloon does not offer event
    indices. *)
Definition process_queue (d : VirtioBalloonMmio) (queue_index : Z) : option (Z * VirtioBalloonMmio) :=
  if Z.of_nat QUEUE_COUNT <=? queue_index then Some (0, d)
  else
    let i := Z.to_nat queue_index in
    match (let?o q := queues d !! i in queue_config q) with
    | None => Some (0, d)
    | Some config =>
        let?o slot := processors d !! i in
        let processor := default (VQueue.new config) slot in
        let processor := update_config processor config in
        let g := memory d in
        let c := mkCounters (inflate_pages d) (deflate_pages d) (rejected_pfns d) in
        let w := mkWorld (GuestMemory.inner g) (Some (GuestMemory.host_dirty g)) in
        let?o out := process_queue_descriptors_dirty (balloon_handler queue_index) 1 processor w (g, c) in
        let '(p', w', (g', c'), processed) := out in
        let g'' := GuestMemory.set_host_dirty (GuestMemory.set_inner g' (w_mem w'))
                     (default (GuestMemory.host_dirty g') (w_dirty w')) in
        let d1 := with_rejected_pfns (with_deflate_pages (with_inflate_pages
                    (with_memory (with_processors d (<[i := Some p']> (processors d))) g'')
                    (c_inflate c')) (c_deflate c')) (c_rejected c') in
        Some (processed, if 0 <? processed then trigger_interrupt d1 INT_VRING else d1)
    end.

(** ** Snapshots *)

Record VirtioBalloonMmioState := mkBalloonState {
  s_status : Z;
  s_queue_sel : Z;
  s_host_features_sel : Z;
  s_guest_features_sel : Z;
  s_guest_features_low : Z;
  s_guest_features_high : Z;
  s_queues : list QueueState;
  s_processors : list (option VirtQueueProcessorState);
  s_activated : bool;
  s_interrupt_status : Z;
  s_config_generation : Z;
  s_target_pages : Z;
  s_actual_pages : Z;
}.

Definition save (d : VirtioBalloonMmio) : VirtioBalloonMmioState :=
  mkBalloonState (status d) (queue_sel d) (host_features_sel d) (guest_features_sel d)
    (guest_features_low d) (guest_features_high d) (queues d)
    ((fun p : option VirtQueueProcessor => save_state <$> p) <$> processors d) (activated d) (interrupt_status d) (config_generation d)
    (target_pages d) (actual_pages d).

Definition restore_processor (qs : list QueueState) (index : nat)
    (saved : option VirtQueueProcessorState) : option VirtQueueProcessor :=
  let?o st := saved in
  let?o q := qs !! index in
  let?o c := queue_config q in
  Some (from_state c st).

Definition apply_state (d : VirtioBalloonMmio) (st : VirtioBalloonMmioState) : VirtioBalloonMmio :=
  mkBalloon (s_status st) (s_queue_sel st) (s_host_features_sel st) (s_guest_features_sel st)
    (s_guest_features_low st) (s_guest_features_high st) (s_queues st)
    (imap (restore_processor (s_queues st)) (s_processors st)) (memory d) (s_activated st)
    (s_interrupt_status st) (s_config_generation st) (s_target_pages st) (s_actual_pages st)
    (irq_evt d) (inflate_pages d) (deflate_pages d) (rejected_pfns d).

(** ** Registers *)

Definition reset (d : VirtioBalloonMmio) : VirtioBalloonMmio :=
  mkBalloon 0 0 0 0 0 0 (replicate (length (queues d)) queue_default) (replicate QUEUE_COUNT None)
    (memory d) false 0 (config_generation d) (target_pages d) (actual_pages d) (irq_evt d)
    (inflate_pages d) (deflate_pages d) (rejected_pfns d).

Definition on_queue (d : VirtioBalloonMmio) (f : QueueState → Z) : Z :=
  match selected_queue d with Some q => f q | None => 0 end.

Definition mmio_read (d : VirtioBalloonMmio) (offset : Z) : Z :=
  if offset =? reg.MAGIC_VALUE then MMIO_MAGIC
  else if offset =? reg.VERSION then 2
  else if offset =? reg.DEVICE_ID then DEVICE_ID_BALLOON
  else if offset =? reg.VENDOR_ID then 0
  else if offset =? reg.HOST_FEATURES then
    if host_features_sel d =? 0 then FEATURES_LOW
    else if host_features_sel d =? 1 then FEATURES_HIGH else 0
  else if (offset =? reg.QUEUE_NUM_MAX) && (queue_sel d <? Z.of_nat QUEUE_COUNT) then MAX_QUEUE_SIZE
  else if offset =? reg.QUEUE_NUM then on_queue d q_size
  else if offset =? reg.QUEUE_READY then on_queue d (fun q => Z.b2z (q_ready q && valid_size q))
  else if offset =? reg.STATUS then status d
  else if offset =? reg.INTERRUPT_STATUS then interrupt_status d
  else if offset =? reg.CONFIG_GENERATION then config_generation d
  else if offset =? reg.QUEUE_DESC_LOW then on_queue d (fun q => as_u32 (q_desc_table_addr q))
  else if offset =? reg.QUEUE_DESC_HIGH then on_queue d (fun q => as_u32 (high_half (q_desc_table_addr q)))
  else if offset =? reg.QUEUE_DRIVER_LOW then on_queue d (fun q => as_u32 (q_avail_ring_addr q))
  else if offset =? reg.QUEUE_DRIVER_HIGH then on_queue d (fun q => as_u32 (high_half (q_avail_ring_addr q)))
  else if offset =? reg.QUEUE_DEVICE_LOW then on_queue d (fun q => as_u32 (q_used_ring_addr q))
  else if offset =? reg.QUEUE_DEVICE_HIGH then on_queue d (fun q => as_u32 (high_half (q_used_ring_addr q)))
  else if offset =? reg.CONFIG then target_pages d
  else if offset =? reg.CONFIG + 4 then actual_pages d
  else 0.

Definition mmio_write (d : VirtioBalloonMmio) (offset raw : Z) : option VirtioBalloonMmio :=
  let value := as_u32 raw in
  if offset =? reg.STATUS then
    if value =? 0 then Some (reset d)
    else Some (with_activated (with_status d value) (has_bits value DRIVER_OK))
  else if offset =? reg.HOST_FEATURES_SEL then Some (with_host_features_sel d value)
  else if offset =? reg.GUEST_FEATURES_SEL then Some (with_guest_features_sel d value)
  else if offset =? reg.GUEST_FEATURES then
    if guest_features_sel d =? 0 then Some (with_guest_features_low d (Z.land value FEATURES_LOW))
    else if guest_features_sel d =? 1 then Some (with_guest_features_high d (Z.land value FEATURES_HIGH))
    else Some d
  else if offset =? reg.QUEUE_SEL then Some (with_queue_sel d value)
  else if offset =? reg.QUEUE_NUM then Some (update_selected_queue d (set_size value))
  else if offset =? reg.QUEUE_READY then Some (update_selected_queue d (set_ready (negb (value =? 0))))
  else if offset =? reg.QUEUE_DESC_LOW then
    Some (update_selected_queue d (set_desc (fun a => set_low a value)))
  else if offset =? reg.QUEUE_DESC_HIGH then
    Some (update_selected_queue d (set_desc (fun a => set_high a value)))
  else if offset =? reg.QUEUE_DRIVER_LOW then
    Some (update_selected_queue d (set_driver (fun a => set_low a value)))
  else if offset =? reg.QUEUE_DRIVER_HIGH then
    Some (update_selected_queue d (set_driver (fun a => set_high a value)))
  else if offset =? reg.QUEUE_DEVICE_LOW then
    Some (update_selected_queue d (set_device (fun a => set_low a value)))
  else if offset =? reg.QUEUE_DEVICE_HIGH then
    Some (update_selected_queue d (set_device (fun a => set_high a value)))
  else if offset =? reg.QUEUE_NOTIFY then snd <$> process_queue d value
  else if offset =? reg.INTERRUPT_ACK then
    Some (with_interrupt_status d (clear_bits (interrupt_status d) value))
  else if offset =? reg.CONFIG + 4 then
    if value <=? GuestMemory.size_bytes (memory d) / PAGE_SIZE then Some (with_actual_pages d value)
    else Some (with_rejected_pfns d (u64_fetch_add (rejected_pfns d) 1))
  else Some d.

End balloon.

Arguments VirtioBalloonMmio : clear implicits.

(** ** What inflation does *)

(** Every byte of the page is RAM. *)
Definition page_backed (size p : Z) : Prop :=
  ∀ a, p * 4096 ≤ a < (p + 1) * 4096 → is_Some (GuestMemory.gpa_to_offset size a).

(** Pages that are released read as zero, and nothing else changes. *)
Definition zeroes {M : Type} `{!GuestMemoryBackend M} (size : Z) (op : M → Z → Z → option M) : Prop :=
  ∀ m off len, ∃ m', op m off len = Some m' ∧
    ∀ a, byte_at m' a =
      match GuestMemory.gpa_to_offset size a with
      | Some o => if decide (off ≤ o < off + len) then (fun _ => [0]) <$> byte_at m a else byte_at m a
      | None => byte_at m a
      end.

Definition discard_zeroes {M : Type} `{!GuestMemoryBackend M} (size : Z)
    (os : @GuestMemory.DiscardOps M) : Prop :=
  zeroes size (GuestMemory.lazy_discard os) ∧ zeroes size (GuestMemory.madvise_dontneed os).

Section pages.

Lemma dedup_sorted l : StronglySorted Z.le l → StronglySorted Z.lt (dedup l) ∧ ∀ x, x ∈ dedup l ↔ x ∈ l.
Proof.
  induction l as [|a l IH]; [split; [constructor|done]|]. intros Hs.
  apply StronglySorted_inv in Hs as [Hs Ha].
  destruct (IH Hs) as [IH1 IH2]. cbn [dedup]. destruct l as [|b l].
  { split; [repeat constructor|done]. }
  destruct (a =? b) eqn:E; bool_to_prop.
  - subst. split; [done|]. intros x. rewrite IH2. set_solver.
  - split; [|intros x; rewrite !elem_of_cons, IH2, elem_of_cons; done].
    constructor; [done|]. apply Forall_forall. intros x Hx. apply IH2 in Hx.
    apply StronglySorted_inv in Hs as [_ Hb]. rewrite Forall_forall in Ha, Hb.
    pose proof (Ha b ltac:(set_solver)). apply elem_of_cons in Hx as [->|Hx]; [lia|].
    specialize (Hb x Hx). lia.
Qed.

Lemma sorted_lt_nodup l : StronglySorted Z.lt l → NoDup l.
Proof.
  induction 1 as [|a l _ IH Ha]; [constructor|]. constructor; [|done]. intros Hin.
  rewrite Forall_forall in Ha. specialize (Ha a Hin). lia.
Qed.

(** Runs of consecutive page numbers. *)
Lemma take_run_spec l : ∀ s e l',
  StronglySorted Z.lt (s :: l) → Forall in_u32 (s :: l) → take_run s l = (e, l') →
  s ≤ e ∧ s :: l = seqZ s (e - s + 1) ++ l'.
Proof.
  induction l as [|p l IH]; intros s e l' Hs Hu Ht; cbn [take_run] in Ht.
  { injection Ht as <- <-. split; [lia|]. replace (s - s + 1) with 1 by lia. by rewrite seqZ_1. }
  apply StronglySorted_inv in Hs as [Hs Hlt]. apply Forall_cons in Hlt as [Hlt _].
  apply Forall_cons in Hu as [Hu0 Hu]. pose proof Hu as [Hu1 _]%Forall_cons.
  destruct (p =? Z.min (s + 1) U32_MAX) eqn:E; bool_to_prop.
  - destruct (IH p e l' Hs Hu Ht) as [Hle Heq]. autounfold with tarit in *. assert (p = s + 1) as -> by lia.
    split; [lia|]. rewrite Heq, (seqZ_cons s) by lia. simpl. do 2 f_equal. f_equal; lia.
  - injection Ht as <- <-. split; [lia|]. replace (s - s + 1) with 1 by lia. by rewrite seqZ_1.
Qed.

(** A range of pages translates when each page does. *)
Lemma range_backed size s e :
  0 ≤ s ≤ e → e ≤ U32_MAX → 0 < size →
  is_Some (GuestMemory.gpa_range_to_offset size (s * 4096) ((e - s + 1) * 4096)) ↔
  ∀ p, s ≤ p ≤ e → page_backed size p.
Proof.
  intros Hse He Hsz. autounfold with tarit in *. split.
  - intros [o Ho] p Hp a Ha. apply gpa_range_to_offset_Some in Ho as [_ Ho]; [|lia..].
    specialize (Ho (a - s * 4096) ltac:(lia)). replace (s * 4096 + (a - s * 4096)) with a in Ho by lia. eauto.
  - intros Hp. unfold GuestMemory.gpa_range_to_offset.
    rewrite (proj2 (u64_checked_add_Some _ _ _)) by (autounfold with tarit; split; [done|lia]).
    destruct (Hp s ltac:(lia) (s * 4096) ltac:(lia)) as [o Ho]. rewrite Ho.
    rewrite (proj2 (Z.eqb_neq _ 0)) by lia.
    rewrite (proj2 (u64_checked_sub_Some _ _ _)) by (split; [done|lia]).
    destruct (Hp e ltac:(lia) (s * 4096 + (e - s + 1) * 4096 - 1) ltac:(lia)) as [o1 Ho1]. rewrite Ho1.
    assert (o1 = o + (e - s + 1) * 4096 - 1) as ->; [|rewrite Z.eqb_refl; eauto].
    apply gpa_to_offset_Some in Ho, Ho1; [|lia..].
    destruct (decide (s * 4096 < MMIO_GAP_START ∧ MMIO_GAP_END ≤ s * 4096 + (e - s + 1) * 4096 - 1)) as [Hgap|];
      [|unfold MMIO_GAP_START, MMIO_GAP_END in *; lia].
    exfalso. destruct (Hp (MMIO_GAP_START / 4096) ltac:(unfold MMIO_GAP_START, MMIO_GAP_END in *; zlia)
      MMIO_GAP_START ltac:(unfold MMIO_GAP_START; zlia)) as [x Hx].
    apply gpa_to_offset_Some in Hx; unfold MMIO_GAP_START, MMIO_GAP_END in *; lia.
Qed.

End pages.

(** The pages [ps] of [g] have been released: they read as zero and are
    recorded as dirty, and everything else is as it was. *)
Record released {M : Type} `{!GuestMemoryBackend M} (g g' : GuestMemory.t M) (ps : list Z) : Prop := {
  rel_size : GuestMemory.size_bytes g' = GuestMemory.size_bytes g;
  rel_lazy : GuestMemory.lazy_page_discard g' = GuestMemory.lazy_page_discard g;
  rel_file : GuestMemory.file_backed g' = GuestMemory.file_backed g;
  rel_bytes : ∀ a, byte_at (GuestMemory.inner g') a =
    if decide (a / 4096 ∈ ps) then (fun _ => [0]) <$> byte_at (GuestMemory.inner g) a
    else byte_at (GuestMemory.inner g) a;
  rel_dirty_le : dirty_le (GuestMemory.host_dirty g) (GuestMemory.host_dirty g');
  rel_dirty : ∀ a, a / 4096 ∈ ps → page_dirty (GuestMemory.host_dirty g') (packed_offset a);
}.

Section inflating.
Context {M : Type} `{!GuestMemoryBackend M}.
Variables (os : @GuestMemory.DiscardOps M) (held : gset FileRanges.file) (size : Z).
Hypothesis Hos : discard_zeroes size os.
Hypothesis Hsize : 0 < size ≤ 4611686018427387904.

(** The guest memory of a balloon: anonymous, or restored lazily. *)
Definition releasable (g : GuestMemory.t M) : Prop :=
  GuestMemory.size_bytes g = size ∧
  (GuestMemory.lazy_page_discard g = true ∨ GuestMemory.file_backed g = false).

Lemma released_refl g : released g g [].
Proof. split; try done. intros a Ha. by apply not_elem_of_nil in Ha. Qed.

Lemma released_trans g1 g2 g3 ps qs : released g1 g2 ps → released g2 g3 qs → released g1 g3 (ps ++ qs).
Proof.
  intros [A1 A2 A3 A4 A5 A6] [B1 B2 B3 B4 B5 B6]. split; try congruence.
  - intros a. rewrite B4, A4. pose proof (elem_of_app ps qs (a / 4096)) as E.
    repeat case_decide; try tauto. by destruct (byte_at _ a).
  - by transitivity (GuestMemory.host_dirty g2).
  - intros a [Ha|Ha]%elem_of_app; [by apply B5, A6|by apply B6].
Qed.

Lemma gpa_to_offset_inj a b o :
  0 ≤ a → 0 ≤ b → GuestMemory.gpa_to_offset size a = Some o → GuestMemory.gpa_to_offset size b = Some o → a = b.
Proof.
  intros Ha Hb H1 H2. apply gpa_to_offset_Some in H1, H2; [|lia..].
  unfold MMIO_GAP_START, MMIO_GAP_END in *. lia.
Qed.

(** Releasing a translated range of pages. *)
Lemma release_range g m s e off op :
  zeroes size op → 0 ≤ s ≤ e → e ≤ U32_MAX → GuestMemory.size_bytes g = size →
  GuestMemory.gpa_range_to_offset size (s * 4096) ((e - s + 1) * 4096) = Some off →
  op (GuestMemory.inner g) off ((e - s + 1) * 4096) = Some m →
  released g (GuestMemory.mark_host_dirty (GuestMemory.set_inner g m) off ((e - s + 1) * 4096))
    (seqZ s (e - s + 1)).
Proof.
  intros Hz Hse He Hsz Hoff Hop.
  destruct (gpa_range_to_offset_Some size (s * 4096) ((e - s + 1) * 4096) off) as [Hmax Hi]; [lia..|done|].
  split; try done.
  - intros a. cbn. destruct (Hz (GuestMemory.inner g) off ((e - s + 1) * 4096)) as (m' & Hm & Hb).
    assert (m' = m) as -> by congruence. rewrite Hb.
    destruct (decide (a / 4096 ∈ seqZ s (e - s + 1))) as [Hin|Hout].
    + apply elem_of_seqZ in Hin. specialize (Hi (a - s * 4096) ltac:(zlia)).
      replace (s * 4096 + (a - s * 4096)) with a in Hi by lia. rewrite Hi. by rewrite decide_True by zlia.
    + destruct (GuestMemory.gpa_to_offset size a) as [o|] eqn:Eo; [|done]. case_decide as Hr; [|done].
      exfalso. apply Hout, elem_of_seqZ.
      pose proof (Hi 0 ltac:(lia)) as H0. rewrite Z.add_0_r in H0. apply gpa_to_offset_bound in H0; [|lia..].
      assert (0 ≤ a) as Ha0 by (unfold GuestMemory.gpa_to_offset in Eo; repeat case_hyp Eo; bool_to_prop;
        unfold MMIO_GAP_START, MMIO_GAP_END in *; congruence || (injection Eo; lia)).
      specialize (Hi (o - off) ltac:(lia)). replace (off + (o - off)) with o in Hi by lia.
      assert (a = s * 4096 + (o - off)) by (apply (gpa_to_offset_inj a _ o); [done|lia|done|done]). zlia.
  - intros o Ho. cbn. unfold SoftwareDirtyBitmap.mark_range. case_goal; auto with tarit.
  - intros a Ha. cbn. apply elem_of_seqZ in Ha.
    apply (mark_packed_covers _ size (s * 4096) ((e - s + 1) * 4096)); [lia|done|done|zlia].
Qed.

Lemma discard_run g s e :
  releasable g → 0 ≤ s ≤ e → e ≤ U32_MAX →
  ∃ r g', GuestMemory.discard_range os held g (s * PAGE_SIZE) ((e - s + 1) * PAGE_SIZE) = (r, g') ∧
    (r = Ok tt ∧ (∀ p, s ≤ p ≤ e → page_backed size p) ∧ released g g' (seqZ s (e - s + 1)) ∨
     (∃ x, r = Err x) ∧ ~ (∀ p, s ≤ p ≤ e → page_backed size p) ∧ g' = g).
Proof.
  intros [Hsz Hk] Hse He. unfold GuestMemory.discard_range, PAGE_SIZE, is_multiple_of.
  rewrite !Z.mod_mul, (proj2 (Z.eqb_neq _ 0)) by lia. cbn [orb negb Z.eqb]. rewrite Hsz.
  destruct (GuestMemory.gpa_range_to_offset size _ _) as [off|] eqn:Eo; cycle 1.
  { eexists _, _. split; [done|]. right. split_and!; [eauto| |done].
    intros Hp. apply (range_backed size s e) in Hp as [x Hx]; [congruence|lia..]. }
  assert (∀ p, s ≤ p ≤ e → page_backed size p) as Hp.
  { apply range_backed; [lia..|]. by rewrite Eo. }
  destruct Hos as [Hz1 Hz2].
  destruct (GuestMemory.lazy_page_discard g) eqn:El; [|destruct Hk as [?|Hk]; [done|rewrite Hk]].
  - destruct (Hz1 (GuestMemory.inner g) off ((e - s + 1) * 4096)) as (m & Hm & _). rewrite Hm.
    eexists _, _. split; [done|]. left. split_and!; [done|done|].
    eapply release_range; [exact Hz1|lia|lia|done|done|done].
  - destruct (Hz2 (GuestMemory.inner g) off ((e - s + 1) * 4096)) as (m & Hm & _). rewrite Hm.
    eexists _, _. split; [done|]. left. split_and!; [done|done|].
    eapply release_range; [exact Hz2|lia|lia|done|done|done].
Qed.

Lemma released_releasable g g' ps : released g g' ps → releasable g → releasable g'.
Proof. intros [A1 A2 A3 _ _ _] [Hs Hk]. split; [congruence|]. by rewrite A2, A3. Qed.

Lemma inflate_runs_ok fuel : ∀ g l,
  StronglySorted Z.lt l → Forall in_u32 l → (length l ≤ fuel)%nat → releasable g →
  ∃ ok g' ps, inflate_runs os held fuel g l = (ok, g') ∧ released g g' ps ∧
    (ok = true ↔ ∀ p, p ∈ l → page_backed size p) ∧ (ok = true → ps = l) ∧ ps `prefix_of` l.
Proof.
  induction fuel as [|fuel IH]; intros g l Hs Hu Hl Hg.
  { destruct l; [|simpl in Hl; lia]. exists true, g, []. split_and!; try done; [apply released_refl|].
    split; [|done]. intros _ p Hp. by apply not_elem_of_nil in Hp. }
  destruct l as [|s l].
  { exists true, g, []. split_and!; try done; [apply released_refl|].
    split; [|done]. intros _ p Hp. by apply not_elem_of_nil in Hp. }
  cbn [inflate_runs]. destruct (take_run s l) as [e l'] eqn:Et.
  destruct (take_run_spec l s e l' Hs Hu Et) as [Hse Heq].
  assert (0 ≤ s ∧ e ≤ U32_MAX) as [Hs0 He].
  { rewrite Forall_forall in Hu. split; [apply (Hu s); set_solver|].
    apply (Hu e). rewrite Heq. apply elem_of_app. left. apply elem_of_seqZ. lia. }
  rewrite Heq in Hs, Hu, Hl. rewrite length_app, length_seqZ in Hl.
  apply Forall_app in Hu as [_ Hu']. apply StronglySorted_app_1_r in Hs.
  destruct (discard_run g s e Hg) as (r & g1 & Hd & Hcase); [lia..|]. rewrite Hd.
  destruct Hcase as [(-> & Hp & Hrel)|((x & ->) & Hp & ->)].
  - destruct (IH g1 l') as (ok & g' & ps & Hi & Hrel' & Hok & Hps & Hpre);
      [done|done|lia|by eapply released_releasable|].
    exists ok, g', (seqZ s (e - s + 1) ++ ps). rewrite Heq. split_and!; [done|by eapply released_trans| | |].
    + rewrite Hok. setoid_rewrite elem_of_app. setoid_rewrite elem_of_seqZ.
      split; [|naive_solver]. intros H p [Hr|Hr]; [apply Hp; lia|by apply H].
    + intros Ht. by rewrite (Hps Ht).
    + by apply prefix_app.
  - exists false, g, []. split_and!; [done|apply released_refl| |done|apply prefix_nil].
    split; [done|]. intros H. exfalso. apply Hp. intros p Hr. apply H. rewrite Heq.
    apply elem_of_app. left. apply elem_of_seqZ. lia.
Qed.

(** With a gap before the first page that is not RAM, the pages before the gap
    are released whatever comes after it. *)
Lemma inflate_runs_before_gap fuel : ∀ g l q r,
  StronglySorted Z.lt l → Forall in_u32 l → (length l ≤ fuel)%nat → releasable g →
  q ∈ l → q < r → r ∉ l → (∀ x, x ∈ l → x < r → page_backed size x) →
  ∃ ok g' ps, inflate_runs os held fuel g l = (ok, g') ∧ released g g' ps ∧ q ∈ ps.
Proof.
  induction fuel as [|fuel IH]; intros g l q r Hs Hu Hl Hg Hq Hqr Hr Hb.
  { destruct l; [by apply elem_of_nil in Hq|simpl in Hl; lia]. }
  destruct l as [|s l]; [by apply elem_of_nil in Hq|]. cbn [inflate_runs]. destruct (take_run s l) as [e l'] eqn:Et.
  destruct (take_run_spec l s e l' Hs Hu Et) as [Hse Heq].
  assert (0 ≤ s ∧ e ≤ U32_MAX) as [Hs0 He].
  { rewrite Forall_forall in Hu. split; [apply (Hu s); set_solver|].
    apply (Hu e). rewrite Heq. apply elem_of_app. left. apply elem_of_seqZ. lia. }
  assert (s ≤ q) as Hsq.
  { apply StronglySorted_inv in Hs as [_ Hlt]. rewrite Forall_forall in Hlt.
    apply elem_of_cons in Hq as [->|Hq]; [lia|]. specialize (Hlt q Hq). lia. }
  rewrite Heq in Hs, Hu, Hl, Hq, Hr, Hb. rewrite length_app, length_seqZ in Hl.
  setoid_rewrite elem_of_app in Hb. setoid_rewrite elem_of_seqZ in Hb.
  rewrite elem_of_app, elem_of_seqZ in Hq, Hr. assert (e < r) as Her by lia.
  apply Forall_app in Hu as [_ Hu']. apply StronglySorted_app_1_r in Hs.
  destruct (discard_run g s e Hg) as (x & g1 & Hd & Hcase); [lia..|]. rewrite Hd.
  destruct Hcase as [(-> & _ & Hrel)|(_ & Hp & _)]; [|exfalso; apply Hp; intros p Hp'; apply Hb; [left; lia|lia]].
  destruct Hq as [Hq|Hq].
  - destruct (inflate_runs_ok fuel g1 l') as (ok & g' & ps & Hi & Hrel' & _); [done|done|lia|by eapply released_releasable|].
    exists ok, g', (seqZ s (e - s + 1) ++ ps). split_and!; [done|by eapply released_trans|].
    apply elem_of_app. left. apply elem_of_seqZ. lia.
  - destruct (IH g1 l' q r) as (ok & g' & ps & Hi & Hrel' & Hqs); [done|done|lia|by eapply released_releasable|done|done|tauto|auto|].
    exists ok, g', (seqZ s (e - s + 1) ++ ps). split_and!; [done|by eapply released_trans|].
    apply elem_of_app. by right.
Qed.

End inflating.

(** C28: Inflating releases exactly the pages it was given. The page numbers may
    come in any order and repeat: [inflate] reports success exactly when every
    one of them is a page of RAM, and then each of these pages reads as zero and
    is recorded as dirty, every other byte of memory is as before, and the count
    is the number of distinct pages. On failure the pages released are an
    initial part of the sorted list. Guest memory is anonymous or restored
    lazily, and the host's release primitives succeed and zero the pages. *)
Theorem inflate_zeroes_exactly {M : Type} `{!GuestMemoryBackend M} (os : @GuestMemory.DiscardOps M)
    held (g : GuestMemory.t M) pfns :
  let size := GuestMemory.size_bytes g in
  discard_zeroes size os → 0 < size ≤ 4611686018427387904 → releasable size g → Forall in_u32 pfns →
  ∃ ok g' ps, inflate os held g pfns = (ok, Z.of_nat (base.size (list_to_set pfns : gset Z)), g') ∧
    released g g' ps ∧ (ok = true ↔ ∀ p, p ∈ pfns → page_backed size p) ∧
    (ok = true → ∀ p, p ∈ ps ↔ p ∈ pfns) ∧ ps `prefix_of` dedup (merge_sort Z.le pfns).
Proof.
  intros size Hos Hsz Hg Hu.
  assert (∀ x, x ∈ merge_sort Z.le pfns ↔ x ∈ pfns) as Hms by (intros; by rewrite merge_sort_Permutation).
  destruct (dedup_sorted (merge_sort Z.le pfns)) as [Hs Hel]; [apply StronglySorted_merge_sort; apply _|].
  unfold inflate. set (l := dedup (merge_sort Z.le pfns)) in *.
  assert (∀ x, x ∈ l ↔ x ∈ pfns) as Hin by (intros; by rewrite Hel, Hms).
  destruct (inflate_runs_ok os held size Hos Hsz (length l) g l) as (ok & g' & ps & Hi & Hrel & Hok & Hps & Hpre);
    [done| |done|done|].
  { apply Forall_forall. intros x Hx. rewrite Forall_forall in Hu. by apply Hu, Hin. }
  exists ok, g', ps. rewrite Hi. split_and!; [|done| | |done].
  - do 2 f_equal. f_equal. rewrite <- (size_list_to_set (C := gset Z) l) by (by apply sorted_lt_nodup).
    f_equal. apply set_eq. intros x. rewrite !elem_of_list_to_set. done.
  - rewrite Hok. by setoid_rewrite Hin.
  - intros Ht p. by rewrite (Hps Ht).
Qed.

(** ** The register interface *)

Definition queue_ok (q : QueueState) : Prop :=
  (q_size q = 0 ∨ valid_size q = true) ∧ (q_ready q = true → valid_size q = true) ∧
  in_u64 (q_desc_table_addr q) ∧ in_u64 (q_avail_ring_addr q) ∧ in_u64 (q_used_ring_addr q).

Record balloon_ok {M : Type} `{!GuestMemoryBackend M} (size : Z) (d : VirtioBalloonMmio M) : Prop := {
  bo_queues : length (queues d) = QUEUE_COUNT;
  bo_processors : length (processors d) = QUEUE_COUNT;
  bo_queue : Forall queue_ok (queues d);
  bo_processor : Forall (fun p => from_option processor_ok True p) (processors d);
  bo_size : GuestMemory.size_bytes (memory d) = size;
  bo_features : guest_features_low d = 0 ∧ 0 ≤ guest_features_high d ≤ 1;
  bo_pages : target_pages d ≤ size / PAGE_SIZE ∧ actual_pages d ≤ size / PAGE_SIZE;
}.

Section registers.
Context {M : Type} `{!GuestMemoryBackend M} `{!GuestMemoryLaws M}.
Variables (os : @GuestMemory.DiscardOps M) (held : gset FileRanges.file) (size : Z).

Lemma discard_range_size g gpa len :
  GuestMemory.size_bytes (GuestMemory.discard_range os held g gpa len).2 = GuestMemory.size_bytes g.
Proof. unfold GuestMemory.discard_range. repeat case_match; done. Qed.

Lemma inflate_runs_size fuel : ∀ g l,
  GuestMemory.size_bytes (inflate_runs os held fuel g l).2 = GuestMemory.size_bytes g.
Proof.
  induction fuel as [|fuel IH]; intros g [|s l]; try done. cbn [inflate_runs].
  destruct (take_run s l) as [e l']. pose proof (discard_range_size g (s * PAGE_SIZE) ((e - s + 1) * PAGE_SIZE)) as Hd.
  destruct (GuestMemory.discard_range _ _ _ _ _) as [[] g'] eqn:E; simpl in Hd; [by rewrite IH|done].
Qed.

Lemma balloon_handler_size i w h r wr :
  GuestMemory.size_bytes (balloon_handler os held i w h r wr).1.2.1 = GuestMemory.size_bytes h.1.
Proof.
  destruct h as [g c]. unfold balloon_handler. destruct (parse_pfns _ _ _) as [pfns|]; [|done].
  destruct (i =? QUEUE_INFLATE); [|by destruct (i =? QUEUE_DEFLATE)]. unfold inflate.
  match goal with |- context [inflate_runs os held ?n ?g ?l] => pose proof (inflate_runs_size n g l) as Hs end.
  destruct (inflate_runs _ _ _ _ _) as [ok g']. done.
Qed.

Lemma queue_config_ok (d : VirtioBalloonMmio M) i p :
  balloon_ok size d → processors d !! i = Some (Some p) → processor_ok p.
Proof. intros Hok Hp. apply (Forall_lookup_1 _ _ _ _ (bo_processor _ _ Hok) Hp). Qed.

Lemma trigger_interrupt_ok (d : VirtioBalloonMmio M) k : balloon_ok size d → balloon_ok size (trigger_interrupt d k).
Proof. intros []. by split. Qed.

Lemma notify_ok d i :
  balloon_ok size d → 0 ≤ i → ∃ k d', process_queue os held d i = Some (k, d') ∧ balloon_ok size d'.
Proof.
  intros Hok Hi. unfold process_queue. destruct (Z.of_nat QUEUE_COUNT <=? i) eqn:Ei; [eauto|]. bool_to_prop.
  destruct (match queues d !! Z.to_nat i with Some q => queue_config q | None => None end) as [c|]; [|eauto].
  assert (Z.to_nat i < length (processors d))%nat as Hlt by (rewrite (bo_processors _ _ Hok); lia).
  destruct (lookup_lt_is_Some_2 _ _ Hlt) as [slot Hslot]. rewrite Hslot.
  set (p0 := update_config _ c).
  assert (processor_ok p0) as Hp0.
  { apply update_config_ok. destruct slot as [p|]; [by eapply queue_config_ok|].
    split_and!; try done; unfold in_u16, U16_MAX; simpl; lia. }
  set (P := fun h : GuestMemory.t M * Counters => GuestMemory.size_bytes h.1 = size).
  assert (∀ w h r wr, P h → P (balloon_handler os held i w h r wr).1.2) as HP.
  { intros w h r wr Hh. unfold P. by rewrite balloon_handler_size. }
  destruct (descriptors_total (balloon_handler os held i) P HP p0
    (mkWorld (GuestMemory.inner (memory d)) (Some (GuestMemory.host_dirty (memory d))))
    (memory d, mkCounters (inflate_pages d) (deflate_pages d) (rejected_pfns d)) Hp0 ltac:(apply Hok))
    as (p' & w' & [g' c'] & k & Hx & Hp' & Hg' & Hk).
  rewrite Hx. eexists _, _. split; [done|].
  match goal with |- balloon_ok _ (if _ then trigger_interrupt ?x _ else _) => assert (balloon_ok size x) as Hd1 end.
  { destruct Hok. split; try done.
    - cbn. by rewrite length_insert.
    - cbn. apply Forall_insert; done. }
  case_match; [by apply trigger_interrupt_ok|done].
Qed.

Lemma update_selected_ok d f :
  balloon_ok size d → (∀ q, queue_ok q → queue_ok (f q)) → balloon_ok size (update_selected_queue d f).
Proof.
  intros [] Hf. split; try done.
  - cbn. by rewrite length_alter.
  - cbn. apply Forall_alter; [done|]. intros x _. apply Hf.
Qed.

Lemma set_size_ok raw q : 0 ≤ raw → queue_ok q → queue_ok (set_size raw q).
Proof.
  intros Hr (H1 & H2 & H3 & H4 & H5). unfold set_size, queue_ok, valid_size.
  destruct (U16_MAX <? raw); [simpl; auto 10|].
  destruct (is_valid_queue_size raw MAX_QUEUE_SIZE) eqn:E; simpl; rewrite ?E; auto 10.
Qed.

Lemma set_ready_ok r q : queue_ok q → queue_ok (set_ready r q).
Proof.
  intros (H1 & H2 & H3 & H4 & H5). split_and!; try done. simpl. intros [_ ?]%andb_true_iff. done.
Qed.

Lemma set_half_ok (f : Z → Z) (set : (Z → Z) → QueueState → QueueState) :
  set = set_desc ∨ set = set_driver ∨ set = set_device → (∀ a, in_u64 a → in_u64 (f a)) →
  ∀ q, queue_ok q → queue_ok (set f q).
Proof. intros Hset Hf q (? & ? & ? & ? & ?). destruct Hset as [->|[->| ->]]; split_and!; simpl; auto. Qed.

End registers.

(** ** A restored device

    [same_device]: equal but for what the processors cache of their queue. *)
Definition same_processor (p p' : option VirtQueueProcessor) : Prop :=
  save_state <$> p = save_state <$> p'.

Definition same_device {M : Type} `{!GuestMemoryBackend M} (d d' : VirtioBalloonMmio M) : Prop :=
  d' = with_processors d (processors d') ∧ Forall2 same_processor (processors d) (processors d').

(** Register accesses and what they return. *)
Inductive access : Type :=
| Read (offset : Z)
| Write (offset value : Z).

Fixpoint run_accesses {M : Type} `{!GuestMemoryBackend M} (os : @GuestMemory.DiscardOps M)
    (held : gset FileRanges.file) (d : VirtioBalloonMmio M) (l : list access)
    : option (list Z * VirtioBalloonMmio M) :=
  match l with
  | [] => Some ([], d)
  | Read o :: l' =>
      let?o r := run_accesses os held d l' in
      Some (mmio_read d o :: r.1, r.2)
  | Write o v :: l' =>
      let?o d1 := mmio_write os held d o v in
      run_accesses os held d1 l'
  end.

Section same.
Context {M : Type} `{!GuestMemoryBackend M} `{!GuestMemoryLaws M}.
Variables (os : @GuestMemory.DiscardOps M) (held : gset FileRanges.file) (size : Z).
Implicit Types d : VirtioBalloonMmio M.

#[export] Instance same_processor_equiv : Equivalence same_processor.
Proof. split; unfold same_processor; [intros ?|intros ???|intros ?????]; congruence. Qed.

Lemma update_config_same p p' c :
  processor_ok p → processor_ok p' → save_state p = save_state p' → update_config p c = update_config p' c.
Proof.
  intros (_ & _ & E1 & P1) (_ & _ & E2 & P2) [= Ha Hu]. unfold update_config.
  rewrite E1, E2, P1, P2, Ha, Hu. by repeat case_match.
Qed.

Lemma process_queue_same d d' i k d1 :
  balloon_ok size d → balloon_ok size d' → same_device d d' → process_queue os held d i = Some (k, d1) →
  ∃ d1', process_queue os held d' i = Some (k, d1') ∧ same_device d1 d1'.
Proof.
  intros Hok Hok' [E HF]. set (ps' := processors d') in *. rewrite E in Hok' |- *.
  unfold process_queue. cbn [queues memory processors with_processors inflate_pages deflate_pages rejected_pfns].
  destruct (_ <=? i); [intros [= <- <-]; eexists; split; [done|]; by split|].
  destruct (match queues d !! Z.to_nat i with Some q => queue_config q | None => None end) as [c|];
    [|intros [= <- <-]; eexists; split; [done|]; by split].
  destruct (processors d !! Z.to_nat i) as [slot|] eqn:Es; [|done].
  destruct (Forall2_lookup_l _ _ _ _ _ HF Es) as (slot' & Es' & Hss). rewrite Es'.
  assert (update_config (default (VQueue.new c) slot) c = update_config (default (VQueue.new c) slot') c) as Eu.
  { unfold same_processor in Hss. destruct slot as [p|], slot' as [p'|]; try done. cbn. apply update_config_same.
    - by eapply (queue_config_ok size d).
    - by eapply (queue_config_ok size (with_processors d ps')).
    - cbn in Hss. congruence. }
  rewrite <- Eu. destruct (process_queue_descriptors_dirty _ _ _ _ _) as [[[[p1 w1] [g1 c1]] k1]|]; [|done].
  intros [= <- <-]. eexists. split; [done|].
  assert (Forall2 same_processor (<[Z.to_nat i := Some p1]> (processors d)) (<[Z.to_nat i := Some p1]> ps')) as HF1
    by (by apply Forall2_insert).
  destruct (0 <? k1); by split.
Qed.

Lemma mmio_write_same d d' o v d1 :
  balloon_ok size d → balloon_ok size d' → same_device d d' → mmio_write os held d o v = Some d1 →
  ∃ d1', mmio_write os held d' o v = Some d1' ∧ same_device d1 d1'.
Proof.
  intros Hok Hok' Hsame Hw. destruct (decide (o = reg.QUEUE_NOTIFY)) as [->|Hne].
  { revert Hw. change (mmio_write os held d reg.QUEUE_NOTIFY v) with (snd <$> process_queue os held d (as_u32 v)).
    change (mmio_write os held d' reg.QUEUE_NOTIFY v) with (snd <$> process_queue os held d' (as_u32 v)).
    destruct (process_queue os held d (as_u32 v)) as [[k d2]|] eqn:E; [|done]. intros [= <-].
    destruct (process_queue_same d d' _ _ _ Hok Hok' Hsame E) as (d2' & E' & Hs). rewrite E'. eauto. }
  destruct Hsame as [E HF]. set (ps' := processors d') in *. rewrite E. revert Hw. unfold mmio_write.
  rewrite (proj2 (Z.eqb_neq o reg.QUEUE_NOTIFY)) by done.
  cbn [guest_features_sel with_processors memory].
  repeat match goal with |- (if ?b then _ else _) = Some _ → _ => destruct b end;
    (intros [= <-]; eexists; split; [reflexivity|]; split; [reflexivity|]; cbn; done).
Qed.

Lemma mmio_read_same d d' o : same_device d d' → mmio_read d' o = mmio_read d o.
Proof. intros [-> _]. done. Qed.

Lemma as_u32_range v : in_u32 (as_u32 v).
Proof. unfold in_u32, as_u32, U32_MAX. pose proof (Z.mod_pos_bound v 4294967296). lia. Qed.

Lemma reset_ok d : balloon_ok size d → balloon_ok size (reset d).
Proof.
  intros []. split; try done; cbn.
  - by rewrite length_replicate.
  - apply Forall_replicate. split_and!; cbn; auto; unfold in_u64, U64_MAX; lia.
  - by repeat constructor.
Qed.

(** Every register write completes and keeps the device well-formed. *)
Lemma mmio_write_ok d o v :
  balloon_ok size d → ∃ d', mmio_write os held d o v = Some d' ∧ balloon_ok size d'.
Proof.
  intros Hok. pose proof (as_u32_range v) as Hv. pose proof Hv as [Hv0 _].
  assert (∀ set f, (set = set_desc ∨ set = set_driver ∨ set = set_device) →
    (f = (fun a => set_low a (as_u32 v)) ∨ f = (fun a => set_high a (as_u32 v))) →
    balloon_ok size (update_selected_queue d (set f))) as Hhalf.
  { intros set f Hset Hf. apply update_selected_ok; [done|]. apply set_half_ok; [done|].
    intros a Ha. destruct Hf as [-> | ->]; [by apply set_low_spec|by apply set_high_spec]. }
  unfold mmio_write.
  destruct (o =? reg.QUEUE_NOTIFY) eqn:En.
  { bool_to_prop. subst o. cbn [Z.eqb reg.STATUS reg.QUEUE_NOTIFY].
    destruct (notify_ok os held size d (as_u32 v) Hok Hv0) as (k & d' & E & Hok'). rewrite E. cbn. eauto. }
  repeat match goal with |- ∃ d', (if ?b then _ else _) = Some d' ∧ _ => destruct b eqn:? end;
    (eexists; split; [reflexivity|]); try (apply Hhalf; by eauto);
    try (apply update_selected_ok; [done|]; intros; [apply set_size_ok || apply set_ready_ok]; done);
    try (by apply reset_ok); try done.
  all: destruct Hok as [Q1 Q2 Q3 Q4 Q5 [Q6 Q7] [Q8 Q9]]; split; cbn; try done.
  - by rewrite Z.land_0_r.
  - split; [done|]. unfold FEATURES_HIGH. rewrite (Z.land_ones _ 1) by lia. zlia.
  - bool_to_prop. rewrite <- Q5 at 2. done.
Qed.

Lemma run_accesses_ok l : ∀ d,
  balloon_ok size d → ∃ out d', run_accesses os held d l = Some (out, d') ∧ balloon_ok size d'.
Proof.
  induction l as [|[o|o v] l IH]; intros d Hok; cbn [run_accesses]; [eauto| |].
  - destruct (IH d Hok) as (out & d' & E & Hok'). rewrite E. eauto.
  - destruct (mmio_write_ok d o v Hok) as (d1 & E & Hok1). rewrite E. by apply IH.
Qed.

Lemma run_accesses_same l : ∀ d d',
  balloon_ok size d → balloon_ok size d' → same_device d d' →
  ∃ out d1 d1', run_accesses os held d l = Some (out, d1) ∧ run_accesses os held d' l = Some (out, d1') ∧
    same_device d1 d1'.
Proof.
  induction l as [|[o|o v] l IH]; intros d d' Hok Hok' Hs; cbn [run_accesses]; [by eexists _, _, _| |].
  - destruct (IH d d' Hok Hok' Hs) as (out & d1 & d1' & E & E' & Hs1). rewrite E, E'.
    rewrite (mmio_read_same d d') by done. by eexists _, _, _.
  - destruct (mmio_write_ok d o v Hok) as (d1 & E & Hok1). rewrite E.
    destruct (mmio_write_same d d' o v d1 Hok Hok' Hs E) as (d1' & E' & Hs1). rewrite E'.
    apply IH; [done| |done]. destruct (mmio_write_ok d' o v Hok') as (x & Ex & Hx). congruence.
Qed.

(** Restoring into a fresh device for the same memory. *)
Lemma restored_same d d0 :
  balloon_ok size d → memory d0 = memory d → irq_evt d0 = irq_evt d →
  inflate_pages d0 = inflate_pages d → deflate_pages d0 = deflate_pages d → rejected_pfns d0 = rejected_pfns d →
  (∀ i p, processors d !! i = Some (Some p) → ∃ q c, queues d !! i = Some q ∧ queue_config q = Some c) →
  same_device d (apply_state d0 (save d)) ∧ balloon_ok size (apply_state d0 (save d)).
Proof.
  intros Hok E1 E2 E3 E4 E5 Hcfg.
  assert (∀ i p, processors d !! i = Some p →
    imap (restore_processor (queues d)) ((fun p : option VirtQueueProcessor => save_state <$> p) <$> processors d) !! i =
    Some (restore_processor (queues d) i (save_state <$> p))) as Hl.
  { intros i p Hp. by rewrite list_lookup_imap, list_lookup_fmap, Hp. }
  assert (∀ i p, processors d !! i = Some p → ∃ p', restore_processor (queues d) i (save_state <$> p) = p' ∧
    same_processor p p' ∧ from_option processor_ok True p') as Hr.
  { intros i [p|] Hp; [|by exists None]. destruct (Hcfg i p Hp) as (q & c & Hq & Hc).
    unfold restore_processor. cbn. rewrite Hq, Hc. eexists. split; [done|].
    destruct (queue_config_ok size d i p Hok Hp) as (A1 & A2 & _). split; [by destruct p|]. by split_and!. }
  split.
  - split; [destruct d, d0; cbn in *; by subst|]. cbn. apply Forall2_same_length_lookup.
    rewrite length_imap, length_fmap. split; [done|]. intros i p p' Hp Hp'. rewrite (Hl i p Hp) in Hp'.
    destruct (Hr i p Hp) as (x & Hx & Hs & _). rewrite Hx in Hp'. by simplify_eq.
  - destruct Hok. split; cbn; try done; [by rewrite length_imap, length_fmap| |by rewrite E1].
    apply Forall_lookup. intros i p' Hp'. rewrite list_lookup_imap, list_lookup_fmap in Hp'.
    destruct (processors d !! i) as [p|] eqn:Hp; [|done]. destruct (Hr i p Hp) as (x & Hx & _ & Hx').
    simpl in Hp'. rewrite Hx in Hp'. by simplify_eq.
Qed.

End same.

(** ** Example: memory whose released pages read as zero *)
Module ExampleBalloon.

Definition zero_range (size : Z) (m : gmap Z Z) (off len : Z) : option (gmap Z Z) :=
  Some (map_imap (fun a b => Some
    match GuestMemory.gpa_to_offset size a with
    | Some o => if decide (off ≤ o < off + len) then 0 else b
    | None => b
    end) m).

Definition os (size : Z) : @GuestMemory.DiscardOps (gmap Z Z) :=
  {| GuestMemory.lazy_discard := zero_range size;
     GuestMemory.map_anonymous := zero_range size;
     GuestMemory.madvise_dontneed := zero_range size |}.

Lemma zero_range_zeroes size : zeroes size (zero_range size).
Proof.
  intros m off len. eexists. split; [done|]. intros a. unfold byte_at. cbn. rewrite !bm_read_1.
  unfold ByteMap.address_in_range. rewrite map_lookup_imap.
  destruct (m !! a) as [b|] eqn:E; rewrite ?E; cbn [mbind option_bind].
  - rewrite !(bool_decide_true (is_Some _)) by done.
    destruct (GuestMemory.gpa_to_offset size a); [case_decide|]; by destruct (_ && _).
  - rewrite !(bool_decide_false (is_Some _)) by (by intros [? ?]). rewrite !andb_false_r.
    destruct (GuestMemory.gpa_to_offset size a); [by case_decide|done].
Qed.

Lemma os_zeroes size : discard_zeroes size (os size).
Proof. split; apply zero_range_zeroes. Qed.

(** Two pages of RAM, a byte in each. *)
Definition ram : GuestMemory.t (gmap Z Z) :=
  GuestMemory.mk {[ 0 := 1; 4096 := 2 ]} 8192 DirtyBitmap.new false false FileRanges.empty.

Definition device : VirtioBalloonMmio (gmap Z Z) :=
  mkBalloon 0 0 0 0 0 0 (replicate QUEUE_COUNT queue_default) (replicate QUEUE_COUNT None)
    ram false 0 0 1 0 None 0 0 0.

(** RAM on both sides of the aperture: two pages above it. At address 0 the
    numbers of the first page above and of the first page in the aperture. *)
Definition big_ram : GuestMemory.t (gmap Z Z) :=
  GuestMemory.mk (ByteMap.store ∅ 0 (le_encode 4 1048576 ++ le_encode 4 0 ++ le_encode 4 851968))
    (MMIO_GAP_START + 8192) DirtyBitmap.new false false FileRanges.empty.

End ExampleBalloon.

Lemma inflate_zeroes_exactly_witness :
  let g := ExampleBalloon.ram in
  ∃ ok g' ps, inflate (ExampleBalloon.os 8192) ∅ g [1; 1] = (ok, 1, g') ∧
    released g g' ps ∧ (ok = true ↔ ∀ p, p ∈ [1; 1] → page_backed 8192 p) ∧
    (ok = true → ∀ p, p ∈ ps ↔ p ∈ [1; 1]) ∧ ps `prefix_of` dedup (merge_sort Z.le [1; 1]).
Proof.
  apply (inflate_zeroes_exactly (ExampleBalloon.os 8192) ∅ ExampleBalloon.ram [1; 1]).
  - apply ExampleBalloon.os_zeroes.
  - simpl. lia.
  - split; [done|]. by right.
  - repeat constructor; unfold U32_MAX; lia.
Defined.

(** C27: A driver cannot wedge the balloon. From a fresh device, every sequence
    of register reads and writes completes, queue notifications over guest
    memory with arbitrary contents included, and leaves a well-formed device:
    a queue that is ready has a valid size, only offered features are accepted,
    and neither page count exceeds the memory. *)
Theorem balloon_accesses_complete {M : Type} `{!GuestMemoryBackend M} `{!GuestMemoryLaws M}
    (os : @GuestMemory.DiscardOps M) held mem target d l :
  let size := GuestMemory.size_bytes mem in
  balloon_new mem target = Ok d → 0 ≤ size →
  ∃ out d', run_accesses os held d l = Some (out, d') ∧ balloon_ok size d'.
Proof.
  intros size Hnew Hsz. apply run_accesses_ok. unfold balloon_new in Hnew. case_hyp Hnew; [done|].
  injection Hnew as <-. bool_to_prop. split; try done; cbn.
  - repeat constructor; cbn; auto; unfold U64_MAX; lia.
  - by repeat constructor.
  - split; [done|]. apply Z.div_pos; [done|]. unfold PAGE_SIZE. lia.
Qed.

Lemma balloon_accesses_complete_witness :
  let l := [Write reg.QUEUE_NUM 16; Write reg.QUEUE_READY 1; Write reg.QUEUE_NOTIFY 0; Read reg.QUEUE_READY] in
  ∃ out d', run_accesses (ExampleBalloon.os 8192) ∅ ExampleBalloon.device l = Some (out, d') ∧
    balloon_ok 8192 d'.
Proof.
  apply (balloon_accesses_complete (ExampleBalloon.os 8192) ∅ ExampleBalloon.ram 1 ExampleBalloon.device);
    [vm_compute; reflexivity|simpl; lia].
Defined.

(** A restored balloon cannot be told from the one that was saved. Restore
    a saved state into a device for the same memory (and counters): if every
    queue that has been served is still configured, then each sequence of
    register accesses returns the same values on both, queue passes included,
    and leaves them in states that are again alike. *)
Theorem balloon_restore_bisimilar {M : Type} `{!GuestMemoryBackend M} `{!GuestMemoryLaws M}
    (os : @GuestMemory.DiscardOps M) held size (d d0 : VirtioBalloonMmio M) l :
  balloon_ok size d → memory d0 = memory d → irq_evt d0 = irq_evt d →
  inflate_pages d0 = inflate_pages d → deflate_pages d0 = deflate_pages d → rejected_pfns d0 = rejected_pfns d →
  (∀ i p, processors d !! i = Some (Some p) → ∃ q c, queues d !! i = Some q ∧ queue_config q = Some c) →
  ∃ out d1 d1', run_accesses os held d l = Some (out, d1) ∧
    run_accesses os held (apply_state d0 (save d)) l = Some (out, d1') ∧ same_device d1 d1'.
Proof.
  intros Hok E1 E2 E3 E4 E5 Hcfg. destruct (restored_same size d d0) as [Hs Hok']; [done..|].
  by apply (run_accesses_same os held size).
Qed.

Lemma example_device_ok : balloon_ok 8192 ExampleBalloon.device.
Proof.
  split; try done; cbn.
  - repeat constructor; cbn; auto; unfold U64_MAX; lia.
  - by repeat constructor.
Qed.

Lemma balloon_restore_bisimilar_witness :
  let d := ExampleBalloon.device in
  let l := [Write reg.QUEUE_NUM 16; Write reg.QUEUE_READY 1; Write reg.QUEUE_NOTIFY 0; Read reg.QUEUE_READY] in
  ∃ out d1 d1', run_accesses (ExampleBalloon.os 8192) ∅ d l = Some (out, d1) ∧
    run_accesses (ExampleBalloon.os 8192) ∅ (apply_state d (save d)) l = Some (out, d1') ∧ same_device d1 d1'.
Proof.
  apply (balloon_restore_bisimilar (ExampleBalloon.os 8192) ∅ 8192 ExampleBalloon.device ExampleBalloon.device);
    try reflexivity; [apply example_device_ok|].
  intros [|[|i]] p Hp; done.
Defined.

(** ** Page numbers around the aperture *)
Section aperture.
Context {M : Type} `{!GuestMemoryBackend M}.
Implicit Types g : GuestMemory.t M.

(** The check of one page number looks at its guest address only. *)
Lemma read_pfn_check g a o raw :
  0 ≤ le_decode raw → (le_decode raw + 1) * 4096 ≤ U64_MAX → u64_checked_add a o = Some (a + o) →
  gm_read_slice (GuestMemory.inner g) (a + o) 4 = Some raw →
  read_pfn g a o = if GuestMemory.size_bytes g <? (le_decode raw + 1) * 4096 then None else Some (le_decode raw).
Proof.
  intros H0 Hm Ha Hr. unfold read_pfn. rewrite Ha, Hr. unfold PAGE_SIZE.
  rewrite (proj2 (u64_checked_mul_Some _ _ (le_decode raw * 4096))) by (split; [done|lia]).
  rewrite (proj2 (u64_checked_add_Some _ _ ((le_decode raw + 1) * 4096))) by (split; lia). done.
Qed.

(** One page number that is refused refuses the request. *)
Lemma parse_pfns_refused g readable a o :
  (a, o) ∈ pfn_slots readable → read_pfn g a o = None → parse_pfns g readable [] = None.
Proof.
  intros Hin Hr. unfold parse_pfns. destruct (count_pfns readable 0) as [t|]; [|done]. cbn. case_goal; [done|].
  apply eq_None_not_Some. intros [l Hl%mapM_Some_1].
  apply list_elem_of_lookup in Hin as [i Hi]. destruct (Forall2_lookup_l _ _ _ _ _ Hl Hi) as (x & _ & Hx).
  cbn in Hx. congruence.
Qed.

Lemma page_above_backed size p :
  0 < size → MMIO_GAP_END ≤ p * 4096 → (p + 1) * 4096 ≤ size + (MMIO_GAP_END - MMIO_GAP_START) → page_backed size p.
Proof.
  intros Hs Hlo Hhi a Ha. exists (MMIO_GAP_START + (a - MMIO_GAP_END)).
  apply gpa_to_offset_Some; unfold MMIO_GAP_START, MMIO_GAP_END in *; lia.
Qed.

Lemma aperture_page_not_backed size p :
  0 < size → MMIO_GAP_START ≤ p * 4096 < MMIO_GAP_END → ¬ page_backed size p.
Proof.
  intros Hs Hp Hb. destruct (Hb (p * 4096) ltac:(lia)) as [o Ho].
  apply gpa_to_offset_Some in Ho; unfold MMIO_GAP_START, MMIO_GAP_END in *; lia.
Qed.

End aperture.

(** C37: The check of a page number compares its guest address with the packed
    size of RAM, so with RAM above the aperture it is wrong on both sides. A
    request that names a RAM page above the aperture at an address beyond that
    size is refused. A page number in the aperture and below that size passes
    the check although it is no RAM; inflating then fails, but only after the
    pages before a gap in the sorted request have been released. The host's release primitives succeed and zero the pages. *)
Theorem balloon_pfn_check_ignores_aperture {M : Type} `{!GuestMemoryBackend M} (os : @GuestMemory.DiscardOps M)
    held (g : GuestMemory.t M) :
  let size := GuestMemory.size_bytes g in
  discard_zeroes size os → MMIO_GAP_START < size ≤ 4611686018427387904 → releasable size g →
  (∀ p readable a o raw, MMIO_GAP_END ≤ p * 4096 → size ≤ p * 4096 →
     (p + 1) * 4096 ≤ size + (MMIO_GAP_END - MMIO_GAP_START) →
     (a, o) ∈ pfn_slots readable → u64_checked_add a o = Some (a + o) →
     gm_read_slice (GuestMemory.inner g) (a + o) 4 = Some raw → le_decode raw = p →
     page_backed size p ∧ parse_pfns g readable [] = None) ∧
  (∀ p a o raw, MMIO_GAP_START ≤ p * 4096 < MMIO_GAP_END → (p + 1) * 4096 ≤ size →
     u64_checked_add a o = Some (a + o) →
     gm_read_slice (GuestMemory.inner g) (a + o) 4 = Some raw → le_decode raw = p →
     ¬ page_backed size p ∧ read_pfn g a o = Some p) ∧
  (∀ pfns p q r, Forall in_u32 pfns → p ∈ pfns → MMIO_GAP_START ≤ p * 4096 < MMIO_GAP_END →
     q ∈ pfns → q < r → r ∉ pfns → (∀ x, x ∈ pfns → x < r → page_backed size x) →
     ∃ n g' ps, inflate os held g pfns = (false, n, g') ∧ released g g' ps ∧ q ∈ ps).
Proof.
  intros size Hos Hsz Hg. assert (0 < size) as Hpos by (unfold MMIO_GAP_START in Hsz; lia). split_and!.
  - intros p readable a o raw H1 H2 H3 Hin Ha Hr Hp. split; [by apply page_above_backed|].
    apply (parse_pfns_refused g readable a o Hin). unfold MMIO_GAP_START, MMIO_GAP_END in *.
    rewrite (read_pfn_check g a o raw), (proj2 (Z.ltb_lt _ _)); [done|fold size; lia|lia|unfold U64_MAX; lia|done|done].
  - intros p a o raw H1 H2 Ha Hr Hp. split; [by apply aperture_page_not_backed|]. unfold MMIO_GAP_START, MMIO_GAP_END in *.
    rewrite (read_pfn_check g a o raw), (proj2 (Z.ltb_ge _ _)); [by rewrite Hp|fold size; lia|lia|unfold U64_MAX; lia|done|done].
  - intros pfns p q r Hu Hp Hpa Hq Hqr Hr Hb.
    assert (∀ x, x ∈ merge_sort Z.le pfns ↔ x ∈ pfns) as Hms by (intros; by rewrite merge_sort_Permutation).
    destruct (dedup_sorted (merge_sort Z.le pfns)) as [Hs Hel]; [apply StronglySorted_merge_sort; apply _|].
    unfold inflate. set (l := dedup (merge_sort Z.le pfns)) in *.
    assert (∀ x, x ∈ l ↔ x ∈ pfns) as Hin by (intros; by rewrite Hel, Hms).
    assert (Forall in_u32 l) as Hul by (apply Forall_forall; intros x Hx; rewrite Forall_forall in Hu; by apply Hu, Hin).
    destruct (inflate_runs_before_gap os held size Hos ltac:(lia) (length l) g l q r) as (ok & g' & ps & Hi & Hrel & Hqs);
      [done|done|done|done|by apply Hin|done|by rewrite Hin|intros x Hx; by apply Hb, Hin|].
    destruct (inflate_runs_ok os held size Hos ltac:(lia) (length l) g l) as (ok' & g1 & ps1 & Hi' & _ & Hok & _);
      [done..|]. rewrite Hi in Hi'. injection Hi' as <- <-. rewrite Hi. exists (Z.of_nat (length l)), g', ps.
    destruct ok; [|done]. exfalso. apply (aperture_page_not_backed size p Hpos Hpa), Hok; [done|]. by apply Hin.
Qed.

Lemma balloon_pfn_check_ignores_aperture_witness :
  let g := ExampleBalloon.big_ram in
  let os := ExampleBalloon.os (GuestMemory.size_bytes g) in
  page_backed (GuestMemory.size_bytes g) 1048576 ∧ parse_pfns g [(0, 4)] [] = None ∧
  read_pfn g 4 4 = Some 851968 ∧ ~ page_backed (GuestMemory.size_bytes g) 851968 ∧
  ∃ n g' ps, inflate os ∅ g [0; 851968] = (false, n, g') ∧ released g g' ps ∧ 0 ∈ ps.
Proof.
  intros g os. destruct (balloon_pfn_check_ignores_aperture os ∅ g) as (H1 & H2 & H3).
  - apply ExampleBalloon.os_zeroes.
  - split; [reflexivity|vm_compute; discriminate].
  - split; [reflexivity|]. by right.
  - destruct (H1 1048576 [(0, 4)] 0 0 (le_encode 4 1048576)) as [A1 A2];
      [vm_compute; discriminate|vm_compute; discriminate|vm_compute; discriminate|left|reflexivity|vm_compute; reflexivity|reflexivity|].
    destruct (H2 851968 4 4 (le_encode 4 851968)) as [B1 B2];
      [split; [vm_compute; discriminate|reflexivity]|vm_compute; discriminate|reflexivity|vm_compute; reflexivity|reflexivity|].
    split_and!; [exact A1|exact A2|exact B2|exact B1|]. apply (H3 [0; 851968] 851968 0 1).
    + repeat constructor; unfold U32_MAX; lia.
    + right. left.
    + split; [vm_compute; discriminate|reflexivity].
    + left.
    + lia.
    + intros H. rewrite !elem_of_cons in H. destruct H as [H|[H|H%elem_of_nil]]; [discriminate H|discriminate H|exact H].
    + intros x Hx Hlt. rewrite !elem_of_cons in Hx. destruct Hx as [->|[->|Hx%elem_of_nil]]; [|lia|done].
      intros a Ha. exists a. apply gpa_to_offset_Some; [lia|reflexivity|]. left. cbn. unfold MMIO_GAP_START. lia.
Defined.
