(* ===== verification/VsockPacket.v ===== *)
(** * vsock packets ([virtio/vsock.rs], the packet types)

    The header of the virtio socket device, the packet that carries it, and
    their encoding on the queues. *)

From S2P Require Import Prelude Layout.

Definition VSOCK_HOST_CID : Z := 2.
Definition VSOCK_HEADER_LEN : Z := 44.
Definition MAX_PACKET_BYTES : Z := 64 * 1024.
Definition DEFAULT_BUF_ALLOC : Z := 256 * 1024.

Module packet_type.
Definition STREAM : Z := 1.
End packet_type.

Module op.
Definition INVALID : Z := 0.
Definition REQUEST : Z := 1.
Definition RESPONSE : Z := 2.
Definition RST : Z := 3.
Definition SHUTDOWN : Z := 4.
Definition RW : Z := 5.
Definition CREDIT_UPDATE : Z := 6.
Definition CREDIT_REQUEST : Z := 7.
End op.

Module shutdown_flags.
Definition RCV : Z := 1.
Definition SEND : Z := 2.
End shutdown_flags.

Record VsockPacketHeader := mkVsockHeader {
  h_src_cid : Z;
  h_dst_cid : Z;
  h_src_port : Z;
  h_dst_port : Z;
  h_len : Z;
  h_type_ : Z;
  h_op : Z;
  h_flags : Z;
  h_buf_alloc : Z;
  h_fwd_cnt : Z;
}.

#[export] Instance vsock_header_eq_dec : EqDecision VsockPacketHeader.
Proof. solve_decision. Defined.

Definition header_from_bytes (buf : list Z) : option VsockPacketHeader :=
  if Z.of_nat (length buf) <? VSOCK_HEADER_LEN then None
  else Some (mkVsockHeader
    (le_decode (slice 0 8 buf)) (le_decode (slice 8 8 buf))
    (le_decode (slice 16 4 buf)) (le_decode (slice 20 4 buf)) (le_decode (slice 24 4 buf))
    (le_decode (slice 28 2 buf)) (le_decode (slice 30 2 buf))
    (le_decode (slice 32 4 buf)) (le_decode (slice 36 4 buf)) (le_decode (slice 40 4 buf))).

(** The array is filled field by field from its start. *)
Definition header_to_bytes (h : VsockPacketHeader) : list Z :=
  le_encode 8 (h_src_cid h) ++ le_encode 8 (h_dst_cid h) ++
  le_encode 4 (h_src_port h) ++ le_encode 4 (h_dst_port h) ++ le_encode 4 (h_len h) ++
  le_encode 2 (h_type_ h) ++ le_encode 2 (h_op h) ++
  le_encode 4 (h_flags h) ++ le_encode 4 (h_buf_alloc h) ++ le_encode 4 (h_fwd_cnt h).

Definition set_len (h : VsockPacketHeader) (n : Z) : VsockPacketHeader :=
  mkVsockHeader (h_src_cid h) (h_dst_cid h) (h_src_port h) (h_dst_port h) n (h_type_ h) (h_op h)
    (h_flags h) (h_buf_alloc h) (h_fwd_cnt h).

Record VsockPacket := mkPacket {
  header : VsockPacketHeader;
  data : list Z;
}.

(** [data.len() as u32]. *)
Definition data_len (bs : list Z) : Z := as_u32 (Z.of_nat (length bs)).

Definition packet_new (h : VsockPacketHeader) (bs : list Z) : VsockPacket :=
  mkPacket (set_len h (data_len bs)) bs.

Definition packet_from_bytes (buf : list Z) : option VsockPacket :=
  let?o h := header_from_bytes buf in
  let?o packet_len := u64_checked_add VSOCK_HEADER_LEN (h_len h) in
  if (MAX_PACKET_BYTES <? h_len h) || (Z.of_nat (length buf) <? packet_len) then None
  else Some (mkPacket h (slice 44 (Z.to_nat (h_len h)) buf)).

Definition packet_to_bytes (p : VsockPacket) : list Z :=
  header_to_bytes (set_len (header p) (data_len (data p))) ++ data p.

(** ** What the packets may be *)

Definition header_fields (h : VsockPacketHeader) : list (nat * Z) :=
  [(8%nat, h_src_cid h); (8%nat, h_dst_cid h); (4%nat, h_src_port h); (4%nat, h_dst_port h);
   (4%nat, h_len h); (2%nat, h_type_ h); (2%nat, h_op h); (4%nat, h_flags h);
   (4%nat, h_buf_alloc h); (4%nat, h_fwd_cnt h)].

(** The fields fit, and the length field is the length of the data. *)
Definition packet_ok (p : VsockPacket) : Prop :=
  Forall field_ok (header_fields (header p)) ∧ Forall is_byte (data p) ∧
  h_len (header p) = Z.of_nat (length (data p)) ∧ Z.of_nat (length (data p)) ≤ MAX_PACKET_BYTES.

(** ** Encoding and decoding *)
Section codec.

Lemma header_to_bytes_fields h : header_to_bytes h = encode_fields (header_fields h).
Proof. reflexivity. Qed.

Lemma length_header_to_bytes h : length (header_to_bytes h) = 44%nat.
Proof. by rewrite header_to_bytes_fields, length_encode_fields. Qed.

Lemma header_to_bytes_bytes h : Forall is_byte (header_to_bytes h).
Proof. rewrite header_to_bytes_fields. auto with tarit. Qed.

Lemma header_from_bytes_fields buf h :
  header_from_bytes buf = Some h ↔
  (44 ≤ length buf)%nat ∧ (header_fields h).*2 = decode_fields (header_fields h).*1 buf.
Proof.
  unfold header_from_bytes, VSOCK_HEADER_LEN, slice. cbn [header_fields fmap list_fmap fst snd decode_fields].
  rewrite !drop_drop, drop_0. cbn [Nat.add].
  destruct (Z.of_nat (length buf) <? 44) eqn:E; bool_to_prop.
  { split; [done|]. lia. }
  split.
  - intros [= <-]. split; [lia|done].
  - intros [_ Hf]. f_equal. destruct h. simpl in Hf. by simplify_eq.
Qed.

Lemma header_decode_encode_bytes h rest :
  Forall field_ok (header_fields h) → header_from_bytes (header_to_bytes h ++ rest) = Some h.
Proof.
  intros Hf. apply header_from_bytes_fields. rewrite length_app, length_header_to_bytes. split; [lia|].
  by rewrite header_to_bytes_fields, decode_encode_fields.
Qed.

Lemma header_encode_decode_bytes buf h :
  Forall is_byte buf → header_from_bytes buf = Some h →
  header_to_bytes h = take 44 buf ∧ Forall field_ok (header_fields h).
Proof.
  intros Hb [Hl Hd]%header_from_bytes_fields.
  assert (sum_list (header_fields h).*1 = 44%nat) as Hs by done.
  destruct (encode_decode_fields (header_fields h).*1 buf Hb) as [He Hf]; [lia|].
  rewrite Hs in He. rewrite <- Hd, zip_fst_snd in He, Hf. by rewrite header_to_bytes_fields.
Qed.

Lemma set_len_id h : set_len h (h_len h) = h.
Proof. by destruct h. Qed.

Lemma length_packet_to_bytes p : length (packet_to_bytes p) = (44 + length (data p))%nat.
Proof. unfold packet_to_bytes. by rewrite length_app, length_header_to_bytes. Qed.

Lemma packet_ok_len p : packet_ok p → set_len (header p) (data_len (data p)) = header p.
Proof.
  intros (_ & _ & Hl & Hm). unfold data_len, as_u32, MAX_PACKET_BYTES in *.
  rewrite Z.mod_small by lia. by rewrite <- Hl, set_len_id.
Qed.

End codec.

(** The packet codec is exact: a buffer decodes to a packet precisely when
    it starts with the encoding of that packet, the packet's fields fit and
    its length field is the length of its data, at most 64 KiB. *)
Theorem packet_codec_exact buf p :
  Forall is_byte buf →
  packet_from_bytes buf = Some p ↔ packet_ok p ∧ ∃ rest, buf = packet_to_bytes p ++ rest.
Proof.
  intros Hb. unfold packet_from_bytes. split.
  - destruct (header_from_bytes buf) as [h|] eqn:Eh; [|done].
    destruct (header_encode_decode_bytes _ _ Hb Eh) as [He Hf].
    destruct (u64_checked_add _ _) as [n|] eqn:En; [|done].
    apply u64_checked_add_Some in En as [-> _]. unfold VSOCK_HEADER_LEN.
    case_goal; [done|]. bool_to_prop. intros [= <-].
    assert (0 ≤ h_len h) as Hn.
    { rewrite Forall_forall in Hf. apply (Hf (4%nat, h_len h)). cbn. set_solver. }
    assert (packet_ok (mkPacket h (slice 44 (Z.to_nat (h_len h)) buf))) as Hok.
    { split_and!; cbn [header data]; [done|auto with tarit|..]; rewrite length_slice by lia; lia. }
    split; [done|]. exists (drop (44 + Z.to_nat (h_len h)) buf).
    unfold packet_to_bytes. rewrite packet_ok_len by done. cbn [header data].
    rewrite He, <- app_assoc. unfold slice. rewrite <- drop_drop, take_drop. by rewrite take_drop.
  - intros [Hok [rest ->]]. pose proof Hok as (Hf & _ & Hl & Hm). unfold packet_to_bytes.
    rewrite (packet_ok_len _ Hok), <- app_assoc, header_decode_encode_bytes by done.
    unfold MAX_PACKET_BYTES in *.
    rewrite (proj2 (u64_checked_add_Some _ _ _)) by (split; [done|unfold VSOCK_HEADER_LEN, U64_MAX; lia]).
    unfold VSOCK_HEADER_LEN. rewrite !length_app, length_header_to_bytes.
    rewrite (proj2 (Z.ltb_ge _ (h_len _))), (proj2 (Z.ltb_ge _ _)) by lia. cbn [orb].
    rewrite slice_app_r by (rewrite length_header_to_bytes; lia). rewrite length_header_to_bytes.
    cbn [Nat.sub]. rewrite Hl, Nat2Z.id, slice_exact by done. by destruct p.
Qed.

(** A one-byte RW packet with a byte behind it. *)
Definition example_header : VsockPacketHeader := mkVsockHeader 3 2 1024 52 1 1 5 0 262144 0.
Definition example_packet : VsockPacket := mkPacket example_header [65].

Lemma packet_codec_exact_witness :
  packet_from_bytes (packet_to_bytes example_packet ++ [9]) = Some example_packet.
Proof.
  apply (packet_codec_exact (packet_to_bytes example_packet ++ [9]) example_packet).
  - apply Forall_app. split; [|repeat constructor; done].
    apply Forall_app. split; [apply header_to_bytes_bytes|repeat constructor; done].
  - split; [|by exists [9]]. split_and!; try done; repeat constructor; done.
Defined.
