(* ===== verification/VsockState.v ===== *)
(** * The state of the socket device ([virtio/vsock.rs])

    The queues, the connection table, the saved state and the device itself.
    Atomics and the contents of mutexes are fields of one record; a mutex that
    a panicking thread left behind is listed in [poisoned]; the interrupt
    event is the count of its writes. Host streams and listeners are the
    types [S] and [L] with the operations of the traits the device uses. *)

From S2P Require Import Prelude Dirty GuestMem GuestRam VQueue VsockPacket.

Definition DEVICE_ID_VSOCK : Z := 19.
Definition QUEUE_RX : Z := 0.
Definition QUEUE_TX : Z := 1.
Definition QUEUE_EVENT : Z := 2.
Definition QUEUE_COUNT : nat := 3.
Definition QUEUE_SIZE_MAX : Z := MAX_QUEUE_SIZE.
Definition MAX_PENDING_RX : Z := 4096.
Definition MAX_CONNECTIONS : Z := 1024.
Definition VIRTIO_MMIO_INT_VRING : Z := 1.
Definition VSOCK_FEATURES_LOW : Z := 0.
Definition VSOCK_FEATURES_HIGH : Z := 1.
Definition HOST_READ_CHUNK : Z := 4096.
Definition HOST_EPHEMERAL_PORT_START : Z := 49152.
Definition HOST_EPHEMERAL_PORT_END : Z := 65535.

(** ** Host streams *)

(** [io::ErrorKind], as far as the device distinguishes it. *)
Inductive ErrorKind : Type :=
| WouldBlock
| Interrupted
| OtherKind.

(** [Read::read] into a buffer of [n] bytes gives the bytes it filled in;
    [Write::write_all] only whether it wrote everything. *)
Class HostVsockStream (S : Type) := {
  stream_read : S → Z → result (list Z) ErrorKind * S;
  stream_write_all : S → list Z → bool * S;
}.

(** [connect] on a port of the host. *)
Class HostVsockListener (L S : Type) := {
  listener_connect : L → Z → option S * L;
}.

(** [Read::read] fills in no more than the buffer holds. *)
Class HostVsockStreamLaws (S : Type) `{!HostVsockStream S} : Prop := {
  stream_read_bound : ∀ (s s' : S) n bs, 0 ≤ n → stream_read s n = (Ok bs, s') →
    Z.of_nat (length bs) ≤ n ∧ Forall is_byte bs;
}.

(** ** Queues as the driver sets them up *)
Record QueueState := mkQueue {
  q_size : Z;
  q_desc_table_addr : Z;
  q_avail_ring_addr : Z;
  q_used_ring_addr : Z;
  q_ready : bool;
  q_last_avail_idx : Z;
  q_last_used_idx : Z;
}.

Definition queue_default : QueueState := mkQueue 0 0 0 0 false 0 0.

Definition valid_size (q : QueueState) : bool := is_valid_queue_size (q_size q) MAX_QUEUE_SIZE.

Definition with_size_ready (q : QueueState) (sz : Z) (r : bool) : QueueState :=
  mkQueue sz (q_desc_table_addr q) (q_avail_ring_addr q) (q_used_ring_addr q) r
    (q_last_avail_idx q) (q_last_used_idx q).

Definition set_size (size : Z) (q : QueueState) : QueueState :=
  if U16_MAX <? size then with_size_ready q 0 false
  else if size =? 0 then with_size_ready q 0 false
  else if is_valid_queue_size size MAX_QUEUE_SIZE then with_size_ready q size (q_ready q)
  else with_size_ready q 0 false.

Definition set_ready (r : bool) (q : QueueState) : QueueState :=
  if r && negb (valid_size q) then with_size_ready q (q_size q) false
  else with_size_ready q (q_size q) r.

Definition set_desc (f : Z → Z) (q : QueueState) : QueueState :=
  mkQueue (q_size q) (f (q_desc_table_addr q)) (q_avail_ring_addr q) (q_used_ring_addr q) (q_ready q)
    (q_last_avail_idx q) (q_last_used_idx q).
Definition set_driver (f : Z → Z) (q : QueueState) : QueueState :=
  mkQueue (q_size q) (q_desc_table_addr q) (f (q_avail_ring_addr q)) (q_used_ring_addr q) (q_ready q)
    (q_last_avail_idx q) (q_last_used_idx q).
Definition set_device (f : Z → Z) (q : QueueState) : QueueState :=
  mkQueue (q_size q) (q_desc_table_addr q) (q_avail_ring_addr q) (f (q_used_ring_addr q)) (q_ready q)
    (q_last_avail_idx q) (q_last_used_idx q).
Definition set_last_indices (avail used : Z) (q : QueueState) : QueueState :=
  mkQueue (q_size q) (q_desc_table_addr q) (q_avail_ring_addr q) (q_used_ring_addr q) (q_ready q)
    avail used.

(** ** Connections *)
Record ConnectionKey := mkKey {
  k_guest_cid : Z;
  k_guest_port : Z;
  k_host_port : Z;
}.

#[export] Instance connection_key_eq_dec : EqDecision ConnectionKey.
Proof. solve_decision. Defined.
#[export] Instance connection_key_countable : Countable ConnectionKey.
Proof.
  apply (inj_countable' (fun k => (k_guest_cid k, k_guest_port k, k_host_port k))
           (fun t => mkKey t.1.1 t.1.2 t.2)). by intros [].
Defined.

Record VsockConnectionState := mkConnState {
  cs_guest_cid : Z;
  cs_guest_port : Z;
  cs_host_port : Z;
  cs_fwd_cnt : Z;
}.

Definition key (c : VsockConnectionState) : ConnectionKey :=
  mkKey (cs_guest_cid c) (cs_guest_port c) (cs_host_port c).

Record Connection (S : Type) := mkConn {
  stream : S;
  peer_buf_alloc : Z;
  peer_fwd_cnt : Z;
  fwd_cnt : Z;
  established : bool;
}.
Arguments mkConn {S} stream peer_buf_alloc peer_fwd_cnt fwd_cnt established.
Arguments stream {S} c.
Arguments peer_buf_alloc {S} c.
Arguments peer_fwd_cnt {S} c.
Arguments fwd_cnt {S} c.
Arguments established {S} c.

Definition key_from_guest (h : VsockPacketHeader) : ConnectionKey :=
  mkKey (h_src_cid h) (h_src_port h) (h_dst_port h).

Definition connection_insert_would_exceed_cap {S : Type}
    (connections : gmap ConnectionKey (Connection S)) (k : ConnectionKey) : bool :=
  (MAX_CONNECTIONS <=? Z.of_nat (base.size connections)) && bool_decide (connections !! k = None).

Definition host_packet (k : ConnectionKey) (op flags : Z) (bs : list Z) (fwd_cnt : Z) : VsockPacket :=
  packet_new (mkVsockHeader VSOCK_HOST_CID (k_guest_cid k) (k_host_port k) (k_guest_port k)
                (data_len bs) packet_type.STREAM op flags DEFAULT_BUF_ALLOC fwd_cnt) bs.

Definition reply_packet (request : VsockPacketHeader) (op flags : Z) (bs : list Z) (fwd_cnt : Z)
    : VsockPacket :=
  packet_new (mkVsockHeader VSOCK_HOST_CID (h_src_cid request) (h_dst_port request)
                (h_src_port request) (data_len bs) packet_type.STREAM op flags DEFAULT_BUF_ALLOC
                fwd_cnt) bs.

Record VirtioVsockMmioState := mkVsockState {
  s_status : Z;
  s_queue_sel : Z;
  s_host_features_sel : Z;
  s_guest_features_sel : Z;
  s_guest_features_low : Z;
  s_guest_features_high : Z;
  s_queues : list QueueState;
  s_activated : bool;
  s_interrupt_status : Z;
  s_connections : list VsockConnectionState;
}.

(** ** The device *)

(** The mutexes. *)
Inductive Lock : Type :=
| LQueues | LGuestMem | LHostDirty | LRxProcessor | LTxProcessor | LHostListener | LConnections
| LPendingRx | LIrqEvt.

#[export] Instance lock_eq_dec : EqDecision Lock.
Proof. solve_decision. Defined.

Section device.
Context {M S L : Type}.

Record VirtioVsockMmio := mkVsock {
  irq : Z;
  device_id : Z;
  vendor_id : Z;
  version : Z;
  guest_cid : Z;
  status : Z;
  queue_sel : Z;
  host_features_sel : Z;
  guest_features_sel : Z;
  guest_features_low : Z;
  guest_features_high : Z;
  queues : list QueueState;
  guest_mem : option M;
  host_dirty : option DirtyBitmap.t;
  activated : bool;
  rx_processor : option VirtQueueProcessor;
  tx_processor : option VirtQueueProcessor;
  interrupt_status : Z;
  host_listener : option L;
  connections : gmap ConnectionKey (Connection S);
  next_host_port : Z;
  pending_rx : list VsockPacket;
  irq_evt : option Z;
  status_writes : Z;
  notify_count : Z;
  tx_packets : Z;
  rx_packets : Z;
  tx_bytes : Z;
  rx_bytes : Z;
  poisoned : list Lock;
}.

Definition with_status (d : VirtioVsockMmio) (v : Z) : VirtioVsockMmio :=
  mkVsock (irq d) (device_id d) (vendor_id d) (version d) (guest_cid d) v (queue_sel d)
    (host_features_sel d) (guest_features_sel d) (guest_features_low d) (guest_features_high d)
    (queues d) (guest_mem d) (host_dirty d) (activated d) (rx_processor d) (tx_processor d)
    (interrupt_status d) (host_listener d) (connections d) (next_host_port d) (pending_rx d)
    (irq_evt d) (status_writes d) (notify_count d) (tx_packets d) (rx_packets d) (tx_bytes d)
    (rx_bytes d) (poisoned d).
Definition with_queue_sel (d : VirtioVsockMmio) (v : Z) : VirtioVsockMmio :=
  mkVsock (irq d) (device_id d) (vendor_id d) (version d) (guest_cid d) (status d) v
    (host_features_sel d) (guest_features_sel d) (guest_features_low d) (guest_features_high d)
    (queues d) (guest_mem d) (host_dirty d) (activated d) (rx_processor d) (tx_processor d)
    (interrupt_status d) (host_listener d) (connections d) (next_host_port d) (pending_rx d)
    (irq_evt d) (status_writes d) (notify_count d) (tx_packets d) (rx_packets d) (tx_bytes d)
    (rx_bytes d) (poisoned d).
Definition with_host_features_sel (d : VirtioVsockMmio) (v : Z) : VirtioVsockMmio :=
  mkVsock (irq d) (device_id d) (vendor_id d) (version d) (guest_cid d) (status d) (queue_sel d) v
    (guest_features_sel d) (guest_features_low d) (guest_features_high d) (queues d) (guest_mem d)
    (host_dirty d) (activated d) (rx_processor d) (tx_processor d) (interrupt_status d)
    (host_listener d) (connections d) (next_host_port d) (pending_rx d) (irq_evt d) (status_writes
    d) (notify_count d) (tx_packets d) (rx_packets d) (tx_bytes d) (rx_bytes d) (poisoned d).
Definition with_guest_features_sel (d : VirtioVsockMmio) (v : Z) : VirtioVsockMmio :=
  mkVsock (irq d) (device_id d) (vendor_id d) (version d) (guest_cid d) (status d) (queue_sel d)
    (host_features_sel d) v (guest_features_low d) (guest_features_high d) (queues d) (guest_mem d)
    (host_dirty d) (activated d) (rx_processor d) (tx_processor d) (interrupt_status d)
    (host_listener d) (connections d) (next_host_port d) (pending_rx d) (irq_evt d) (status_writes
    d) (notify_count d) (tx_packets d) (rx_packets d) (tx_bytes d) (rx_bytes d) (poisoned d).
Definition with_guest_features_low (d : VirtioVsockMmio) (v : Z) : VirtioVsockMmio :=
  mkVsock (irq d) (device_id d) (vendor_id d) (version d) (guest_cid d) (status d) (queue_sel d)
    (host_features_sel d) (guest_features_sel d) v (guest_features_high d) (queues d) (guest_mem d)
    (host_dirty d) (activated d) (rx_processor d) (tx_processor d) (interrupt_status d)
    (host_listener d) (connections d) (next_host_port d) (pending_rx d) (irq_evt d) (status_writes
    d) (notify_count d) (tx_packets d) (rx_packets d) (tx_bytes d) (rx_bytes d) (poisoned d).
Definition with_guest_features_high (d : VirtioVsockMmio) (v : Z) : VirtioVsockMmio :=
  mkVsock (irq d) (device_id d) (vendor_id d) (version d) (guest_cid d) (status d) (queue_sel d)
    (host_features_sel d) (guest_features_sel d) (guest_features_low d) v (queues d) (guest_mem d)
    (host_dirty d) (activated d) (rx_processor d) (tx_processor d) (interrupt_status d)
    (host_listener d) (connections d) (next_host_port d) (pending_rx d) (irq_evt d) (status_writes
    d) (notify_count d) (tx_packets d) (rx_packets d) (tx_bytes d) (rx_bytes d) (poisoned d).
Definition with_queues (d : VirtioVsockMmio) (v : list QueueState) : VirtioVsockMmio :=
  mkVsock (irq d) (device_id d) (vendor_id d) (version d) (guest_cid d) (status d) (queue_sel d)
    (host_features_sel d) (guest_features_sel d) (guest_features_low d) (guest_features_high d) v
    (guest_mem d) (host_dirty d) (activated d) (rx_processor d) (tx_processor d) (interrupt_status
    d) (host_listener d) (connections d) (next_host_port d) (pending_rx d) (irq_evt d)
    (status_writes d) (notify_count d) (tx_packets d) (rx_packets d) (tx_bytes d) (rx_bytes d)
    (poisoned d).
Definition with_guest_mem (d : VirtioVsockMmio) (v : option M) : VirtioVsockMmio :=
  mkVsock (irq d) (device_id d) (vendor_id d) (version d) (guest_cid d) (status d) (queue_sel d)
    (host_features_sel d) (guest_features_sel d) (guest_features_low d) (guest_features_high d)
    (queues d) v (host_dirty d) (activated d) (rx_processor d) (tx_processor d) (interrupt_status d)
    (host_listener d) (connections d) (next_host_port d) (pending_rx d) (irq_evt d) (status_writes
    d) (notify_count d) (tx_packets d) (rx_packets d) (tx_bytes d) (rx_bytes d) (poisoned d).
Definition with_host_dirty (d : VirtioVsockMmio) (v : option DirtyBitmap.t) : VirtioVsockMmio :=
  mkVsock (irq d) (device_id d) (vendor_id d) (version d) (guest_cid d) (status d) (queue_sel d)
    (host_features_sel d) (guest_features_sel d) (guest_features_low d) (guest_features_high d)
    (queues d) (guest_mem d) v (activated d) (rx_processor d) (tx_processor d) (interrupt_status d)
    (host_listener d) (connections d) (next_host_port d) (pending_rx d) (irq_evt d) (status_writes
    d) (notify_count d) (tx_packets d) (rx_packets d) (tx_bytes d) (rx_bytes d) (poisoned d).
Definition with_activated (d : VirtioVsockMmio) (v : bool) : VirtioVsockMmio :=
  mkVsock (irq d) (device_id d) (vendor_id d) (version d) (guest_cid d) (status d) (queue_sel d)
    (host_features_sel d) (guest_features_sel d) (guest_features_low d) (guest_features_high d)
    (queues d) (guest_mem d) (host_dirty d) v (rx_processor d) (tx_processor d) (interrupt_status d)
    (host_listener d) (connections d) (next_host_port d) (pending_rx d) (irq_evt d) (status_writes
    d) (notify_count d) (tx_packets d) (rx_packets d) (tx_bytes d) (rx_bytes d) (poisoned d).
Definition with_rx_processor (d : VirtioVsockMmio) (v : option VirtQueueProcessor) : VirtioVsockMmio :=
  mkVsock (irq d) (device_id d) (vendor_id d) (version d) (guest_cid d) (status d) (queue_sel d)
    (host_features_sel d) (guest_features_sel d) (guest_features_low d) (guest_features_high d)
    (queues d) (guest_mem d) (host_dirty d) (activated d) v (tx_processor d) (interrupt_status d)
    (host_listener d) (connections d) (next_host_port d) (pending_rx d) (irq_evt d) (status_writes
    d) (notify_count d) (tx_packets d) (rx_packets d) (tx_bytes d) (rx_bytes d) (poisoned d).
Definition with_tx_processor (d : VirtioVsockMmio) (v : option VirtQueueProcessor) : VirtioVsockMmio :=
  mkVsock (irq d) (device_id d) (vendor_id d) (version d) (guest_cid d) (status d) (queue_sel d)
    (host_features_sel d) (guest_features_sel d) (guest_features_low d) (guest_features_high d)
    (queues d) (guest_mem d) (host_dirty d) (activated d) (rx_processor d) v (interrupt_status d)
    (host_listener d) (connections d) (next_host_port d) (pending_rx d) (irq_evt d) (status_writes
    d) (notify_count d) (tx_packets d) (rx_packets d) (tx_bytes d) (rx_bytes d) (poisoned d).
Definition with_interrupt_status (d : VirtioVsockMmio) (v : Z) : VirtioVsockMmio :=
  mkVsock (irq d) (device_id d) (vendor_id d) (version d) (guest_cid d) (status d) (queue_sel d)
    (host_features_sel d) (guest_features_sel d) (guest_features_low d) (guest_features_high d)
    (queues d) (guest_mem d) (host_dirty d) (activated d) (rx_processor d) (tx_processor d) v
    (host_listener d) (connections d) (next_host_port d) (pending_rx d) (irq_evt d) (status_writes
    d) (notify_count d) (tx_packets d) (rx_packets d) (tx_bytes d) (rx_bytes d) (poisoned d).
Definition with_host_listener (d : VirtioVsockMmio) (v : option L) : VirtioVsockMmio :=
  mkVsock (irq d) (device_id d) (vendor_id d) (version d) (guest_cid d) (status d) (queue_sel d)
    (host_features_sel d) (guest_features_sel d) (guest_features_low d) (guest_features_high d)
    (queues d) (guest_mem d) (host_dirty d) (activated d) (rx_processor d) (tx_processor d)
    (interrupt_status d) v (connections d) (next_host_port d) (pending_rx d) (irq_evt d)
    (status_writes d) (notify_count d) (tx_packets d) (rx_packets d) (tx_bytes d) (rx_bytes d)
    (poisoned d).
Definition with_connections (d : VirtioVsockMmio) (v : gmap ConnectionKey (Connection S)) : VirtioVsockMmio :=
  mkVsock (irq d) (device_id d) (vendor_id d) (version d) (guest_cid d) (status d) (queue_sel d)
    (host_features_sel d) (guest_features_sel d) (guest_features_low d) (guest_features_high d)
    (queues d) (guest_mem d) (host_dirty d) (activated d) (rx_processor d) (tx_processor d)
    (interrupt_status d) (host_listener d) v (next_host_port d) (pending_rx d) (irq_evt d)
    (status_writes d) (notify_count d) (tx_packets d) (rx_packets d) (tx_bytes d) (rx_bytes d)
    (poisoned d).
Definition with_next_host_port (d : VirtioVsockMmio) (v : Z) : VirtioVsockMmio :=
  mkVsock (irq d) (device_id d) (vendor_id d) (version d) (guest_cid d) (status d) (queue_sel d)
    (host_features_sel d) (guest_features_sel d) (guest_features_low d) (guest_features_high d)
    (queues d) (guest_mem d) (host_dirty d) (activated d) (rx_processor d) (tx_processor d)
    (interrupt_status d) (host_listener d) (connections d) v (pending_rx d) (irq_evt d)
    (status_writes d) (notify_count d) (tx_packets d) (rx_packets d) (tx_bytes d) (rx_bytes d)
    (poisoned d).
Definition with_pending_rx (d : VirtioVsockMmio) (v : list VsockPacket) : VirtioVsockMmio :=
  mkVsock (irq d) (device_id d) (vendor_id d) (version d) (guest_cid d) (status d) (queue_sel d)
    (host_features_sel d) (guest_features_sel d) (guest_features_low d) (guest_features_high d)
    (queues d) (guest_mem d) (host_dirty d) (activated d) (rx_processor d) (tx_processor d)
    (interrupt_status d) (host_listener d) (connections d) (next_host_port d) v (irq_evt d)
    (status_writes d) (notify_count d) (tx_packets d) (rx_packets d) (tx_bytes d) (rx_bytes d)
    (poisoned d).
Definition with_irq_evt (d : VirtioVsockMmio) (v : option Z) : VirtioVsockMmio :=
  mkVsock (irq d) (device_id d) (vendor_id d) (version d) (guest_cid d) (status d) (queue_sel d)
    (host_features_sel d) (guest_features_sel d) (guest_features_low d) (guest_features_high d)
    (queues d) (guest_mem d) (host_dirty d) (activated d) (rx_processor d) (tx_processor d)
    (interrupt_status d) (host_listener d) (connections d) (next_host_port d) (pending_rx d) v
    (status_writes d) (notify_count d) (tx_packets d) (rx_packets d) (tx_bytes d) (rx_bytes d)
    (poisoned d).
Definition with_status_writes (d : VirtioVsockMmio) (v : Z) : VirtioVsockMmio :=
  mkVsock (irq d) (device_id d) (vendor_id d) (version d) (guest_cid d) (status d) (queue_sel d)
    (host_features_sel d) (guest_features_sel d) (guest_features_low d) (guest_features_high d)
    (queues d) (guest_mem d) (host_dirty d) (activated d) (rx_processor d) (tx_processor d)
    (interrupt_status d) (host_listener d) (connections d) (next_host_port d) (pending_rx d)
    (irq_evt d) v (notify_count d) (tx_packets d) (rx_packets d) (tx_bytes d) (rx_bytes d) (poisoned
    d).
Definition with_notify_count (d : VirtioVsockMmio) (v : Z) : VirtioVsockMmio :=
  mkVsock (irq d) (device_id d) (vendor_id d) (version d) (guest_cid d) (status d) (queue_sel d)
    (host_features_sel d) (guest_features_sel d) (guest_features_low d) (guest_features_high d)
    (queues d) (guest_mem d) (host_dirty d) (activated d) (rx_processor d) (tx_processor d)
    (interrupt_status d) (host_listener d) (connections d) (next_host_port d) (pending_rx d)
    (irq_evt d) (status_writes d) v (tx_packets d) (rx_packets d) (tx_bytes d) (rx_bytes d)
    (poisoned d).
Definition with_tx_packets (d : VirtioVsockMmio) (v : Z) : VirtioVsockMmio :=
  mkVsock (irq d) (device_id d) (vendor_id d) (version d) (guest_cid d) (status d) (queue_sel d)
    (host_features_sel d) (guest_features_sel d) (guest_features_low d) (guest_features_high d)
    (queues d) (guest_mem d) (host_dirty d) (activated d) (rx_processor d) (tx_processor d)
    (interrupt_status d) (host_listener d) (connections d) (next_host_port d) (pending_rx d)
    (irq_evt d) (status_writes d) (notify_count d) v (rx_packets d) (tx_bytes d) (rx_bytes d)
    (poisoned d).
Definition with_rx_packets (d : VirtioVsockMmio) (v : Z) : VirtioVsockMmio :=
  mkVsock (irq d) (device_id d) (vendor_id d) (version d) (guest_cid d) (status d) (queue_sel d)
    (host_features_sel d) (guest_features_sel d) (guest_features_low d) (guest_features_high d)
    (queues d) (guest_mem d) (host_dirty d) (activated d) (rx_processor d) (tx_processor d)
    (interrupt_status d) (host_listener d) (connections d) (next_host_port d) (pending_rx d)
    (irq_evt d) (status_writes d) (notify_count d) (tx_packets d) v (tx_bytes d) (rx_bytes d)
    (poisoned d).
Definition with_tx_bytes (d : VirtioVsockMmio) (v : Z) : VirtioVsockMmio :=
  mkVsock (irq d) (device_id d) (vendor_id d) (version d) (guest_cid d) (status d) (queue_sel d)
    (host_features_sel d) (guest_features_sel d) (guest_features_low d) (guest_features_high d)
    (queues d) (guest_mem d) (host_dirty d) (activated d) (rx_processor d) (tx_processor d)
    (interrupt_status d) (host_listener d) (connections d) (next_host_port d) (pending_rx d)
    (irq_evt d) (status_writes d) (notify_count d) (tx_packets d) (rx_packets d) v (rx_bytes d)
    (poisoned d).
Definition with_rx_bytes (d : VirtioVsockMmio) (v : Z) : VirtioVsockMmio :=
  mkVsock (irq d) (device_id d) (vendor_id d) (version d) (guest_cid d) (status d) (queue_sel d)
    (host_features_sel d) (guest_features_sel d) (guest_features_low d) (guest_features_high d)
    (queues d) (guest_mem d) (host_dirty d) (activated d) (rx_processor d) (tx_processor d)
    (interrupt_status d) (host_listener d) (connections d) (next_host_port d) (pending_rx d)
    (irq_evt d) (status_writes d) (notify_count d) (tx_packets d) (rx_packets d) (tx_bytes d) v
    (poisoned d).
Definition with_poisoned (d : VirtioVsockMmio) (v : list Lock) : VirtioVsockMmio :=
  mkVsock (irq d) (device_id d) (vendor_id d) (version d) (guest_cid d) (status d) (queue_sel d)
    (host_features_sel d) (guest_features_sel d) (guest_features_low d) (guest_features_high d)
    (queues d) (guest_mem d) (host_dirty d) (activated d) (rx_processor d) (tx_processor d)
    (interrupt_status d) (host_listener d) (connections d) (next_host_port d) (pending_rx d)
    (irq_evt d) (status_writes d) (notify_count d) (tx_packets d) (rx_packets d) (tx_bytes d)
    (rx_bytes d) v.

Definition vsock_new (irq guest_cid : Z) : VirtioVsockMmio :=
  mkVsock irq DEVICE_ID_VSOCK 0 2 guest_cid 0 0 0 0 0 0 (replicate QUEUE_COUNT queue_default) None None
    false None None 0 None ∅ HOST_EPHEMERAL_PORT_START [] None 0 0 0 0 0 0 [].

End device.

Arguments VirtioVsockMmio : clear implicits.

(** ** Host streams in memory: what is left to read and what was written. A
    listener answers on one port. *)
Module ExampleSocket.

Record stream := mkStream {
  inbox : list Z;
  outbox : list Z;
}.

Definition read (s : stream) (n : Z) : result (list Z) ErrorKind * stream :=
  match inbox s with
  | [] => (Err WouldBlock, s)
  | _ => (Ok ((fun b => b mod 256) <$> take (Z.to_nat n) (inbox s)),
          mkStream (drop (Z.to_nat n) (inbox s)) (outbox s))
  end.

End ExampleSocket.

#[export] Instance example_stream : HostVsockStream ExampleSocket.stream := {
  stream_read := ExampleSocket.read;
  stream_write_all s bs := (true, ExampleSocket.mkStream (ExampleSocket.inbox s) (ExampleSocket.outbox s ++ bs));
}.

#[export] Instance example_stream_laws : HostVsockStreamLaws ExampleSocket.stream.
Proof.
  split. intros s s' n bs Hn. simpl. unfold ExampleSocket.read. destruct (ExampleSocket.inbox s) as [|b l]; [done|]. intros [= <- <-].
  rewrite length_fmap, length_take. split; [lia|]. apply Forall_fmap, Forall_true. intros x. unfold is_byte. simpl. zlia.
Qed.

#[export] Instance example_listener : HostVsockListener Z ExampleSocket.stream := {
  listener_connect l port := (if l =? port then Some (ExampleSocket.mkStream [] []) else None, l);
}.
