(* ===== verification/Vsock.v ===== *)
(** * The socket device ([virtio/vsock.rs])

    One definition per method, in the order of the source. Methods are
    computations of [Dev] over the device: a poisoned lock fails the device
    and the call, as [try_lock_state] and [lock_state] do. Iteration over the
    connection table, whose order the standard library leaves open, takes the
    order as an argument. Log output has no counterpart. *)

From S2P Require Import Prelude Dirty GuestMem GuestRam VQueue Regs Bus Dev VsockPacket VsockState.

(** [io::Error]s of [connect_guest_stream]. *)
Inductive ConnectError : Type :=
| RequiresReset
| ConnectionCap
| PairFailed
| AddrNotAvailable.

(** [PersistError::Unavailable]. *)
Inductive PersistError : Type :=
| Unavailable.

(** [fold_capacity] with the bound of [read_packet_from_descs]. *)
Fixpoint fold_total (acc : Z) (descs : list (Z * Z)) : option Z :=
  match descs with
  | [] => Some acc
  | (_, len) :: descs' =>
      let?o next := u64_checked_add acc len in
      if next <=? MAX_PACKET_BYTES + VSOCK_HEADER_LEN then fold_total next descs' else None
  end.

(** The ports tried by [connect_guest_stream]: the chosen one and the counter. *)
Fixpoint select_port (n : nat) (taken : Z → bool) (seq : Z) : option Z * Z :=
  match n with
  | O => (None, seq)
  | Datatypes.S n' =>
      let span := HOST_EPHEMERAL_PORT_END - HOST_EPHEMERAL_PORT_START + 1 in
      let port := HOST_EPHEMERAL_PORT_START + (seq - HOST_EPHEMERAL_PORT_START) mod 4294967296 mod span in
      let seq' := u32_fetch_add seq 1 in
      if taken port then select_port n' taken seq' else (Some port, seq')
  end.

(** Both halves of an address register. *)
Definition low_reg (a : Z) : Z := as_u32 a.
Definition high_reg (a : Z) : Z := as_u32 (high_half a).

Section vsock.
Context {M S L : Type} `{!GuestMemoryBackend M} `{!HostVsockStream S} `{!HostVsockListener L S}.

Abbreviation device := (VirtioVsockMmio M S L).
Abbreviation op_ A := (dev device MmioError A).

(** ** Failure and locks *)

Definition fail_device (d : device) : device :=
  with_activated (with_status d (Z.lor (status d) (Z.lor DEVICE_NEEDS_RESET FAILED))) false.

Definition fail_worker (d : device) : device := fail_device d.

Definition is_failed (d : device) : bool :=
  has_bits (status d) (Z.lor DEVICE_NEEDS_RESET FAILED).

Definition ensure_operational : op_ unit :=
  let* d := get in
  if is_failed d then fail DeviceRejected else ret tt.

Definition try_lock_state (l : Lock) : op_ unit :=
  fun d => if decide (l ∈ poisoned d) then Some (Err DeviceRejected, fail_device d) else Some (Ok tt, d).

Definition snapshot_lock (l : Lock) : dev device PersistError unit :=
  fun d => if decide (l ∈ poisoned d) then Some (Err Unavailable, fail_device d) else Some (Ok tt, d).

(** A poisoned lock is entered all the same. *)
Definition lock_state {E : Type} (l : Lock) : dev device E unit :=
  modify (fun d => if decide (l ∈ poisoned d) then fail_device d else d).

(** ** Configuration by the controller *)

Definition set_guest_memory (mem : M) : op_ unit :=
  do* lock_state LGuestMem in modify (fun d => with_guest_mem d (Some mem)).

Definition set_guest_dirty_tracker (dirty : DirtyBitmap.t) : op_ unit :=
  do* lock_state LHostDirty in modify (fun d => with_host_dirty d (Some dirty)).

Definition set_host_listener (listener : L) : op_ unit :=
  do* lock_state LHostListener in modify (fun d => with_host_listener d (Some listener)).

Definition set_irq_evt (evt : Z) : op_ unit :=
  do* lock_state LIrqEvt in modify (fun d => with_irq_evt d (Some evt)).

Definition connection_state (k : ConnectionKey) (c : Connection S) : VsockConnectionState :=
  mkConnState (k_guest_cid k) (k_guest_port k) (k_host_port k) (fwd_cnt c).

(** The states of the connections listed in [order]. *)
Definition connection_states (order : list ConnectionKey) (conns : gmap ConnectionKey (Connection S))
    : list VsockConnectionState :=
  omap (fun k => connection_state k <$> conns !! k) order.

Definition active_connection_states (order : list ConnectionKey) : op_ (list VsockConnectionState) :=
  do* lock_state LConnections in
  let* d := get in
  ret (connection_states order (connections d)).

(** ** Interrupts *)

Definition bump_irq (d : device) : device := with_irq_evt d ((fun n => n + 1) <$> irq_evt d).

Definition reassert_pending_interrupt : op_ unit :=
  fun d =>
    if interrupt_status d =? 0 then Some (Ok tt, d)
    else match try_lock_state LIrqEvt d with
    | Some (Ok _, d') => Some (Ok tt, bump_irq d')
    | Some (Err _, d') => Some (Ok tt, d')
    | None => None
    end.

Definition trigger_interrupt : op_ unit :=
  do* modify (fun d => with_interrupt_status d (Z.lor (interrupt_status d) VIRTIO_MMIO_INT_VRING)) in
  do* try_lock_state LIrqEvt in
  modify bump_irq.

(** ** Queues *)

Definition queue_config (idx : nat) : op_ (option QueueConfig) :=
  do* try_lock_state LQueues in
  let* d := get in
  ret (match queues d !! idx with
       | None => None
       | Some q =>
           if negb (q_ready q) || negb (valid_size q) then None
           else Some (mkQueueConfig (q_size q) (q_desc_table_addr q) (q_avail_ring_addr q)
                        (q_used_ring_addr q) (q_ready q))
       end).

Definition queue_indices (idx : nat) : op_ (Z * Z) :=
  do* try_lock_state LQueues in
  let* d := get in
  ret (match queues d !! idx with
       | Some q => (q_last_avail_idx q, q_last_used_idx q)
       | None => (0, 0)
       end).

(** The processor of a queue, made from the saved indices when there is none. *)
Definition ready_processor (p : option VirtQueueProcessor) (idx : nat) (cfg : QueueConfig)
    : op_ VirtQueueProcessor :=
  match p with
  | None =>
      let* ix := queue_indices idx in
      ret (new_with_indices cfg ix.1 ix.2)
  | Some p => ret (update_config p cfg)
  end.

(** ** Packets *)

Definition enqueue_rx (packet : VsockPacket) : op_ unit :=
  do* try_lock_state LPendingRx in
  let* d := get in
  if MAX_PENDING_RX <=? Z.of_nat (length (pending_rx d)) then ret tt
  else modify (fun d => with_pending_rx d (pending_rx d ++ [packet])).

Definition reply (h : VsockPacketHeader) (op flags fwd_cnt : Z) : op_ unit :=
  enqueue_rx (reply_packet h op flags [] fwd_cnt).

Definition insert_connection (k : ConnectionKey) (c : Connection S) (d : device) : device :=
  with_connections d (<[k := c]> (connections d)).

Definition remove_connection (k : ConnectionKey) (d : device) : device :=
  with_connections d (delete k (connections d)).

Definition handle_request (h : VsockPacketHeader) : op_ unit :=
  if negb (h_dst_cid h =? VSOCK_HOST_CID) then reply h op.RST 0 0
  else
    do* try_lock_state LHostListener in
    let* d := get in
    match host_listener d with
    | None => reply h op.RST 0 0
    | Some listener =>
        let k := key_from_guest h in
        do* try_lock_state LConnections in
        if connection_insert_would_exceed_cap (connections d) k then reply h op.RST 0 0
        else
          let '(answer, listener') := listener_connect listener (h_dst_port h) in
          do* modify (fun d => with_host_listener d (Some listener')) in
          match answer with
          | Some stream =>
              do* try_lock_state LConnections in
              let* d := get in
              if connection_insert_would_exceed_cap (connections d) k then reply h op.RST 0 0
              else
                do* modify (insert_connection k (mkConn stream (h_buf_alloc h) (h_fwd_cnt h) 0 true)) in
                reply h op.RESPONSE 0 0
          | None => reply h op.RST 0 0
          end
    end.

(** [get_mut] on the connection a packet names. *)
Definition update_connection (k : ConnectionKey) (f : Connection S → Connection S) : op_ unit :=
  do* try_lock_state LConnections in
  modify (fun d => with_connections d (alter f k (connections d))).

Definition handle_response (h : VsockPacketHeader) : op_ unit :=
  update_connection (key_from_guest h)
    (fun c => mkConn (stream c) (h_buf_alloc h) (h_fwd_cnt h) (fwd_cnt c) true).

Definition handle_rw (h : VsockPacketHeader) (bs : list Z) : op_ unit :=
  let k := key_from_guest h in
  do* try_lock_state LConnections in
  let* d := get in
  match connections d !! k with
  | Some c =>
      let '(written, stream') := stream_write_all (stream c) bs in
      let c' := mkConn stream' (h_buf_alloc h) (h_fwd_cnt h)
                  (u32_wrapping_add (fwd_cnt c) (data_len bs)) (established c) in
      do* modify (insert_connection k c') in
      if negb written then
        do* modify (remove_connection k) in
        reply h op.RST 0 0
      else ret tt
  | None =>
      do* modify (remove_connection k) in
      reply h op.RST 0 0
  end.

Definition handle_credit_update (h : VsockPacketHeader) : op_ unit :=
  update_connection (key_from_guest h)
    (fun c => mkConn (stream c) (h_buf_alloc h) (h_fwd_cnt h) (fwd_cnt c) (established c)).

Definition handle_credit_request (h : VsockPacketHeader) : op_ unit :=
  do* try_lock_state LConnections in
  let* d := get in
  reply h op.CREDIT_UPDATE 0 (match connections d !! key_from_guest h with Some c => fwd_cnt c | None => 0 end).

Definition handle_shutdown (h : VsockPacketHeader) : op_ unit :=
  do* try_lock_state LConnections in
  do* modify (remove_connection (key_from_guest h)) in
  reply h op.SHUTDOWN (h_flags h) 0.

Definition handle_rst (h : VsockPacketHeader) : op_ unit :=
  do* try_lock_state LConnections in
  modify (remove_connection (key_from_guest h)).

Definition handle_tx_packet (p : VsockPacket) : op_ unit :=
  let h := header p in
  if negb (h_type_ h =? packet_type.STREAM) then reply h op.RST 0 0
  else if h_op h =? op.REQUEST then handle_request h
  else if h_op h =? op.RESPONSE then handle_response h
  else if h_op h =? op.RW then handle_rw h (data p)
  else if h_op h =? op.CREDIT_UPDATE then handle_credit_update h
  else if h_op h =? op.CREDIT_REQUEST then handle_credit_request h
  else if h_op h =? op.SHUTDOWN then handle_shutdown h
  else if h_op h =? op.RST then handle_rst h
  else if h_op h =? op.INVALID then ret tt
  else reply h op.RST 0 0.

(** ** Guest buffers *)

(** The [for] loop of [read_packet_from_descs]. *)
Fixpoint read_descs (m : M) (descs : list (Z * Z)) (buf : list Z) : option (list Z) :=
  match descs with
  | [] => Some buf
  | (addr, len) :: descs' =>
      let?o _ := u64_checked_add (Z.of_nat (length buf)) len in
      let?o bs := gm_read_slice m addr len in
      read_descs m descs' (buf ++ bs)
  end.

Definition read_packet_from_descs (m : M) (descs : list (Z * Z)) : option VsockPacket :=
  let?o _ := fold_total 0 descs in
  let?o buf := read_descs m descs [] in
  packet_from_bytes buf.

Fixpoint write_desc_chain (w : World M) (descs : list (Z * Z)) (bs : list Z) (cursor : Z)
    : bool * World M :=
  let total := Z.of_nat (length bs) in
  match descs with
  | [] => (cursor =? total, w)
  | (addr, len) :: descs' =>
      if total <=? cursor then (cursor =? total, w)
      else
        let take := Z.min (total - cursor) len in
        match u64_checked_add cursor take with
        | None => (false, w)
        | Some next_cursor =>
            match write_mem w (slice (Z.to_nat cursor) (Z.to_nat take) bs) addr with
            | (false, w') => (false, w')
            | (true, w') => write_desc_chain w' descs' bs next_cursor
            end
        end
  end.

(** ** Queue passes *)

(** The closures see the device and [processing_failed]. *)
Definition tx_handler (w : World M) (h : device * bool) (readable writable : list (Z * Z))
    : World M * (device * bool) * option Z :=
  let '(d, failed) := h in
  if is_failed d then (w, h, None)
  else match read_packet_from_descs (w_mem w) readable with
  | None => (w, h, Some 0)
  | Some packet =>
      let d1 := with_tx_packets d (u64_fetch_add (tx_packets d) 1) in
      let d2 := with_tx_bytes d1 (u64_fetch_add (tx_bytes d1) (Z.of_nat (length (data packet)))) in
      match handle_tx_packet packet d2 with
      | Some (Ok _, d3) => (w, (d3, failed), Some 0)
      | Some (Err _, d3) => (w, (d3, true), None)
      | None => (w, (d2, true), None)
      end
  end.

Definition rx_handler (w : World M) (h : device * bool) (readable writable : list (Z * Z))
    : World M * (device * bool) * option Z :=
  let '(d, failed) := h in
  if decide (LPendingRx ∈ poisoned d) then (w, (fail_device d, true), None)
  else match pending_rx d with
  | [] => (w, h, None)
  | packet :: _ =>
      let bytes := packet_to_bytes packet in
      match fold_capacity 0 writable with
      | None => (w, h, Some 0)
      | Some cap =>
          if cap <? Z.of_nat (length bytes) then (w, h, Some 0)
          else match write_desc_chain w writable bytes 0 with
          | (false, w') => (w', h, Some 0)
          | (true, w') =>
              if decide (LPendingRx ∈ poisoned d) then (w', (fail_device d, true), None)
              else
                let d1 := with_pending_rx d (tail (pending_rx d)) in
                let d2 := with_rx_packets d1 (u64_fetch_add (rx_packets d1) 1) in
                let d3 := with_rx_bytes d2 (u64_fetch_add (rx_bytes d2) (Z.of_nat (length (data packet)))) in
                (w', (d3, failed), Some (as_u32 (Z.of_nat (length bytes))))
          end
      end
  end.

(** One pass with a handler over the device: guest memory and the tracker are
    shared with it, so what it leaves of them is put back. The event index is
    never negotiated, and one round of the pass is enough. *)
Definition run_pass (handler : World M → device * bool → list (Z * Z) → list (Z * Z) →
      World M * (device * bool) * option Z)
    (put : device → VirtQueueProcessor → device) (mem : M) (p : VirtQueueProcessor) : op_ (Z * bool) :=
  fun d =>
    match process_queue_descriptors_dirty handler 1 p (mkWorld mem (host_dirty d)) (d, false) with
    | None => None
    | Some (p', w', (d', failed), processed) =>
        Some (Ok (processed, failed), put (with_host_dirty (with_guest_mem d' (Some (w_mem w'))) (w_dirty w')) p')
    end.

Definition process_rx_queue : op_ Z :=
  do* ensure_operational in
  do* try_lock_state LGuestMem in
  let* d := get in
  match guest_mem d with
  | None => ret 0
  | Some mem =>
      do* try_lock_state LHostDirty in
      let* cfg := queue_config (Z.to_nat QUEUE_RX) in
      match cfg with
      | None => do* try_lock_state LPendingRx in ret 0
      | Some cfg =>
          do* try_lock_state LRxProcessor in
          let* p := ready_processor (rx_processor d) (Z.to_nat QUEUE_RX) cfg in
          let* out := run_pass rx_handler (fun d p => with_rx_processor d (Some p)) mem p in
          do* (if 0 <? out.1 then trigger_interrupt else ret tt) in
          do* try_lock_state LPendingRx in
          let* d := get in
          if out.2 || is_failed d then fail DeviceRejected else ret out.1
      end
  end.

Definition process_tx_queue : op_ Z :=
  do* ensure_operational in
  do* try_lock_state LGuestMem in
  let* d := get in
  match guest_mem d with
  | None => ret 0
  | Some mem =>
      do* try_lock_state LHostDirty in
      let* cfg := queue_config (Z.to_nat QUEUE_TX) in
      match cfg with
      | None => ret 0
      | Some cfg =>
          do* try_lock_state LTxProcessor in
          let* p := ready_processor (tx_processor d) (Z.to_nat QUEUE_TX) cfg in
          let* out := run_pass tx_handler (fun d p => with_tx_processor d (Some p)) mem p in
          do* (if 0 <? out.1 then
                 do* trigger_interrupt in
                 do* process_rx_queue in ret tt
               else ret tt) in
          let* d := get in
          if out.2 || is_failed d then fail DeviceRejected else ret out.1
      end
  end.

(** ** Streams of the host *)

(** One connection of [pump_host_streams]: what to send and whether it closes. *)
Definition pump_one (k : ConnectionKey) (c : Connection S)
    : Connection S * option VsockPacket * bool :=
  if negb (established c) then (c, None, false)
  else
    let '(r, stream') := stream_read (stream c) HOST_READ_CHUNK in
    let c' := mkConn stream' (peer_buf_alloc c) (peer_fwd_cnt c) (fwd_cnt c) (established c) in
    match r with
    | Ok [] =>
        (c', Some (host_packet k op.SHUTDOWN (Z.lor shutdown_flags.RCV shutdown_flags.SEND) [] (fwd_cnt c)), true)
    | Ok bs => (c', Some (host_packet k op.RW 0 bs (fwd_cnt c)), false)
    | Err WouldBlock => (c', None, false)
    | Err Interrupted => (c', None, false)
    | Err OtherKind => (c', Some (host_packet k op.RST 0 [] (fwd_cnt c)), true)
    end.

(** The loop over the table in the given order: the table with the streams as
    they were left, the packets and the closed connections. *)
Fixpoint pump_loop (order : list ConnectionKey) (conns : gmap ConnectionKey (Connection S))
    : gmap ConnectionKey (Connection S) * list VsockPacket * list ConnectionKey :=
  match order with
  | [] => (conns, [], [])
  | k :: order' =>
      match conns !! k with
      | None => pump_loop order' conns
      | Some c =>
          let '(c', packet, close) := pump_one k c in
          let '(conns', packets, closed) := pump_loop order' (<[k := c']> conns) in
          (conns', option_list packet ++ packets, if close then k :: closed else closed)
      end
  end.

Definition pump_host_streams (order : list ConnectionKey) : op_ Z :=
  do* ensure_operational in
  do* try_lock_state LConnections in
  let* d := get in
  let '(conns, packets, closed) := pump_loop order (connections d) in
  do* modify (fun d => with_connections d (foldr delete conns closed)) in
  do* for_each enqueue_rx packets in
  do* process_rx_queue in
  let* d := get in
  if is_failed d then fail DeviceRejected else ret (Z.of_nat (length packets)).

(** [UnixStream::pair] and [set_nonblocking] answer with the device's end of
    the new pair, or fail. *)
Definition connect_guest_stream (guest_port : Z) (pair : option S) : dev device ConnectError unit :=
  let reset_error {A : Type} (c : op_ A) : dev device ConnectError A := map_err (fun _ => RequiresReset) c in
  do* reset_error ensure_operational in
  do* reset_error (try_lock_state LConnections) in
  let* d := get in
  if MAX_CONNECTIONS <=? Z.of_nat (base.size (connections d)) then fail ConnectionCap
  else match pair with
  | None => fail PairFailed
  | Some device_stream =>
      do* reset_error (try_lock_state LConnections) in
      let* d := get in
      if MAX_CONNECTIONS <=? Z.of_nat (base.size (connections d)) then fail ConnectionCap
      else
        let taken port := bool_decide (is_Some (connections d !! mkKey (guest_cid d) guest_port port)) in
        let span := Z.to_nat (HOST_EPHEMERAL_PORT_END - HOST_EPHEMERAL_PORT_START + 1) in
        let '(selected, seq) := select_port span taken (next_host_port d) in
        do* modify (fun d => with_next_host_port d seq) in
        match selected with
        | None => fail AddrNotAvailable
        | Some host_port =>
            do* modify (insert_connection (mkKey (guest_cid d) guest_port host_port)
                          (mkConn device_stream DEFAULT_BUF_ALLOC 0 0 false)) in
            do* reset_error (enqueue_rx (packet_new (mkVsockHeader VSOCK_HOST_CID (guest_cid d) host_port
                  guest_port 0 packet_type.STREAM op.REQUEST 0 DEFAULT_BUF_ALLOC 0) [])) in
            do* reset_error process_rx_queue in
            ret tt
        end
  end.

(** ** Snapshots *)

Definition apply_transport_state (st : VirtioVsockMmioState) : op_ unit :=
  do* modify (fun d =>
    with_guest_features_high (with_guest_features_low (with_guest_features_sel (with_host_features_sel
      (with_queue_sel (with_status d (s_status st)) (s_queue_sel st)) (s_host_features_sel st))
      (s_guest_features_sel st)) (s_guest_features_low st)) (s_guest_features_high st)) in
  do* lock_state LQueues in
  do* modify (fun d => with_queues d (s_queues st)) in
  do* lock_state LRxProcessor in
  do* modify (fun d => with_rx_processor d None) in
  do* lock_state LTxProcessor in
  do* modify (fun d => with_tx_processor d None) in
  do* lock_state LPendingRx in
  do* modify (fun d => with_pending_rx d []) in
  do* lock_state LConnections in
  do* modify (fun d => with_connections d ∅) in
  modify (fun d => with_interrupt_status (with_activated d (s_activated st)) (s_interrupt_status st)).

Definition restore_transport_state (st : VirtioVsockMmioState) : op_ unit := apply_transport_state st.

Definition reset_restored_connections (conns : list VsockConnectionState) : op_ Z :=
  do* ensure_operational in
  match conns with
  | [] => ret 0
  | _ =>
      do* try_lock_state LConnections in
      do* modify (fun d => with_connections d (foldl (fun live c => delete (key c) live) (connections d) conns)) in
      do* for_each (fun c => enqueue_rx (host_packet (key c) op.RST 0 [] (cs_fwd_cnt c))) conns in
      do* process_rx_queue in
      ret (Z.of_nat (length conns))
  end.

(** The indices of a queue as its processor has them. *)
Definition save_indices (p : option VirtQueueProcessor) (idx : nat) (qs : list QueueState) : list QueueState :=
  match p with
  | Some p => alter (set_last_indices (VQueue.last_avail_idx p) (VQueue.last_used_idx p)) idx qs
  | None => qs
  end.

Definition snapshot_state (order : list ConnectionKey) : dev device PersistError VirtioVsockMmioState :=
  let* d := get in
  if is_failed d then fail Unavailable
  else
    do* snapshot_lock LQueues in
    do* snapshot_lock LRxProcessor in
    let qs := save_indices (rx_processor d) (Z.to_nat QUEUE_RX) (queues d) in
    do* snapshot_lock LTxProcessor in
    let qs := save_indices (tx_processor d) (Z.to_nat QUEUE_TX) qs in
    do* snapshot_lock LConnections in
    ret (mkVsockState (status d) (queue_sel d) (host_features_sel d) (guest_features_sel d)
           (guest_features_low d) (guest_features_high d) qs (activated d) (interrupt_status d)
           (connection_states order (connections d))).

(** ** Registers *)

(** Every lock of the device is made usable again before the fields are reset. *)
Definition reset (d : device) : device :=
  let d := with_poisoned d [] in
  let d := with_activated (with_status d 0) false in
  let d := with_guest_features_low (with_guest_features_sel (with_host_features_sel d 0) 0) 0 in
  let d := with_interrupt_status (with_queue_sel (with_guest_features_high d 0) 0) 0 in
  let d := with_queues d ((fun _ => queue_default) <$> queues d) in
  let d := with_tx_processor (with_rx_processor d None) None in
  with_connections (with_pending_rx d []) ∅.

Definition read_config (d : device) (off len : Z) : Z :=
  match u64_checked_sub off reg.CONFIG with
  | None => 0
  | Some cfg_off =>
      if 8 <=? cfg_off then 0
      else
        let copy_len := Z.min (Z.min (8 - cfg_off) len) 8 in
        le_decode (copy_from_slice (replicate 8 0) 0
          (slice (Z.to_nat cfg_off) (Z.to_nat copy_len) (le_encode 8 (guest_cid d))))
  end.

Definition on_queue (f : QueueState → Z) : op_ Z :=
  do* lock_state LQueues in
  let* d := get in
  ret (match queues d !! Z.to_nat (queue_sel d) with Some q => f q | None => 0 end).

Definition q_write (f : QueueState → QueueState) : op_ unit :=
  do* lock_state LQueues in
  modify (fun d => with_queues d (alter f (Z.to_nat (queue_sel d)) (queues d))).

Definition mmio_read (off len : Z) : op_ Z :=
  let* d := get in
  if (reg.CONFIG <=? off) && (off <? reg.CONFIG + 8) then ret (read_config d off len)
  else if off =? reg.MAGIC_VALUE then ret MMIO_MAGIC
  else if off =? reg.VERSION then ret (version d)
  else if off =? reg.DEVICE_ID then ret (device_id d)
  else if off =? reg.VENDOR_ID then ret (vendor_id d)
  else if off =? reg.HOST_FEATURES then
    ret (if host_features_sel d =? 0 then VSOCK_FEATURES_LOW
         else if host_features_sel d =? 1 then VSOCK_FEATURES_HIGH else 0)
  else if off =? reg.QUEUE_NUM_MAX then
    ret (if queue_sel d <? Z.of_nat QUEUE_COUNT then QUEUE_SIZE_MAX else 0)
  else if off =? reg.STATUS then ret (status d)
  else if off =? reg.INTERRUPT_STATUS then ret (interrupt_status d)
  else if off =? reg.CONFIG_GENERATION then ret 0
  else if off =? reg.QUEUE_NUM then on_queue q_size
  else if off =? reg.QUEUE_READY then on_queue (fun q => Z.b2z (q_ready q && valid_size q))
  else if off =? reg.QUEUE_DESC_LOW then on_queue (fun q => low_reg (q_desc_table_addr q))
  else if off =? reg.QUEUE_DESC_HIGH then on_queue (fun q => high_reg (q_desc_table_addr q))
  else if off =? reg.QUEUE_DRIVER_LOW then on_queue (fun q => low_reg (q_avail_ring_addr q))
  else if off =? reg.QUEUE_DRIVER_HIGH then on_queue (fun q => high_reg (q_avail_ring_addr q))
  else if off =? reg.QUEUE_DEVICE_LOW then on_queue (fun q => low_reg (q_used_ring_addr q))
  else if off =? reg.QUEUE_DEVICE_HIGH then on_queue (fun q => high_reg (q_used_ring_addr q))
  else ret 0.

Definition write_status (val : Z) : op_ unit :=
  do* modify (fun d => with_status_writes d (u64_fetch_add (status_writes d) 1)) in
  if val =? 0 then modify reset
  else
    do* modify (fun d => with_status d val) in
    if has_bits val DRIVER_OK then modify (fun d => with_activated d true) else ret tt.

Definition write_notify (val : Z) : op_ unit :=
  do* modify (fun d => with_notify_count d (u64_fetch_add (notify_count d) 1)) in
  if val =? QUEUE_RX then do* process_rx_queue in ret tt
  else if val =? QUEUE_TX then do* process_tx_queue in ret tt
  else ret tt.

Definition mmio_write (off raw : Z) : op_ unit :=
  let val := as_u32 raw in
  let* d := get in
  if is_failed d && negb ((off =? reg.STATUS) && (val =? 0)) then fail DeviceRejected
  else if off =? reg.STATUS then write_status val
  else if off =? reg.HOST_FEATURES_SEL then modify (fun d => with_host_features_sel d val)
  else if off =? reg.GUEST_FEATURES_SEL then modify (fun d => with_guest_features_sel d val)
  else if off =? reg.GUEST_FEATURES then
    if guest_features_sel d =? 0 then modify (fun d => with_guest_features_low d val)
    else if guest_features_sel d =? 1 then modify (fun d => with_guest_features_high d val)
    else ret tt
  else if off =? reg.QUEUE_SEL then modify (fun d => with_queue_sel d val)
  else if off =? reg.QUEUE_NUM then q_write (set_size val)
  else if off =? reg.QUEUE_DESC_LOW then q_write (set_desc (fun a => set_low a val))
  else if off =? reg.QUEUE_DESC_HIGH then q_write (set_desc (fun a => set_high a val))
  else if off =? reg.QUEUE_DRIVER_LOW then q_write (set_driver (fun a => set_low a val))
  else if off =? reg.QUEUE_DRIVER_HIGH then q_write (set_driver (fun a => set_high a val))
  else if off =? reg.QUEUE_DEVICE_LOW then q_write (set_device (fun a => set_low a val))
  else if off =? reg.QUEUE_DEVICE_HIGH then q_write (set_device (fun a => set_high a val))
  else if off =? reg.QUEUE_READY then q_write (set_ready (negb (val =? 0)))
  else if off =? reg.QUEUE_NOTIFY then write_notify val
  else if off =? reg.INTERRUPT_ACK then
    modify (fun d => with_interrupt_status d (clear_bits (interrupt_status d) val))
  else ret tt.

End vsock.
