(* ===== verification/VsockInv.v ===== *)
(** * The socket device is bounded and never stuck

    Whatever the guest writes to the registers and to its memory, whatever the
    host streams answer and whichever thread dies with a lock, every operation
    of the device completes, and the connection table and the queue of
    packets to the guest stay within their caps. *)

From S2P Require Import Prelude Dirty GuestMem GuestRam VQueue VQueueWalk VQueueRun VQueuePeek VQueuePass Regs Bus Dev VsockPacket VsockState Vsock.

(** The indices of a queue are 16-bit fields. *)
Definition queue_typed (q : QueueState) : Prop := in_u16 (q_last_avail_idx q) ∧ in_u16 (q_last_used_idx q).

(** What the device may hold. *)
Record vsock_ok {M S L : Type} (d : VirtioVsockMmio M S L) : Prop := {
  vo_connections : Z.of_nat (base.size (connections d)) ≤ MAX_CONNECTIONS;
  vo_pending : Z.of_nat (length (pending_rx d)) ≤ MAX_PENDING_RX;
  vo_packets : Forall (fun p => Z.of_nat (length (data p)) ≤ HOST_READ_CHUNK) (pending_rx d);
  vo_queues : Forall queue_typed (queues d);
  vo_rx : from_option processor_ok True (rx_processor d);
  vo_tx : from_option processor_ok True (tx_processor d);
}.

(** Everything that happens to the device: accesses of the guest, calls of the
    controller, and a thread that panics while it holds a lock. Guest memory
    changes between any two of them, which [SetMemory] covers too. *)
Inductive event (M S L : Type) : Type :=
| Read (off len : Z)
| Write (off val : Z)
| Pump (order : list ConnectionKey)
| Connect (guest_port : Z) (ends : option S)
| Restore (st : VirtioVsockMmioState)
| ResetConnections (conns : list VsockConnectionState)
| Snapshot (order : list ConnectionKey)
| SetMemory (mem : M)
| SetTracker (dirty : DirtyBitmap.t)
| SetListener (listener : L)
| SetIrqEvt (evt : Z)
| Reassert
| FailWorker
| Poison (l : Lock).
Arguments Read {M S L}.
Arguments Write {M S L}.
Arguments Pump {M S L}.
Arguments Connect {M S L}.
Arguments Restore {M S L}.
Arguments ResetConnections {M S L}.
Arguments Snapshot {M S L}.
Arguments SetMemory {M S L}.
Arguments SetTracker {M S L}.
Arguments SetListener {M S L}.
Arguments SetIrqEvt {M S L}.
Arguments Reassert {M S L}.
Arguments FailWorker {M S L}.
Arguments Poison {M S L}.

(** A saved state has 16-bit indices; its queues are otherwise arbitrary. *)
Definition event_typed {M S L : Type} (e : event M S L) : Prop :=
  match e with
  | Restore st => Forall queue_typed (s_queues st)
  | _ => True
  end.

Section events.
Context {M S L : Type} `{!GuestMemoryBackend M} `{!HostVsockStream S} `{!HostVsockListener L S}.

(** Runs a computation for its effect on the device. *)
Definition state_of {E A : Type} (c : dev (VirtioVsockMmio M S L) E A) (d : VirtioVsockMmio M S L)
    : option (VirtioVsockMmio M S L) := snd <$> c d.

Definition run_event (e : event M S L) (d : VirtioVsockMmio M S L) : option (VirtioVsockMmio M S L) :=
  match e with
  | Read off len => state_of (mmio_read off len) d
  | Write off val => state_of (mmio_write off val) d
  | Pump order => state_of (pump_host_streams order) d
  | Connect port ends => state_of (connect_guest_stream port ends) d
  | Restore st => state_of (restore_transport_state st) d
  | ResetConnections conns => state_of (reset_restored_connections conns) d
  | Snapshot order => state_of (snapshot_state order) d
  | SetMemory mem => state_of (set_guest_memory mem) d
  | SetTracker dirty => state_of (set_guest_dirty_tracker dirty) d
  | SetListener listener => state_of (set_host_listener listener) d
  | SetIrqEvt evt => state_of (set_irq_evt evt) d
  | Reassert => state_of reassert_pending_interrupt d
  | FailWorker => Some (fail_worker d)
  | Poison l => Some (with_poisoned d (l :: poisoned d))
  end.

Fixpoint run_events (es : list (event M S L)) (d : VirtioVsockMmio M S L)
    : option (VirtioVsockMmio M S L) :=
  match es with
  | [] => Some d
  | e :: es' => let?o d' := run_event e d in run_events es' d'
  end.

End events.

(** ** Each operation keeps the bounds *)
Section keeps.
Context {M S L : Type} `{!GuestMemoryBackend M} `{!GuestMemoryLaws M}
  `{!HostVsockStream S} `{!HostVsockStreamLaws S} `{!HostVsockListener L S}.
Implicit Types d : VirtioVsockMmio M S L.

Abbreviation keep c := (keeps (St:=VirtioVsockMmio M S L) vsock_ok c).

(** A setter of a field the bounds do not mention. *)
Ltac setter := let H := fresh in intros H; destruct H; by split.

Lemma fail_device_ok d : vsock_ok d → vsock_ok (fail_device d).
Proof. setter. Qed.

Lemma keep_try_lock l : keep (try_lock_state l).
Proof.
  intros d Hd. unfold wp, try_lock_state. case_decide; eexists _, _; (split; [done|]); [|done].
  by apply fail_device_ok.
Qed.

Lemma keep_snapshot_lock l : keep (snapshot_lock l).
Proof.
  intros d Hd. unfold wp, snapshot_lock. case_decide; eexists _, _; (split; [done|]); [|done].
  by apply fail_device_ok.
Qed.

Lemma keep_lock_state {E} l : keep (lock_state (E:=E) l).
Proof. apply keeps_modify. intros d Hd. case_decide; [by apply fail_device_ok|done]. Qed.

Lemma keep_operational : keep ensure_operational.
Proof. apply keeps_get. intros d Hd. case_match; [by apply wp_fail|by apply wp_ret]. Qed.

Lemma keep_trigger_interrupt : keep trigger_interrupt.
Proof.
  apply keeps_bind; [apply keeps_modify; intros ?; setter|]. intros _.
  apply keeps_bind; [apply keep_try_lock|]. intros _. apply keeps_modify. intros ?. setter.
Qed.

Lemma keep_enqueue p : Z.of_nat (length (data p)) ≤ HOST_READ_CHUNK → keep (enqueue_rx p).
Proof.
  intros Hp. apply keeps_bind; [apply keep_try_lock|]. intros _. apply keeps_get. intros d Hd.
  case_goal; [by apply wp_ret|]. bool_to_prop. apply wp_modify. destruct Hd. split; cbn; try done.
  - rewrite length_app. cbn. unfold MAX_PENDING_RX in *. lia.
  - by apply Forall_app_2; [|constructor].
Qed.

Lemma keep_reply h o fl f : keep (reply h o fl f).
Proof. by apply keep_enqueue. Qed.

Lemma insert_connection_ok k c d :
  vsock_ok d → connection_insert_would_exceed_cap (connections d) k = false →
  vsock_ok (insert_connection k c d).
Proof.
  intros [] Hc. split; cbn; try done. unfold connection_insert_would_exceed_cap in Hc.
  destruct (connections d !! k) eqn:E.
  - by rewrite map_size_insert_Some by eauto.
  - rewrite map_size_insert_None by done. rewrite bool_decide_true, andb_true_r in Hc by done.
    bool_to_prop. lia.
Qed.

Lemma replace_connection_ok k c c0 d :
  vsock_ok d → connections d !! k = Some c0 → vsock_ok (insert_connection k c d).
Proof. intros [] Hc. split; cbn; try done. by rewrite map_size_insert_Some by eauto. Qed.

Lemma size_delete_le {A} (m : gmap ConnectionKey A) k : (base.size (delete k m) ≤ base.size m)%nat.
Proof. destruct (m !! k) eqn:E; [rewrite map_size_delete_Some by eauto; lia|by rewrite delete_id]. Qed.

Lemma remove_connection_ok k d : vsock_ok d → vsock_ok (remove_connection k d).
Proof. intros []. split; cbn; try done. pose proof (size_delete_le (connections d) k). lia. Qed.

Lemma keep_update_connection k f : keep (update_connection k f).
Proof.
  apply keeps_bind; [apply keep_try_lock|]. intros _. apply keeps_modify. intros d [].
  split; cbn; try done. by rewrite <- size_dom, dom_alter_L, size_dom.
Qed.

(** A lock taken at a known state: either the device fails or nothing changes. *)
Lemma wp_locked {B} l (k : unit → dev _ _ B) d :
  vsock_ok d → wp (k tt) (fun _ => vsock_ok) d → wp (dev_bind (try_lock_state l) k) (fun _ => vsock_ok) d.
Proof.
  intros Hd Hk. apply wp_bind. unfold wp at 1, try_lock_state.
  case_decide; eexists _, _; (split; [done|]); [by apply fail_device_ok|done].
Qed.

(** From a fixed state to every state. *)
Ltac to_keep := match goal with |- wp ?c _ ?s => apply (fun H : keep c => H s); [|done] end.

Lemma keep_handle_request h : keep (handle_request h).
Proof.
  unfold handle_request. case_goal; [apply keep_reply|].
  apply keeps_bind; [apply keep_try_lock|]. intros _. apply keeps_get. intros d Hd.
  destruct (host_listener d) as [lis|]; [|by apply keep_reply].
  apply wp_locked; [done|]. case_goal; [by apply keep_reply|].
  destruct (listener_connect lis (h_dst_port h)) as [[st|] lis']; apply wp_bind, wp_modify;
    (assert (vsock_ok (with_host_listener d (Some lis'))) as Hd' by (revert Hd; setter)); [|by apply keep_reply].
  apply wp_locked; [done|]. apply wp_get. case_goal; [by apply keep_reply|].
  apply wp_bind, wp_modify, keep_reply. by apply insert_connection_ok.
Qed.

Lemma keep_handle_rw h bs : keep (handle_rw h bs).
Proof.
  apply keeps_bind; [apply keep_try_lock|]. intros _. apply keeps_get. intros d Hd.
  destruct (connections d !! key_from_guest h) as [c|] eqn:Ec.
  - destruct (stream_write_all (stream c) bs) as [written st]. apply wp_bind, wp_modify.
    assert (∀ c', vsock_ok (insert_connection (key_from_guest h) c' d)) as Hi by (intros; by eapply replace_connection_ok).
    destruct written; cbn [negb]; [by apply wp_ret|]. apply wp_bind, wp_modify, keep_reply. by apply remove_connection_ok.
  - apply wp_bind, wp_modify, keep_reply. by apply remove_connection_ok.
Qed.

Lemma keep_handle_credit_request h : keep (handle_credit_request h).
Proof.
  apply keeps_bind; [apply keep_try_lock|]. intros _. apply keeps_get. intros d Hd. by apply keep_reply.
Qed.

Lemma keep_handle_shutdown h : keep (handle_shutdown h).
Proof.
  apply keeps_bind; [apply keep_try_lock|]. intros _.
  apply keeps_bind; [apply keeps_modify, remove_connection_ok|]. intros _. apply keep_reply.
Qed.

Lemma keep_handle_rst h : keep (handle_rst h).
Proof. apply keeps_bind; [apply keep_try_lock|]. intros _. apply keeps_modify, remove_connection_ok. Qed.

Hint Resolve keep_reply keep_handle_request keep_handle_rw keep_handle_credit_request keep_handle_shutdown
  keep_handle_rst keep_update_connection : tarit.

Lemma keep_handle_tx_packet p : keep (handle_tx_packet p).
Proof. unfold handle_tx_packet, handle_response, handle_credit_update. keeps_cases; auto with tarit. Qed.

(** ** Queue passes *)

Lemma tx_handler_ok w (h : VirtioVsockMmio M S L * bool) r wr : vsock_ok h.1 → vsock_ok (tx_handler w h r wr).1.2.1.
Proof.
  destruct h as [d f]. cbn. intros Hd. unfold tx_handler. case_goal; [done|].
  destruct (read_packet_from_descs (w_mem w) r) as [p|]; [|done].
  match goal with |- context [handle_tx_packet p ?x] =>
    destruct (keep_handle_tx_packet p x) as (res & d' & -> & Hd'); [revert Hd; setter|] end.
  by destruct res.
Qed.

Lemma rx_handler_ok w (h : VirtioVsockMmio M S L * bool) r wr : vsock_ok h.1 → vsock_ok (rx_handler w h r wr).1.2.1.
Proof.
  destruct h as [d f]. cbn. intros Hd. unfold rx_handler. case_decide; [by apply fail_device_ok|].
  destruct (pending_rx d) as [|p ps] eqn:Ep; [done|]. destruct (fold_capacity 0 wr); [|done].
  case_goal; [done|]. destruct (write_desc_chain w wr _ 0) as [[] w']; [|done]. cbn.
  destruct Hd. rewrite Ep in *. split; cbn; try done.
  - cbn in *. lia.
  - by eapply Forall_cons.
Qed.

Lemma keep_run_pass handler put mem p :
  (∀ w h r wr, vsock_ok h.1 → vsock_ok (handler w h r wr).1.2.1) →
  (∀ d p, vsock_ok d → processor_ok p → vsock_ok (put d p)) → processor_ok p →
  keep (run_pass handler put mem p).
Proof.
  intros Hh Hput Hp d Hd.
  destruct (descriptors_total handler (fun h => vsock_ok h.1) Hh p (mkWorld mem (host_dirty d)) (d, false) Hp Hd)
    as (p' & w' & [d' f] & k & Hx & Hp' & Hd' & _).
  eexists _, _. unfold run_pass. rewrite Hx. split; [done|]. apply Hput; [|done].
  cbn in Hd'. revert Hd'. setter.
Qed.

Lemma wp_ready_processor po i c d :
  vsock_ok d → from_option processor_ok True po →
  wp (ready_processor po i c)
    (fun r d' => vsock_ok d' ∧ match r with Ok p => processor_ok p | Err _ => True end) d.
Proof.
  intros Hd Hpo. destruct po as [p|]; [apply wp_ret; auto with tarit|].
  unfold ready_processor, queue_indices. apply wp_bind, wp_bind. unfold wp at 1, try_lock_state.
  case_decide; eexists _, _; (split; [done|]); [split; [by apply fail_device_ok|done]|].
  apply wp_get, wp_ret, wp_ret. split; [done|]. apply new_with_indices_ok;
    (destruct (queues d !! i) as [q|] eqn:Eq; [|done]);
    by apply (Forall_lookup_1 _ _ _ _ (vo_queues _ Hd) Eq).
Qed.

Lemma keep_pass po i cfg handler put mem (k : Z * bool → dev _ _ Z) :
  from_option processor_ok True po →
  (∀ w h r wr, vsock_ok h.1 → vsock_ok (handler w h r wr).1.2.1) →
  (∀ d p, vsock_ok d → processor_ok p → vsock_ok (put d p)) → (∀ out, keep (k out)) →
  keep (let* p := ready_processor po i cfg in let* out := run_pass handler put mem p in k out).
Proof.
  intros Hpo Hh Hput Hk d Hd. apply wp_bind. eapply wp_mono; [by apply wp_ready_processor|].
  intros [p|] d' [Hd' Hp]; [|done]. to_keep. apply keeps_bind; [by apply keep_run_pass|done].
Qed.

Lemma keep_queue_config i : keep (queue_config i).
Proof. apply keeps_bind; [apply keep_try_lock|]. intros _. apply keeps_get. intros d Hd. by apply wp_ret. Qed.

Hint Resolve keep_try_lock keep_operational keep_queue_config keep_trigger_interrupt : tarit.

Lemma keep_verdict (out : Z * bool) :
  keep (let* d := get in if out.2 || is_failed d then fail DeviceRejected else ret out.1).
Proof. apply keeps_get. intros d Hd. case_goal; [by apply wp_fail|by apply wp_ret]. Qed.

Lemma keep_process_rx_queue : keep process_rx_queue.
Proof.
  apply keeps_bind; [auto with tarit|]. intros _. apply keeps_bind; [auto with tarit|]. intros _.
  apply keeps_get. intros d Hd. destruct (guest_mem d) as [mem|]; [|by apply wp_ret].
  pose proof (vo_rx _ Hd) as Hp. to_keep. apply keeps_bind; [auto with tarit|]. intros _.
  apply keeps_bind; [auto with tarit|]. intros [cfg|]; (apply keeps_bind; [auto with tarit|]; intros _);
    [|auto with tarit].
  apply keep_pass; [done|apply rx_handler_ok|by intros ?? []; split|]. intros out.
  apply keeps_bind; [auto with tarit|]. intros _. apply keeps_bind; [auto with tarit|]. intros _. apply keep_verdict.
Qed.

Lemma keep_process_tx_queue : keep process_tx_queue.
Proof.
  apply keeps_bind; [auto with tarit|]. intros _. apply keeps_bind; [auto with tarit|]. intros _.
  apply keeps_get. intros d Hd. destruct (guest_mem d) as [mem|]; [|by apply wp_ret].
  pose proof (vo_tx _ Hd) as Hp. to_keep. apply keeps_bind; [auto with tarit|]. intros _.
  apply keeps_bind; [auto with tarit|]. intros [cfg|]; [|auto with tarit].
  apply keeps_bind; [auto with tarit|]. intros _.
  apply keep_pass; [done|apply tx_handler_ok|by intros ?? []; split|]. intros out.
  apply keeps_bind; [|intros _; apply keep_verdict]. apply keeps_if; [|auto with tarit].
  apply keeps_bind; [auto with tarit|]. intros _. apply keeps_bind; [apply keep_process_rx_queue|]. auto with tarit.
Qed.

(** ** Streams of the host *)

Lemma pump_one_ok k (c : Connection S) c' p close :
  pump_one k c = (c', Some p, close) → Z.of_nat (length (data p)) ≤ HOST_READ_CHUNK.
Proof.
  unfold pump_one. case_goal; [done|].
  destruct (stream_read (stream c) HOST_READ_CHUNK) as [[[|b bs]|[]] st] eqn:Er; intros [= <- <- <-];
    unfold HOST_READ_CHUNK in *; cbn [data host_packet packet_new length]; try lia.
  by destruct (stream_read_bound (stream c) st 4096 (b :: bs) ltac:(lia) Er).
Qed.

Lemma pump_loop_ok order : ∀ (conns : gmap ConnectionKey (Connection S)) conns' packets closed,
  pump_loop order conns = (conns', packets, closed) →
  base.size conns' = base.size conns ∧
  Forall (fun p => Z.of_nat (length (data p)) ≤ HOST_READ_CHUNK) packets.
Proof.
  induction order as [|k order IH]; intros conns conns' packets closed; cbn [pump_loop].
  { intros [= <- <- <-]. split; [done|constructor]. }
  destruct (conns !! k) as [c|] eqn:Ec; [|apply IH].
  destruct (pump_one k c) as [[c' p] close] eqn:Ep.
  destruct (pump_loop order (<[k:=c']> conns)) as [[conns1 ps] cl] eqn:El. intros [= <- <- <-].
  destruct (IH _ _ _ _ El) as [Hs Hf]. split.
  - by rewrite Hs, map_size_insert_Some by eauto.
  - apply Forall_app_2; [|done]. destruct p as [p|]; [|constructor]. constructor; [|constructor]. by eapply pump_one_ok.
Qed.

Lemma with_connections_ok d conns :
  vsock_ok d → (base.size conns ≤ base.size (connections d))%nat → vsock_ok (with_connections d conns).
Proof. intros [] Hs. split; cbn; try done. lia. Qed.

Lemma size_foldr_delete (ks : list ConnectionKey) (m : gmap ConnectionKey (Connection S)) :
  (base.size (foldr delete m ks) ≤ base.size m)%nat.
Proof. induction ks as [|k ks IH]; [done|]. cbn. pose proof (size_delete_le (foldr delete m ks) k). lia. Qed.

Lemma keep_enqueue_all {A} (f : A → VsockPacket) l :
  Forall (fun a => Z.of_nat (length (data (f a))) ≤ HOST_READ_CHUNK) l → keep (for_each (fun a => enqueue_rx (f a)) l).
Proof. intros Hf. apply keeps_for_each. intros a Ha. apply keep_enqueue. rewrite Forall_forall in Hf. auto. Qed.

Lemma keep_pump order : keep (pump_host_streams order).
Proof.
  apply keeps_bind; [auto with tarit|]. intros _. apply keeps_bind; [auto with tarit|]. intros _.
  apply keeps_get. intros d Hd. destruct (pump_loop order (connections d)) as [[conns ps] closed] eqn:Ep.
  destruct (pump_loop_ok _ _ _ _ _ Ep) as [Hs Hps].
  apply wp_bind, wp_modify. pose proof (size_foldr_delete closed conns) as Hle.
  assert (vsock_ok (with_connections d (foldr delete conns closed))) as Hd' by (apply with_connections_ok; [done|lia]).
  to_keep. apply keeps_bind; [by apply (keep_enqueue_all id)|]. intros _.
  apply keeps_bind; [apply keep_process_rx_queue|]. intros _. apply keeps_get. intros d1 Hd1.
  case_goal; [by apply wp_fail|by apply wp_ret].
Qed.

Lemma keep_connect port ends : keep (connect_guest_stream port ends).
Proof.
  apply keeps_bind; [auto with tarit|]. intros _. apply keeps_bind; [auto with tarit|]. intros _.
  apply keeps_get. intros d0 Hd0. case_goal; [by apply wp_fail|]. destruct ends as [st|]; [|by apply wp_fail].
  to_keep. apply keeps_bind; [auto with tarit|]. intros _.
  apply keeps_get. intros d Hd. case_goal; [by apply wp_fail|]. bool_to_prop.
  cbv zeta. destruct (select_port _ _ (next_host_port d)) as [[p|] seq] eqn:Es; apply wp_bind, wp_modify;
    (assert (vsock_ok (with_next_host_port d seq)) as Hd' by (revert Hd; setter)); [|by apply wp_fail].
  apply wp_bind, wp_modify. set (d1 := insert_connection _ _ _).
  assert (vsock_ok d1) as Hd1.
  { apply insert_connection_ok; [done|]. unfold connection_insert_would_exceed_cap. cbn [connections].
    rewrite (proj2 (Z.leb_gt _ _)) by done. done. }
  to_keep. apply keeps_bind; [apply keeps_map_err, keep_enqueue; done|]. intros _.
  apply keeps_bind; [apply keeps_map_err, keep_process_rx_queue|]. auto with tarit.
Qed.

(** ** Snapshots *)

Hint Resolve keep_lock_state keep_snapshot_lock : tarit.

Lemma keep_restore st : Forall queue_typed (s_queues st) → keep (apply_transport_state st).
Proof.
  intros Hq. unfold apply_transport_state.
  repeat (apply keeps_bind; [first [apply keep_lock_state|apply keeps_modify; by intros ? []; split]|intros _]).
  apply keeps_modify. intros ?. setter.
Qed.

Lemma keep_reset_connections conns : keep (reset_restored_connections conns).
Proof.
  apply keeps_bind; [auto with tarit|]. intros _. destruct conns as [|c conns]; [auto with tarit|].
  apply keeps_bind; [auto with tarit|]. intros _. apply keeps_bind.
  - apply keeps_modify. intros d Hd. apply with_connections_ok; [done|].
    generalize (c :: conns) as l. intros l. generalize (connections d) as m. clear.
    induction l as [|x l IH]; intros m; [done|]. cbn. pose proof (IH (delete (key x) m)). pose proof (size_delete_le m (key x)). lia.
  - intros _. apply keeps_bind; [by apply keep_enqueue_all, Forall_true|]. intros _.
    apply keeps_bind; [apply keep_process_rx_queue|]. auto with tarit.
Qed.

Lemma keep_snapshot order : keep (snapshot_state order).
Proof.
  apply keeps_get. intros d Hd. case_goal; [by apply wp_fail|]. to_keep.
  repeat (apply keeps_bind; [auto with tarit|intros _]). auto with tarit.
Qed.

(** ** Registers *)

Lemma vsock_reset_ok d : vsock_ok d → vsock_ok (reset d).
Proof. intros []. split; cbn; try done. apply Forall_fmap, Forall_true. by intros. Qed.

Lemma keep_on_queue f : keep (on_queue f).
Proof. apply keeps_bind; [auto with tarit|]. intros _. apply keeps_get. intros d Hd. by apply wp_ret. Qed.

Lemma keep_q_write f : (∀ q, queue_typed q → queue_typed (f q)) → keep (q_write f).
Proof.
  intros Hf. apply keeps_bind; [auto with tarit|]. intros _. apply keeps_modify. intros d [].
  split; cbn; try done. apply Forall_alter; [done|]. intros x _. apply Hf.
Qed.

Hint Resolve keep_on_queue : tarit.

Lemma keep_mmio_read off len : keep (mmio_read off len).
Proof. apply keeps_get. intros d Hd. to_keep. keeps_cases; auto with tarit. Qed.

Lemma keep_write_status val : keep (write_status val).
Proof.
  apply keeps_bind; [apply keeps_modify; intros ?; setter|]. intros _. keeps_cases; [apply keeps_modify, vsock_reset_ok|].
  apply keeps_bind; [apply keeps_modify; intros ?; setter|]. intros _. keeps_cases; [|auto with tarit].
  apply keeps_modify. intros ?. setter.
Qed.

Lemma keep_write_notify val : keep (write_notify val).
Proof.
  apply keeps_bind; [apply keeps_modify; intros ?; setter|]. intros _. keeps_cases; [..|auto with tarit];
    (apply keeps_bind; [first [apply keep_process_rx_queue|apply keep_process_tx_queue]|auto with tarit]).
Qed.

Lemma queue_typed_set_size v q : queue_typed q → queue_typed (set_size v q).
Proof. intros H. unfold set_size. repeat case_goal; done. Qed.

Lemma queue_typed_set_ready v q : queue_typed q → queue_typed (set_ready v q).
Proof. intros H. unfold set_ready. by case_goal. Qed.

Lemma keep_mmio_write off raw : keep (mmio_write off raw).
Proof.
  apply keeps_get. intros d Hd. to_keep.
  keeps_cases; try (apply keeps_modify; intros ?; setter); try (apply keep_q_write; done); auto with tarit.
  - apply keep_write_status.
  - apply keep_q_write. apply queue_typed_set_size.
  - apply keep_q_write. apply queue_typed_set_ready.
  - apply keep_write_notify.
Qed.

Lemma keep_configure l (f : VirtioVsockMmio M S L → VirtioVsockMmio M S L) :
  (∀ d, vsock_ok d → vsock_ok (f d)) → keep (do* lock_state (E:=MmioError) l in modify f).
Proof. intros Hf. apply keeps_bind; [auto with tarit|]. intros _. by apply keeps_modify. Qed.

Lemma keep_reassert : keep reassert_pending_interrupt.
Proof.
  intros d Hd. unfold reassert_pending_interrupt, try_lock_state, wp. case_goal; [eauto|].
  case_decide; eexists _, _; (split; [done|]); [by apply fail_device_ok|revert Hd; setter].
Qed.

Lemma state_of_ok {E A} (c : dev (VirtioVsockMmio M S L) E A) d :
  keep c → vsock_ok d → ∃ d', state_of c d = Some d' ∧ vsock_ok d'.
Proof. intros Hc Hd. destruct (Hc d Hd) as (r & d' & Hr & Hd'). exists d'. unfold state_of. by rewrite Hr. Qed.

Lemma run_event_ok e d : event_typed e → vsock_ok d → ∃ d', run_event e d = Some d' ∧ vsock_ok d'.
Proof.
  intros He Hd. destruct e; cbn [run_event]; try (apply state_of_ok; [|done]).
  - apply keep_mmio_read.
  - apply keep_mmio_write.
  - apply keep_pump.
  - apply keep_connect.
  - by apply keep_restore.
  - apply keep_reset_connections.
  - apply keep_snapshot.
  - unfold set_guest_memory. apply keep_configure. intros ?. setter.
  - unfold set_guest_dirty_tracker. apply keep_configure. intros ?. setter.
  - unfold set_host_listener. apply keep_configure. intros ?. setter.
  - unfold set_irq_evt. apply keep_configure. intros ?. setter.
  - apply keep_reassert.
  - eexists. split; [done|]. by apply fail_device_ok.
  - eexists. split; [done|]. revert Hd. setter.
Qed.

End keeps.

(** C18: A socket device is never stuck and never unbounded: from a new device,
    every sequence of register accesses, stream pumps, connects, snapshots,
    restores and panics in its threads completes, whatever guest memory and
    the host streams hold, and ends with at most 1024 connections and at most
    4096 packets of at most 4096 bytes for the guest. *)
Theorem vsock_events_bounded {M S L : Type} `{!GuestMemoryBackend M} `{!GuestMemoryLaws M}
    `{!HostVsockStream S} `{!HostVsockStreamLaws S} `{!HostVsockListener L S}
    irq cid (es : list (event M S L)) :
  Forall event_typed es →
  ∃ d, run_events es (vsock_new irq cid) = Some d ∧
    Z.of_nat (base.size (connections d)) ≤ 1024 ∧ Z.of_nat (length (pending_rx d)) ≤ 4096 ∧
    Forall (fun p => Z.of_nat (length (data p)) ≤ 4096) (pending_rx d).
Proof.
  intros Hes. enough (∀ d0 : VirtioVsockMmio M S L, vsock_ok d0 → ∃ d, run_events es d0 = Some d ∧ vsock_ok d) as H.
  { destruct (H (vsock_new irq cid)) as (d & Hd & []); [|by exists d].
    split; cbn; try done. repeat constructor; done. }
  induction Hes as [|e es He _ IH]; intros d0 Hd0; [by exists d0|]. cbn [run_events].
  destruct (run_event_ok e d0 He Hd0) as (d1 & -> & Hd1). by apply IH.
Qed.

Lemma vsock_events_bounded_witness :
  ∃ d, run_events (M:=gmap Z Z)
      [SetListener 52; Write reg.STATUS 4; Connect 7 (Some (ExampleSocket.mkStream [] [])); Pump [];
       Restore (mkVsockState 0 0 0 0 0 0 [queue_default] false 0 []); Poison LPendingRx; Write reg.QUEUE_NOTIFY 1]
      (vsock_new 5 3) = Some d ∧
    Z.of_nat (base.size (connections d)) ≤ 1024 ∧ Z.of_nat (length (pending_rx d)) ≤ 4096 ∧
    Forall (fun p => Z.of_nat (length (data p)) ≤ 4096) (pending_rx d).
Proof. apply vsock_events_bounded. repeat constructor; done. Defined.
