(* ===== verification/VsockRx.v ===== *)
(** * Delivery of packets to the guest

    [process_rx_queue] writes the packets that wait for the guest into the
    chains the driver has posted: first in, first out, whole packets only,
    and with every written page recorded for the next snapshot. *)

From S2P Require Import Prelude Dirty GuestMem GuestRam VQueue VQueueWalk VQueueRun VQueuePeek VQueuePass Regs Bus Dev VsockPacket VsockState Vsock VsockInv.

(** Operational, and no lock is poisoned. *)
Definition healthy {M S L : Type} (d : VirtioVsockMmio M S L) : Prop :=
  is_failed d = false ∧ poisoned d = [].

(** The bytes of packets taken together. *)
Definition packets_len (ps : list VsockPacket) : Z := foldr (fun p n => Z.of_nat (length (data p)) + n) 0 ps.

(** From [d] to [d'] the packets [ps] left the front of the queue to the
    guest, and nothing else of the connections or the registers changed. *)
Record delivered {M S L : Type} (ps : list VsockPacket) (d d' : VirtioVsockMmio M S L) : Prop := {
  dl_pending : pending_rx d = ps ++ pending_rx d';
  dl_packets : rx_packets d' = (rx_packets d + Z.of_nat (length ps)) mod 18446744073709551616;
  dl_bytes : rx_bytes d' = (rx_bytes d + packets_len ps) mod 18446744073709551616;
  dl_connections : connections d' = connections d;
  dl_status : status d' = status d;
  dl_poisoned : poisoned d' = poisoned d;
  dl_cid : guest_cid d' = guest_cid d;
  dl_queues : queues d' = queues d;
}.

(** ** Writing a packet into a chain *)
Section write.
Context {M : Type} `{!GuestMemoryBackend M} `{!GuestMemoryLaws M}.
Implicit Types (w : World M).

(** Writing no bytes changes none, whether the address is taken or not. *)
Lemma write_mem_nil_tracked w a : tracked w (write_mem w [] a).2.
Proof.
  split.
  { intros. pose proof (write_mem_mem w [] a) as E. unfold write_mem_ in E. by rewrite E, gm_write_check. }
  assert (∀ x, byte_at (gm_write_slice (w_mem w) a []).2 x = byte_at (w_mem w) x) as Hb.
  { intros x. apply gm_write_frame. simpl. lia. }
  unfold write_mem. destruct (gm_write_slice (w_mem w) a []) as [[] m]; cbn [snd w_mem w_dirty] in *;
    (destruct (w_dirty w) as [dt|]; simpl; [|done]).
  - split; [apply dirty_le_mark_guest|]. intros x _ Hx. by destruct Hx.
  - split; [done|]. intros x _ Hx. by destruct Hx.
Qed.

Lemma write_desc_chain_tracked bufs : ∀ w bs cur sz,
  laid_out (w_mem w) sz → Forall (valid_buf (w_mem w)) bufs → 0 ≤ cur →
  tracked w (write_desc_chain w bufs bs cur).2 ∧
  changes_only (in_bufs bufs) (w_mem w) (w_mem (write_desc_chain w bufs bs cur).2).
Proof.
  induction bufs as [|[a l] bufs IH]; intros w bs cur sz Hlay Hv Hcur; cbn [write_desc_chain]; [done|].
  apply Forall_cons in Hv as [Hv1 Hv2]. case_goal; [done|]. bool_to_prop.
  assert (0 ≤ l) as Hl by apply Hv1. set (t := Z.min (Z.of_nat (length bs) - cur) l).
  destruct (u64_checked_add cur t) as [nc|] eqn:En; [|done]. apply u64_checked_add_Some in En as [-> _].
  set (chunk := slice _ _ bs).
  assert (Z.of_nat (length chunk) = t) as Hlen by (subst chunk t; rewrite length_slice; lia).
  assert (tracked w (write_mem w chunk a).2 ∧
    changes_only (fun x => a ≤ x < a + l) (w_mem w) (w_mem (write_mem w chunk a).2)) as [Ht Hc].
  { split.
    - destruct (decide (t = 0)) as [Hz|Hz].
      + assert (chunk = []) as -> by (apply nil_length_inv; lia). apply write_mem_nil_tracked.
      + apply (write_mem_tracked w sz chunk a Hlay); [|intros E; rewrite E in Hlen; simpl in Hlen; lia].
        left. rewrite Hlen. apply (gm_check_range_sub (w_mem w) a l); [subst t; lia..|].
        apply (valid_buf_check _ _ Hv1). subst t. simpl. lia.
    - eapply changes_only_mono; [apply (write_mem_changes w chunk a)|]. simpl. intros x. rewrite Hlen. subst t. lia. }
  assert (changes_only (in_bufs ((a, l) :: bufs)) (w_mem w) (w_mem (write_mem w chunk a).2)) as Hc'.
  { eapply changes_only_mono; [exact Hc|]. intros x Hx. exists (a, l). split; [left|done]. }
  destruct (write_mem w chunk a) as [[] w1]; cbn [snd] in *; [|done].
  destruct (IH w1 bs (cur + t) sz) as [Ht' Hch].
  { by eapply tracked_laid_out. }
  { eapply Forall_impl; [exact Hv2|]. intros b. by apply valid_buf_tracked. }
  { subst t. lia. }
  split; [by transitivity w1|]. eapply changes_only_trans; [exact Hc'|].
  eapply changes_only_mono; [exact Hch|]. intros x (b & Hb & Hx). exists b. split; [by right|done].
Qed.

(** The bytes written to the first buffer of a chain. *)
Lemma chunk_written w bs a l cur sz :
  laid_out (w_mem w) sz → valid_buf (w_mem w) (a, l) → 0 < l → 0 ≤ cur < Z.of_nat (length bs) →
  let t := Z.min (Z.of_nat (length bs) - cur) l in
  let chunk := slice (Z.to_nat cur) (Z.to_nat t) bs in
  0 < t ≤ l ∧ (write_mem w chunk a).1 = true ∧ tracked w (write_mem w chunk a).2 ∧
  (Forall is_byte bs → gm_read_slice (w_mem (write_mem w chunk a).2) a t = Some chunk).
Proof.
  intros Hlay Hv Hl Hcur t chunk. assert (0 < t ≤ l) as Ht by (subst t; lia).
  assert (Z.of_nat (length chunk) = t) as Hlen by (subst chunk t; rewrite length_slice; lia).
  assert (chunk ≠ []) as Hne by (intros E; rewrite E in Hlen; simpl in Hlen; lia).
  assert (gm_check_range (w_mem w) a (Z.of_nat (length chunk)) = true) as Hck.
  { rewrite Hlen. apply (gm_check_range_sub (w_mem w) a l); [lia..|]. by apply (valid_buf_check _ (a, l)). }
  split; [done|]. split_and!.
  - unfold write_mem. pose proof (gm_write_ok (w_mem w) a chunk Hne) as E. rewrite Hck in E.
    by destruct (gm_write_slice _ _ _) as [[] ?].
  - by apply (write_mem_tracked w sz chunk a Hlay (or_introl Hck)).
  - intros Hb. rewrite <- Hlen. by apply (write_mem_reads w chunk a Hck (Forall_slice _ _ _ _ Hb)).
Qed.

(** A chain of non-empty buffers with room for the bytes takes all of them. *)
Lemma write_desc_chain_writes bufs : ∀ w bs cur sz,
  laid_out (w_mem w) sz → Forall (valid_buf (w_mem w)) bufs → Forall (fun b => 0 < b.2) bufs →
  0 ≤ cur → Z.of_nat (length bs) ≤ U64_MAX →
  cur ≤ Z.of_nat (length bs) ≤ cur + sum_lens bufs →
  (write_desc_chain w bufs bs cur).1 = true.
Proof.
  induction bufs as [|[a l] bufs IH]; intros w bs cur sz Hlay Hv Hp Hcur Hmax Hs; cbn [write_desc_chain].
  { apply Z.eqb_eq. unfold sum_lens in Hs. simpl in Hs. lia. }
  apply Forall_cons in Hv as [Hv1 Hv2]. apply Forall_cons in Hp as [Hp1 Hp2]. cbn [snd] in Hp1.
  change (sum_lens ((a, l) :: bufs)) with (l + sum_lens bufs) in Hs. pose proof (sum_lens_nonneg _ _ Hv2) as Hnn.
  case_goal; bool_to_prop; [apply Z.eqb_eq; lia|].
  destruct (chunk_written w bs a l cur sz Hlay Hv1 Hp1) as (Ht & Hok & Htr & _); [lia|].
  set (t := Z.min (Z.of_nat (length bs) - cur) l) in *.
  rewrite (proj2 (u64_checked_add_Some cur t _)) by (split; [done|subst t; lia]).
  destruct (write_mem w _ a) as [ok w1]; cbn [fst snd] in *. rewrite Hok.
  apply (IH w1 bs (cur + t) sz); [by eapply tracked_laid_out| |done|lia|done|subst t; lia].
  eapply Forall_impl; [exact Hv2|]. intros b. by apply valid_buf_tracked.
Qed.

(** A longer read starts with what a shorter one returns. *)
Lemma read_prefix (m : M) a t l bs chunk :
  0 < t ≤ l → gm_read_slice m a l = Some bs → gm_read_slice m a t = Some chunk → take (Z.to_nat t) bs = chunk.
Proof.
  intros Ht Hl Hc. apply gm_read_iff in Hl as [Hl1 Hl2]; [|lia]. apply gm_read_iff in Hc as [Hc1 Hc2]; [|lia].
  apply list_eq. intros i. destruct (decide (i < Z.to_nat t)%nat) as [Hi|Hi].
  - rewrite lookup_take_lt by done. destruct (lookup_lt_is_Some_2 bs i) as [x Hx]; [lia|].
    destruct (lookup_lt_is_Some_2 chunk i) as [y Hy]; [lia|]. rewrite Hx, Hy.
    apply Hl2 in Hx. apply Hc2 in Hy. congruence.
  - rewrite !lookup_ge_None_2; [done|lia|]. rewrite length_take. lia.
Qed.

Lemma gather_total (m : M) bufs : ∀ acc,
  Forall (valid_buf m) bufs → Forall (fun b => 0 < b.2) bufs → ∃ rest, gather m bufs acc = acc ++ rest.
Proof.
  induction bufs as [|[a l] bufs IH]; intros acc Hv Hp; [exists []; by rewrite app_nil_r|].
  apply Forall_cons in Hv as [Hv1 Hv2]. apply Forall_cons in Hp as [Hp1 Hp2]. cbn [snd] in Hp1.
  destruct (gm_read_total m a l Hp1 (valid_buf_check _ _ Hv1 Hp1)) as (bs & Hr & _). cbn [gather]. rewrite Hr.
  destruct (IH (acc ++ bs) Hv2 Hp2) as [rest ->]. exists (bs ++ rest). by rewrite app_assoc.
Qed.

(** What the chain holds afterwards starts with the bytes from the cursor on. *)
Lemma gather_write_desc_chain bufs : ∀ w bs cur sz acc,
  laid_out (w_mem w) sz → Forall (valid_buf (w_mem w)) bufs → bufs_disjoint bufs →
  Forall (fun b => 0 < b.2) bufs → Forall is_byte bs → 0 ≤ cur → Z.of_nat (length bs) ≤ U64_MAX →
  cur ≤ Z.of_nat (length bs) ≤ cur + sum_lens bufs →
  ∃ rest, gather (w_mem (write_desc_chain w bufs bs cur).2) bufs acc = acc ++ drop (Z.to_nat cur) bs ++ rest.
Proof.
  induction bufs as [|[a l] bufs IH]; intros w bs cur sz acc Hlay Hv Hd Hp Hb Hcur Hmax Hs.
  { exists []. cbn. unfold sum_lens in Hs. simpl in Hs. rewrite drop_ge by lia. by rewrite !app_nil_r. }
  destruct (gather_total (w_mem w) ((a, l) :: bufs) acc Hv Hp) as [rest0 Hg].
  apply Forall_cons in Hv as [Hv1 Hv2]. apply Forall_cons in Hp as [Hp1 Hp2]. cbn [snd] in Hp1.
  destruct Hd as [Hd1 Hd2]. pose proof (sum_lens_nonneg _ _ Hv2) as Hnn.
  change (sum_lens ((a, l) :: bufs)) with (l + sum_lens bufs) in Hs.
  cbn [write_desc_chain]. case_goal; bool_to_prop; [exists rest0; rewrite drop_ge by lia; exact Hg|].
  destruct (chunk_written w bs a l cur sz Hlay Hv1 Hp1) as (Ht & Hok & Htr & Hrd); [lia|].
  specialize (Hrd Hb). set (t := Z.min (Z.of_nat (length bs) - cur) l) in *. set (chunk := slice _ _ bs) in *.
  rewrite (proj2 (u64_checked_add_Some cur t _)) by (split; [done|subst t; lia]).
  pose proof (valid_buf_check _ _ Hv1 Hp1) as Hck. cbn [fst snd] in Hck.
  destruct (write_mem w chunk a) as [ok w1]; cbn [fst snd] in *. rewrite Hok.
  assert (Forall (valid_buf (w_mem w1)) bufs) as Hv' by (eapply Forall_impl; [exact Hv2|]; intros b; by apply valid_buf_tracked).
  pose proof (tracked_laid_out _ _ _ Htr Hlay) as Hlay'.
  destruct (write_desc_chain_tracked bufs w1 bs (cur + t) sz Hlay' Hv') as [_ Hch]; [lia|].
  rewrite <- (proj1 Htr) in Hck. destruct (gm_read_total (w_mem w1) a l Hp1 Hck) as (got & Hgot & Hgl & _).
  pose proof (read_prefix _ _ _ _ _ _ Ht Hgot Hrd) as Hpre.
  cbn [gather]. rewrite (read_outside _ _ _ _ _ Hp1 Hch) by (apply Hd1). rewrite Hgot.
  destruct (IH w1 bs (cur + t) sz (acc ++ got)) as [rest ->]; try done; [lia|subst t; lia|].
  rewrite <- (take_drop (Z.to_nat t) got), Hpre.
  assert (drop (Z.to_nat cur) bs = chunk ++ drop (Z.to_nat (cur + t)) bs) as ->.
  { subst chunk. unfold slice. rewrite Z2Nat.inj_add, <- drop_drop by lia. by rewrite take_drop. }
  destruct (decide (t = l)) as [->|Htl].
  - exists rest. rewrite (drop_ge got) by lia. rewrite app_nil_r. by rewrite <- !app_assoc.
  - exists (drop (Z.to_nat t) got ++ rest). rewrite (drop_ge bs (Z.to_nat (cur + t))) by (subst t; lia).
    by rewrite app_nil_r, <- !app_assoc.
Qed.

End write.

(** The writable buffers of an accepted chain hold at most 4 MiB. *)
Lemma chain_writable_sum {M : Type} `{!GuestMemoryBackend M} `{!GuestMemoryLaws M} c (m : M) hd ch :
  0 ≤ hd → walk_descriptor_chain c m hd = Some ch → sum_lens (writable ch) ≤ MAX_CHAIN_BYTES.
Proof.
  intros Hhd Hw. apply walk_with_iff in Hw as (q & Hq & _ & Hs & _ & ->); [|apply read_descriptor_in_range|done].
  apply trace_in_range in Hq; [|apply read_descriptor_in_range]. cbn [writable chain_of].
  rewrite <- sum_buffers, sum_lens_app in Hs. enough (0 ≤ sum_lens (readable_of q.*2)) by lia. clear Hs.
  induction Hq as [|x l (_ & [? _] & _) _ IH]; [done|]. rewrite readable_of_cons, sum_lens_app.
  destruct (is_writable x); unfold sum_lens at 1; simpl; lia.
Qed.

(** ** The pass *)
Section rx.
Context {M S L : Type} `{!GuestMemoryBackend M} `{!GuestMemoryLaws M}
  `{!HostVsockStream S} `{!HostVsockListener L S}.
Implicit Types d : VirtioVsockMmio M S L.

Lemma delivered_refl d : in_u64 (rx_packets d) → in_u64 (rx_bytes d) → delivered [] d d.
Proof. intros Hp Hb. autounfold with tarit in *. split; cbn; try done; rewrite Z.add_0_r, Z.mod_small by lia; done. Qed.

Lemma packets_len_snoc ps p : packets_len (ps ++ [p]) = packets_len ps + Z.of_nat (length (data p)).
Proof. unfold packets_len. induction ps as [|q ps IH]; simpl; lia. Qed.

(** The front packet leaves the queue, or nothing changes. *)
Lemma rx_handler_delivered d0 w h r wr :
  poisoned d0 = [] → (∃ ps, delivered ps d0 h.1) ∧ h.2 = false →
  (∃ ps, delivered ps d0 (rx_handler w h r wr).1.2.1) ∧ (rx_handler w h r wr).1.2.2 = false.
Proof.
  intros Hno [[ps Hd] Hf]. destruct h as [d f]. cbn in Hd, Hf. subst f. unfold rx_handler.
  pose proof (dl_poisoned _ _ _ Hd) as Hpo. rewrite Hno in Hpo. rewrite Hpo.
  rewrite decide_False by apply not_elem_of_nil.
  destruct (pending_rx d) as [|p q] eqn:Ep; [split; [eauto|done]|].
  destruct (fold_capacity 0 wr); [|split; [eauto|done]]. case_goal; [split; [eauto|done]|].
  destruct (write_desc_chain w wr _ 0) as [[] w']; [|split; [eauto|done]]. cbn [fst snd]. split; [|done].
  exists (ps ++ [p]). destruct Hd. split; try (simpl; congruence); cbn [pending_rx rx_packets rx_bytes with_pending_rx with_rx_packets with_rx_bytes tail].
  - rewrite dl_pending0, Ep. by rewrite <- app_assoc.
  - rewrite dl_packets0, length_app, Nat2Z.inj_add, Z.add_assoc. apply Zplus_mod_idemp_l.
  - rewrite dl_bytes0, packets_len_snoc, Z.add_assoc. apply Zplus_mod_idemp_l.
Qed.

Lemma rx_handler_tracked w (h : VirtioVsockMmio M S L * bool) rds wrs sz :
  laid_out (w_mem w) sz → Forall (valid_buf (w_mem w)) rds → Forall (valid_buf (w_mem w)) wrs →
  tracked w (rx_handler w h rds wrs).1.1.
Proof.
  intros Hlay _ Hwr. destruct h as [d f]. unfold rx_handler. case_decide; [done|].
  destruct (pending_rx d) as [|p q]; [done|]. destruct (fold_capacity 0 wrs); [|done]. case_goal; [done|].
  destruct (write_desc_chain_tracked wrs w (packet_to_bytes p) 0 sz) as [Ht _]; [done..|].
  destruct (write_desc_chain w wrs _ 0) as [[] w']; done.
Qed.

Lemma wp_lock_healthy {B} l (k : unit → dev _ _ B) Q d :
  poisoned d = [] → wp (k tt) Q d → wp (dev_bind (try_lock_state l) k) Q d.
Proof.
  intros Hp Hk. apply wp_bind. eexists _, _. unfold try_lock_state. rewrite Hp, decide_False by apply not_elem_of_nil. done.
Qed.

Lemma wp_operational {B} (k : unit → dev _ _ B) Q d :
  is_failed d = false → wp (k tt) Q d → wp (dev_bind ensure_operational k) Q d.
Proof. intros Hf Hk. apply wp_bind. eexists _, _. unfold ensure_operational, dev_bind, get. by rewrite Hf. Qed.

Lemma delivered_healthy ps d d' : healthy d → delivered ps d d' → healthy d'.
Proof. intros [Hf Hp] []. split; [|congruence]. unfold is_failed in *. congruence. Qed.

Lemma wp_trigger_healthy (Q : result unit MmioError → _ → Prop) d :
  poisoned d = [] →
  Q (Ok tt) (bump_irq (with_interrupt_status d (Z.lor (interrupt_status d) VIRTIO_MMIO_INT_VRING))) →
  wp trigger_interrupt Q d.
Proof. intros Hp HQ. apply wp_bind, wp_modify, wp_lock_healthy; [done|]. by apply wp_modify. Qed.

(** Guest memory and the tracker before and after a call. *)
Definition memory_tracked (d d' : VirtioVsockMmio M S L) : Prop :=
  ∀ mem sz, guest_mem d = Some mem → laid_out mem sz →
  ∃ mem', guest_mem d' = Some mem' ∧ tracked (mkWorld mem (host_dirty d)) (mkWorld mem' (host_dirty d')).

Lemma memory_tracked_refl d : memory_tracked d d.
Proof. intros mem sz Hm _. exists mem. done. Qed.

Lemma wp_ready_healthy po i c (Q : result _ MmioError → _ → Prop) d :
  poisoned d = [] → vsock_ok d → from_option processor_ok True po →
  (∀ p, processor_ok p → Q (Ok p) d) → wp (ready_processor po i c) Q d.
Proof.
  intros Hno Hok Hpo HQ. destruct po as [p|]; [apply wp_ret; auto with tarit|].
  apply wp_bind, wp_lock_healthy; [done|]. apply wp_get, wp_ret, wp_ret, HQ, new_with_indices_ok;
    (destruct (queues d !! i) as [q|] eqn:Eq; [|done]); by apply (Forall_lookup_1 _ _ _ _ (vo_queues _ Hok) Eq).
Qed.

Lemma wp_process_rx_queue d :
  healthy d → vsock_ok d → in_u64 (rx_packets d) → in_u64 (rx_bytes d) →
  wp process_rx_queue (fun r d' => (∃ n ps, r = Ok n ∧ delivered ps d d') ∧ memory_tracked d d') d.
Proof.
  intros [Hf Hno] Hok Hc1 Hc2. pose proof (delivered_refl d Hc1 Hc2) as Hrefl.
  pose proof (memory_tracked_refl d) as Hmr.
  apply wp_operational; [done|]. apply wp_lock_healthy; [done|]. apply wp_get.
  destruct (guest_mem d) as [mem|] eqn:Em; [|apply wp_ret; split; [eauto|done]].
  apply wp_lock_healthy; [done|]. apply wp_bind, wp_lock_healthy; [done|]. apply wp_get, wp_ret.
  set (cfg := match queues d !! _ with Some _ => _ | None => _ end). destruct cfg as [cfg|];
    [|apply wp_lock_healthy; [done|]; apply wp_ret; split; [eauto|done]].
  apply wp_lock_healthy; [done|]. apply wp_bind, wp_ready_healthy; [done|done|apply Hok|]. intros p Hp.
  destruct (descriptors_total rx_handler (fun h => (∃ ps, delivered ps d h.1) ∧ h.2 = false)
    (fun w h r wr => rx_handler_delivered d w h r wr Hno) p (mkWorld mem (host_dirty d)) (d, false) Hp)
    as (p' & w' & [d1 f] & k & Hx & Hp' & [[ps Hd1] Hff] & _); [split; [eauto|done]|]. cbn in Hd1, Hff. subst f.
  apply wp_bind. eexists _, _. unfold run_pass. rewrite Hx. split; [done|]. cbn [fst snd].
  set (d2 := with_rx_processor _ _). assert (delivered ps d d2) as Hd2 by (destruct Hd1; by split).
  assert (memory_tracked d d2) as Hm2.
  { intros mem0 sz Hm Hlay. rewrite Em in Hm. injection Hm as <-. exists (w_mem w'). split; [done|].
    destruct w' as [m' dt']. by apply (descriptors_tracked rx_handler rx_handler_tracked p (mkWorld mem (host_dirty d)) (d, false) sz p' (mkWorld m' dt') (d1, false) k). }
  pose proof (delivered_healthy _ _ _ (conj Hf Hno) Hd2) as [Hf2 Hno2]. apply wp_bind.
  assert (∀ d3, delivered ps d d3 → memory_tracked d d3 → healthy d3 →
    wp (do* try_lock_state LPendingRx in let* d := get in if false || is_failed d then fail DeviceRejected else ret k)
      (fun r d' => (∃ n ps, r = Ok n ∧ delivered ps d d') ∧ memory_tracked d d') d3) as Hend.
  { intros d3 H3 Hm3 [Hf3 Hno3]. apply wp_lock_healthy; [done|]. apply wp_get. rewrite Hf3. apply wp_ret. split; [eauto|done]. }
  case_goal; [|by apply wp_ret, Hend]. apply wp_trigger_healthy; [done|]. apply Hend; [by destruct Hd2|done|done].
Qed.

End rx.

(** A receive pass of a healthy device succeeds and is first in, first
    out: what left the queue of waiting packets is a prefix of it, the
    counters count exactly its packets and bytes, no connection changed, and
    every byte of guest memory that changed is on a page the tracker records. *)
Theorem vsock_rx_fifo {M S L : Type} `{!GuestMemoryBackend M} `{!GuestMemoryLaws M}
    `{!HostVsockStream S} `{!HostVsockListener L S} (d : VirtioVsockMmio M S L) mem sz :
  healthy d → vsock_ok d → in_u64 (rx_packets d) → in_u64 (rx_bytes d) →
  guest_mem d = Some mem → laid_out mem sz →
  ∃ n ps d' mem', process_rx_queue d = Some (Ok n, d') ∧
    pending_rx d = ps ++ pending_rx d' ∧
    rx_packets d' = (rx_packets d + Z.of_nat (length ps)) mod 18446744073709551616 ∧
    rx_bytes d' = (rx_bytes d + packets_len ps) mod 18446744073709551616 ∧
    connections d' = connections d ∧ guest_mem d' = Some mem' ∧
    tracked (mkWorld mem (host_dirty d)) (mkWorld mem' (host_dirty d')).
Proof.
  intros Hh Hok Hp Hb Hm Hlay.
  destruct (wp_process_rx_queue d Hh Hok Hp Hb) as (r & d' & Hr & (n & ps & -> & []) & Hmt).
  destruct (Hmt mem sz Hm Hlay) as (mem' & ? & ?). by exists n, ps, d', mem'.
Qed.

(** When the driver has posted a chain of separate, non-empty buffers with
    room for the packet at the front of the queue, serving the chain writes
    the packet's bytes, whole and in order, to the start of the chain, reports
    their number as used and takes the packet off the queue. *)
Theorem vsock_rx_delivers {M S L : Type} `{!GuestMemoryBackend M} `{!GuestMemoryLaws M}
    `{!HostVsockStream S} `{!HostVsockListener L S} (d : VirtioVsockMmio M S L) failed w sz c hd ch p ps :
  poisoned d = [] → laid_out (w_mem w) sz → 0 ≤ hd → walk_descriptor_chain c (w_mem w) hd = Some ch →
  bufs_disjoint (writable ch) → Forall (fun b => 0 < b.2) (writable ch) →
  pending_rx d = p :: ps → Forall is_byte (data p) →
  44 + Z.of_nat (length (data p)) ≤ sum_lens (writable ch) →
  ∃ w' d' rest,
    rx_handler w (d, failed) (readable ch) (writable ch) =
      (w', (d', failed), Some (44 + Z.of_nat (length (data p)))) ∧
    gather (w_mem w') (writable ch) [] = packet_to_bytes p ++ rest ∧
    pending_rx d' = ps ∧ tracked w w' ∧ changes_only (in_bufs (writable ch)) (w_mem w) (w_mem w').
Proof.
  intros Hno Hlay Hhd Hw Hdis Hpos Hp Hb Hroom.
  destruct (walk_valid_bufs _ _ _ _ Hhd Hw) as [_ Hv].
  pose proof (chain_writable_sum _ _ _ _ Hhd Hw) as Hmax.
  unfold MAX_CHAIN_BYTES in Hmax.
  pose proof (length_packet_to_bytes p) as Hlen. set (bytes := packet_to_bytes p) in *.
  assert (Forall is_byte bytes) as Hbytes by (apply Forall_app; split; [apply header_to_bytes_bytes|done]).
  unfold rx_handler. rewrite Hno, decide_False by apply not_elem_of_nil. rewrite Hp.
  rewrite (fold_capacity_Some _ 0 (w_mem w)) by (try done; unfold U64_MAX; lia).
  fold bytes. rewrite (proj2 (Z.ltb_ge _ _)) by lia.
  destruct (gather_write_desc_chain (writable ch) w bytes 0 sz []) as [rest Hg]; try done;
    [unfold U64_MAX; lia|lia|].
  pose proof (write_desc_chain_writes (writable ch) w bytes 0 sz Hlay Hv Hpos) as Hok.
  destruct (write_desc_chain_tracked (writable ch) w bytes 0 sz Hlay Hv) as [Ht Hc]; [done|].
  destruct (write_desc_chain w (writable ch) bytes 0) as [ok w']. cbn [fst snd] in *.
  rewrite Hok by (done || unfold U64_MAX; lia).
  eexists w', _, rest. split; [do 2 f_equal; unfold as_u32; rewrite Hlen, Z.mod_small; lia|]. by split_and!.
Qed.

(** A driver with one chain of 100 writable bytes, and an RST for it. *)
Module ExampleRx.

Definition cfg : QueueConfig := mkQueueConfig 2 0 64 96 true.
Definition desc0 : Descriptor := mkDesc 256 100 WRITE 0.
Definition mem : gmap Z Z :=
  ByteMap.store (ByteMap.store (ByteMap.zeros 0 512) 0 (ExampleQueue.encode_desc desc0)) 64 [0; 0; 1; 0; 0; 0].
Definition chain : DescriptorChain := mkChain [] [(256, 100)] 1.
Definition packet : VsockPacket := host_packet (mkKey 3 1024 52) op.RST 0 [] 0.

Definition device : VirtioVsockMmio (gmap Z Z) ExampleSocket.stream Z :=
  with_pending_rx (with_guest_mem (with_queues (vsock_new 5 3)
    [mkQueue 2 0 64 96 true 0 0; queue_default; queue_default]) (Some mem)) [packet].

End ExampleRx.

Lemma example_rx_mem_laid_out : laid_out ExampleRx.mem 512.
Proof.
  split; [lia|]. intros a Ha. unfold ExampleRx.mem.
  rewrite !store_check by (vm_compute; reflexivity). rewrite bm_zeros_check by (unfold U64_MAX; lia).
  split; [intros ?; exists a|intros [o Ho]; revert Ho]; rewrite gpa_to_offset_Some by lia;
    unfold MMIO_GAP_START, MMIO_GAP_END; lia.
Qed.

Lemma vsock_rx_fifo_witness :
  ∃ n ps d', process_rx_queue ExampleRx.device = Some (Ok n, d') ∧ pending_rx ExampleRx.device = ps ++ pending_rx d'.
Proof.
  destruct (vsock_rx_fifo ExampleRx.device ExampleRx.mem 512) as (n & ps & d' & mem' & H1 & H2 & _).
  - split; reflexivity.
  - split; cbn; try done; repeat constructor; done.
  - done.
  - done.
  - reflexivity.
  - exact example_rx_mem_laid_out.
  - exists n, ps, d'. exact (conj H1 H2).
Defined.

Lemma vsock_rx_delivers_witness :
  ∃ w' d' rest,
    rx_handler (mkWorld ExampleRx.mem None) (ExampleRx.device, false) [] [(256, 100)] = (w', (d', false), Some 44) ∧
    gather (w_mem w') [(256, 100)] [] = packet_to_bytes ExampleRx.packet ++ rest ∧ pending_rx d' = [].
Proof.
  destruct (vsock_rx_delivers ExampleRx.device false (mkWorld ExampleRx.mem None) 512 ExampleRx.cfg 0 ExampleRx.chain
    ExampleRx.packet []) as (w' & d' & rest & H1 & H2 & H3 & _).
  - reflexivity.
  - exact example_rx_mem_laid_out.
  - lia.
  - vm_compute. reflexivity.
  - cbn. split; [|done]. intros x _ (b & Hb & _). by apply not_elem_of_nil in Hb.
  - repeat constructor.
  - reflexivity.
  - constructor.
  - vm_compute. discriminate.
  - exists w', d', rest. exact (conj H1 (conj H2 H3)).
Defined.
