(* ===== verification/VsockConn.v ===== *)
(** * Connections of the socket device

    The device as the guest sees it is a machine of its own: the host's
    listener, a table of connections and a queue of packets for the guest. A
    packet of the guest is a step of the connection it names and of no other,
    with at most one answer, and the device does exactly these steps. Bytes
    the guest sends on an open connection reach its host stream in order. *)

From S2P Require Import Prelude Dirty GuestMem GuestRam VQueue VQueueWalk VQueueRun VQueuePeek VQueuePass Regs Bus Dev VsockPacket VsockState Vsock VsockInv VsockRx.

(** The packet is one the device answers by its operation. *)
Definition is_op (p : VsockPacket) (o : Z) : Prop :=
  h_type_ (header p) = packet_type.STREAM ∧ h_op (header p) = o.

(** A connection whose peer has the credit a packet carries. *)
Definition with_credit {S : Type} (p : VsockPacket) (st : S) (fwd : Z) (est : bool) : Connection S :=
  mkConn st (h_buf_alloc (header p)) (h_fwd_cnt (header p)) fwd est.

(** ** The socket machine *)

(** The connection a packet of the guest names. *)
Definition guest_key (p : VsockPacket) : ConnectionKey :=
  mkKey (h_src_cid (header p)) (h_src_port (header p)) (h_dst_port (header p)).

(** What an answer says; the rest of its header follows from the packet it
    answers: it comes from the host (address 2) and the port the guest named,
    goes to the address and the port the guest used, is a stream packet
    without data and grants the 256 KiB of the host's buffer. *)
Record answer := mkAnswer { a_op : Z; a_flags : Z; a_fwd_cnt : Z }.

Definition answer_packet (p : VsockPacket) (a : answer) : VsockPacket :=
  mkPacket (mkVsockHeader 2 (h_src_cid (header p)) (h_dst_port (header p)) (h_src_port (header p)) 0 1
              (a_op a) (a_flags a) 262144 (a_fwd_cnt a)) [].

Definition rst : option answer := Some (mkAnswer op.RST 0 0).

(** The queue to the guest takes an answer unless 4096 packets wait. *)
Definition queued (p : VsockPacket) (a : option answer) (q : list VsockPacket) : list VsockPacket :=
  match a with
  | Some a => if Z.of_nat (length q) <? 4096 then q ++ [answer_packet p a] else q
  | None => q
  end.

(** One packet for one connection ([None] is closed), with its answer; [full]
    says that the table has no room for one more connection. *)
Inductive conn_step {S L : Type} `{!HostVsockStream S} `{!HostVsockListener L S} (full : bool) (p : VsockPacket)
    : option L → option (Connection S) → option answer → option L → option (Connection S) → Prop :=
| step_not_stream l c : h_type_ (header p) ≠ packet_type.STREAM → conn_step full p l c rst l c
| step_not_host l c : is_op p op.REQUEST → h_dst_cid (header p) ≠ 2 → conn_step full p l c rst l c
| step_no_listener c : is_op p op.REQUEST → h_dst_cid (header p) = 2 → conn_step full p None c rst None c
| step_no_room l : is_op p op.REQUEST → h_dst_cid (header p) = 2 → full = true →
    conn_step full p (Some l) None rst (Some l) None
| step_refused l l' c : is_op p op.REQUEST → h_dst_cid (header p) = 2 → full = false ∨ is_Some c →
    listener_connect l (h_dst_port (header p)) = (None, l') → conn_step full p (Some l) c rst (Some l') c
| step_accepted l l' c st : is_op p op.REQUEST → h_dst_cid (header p) = 2 → full = false ∨ is_Some c →
    listener_connect l (h_dst_port (header p)) = (Some st, l') →
    conn_step full p (Some l) c (Some (mkAnswer op.RESPONSE 0 0)) (Some l') (Some (with_credit p st 0 true))
| step_response l c : is_op p op.RESPONSE →
    conn_step full p l (Some c) None l (Some (with_credit p (stream c) (fwd_cnt c) true))
| step_data l c st : is_op p op.RW → stream_write_all (stream c) (data p) = (true, st) →
    conn_step full p l (Some c) None l
      (Some (with_credit p st (u32_wrapping_add (fwd_cnt c) (data_len (data p))) (established c)))
| step_data_failed l c st : is_op p op.RW → stream_write_all (stream c) (data p) = (false, st) →
    conn_step full p l (Some c) rst l None
| step_data_unknown l : is_op p op.RW → conn_step full p l None rst l None
| step_credit l c : is_op p op.CREDIT_UPDATE →
    conn_step full p l (Some c) None l (Some (with_credit p (stream c) (fwd_cnt c) (established c)))
| step_unknown l : is_op p op.RESPONSE ∨ is_op p op.CREDIT_UPDATE → conn_step full p l None None l None
| step_credit_request l c : is_op p op.CREDIT_REQUEST →
    conn_step full p l c (Some (mkAnswer op.CREDIT_UPDATE 0 (from_option fwd_cnt 0 c))) l c
| step_shutdown l c : is_op p op.SHUTDOWN →
    conn_step full p l c (Some (mkAnswer op.SHUTDOWN (h_flags (header p)) 0)) l None
| step_rst l c : is_op p op.RST → conn_step full p l c None l None
| step_invalid l c : is_op p op.INVALID → conn_step full p l c None l c
| step_other l c : h_type_ (header p) = packet_type.STREAM → ¬ (0 ≤ h_op (header p) ≤ 7) → conn_step full p l c rst l c.

(** The machine: at most 1024 connections, every packet a step of its own. *)
Record socket (S L : Type) := mkSocket {
  k_listener : option L;
  k_table : gmap ConnectionKey (Connection S);
  k_queue : list VsockPacket;
}.
Arguments mkSocket {S L} _ _ _.
Arguments k_listener {S L} _.
Arguments k_table {S L} _.
Arguments k_queue {S L} _.

Inductive tx_step {S L : Type} `{!HostVsockStream S} `{!HostVsockListener L S} (p : VsockPacket)
    : socket S L → socket S L → Prop :=
| tx_step_conn l conns q a l' c' :
    conn_step (1024 <=? Z.of_nat (base.size conns)) p l (conns !! guest_key p) a l' c' →
    tx_step p (mkSocket l conns q)
      (mkSocket l' (partial_alter (fun _ => c') (guest_key p) conns) (queued p a q)).

Inductive tx_run {S L : Type} `{!HostVsockStream S} `{!HostVsockListener L S}
    : list VsockPacket → socket S L → socket S L → Prop :=
| run_nil k : tx_run [] k k
| run_packet p ps k k1 k2 : tx_step p k k1 → tx_run ps k1 k2 → tx_run (p :: ps) k k2.

(** What the machine sees of the device. *)
Definition socket_of {M S L : Type} (d : VirtioVsockMmio M S L) : socket S L :=
  mkSocket (host_listener d) (connections d) (pending_rx d).

(** The payloads of the data packets that name a connection. *)
Definition payloads (k : ConnectionKey) (ps : list VsockPacket) : list (list Z) :=
  data <$> filter (fun p => key_from_guest (header p) = k ∧ h_op (header p) = op.RW) ps.

(** Writing them one by one. *)
Fixpoint write_all_of {S : Type} `{!HostVsockStream S} (st : S) (bss : list (list Z)) : option S :=
  match bss with
  | [] => Some st
  | bs :: bss' =>
      match stream_write_all st bs with
      | (true, st') => write_all_of st' bss'
      | (false, _) => None
      end
  end.

(** Data and credit packets only. *)
Definition keeps_open (p : VsockPacket) : Prop :=
  is_op p op.RW ∨ is_op p op.RESPONSE ∨ is_op p op.CREDIT_UPDATE ∨ is_op p op.CREDIT_REQUEST.

(** A packet has one operation. *)
Ltac op_clash :=
  exfalso;
  repeat match goal with
  | H : is_op _ _ ∨ _ |- _ => destruct H
  | H : is_op _ _ |- _ => destruct H
  end;
  match goal with
  | H1 : h_op ?x = _, H2 : h_op ?x = _ |- _ => rewrite H1 in H2; discriminate H2
  | H1 : h_op ?x = _, H2 : ¬ (0 ≤ h_op ?x ≤ 7) |- _ => rewrite H1 in H2; apply H2; split; discriminate
  | H1 : h_type_ ?x = _, H2 : h_type_ ?x ≠ _ |- _ => contradiction
  end.

(** ** The machine has one step for each packet *)
Section determinism.
Context {S L : Type} `{!HostVsockStream S} `{!HostVsockListener L S}.

Lemma conn_step_det full p l (c : option (Connection S)) a1 a2 (l1 l2 : option L) c1 c2 :
  conn_step full p l c a1 l1 c1 → conn_step full p l c a2 l2 c2 → a1 = a2 ∧ l1 = l2 ∧ c1 = c2.
Proof.
  intros H1 H2. destruct H1; inversion H2; subst; try op_clash; try done; try congruence;
    try (match goal with H : _ ∨ is_Some None |- _ => destruct H as [?|[? ?]]; done end);
    split_and!; congruence.
Qed.

Lemma tx_step_det p (k k1 k2 : socket S L) : tx_step p k k1 → tx_step p k k2 → k1 = k2.
Proof.
  intros H1 H2. destruct H1 as [l conns q a l' c' H1]. inversion H2 as [????? c2 H2']; subst.
  by destruct (conn_step_det _ _ _ _ _ _ _ _ _ _ H1 H2') as (-> & -> & ->).
Qed.

Lemma tx_run_det ps (k k1 k2 : socket S L) : tx_run ps k k1 → tx_run ps k k2 → k1 = k2.
Proof.
  intros H1. revert k2. induction H1 as [|p ps k k1 k' Hs _ IH]; intros k2 H2; inversion H2; subst; [done|].
  apply IH. by rewrite (tx_step_det _ _ _ _ Hs ltac:(eassumption)).
Qed.

(** A packet leaves the other connections alone. *)
Lemma tx_step_others p (k k' : socket S L) key :
  tx_step p k k' → guest_key p ≠ key → k_table k' !! key = k_table k !! key.
Proof. destruct 1. cbn. intros. by rewrite lookup_partial_alter_ne. Qed.

Lemma tx_run_others ps (k k' : socket S L) key :
  tx_run ps k k' → (∀ p, p ∈ ps → guest_key p ≠ key) → k_table k' !! key = k_table k !! key.
Proof.
  induction 1 as [|p ps k k1 k' Hs _ IH]; intros Hp; [done|].
  rewrite IH by (intros; apply Hp; by right). eapply tx_step_others; [done|]. apply Hp. by left.
Qed.

End determinism.

(** ** One packet *)
Section packet.
Context {M S L : Type} `{!GuestMemoryBackend M} `{!HostVsockStream S} `{!HostVsockListener L S}.
Implicit Types d : VirtioVsockMmio M S L.

(** [conn_step] at the device before the packet. *)
Abbreviation own_step p d := (conn_step (1024 <=? Z.of_nat (base.size (connections d))) p (host_listener d)
  (connections d !! guest_key p)).

Abbreviation effect p d := (fun r d' => r = Ok tt ∧ healthy d' ∧ tx_step p (socket_of d) (socket_of d')).

Lemma effect_intro p d d' a c' :
  own_step p d a (host_listener d') c' →
  connections d' = partial_alter (fun _ => c') (guest_key p) (connections d) →
  pending_rx d' = queued p a (pending_rx d) → tx_step p (socket_of d) (socket_of d').
Proof. intros Hs Hc Hq. unfold socket_of. rewrite Hc, Hq. by constructor. Qed.

(** A reply after the listener and the table have been changed. *)
Lemma wp_reply p d d1 o flags fwd c' :
  healthy d1 → pending_rx d1 = pending_rx d →
  own_step p d (Some (mkAnswer o flags fwd)) (host_listener d1) c' →
  connections d1 = partial_alter (fun _ => c') (guest_key p) (connections d) →
  wp (reply (header p) o flags fwd) (effect p d) d1.
Proof.
  intros [Hf Hp] Hpe Hs Hc. apply wp_lock_healthy; [done|]. apply wp_get. unfold MAX_PENDING_RX.
  rewrite Z.leb_antisym, Hpe. destruct (_ <? 4096) eqn:El; cbn [negb].
  - apply wp_modify. do 2 (split; [done|]). eapply effect_intro; [exact Hs|done|]. cbn. by rewrite Hpe, El.
  - apply wp_ret. do 2 (split; [done|]). eapply effect_intro; [exact Hs|done|]. cbn. by rewrite Hpe, El.
Qed.

Lemma alter_same (c : option (Connection S)) k (m : gmap ConnectionKey (Connection S)) : m !! k = c → m = partial_alter (fun _ => c) k m.
Proof. intros <-. apply map_eq. intros i. destruct (decide (k = i)) as [->|];
  [by rewrite lookup_partial_alter_eq|by rewrite lookup_partial_alter_ne]. Qed.

(** A reply that changes nothing else. *)
Lemma wp_only_reply p d o flags fwd :
  healthy d → own_step p d (Some (mkAnswer o flags fwd)) (host_listener d) (connections d !! guest_key p) →
  wp (reply (header p) o flags fwd) (effect p d) d.
Proof. intros Hh Hs. eapply wp_reply; [done|done|exact Hs|by apply alter_same]. Qed.

Lemma exceeds_cap (conns : gmap ConnectionKey (Connection S)) k :
  connection_insert_would_exceed_cap conns k = (1024 <=? Z.of_nat (base.size conns)) && bool_decide (conns !! k = None).
Proof. reflexivity. Qed.

Lemma wp_handle_request p d :
  healthy d → is_op p op.REQUEST → wp (handle_request (header p)) (effect p d) d.
Proof.
  intros Hh Hop. pose proof Hh as [Hf Hp]. unfold handle_request.
  change (key_from_guest (header p)) with (guest_key p).
  destruct (h_dst_cid (header p) =? VSOCK_HOST_CID) eqn:Ehost; bool_to_prop; cbn [negb];
    [|apply wp_only_reply; [done|by apply step_not_host]].
  apply wp_lock_healthy; [done|]. apply wp_get.
  destruct (host_listener d) as [lis|] eqn:El;
    [|apply wp_only_reply; [done|]; rewrite El; by apply step_no_listener].
  apply wp_lock_healthy; [done|]. rewrite exceeds_cap.
  set (full := 1024 <=? _). destruct (full && _) eqn:Ecap.
  { apply andb_true_iff in Ecap as [Efull Enone%bool_decide_eq_true]. apply wp_only_reply; [done|].
    rewrite El, Enone. by apply step_no_room. }
  assert (full = false ∨ is_Some (connections d !! guest_key p)) as Hroom.
  { apply andb_false_iff in Ecap as [?|E%bool_decide_eq_false]; [by left|]. right. by apply not_eq_None_Some. }
  destruct (listener_connect lis _) as [[st|] lis'] eqn:Econ; apply wp_bind, wp_modify.
  - apply wp_lock_healthy; [done|]. apply wp_get. rewrite exceeds_cap.
    cbn [connections with_host_listener]. fold full. rewrite Ecap.
    apply wp_bind, wp_modify. eapply wp_reply; [done|done|rewrite El; by eapply step_accepted|done].
  - eapply wp_reply; [done|done|rewrite El; by eapply step_refused|by apply alter_same].
Qed.

Lemma wp_update p d f :
  healthy d →
  (∀ c, connections d !! guest_key p = Some c → own_step p d None (host_listener d) (Some (f c))) →
  (connections d !! guest_key p = None → own_step p d None (host_listener d) None) →
  wp (update_connection (guest_key p) f) (effect p d) d.
Proof.
  intros Hh Hs Hn. pose proof Hh as [_ Hp]. apply wp_lock_healthy; [done|]. apply wp_modify. do 2 (split; [done|]).
  eapply (effect_intro _ _ _ None (f <$> connections d !! guest_key p)); [|cbn|done].
  - destruct (connections d !! guest_key p) as [c|] eqn:E; cbn; auto.
  - apply map_eq. intros k. destruct (decide (guest_key p = k)) as [<-|].
    + by rewrite lookup_alter_eq, lookup_partial_alter_eq.
    + by rewrite lookup_alter_ne, lookup_partial_alter_ne.
Qed.

Lemma delete_insert_alter (m : gmap ConnectionKey (Connection S)) k c :
  delete k (<[k := c]> m) = partial_alter (fun _ => None) k m.
Proof. by rewrite delete_insert_eq. Qed.

Lemma wp_handle_rw p d : healthy d → is_op p op.RW → wp (handle_rw (header p) (data p)) (effect p d) d.
Proof.
  intros Hh Hop. pose proof Hh as [_ Hp]. unfold handle_rw. change (key_from_guest (header p)) with (guest_key p).
  apply wp_lock_healthy; [done|]. apply wp_get. destruct (connections d !! guest_key p) as [c|] eqn:E.
  - destruct (stream_write_all (stream c) (data p)) as [[] st] eqn:Ew; apply wp_bind, wp_modify; cbn [negb].
    + apply wp_ret. do 2 (split; [done|]). eapply (effect_intro _ _ _ None); [rewrite E; by apply step_data|done|done].
    + apply wp_bind, wp_modify. eapply wp_reply; [done|done|rewrite E; by eapply step_data_failed|].
      apply delete_insert_alter.
  - apply wp_bind, wp_modify. eapply wp_reply; [done|done|rewrite E; by apply step_data_unknown|done].
Qed.

Lemma wp_handle_tx_packet p d : healthy d → wp (handle_tx_packet p) (effect p d) d.
Proof.
  intros Hh. pose proof Hh as [_ Hp].
  unfold handle_tx_packet, handle_response, handle_credit_update, handle_credit_request, handle_shutdown, handle_rst.
  change (key_from_guest (header p)) with (guest_key p).
  destruct (h_type_ (header p) =? packet_type.STREAM) eqn:Et; bool_to_prop; cbn [negb];
    [|apply wp_only_reply; [done|by apply step_not_stream]].
  destruct (h_op (header p) =? op.REQUEST) eqn:E1; bool_to_prop; [by apply wp_handle_request|].
  destruct (h_op (header p) =? op.RESPONSE) eqn:E2; bool_to_prop.
  { apply wp_update; [done|intros c Hc; rewrite Hc; by apply step_response|].
    intros Hc. rewrite Hc. apply step_unknown. by left. }
  destruct (h_op (header p) =? op.RW) eqn:E3; bool_to_prop; [by apply wp_handle_rw|].
  destruct (h_op (header p) =? op.CREDIT_UPDATE) eqn:E4; bool_to_prop.
  { apply wp_update; [done|intros c Hc; rewrite Hc; by apply step_credit|].
    intros Hc. rewrite Hc. apply step_unknown. by right. }
  destruct (h_op (header p) =? op.CREDIT_REQUEST) eqn:E5; bool_to_prop.
  { apply wp_lock_healthy; [done|]. apply wp_get, wp_only_reply; [done|]. by apply step_credit_request. }
  destruct (h_op (header p) =? op.SHUTDOWN) eqn:E6; bool_to_prop.
  { apply wp_lock_healthy; [done|]. apply wp_bind, wp_modify.
    eapply wp_reply; [done|done|by apply step_shutdown|done]. }
  destruct (h_op (header p) =? op.RST) eqn:E7; bool_to_prop.
  { apply wp_lock_healthy; [done|]. apply wp_modify. do 2 (split; [done|]).
    eapply (effect_intro _ _ _ None); [by apply step_rst|done|done]. }
  destruct (h_op (header p) =? op.INVALID) eqn:E8; bool_to_prop.
  { apply wp_ret. do 2 (split; [done|]). eapply (effect_intro _ _ _ None); [by apply step_invalid|by apply alter_same|done]. }
  apply wp_only_reply; [done|]. apply step_other; [done|].
  unfold op.REQUEST, op.RESPONSE, op.RW, op.CREDIT_UPDATE, op.CREDIT_REQUEST, op.SHUTDOWN, op.RST, op.INVALID in *. lia.
Qed.

End packet.

(** ** Sequences of packets *)
Section packets.
Context {M S L : Type} `{!GuestMemoryBackend M} `{!HostVsockStream S} `{!HostVsockListener L S}.
Implicit Types d : VirtioVsockMmio M S L.

Lemma wp_tx_packets ps : ∀ d, healthy d →
  wp (for_each handle_tx_packet ps)
    (fun r d' => r = Ok tt ∧ healthy d' ∧ tx_run ps (socket_of d) (socket_of d')) d.
Proof.
  induction ps as [|p ps IH]; intros d Hd; cbn [for_each]; [apply wp_ret; do 2 (split; [done|]); constructor|].
  apply wp_bind. eapply wp_mono; [by apply wp_handle_tx_packet|]. intros r d1 (-> & Hd1 & Hs).
  eapply wp_mono; [by apply IH|]. intros r d2 (-> & Hd2 & Hr). do 2 (split; [done|]). by eapply run_packet.
Qed.

Definition total_bytes (bss : list (list Z)) : Z := foldr (fun bs n => Z.of_nat (length bs) + n) 0 bss.

Lemma payloads_cons k p ps :
  payloads k (p :: ps) =
  (if decide (key_from_guest (header p) = k ∧ h_op (header p) = op.RW) then [data p] else []) ++ payloads k ps.
Proof. unfold payloads. rewrite filter_cons. by destruct (decide _). Qed.

(** One data or credit packet on an open connection. *)
Lemma open_step full p l (c : Connection S) a (l' : option L) c' :
  conn_step full p l (Some c) a l' c' → keeps_open p →
  if decide (h_op (header p) = op.RW) then
    ∀ st, stream_write_all (stream c) (data p) = (true, st) →
    c' = Some (with_credit p st (u32_wrapping_add (fwd_cnt c) (data_len (data p))) (established c))
  else ∃ c0, c' = Some c0 ∧ stream c0 = stream c ∧ fwd_cnt c0 = fwd_cnt c.
Proof.
  intros Hs Hopen. destruct Hopen as [[Ht Ho]|Hopen].
  - rewrite decide_True by done. intros st Hw. inversion Hs; subst; try op_clash; congruence.
  - rewrite decide_False by (intros Ho; destruct Hopen as [?|[?|?]]; op_clash).
    inversion Hs; subst; try (eexists; split_and!; [reflexivity|done|done]); destruct Hopen as [?|[?|?]]; op_clash.
Qed.

(** An open connection that sees only data and credit stays open, and its
    stream has been written the payloads. *)
Lemma tx_run_open k ps (s s' : socket S L) :
  tx_run ps s s' → ∀ c st, k_table s !! k = Some c → in_u32 (fwd_cnt c) →
  (∀ p, p ∈ ps → key_from_guest (header p) = k → keeps_open p) →
  write_all_of (stream c) (payloads k ps) = Some st →
  ∃ c', k_table s' !! k = Some c' ∧ stream c' = st ∧
    fwd_cnt c' = (fwd_cnt c + total_bytes (payloads k ps)) mod 4294967296.
Proof.
  induction 1 as [s|p ps s s1 s2 Hs _ IH]; intros c st Hc Hr Hop Hw.
  { injection Hw as <-. exists c. split_and!; [done..|]. cbn. rewrite Z.add_0_r, Z.mod_small; [done|].
    autounfold with tarit in *. lia. }
  assert (∀ q, q ∈ ps → key_from_guest (header q) = k → keeps_open q) as Hop' by (intros q Hq; apply Hop; by right).
  rewrite payloads_cons in *. destruct (decide (guest_key p = k)) as [Hk|Hk].
  2: { rewrite decide_False in * by (by intros [? _]). apply IH; [|done..]. by rewrite (tx_step_others _ _ _ _ Hs Hk). }
  pose proof (Hop p ltac:(by left) Hk) as Hopen. destruct Hs as [l conns q a l' c1 Hs]. cbn [k_table] in *.
  rewrite Hk, Hc in Hs. apply open_step in Hs; [|done]. destruct (decide (h_op (header p) = op.RW)) as [Ho|Ho].
  - rewrite decide_True in * by done. cbn [app write_all_of] in Hw.
    destruct (stream_write_all (stream c) (data p)) as [[] st1] eqn:Ew; [|done].
    specialize (Hs st1 eq_refl). subst c1.
    edestruct (IH (with_credit p st1 (u32_wrapping_add (fwd_cnt c) (data_len (data p))) (established c)) st)
      as (c' & Hc' & Hst & Hf); [by rewrite Hk, lookup_partial_alter_eq| |done|done|].
    { unfold u32_wrapping_add. cbn. autounfold with tarit. zlia. }
    exists c'. split_and!; [done..|]. rewrite Hf. cbn [app total_bytes foldr with_credit fwd_cnt].
    fold (total_bytes (payloads k ps)). unfold u32_wrapping_add, data_len, as_u32. zlia.
  - rewrite decide_False in * by (by intros [_ ?]). destruct Hs as (c0 & -> & Hs0 & Hf0).
    destruct (IH c0 st) as (c' & Hc' & Hst & Hf); [by rewrite Hk, lookup_partial_alter_eq|by rewrite Hf0|done|by rewrite Hs0|].
    exists c'. by rewrite <- Hf0.
Qed.

End packets.

(** C17: The device refines the socket machine: a healthy device handles every
    sequence of guest packets, and the listener, the table of connections and
    the queue to the guest end as the machine says and in no other way. A
    packet is a step of the one connection it names and leaves all others
    alone. A request is refused exactly when it is not for the host, nobody
    listens, 1024 other connections are open or the listener refuses it. Every
    answer goes to the address and port the packet came from, as the operation
    asks: a reset, a response, the count of forwarded bytes or the echo of a
    shutdown; it is lost only if 4096 packets wait for the guest. *)
Theorem vsock_tx_refines {M S L : Type} `{!GuestMemoryBackend M} `{!HostVsockStream S} `{!HostVsockListener L S}
    (d : VirtioVsockMmio M S L) ps :
  healthy d →
  ∃ d', for_each handle_tx_packet ps d = Some (Ok tt, d') ∧ healthy d' ∧
    tx_run ps (socket_of d) (socket_of d') ∧
    (∀ k, tx_run ps (socket_of d) k → k = socket_of d') ∧
    (∀ k, (∀ p, p ∈ ps → guest_key p ≠ k) → connections d' !! k = connections d !! k).
Proof.
  intros Hd. destruct (wp_tx_packets ps d Hd) as (r & d' & Hr & -> & Hd' & Hs). exists d'. split_and!; [done..| |].
  - intros k Hk. by apply (tx_run_det ps (socket_of d)).
  - intros k. exact (tx_run_others ps _ _ k Hs).
Qed.

(** C19: Bytes the guest sends on an open connection reach its host stream
    complete and in order, whatever it sends on other connections meanwhile,
    and the count of forwarded bytes that the device reports back as credit
    grows by exactly their number, modulo 2^32. *)
Theorem vsock_stream_bytes {M S L : Type} `{!GuestMemoryBackend M} `{!HostVsockStream S} `{!HostVsockListener L S}
    (d : VirtioVsockMmio M S L) ps k c st :
  healthy d → connections d !! k = Some c → in_u32 (fwd_cnt c) →
  (∀ p, p ∈ ps → key_from_guest (header p) = k → keeps_open p) →
  write_all_of (stream c) (payloads k ps) = Some st →
  ∃ d' c', for_each handle_tx_packet ps d = Some (Ok tt, d') ∧
    connections d' !! k = Some c' ∧ stream c' = st ∧
    fwd_cnt c' = (fwd_cnt c + total_bytes (payloads k ps)) mod 4294967296.
Proof.
  intros Hd Hc Hr Hop Hw. destruct (wp_tx_packets ps d Hd) as (r & d' & Hrun & -> & _ & Hs).
  destruct (tx_run_open k _ _ _ Hs c st Hc Hr Hop Hw) as (c' & ? & ? & ?). by exists d', c'.
Qed.

(** ** Ports of the host *)
Section ports.

(** The port of a value of the counter: the span divides [2^32]. *)
Definition port_of (seq : Z) : Z := 49152 + (seq - 49152) mod 16384.

Lemma port_of_range seq : 49152 ≤ port_of seq ≤ 65535.
Proof. unfold port_of. zlia. Qed.

Lemma port_of_wrap seq : port_of (u32_fetch_add seq 1) = port_of (seq + 1).
Proof. unfold port_of, u32_fetch_add. zlia. Qed.

Lemma tried_port seq : 49152 + (seq - 49152) mod 4294967296 mod 16384 = port_of seq.
Proof. unfold port_of. zlia. Qed.

Lemma port_of_shift a b i : port_of a = port_of b → port_of (a + i) = port_of (b + i).
Proof. unfold port_of. zlia. Qed.

(** Without a free port every port that was tried is taken. *)
Lemma select_port_spec n taken : ∀ seq,
  match select_port n taken seq with
  | (Some p, seq') => 49152 ≤ p ≤ 65535 ∧ taken p = false
  | (None, seq') => ∀ i, 0 ≤ i < Z.of_nat n → taken (port_of (seq + i)) = true
  end.
Proof.
  induction n as [|n IH]; intros seq; cbn [select_port]; [intros; lia|].
  unfold HOST_EPHEMERAL_PORT_START, HOST_EPHEMERAL_PORT_END. change (65535 - 49152 + 1) with 16384.
  rewrite tried_port. destruct (taken (port_of seq)) eqn:Et; [|split; [apply port_of_range|done]].
  specialize (IH (u32_fetch_add seq 1)). destruct (select_port n taken _) as [[p|] seq']; [done|].
  intros i Hi. destruct (decide (i = 0)) as [->|]; [by rewrite Z.add_0_r|].
  rewrite <- (IH (i - 1)) by lia. f_equal.
  rewrite (port_of_shift _ _ (i - 1) (port_of_wrap seq)). f_equal. lia.
Qed.

(** Fewer connections than ports: some port is free. *)
Lemma select_port_total {A} (conns : gmap ConnectionKey A) cid port seq :
  Z.of_nat (base.size conns) < 1024 →
  ∃ p seq', select_port (Z.to_nat 16384) (fun q => bool_decide (is_Some (conns !! mkKey cid port q))) seq
      = (Some p, seq') ∧ 49152 ≤ p ≤ 65535 ∧ conns !! mkKey cid port p = None.
Proof.
  intros Hsz. pose proof (select_port_spec (Z.to_nat 16384)
    (fun q => bool_decide (is_Some (conns !! mkKey cid port q))) seq) as Hs.
  destruct (select_port _ _ seq) as [[p|] seq'].
  - destruct Hs as [Hr Ht]. exists p, seq'. do 2 (split; [done|]).
    apply bool_decide_eq_false in Ht. by apply eq_None_not_Some.
  - exfalso. set (keys := (fun i => mkKey cid port (port_of (seq + i))) <$> seqZ 0 1024).
    assert (NoDup keys) as Hnd.
    { apply NoDup_fmap_2_strong; [|apply NoDup_seqZ]. intros i j Hi%elem_of_seqZ Hj%elem_of_seqZ [= He].
      unfold port_of in He. zlia. }
    assert (list_to_set keys ⊆@{gset ConnectionKey} dom conns) as Hsub.
    { intros k Hk. apply elem_of_list_to_set, list_elem_of_fmap in Hk as (i & -> & Hi%elem_of_seqZ).
      apply elem_of_dom. specialize (Hs i ltac:(lia)). by apply bool_decide_eq_true in Hs. }
    apply subseteq_size in Hsub. rewrite size_list_to_set, size_dom in Hsub by done.
    subst keys. rewrite length_fmap, length_seqZ in Hsub. lia.
Qed.

End ports.

(** ** Steps of a healthy device *)
Section healthy.
Context {M S L : Type} `{!GuestMemoryBackend M} `{!HostVsockStream S} `{!HostVsockListener L S}.
Implicit Types d : VirtioVsockMmio M S L.

Lemma wp_ensure_healthy (Q : result unit MmioError → _ → Prop) d :
  is_failed d = false → Q (Ok tt) d → wp ensure_operational Q d.
Proof. intros Hf HQ. eexists _, _. unfold ensure_operational, dev_bind, get. by rewrite Hf. Qed.

Lemma wp_try_lock_healthy l (Q : result unit MmioError → _ → Prop) d :
  poisoned d = [] → Q (Ok tt) d → wp (try_lock_state l) Q d.
Proof. intros Hp HQ. eexists _, _. unfold try_lock_state. by rewrite Hp, decide_False by apply not_elem_of_nil. Qed.

Lemma wp_enqueue_healthy p d :
  healthy d → vsock_ok d → Z.of_nat (length (data p)) ≤ HOST_READ_CHUNK →
  wp (enqueue_rx p) (fun r d' => r = Ok tt ∧ healthy d' ∧ vsock_ok d' ∧
    d' = if Z.of_nat (length (pending_rx d)) <? 4096 then with_pending_rx d (pending_rx d ++ [p]) else d) d.
Proof.
  intros Hh Hok Hp. pose proof Hh as [_ Hno]. destruct (keep_enqueue p Hp d Hok) as (r & d' & Hr & Hok').
  exists r, d'. split; [done|]. revert Hr. unfold enqueue_rx, dev_bind, get, modify, ret, try_lock_state, MAX_PENDING_RX.
  rewrite Hno, decide_False by apply not_elem_of_nil. rewrite Z.leb_antisym.
  destruct (_ <? 4096); cbn [negb]; by intros [= <- <-].
Qed.

End healthy.

(** A host can always open a stream to the guest below the cap of 1024
    connections: some ephemeral port is free for it, the connection is entered
    under that port and is not established yet, no other connection changes,
    and the request for the guest is queued last unless the queue is full. *)
Theorem vsock_connect_finds_port {M S L : Type} `{!GuestMemoryBackend M} `{!GuestMemoryLaws M}
    `{!HostVsockStream S} `{!HostVsockListener L S} (d : VirtioVsockMmio M S L) guest_port st :
  healthy d → vsock_ok d → in_u64 (rx_packets d) → in_u64 (rx_bytes d) →
  Z.of_nat (base.size (connections d)) < 1024 →
  ∃ d' host_port ps, connect_guest_stream guest_port (Some st) d = Some (Ok tt, d') ∧
    let k := mkKey (guest_cid d) guest_port host_port in
    49152 ≤ host_port ≤ 65535 ∧ connections d !! k = None ∧
    connections d' = <[k := mkConn st DEFAULT_BUF_ALLOC 0 0 false]> (connections d) ∧
    (if Z.of_nat (length (pending_rx d)) <? 4096
     then pending_rx d ++ [host_packet k op.REQUEST 0 [] 0] = ps ++ pending_rx d'
     else pending_rx d = ps ++ pending_rx d').
Proof.
  intros [Hf Hno] Hok Hc1 Hc2 Hsz.
  destruct (select_port_total (connections d) (guest_cid d) guest_port (next_host_port d) Hsz)
    as (p & seq & Hsel & Hr & Hfree).
  enough (wp (connect_guest_stream guest_port (Some st)) (fun r d' => r = Ok tt ∧ ∃ ps,
    connections d' = <[mkKey (guest_cid d) guest_port p := mkConn st DEFAULT_BUF_ALLOC 0 0 false]> (connections d) ∧
    if Z.of_nat (length (pending_rx d)) <? 4096
    then pending_rx d ++ [host_packet (mkKey (guest_cid d) guest_port p) op.REQUEST 0 [] 0] = ps ++ pending_rx d'
    else pending_rx d = ps ++ pending_rx d') d) as (r & d' & Hrun & -> & ps & Hc & Hp).
  { exists d', p, ps. split; [done|]. cbv zeta. do 3 (split; [done|]). done. }
  unfold connect_guest_stream, MAX_CONNECTIONS. cbv zeta.
  apply wp_bind, wp_map_err, wp_ensure_healthy; [done|]. apply wp_bind, wp_map_err, wp_try_lock_healthy; [done|].
  apply wp_get. rewrite (proj2 (Z.leb_gt _ _)) by done. apply wp_bind, wp_map_err, wp_try_lock_healthy; [done|].
  apply wp_get. rewrite (proj2 (Z.leb_gt _ _)) by done.
  change (HOST_EPHEMERAL_PORT_END - HOST_EPHEMERAL_PORT_START + 1) with 16384. rewrite Hsel.
  apply wp_bind, wp_modify, wp_bind, wp_modify. set (d1 := insert_connection _ _ _).
  change (packet_new _ []) with (host_packet (mkKey (guest_cid d) guest_port p) op.REQUEST 0 [] 0).
  assert (vsock_ok d1) as Hok1.
  { apply insert_connection_ok; [by destruct Hok|]. unfold connection_insert_would_exceed_cap, MAX_CONNECTIONS.
    cbn [connections with_next_host_port]. by rewrite (proj2 (Z.leb_gt _ _)) by done. }
  apply wp_bind, wp_map_err. eapply wp_mono; [by apply wp_enqueue_healthy|]. intros r d2 (-> & Hh2 & Hok2 & Hd2).
  assert (in_u64 (rx_packets d2) ∧ in_u64 (rx_bytes d2) ∧ connections d2 = connections d1) as (Hc1' & Hc2' & Hco)
    by (subst d2; case_match; done).
  apply wp_bind, wp_map_err. eapply wp_mono; [by apply wp_process_rx_queue|].
  intros r d3 [(n & ps & -> & Hdl) _]. apply wp_ret. split; [done|]. exists ps.
  rewrite (dl_connections _ _ _ Hdl), Hco. split; [done|]. pose proof (dl_pending _ _ _ Hdl) as Hp.
  subst d2. cbn [pending_rx d1 insert_connection with_connections with_next_host_port] in Hp. by destruct (_ <? 4096).
Qed.

(** ** Pumping the streams of the host *)
Section pump.
Context {M S L : Type} `{!GuestMemoryBackend M} `{!HostVsockStream S} `{!HostVsockListener L S}.
Implicit Types d : VirtioVsockMmio M S L.

Lemma pump_loop_others order : ∀ (conns : gmap ConnectionKey (Connection S)) k,
  k ∉ order → (pump_loop order conns).1.1 !! k = conns !! k ∧ k ∉ (pump_loop order conns).2.
Proof.
  induction order as [|j order IH]; intros conns k Hk; cbn [pump_loop]; [by split; [|apply not_elem_of_nil]|].
  apply not_elem_of_cons in Hk as [Hne Hk]. destruct (conns !! j) as [c|]; [|by apply IH].
  destruct (pump_one j c) as [[c' p] close]. destruct (IH (<[j := c']> conns) k Hk) as [H1 H2].
  destruct (pump_loop order _) as [[conns' ps] closed]. cbn in *. rewrite H1, lookup_insert_ne by done.
  split; [done|]. destruct close; [by apply not_elem_of_cons|done].
Qed.

(** The bytes a connection has for the guest become a packet. *)
Lemma pump_loop_data order : ∀ (conns : gmap ConnectionKey (Connection S)) k c b bs st,
  NoDup order → k ∈ order → conns !! k = Some c → established c = true →
  stream_read (stream c) HOST_READ_CHUNK = (Ok (b :: bs), st) →
  (pump_loop order conns).1.1 !! k = Some (mkConn st (peer_buf_alloc c) (peer_fwd_cnt c) (fwd_cnt c) true) ∧
  k ∉ (pump_loop order conns).2 ∧ host_packet k op.RW 0 (b :: bs) (fwd_cnt c) ∈ (pump_loop order conns).1.2.
Proof.
  induction order as [|j order IH]; intros conns k c b bs st Hnd Hk Hc He Hrd; [by apply elem_of_nil in Hk|].
  apply NoDup_cons in Hnd as [Hj Hnd]. cbn [pump_loop]. destruct (decide (k = j)) as [->|Hne].
  - rewrite Hc. unfold pump_one. rewrite He, Hrd. cbn [negb].
    set (c' := mkConn _ _ _ _ _). destruct (pump_loop_others order (<[j := c']> conns) j Hj) as [H1 H2].
    destruct (pump_loop order _) as [[conns' ps] closed]. cbn in *. rewrite H1, lookup_insert_eq.
    split_and!; [done|done|by left].
  - apply elem_of_cons in Hk as [?|Hk]; [done|].
    destruct (conns !! j) as [cj|]; [|by apply (IH conns k c b bs st)].
    destruct (pump_one j cj) as [[c' p] close].
    destruct (IH (<[j := c']> conns) k c b bs st Hnd Hk) as (H1 & H2 & H3); [by rewrite lookup_insert_ne|done|done|].
    destruct (pump_loop order _) as [[conns' ps] closed]. cbn in *. split_and!; [done| |].
    + destruct close; [by apply not_elem_of_cons|done].
    + apply elem_of_app. by right.
Qed.

Lemma lookup_foldr_delete k (m : gmap ConnectionKey (Connection S)) ks :
  k ∉ ks → foldr delete m ks !! k = m !! k.
Proof.
  induction ks as [|j ks IH]; intros Hk; [done|]. apply not_elem_of_cons in Hk as [Hne Hk].
  cbn. rewrite lookup_delete_ne by done. by apply IH.
Qed.

(** A full queue takes no packet. *)
Lemma wp_enqueue_full ps d :
  healthy d → Z.of_nat (length (pending_rx d)) = 4096 →
  wp (for_each enqueue_rx ps) (fun r d' => r = Ok tt ∧ d' = d) d.
Proof.
  intros Hh Hfull. pose proof Hh as [_ Hno]. induction ps as [|p ps IH]; cbn [for_each]; [by apply wp_ret|].
  apply wp_bind. unfold enqueue_rx at 1. apply wp_lock_healthy; [done|]. apply wp_get. unfold MAX_PENDING_RX.
  rewrite (proj2 (Z.leb_le _ _)) by lia. by apply wp_ret.
Qed.

End pump.

(** C35: Bytes of the host are lost when the guest does not take packets. With
    4096 packets waiting for the guest, a pump in any order of the table reads
    what an established stream has for the guest and drops it, even if the
    guest has posted receive buffers by then: all that the guest is given and
    all that waits afterwards was queued before. The pump counts the dropped
    packet among those it reports and keeps the connection open, with a hole
    in its data. *)
Theorem vsock_pump_drops_bytes {M S L : Type} `{!GuestMemoryBackend M} `{!GuestMemoryLaws M}
    `{!HostVsockStream S} `{!HostVsockStreamLaws S} `{!HostVsockListener L S} (d : VirtioVsockMmio M S L) order k c b bs st :
  healthy d → vsock_ok d → in_u64 (rx_packets d) → in_u64 (rx_bytes d) →
  Z.of_nat (length (pending_rx d)) = 4096 →
  NoDup order → k ∈ order → connections d !! k = Some c → established c = true →
  stream_read (stream c) HOST_READ_CHUNK = (Ok (b :: bs), st) →
  ∃ n d' ps, pump_host_streams order d = Some (Ok n, d') ∧ 1 ≤ n ∧
    pending_rx d = ps ++ pending_rx d' ∧
    connections d' !! k = Some (mkConn st (peer_buf_alloc c) (peer_fwd_cnt c) (fwd_cnt c) true).
Proof.
  intros Hh Hok Hc1 Hc2 Hfull Hnd Hk Hc He Hrd. pose proof Hh as [Hf Hno].
  destruct (pump_loop_data order _ k c b bs st Hnd Hk Hc He Hrd) as (Hck & Hnc & Hp).
  enough (wp (pump_host_streams order) (fun r d' => ∃ n ps, r = Ok n ∧ 1 ≤ n ∧ pending_rx d = ps ++ pending_rx d' ∧
    connections d' !! k = Some (mkConn st (peer_buf_alloc c) (peer_fwd_cnt c) (fwd_cnt c) true)) d)
    as (r & d' & Hrun & n & ps & -> & Hn & Hps & Hd') by (by exists n, d', ps).
  apply wp_operational; [done|]. apply wp_lock_healthy; [done|]. apply wp_get.
  destruct (pump_loop order (connections d)) as [[conns packets] closed] eqn:Ep. cbn [fst snd] in *.
  destruct (pump_loop_ok _ _ _ _ _ Ep) as [Hsz _].
  apply wp_bind, wp_modify. set (d1 := with_connections d _). assert (healthy d1) as Hh1 by done.
  assert (vsock_ok d1) as Hok1.
  { destruct Hok. split; [|done..]. subst d1. cbn. pose proof (size_foldr_delete closed conns). lia. }
  apply wp_bind. eapply wp_mono; [by apply wp_enqueue_full|]. intros r d2 [-> ->].
  apply wp_bind. eapply wp_mono; [by apply wp_process_rx_queue|]. intros r d2 [(n & ps & -> & Hdl) _].
  apply wp_get. unfold is_failed. rewrite (dl_status _ _ _ Hdl). change (status d1) with (status d).
  fold (is_failed d). rewrite Hf. apply wp_ret. exists (Z.of_nat (length packets)), ps. split_and!; [done| | |].
  - destruct packets; [by apply elem_of_nil in Hp|]. cbn. lia.
  - exact (dl_pending _ _ _ Hdl).
  - rewrite (dl_connections _ _ _ Hdl). subst d1. cbn. by rewrite lookup_foldr_delete.
Qed.

(** ** A device with one open connection *)
Module ExampleConn.

Definition key : ConnectionKey := mkKey 3 1024 52.
Definition conn (s : ExampleSocket.stream) : Connection ExampleSocket.stream := mkConn s 262144 0 4294967295 true.
Definition data_packet (bs : list Z) : VsockPacket := packet_new (mkVsockHeader 3 2 1024 52 0 1 op.RW 0 262144 0) bs.
Definition request (port : Z) : VsockPacket := packet_new (mkVsockHeader 3 2 port 52 0 1 op.REQUEST 0 262144 0) [].

Definition device : VirtioVsockMmio (gmap Z Z) ExampleSocket.stream Z :=
  with_connections (with_host_listener (vsock_new 5 3) (Some 52)) {[ key := conn (ExampleSocket.mkStream [1; 2] []) ]}.

(** Two data packets with a request for another connection between them. *)
Definition packets : list VsockPacket := [data_packet [7]; request 1025; data_packet [8; 9]].

(** Packets that are refused, answered and dropped. *)
Definition mixed : list VsockPacket :=
  [packet_new (mkVsockHeader 3 7 1025 52 0 1 op.REQUEST 0 262144 0) [];
   request 1025;
   packet_new (mkVsockHeader 3 2 1024 52 0 1 op.CREDIT_REQUEST 0 262144 0) [];
   packet_new (mkVsockHeader 3 2 1024 52 0 1 op.SHUTDOWN 3 262144 0) [];
   data_packet [7]].

(** A full queue, and two connections of which the second has no data. *)
Definition idle_key : ConnectionKey := mkKey 3 1026 52.
Definition full : VirtioVsockMmio (gmap Z Z) ExampleSocket.stream Z :=
  with_connections (with_pending_rx device (replicate 4096 (data_packet [])))
    {[ key := conn (ExampleSocket.mkStream [1; 2] []); idle_key := conn (ExampleSocket.mkStream [] []) ]}.

End ExampleConn.

Lemma example_conn_healthy : healthy ExampleConn.device.
Proof. split; reflexivity. Qed.

Lemma example_conn_ok : vsock_ok ExampleConn.device.
Proof. split; [vm_compute; discriminate|vm_compute; discriminate|constructor|repeat constructor; done|done|done]. Qed.

(** The five packets get a reset, a response, the count [2^32 - 1] of the open
    connection, the echo of the shutdown, and a reset for the closed one. *)
Lemma example_mixed_answers :
  (fun d => (map_to_list (k_table (socket_of d))).*1) <$> (snd <$> for_each handle_tx_packet ExampleConn.mixed ExampleConn.device)
    = Some [mkKey 3 1025 52] ∧
  pending_rx <$> (snd <$> for_each handle_tx_packet ExampleConn.mixed ExampleConn.device) =
  Some [packet_new (mkVsockHeader 2 3 52 1025 0 1 op.RST 0 262144 0) [];
        packet_new (mkVsockHeader 2 3 52 1025 0 1 op.RESPONSE 0 262144 0) [];
        packet_new (mkVsockHeader 2 3 52 1024 0 1 op.CREDIT_UPDATE 0 262144 4294967295) [];
        packet_new (mkVsockHeader 2 3 52 1024 0 1 op.SHUTDOWN 3 262144 0) [];
        packet_new (mkVsockHeader 2 3 52 1024 0 1 op.RST 0 262144 0) []].
Proof. split; vm_compute; reflexivity. Qed.

Lemma vsock_tx_refines_witness :
  ∃ d', for_each handle_tx_packet ExampleConn.mixed ExampleConn.device = Some (Ok tt, d') ∧
    tx_run ExampleConn.mixed (socket_of ExampleConn.device) (socket_of d') ∧
    length (pending_rx d') = 5%nat.
Proof.
  destruct (vsock_tx_refines ExampleConn.device ExampleConn.mixed example_conn_healthy) as (d' & H1 & _ & H2 & _ & _).
  exists d'. pose proof (proj2 example_mixed_answers) as H3. rewrite H1 in H3. injection H3 as H3.
  rewrite H3. exact (conj H1 (conj H2 eq_refl)).
Defined.

Lemma vsock_stream_bytes_witness :
  ∃ d' c', for_each handle_tx_packet ExampleConn.packets ExampleConn.device = Some (Ok tt, d') ∧
    connections d' !! ExampleConn.key = Some c' ∧ ExampleSocket.outbox (stream c') = [7; 8; 9] ∧ fwd_cnt c' = 2.
Proof.
  destruct (vsock_stream_bytes ExampleConn.device ExampleConn.packets ExampleConn.key
    (ExampleConn.conn (ExampleSocket.mkStream [1; 2] [])) (ExampleSocket.mkStream [1; 2] [7; 8; 9]))
    as (d' & c' & H1 & H2 & H3 & H4).
  - exact example_conn_healthy.
  - reflexivity.
  - done.
  - intros p Hp Hk. unfold ExampleConn.packets in Hp. rewrite !elem_of_cons in Hp.
    destruct Hp as [->|[->|[->|Hp]]]; [by left|discriminate Hk|by left|by apply not_elem_of_nil in Hp].
  - reflexivity.
  - exists d', c'. rewrite H3, H4. exact (conj H1 (conj H2 (conj eq_refl eq_refl))).
Defined.

Lemma vsock_connect_finds_port_witness :
  ∃ d' port, connect_guest_stream 7 (Some (ExampleSocket.mkStream [] [])) ExampleConn.device = Some (Ok tt, d') ∧
    49152 ≤ port ≤ 65535 ∧ connections ExampleConn.device !! mkKey 3 7 port = None.
Proof.
  destruct (vsock_connect_finds_port ExampleConn.device 7 (ExampleSocket.mkStream [] []) example_conn_healthy)
    as (d' & port & ps & H1 & H2 & H3 & _).
  - exact example_conn_ok.
  - done.
  - done.
  - vm_compute. reflexivity.
  - exists d', port. exact (conj H1 (conj H2 H3)).
Defined.

Lemma example_full_ok : vsock_ok ExampleConn.full.
Proof.
  split; [vm_compute; discriminate| | |repeat constructor; done|done|done]; cbn [ExampleConn.full pending_rx with_connections with_pending_rx].
  - rewrite length_replicate. done.
  - apply Forall_replicate. done.
Qed.

Lemma vsock_pump_drops_bytes_witness :
  ∃ n d' ps, pump_host_streams [ExampleConn.idle_key; ExampleConn.key] ExampleConn.full = Some (Ok n, d') ∧ 1 ≤ n ∧
    pending_rx ExampleConn.full = ps ++ pending_rx d' ∧
    connections d' !! ExampleConn.key = Some (ExampleConn.conn (ExampleSocket.mkStream [] [])).
Proof.
  apply (vsock_pump_drops_bytes ExampleConn.full [ExampleConn.idle_key; ExampleConn.key] ExampleConn.key
    (ExampleConn.conn (ExampleSocket.mkStream [1; 2] [])) 1 [2] (ExampleSocket.mkStream [] [])).
  - split; reflexivity.
  - exact example_full_ok.
  - done.
  - done.
  - vm_compute. reflexivity.
  - apply NoDup_cons; split; [|apply NoDup_singleton]. intros H%list_elem_of_singleton. discriminate H.
  - right. left.
  - reflexivity.
  - reflexivity.
  - reflexivity.
Defined.
