(* ===== verification/VsockLife.v ===== *)
(** * Failure, reset and restore of the socket device

    A failed device stays failed and untouched until the driver resets it.
    After a restore every connection of the snapshot is closed towards the
    guest, none silently. *)

From S2P Require Import Prelude Dirty GuestMem GuestRam VQueue VQueueWalk VQueueRun VQueuePeek VQueuePass Regs Bus Dev VsockPacket VsockState Vsock VsockInv VsockRx VsockConn.

(** Everything but the reset by the driver and the restore of a snapshot. *)
Definition not_recovery {M S L : Type} (e : event M S L) : Prop :=
  match e with
  | Write off val => ¬ (off = reg.STATUS ∧ as_u32 val = 0)
  | Restore _ => False
  | _ => True
  end.

(** ** Failure *)
Section failure.
Context {M S L : Type} `{!GuestMemoryBackend M} `{!HostVsockStream S} `{!HostVsockListener L S}.
Implicit Types d : VirtioVsockMmio M S L.

(** Failed, with the connections and packets of [d]. *)
Definition stuck_as (d d' : VirtioVsockMmio M S L) : Prop :=
  is_failed d' = true ∧ connections d' = connections d ∧ pending_rx d' = pending_rx d.

Lemma fail_device_failed d : is_failed (fail_device d) = true.
Proof.
  unfold is_failed, has_bits, fail_device. cbn [status with_activated with_status].
  set (m := Z.lor DEVICE_NEEDS_RESET FAILED). assert (Z.land (Z.lor (status d) m) m = m) as ->; [|done].
  apply Z.bits_inj'. intros i _. rewrite Z.land_spec, Z.lor_spec. by destruct (Z.testbit (status d) i), (Z.testbit m i).
Qed.

Lemma stuck_fail d d' : stuck_as d d' → stuck_as d (fail_device d').
Proof. intros (_ & ? & ?). split; [apply fail_device_failed|done]. Qed.

Lemma stuck_lock_state {E} l d : keeps (stuck_as d) (lock_state (E:=E) l).
Proof. apply keeps_modify. intros d' Hd. case_decide; [by apply stuck_fail|done]. Qed.

Lemma stuck_configure l f d :
  (∀ d', stuck_as d d' → stuck_as d (f d')) →
  keeps (stuck_as d) (do* lock_state (E:=MmioError) l in modify f).
Proof. intros Hf. apply keeps_bind; [apply stuck_lock_state|]. intros _. by apply keeps_modify. Qed.

Lemma stuck_on_queue f d : keeps (stuck_as d) (on_queue f).
Proof. apply keeps_bind; [apply stuck_lock_state|]. intros _. apply keeps_get. intros d' Hd. by apply wp_ret. Qed.

Lemma stuck_mmio_read off len d : keeps (stuck_as d) (mmio_read off len).
Proof.
  apply keeps_get. intros d' Hd. match goal with |- wp ?c _ ?s => apply (fun H : keeps (stuck_as d) c => H s); [|done] end.
  keeps_cases; auto using keeps_ret, stuck_on_queue.
Qed.

(** The operations that ask for an operational device first. *)
Lemma refused {A} (k : unit → dev _ _ A) d :
  is_failed d = true → dev_bind ensure_operational k d = Some (Err DeviceRejected, d).
Proof. intros Hf. unfold dev_bind, ensure_operational, dev_bind, get. by rewrite Hf. Qed.

Lemma state_of_stuck {E A} (c : dev (VirtioVsockMmio M S L) E A) d :
  is_failed d = true → keeps (stuck_as d) c → ∃ d', state_of c d = Some d' ∧ stuck_as d d'.
Proof.
  intros Hf Hc. destruct (Hc d) as (r & d' & Hr & Hd'); [by split|]. exists d'. unfold state_of. by rewrite Hr.
Qed.

Lemma run_event_stuck e d : is_failed d = true → not_recovery e → ∃ d', run_event e d = Some d' ∧ stuck_as d d'.
Proof.
  intros Hf He. assert (stuck_as d d) as Hd by done.
  destruct e; cbn [run_event]; try done.
  - apply state_of_stuck; [done|]. apply stuck_mmio_read.
  - exists d. split; [|done]. unfold state_of, mmio_write, dev_bind, get. rewrite Hf.
    destruct ((off =? reg.STATUS) && (as_u32 val =? 0)) eqn:E; [|done]. exfalso. bool_to_prop. by apply He.
  - exists d. split; [|done]. unfold state_of, pump_host_streams. by rewrite refused.
  - exists d. split; [|done]. unfold state_of, connect_guest_stream, map_err, dev_bind at 1, ensure_operational, dev_bind, get.
    by rewrite Hf.
  - exists d. split; [|done]. unfold state_of, reset_restored_connections. by rewrite refused.
  - exists d. split; [|done]. unfold state_of, snapshot_state, dev_bind, get. by rewrite Hf.
  - apply state_of_stuck; [done|]. unfold set_guest_memory. by apply stuck_configure.
  - apply state_of_stuck; [done|]. unfold set_guest_dirty_tracker. by apply stuck_configure.
  - apply state_of_stuck; [done|]. unfold set_host_listener. by apply stuck_configure.
  - apply state_of_stuck; [done|]. unfold set_irq_evt. by apply stuck_configure.
  - apply state_of_stuck; [done|]. intros d' Hd'. unfold wp, reassert_pending_interrupt, try_lock_state. case_goal; [eauto|].
    case_decide; eexists _, _; (split; [done|]); [by apply stuck_fail|done].
  - eexists. split; [done|]. by apply stuck_fail.
  - eexists. split; [done|]. done.
Qed.

End failure.

(** A failed socket device stays failed: no register access but a reset, no
    pump, connect, snapshot or configuration call and no further panic brings
    it back or touches its connections and packets; writing zero to the
    status register does bring it back, with no poisoned lock, no connection,
    no packet and no queue left over. *)
Theorem vsock_failed_until_reset {M S L : Type} `{!GuestMemoryBackend M} `{!HostVsockStream S} `{!HostVsockListener L S}
    (d : VirtioVsockMmio M S L) :
  is_failed d = true →
  (∀ es, Forall not_recovery es → ∃ d', run_events es d = Some d' ∧ is_failed d' = true ∧
     connections d' = connections d ∧ pending_rx d' = pending_rx d) ∧
  ∃ d', mmio_write reg.STATUS 0 d = Some (Ok tt, d') ∧ healthy d' ∧ connections d' = ∅ ∧ pending_rx d' = [] ∧
    queues d' = replicate (length (queues d)) queue_default ∧ rx_processor d' = None ∧ tx_processor d' = None.
Proof.
  intros Hf. split.
  - intros es Hes. enough (∀ d0, stuck_as d d0 → ∃ d', run_events es d0 = Some d' ∧ stuck_as d d') as H.
    { destruct (H d) as (d' & ? & ?); [done|]. by exists d'. }
    induction Hes as [|e es He _ IH]; intros d0 Hd0; [by exists d0|]. cbn [run_events].
    destruct (run_event_stuck e d0 (proj1 Hd0) He) as (d1 & -> & Hs1). apply IH.
    destruct Hd0 as (_ & Hc0 & Hp0), Hs1 as (? & ? & ?). split_and!; congruence.
  - eexists. unfold mmio_write, dev_bind at 1, get. change (as_u32 0) with 0.
    change ((reg.STATUS =? reg.STATUS) && (0 =? 0)) with true. cbn [negb]. rewrite andb_false_r.
    change (reg.STATUS =? reg.STATUS) with true. cbv iota. split; [reflexivity|].
    split_and!; try done. by apply const_fmap.
Qed.

Lemma vsock_failed_until_reset_witness :
  ∃ d', run_events [Pump []; Write reg.STATUS 4; Connect 7 None; Read reg.QUEUE_NUM 4]
      (fail_worker ExampleConn.device) = Some d' ∧ is_failed d' = true ∧
    connections d' = connections (fail_worker ExampleConn.device).
Proof.
  destruct (vsock_failed_until_reset (fail_worker ExampleConn.device)) as [H _].
  - reflexivity.
  - destruct (H [Pump []; Write reg.STATUS 4; Connect 7 None; Read reg.QUEUE_NUM 4]) as (d' & H1 & H2 & H3 & _).
    + repeat constructor. intros [_ Hx]. discriminate Hx.
    + exists d'. exact (conj H1 (conj H2 H3)).
Defined.

(** ** Restore *)
Section restore.
Context {M S L : Type} `{!GuestMemoryBackend M} `{!GuestMemoryLaws M}
  `{!HostVsockStream S} `{!HostVsockListener L S}.
Implicit Types d : VirtioVsockMmio M S L.

Lemma wp_enqueue_list {A} (f : A → VsockPacket) l : ∀ d,
  healthy d → vsock_ok d → (∀ a, data (f a) = []) →
  Z.of_nat (length (pending_rx d)) + Z.of_nat (length l) ≤ 4096 →
  wp (for_each (fun a => enqueue_rx (f a)) l) (fun r d' => r = Ok tt ∧ healthy d' ∧ vsock_ok d' ∧
    d' = with_pending_rx d (pending_rx d ++ (f <$> l))) d.
Proof.
  induction l as [|a l IH]; intros d Hh Hok Hf Hl; cbn [for_each].
  { apply wp_ret. split_and!; [done..|]. cbn. rewrite app_nil_r. by destruct d. }
  cbn [length] in Hl. apply wp_bind. eapply wp_mono; [apply wp_enqueue_healthy; [done|done|by rewrite Hf]|].
  intros r d1 (-> & Hh1 & Hok1 & Hd1). rewrite (proj2 (Z.ltb_lt _ _)) in Hd1 by lia.
  eapply wp_mono; [apply IH; [done|done|done|]|].
  { subst d1. cbn [pending_rx with_pending_rx]. rewrite length_app. cbn [length]. lia. }
  intros r d2 (-> & Hh2 & Hok2 & Hd2). split_and!; [done..|]. subst d1. rewrite Hd2. cbn. by rewrite <- app_assoc.
Qed.

Lemma save_indices_typed p i qs :
  from_option processor_ok True p → Forall queue_typed qs → Forall queue_typed (save_indices p i qs).
Proof.
  intros Hp Hq. destruct p as [p|]; [|done]. apply Forall_alter; [done|]. intros q _ _. by destruct Hp as (? & ? & _).
Qed.

Lemma connection_states_perm order (conns : gmap ConnectionKey (Connection S)) :
  order ≡ₚ (map_to_list conns).*1 →
  connection_states order conns ≡ₚ (fun kc => connection_state kc.1 kc.2) <$> map_to_list conns.
Proof.
  intros Hp. unfold connection_states. rewrite Hp. apply reflexive_eq.
  assert (∀ l, (∀ k c, (k, c) ∈ l → conns !! k = Some c) →
    omap (fun k => connection_state k <$> conns !! k) l.*1 = (fun kc => connection_state kc.1 kc.2) <$> l) as H.
  { induction l as [|[k c] l IH]; intros Hl; [done|]. cbn. rewrite (Hl k c) by set_solver. cbn. f_equal. apply IH. set_solver. }
  apply H. intros k c. by apply elem_of_map_to_list.
Qed.

(** The device a restore leaves: the saved registers, and nothing in flight. *)
Definition restored (st : VirtioVsockMmioState) (d : VirtioVsockMmio M S L) : VirtioVsockMmio M S L :=
  mkVsock (irq d) (device_id d) (vendor_id d) (version d) (guest_cid d) (s_status st) (s_queue_sel st)
    (s_host_features_sel st) (s_guest_features_sel st) (s_guest_features_low st) (s_guest_features_high st)
    (s_queues st) (guest_mem d) (host_dirty d) (s_activated st) None None (s_interrupt_status st)
    (host_listener d) ∅ (next_host_port d) [] (irq_evt d) (status_writes d) (notify_count d)
    (tx_packets d) (rx_packets d) (tx_bytes d) (rx_bytes d) (poisoned d).

Lemma restore_healthy st d :
  poisoned d = [] → restore_transport_state st d = Some (Ok tt, restored st d).
Proof.
  intros Hp. destruct d. cbn in Hp. subst.
  unfold restore_transport_state, apply_transport_state, lock_state, modify, dev_bind.
  cbn. reflexivity.
Qed.

Lemma snapshot_healthy order d :
  healthy d → snapshot_state order d = Some (Ok (mkVsockState (status d) (queue_sel d) (host_features_sel d)
    (guest_features_sel d) (guest_features_low d) (guest_features_high d)
    (save_indices (tx_processor d) 1 (save_indices (rx_processor d) 0 (queues d))) (activated d)
    (interrupt_status d) (connection_states order (connections d))), d).
Proof.
  intros [Hf Hp]. assert (∀ l, snapshot_lock l d = Some (Ok tt, d)) as Hl.
  { intros l. unfold snapshot_lock. by rewrite Hp, decide_False by apply not_elem_of_nil. }
  unfold snapshot_state, dev_bind, get. rewrite Hf. do 4 (rewrite Hl; cbv beta iota zeta). done.
Qed.

Lemma foldl_delete_empty (l : list VsockConnectionState) :
  foldl (fun live c => delete (key c) live) (∅ : gmap ConnectionKey (Connection S)) l = ∅.
Proof. induction l as [|c l IH]; [done|]. cbn. by rewrite delete_empty. Qed.

(** Closing the connections of a snapshot on a restored device. *)
Lemma wp_reset_restored conns d :
  healthy d → vsock_ok d → in_u64 (rx_packets d) → in_u64 (rx_bytes d) →
  connections d = ∅ → pending_rx d = [] → Z.of_nat (length conns) ≤ 4096 →
  wp (reset_restored_connections conns) (fun r d' => r = Ok (Z.of_nat (length conns)) ∧ connections d' = ∅ ∧
    ∃ ps, (fun c => host_packet (key c) op.RST 0 [] (cs_fwd_cnt c)) <$> conns = ps ++ pending_rx d') d.
Proof.
  intros [Hf Hp] Hok Hc1 Hc2 Hcon Hpe Hl. apply wp_operational; [done|].
  destruct conns as [|c conns]; [apply wp_ret; split_and!; [done..|]; exists []; by rewrite Hpe|].
  apply wp_lock_healthy; [done|]. apply wp_bind, wp_modify.
  rewrite Hcon, foldl_delete_empty. set (d1 := with_connections d ∅).
  assert (vsock_ok d1) as Hok1 by (apply with_connections_ok; [done|rewrite map_size_empty; lia]).
  apply wp_bind. eapply wp_mono; [apply (wp_enqueue_list (fun c => host_packet (key c) op.RST 0 [] (cs_fwd_cnt c)));
    [done|done|done|cbn [d1 pending_rx with_connections]; rewrite Hpe; cbn [length] in *; lia]|].
  intros r d2 (-> & Hh2 & Hok2 & Hd2).
  assert (in_u64 (rx_packets d2) ∧ in_u64 (rx_bytes d2) ∧ connections d2 = ∅) as (Hc1' & Hc2' & Hco) by (by subst d2).
  apply wp_bind. eapply wp_mono; [by apply wp_process_rx_queue|].
  intros r d3 [(n & ps & -> & Hdl) _]. apply wp_ret. split; [done|].
  rewrite (dl_connections _ _ _ Hdl). split; [done|]. exists ps. rewrite <- (dl_pending _ _ _ Hdl), Hd2.
  cbn [d1 pending_rx with_pending_rx with_connections]. by rewrite Hpe.
Qed.

End restore.

(** No connection is lost silently by a snapshot and restore: the snapshot
    of a healthy device lists each of its connections once; a healthy device
    that the state is restored to has the saved registers and, once the saved
    connections are reset, no connection, and one RST per saved connection in
    its queue or already delivered, in order, none dropped. *)
Theorem vsock_restore_resets {M S L : Type} `{!GuestMemoryBackend M} `{!GuestMemoryLaws M}
    `{!HostVsockStream S} `{!HostVsockListener L S} (d d0 : VirtioVsockMmio M S L) order :
  healthy d → vsock_ok d → order ≡ₚ (map_to_list (connections d)).*1 →
  healthy d0 → in_u64 (rx_packets d0) → in_u64 (rx_bytes d0) →
  ∃ st d1 d2 ps, snapshot_state order d = Some (Ok st, d) ∧
    s_connections st ≡ₚ (fun kc => connection_state kc.1 kc.2) <$> map_to_list (connections d) ∧
    restore_transport_state st d0 = Some (Ok tt, d1) ∧
    status d1 = status d ∧ activated d1 = activated d ∧ interrupt_status d1 = interrupt_status d ∧
    queues d1 = save_indices (tx_processor d) 1 (save_indices (rx_processor d) 0 (queues d)) ∧
    reset_restored_connections (s_connections st) d1 = Some (Ok (Z.of_nat (length (s_connections st))), d2) ∧
    connections d2 = ∅ ∧
    (fun c => host_packet (key c) op.RST 0 [] (cs_fwd_cnt c)) <$> s_connections st = ps ++ pending_rx d2.
Proof.
  intros Hd Hok Hord [_ Hp0] Hc1 Hc2. pose proof (connection_states_perm order (connections d) Hord) as Hperm.
  pose proof (snapshot_healthy order d Hd) as Hsnap. set (st := mkVsockState _ _ _ _ _ _ _ _ _ _) in Hsnap.
  assert (healthy (restored st d0)) as Hh1 by (split; [apply Hd|done]).
  assert (vsock_ok (restored st d0)) as Hok1.
  { split; cbn [restored connections pending_rx queues rx_processor tx_processor]; try done.
    apply save_indices_typed; [apply Hok|]. apply save_indices_typed; apply Hok. }
  destruct (wp_reset_restored (connection_states order (connections d)) (restored st d0) Hh1 Hok1 Hc1 Hc2)
    as (r & d2 & Hrun & -> & He & ps & Hps); [done|done| |].
  { rewrite Hperm, length_fmap. pose proof (vo_connections _ Hok) as Hsz. rewrite length_map_to_list.
    unfold MAX_CONNECTIONS in Hsz. lia. }
  exists st, (restored st d0), d2, ps. split; [done|]. split; [done|].
  split; [by apply restore_healthy|]. by split_and!.
Qed.

Lemma vsock_restore_resets_witness :
  ∃ st (d1 d2 : VirtioVsockMmio (gmap Z Z) ExampleSocket.stream Z), snapshot_state [ExampleConn.key] ExampleConn.device = Some (Ok st, ExampleConn.device) ∧
    restore_transport_state st (vsock_new 5 3) = Some (Ok tt, d1) ∧
    reset_restored_connections (s_connections st) d1 = Some (Ok (Z.of_nat (length (s_connections st))), d2) ∧
    connections d2 = ∅.
Proof.
  destruct (vsock_restore_resets ExampleConn.device (vsock_new 5 3) [ExampleConn.key])
    as (st & d1 & d2 & ps & H1 & _ & H2 & _ & _ & _ & _ & H3 & H4 & _).
  - exact example_conn_healthy.
  - exact example_conn_ok.
  - vm_compute. reflexivity.
  - split; reflexivity.
  - done.
  - done.
  - exists st, d1, d2. exact (conj H1 (conj H2 (conj H3 H4))).
Defined.
