(* ===== verification/Aml.v ===== *)
(** * ACPI machine language ([acpi-tables/src/aml.rs])

    The terms of the crate's AML builder and their byte encoding. Every
    type that implements the [Aml] trait is a constructor of [aml]; its
    [append_aml_bytes] is a definition of its own over the encodings of its
    parts, and [to_aml_bytes] ties them together.

    An encoder returns the bytes it appends. When it fails, the source leaves
    a prefix in the caller's vector; no caller looks at it (each propagates
    the error with [?] and drops the vector), so the failure alone is kept. *)

From stdpp Require Import strings.
From S2P Require Import Prelude.

(** The bytes of a string literal. *)
Definition bytes_of (s : string) : list Z :=
  (fun a => Z.of_nat (Ascii.nat_of_ascii a)) <$> String.list_ascii_of_string s.

Inductive AmlError : Type :=
  | NameEmpty
  | InvalidPartLength
  | AddressRange
  | InvalidEisaName
  | PkgLengthTooLarge.

(** A failed encoding: an error value, or the panic of an [unwrap]. *)
Inductive failure : Type :=
  | Error (e : AmlError)
  | Panic.

Notation encoded := (result (list Z) failure).
Notation error e := (Err (Error e)).

(** ** Package lengths *)

Definition AML_PKG_LENGTH_MAX : Z := 0x0fffffff.

Definition create_pkg_length_from_len (data_len : Z) (include_self : bool) : encoded :=
  let length_length :=
    if data_len <? 2 ^ 6 - 1 then 1
    else if data_len <? 2 ^ 12 - 2 then 2
    else if data_len <? 2 ^ 20 - 3 then 3
    else 4 in
  let? length :=
    ok_or (u64_checked_add data_len (if include_self then length_length else 0))
      (Error PkgLengthTooLarge) in
  if AML_PKG_LENGTH_MAX <? length then error PkgLengthTooLarge
  else if length_length =? 1 then
    if length <=? U8_MAX then Ok [length] else error PkgLengthTooLarge
  else if length_length =? 2 then
    if Z.shiftr length 4 <=? U8_MAX
    then Ok [Z.lor (Z.shiftl 1 6) (Z.land length 0xf); Z.shiftr length 4]
    else error PkgLengthTooLarge
  else if length_length =? 3 then
    Ok [Z.lor (Z.shiftl 2 6) (Z.land length 0xf);
        Z.land (Z.shiftr length 4) 0xff;
        Z.land (Z.shiftr length 12) 0xff]
  else
    Ok [Z.lor (Z.shiftl 3 6) (Z.land length 0xf);
        Z.land (Z.shiftr length 4) 0xff;
        Z.land (Z.shiftr length 12) 0xff;
        Z.land (Z.shiftr length 20) 0xff].

Definition create_pkg_length (data : list Z) (include_self : bool) : encoded :=
  create_pkg_length_from_len (Z.of_nat (length data)) include_self.

(** The tail every package shares: [op], the length of [tmp], [tmp]. *)
Definition push_package (op tmp : list Z) : encoded :=
  let? pkg_length := create_pkg_length tmp true in
  Ok (op ++ pkg_length ++ tmp).

(** ** Names *)

(** A name part is four bytes. *)
Record Path : Type := mkPath {
  root : bool;
  name_parts : list (list Z);
}.

Definition path_aml (p : Path) : encoded :=
  let lead := if root p then [0x5c] else [] in
  let parts := concat (name_parts p) in
  let n := length (name_parts p) in
  if (n =? 0)%nat then error NameEmpty
  else if (n =? 1)%nat then Ok (lead ++ parts)
  else if (n =? 2)%nat then Ok (lead ++ 0x2e :: parts)
  else if (n <=? 255)%nat then Ok (lead ++ 0x2f :: Z.of_nat n :: parts)
  else Err Panic.

(** [str::split('.')]: at least one part, the separators dropped. *)
Fixpoint split_dots (s : list Z) : list (list Z) :=
  match s with
  | [] => [[]]
  | c :: s' =>
      if c =? 0x2e then [] :: split_dots s'
      else
        match split_dots s' with
        | [] => [[c]]
        | part :: parts => (c :: part) :: parts
        end
  end.

Definition path_new (name : list Z) : result Path failure :=
  let root := match name with c :: _ => c =? 0x5c | [] => false end in
  let parts := split_dots (if root then drop 1 name else name) in
  if forallb (fun part => length part =? 4)%nat parts
  then Ok (mkPath root parts)
  else error InvalidPartLength.

(** ** Constants *)
Definition byte_aml (v : Z) : encoded := Ok [0x0a; v].
Definition word_aml (v : Z) : encoded := Ok (0x0b :: le_encode 2 v).
Definition dword_aml (v : Z) : encoded := Ok (0x0c :: le_encode 4 v).
Definition qword_aml (v : Z) : encoded := Ok (0x0e :: le_encode 8 v).

Definition usize_aml (n : Z) : encoded :=
  if n <=? U8_MAX then byte_aml n
  else if n <=? U16_MAX then word_aml n
  else if n <=? U32_MAX then dword_aml n
  else qword_aml n.

Definition append_aml_string (v : list Z) : encoded := Ok (0x0d :: v ++ [0x00]).

(** [u32::swap_bytes]. *)
Definition swap_bytes (v : Z) : Z := le_decode (reverse (le_encode 4 v)).

Definition is_ascii_uppercase (b : Z) : bool := (0x41 <=? b) && (b <=? 0x5a).
Definition is_ascii_digit (b : Z) : bool := (0x30 <=? b) && (b <=? 0x39).
Definition is_ascii_hexdigit (b : Z) : bool :=
  is_ascii_digit b || ((0x61 <=? b) && (b <=? 0x66)) || ((0x41 <=? b) && (b <=? 0x46)).

Definition hex (b : Z) : Z :=
  if is_ascii_digit b then b - 0x30
  else if (0x61 <=? b) && (b <=? 0x66) then b - 0x61 + 10
  else b - 0x41 + 10.

(** [EisaName::new]: the compressed identifier of a seven character name. *)
Definition eisa_name_new (name : list Z) : result Z failure :=
  if negb (length name =? 7)%nat then error InvalidPartLength
  else if negb (forallb is_ascii_uppercase (take 3 name))
    || negb (forallb is_ascii_hexdigit (drop 3 name))
  then error InvalidEisaName
  else
    let data (i : nat) := nth i name 0 in
    Ok (swap_bytes
      (Z.lor (Z.lor (Z.lor (Z.lor (Z.lor (Z.lor
        (Z.shiftl (data 0%nat - 0x40) 26)
        (Z.shiftl (data 1%nat - 0x40) 21))
        (Z.shiftl (data 2%nat - 0x40) 16))
        (Z.shiftl (hex (data 3%nat)) 12))
        (Z.shiftl (hex (data 4%nat)) 8))
        (Z.shiftl (hex (data 5%nat)) 4))
        (hex (data 6%nat)))).

(** ** Resource descriptors *)
Definition memory32_fixed_aml (read_write : bool) (base length : Z) : encoded :=
  Ok (0x86 :: le_encode 2 9 ++ [Z.b2z read_write] ++ le_encode 4 base ++ le_encode 4 length).

(** The integer type an [AddressSpace] is instantiated with. *)
Inductive uint : Type := U16 | U32 | U64.

Definition size_of (T : uint) : nat := match T with U16 => 2 | U32 => 4 | U64 => 8 end.
Definition uint_max (T : uint) : Z := match T with U16 => U16_MAX | U32 => U32_MAX | U64 => U64_MAX end.

Inductive AddressSpaceType : Type := SpaceMemory | SpaceIo | SpaceBusNumber.

Inductive AddressSpaceCacheable : Type := NotCacheable | Cacheable | WriteCombining | PreFetchable.

Definition space_type_as_u8 (t : AddressSpaceType) : Z :=
  match t with SpaceMemory => 0 | SpaceIo => 1 | SpaceBusNumber => 2 end.

Definition cacheable_as_u8 (c : AddressSpaceCacheable) : Z :=
  match c with NotCacheable => 0 | Cacheable => 1 | WriteCombining => 2 | PreFetchable => 3 end.

Record AddressSpace : Type := mkAddressSpace {
  space_type : AddressSpaceType;
  space_min : Z;
  space_max : Z;
  type_flags : Z;
}.

Definition new_memory (cacheable : AddressSpaceCacheable) (read_write : bool) (min max : Z) :
    result AddressSpace failure :=
  if max <? min then error AddressRange
  else Ok (mkAddressSpace SpaceMemory min max
    (Z.lor (Z.shiftl (cacheable_as_u8 cacheable) 1) (Z.b2z read_write))).

Definition new_io (min max : Z) : result AddressSpace failure :=
  if max <? min then error AddressRange else Ok (mkAddressSpace SpaceIo min max 3).

Definition new_bus_number (min max : Z) : result AddressSpace failure :=
  if max <? min then error AddressRange else Ok (mkAddressSpace SpaceBusNumber min max 0).

Definition push_header (a : AddressSpace) (descriptor length : Z) : list Z :=
  descriptor :: le_encode 2 length ++
  [space_type_as_u8 (space_type a); Z.lor (Z.shiftl 1 2) (Z.shiftl 1 3); type_flags a].

Definition space_descriptor (T : uint) : Z := match T with U16 => 0x88 | U32 => 0x87 | U64 => 0x8a end.

(** The three [impl Aml for AddressSpace<_>], which differ in the width: the
    length is [checked_sub] then [checked_add(1)] at that width. *)
Definition address_space_aml (T : uint) (a : AddressSpace) : encoded :=
  if space_max a <? space_min a then error AddressRange
  else if uint_max T <? space_max a - space_min a + 1 then error AddressRange
  else Ok (push_header a (space_descriptor T) (3 + 5 * Z.of_nat (size_of T)) ++
    le_encode (size_of T) 0 ++ le_encode (size_of T) (space_min a) ++ le_encode (size_of T) (space_max a) ++
    le_encode (size_of T) 0 ++ le_encode (size_of T) (space_max a - space_min a + 1)).

Definition io_aml (min max alignment length : Z) : encoded :=
  Ok (0x47 :: 1 :: le_encode 2 min ++ le_encode 2 max ++ [alignment; length]).

Definition interrupt_aml (consumer edge_triggered active_low shared : bool) (number : Z) : encoded :=
  Ok (0x89 :: le_encode 2 6 ++
    [Z.lor (Z.lor (Z.lor (Z.shiftl (Z.b2z shared) 3) (Z.shiftl (Z.b2z active_low) 2))
       (Z.shiftl (Z.b2z edge_triggered) 1)) (Z.b2z consumer); 1] ++
    le_encode 4 number).

(** ** Terms *)
Module FieldAccessType.
Inductive t : Type := Any | Byte | Word | DWord | QWord | Buffer.

Definition as_u8 (a : t) : Z :=
  match a with Any => 0 | Byte => 1 | Word => 2 | DWord => 3 | QWord => 4 | Buffer => 5 end.
End FieldAccessType.

Module FieldUpdateRule.
Inductive t : Type := Preserve | WriteAsOnes | WriteAsZeroes.

Definition as_u8 (r : t) : Z :=
  match r with Preserve => 0 | WriteAsOnes => 1 | WriteAsZeroes => 2 end.
End FieldUpdateRule.

Inductive FieldEntry : Type :=
  | Named (name : list Z) (bits : Z)
  | Reserved (bits : Z).

Module OpRegionSpace.
Inductive t : Type :=
  | SystemMemory | SystemIo | PConfig | EmbeddedControl | Smbus | SystemCmos | PciBarTarget | Ipmi
  | GeneralPurposeIo | GenericSerialBus.

Definition as_u8 (s : t) : Z :=
  match s with
  | SystemMemory => 0 | SystemIo => 1 | PConfig => 2 | EmbeddedControl => 3 | Smbus => 4
  | SystemCmos => 5 | PciBarTarget => 6 | Ipmi => 7 | GeneralPurposeIo => 8
  | GenericSerialBus => 9
  end.
End OpRegionSpace.

(** The operators [binary_op!] declares, with their opcodes. *)
Module BinaryOp.
Inductive t : Type :=
  | Add | Concat | Subtract | Multiply | ShiftLeft | ShiftRight | And | Nand | Or | Nor | Xor
  | ConateRes | Mod | Index | ToString.

Definition opcode (o : t) : Z :=
  match o with
  | Add => 0x72 | Concat => 0x73 | Subtract => 0x74 | Multiply => 0x77 | ShiftLeft => 0x79
  | ShiftRight => 0x7a | And => 0x7b | Nand => 0x7c | Or => 0x7d | Nor => 0x7e | Xor => 0x7f
  | ConateRes => 0x84 | Mod => 0x85 | Index => 0x88 | ToString => 0x9c
  end.
End BinaryOp.

Inductive aml : Type :=
  | Zero
  | One
  | Ones
  | NamePath (p : Path)
  | Byte (v : Z)
  | Word (v : Z)
  | DWord (v : Z)
  | QWord (v : Z)
  | Usize (v : Z)
  | EisaName (value : Z)
  | AmlString (v : list Z)
  | Name (path : Path) (inner : aml)
  | Package (children : list aml)
  | ResourceTemplate (children : list aml)
  | Memory32Fixed (read_write : bool) (base length : Z)
  | Space (T : uint) (a : AddressSpace)
  | Io (min max alignment length : Z)
  | Interrupt (consumer edge_triggered active_low shared : bool) (number : Z)
  | Device (path : Path) (children : list aml)
  | Scope (path : Path) (children : list aml)
  | Method (path : Path) (args : Z) (serialized : bool) (children : list aml)
  | Return (value : aml)
  | Field (path : Path) (access_type : FieldAccessType.t) (update_rule : FieldUpdateRule.t)
      (fields : list FieldEntry)
  | OpRegion (path : Path) (space : OpRegionSpace.t) (offset length : Z)
  | If (predicate : aml) (if_children : list aml)
  | Equal (left right : aml)
  | LessThan (left right : aml)
  | Arg (n : Z)
  | Local (n : Z)
  | Store (name value : aml)
  | Mutex (path : Path) (sync_level : Z)
  | Acquire (mutex : Path) (timeout : Z)
  | Release (mutex : Path)
  | Notify (object value : aml)
  | While (predicate : aml) (while_children : list aml)
  | Binary (op : BinaryOp.t) (target a b : aml)
  | MethodCall (name : Path) (args : list aml)
  | Buffer (data : list Z)
  | CreateQWordField (buffer offset : aml) (field : Path)
  | CreateDWordField (buffer offset : aml) (field : Path).

(** ** Encoders of composite terms

    Each takes the encodings of its parts, in the order the source appends
    them. *)

(** Appends one encoding after another. *)
Definition append (a b : encoded) : encoded :=
  let? x := a in let? y := b in Ok (x ++ y).

Definition name_aml (path : Path) (inner : encoded) : encoded :=
  append (Ok [0x08]) (append (path_aml path) inner).

Definition package_aml (count : nat) (children : encoded) : encoded :=
  if Z.of_nat count <=? U8_MAX then
    let? tmp := append (Ok [Z.of_nat count]) children in push_package [0x12] tmp
  else error PkgLengthTooLarge.

Definition resource_template_aml (children : encoded) : encoded :=
  let? tmp := append children (Ok [0x79; 0]) in
  let? buffer_length := usize_aml (Z.of_nat (length tmp)) in
  push_package [0x11] (buffer_length ++ tmp).

Definition device_aml (path : Path) (children : encoded) : encoded :=
  let? tmp := append (path_aml path) children in push_package [0x5b; 0x82] tmp.

Definition scope_aml (path : Path) (children : encoded) : encoded :=
  let? tmp := append (path_aml path) children in push_package [0x10] tmp.

Definition method_aml (path : Path) (args : Z) (serialized : bool) (children : encoded) : encoded :=
  let flags := Z.lor (Z.land args 0x7) (Z.shiftl (Z.b2z serialized) 3) in
  let? tmp := append (path_aml path) (append (Ok [flags]) children) in push_package [0x14] tmp.

Definition return_aml (value : encoded) : encoded := append (Ok [0xa4]) value.

Definition field_entry_aml (f : FieldEntry) : encoded :=
  match f with
  | Named name bits => append (Ok name) (create_pkg_length_from_len bits false)
  | Reserved bits => append (Ok [0x00]) (create_pkg_length_from_len bits false)
  end.

(** [for field in self.fields.iter()]. *)
Fixpoint field_list_aml (fields : list FieldEntry) : encoded :=
  match fields with
  | [] => Ok []
  | f :: fields' => append (field_entry_aml f) (field_list_aml fields')
  end.

Definition field_aml (path : Path) (access_type : FieldAccessType.t) (update_rule : FieldUpdateRule.t)
    (fields : list FieldEntry) : encoded :=
  let flags :=
    Z.lor (FieldAccessType.as_u8 access_type) (Z.shiftl (FieldUpdateRule.as_u8 update_rule) 5) in
  let? tmp := append (path_aml path) (append (Ok [flags]) (field_list_aml fields)) in
  push_package [0x5b; 0x81] tmp.

Definition op_region_aml (path : Path) (space : OpRegionSpace.t) (offset length : Z) : encoded :=
  append (Ok [0x5b; 0x80]) (append (path_aml path) (append (Ok [OpRegionSpace.as_u8 space])
    (append (usize_aml offset) (usize_aml length)))).

Definition if_aml (predicate if_children : encoded) : encoded :=
  let? tmp := append predicate if_children in push_package [0xa0] tmp.

Definition equal_aml (left right : encoded) : encoded := append (Ok [0x93]) (append left right).

Definition less_than_aml (left right : encoded) : encoded := append (Ok [0x95]) (append left right).

Definition arg_aml (n : Z) : encoded := if 6 <? n then error InvalidPartLength else Ok [0x68 + n].

Definition local_aml (n : Z) : encoded := if 7 <? n then error InvalidPartLength else Ok [0x60 + n].

Definition store_aml (name value : encoded) : encoded := append (Ok [0x70]) (append value name).

Definition mutex_aml (path : Path) (sync_level : Z) : encoded :=
  append (Ok [0x5b; 0x01]) (append (path_aml path) (Ok [sync_level])).

Definition acquire_aml (mutex : Path) (timeout : Z) : encoded :=
  append (Ok [0x5b; 0x23]) (append (path_aml mutex) (Ok (le_encode 2 timeout))).

Definition release_aml (mutex : Path) : encoded := append (Ok [0x5b; 0x27]) (path_aml mutex).

Definition notify_aml (object value : encoded) : encoded := append (Ok [0x86]) (append object value).

Definition while_aml (predicate while_children : encoded) : encoded :=
  let? tmp := append predicate while_children in push_package [0xa2] tmp.

Definition binary_aml (op : BinaryOp.t) (target a b : encoded) : encoded :=
  append (Ok [BinaryOp.opcode op]) (append a (append b target)).

Definition method_call_aml (name : Path) (args : encoded) : encoded := append (path_aml name) args.

Definition buffer_aml (data : list Z) : encoded :=
  let? tmp := append (usize_aml (Z.of_nat (length data))) (Ok data) in push_package [0x11] tmp.

Definition create_qword_field_aml (buffer offset : encoded) (field : Path) : encoded :=
  append (Ok [0x8f]) (append buffer (append offset (path_aml field))).

Definition create_dword_field_aml (buffer offset : encoded) (field : Path) : encoded :=
  append (Ok [0x8a]) (append buffer (append offset (path_aml field))).

(** [for child in &self.children { child.append_aml_bytes(&mut tmp)?; }]. *)
Definition append_all (encode : aml → encoded) : list aml → encoded :=
  fix go (l : list aml) : encoded :=
    match l with
    | [] => Ok []
    | t :: l' => append (encode t) (go l')
    end.

Fixpoint to_aml_bytes (t : aml) : encoded :=
  match t with
  | Zero => Ok [0x00]
  | One => Ok [0x01]
  | Ones => Ok [0xff]
  | NamePath p => path_aml p
  | Byte v => byte_aml v
  | Word v => word_aml v
  | DWord v => dword_aml v
  | QWord v => qword_aml v
  | Usize v => usize_aml v
  | EisaName value => dword_aml value
  | AmlString v => append_aml_string v
  | Name path inner => name_aml path (to_aml_bytes inner)
  | Package children => package_aml (length children) (append_all to_aml_bytes children)
  | ResourceTemplate children => resource_template_aml (append_all to_aml_bytes children)
  | Memory32Fixed read_write base length => memory32_fixed_aml read_write base length
  | Space T a => address_space_aml T a
  | Io min max alignment length => io_aml min max alignment length
  | Interrupt consumer edge_triggered active_low shared number =>
      interrupt_aml consumer edge_triggered active_low shared number
  | Device path children => device_aml path (append_all to_aml_bytes children)
  | Scope path children => scope_aml path (append_all to_aml_bytes children)
  | Method path args serialized children =>
      method_aml path args serialized (append_all to_aml_bytes children)
  | Return value => return_aml (to_aml_bytes value)
  | Field path access_type update_rule fields => field_aml path access_type update_rule fields
  | OpRegion path space offset length => op_region_aml path space offset length
  | If predicate if_children =>
      if_aml (to_aml_bytes predicate) (append_all to_aml_bytes if_children)
  | Equal l r => equal_aml (to_aml_bytes l) (to_aml_bytes r)
  | LessThan l r => less_than_aml (to_aml_bytes l) (to_aml_bytes r)
  | Arg n => arg_aml n
  | Local n => local_aml n
  | Store name value => store_aml (to_aml_bytes name) (to_aml_bytes value)
  | Mutex path sync_level => mutex_aml path sync_level
  | Acquire mutex timeout => acquire_aml mutex timeout
  | Release mutex => release_aml mutex
  | Notify object value => notify_aml (to_aml_bytes object) (to_aml_bytes value)
  | While predicate while_children =>
      while_aml (to_aml_bytes predicate) (append_all to_aml_bytes while_children)
  | Binary op target a b => binary_aml op (to_aml_bytes target) (to_aml_bytes a) (to_aml_bytes b)
  | MethodCall name args => method_call_aml name (append_all to_aml_bytes args)
  | Buffer data => buffer_aml data
  | CreateQWordField buffer offset field =>
      create_qword_field_aml (to_aml_bytes buffer) (to_aml_bytes offset) field
  | CreateDWordField buffer offset field =>
      create_dword_field_aml (to_aml_bytes buffer) (to_aml_bytes offset) field
  end.
