(* ===== verification/AmlParse.v ===== *)
(** * A reader of ACPI machine language

    The side of the guest: the grammar of AML (chapter 20 of the ACPI
    specification) as a recursive descent parser, for the opcodes the
    builder of [aml.rs] emits. It is the reference the encoder is compared
    with in [AmlProof]. *)

From S2P Require Import Prelude Aml.

(** ** Readers

    A reader consumes a prefix of the input. *)
Definition reader (A : Type) : Type := list Z → option (A * list Z).

Definition rd_ret {A : Type} (x : A) : reader A := fun bs => Some (x, bs).
Definition rd_fail {A : Type} : reader A := fun _ => None.
Definition rd_bind {A B : Type} (p : reader A) (k : A → reader B) : reader B :=
  fun bs => match p bs with Some (x, rest) => k x rest | None => None end.

Notation "'let!' x := p 'in' k" := (rd_bind p (fun x => k))
  (at level 200, x name, p at level 100, k at level 200, right associativity).

Definition rd_guard (b : bool) : reader unit := if b then rd_ret tt else rd_fail.

(** The next byte, left in the input. *)
Definition rd_peek : reader Z :=
  fun bs => match bs with b :: _ => Some (b, bs) | [] => None end.

Definition rd_byte : reader Z :=
  fun bs => match bs with b :: rest => Some (b, rest) | [] => None end.

Definition rd_bytes (n : nat) : reader (list Z) :=
  fun bs => if (n <=? length bs)%nat then Some (take n bs, drop n bs) else None.

Definition rd_uint (n : nat) : reader Z := let! b := rd_bytes n in rd_ret (le_decode b).

(** The rest of the input. *)
Definition rd_rest : reader (list Z) := fun bs => Some (bs, []).

Fixpoint rd_count {A : Type} (n : nat) (p : reader A) : reader (list A) :=
  match n with
  | O => rd_ret []
  | S n' => let! x := p in let! xs := rd_count n' p in rd_ret (x :: xs)
  end.

(** Items up to the end of the input; each consumes a byte at least, so the
    length of the input bounds their number. *)
Fixpoint rd_many_fuel {A : Type} (n : nat) (p : reader A) : reader (list A) :=
  fun bs =>
    match bs, n with
    | [], _ => Some ([], [])
    | _, O => None
    | _, S n' => (let! x := p in let! xs := rd_many_fuel n' p in rd_ret (x :: xs)) bs
    end.

Definition rd_many {A : Type} (p : reader A) : reader (list A) :=
  fun bs => rd_many_fuel (length bs) p bs.

(** ** Lexical elements *)

(** [PkgLength]: the two high bits of the lead byte count the bytes that
    follow; without any, the six low bits are the value, and with some the
    four low bits are its low bits. *)
Definition rd_pkg_length : reader Z :=
  let! lead := rd_byte in
  let follow := Z.to_nat (Z.shiftr lead 6) in
  if (follow =? 0)%nat then rd_ret (Z.land lead 0x3f)
  else
    let! _ := rd_guard (Z.land lead 0x30 =? 0) in
    let! high := rd_uint follow in
    rd_ret (Z.land lead 0xf + 16 * high).

(** A package: its [PkgLength] counts itself and the body, which [p] reads to
    its end. *)
Definition rd_package {A : Type} (p : reader A) : reader A :=
  fun bs =>
    match rd_pkg_length bs with
    | None => None
    | Some (len, rest) =>
        let body := len - (Z.of_nat (length bs) - Z.of_nat (length rest)) in
        if (0 <=? body) && (body <=? Z.of_nat (length rest)) then
          match p (take (Z.to_nat body) rest) with
          | Some (x, []) => Some (x, drop (Z.to_nat body) rest)
          | _ => None
          end
        else None
    end.

Definition is_lead_name_char (c : Z) : bool := is_ascii_uppercase c || (c =? 0x5f).
Definition is_name_char (c : Z) : bool := is_lead_name_char c || is_ascii_digit c.

Definition is_name_seg (s : list Z) : bool :=
  (length s =? 4)%nat && forallb is_name_char s &&
  match s with c :: _ => is_lead_name_char c | [] => false end.

(** The bytes a [NameString] starts with. *)
Definition is_name_start (c : Z) : bool :=
  (c =? 0x5c) || (c =? 0x2e) || (c =? 0x2f) || is_lead_name_char c.

Definition rd_seg : reader (list Z) :=
  let! s := rd_bytes 4 in let! _ := rd_guard (is_name_seg s) in rd_ret s.

Definition rd_segs : reader (list (list Z)) :=
  let! c := rd_peek in
  if c =? 0x2e then let! _ := rd_byte in rd_count 2 rd_seg
  else if c =? 0x2f then
    let! _ := rd_byte in let! n := rd_byte in rd_count (Z.to_nat n) rd_seg
  else let! s := rd_seg in rd_ret [s].

Definition rd_path : reader Path :=
  let! c := rd_peek in
  if c =? 0x5c
  then let! _ := rd_byte in let! parts := rd_segs in rd_ret (mkPath true parts)
  else let! parts := rd_segs in rd_ret (mkPath false parts).

(** An integer constant, its prefix giving the width. *)
Definition rd_const : reader Z :=
  let! c := rd_byte in
  match c with
  | 0x0a => rd_uint 1
  | 0x0b => rd_uint 2
  | 0x0c => rd_uint 4
  | 0x0e => rd_uint 8
  | _ => rd_fail
  end.

(** Characters up to a null byte. *)
Fixpoint rd_string (bs : list Z) : option (list Z * list Z) :=
  match bs with
  | [] => None
  | c :: rest =>
      if c =? 0 then Some ([], rest)
      else match rd_string rest with Some (s, rest') => Some (c :: s, rest') | None => None end
  end.

Definition rd_field_entry : reader FieldEntry :=
  let! c := rd_peek in
  if c =? 0 then let! _ := rd_byte in let! bits := rd_pkg_length in rd_ret (Reserved bits)
  else let! name := rd_seg in let! bits := rd_pkg_length in rd_ret (Named name bits).

Definition access_of_u8 (n : Z) : option FieldAccessType.t :=
  match n with
  | 0 => Some FieldAccessType.Any | 1 => Some FieldAccessType.Byte | 2 => Some FieldAccessType.Word
  | 3 => Some FieldAccessType.DWord | 4 => Some FieldAccessType.QWord
  | 5 => Some FieldAccessType.Buffer | _ => None
  end.

Definition update_of_u8 (n : Z) : option FieldUpdateRule.t :=
  match n with
  | 0 => Some FieldUpdateRule.Preserve | 1 => Some FieldUpdateRule.WriteAsOnes
  | 2 => Some FieldUpdateRule.WriteAsZeroes | _ => None
  end.

Definition rd_field_flags : reader (FieldAccessType.t * FieldUpdateRule.t) :=
  let! flags := rd_byte in
  match access_of_u8 (Z.land flags 0xf), update_of_u8 (Z.shiftr flags 5) with
  | Some a, Some u => if Z.testbit flags 4 then rd_fail else rd_ret (a, u)
  | _, _ => rd_fail
  end.

Definition rd_region_space : reader OpRegionSpace.t :=
  let! n := rd_byte in
  match n with
  | 0 => rd_ret OpRegionSpace.SystemMemory | 1 => rd_ret OpRegionSpace.SystemIo
  | 2 => rd_ret OpRegionSpace.PConfig | 3 => rd_ret OpRegionSpace.EmbeddedControl
  | 4 => rd_ret OpRegionSpace.Smbus | 5 => rd_ret OpRegionSpace.SystemCmos
  | 6 => rd_ret OpRegionSpace.PciBarTarget | 7 => rd_ret OpRegionSpace.Ipmi
  | 8 => rd_ret OpRegionSpace.GeneralPurposeIo | 9 => rd_ret OpRegionSpace.GenericSerialBus
  | _ => rd_fail
  end.

Definition binary_of_opcode (c : Z) : option BinaryOp.t :=
  match c with
  | 0x72 => Some BinaryOp.Add | 0x73 => Some BinaryOp.Concat | 0x74 => Some BinaryOp.Subtract
  | 0x77 => Some BinaryOp.Multiply | 0x79 => Some BinaryOp.ShiftLeft
  | 0x7a => Some BinaryOp.ShiftRight | 0x7b => Some BinaryOp.And | 0x7c => Some BinaryOp.Nand
  | 0x7d => Some BinaryOp.Or | 0x7e => Some BinaryOp.Nor | 0x7f => Some BinaryOp.Xor
  | 0x84 => Some BinaryOp.ConateRes | 0x85 => Some BinaryOp.Mod | 0x88 => Some BinaryOp.Index
  | 0x9c => Some BinaryOp.ToString | _ => None
  end.

(** ** Terms

    A name that stands for a method is followed by its arguments, whose
    number only the method's declaration tells: [arity] is what the reader
    knows of the namespace. Where the grammar wants a name ([SuperName],
    [Target], the elements of a package) no arguments follow. *)
Definition no_args : Path → nat := fun _ => 0%nat.

Section terms.

Context (term : (Path → nat) → reader aml) (arity : Path → nat).

Definition rd_block : reader (list aml) := rd_many (term arity).

Definition rd_named : reader aml :=
  let! p := rd_path in
  if (arity p =? 0)%nat then rd_ret (NamePath p)
  else let! args := rd_count (arity p) (term arity) in rd_ret (MethodCall p args).

Definition rd_method : reader aml :=
  let! p := rd_path in
  let! flags := rd_byte in
  let! _ := rd_guard (flags <? 16) in
  let! body := rd_block in
  rd_ret (Method p (Z.land flags 0x7) (Z.testbit flags 3) body).

Definition rd_buffer : reader aml :=
  let! n := rd_const in
  let! data := rd_rest in
  let! _ := rd_guard (Z.of_nat (length data) =? n) in
  rd_ret (Buffer data).

Definition rd_ext_op : reader aml :=
  let! c := rd_byte in
  match c with
  | 0x01 => let! p := rd_path in let! level := rd_byte in rd_ret (Mutex p level)
  | 0x23 => let! p := rd_path in let! timeout := rd_uint 2 in rd_ret (Acquire p timeout)
  | 0x27 => let! p := rd_path in rd_ret (Release p)
  | 0x80 =>
      let! p := rd_path in
      let! space := rd_region_space in
      let! offset := rd_const in
      let! len := rd_const in
      rd_ret (OpRegion p space offset len)
  | 0x81 =>
      rd_package
        (let! p := rd_path in
         let! flags := rd_field_flags in
         let! fields := rd_many rd_field_entry in
         rd_ret (Field p flags.1 flags.2 fields))
  | 0x82 => rd_package (let! p := rd_path in let! body := rd_block in rd_ret (Device p body))
  | _ => rd_fail
  end.

Definition rd_op (c : Z) : reader aml :=
  match c with
  | 0x00 => rd_ret Zero
  | 0x01 => rd_ret One
  | 0x08 => let! p := rd_path in let! inner := term arity in rd_ret (Name p inner)
  | 0x0a => let! v := rd_uint 1 in rd_ret (Byte v)
  | 0x0b => let! v := rd_uint 2 in rd_ret (Word v)
  | 0x0c => let! v := rd_uint 4 in rd_ret (DWord v)
  | 0x0d => let! s := rd_string in rd_ret (AmlString s)
  | 0x0e => let! v := rd_uint 8 in rd_ret (QWord v)
  | 0x10 => rd_package (let! p := rd_path in let! body := rd_block in rd_ret (Scope p body))
  | 0x11 => rd_package rd_buffer
  | 0x12 =>
      rd_package
        (let! n := rd_byte in
         let! elements := rd_count (Z.to_nat n) (term no_args) in
         rd_ret (Package elements))
  | 0x14 => rd_package rd_method
  | 0x5b => rd_ext_op
  | 0x70 => let! v := term arity in let! n := term no_args in rd_ret (Store n v)
  | 0x86 => let! o := term no_args in let! v := term arity in rd_ret (Notify o v)
  | 0x8a =>
      let! b := term arity in let! o := term arity in let! p := rd_path in
      rd_ret (CreateDWordField b o p)
  | 0x8f =>
      let! b := term arity in let! o := term arity in let! p := rd_path in
      rd_ret (CreateQWordField b o p)
  | 0x93 => let! l := term arity in let! r := term arity in rd_ret (Equal l r)
  | 0x95 => let! l := term arity in let! r := term arity in rd_ret (LessThan l r)
  | 0xa0 => rd_package (let! c := term arity in let! body := rd_block in rd_ret (If c body))
  | 0xa2 => rd_package (let! c := term arity in let! body := rd_block in rd_ret (While c body))
  | 0xa4 => let! v := term arity in rd_ret (Return v)
  | 0xff => rd_ret Ones
  | _ =>
      if (0x60 <=? c) && (c <=? 0x67) then rd_ret (Local (c - 0x60))
      else if (0x68 <=? c) && (c <=? 0x6e) then rd_ret (Arg (c - 0x68))
      else
        match binary_of_opcode c with
        | Some op =>
            let! a := term arity in let! b := term arity in let! target := term no_args in
            rd_ret (Binary op target a b)
        | None => rd_fail
        end
  end.

End terms.

(** [fuel] bounds the nesting of terms. *)
Fixpoint rd_term (fuel : nat) (arity : Path → nat) : reader aml :=
  match fuel with
  | O => rd_fail
  | S n =>
      let! c := rd_peek in
      if is_name_start c then rd_named (rd_term n) arity
      else let! c := rd_byte in rd_op (rd_term n) arity c
  end.

(** The terms of a definition block: nesting is bounded by its length. *)
Definition parse_block (arity : Path → nat) (bs : list Z) : option (list aml) :=
  match rd_many (rd_term (S (length bs)) arity) bs with
  | Some (l, []) => Some l
  | _ => None
  end.

(** ** Resource descriptors

    The bytes of a resource template up to its end tag. *)
Definition space_type_of_u8 (n : Z) : option AddressSpaceType :=
  match n with 0 => Some SpaceMemory | 1 => Some SpaceIo | 2 => Some SpaceBusNumber | _ => None end.

Definition rd_space (T : uint) : reader aml :=
  let! len := rd_uint 2 in
  let! ty := rd_byte in
  let! flags := rd_byte in
  let! type_flags := rd_byte in
  let! granularity := rd_uint (size_of T) in
  let! min := rd_uint (size_of T) in
  let! max := rd_uint (size_of T) in
  let! translation := rd_uint (size_of T) in
  let! length := rd_uint (size_of T) in
  let! _ := rd_guard
    ((len =? 3 + 5 * Z.of_nat (size_of T)) && (flags =? 12) && (granularity =? 0) &&
     (translation =? 0) && (length =? max - min + 1)) in
  match space_type_of_u8 ty with
  | Some t => rd_ret (Space T (mkAddressSpace t min max type_flags))
  | None => rd_fail
  end.

Definition rd_resource : reader aml :=
  let! c := rd_byte in
  match c with
  | 0x47 =>
      let! decode := rd_byte in
      let! min := rd_uint 2 in
      let! max := rd_uint 2 in
      let! alignment := rd_byte in
      let! length := rd_byte in
      let! _ := rd_guard (decode =? 1) in
      rd_ret (Io min max alignment length)
  | 0x86 =>
      let! len := rd_uint 2 in
      let! rw := rd_byte in
      let! base := rd_uint 4 in
      let! length := rd_uint 4 in
      let! _ := rd_guard (len =? 9) in
      rd_ret (Memory32Fixed (Z.testbit rw 0) base length)
  | 0x87 => rd_space U32
  | 0x88 => rd_space U16
  | 0x8a => rd_space U64
  | 0x89 =>
      let! len := rd_uint 2 in
      let! flags := rd_byte in
      let! count := rd_byte in
      let! number := rd_uint 4 in
      let! _ := rd_guard ((len =? 6) && (count =? 1)) in
      rd_ret (Interrupt (Z.testbit flags 0) (Z.testbit flags 1) (Z.testbit flags 2)
        (Z.testbit flags 3) number)
  | _ => rd_fail
  end.

Definition parse_resources (data : list Z) : option (list aml) :=
  match rd_many rd_resource (take (length data - 2) data) with
  | Some (l, []) => if bool_decide (drop (length data - 2) data = [0x79; 0]) then Some l else None
  | _ => None
  end.

(** ** The terms the guest reads back *)

(** The constant a [usize] is written as. *)
Definition norm_usize (v : Z) : aml :=
  if v <=? U8_MAX then Byte v else if v <=? U16_MAX then Word v
  else if v <=? U32_MAX then DWord v else QWord v.

(** A term as the grammar has it: a [usize] and an EISA name are integer
    constants, a resource template is a buffer. *)
Fixpoint norm (t : aml) : aml :=
  match t with
  | Usize v => norm_usize v
  | EisaName value => DWord value
  | ResourceTemplate children =>
      Buffer (match append_all to_aml_bytes children with Ok d => d ++ [0x79; 0] | Err _ => [] end)
  | Name path inner => Name path (norm inner)
  | Package children => Package (map norm children)
  | Device path children => Device path (map norm children)
  | Scope path children => Scope path (map norm children)
  | Method path args serialized children => Method path args serialized (map norm children)
  | Return value => Return (norm value)
  | If predicate children => If (norm predicate) (map norm children)
  | Equal l r => Equal (norm l) (norm r)
  | LessThan l r => LessThan (norm l) (norm r)
  | Store name value => Store (norm name) (norm value)
  | Notify object value => Notify (norm object) (norm value)
  | While predicate children => While (norm predicate) (map norm children)
  | Binary op target a b => Binary op (norm target) (norm a) (norm b)
  | MethodCall name args => MethodCall name (map norm args)
  | CreateQWordField buffer offset field => CreateQWordField (norm buffer) (norm offset) field
  | CreateDWordField buffer offset field => CreateDWordField (norm buffer) (norm offset) field
  | _ => t
  end.

(** ** Well-formed terms

    What the types of the source guarantee (widths), and what the builder
    leaves to its caller: name segments of AML's alphabet, strings without
    null bytes, at most seven arguments, method calls with the declared
    number of arguments, descriptors only in resource templates. *)
Definition in_range (v hi : Z) : bool := (0 <=? v) && (v <=? hi).

Definition path_wf (p : Path) : bool := forallb is_name_seg (name_parts p).

Definition field_entry_wf (f : FieldEntry) : bool :=
  match f with
  | Named name bits => is_name_seg name && in_range bits U64_MAX
  | Reserved bits => in_range bits U64_MAX
  end.

Definition resource_wf (t : aml) : bool :=
  match t with
  | Memory32Fixed _ base length => in_range base U32_MAX && in_range length U32_MAX
  | Space T a =>
      in_range (space_min a) (uint_max T) && in_range (space_max a) (uint_max T) &&
      in_range (type_flags a) U8_MAX
  | Io min max alignment length =>
      in_range min U16_MAX && in_range max U16_MAX && in_range alignment U8_MAX &&
      in_range length U8_MAX
  | Interrupt _ _ _ _ number => in_range number U32_MAX
  | _ => false
  end.

Fixpoint aml_wf (arity : Path → nat) (t : aml) : bool :=
  match t with
  | Zero | One | Ones => true
  | NamePath p => path_wf p && (arity p =? 0)%nat
  | Byte v => in_range v U8_MAX
  | Word v => in_range v U16_MAX
  | DWord v | EisaName v => in_range v U32_MAX
  | QWord v | Usize v => in_range v U64_MAX
  | AmlString v => forallb (fun c => negb (c =? 0) && in_range c U8_MAX) v
  | Name path inner => path_wf path && aml_wf arity inner
  | Package children => forallb (aml_wf no_args) children
  | ResourceTemplate children => forallb resource_wf children
  | Memory32Fixed _ _ _ | Space _ _ | Io _ _ _ _ | Interrupt _ _ _ _ _ => false
  | Device path children | Scope path children => path_wf path && forallb (aml_wf arity) children
  | Method path args _ children =>
      path_wf path && in_range args 7 && forallb (aml_wf arity) children
  | Return value => aml_wf arity value
  | Field path _ _ fields => path_wf path && forallb field_entry_wf fields
  | OpRegion path _ offset length =>
      path_wf path && in_range offset U64_MAX && in_range length U64_MAX
  | If predicate children | While predicate children =>
      aml_wf arity predicate && forallb (aml_wf arity) children
  | Equal l r | LessThan l r => aml_wf arity l && aml_wf arity r
  | Arg n => in_range n U8_MAX
  | Local n => in_range n U8_MAX
  | Store name value => aml_wf no_args name && aml_wf arity value
  | Mutex path sync_level => path_wf path && in_range sync_level U8_MAX
  | Acquire mutex timeout => path_wf mutex && in_range timeout U16_MAX
  | Release mutex => path_wf mutex
  | Notify object value => aml_wf no_args object && aml_wf arity value
  | Binary _ target a b => aml_wf no_args target && aml_wf arity a && aml_wf arity b
  | MethodCall name args =>
      path_wf name && negb (length args =? 0)%nat && (length args =? arity name)%nat &&
      forallb (aml_wf arity) args
  | Buffer data => forallb (fun c => in_range c U8_MAX) data
  | CreateQWordField buffer offset field | CreateDWordField buffer offset field =>
      aml_wf arity buffer && aml_wf arity offset && path_wf field
  end.

(** The nesting of a term. *)
Fixpoint depth (t : aml) : nat :=
  let depths := foldr (fun t d => Nat.max (depth t) d) 0%nat in
  S match t with
    | Name _ inner => depth inner
    | Package children | Device _ children | Scope _ children | Method _ _ _ children => depths children
    | Return value => depth value
    | If predicate children | While predicate children => Nat.max (depth predicate) (depths children)
    | Equal l r | LessThan l r => Nat.max (depth l) (depth r)
    | Store name value => Nat.max (depth name) (depth value)
    | Notify object value => Nat.max (depth object) (depth value)
    | Binary _ target a b => Nat.max (depth target) (Nat.max (depth a) (depth b))
    | MethodCall _ args => depths args
    | CreateQWordField buffer offset _ | CreateDWordField buffer offset _ =>
        Nat.max (depth buffer) (depth offset)
    | _ => 0%nat
    end.
