(* ===== verification/AmlProof.v ===== *)
(** * The encoder of AML against its grammar

    [parses p e x]: reading the bytes [e] with [p] gives [x] and stops right
    behind them, whatever follows. The lemmas of the first sections compose
    such facts along the combinators; the theorems say that the bytes
    [to_aml_bytes] appends are read back as the term they were made from. *)

From S2P Require Import Prelude Aml AmlParse.

Definition parses {A : Type} (p : reader A) (e : list Z) (x : A) : Prop :=
  ∀ rest, p (e ++ rest) = Some (x, rest).

(** The same for a reader that may depend on the end of its input. *)
Definition parses_all {A : Type} (p : reader A) (e : list Z) (x : A) : Prop := p e = Some (x, []).

Create HintDb parse.

Section combinators.

Lemma parses_ret {A} (x : A) : parses (rd_ret x) [] x.
Proof. done. Qed.

Lemma parses_bind {A B} (p : reader A) (k : A → reader B) e1 e2 x y :
  parses p e1 x → parses (k x) e2 y → parses (rd_bind p k) (e1 ++ e2) y.
Proof. intros H1 H2 rest. unfold rd_bind. rewrite <- app_assoc, H1. apply H2. Qed.

(** The last reader of a sequence, before a result built from it. *)
Lemma parses_map {A B} (p : reader A) (f : A → B) e x y :
  parses p e x → y = f x → parses (rd_bind p (fun x => rd_ret (f x))) e y.
Proof. intros H -> rest. unfold rd_bind. by rewrite H. Qed.

Lemma parses_guard {B} (b : bool) (k : unit → reader B) e y :
  b = true → parses (k tt) e y → parses (rd_bind (rd_guard b) k) e y.
Proof. intros -> H rest. apply H. Qed.

Lemma parses_peek {B} b (k : Z → reader B) e y :
  parses (k b) (b :: e) y → parses (rd_bind rd_peek k) (b :: e) y.
Proof. intros H rest. apply H. Qed.

Lemma parses_byte {B} b (k : Z → reader B) e y :
  parses (k b) e y → parses (rd_bind rd_byte k) (b :: e) y.
Proof. intros H rest. apply H. Qed.

Lemma parses_1 b : parses rd_byte [b] b.
Proof. done. Qed.

Lemma parses_bytes l : parses (rd_bytes (length l)) l l.
Proof.
  intros rest. unfold rd_bytes. rewrite length_app.
  destruct (Nat.leb_spec (length l) (length l + length rest)); [|lia].
  by rewrite take_app_length, drop_app_length.
Qed.

Lemma parses_uint n v : 0 ≤ v < 256 ^ Z.of_nat n → parses (rd_uint n) (le_encode n v) v.
Proof.
  intros Hv rest. unfold rd_uint, rd_bind.
  pose proof (parses_bytes (le_encode n v) rest) as H. rewrite length_le_encode in H.
  rewrite H. unfold rd_ret. by rewrite le_decode_encode.
Qed.

Lemma parses_count {A} (p : reader A) es xs :
  Forall2 (parses p) es xs → parses (rd_count (length xs) p) (concat es) xs.
Proof.
  induction 1 as [|e x es xs H _ IH]; [apply parses_ret|].
  cbn [length rd_count concat]. eapply parses_bind; [done|]. by eapply parses_map.
Qed.

Lemma parses_parses_all {A} (p : reader A) e x : parses p e x → parses_all p e x.
Proof. intros H. unfold parses_all. rewrite <- (app_nil_r e) at 1. apply H. Qed.

Lemma parses_all_bind {A B} (p : reader A) (k : A → reader B) e1 e2 x y :
  parses p e1 x → parses_all (k x) e2 y → parses_all (rd_bind p k) (e1 ++ e2) y.
Proof. intros H1 H2. unfold parses_all, rd_bind. by rewrite H1. Qed.

Lemma parses_all_map {A B} (p : reader A) (f : A → B) e x y :
  parses_all p e x → y = f x → parses_all (rd_bind p (fun x => rd_ret (f x))) e y.
Proof. unfold parses_all, rd_bind. by intros -> ->. Qed.

Lemma parses_all_byte {B} b (k : Z → reader B) e y :
  parses_all (k b) e y → parses_all (rd_bind rd_byte k) (b :: e) y.
Proof. done. Qed.

Lemma parses_all_guard {B} (b : bool) (k : unit → reader B) e y :
  b = true → parses_all (k tt) e y → parses_all (rd_bind (rd_guard b) k) e y.
Proof. by intros ->. Qed.

Lemma parses_all_rest {B} (k : list Z → reader B) e y :
  k e [] = Some (y, []) → parses_all (rd_bind rd_rest k) e y.
Proof. done. Qed.

Lemma parses_all_many {A} (p : reader A) es xs :
  Forall2 (parses p) es xs → Forall (.≠ []) es → parses_all (rd_many p) (concat es) xs.
Proof.
  intros H Hne. unfold parses_all, rd_many.
  assert (∀ n, (length es ≤ n)%nat → rd_many_fuel n p (concat es) = Some (xs, [])) as Hfuel.
  { induction H as [|e x es xs H _ IH]; intros n Hn; [by destruct n|].
    apply Forall_cons in Hne as [He Hne]. destruct n as [|n]; cbn [length] in Hn; [lia|].
    cbn [concat rd_many_fuel]. destruct e as [|b e]; [done|]. cbn [app].
    rewrite (app_comm_cons e). unfold rd_bind at 1. rewrite H. unfold rd_bind.
    by rewrite IH by (done || lia). }
  apply Hfuel. clear -Hne. induction Hne as [|e es He _ IH]; [done|].
  cbn [length concat]. rewrite length_app. destruct e; [done|]. cbn [length]. lia.
Qed.

End combinators.

(** ** Package lengths *)
Section pkg_length.

Lemma land_low v n : 0 ≤ n → Z.land v (Z.ones n) = v mod 2 ^ n.
Proof. intros. by apply Z.land_ones. Qed.

(** The bits of a lead byte: the count of following bytes and the low bits. *)
Lemma lead_byte k v :
  0 ≤ k < 4 → let lead := Z.lor (Z.shiftl k 6) (Z.land v 0xf) in
  Z.shiftr lead 6 = k ∧ Z.land lead 0x30 = 0 ∧ Z.land lead 0xf = v mod 16.
Proof.
  intros Hk lead. subst lead. change 0xf with (Z.ones 4). rewrite (land_low v) by lia.
  pose proof (Z.mod_pos_bound v 16). change (2 ^ 4) with 16.
  generalize dependent (v mod 16). intros m Hm.
  assert (k = 0 ∨ k = 1 ∨ k = 2 ∨ k = 3) as Hk' by lia.
  assert (m = 0 ∨ m = 1 ∨ m = 2 ∨ m = 3 ∨ m = 4 ∨ m = 5 ∨ m = 6 ∨ m = 7 ∨ m = 8 ∨ m = 9 ∨
          m = 10 ∨ m = 11 ∨ m = 12 ∨ m = 13 ∨ m = 14 ∨ m = 15) as Hm' by lia.
  clear Hk Hm. destruct Hk' as [-> | [-> | [-> | ->]]]; destruct_or! Hm'; subst m; done.
Qed.

Lemma shift_byte v k : 0 ≤ k → Z.land (Z.shiftr v k) 0xff = v / 2 ^ k mod 256.
Proof. intros. change 0xff with (Z.ones 8). by rewrite land_low, Z.shiftr_div_pow2 by lia. Qed.

(** Which form is chosen, and the value it carries. *)
Lemma create_pkg_length_form n include_self l :
  0 ≤ n → create_pkg_length_from_len n include_self = Ok l →
  let v := n + (if include_self then Z.of_nat (length l) else 0) in
  (l = [v] ∧ v < 64) ∨
  (∃ k, 1 ≤ k ≤ 3 ∧ length l = S (Z.to_nat k) ∧ v < 16 * 256 ^ k ∧
     l = Z.lor (Z.shiftl k 6) (Z.land v 0xf) :: le_encode (Z.to_nat k) (v / 16)).
Proof.
  intros Hn. unfold create_pkg_length_from_len, ok_or, u64_checked_add, AML_PKG_LENGTH_MAX, U8_MAX.
  change (2 ^ 6 - 1) with 63. change (2 ^ 12 - 2) with 4094. change (2 ^ 20 - 3) with 1048573.
  destruct (Z.ltb_spec n 63); [|destruct (Z.ltb_spec n 4094); [|destruct (Z.ltb_spec n 1048573)]];
    cbn [Z.eqb Pos.eqb result_bind]; repeat (case_goal; cbn [result_bind]; try done); intros [= <-];
    bool_to_prop; cbn [length]; change (Z.of_nat 1) with 1; change (Z.of_nat 2) with 2;
    change (Z.of_nat 3) with 3; change (Z.of_nat 4) with 4;
    [left; split; [done|lia] | left; split; [done|lia] | right | right | right | right | right | right];
    [exists 1 | exists 1 | exists 2 | exists 2 | exists 3 | exists 3];
    (split; [lia|]; split; [done|]; split; [cbn; lia|]); f_equal;
    change (Z.to_nat 1) with 1%nat; change (Z.to_nat 2) with 2%nat; change (Z.to_nat 3) with 3%nat;
    cbn [le_encode];
    rewrite ?shift_byte in * by lia; rewrite ?Z.shiftr_div_pow2 in * by lia;
    change (2 ^ 4) with 16 in *; change (2 ^ 12) with 4096 in *; change (2 ^ 20) with 1048576 in *;
    repeat match goal with |- _ :: _ = _ :: _ => f_equal end; zlia.
Qed.

Lemma parses_pkg_length n include_self l :
  0 ≤ n → create_pkg_length_from_len n include_self = Ok l →
  parses rd_pkg_length l (n + (if include_self then Z.of_nat (length l) else 0)).
Proof.
  intros Hn Hl rest.
  destruct (create_pkg_length_form n include_self l Hn Hl) as [[Hf Hv]|(k & Hk & Hlen & Hv & Hf)];
    assert (0 ≤ n + (if include_self then Z.of_nat (length l) else 0)) as H0 by (destruct include_self; lia);
    revert Hv H0 Hf; generalize (n + (if include_self then Z.of_nat (length l) else 0)) as v;
    intros v Hv H0 ->; unfold rd_pkg_length, rd_bind at 1; cbn [app rd_byte].
  - rewrite Z.shiftr_div_pow2, Z.div_small by (cbn; lia). cbn [Z.to_nat Nat.eqb]. unfold rd_ret.
    change 0x3f with (Z.ones 6). by rewrite land_low, Z.mod_small by (cbn; lia).
  - destruct (lead_byte k v) as (-> & Hr & ->); [lia|].
    destruct (Nat.eqb_spec (Z.to_nat k) 0); [lia|]. rewrite Hr. cbn [Z.eqb rd_guard].
    unfold rd_bind at 1. cbn [rd_ret]. unfold rd_bind.
    rewrite (parses_uint (Z.to_nat k) (v / 16)).
    + unfold rd_ret. repeat f_equal. zlia.
    + rewrite Z2Nat.id by lia. split; [zlia|]. apply Z.div_lt_upper_bound; lia.
Qed.

End pkg_length.

(** ** Lexical elements *)
Section lexical.

Lemma append_Ok a b z : append a b = Ok z ↔ ∃ x y, a = Ok x ∧ b = Ok y ∧ z = x ++ y.
Proof.
  unfold append. destruct a as [x|]; simpl; [|split; [done|by intros (?&?&?&?)]].
  destruct b as [y|]; simpl; [|split; [done|by intros (?&?&?&?&?)]].
  split; [intros [= <-]; eauto|intros (?&?&[= ->]&[= ->]&->); done].
Qed.

Lemma push_package_Ok op tmp z :
  push_package op tmp = Ok z ↔ ∃ l, create_pkg_length tmp true = Ok l ∧ z = op ++ l ++ tmp.
Proof.
  unfold push_package. destruct (create_pkg_length tmp true); simpl.
  - split; [intros [= <-]; eauto|intros (?&[= ->]&->); done].
  - split; [done|by intros (?&?&?)].
Qed.

Lemma parses_package {A} (p : reader A) l body x :
  create_pkg_length body true = Ok l → parses_all p body x → parses (rd_package p) (l ++ body) x.
Proof.
  intros Hl Hp rest. unfold rd_package. rewrite <- app_assoc.
  rewrite (parses_pkg_length (Z.of_nat (length body)) true l) by (done || lia).
  cbv zeta. rewrite !length_app.
  replace (_ - _) with (Z.of_nat (length body)) by lia.
  destruct (Z.leb_spec 0 (Z.of_nat (length body))); [|lia].
  destruct (Z.leb_spec (Z.of_nat (length body)) (Z.of_nat (length body + length rest))); [|lia].
  cbn [andb]. rewrite Nat2Z.id, take_app_length, drop_app_length. by rewrite Hp.
Qed.

Lemma name_seg_length s : is_name_seg s = true → length s = 4%nat.
Proof. unfold is_name_seg. intros. bool_to_prop. by apply Nat.eqb_eq. Qed.

Lemma parses_seg s : is_name_seg s = true → parses rd_seg s s.
Proof.
  intros H rest. unfold rd_seg, rd_bind at 1. pose proof (parses_bytes s rest) as Hb.
  rewrite (name_seg_length s H) in Hb. rewrite Hb. unfold rd_bind. by rewrite H.
Qed.

(** The first byte of a segment is none of the prefixes. *)
Lemma seg_lead s : is_name_seg s = true →
  ∃ c s', s = c :: s' ∧ is_lead_name_char c = true ∧
    (c =? 0x2e) = false ∧ (c =? 0x2f) = false ∧ (c =? 0x5c) = false ∧ (c =? 0) = false.
Proof.
  unfold is_name_seg. intros H. apply andb_prop in H as [_ H]. destruct s as [|c s]; [done|].
  exists c, s. split; [done|]. split; [done|]. revert H.
  unfold is_lead_name_char, is_ascii_uppercase. intros H.
  apply orb_prop in H as [H|H]; bool_to_prop; repeat split; apply Z.eqb_neq; lia.
Qed.

Lemma parses_segs parts :
  forallb is_name_seg parts = true →
  parses (rd_count (length parts) rd_seg) (concat parts) parts.
Proof.
  intros H. apply parses_count. induction parts as [|s parts IH]; [constructor|].
  cbn [forallb] in H. bool_to_prop. constructor; [by apply parses_seg|auto].
Qed.

(** The encodings of a path, by the number of its parts. *)
Lemma path_aml_form p e :
  path_aml p = Ok e → ∃ e', e = (if root p then [0x5c] else []) ++ e' ∧
  ((∃ s, name_parts p = [s] ∧ e' = s) ∨
   (length (name_parts p) = 2%nat ∧ e' = 0x2e :: concat (name_parts p)) ∨
   e' = 0x2f :: Z.of_nat (length (name_parts p)) :: concat (name_parts p)).
Proof.
  unfold path_aml.
  destruct (Nat.eqb_spec (length (name_parts p)) 0); [done|].
  destruct (Nat.eqb_spec (length (name_parts p)) 1) as [H1|];
    [|destruct (Nat.eqb_spec (length (name_parts p)) 2); [|destruct (_ <=? 255)%nat; [|done]]];
    intros [= <-]; eexists; (split; [reflexivity|]); [left|auto..].
  destruct (name_parts p) as [|s [|]]; try done. exists s. split; [done|]. apply app_nil_r.
Qed.

Lemma parses_path p e : path_wf p = true → path_aml p = Ok e → parses rd_path e p.
Proof.
  intros Hwf He. destruct (path_aml_form p e He) as (e' & -> & Hform). clear He.
  assert (parses rd_segs e' (name_parts p) ∧ ∃ c e'', e' = c :: e'' ∧ (c =? 0x5c) = false) as [Hs Hc].
  { unfold path_wf in Hwf. destruct Hform as [(s & Hp & ->)|[[Hp ->]| ->]].
    - rewrite Hp in *. cbn [forallb] in Hwf. bool_to_prop.
      destruct (seg_lead s) as (c & s' & -> & _ & E1 & E2 & E3 & _); [done|].
      split; [|eauto]. apply parses_peek. rewrite E1, E2.
      eapply parses_map; [by apply parses_seg|done].
    - split; [|eauto]. apply parses_peek. cbn [Z.eqb Pos.eqb]. apply parses_byte.
      rewrite <- Hp. by apply parses_segs.
    - split; [|eauto]. apply parses_peek. cbn [Z.eqb Pos.eqb]. apply parses_byte, parses_byte.
      rewrite Nat2Z.id. by apply parses_segs. }
  destruct Hc as (c & e'' & -> & Hc). destruct p as [[] parts]; cbn [root name_parts app] in *.
  - apply parses_peek. cbn [Z.eqb Pos.eqb]. apply parses_byte. by eapply parses_map.
  - apply parses_peek. rewrite Hc. by eapply parses_map.
Qed.

(** A path starts with a byte no operator starts with. *)
Lemma path_lead p e : path_wf p = true → path_aml p = Ok e →
  ∃ c e', e = c :: e' ∧ is_name_start c = true.
Proof.
  intros Hwf He. destruct (path_aml_form p e He) as (e' & -> & Hform).
  destruct (root p); [by eexists _, _|]. cbn [app].
  destruct Hform as [(s & Hp & ->)|[[Hp ->]| ->]]; [|by eexists _, _..].
  unfold path_wf in Hwf. rewrite Hp in Hwf. cbn [forallb] in Hwf. bool_to_prop.
  destruct (seg_lead s) as (c & s' & -> & Hl & _); [done|]. eexists _, _. split; [done|].
  unfold is_name_start. by rewrite Hl, orb_true_r.
Qed.

Lemma in_range_iff v hi : in_range v hi = true ↔ 0 ≤ v ≤ hi.
Proof. unfold in_range. rewrite andb_true_iff, !Z.leb_le. done. Qed.

Lemma parses_const v e : in_range v U64_MAX = true → usize_aml v = Ok e → parses rd_const e v.
Proof.
  rewrite in_range_iff. unfold usize_aml, U8_MAX, U16_MAX, U32_MAX, U64_MAX. intros Hv.
  destruct (Z.leb_spec v 255); [|destruct (Z.leb_spec v 65535); [|destruct (Z.leb_spec v 4294967295)]];
    intros [= <-]; apply parses_byte.
  - replace [v] with (le_encode 1 v) by (cbn; by rewrite Z.mod_small by lia).
    apply parses_uint. cbn; lia.
  - apply (parses_uint 2). cbn; lia.
  - apply (parses_uint 4). cbn; lia.
  - apply (parses_uint 8). cbn; lia.
Qed.

Lemma parses_string v :
  forallb (fun c => negb (c =? 0) && in_range c U8_MAX) v = true → parses rd_string (v ++ [0]) v.
Proof.
  intros H rest. induction v as [|c v IH]; [done|]. cbn [forallb] in H.
  apply andb_prop in H as [H H']. apply andb_prop in H as [H _]. apply negb_true_iff in H.
  cbn [app rd_string]. by rewrite H, (IH H').
Qed.

Lemma parses_field_entry f e :
  field_entry_wf f = true → field_entry_aml f = Ok e → parses rd_field_entry e f.
Proof.
  destruct f as [name bits|bits]; cbn [field_entry_wf field_entry_aml]; intros Hwf He;
    apply append_Ok in He as (x & y & [= <-] & Hy & ->); bool_to_prop.
  - destruct (seg_lead name) as (c & s' & -> & _ & _ & _ & _ & Hc); [done|].
    apply parses_peek. rewrite Hc. rewrite app_comm_cons.
    eapply parses_bind; [by apply parses_seg|].
    rewrite in_range_iff in *.
    eapply parses_map; [apply (parses_pkg_length bits false); [lia|done]|by rewrite Z.add_0_r].
  - apply parses_peek, parses_byte. rewrite in_range_iff in *.
    eapply parses_map; [apply (parses_pkg_length bits false); [lia|done]|by rewrite Z.add_0_r].
Qed.

Lemma parses_field_flags access update :
  parses rd_field_flags
    [Z.lor (FieldAccessType.as_u8 access) (Z.shiftl (FieldUpdateRule.as_u8 update) 5)]
    (access, update).
Proof. intros rest. by destruct access, update. Qed.

Lemma parses_region_space s : parses rd_region_space [OpRegionSpace.as_u8 s] s.
Proof. intros rest. by destruct s. Qed.

Lemma method_flags args serialized :
  in_range args 7 = true →
  let flags := Z.lor (Z.land args 0x7) (Z.shiftl (Z.b2z serialized) 3) in
  (flags <? 16) = true ∧ Z.land flags 0x7 = args ∧ Z.testbit flags 3 = serialized.
Proof.
  rewrite in_range_iff. intros H.
  assert (args = 0 ∨ args = 1 ∨ args = 2 ∨ args = 3 ∨ args = 4 ∨ args = 5 ∨ args = 6 ∨ args = 7)
    as Ha by lia.
  destruct_or! Ha; subst args; by destruct serialized.
Qed.

End lexical.

(** ** Terms *)

(** Splits the equation of a successful encoding into those of its parts. *)
Ltac inv_encoded :=
  repeat match goal with
  | H : append _ _ = Ok _ |- _ => apply append_Ok in H as (? & ? & ? & ? & ?)
  | H : push_package _ _ = Ok _ |- _ => apply push_package_Ok in H as (? & ? & ?)
  | H : Ok _ = Ok _ |- _ => injection H as H
  | H : result_bind ?c _ = Ok _ |- _ => destruct c eqn:?; cbn [result_bind] in H; [|discriminate H]
  end; subst.

(** Reads a sequence, leaving what no rule below covers. *)
Ltac rd_steps :=
  repeat (cbn [app];
    lazymatch goal with
    | |- parses (rd_bind rd_byte (fun x => rd_ret _)) _ _ => eapply parses_map; [apply parses_1|reflexivity]
    | |- parses (rd_bind rd_byte _) (_ :: _) _ => apply parses_byte
    | |- parses (rd_bind _ (fun x => rd_ret _)) _ _ => eapply parses_map; [|reflexivity]
    | |- parses (rd_bind _ _) (_ ++ _) _ => eapply parses_bind
    | |- parses (rd_package _) (_ ++ _) _ => eapply parses_package; [eassumption|]
    | |- parses_all (rd_bind rd_byte _) (_ :: _) _ => apply parses_all_byte
    | |- parses_all (rd_bind _ (fun x => rd_ret _)) _ _ => eapply parses_all_map; [|reflexivity]
    | |- parses_all (rd_bind _ _) (_ ++ _) _ => eapply parses_all_bind
    | |- parses rd_path _ _ => eapply parses_path; [|eassumption]; assumption
    | |- parses rd_const _ _ => eapply parses_const; [|eassumption]; assumption
    | |- parses (rd_uint _) _ _ =>
        apply parses_uint; rewrite ?in_range_iff in *; unfold U16_MAX, U32_MAX, U64_MAX in *; cbn; lia
    end).

Section terms.

Lemma append_all_Ok (encode : aml → encoded) l z :
  append_all encode l = Ok z → ∃ es, Forall2 (fun t e => encode t = Ok e) l es ∧ z = concat es.
Proof.
  revert z; induction l as [|t l IH]; cbn; intros z H; inv_encoded; [by exists []|].
  destruct (IH _ ltac:(eassumption)) as (es & Hes & ->). by exists (x :: es); split; [constructor|].
Qed.

Lemma parses_op n arity c e x :
  is_name_start c = false → parses (rd_op (rd_term n) arity c) e x →
  parses (rd_term (S n) arity) (c :: e) x.
Proof. intros Hc H rest. cbn [rd_term]. unfold rd_bind at 1. cbn [app rd_peek]. rewrite Hc. apply H. Qed.

Lemma parses_name n arity p e0 e x :
  path_wf p = true → path_aml p = Ok e0 → parses (rd_named (rd_term n) arity) (e0 ++ e) x →
  parses (rd_term (S n) arity) (e0 ++ e) x.
Proof.
  intros Hp He0 H rest. destruct (path_lead p e0 Hp He0) as (c & e' & -> & Hc).
  cbn [rd_term]. unfold rd_bind at 1. cbn [app rd_peek]. rewrite Hc. apply H.
Qed.

(** What the induction on the nesting gives for the parts of a term. *)
Definition parses_below (n : nat) : Prop :=
  ∀ arity t e, aml_wf arity t = true → (depth t ≤ n)%nat → to_aml_bytes t = Ok e →
  parses (rd_term n arity) e (norm t).

Lemma parses_children n arity l z :
  parses_below n → forallb (aml_wf arity) l = true →
  (foldr (fun t d => Nat.max (depth t) d) 0 l ≤ n)%nat → append_all to_aml_bytes l = Ok z →
  ∃ es, z = concat es ∧ Forall2 (parses (rd_term n arity)) es (map norm l) ∧ Forall (.≠ []) es.
Proof.
  intros IH Hwf Hd Hz. destruct (append_all_Ok _ _ _ Hz) as (es & Hes & ->). exists es.
  split; [done|]. clear Hz. induction Hes as [|t e l es He _ IHl]; [split; constructor|].
  cbn [forallb foldr map] in *. bool_to_prop. destruct IHl as [H1 H2]; [done|lia|].
  pose proof (IH arity t e ltac:(done) ltac:(lia) He) as Ht.
  split; (constructor; [|done]); [done|]. intros ->. specialize (Ht []). by destruct n.
Qed.

Lemma parses_block n arity l z :
  parses_below n → forallb (aml_wf arity) l = true →
  (foldr (fun t d => Nat.max (depth t) d) 0 l ≤ n)%nat → append_all to_aml_bytes l = Ok z →
  parses_all (rd_block (rd_term n) arity) z (map norm l).
Proof.
  intros IH Hwf Hd Hz. destruct (parses_children n arity l z IH Hwf Hd Hz) as (es & -> & H1 & H2).
  by apply parses_all_many.
Qed.

Lemma parses_elements n arity l z :
  parses_below n → forallb (aml_wf arity) l = true →
  (foldr (fun t d => Nat.max (depth t) d) 0 l ≤ n)%nat → append_all to_aml_bytes l = Ok z →
  parses (rd_count (length l) (rd_term n arity)) z (map norm l).
Proof.
  intros IH Hwf Hd Hz. destruct (parses_children n arity l z IH Hwf Hd Hz) as (es & -> & H1 & H2).
  replace (length l) with (length (map norm l)) by apply length_map. by apply parses_count.
Qed.

(** One operator: the parts are read by what is known of them. *)
Ltac read_op IH :=
  apply parses_op; [reflexivity|]; cbn [rd_op]; unfold rd_ext_op; rd_steps;
  repeat first
    [ eapply IH; [| |eassumption]; [eassumption|lia]
    | eapply parses_block; [exact IH| | |eassumption]; [assumption|lia]
    | rewrite Nat2Z.id; eapply parses_elements; [exact IH| | |eassumption]; [assumption|lia]
    | apply parses_region_space | apply parses_1 ]; rd_steps.

Lemma parses_constant n arity c w v t :
  is_name_start c = false → (rd_op (rd_term n) arity c = let! v := rd_uint w in rd_ret (t v)) →
  0 ≤ v < 256 ^ Z.of_nat w → parses (rd_term (S n) arity) (c :: le_encode w v) (t v).
Proof. intros Hc Hop Hv. apply parses_op; [done|]. rewrite Hop. rd_steps. Qed.

(** A buffer and a resource template: the size, then the data to the end. *)
Lemma parses_buffer n arity size data l :
  usize_aml (Z.of_nat (length data)) = Ok size → create_pkg_length (size ++ data) true = Ok l →
  parses (rd_term (S n) arity) ([0x11] ++ l ++ size ++ data) (Buffer data).
Proof.
  intros Hsize He. apply parses_op; [done|]. cbn [rd_op].
  apply parses_package; [done|]. eapply parses_all_bind.
  - apply parses_const; [|done]. apply in_range_iff.
    destruct (create_pkg_length_form (Z.of_nat (length (size ++ data))) true l)
      as [[_ Hv]|(k & Hk & _ & Hv & _)]; [lia|done|rewrite length_app in Hv; unfold U64_MAX; lia|].
    rewrite length_app in Hv. assert (256 ^ k ≤ 256 ^ 3) by (apply Z.pow_le_mono_r; lia).
    unfold U64_MAX. lia.
  - apply parses_all_rest. unfold rd_bind, rd_guard. by rewrite Z.eqb_refl.
Qed.

Lemma parses_local n arity k e :
  in_range k U8_MAX = true → local_aml k = Ok e → parses (rd_term (S n) arity) e (Local k).
Proof.
  rewrite in_range_iff. unfold local_aml. intros Hk He. destruct (Z.ltb_spec 7 k); [done|].
  injection He as <-.
  assert (k = 0 ∨ k = 1 ∨ k = 2 ∨ k = 3 ∨ k = 4 ∨ k = 5 ∨ k = 6 ∨ k = 7) as H' by lia.
  destruct_or! H'; subst k; intros rest; done.
Qed.

Lemma parses_arg n arity k e :
  in_range k U8_MAX = true → arg_aml k = Ok e → parses (rd_term (S n) arity) e (Arg k).
Proof.
  rewrite in_range_iff. unfold arg_aml. intros Hk He. destruct (Z.ltb_spec 6 k); [done|].
  injection He as <-.
  assert (k = 0 ∨ k = 1 ∨ k = 2 ∨ k = 3 ∨ k = 4 ∨ k = 5 ∨ k = 6) as H' by lia.
  destruct_or! H'; subst k; intros rest; done.
Qed.

Lemma parses_method n arity path args serialized children z e :
  parses_below n → path_wf path = true → in_range args 7 = true →
  forallb (aml_wf arity) children = true →
  (foldr (fun t d => Nat.max (depth t) d) 0 children ≤ n)%nat →
  append_all to_aml_bytes children = Ok z → method_aml path args serialized (Ok z) = Ok e →
  parses (rd_term (S n) arity) e (Method path args serialized (map norm children)).
Proof.
  intros IH Hp Ha Hwf Hd Hz He. unfold method_aml in He. cbv zeta in He. inv_encoded.
  apply parses_op; [done|]. cbn [rd_op]. apply parses_package; [done|].
  eapply parses_all_bind; [by apply parses_path|].
  destruct (method_flags args serialized Ha) as (Hf & Hargs & Hser). apply parses_all_byte.
  apply parses_all_guard; [done|]. eapply parses_all_map; [by apply parses_block|].
  by rewrite Hargs, Hser.
Qed.

Lemma field_list_Ok fields z :
  field_list_aml fields = Ok z → forallb field_entry_wf fields = true →
  ∃ es, z = concat es ∧ Forall2 (parses rd_field_entry) es fields ∧ Forall (.≠ []) es.
Proof.
  revert z. induction fields as [|f fields IH]; cbn; intros z Hz Hwf; inv_encoded; [by exists []|].
  bool_to_prop. destruct (IH _ ltac:(eassumption) ltac:(done)) as (es & -> & Hes & Hne).
  assert (parses rd_field_entry x f) as Hf by by apply parses_field_entry.
  exists (x :: es). split; [done|]. split; (constructor; [|done]); [done|].
  intros ->. by specialize (Hf []).
Qed.

Lemma parses_field n arity path access update fields e :
  path_wf path = true → forallb field_entry_wf fields = true →
  field_aml path access update fields = Ok e →
  parses (rd_term (S n) arity) e (Field path access update fields).
Proof.
  intros Hp Hwf He. unfold field_aml in He. cbv zeta in He. inv_encoded.
  match goal with H : field_list_aml _ = Ok _ |- _ =>
    destruct (field_list_Ok _ _ H Hwf) as (es & -> & Hes & Hne) end.
  apply parses_op; [done|]. cbn [rd_op app]. apply parses_byte. apply parses_package; [done|].
  eapply parses_all_bind; [by apply parses_path|].
  eapply (parses_all_bind _ _ [_]); [apply parses_field_flags|].
  eapply parses_all_map; [by apply parses_all_many|done].
Qed.

Lemma parses_named n arity p args z e0 :
  parses_below n → path_wf p = true → path_aml p = Ok e0 → length args = arity p →
  forallb (aml_wf arity) args = true → (foldr (fun t d => Nat.max (depth t) d) 0 args ≤ n)%nat →
  append_all to_aml_bytes args = Ok z →
  parses (rd_term (S n) arity) (e0 ++ z)
    (if (arity p =? 0)%nat then NamePath p else MethodCall p (map norm args)).
Proof.
  intros IH Hp He0 Ha Hwf Hd Hz. apply (parses_name n arity p); [done..|].
  eapply parses_bind; [by apply parses_path|]. destruct (Nat.eqb_spec (arity p) 0) as [H0|].
  - rewrite H0 in Ha. destruct args; [|done]. injection Hz as <-. apply parses_ret.
  - eapply parses_map; [rewrite <- Ha; by apply parses_elements|done].
Qed.


Lemma parses_package_term n arity children z e :
  parses_below n → forallb (aml_wf no_args) children = true →
  (foldr (fun t d => Nat.max (depth t) d) 0 children ≤ n)%nat →
  append_all to_aml_bytes children = Ok z → package_aml (length children) (Ok z) = Ok e →
  parses (rd_term (S n) arity) e (Package (map norm children)).
Proof.
  intros IH Hwf Hd Hz He. unfold package_aml in He. case_hyp He; [|done]. inv_encoded.
  apply parses_op; [done|]. cbn [rd_op]. rd_steps. rewrite Nat2Z.id.
  by apply parses_parses_all, parses_elements.
Qed.

Lemma parses_op_region n arity path space offset len e :
  path_wf path = true → in_range offset U64_MAX = true → in_range len U64_MAX = true →
  op_region_aml path space offset len = Ok e →
  parses (rd_term (S n) arity) e (OpRegion path space offset len).
Proof.
  intros Hp Ho Hl He. unfold op_region_aml in He. inv_encoded. apply parses_op; [done|].
  cbn [rd_op]. unfold rd_ext_op. apply parses_byte.
  eapply parses_bind; [by apply parses_path|]. eapply (parses_bind _ _ [_]); [apply parses_region_space|].
  rd_steps.
Qed.

Lemma parses_acquire n arity path timeout e :
  path_wf path = true → in_range timeout U16_MAX = true → acquire_aml path timeout = Ok e →
  parses (rd_term (S n) arity) e (Acquire path timeout).
Proof.
  intros Hp Ht He. unfold acquire_aml in He. inv_encoded. apply parses_op; [done|].
  cbn [rd_op]. unfold rd_ext_op. apply parses_byte. eapply parses_bind; [by apply parses_path|].
  eapply parses_map; [|done]. apply (parses_uint 2). apply in_range_iff in Ht.
  unfold U16_MAX in Ht. cbn. lia.
Qed.

Lemma parses_binary n arity op target a b e :
  parses_below n → aml_wf no_args target = true → aml_wf arity a = true → aml_wf arity b = true →
  (Nat.max (depth target) (Nat.max (depth a) (depth b)) ≤ n)%nat →
  binary_aml op (to_aml_bytes target) (to_aml_bytes a) (to_aml_bytes b) = Ok e →
  parses (rd_term (S n) arity) e (Binary op (norm target) (norm a) (norm b)).
Proof.
  intros IH Ht Ha Hb Hd He. unfold binary_aml in He. inv_encoded.
  apply parses_op; [by destruct op|].
  replace (rd_op (rd_term n) arity (BinaryOp.opcode op)) with
    (let! a := rd_term n arity in let! b := rd_term n arity in let! target := rd_term n no_args in
     rd_ret (Binary op target a b)) by by destruct op.
  rd_steps; (eapply IH; [| |eassumption]; [done|lia]).
Qed.

(** The constants as instances of [usize_aml]'s. *)
Lemma parses_fixed_constant n arity v e t :
  to_aml_bytes t = Ok e → aml_wf arity t = true →
  t = Byte v ∨ t = Word v ∨ t = DWord v ∨ t = QWord v →
  parses (rd_term (S n) arity) e t.
Proof.
  intros He Hwf Ht. destruct_or! Ht; subst t; cbn [to_aml_bytes aml_wf] in *; injection He as <-;
    apply in_range_iff in Hwf; unfold U8_MAX, U16_MAX, U32_MAX, U64_MAX in Hwf.
  - replace [0x0a; v] with (0x0a :: le_encode 1 v) by (cbn; by rewrite Z.mod_small by lia).
    apply (parses_constant n arity 0x0a 1 v Byte); [done..|cbn; lia].
  - apply (parses_constant n arity 0x0b 2 v Word); [done..|cbn; lia].
  - apply (parses_constant n arity 0x0c 4 v DWord); [done..|cbn; lia].
  - apply (parses_constant n arity 0x0e 8 v QWord); [done..|cbn; lia].
Qed.

Lemma parses_integer n arity v e :
  in_range v U64_MAX = true → usize_aml v = Ok e →
  parses (rd_term (S n) arity) e (norm_usize v).
Proof.
  rewrite in_range_iff. unfold usize_aml, norm_usize. intros Hv He.
  repeat case_hyp He; bool_to_prop;
    (eapply parses_fixed_constant; [exact He|apply in_range_iff; lia|auto]).
Qed.

Lemma parses_term n : parses_below n.
Proof.
  induction n as [|n IH]; intros arity t e Hwf Hd He; [destruct t; cbn in Hd; lia|].
  destruct t; cbn [depth aml_wf to_aml_bytes norm] in *; try done; bool_to_prop; apply le_S_n in Hd.
  all: try (injection He as <-; apply parses_op; [reflexivity|apply parses_ret]).
  all: try solve [eapply parses_fixed_constant; [exact He|exact Hwf|eauto]].
  all: try (unfold name_aml, device_aml, scope_aml, return_aml, if_aml, equal_aml, less_than_aml,
    store_aml, mutex_aml, release_aml, notify_aml, while_aml, create_qword_field_aml,
    create_dword_field_aml in He; inv_encoded; solve [read_op IH]).
  - rewrite <- (app_nil_r e). pose proof (parses_named n arity p [] [] e IH) as Hn.
    cbn [forallb map foldr] in Hn. apply Nat.eqb_eq in H0. rewrite H0 in Hn.
    apply Hn; first [done | lia].
  - by apply parses_integer.
  - injection He as <-. apply parses_op; [done|]. cbn [rd_op]. rd_steps. by apply parses_string.
  - destruct (append_all to_aml_bytes children) eqn:?;
      [|unfold package_aml in He; case_hyp He; inv_encoded; done].
    by eapply parses_package_term.
  - unfold resource_template_aml in He. inv_encoded.
    match goal with H : append_all _ _ = Ok _ |- _ => rewrite H end. by eapply parses_buffer.
  - destruct (append_all to_aml_bytes children) eqn:Hz;
      [|unfold method_aml in He; inv_encoded; done].
    by eapply parses_method.
  - by apply parses_field.
  - by apply parses_op_region.
  - by apply parses_arg.
  - by apply parses_local.
  - by apply parses_acquire.
  - by apply parses_binary.
  - unfold method_call_aml in He. inv_encoded.
    match goal with H : append_all _ _ = Ok _ |- _ => rename H into Hz end.
    pose proof (parses_named n arity name args _ _ IH ltac:(done) ltac:(eassumption)
      ltac:(by apply Nat.eqb_eq) ltac:(done) Hd Hz) as Hn.
    rewrite <- (proj1 (Nat.eqb_eq _ _) ltac:(eassumption)) in Hn.
    match goal with H : (length args =? 0)%nat = false |- _ => by rewrite H in Hn end.
  - unfold buffer_aml in He. inv_encoded. by eapply parses_buffer.
Qed.

End terms.

(** ** Nesting and length: the fuel of [parse_block] is enough *)
Section fuel.

Lemma path_bytes_pos p e : path_wf p = true → path_aml p = Ok e → (1 ≤ length e)%nat.
Proof. intros Hp He. destruct (path_lead p e Hp He) as (c & e' & -> & _). simpl. lia. Qed.

Lemma term_bytes_pos arity t e : aml_wf arity t = true → to_aml_bytes t = Ok e → (1 ≤ length e)%nat.
Proof.
  intros Hwf He. pose proof (parses_term (depth t) arity t e Hwf ltac:(lia) He []) as H.
  destruct e; [by destruct t|simpl; lia].
Qed.

Lemma depth_children n l arity z :
  (∀ arity t e, (depth t ≤ n)%nat → aml_wf arity t = true → to_aml_bytes t = Ok e →
    (depth t ≤ length e)%nat) →
  (foldr (fun t d => Nat.max (depth t) d) 0 l ≤ n)%nat → forallb (aml_wf arity) l = true →
  append_all to_aml_bytes l = Ok z →
  (foldr (fun t d => Nat.max (depth t) d) 0 l ≤ length z)%nat.
Proof.
  intros IH. revert z. induction l as [|t l IHl]; cbn [foldr forallb append_all]; intros z Hd Hwf Hz; [lia|].
  bool_to_prop. inv_encoded. rewrite length_app.
  pose proof (IH arity t x ltac:(lia) ltac:(done) ltac:(done)).
  pose proof (IHl x0 ltac:(lia) ltac:(done) ltac:(done)). lia.
Qed.

Lemma depth_le_length n arity t e :
  (depth t ≤ n)%nat → aml_wf arity t = true → to_aml_bytes t = Ok e → (depth t ≤ length e)%nat.
Proof.
  revert arity t e. induction n as [|n IH]; intros arity t e Hd Hwf He; [destruct t; cbn in Hd; lia|].
  pose proof (term_bytes_pos arity t e Hwf He) as Hpos. pose proof depth_children as Hc.
  destruct t; cbn [depth aml_wf to_aml_bytes] in *; try lia; bool_to_prop; apply le_S_n in Hd.
  all: unfold name_aml, package_aml, device_aml, scope_aml, method_aml, return_aml, if_aml, equal_aml,
    less_than_aml, store_aml, notify_aml, while_aml, binary_aml, method_call_aml,
    create_qword_field_aml, create_dword_field_aml in He; cbv zeta in He; repeat case_hyp He; try done;
    inv_encoded; rewrite ?length_app; cbn [length].
  all: repeat match goal with
    | H : to_aml_bytes _ = Ok _ |- _ =>
        apply IH with (arity := arity) in H as ?; [|lia|assumption]; clear H
    | H : to_aml_bytes _ = Ok _ |- _ =>
        apply IH with (arity := no_args) in H as ?; [|lia|assumption]; clear H
    | H : append_all _ _ = Ok _ |- _ =>
        apply (Hc n _ arity _ IH) in H as ?; [|lia|assumption]; clear H
    | H : append_all _ _ = Ok _ |- _ =>
        apply (Hc n _ no_args _ IH) in H as ?; [|lia|assumption]; clear H
    | H : path_aml _ = Ok _ |- _ => apply path_bytes_pos in H; [|assumption]
    end; cbn [length] in *; rewrite ?length_app in *; try lia.
Qed.

End fuel.

(** ** Resource descriptors *)
Section resources.

Lemma Ok_inj {A E} (x y : A) : @Ok A E x = Ok y → y = x.
Proof. congruence. Qed.

Lemma parses_space T a e :
  resource_wf (Space T a) = true → address_space_aml T a = Ok e →
  parses rd_resource e (Space T a).
Proof.
  intros Hwf He. cbn [resource_wf] in Hwf. bool_to_prop. rewrite in_range_iff in *.
  unfold address_space_aml in He. destruct (Z.ltb_spec (space_max a) (space_min a)); [done|].
  destruct (Z.ltb_spec (uint_max T) (space_max a - space_min a + 1)); [done|]. injection He as <-.
  assert (uint_max T < 256 ^ Z.of_nat (size_of T)) by by destruct T.
  unfold push_header. cbn [app]. apply parses_byte.
  assert (parses (rd_space T)
    ((le_encode 2 (3 + 5 * Z.of_nat (size_of T)) ++
      [space_type_as_u8 (space_type a); Z.lor (Z.shiftl 1 2) (Z.shiftl 1 3); type_flags a]) ++
     le_encode (size_of T) 0 ++ le_encode (size_of T) (space_min a) ++
     le_encode (size_of T) (space_max a) ++ le_encode (size_of T) 0 ++
     le_encode (size_of T) (space_max a - space_min a + 1)) (Space T a)); [|by destruct T].
  rewrite <- app_assoc. unfold rd_space. eapply parses_bind.
  { apply parses_uint. destruct T; cbn; lia. }
  cbn [app]. do 3 apply parses_byte.
  do 4 (eapply parses_bind; [apply parses_uint; lia|]).
  rewrite <- (app_nil_r (le_encode _ (_ - _ + 1))). eapply parses_bind; [apply parses_uint; lia|].
  apply parses_guard; [by rewrite !Z.eqb_refl|]. destruct a as [[] ? ? ?]; apply parses_ret.
Qed.

Lemma parses_resource t e :
  resource_wf t = true → to_aml_bytes t = Ok e → parses rd_resource e t.
Proof.
  destruct t; try done; intros Hwf He.
  2: by apply parses_space.
  all: cbn [resource_wf to_aml_bytes] in *; bool_to_prop; rewrite in_range_iff in *;
    unfold U8_MAX, U16_MAX, U32_MAX in *; apply Ok_inj in He; subst e; apply parses_byte.
  - eapply parses_bind; [apply parses_uint; lia|]. cbn [app]. apply parses_byte.
    eapply parses_bind; [apply parses_uint; cbn; lia|]. rewrite <- (app_nil_r (le_encode 4 length)).
    eapply parses_bind; [apply parses_uint; cbn; lia|]. by destruct read_write.
  - apply parses_byte. do 2 (eapply parses_bind; [apply parses_uint; cbn; lia|]).
    do 2 apply parses_byte. apply parses_ret.
  - eapply parses_bind; [apply parses_uint; lia|]. cbn [app]. do 2 apply parses_byte.
    rewrite <- (app_nil_r (le_encode 4 number)). eapply parses_bind; [apply parses_uint; cbn; lia|].
    apply parses_guard; [done|]. by destruct consumer, edge_triggered, active_low, shared.
Qed.

End resources.

(** ** Encodings are byte strings *)
Section bytes.

Lemma pkg_length_bytes n include_self l :
  0 ≤ n → create_pkg_length_from_len n include_self = Ok l → Forall is_byte l.
Proof.
  intros Hn Hl. destruct (create_pkg_length_form n include_self l Hn Hl) as [[Hf Hv]|(k & Hk & _ & _ & Hf)];
    revert Hf.
  - assert (0 ≤ n + (if include_self then Z.of_nat (length l) else 0)) by (destruct include_self; lia).
    generalize dependent (n + (if include_self then Z.of_nat (length l) else 0)).
    intros v Hv H0 ->. repeat constructor; unfold is_byte; lia.
  - generalize (n + (if include_self then Z.of_nat (length l) else 0)). intros v ->.
    constructor; [|auto with tarit]. change 0xf with (Z.ones 4). rewrite (land_low v) by lia.
    pose proof (Z.mod_pos_bound v (2 ^ 4) ltac:(lia)).
    rewrite lor_shiftl_low by (cbn in *; lia). unfold is_byte. cbn in *. lia.
Qed.

Lemma name_seg_bytes s : is_name_seg s = true → Forall is_byte s.
Proof.
  unfold is_name_seg. intros H. bool_to_prop. apply Forall_forall. intros c Hc.
  match goal with H : forallb is_name_char _ = true |- _ => rewrite forallb_forall in H;
    apply list_elem_of_In in Hc; apply H in Hc end.
  unfold is_name_char, is_lead_name_char, is_ascii_uppercase, is_ascii_digit in Hc. unfold is_byte.
  repeat match goal with H : (_ || _) = true |- _ => apply orb_prop in H as [H|H] end; bool_to_prop; lia.
Qed.

Lemma path_bytes p e : path_wf p = true → path_aml p = Ok e → Forall is_byte e.
Proof.
  intros Hp He. unfold path_wf in Hp.
  assert (Forall is_byte (concat (name_parts p))) as Hc.
  { clear He. induction (name_parts p) as [|s l IH]; [constructor|]. cbn [forallb concat] in *.
    bool_to_prop. apply Forall_app_2; [by apply name_seg_bytes|auto]. }
  assert (∀ b : bool, Forall is_byte (if b then [0x5c] else [])) as Hl
    by (intros []; repeat constructor; unfold is_byte; lia).
  revert He. unfold path_aml. repeat (case_goal; try done); intros [= <-];
    match goal with H : root p = ?b |- _ => pose proof (Hl b) as Hlead end;
    repeat (apply Forall_app_2; [done|]); repeat (constructor; [unfold is_byte|]); try done; try lia;
    match goal with H : (_ <=? 255)%nat = true |- _ => apply Nat.leb_le in H; lia end.
Qed.

Lemma const_bytes v e : 0 ≤ v → usize_aml v = Ok e → Forall is_byte e.
Proof.
  unfold usize_aml, U8_MAX. intros Hv He.
  repeat case_hyp He; bool_to_prop; apply Ok_inj in He; subst e; (constructor; [unfold is_byte; lia|]);
    auto with tarit.
  repeat constructor; unfold is_byte; lia.
Qed.

Lemma mod_byte v : is_byte (v mod 256).
Proof. unfold is_byte. zlia. Qed.

Lemma forallb_bytes (f : Z → bool) l :
  (∀ b, f b = true → is_byte b) → forallb f l = true → Forall is_byte l.
Proof.
  intros Hf Hl. induction l as [|b l IH]; [constructor|]. cbn [forallb] in Hl. bool_to_prop.
  apply Forall_cons_2; auto.
Qed.

Lemma range_byte v : in_range v U8_MAX = true → is_byte v.
Proof. rewrite in_range_iff. unfold U8_MAX, is_byte. lia. Qed.

Lemma resource_bytes t e : resource_wf t = true → to_aml_bytes t = Ok e → Forall is_byte e.
Proof.
  destruct t; try done; intros Hwf He; cbn [resource_wf to_aml_bytes] in *; bool_to_prop.
  - apply Ok_inj in He; subst e. constructor; [done|]. repeat apply Forall_app_2; auto with tarit.
    repeat constructor; destruct read_write; done.
  - unfold address_space_aml in He. repeat (case_hyp He; [done|]). apply Ok_inj in He; subst e.
    apply Forall_app_2; [|repeat apply Forall_app_2; auto with tarit]. unfold push_header.
    constructor; [by destruct T|]. apply Forall_app_2; [auto with tarit|].
    repeat (apply Forall_cons_2 || apply Forall_nil_2);
      [by destruct (space_type a)|done|by apply range_byte].
  - apply Ok_inj in He; subst e. repeat (constructor; [done|]). repeat apply Forall_app_2; auto with tarit.
    repeat (apply Forall_cons_2 || apply Forall_nil_2); by apply range_byte.
  - apply Ok_inj in He; subst e. constructor; [done|]. apply Forall_app_2; [auto with tarit|].
    apply Forall_app_2; [|auto with tarit].
    repeat (apply Forall_cons_2 || apply Forall_nil_2); [|done].
    by destruct consumer, edge_triggered, active_low, shared.
Qed.

(** The parts of a sequence of encodings. *)
Lemma append_all_bytes (P : aml → Prop) l z :
  (∀ t e, P t → to_aml_bytes t = Ok e → Forall is_byte e) → Forall P l →
  append_all to_aml_bytes l = Ok z → Forall is_byte z.
Proof.
  intros H Hl Hz. destruct (append_all_Ok _ _ _ Hz) as (es & Hes & ->). clear Hz.
  induction Hes as [|t e l es He _ IH]; [constructor|]. apply Forall_cons in Hl as [Ht Hl].
  cbn [concat]. apply Forall_app_2; eauto.
Qed.

Lemma children_bytes n arity l z :
  (∀ arity t e, (depth t ≤ n)%nat → aml_wf arity t = true → to_aml_bytes t = Ok e → Forall is_byte e) →
  (foldr (fun t d => Nat.max (depth t) d) 0 l ≤ n)%nat → forallb (aml_wf arity) l = true →
  append_all to_aml_bytes l = Ok z → Forall is_byte z.
Proof.
  intros H Hd Hwf. apply (append_all_bytes (fun t => (depth t ≤ n)%nat ∧ aml_wf arity t = true)).
  - intros t e [H1 H2]. by apply (H arity).
  - induction l as [|t l IH]; [constructor|]. cbn [foldr forallb] in *. bool_to_prop.
    constructor; [split; [lia|done]|apply IH; [lia|done]].
Qed.

Lemma field_list_bytes fields z :
  forallb field_entry_wf fields = true → field_list_aml fields = Ok z → Forall is_byte z.
Proof.
  revert z. induction fields as [|f fields IH]; cbn [field_list_aml forallb]; intros z Hwf Hz;
    inv_encoded; [constructor|]. bool_to_prop. apply Forall_app_2; [|eauto].
  destruct f as [name bits|bits]; cbn [field_entry_aml field_entry_wf] in *; bool_to_prop; inv_encoded;
    rewrite in_range_iff in *; apply Forall_app_2;
    [by apply name_seg_bytes| |repeat constructor; done|];
    (eapply pkg_length_bytes; [|eassumption]; lia).
Qed.

Lemma term_bytes n : ∀ arity t e,
  (depth t ≤ n)%nat → aml_wf arity t = true → to_aml_bytes t = Ok e → Forall is_byte e.
Proof.
  induction n as [|n IH]; intros arity t e Hd Hwf He; [destruct t; cbn in Hd; lia|].
  destruct t; cbn [depth aml_wf to_aml_bytes] in *; try done; bool_to_prop; apply le_S_n in Hd.
  all: unfold name_aml, package_aml, resource_template_aml, device_aml, scope_aml, method_aml, return_aml,
    field_aml, op_region_aml, if_aml, equal_aml, less_than_aml, arg_aml, local_aml, store_aml, mutex_aml,
    acquire_aml, release_aml, notify_aml, while_aml, binary_aml, method_call_aml, buffer_aml,
    create_qword_field_aml, create_dword_field_aml, byte_aml, word_aml, dword_aml, qword_aml,
    append_aml_string in He; cbv zeta in He;
    repeat match type of He with (if _ then _ else _) = _ => case_hyp He; try done end; inv_encoded.
  all: unfold create_pkg_length in *; repeat match goal with
    | H : to_aml_bytes _ = Ok _ |- _ =>
        first [apply (IH arity) in H; [|lia|assumption] | apply (IH no_args) in H; [|lia|assumption]]
    | H : append_all _ _ = Ok _ |- _ =>
        first [apply (children_bytes n arity _ _ IH) in H; [|lia|assumption]
              |apply (children_bytes n no_args _ _ IH) in H; [|lia|assumption]]
    | H : path_aml _ = Ok _ |- _ => apply path_bytes in H; [|assumption]
    | H : append_all _ _ = Ok _, Hr : forallb resource_wf _ = true |- _ =>
        apply (append_all_bytes (fun t => resource_wf t = true)) in H;
        [|exact resource_bytes|by apply Forall_forall; intros ? ?%list_elem_of_In;
          eapply (proj1 (forallb_forall _ _)) in Hr]
    | H : usize_aml _ = Ok _ |- _ => apply const_bytes in H; [|rewrite ?in_range_iff in *; lia]
    | H : create_pkg_length_from_len _ _ = Ok _ |- _ => apply pkg_length_bytes in H; [|lia]
    | H : field_list_aml _ = Ok _ |- _ => apply field_list_bytes in H; [|assumption]
    end.
  all: repeat first [apply Forall_app_2 | apply Forall_cons_2 | apply Forall_nil_2 | assumption
    | apply mod_byte | by apply range_byte | done].
  - eapply forallb_bytes; [|eassumption]. intros b Hb. apply andb_prop in Hb as [_ Hb]. by apply range_byte.
  - unfold is_byte, U8_MAX in *. bool_to_prop. lia.
  - destruct (method_flags args serialized) as (Hf & _); [done|]. unfold is_byte. bool_to_prop.
    split; [|lia]. apply Z.lor_nonneg. split; [apply Z.land_nonneg; lia|by destruct serialized].
  - by destruct access_type, update_rule.
  - by destruct space.
  - unfold is_byte. rewrite in_range_iff in *. bool_to_prop. lia.
  - unfold is_byte. rewrite in_range_iff in *. bool_to_prop. lia.
  - by destruct op.
  - eapply forallb_bytes; [|eassumption]. intros b Hb. by apply range_byte.
Qed.

End bytes.

(** ** EISA identifiers *)

(** The name a compressed identifier stands for: three letters of five bits
    and four hexadecimal digits, in big-endian order. *)
Definition eisa_letter (w k : Z) : Z := w / 2 ^ k mod 32 + 0x40.
Definition eisa_digit (w k : Z) : Z :=
  let d := w / 2 ^ k mod 16 in if d <? 10 then d + 0x30 else d - 10 + 0x41.

Definition eisa_decode (value : Z) : list Z :=
  let w := swap_bytes value in
  [eisa_letter w 26; eisa_letter w 21; eisa_letter w 16;
   eisa_digit w 12; eisa_digit w 8; eisa_digit w 4; eisa_digit w 0].

(** [u8::to_ascii_uppercase]. *)
Definition to_ascii_uppercase (b : Z) : Z := if (0x61 <=? b) && (b <=? 0x7a) then b - 0x20 else b.

Section eisa.

Lemma lor_shiftl_add a b j k :
  0 ≤ j → 0 ≤ k → 0 ≤ b < 2 ^ j →
  Z.lor (Z.shiftl a (j + k)) (Z.shiftl b k) = Z.shiftl (a * 2 ^ j + b) k.
Proof.
  intros Hj Hk Hb. rewrite <- Z.shiftl_shiftl, <- Z.shiftl_lor by lia. f_equal.
  by apply lor_shiftl_low.
Qed.

Lemma hex_bound b : is_ascii_hexdigit b = true → 0 ≤ hex b < 16.
Proof.
  unfold is_ascii_hexdigit, hex, is_ascii_digit. intros H.
  repeat case_goal; repeat match goal with H : (_ || _) = true |- _ => apply orb_prop in H as [H|H] end;
    bool_to_prop; try lia; try congruence.
Qed.

(** A digit is read back in upper case. *)
Lemma hex_print b : is_ascii_hexdigit b = true →
  (if hex b <? 10 then hex b + 0x30 else hex b - 10 + 0x41) = to_ascii_uppercase b.
Proof.
  unfold is_ascii_hexdigit, hex, is_ascii_digit, to_ascii_uppercase. intros H.
  repeat match goal with H : (_ || _) = true |- _ => apply orb_prop in H as [H|H] end; bool_to_prop;
    repeat match goal with |- context [?a <=? ?b] => destruct (Z.leb_spec a b); try lia; cbn [andb] end;
    repeat match goal with |- context [?a <? ?b] => destruct (Z.ltb_spec a b); try lia end.
Qed.

Lemma swap_bytes_swap v : in_u32 v → swap_bytes (swap_bytes v) = v.
Proof.
  intros Hv. unfold swap_bytes.
  assert (length (reverse (le_encode 4 v)) = 4%nat) as Hl by by rewrite length_reverse.
  rewrite <- Hl at 1. rewrite le_encode_decode by (apply Forall_reverse; auto with tarit).
  rewrite reverse_involutive. apply le_decode_encode. unfold in_u32, U32_MAX in Hv. cbn; lia.
Qed.

(** The identifier as a number in mixed radix. *)
Definition eisa_value (a b c d e f g : Z) : Z :=
  (((((a * 32 + b) * 32 + c) * 16 + d) * 16 + e) * 16 + f) * 16 + g.

Lemma eisa_fields a b c d e f g :
  0 ≤ b < 32 → 0 ≤ c < 32 → 0 ≤ d < 16 → 0 ≤ e < 16 → 0 ≤ f < 16 → 0 ≤ g < 16 →
  Z.lor (Z.lor (Z.lor (Z.lor (Z.lor (Z.lor (Z.shiftl a 26) (Z.shiftl b 21)) (Z.shiftl c 16))
    (Z.shiftl d 12)) (Z.shiftl e 8)) (Z.shiftl f 4)) g = eisa_value a b c d e f g.
Proof.
  intros. change 26 with (5 + 21). rewrite lor_shiftl_add by (cbn; lia).
  change 21 with (5 + 16). rewrite lor_shiftl_add by (cbn; lia).
  change 16 with (4 + 12). rewrite lor_shiftl_add by (cbn; lia).
  change 12 with (4 + 8). rewrite lor_shiftl_add by (cbn; lia).
  change 8 with (4 + 4) at 1. rewrite lor_shiftl_add by (cbn; lia).
  by rewrite lor_shiftl_low by (cbn; lia).
Qed.

Lemma eisa_value_parts a b c d e f g :
  0 ≤ a < 32 → 0 ≤ b < 32 → 0 ≤ c < 32 → 0 ≤ d < 16 → 0 ≤ e < 16 → 0 ≤ f < 16 → 0 ≤ g < 16 →
  let w := eisa_value a b c d e f g in
  w / 2 ^ 26 mod 32 = a ∧ w / 2 ^ 21 mod 32 = b ∧ w / 2 ^ 16 mod 32 = c ∧ w / 2 ^ 12 mod 16 = d ∧
  w / 2 ^ 8 mod 16 = e ∧ w / 2 ^ 4 mod 16 = f ∧ w / 2 ^ 0 mod 16 = g.
Proof.
  intros Ha Hb Hc Hd He Hf Hg. unfold eisa_value.
  change (2 ^ 26) with 67108864. change (2 ^ 21) with 2097152. change (2 ^ 16) with 65536.
  change (2 ^ 12) with 4096. change (2 ^ 8) with 256. change (2 ^ 4) with 16. change (2 ^ 0) with 1.
  repeat split; zlia.
Qed.

End eisa.

(** ** The theorems *)

(** Reading a definition block back. *)
Lemma parse_block_terms (arity : Path → nat) ts bs :
  forallb (aml_wf arity) ts = true → append_all to_aml_bytes ts = Ok bs →
  parse_block arity bs = Some (map norm ts).
Proof.
  intros Hwf Hbs. unfold parse_block.
  assert (foldr (fun t d => Nat.max (depth t) d) 0 ts ≤ S (length bs))%nat as Hd.
  { pose proof (depth_children _ ts arity bs (depth_le_length _) (Nat.le_refl _) Hwf Hbs). lia. }
  pose proof (parses_block (S (length bs)) arity ts bs (parses_term _) Hwf Hd Hbs) as H.
  unfold parses_all, rd_block in H. by rewrite H.
Qed.

(** Reading the descriptors of a template back. *)
Lemma parse_resources_template l d :
  forallb resource_wf l = true → append_all to_aml_bytes l = Ok d →
  parse_resources (d ++ [0x79; 0]) = Some l.
Proof.
  intros Hwf Hd. unfold parse_resources. rewrite length_app. cbn [length].
  replace (length d + 2 - 2)%nat with (length d) by lia. rewrite take_app_length, drop_app_length.
  destruct (append_all_Ok _ _ _ Hd) as (es & Hes & ->).
  assert (Forall2 (parses rd_resource) es l ∧ Forall (.≠ []) es) as [H1 H2].
  { clear Hd. induction Hes as [|t e l es He _ IH]; [split; constructor|].
    cbn [forallb] in Hwf. bool_to_prop. destruct IH; [done|].
    assert (parses rd_resource e t) as Ht by by apply parses_resource.
    split; (constructor; [|done]); [done|]. intros ->. by specialize (Ht []). }
  by rewrite (parses_all_many _ _ _ H1 H2).
Qed.

(** C16: the bytes of a definition block determine it. What the builder
    appends for a sequence of well-formed terms is parsed by the AML grammar
    to exactly those terms (integers, identifiers and resource templates in
    the form the grammar has for them), with no byte left over: package
    lengths, name prefixes, argument counts and opcodes are consistent. So
    two blocks with the same bytes are the same block. *)
Theorem aml_round_trip (arity : Path → nat) ts bs :
  forallb (aml_wf arity) ts = true → append_all to_aml_bytes ts = Ok bs →
  parse_block arity bs = Some (map norm ts) ∧
  ∀ ts', forallb (aml_wf arity) ts' = true → append_all to_aml_bytes ts' = Ok bs →
    map norm ts' = map norm ts.
Proof.
  intros Hwf Hbs. pose proof (parse_block_terms arity ts bs Hwf Hbs) as H. split; [done|].
  intros ts' Hwf' Hbs'. pose proof (parse_block_terms arity ts' bs Hwf' Hbs'). congruence.
Qed.

(** resource templates. A template is a buffer; the descriptors in it
    are read back one by one up to the end tag: the ranges, the flags, the
    interrupt numbers and the length field of every address space are the
    ones given. *)
Theorem resource_template_round_trip (arity : Path → nat) l bs :
  forallb resource_wf l = true → to_aml_bytes (ResourceTemplate l) = Ok bs →
  ∃ data, parse_block arity bs = Some [Buffer data] ∧ parse_resources data = Some l.
Proof.
  intros Hwf Hbs.
  assert (append_all to_aml_bytes [ResourceTemplate l] = Ok bs) as Hall.
  { change (append (to_aml_bytes (ResourceTemplate l)) (Ok []) = Ok bs). rewrite Hbs. cbn.
    by rewrite app_nil_r. }
  pose proof (parse_block_terms arity [ResourceTemplate l] bs) as H. cbn [forallb aml_wf] in H.
  rewrite Hwf in H. specialize (H eq_refl Hall). cbn [map norm] in H.
  cbn [to_aml_bytes] in Hbs. unfold resource_template_aml in Hbs. inv_encoded.
  match goal with E : append_all _ _ = Ok _ |- _ => rewrite E in H; eexists; split; [exact H|];
    by apply parse_resources_template end.
Qed.

(** package lengths. A length is encoded exactly when it fits the 28
    bits AML has for it (with room for the length bytes themselves when they
    are counted), in at most four bytes from which the grammar reads the
    same number; every other length is refused. *)
Theorem pkg_length_exact (n : Z) (include_self : bool) :
  in_u64 n →
  (n + (if include_self then 4 else 0) ≤ AML_PKG_LENGTH_MAX →
   ∃ l, create_pkg_length_from_len n include_self = Ok l ∧ (length l ≤ 4)%nat ∧
     parses rd_pkg_length l (n + (if include_self then Z.of_nat (length l) else 0))) ∧
  (AML_PKG_LENGTH_MAX < n + (if include_self then 4 else 0) →
   create_pkg_length_from_len n include_self = Err (Error PkgLengthTooLarge)).
Proof.
  intros Hn. unfold in_u64 in Hn. split.
  - intros Hmax. destruct (create_pkg_length_from_len n include_self) as [l|] eqn:E.
    + exists l. split; [done|]. split; [|by apply parses_pkg_length; [lia|]].
      destruct (create_pkg_length_form n include_self l) as [[-> _]|(k & Hk & -> & _)]; [lia|done|simpl; lia|lia].
    + exfalso. revert E. unfold create_pkg_length_from_len, ok_or, u64_checked_add.
      unfold AML_PKG_LENGTH_MAX, U8_MAX, U64_MAX in *.
      change (2 ^ 6 - 1) with 63. change (2 ^ 12 - 2) with 4094. change (2 ^ 20 - 3) with 1048573.
      destruct include_self;
        (destruct (Z.ltb_spec n 63); [|destruct (Z.ltb_spec n 4094); [|destruct (Z.ltb_spec n 1048573)]]);
        cbn [Z.eqb Pos.eqb]; repeat (case_goal; cbn [result_bind]; try done); bool_to_prop;
        rewrite ?Z.shiftr_div_pow2 in * by lia; change (2 ^ 4) with 16 in *; zlia.
  - intros Hmax. unfold create_pkg_length_from_len, ok_or, u64_checked_add.
    unfold AML_PKG_LENGTH_MAX, U64_MAX in *.
    destruct (Z.ltb_spec n (2 ^ 6 - 1)); [cbn in *; destruct include_self; lia|].
    destruct (Z.ltb_spec n (2 ^ 12 - 2)); [cbn in *; destruct include_self; lia|].
    destruct (Z.ltb_spec n (2 ^ 20 - 3)); [cbn in *; destruct include_self; lia|].
    destruct (n + (if include_self then 4 else 0) <=? _); [|done]. cbn [result_bind].
    by destruct (Z.ltb_spec 268435455 (n + (if include_self then 4 else 0))); [|lia].
Qed.

(** EISA identifiers. A name is accepted exactly when it is three upper
    case letters and four hexadecimal digits, and the 32-bit value it is
    compressed to expands to the same name, in upper case. *)
Theorem eisa_name_exact name :
  (length name = 7%nat ∧ forallb is_ascii_uppercase (take 3 name) = true ∧
     forallb is_ascii_hexdigit (drop 3 name) = true) ↔
  ∃ v, eisa_name_new name = Ok v ∧ eisa_decode v = to_ascii_uppercase <$> name.
Proof.
  split.
  - intros (Hl & Hu & Hh). destruct name as [|a [|b [|c [|d [|e [|f [|g []]]]]]]]; try done.
    unfold eisa_name_new. rewrite Hu, Hh. cbn [negb orb Nat.eqb length nth]. eexists. split; [done|].
    cbn [take drop forallb] in Hu, Hh. bool_to_prop.
    pose proof (hex_bound d ltac:(done)). pose proof (hex_bound e ltac:(done)).
    pose proof (hex_bound f ltac:(done)). pose proof (hex_bound g ltac:(done)).
    unfold is_ascii_uppercase in *. bool_to_prop. unfold eisa_decode.
    rewrite eisa_fields, swap_bytes_swap by (unfold in_u32, U32_MAX, eisa_value; lia).
    destruct (eisa_value_parts (a - 0x40) (b - 0x40) (c - 0x40) (hex d) (hex e) (hex f) (hex g))
      as (E1 & E2 & E3 & E4 & E5 & E6 & E7); [lia..|].
    unfold eisa_letter, eisa_digit. rewrite E1, E2, E3, E4, E5, E6, E7, !hex_print by done.
    cbn [fmap list_fmap]. unfold to_ascii_uppercase at 5 6 7.
    destruct (Z.leb_spec 97 a), (Z.leb_spec 97 b), (Z.leb_spec 97 c); try lia. cbn [andb].
    repeat f_equal; lia.
  - intros (v & Hv & _). unfold eisa_name_new in Hv. repeat case_hyp Hv; try done.
    bool_to_prop. by apply Nat.eqb_eq in Heqb.
Qed.

(** ** Witnesses *)

(** A method [MCAL] with two arguments is called from a [While] loop that
    shifts a local and stores to a field of an operation region. *)
Module Example.

Definition name4 (a b c d : Z) : Path := mkPath false [[a; b; c; d]].
Definition mcal : Path := name4 0x4d 0x43 0x41 0x4c.
Definition regn : Path := name4 0x52 0x45 0x47 0x4e.
Definition stat : Path := name4 0x53 0x54 0x41 0x54.

Definition arity (p : Path) : nat := if bool_decide (name_parts p = name_parts mcal) then 2 else 0.

Definition terms : list aml :=
  [OpRegion regn OpRegionSpace.SystemIo 0xcd8 0x10000;
   Field regn FieldAccessType.Byte FieldUpdateRule.WriteAsZeroes
     [Reserved 32; Named [0x53; 0x54; 0x41; 0x54] 8; Named [0x50; 0x4f; 0x53; 0x5f] 4096];
   Method mcal 2 true [Return (Usize 0x123456789)];
   Method (name4 0x4d 0x41 0x49 0x4e) 0 false
     [While (LessThan (Local 0) (Usize 300))
        [MethodCall mcal [NamePath stat; Arg 0];
         Binary BinaryOp.ShiftLeft (Local 1) (Local 0) One;
         Store (NamePath stat) (Package [Byte 1; AmlString [0x41; 0x42]; Ones])]];
   Name (name4 0x43 0x52 0x53 0x5f)
     (ResourceTemplate [Memory32Fixed true 0xd0000000 0x1000; Interrupt true false false false 9])].

Definition encoding : list Z := match append_all to_aml_bytes terms with Ok bs => bs | Err _ => [] end.

Definition resources : list aml :=
  [Space U16 (mkAddressSpace SpaceBusNumber 0 255 0); Io 0xcf8 0xcf8 1 8;
   Space U64 (mkAddressSpace SpaceMemory 0x100000000 0x1ffffffff 3)].

End Example.

Lemma aml_round_trip_witness :
  parse_block Example.arity Example.encoding = Some (map norm Example.terms).
Proof. apply (aml_round_trip Example.arity); reflexivity. Defined.

Lemma resource_template_round_trip_witness :
  ∃ bs data, to_aml_bytes (ResourceTemplate Example.resources) = Ok bs ∧
    parse_block no_args bs = Some [Buffer data] ∧ parse_resources data = Some Example.resources.
Proof.
  destruct (to_aml_bytes (ResourceTemplate Example.resources)) as [bs|] eqn:E; [|vm_compute in E; discriminate].
  destruct (resource_template_round_trip no_args Example.resources bs) as (data & H1 & H2);
    [reflexivity|exact E|]. exists bs, data. auto.
Defined.

Lemma pkg_length_exact_witness :
  ∃ l, create_pkg_length_from_len 0xffff true = Ok l ∧ parses rd_pkg_length l (0xffff + Z.of_nat (length l)).
Proof.
  destruct (pkg_length_exact 0xffff true) as [H _]; [unfold in_u64, U64_MAX; lia|].
  destruct H as (l & Hl & _ & Hp); [unfold AML_PKG_LENGTH_MAX; lia|]. exists l. auto.
Defined.
