(* ===== verification/Acpi.v ===== *)
(** * ACPI tables ([acpi-tables/src/{lib,dsdt,fadt,madt,mcfg,rsdp,xsdt}.rs])

    The system description tables the VMM hands to the guest: their packed
    layouts as byte strings, their constructors with length and checksum, and
    [write_to_guest]. A byte array [[u8; n]] is a list; [repr(C, packed)]
    structures are written field by field in little-endian order. *)

From stdpp Require Import strings.
From S2P Require Import Prelude GuestMem Aml.

Definition FC_ACPI_CREATOR_ID : list Z := bytes_of "IVMM".
Definition FC_ACPI_CREATOR_REVISION : Z := 0x20240119.

(** [u8::wrapping_add]. *)
Definition u8_wrapping_add (a b : Z) : Z := (a + b) mod 256.

Definition checksum (buf : list (list Z)) : Z :=
  u8_wrapping_add (255 - fold_left u8_wrapping_add (concat buf) 0) 1.

Inductive AcpiError : Type :=
  | GuestMemoryError
  | InvalidGuestAddress
  | InvalidRegisterSize
  | TableLength (length max : Z).

Record GenericAddressStructure : Type := mkGas {
  address_space_id : Z;
  register_bit_width : Z;
  register_bit_offset : Z;
  access_size : Z;
  address : Z;
}.

Definition gas_default : GenericAddressStructure := mkGas 0 0 0 0 0.

Definition gas_bytes (g : GenericAddressStructure) : list Z :=
  le_encode 1 (address_space_id g) ++ le_encode 1 (register_bit_width g) ++
  le_encode 1 (register_bit_offset g) ++ le_encode 1 (access_size g) ++ le_encode 8 (address g).

Record SdtHeader : Type := mkSdtHeader {
  signature : list Z;
  length_field : Z;
  revision : Z;
  checksum_field : Z;
  oem_id : list Z;
  oem_table_id : list Z;
  oem_revision : Z;
  creator_id : list Z;
  creator_revision : Z;
}.

Definition header_bytes (h : SdtHeader) : list Z :=
  signature h ++ le_encode 4 (length_field h) ++ le_encode 1 (revision h) ++
  le_encode 1 (checksum_field h) ++ oem_id h ++ oem_table_id h ++ le_encode 4 (oem_revision h) ++
  creator_id h ++ le_encode 4 (creator_revision h).

(** [size_of::<SdtHeader>()]. *)
Definition SDT_HEADER_SIZE : Z := 36.

Definition sdt_header_new (signature : list Z) (length table_revision : Z)
    (oem_id oem_table_id : list Z) (oem_revision : Z) : SdtHeader :=
  mkSdtHeader signature length table_revision 0 oem_id oem_table_id oem_revision
    FC_ACPI_CREATOR_ID FC_ACPI_CREATOR_REVISION.

Definition with_checksum (h : SdtHeader) (v : Z) : SdtHeader :=
  mkSdtHeader (signature h) (length_field h) (revision h) v (oem_id h) (oem_table_id h)
    (oem_revision h) (creator_id h) (creator_revision h).

(** ** Table lengths *)
Definition checked_table_length (header_len payload_len : Z) : result Z AcpiError :=
  let? length := ok_or (u64_checked_add header_len payload_len) (TableLength U64_MAX U32_MAX) in
  if length <=? U32_MAX then Ok length else Err (TableLength length U32_MAX).

Definition table_length_or_max (header_len payload_len : Z) : Z :=
  match checked_table_length header_len payload_len with Ok n => n | Err _ => U32_MAX end.

(** ** Writing a table

    [write_to_guest] takes [&mut self] (the FADT updates its checksum), so it
    returns the table next to the memory. *)
Definition write_result (T M : Type) : Type := result unit AcpiError * T * M.

Class Sdt (T : Type) := {
  sdt_len : T → Z;
  write_to_guest : ∀ {M : Type} {_ : GuestMemoryBackend M}, T → M → Z → write_result T M;
}.

Section write.

Context {M : Type} `{!GuestMemoryBackend M}.

(** [mem.write_slice(bytes, address)?] *)
Definition write_one {T : Type} (t : T) (mem : M) (address : Z) (bytes : list Z) :
    write_result T M :=
  let '(ok, mem') := gm_write_slice mem address bytes in
  (if ok then Ok tt else Err GuestMemoryError, t, mem').

(** A header, then the payload behind it ([GuestAddress::checked_add]). *)
Definition write_two {T : Type} (t : T) (mem : M) (address : Z) (header payload : list Z)
    (header_size : Z) : write_result T M :=
  let '(r, t', mem') := write_one t mem address header in
  match r with
  | Err e => (Err e, t', mem')
  | Ok _ =>
      match u64_checked_add address header_size with
      | None => (Err InvalidGuestAddress, t', mem')
      | Some address' => write_one t' mem' address' payload
      end
  end.

End write.

(** ** DSDT *)
Module Dsdt.

Record t : Type := mk { header : SdtHeader; definition_block : list Z }.

Definition new_with_length (oem_id oem_table_id : list Z) (oem_revision : Z)
    (definition_block : list Z) (length : Z) : t :=
  let header := sdt_header_new (bytes_of "DSDT") length 2 oem_id oem_table_id oem_revision in
  mk (with_checksum header (checksum [header_bytes header; definition_block])) definition_block.

Definition try_new (oem_id oem_table_id : list Z) (oem_revision : Z) (definition_block : list Z) :
    result t AcpiError :=
  let? length := checked_table_length SDT_HEADER_SIZE (Z.of_nat (length definition_block)) in
  Ok (new_with_length oem_id oem_table_id oem_revision definition_block length).

Definition new (oem_id oem_table_id : list Z) (oem_revision : Z) (definition_block : list Z) : t :=
  let length := table_length_or_max SDT_HEADER_SIZE (Z.of_nat (length definition_block)) in
  new_with_length oem_id oem_table_id oem_revision definition_block length.

Definition len (d : t) : Z := length_field (header d).

Definition write {M : Type} `{!GuestMemoryBackend M} (d : t) (mem : M) (address : Z) :
    write_result t M :=
  write_two d mem address (header_bytes (header d)) (definition_block d) SDT_HEADER_SIZE.

End Dsdt.

(** ** FADT *)
Module Fadt.

(** Bits of the fixed feature and boot architecture flags. *)
Definition IAPC_BOOT_ARG_FLAGS_VGA_NOT_PRESENT : Z := 2.
Definition FADT_F_PWR_BUTTON : Z := 4.
Definition FADT_F_SLP_BUTTON : Z := 5.
Definition FADT_F_HW_REDUCED_ACPI : Z := 20.

Record t : Type := mk {
  header : SdtHeader;
  firmware_control : Z;
  dsdt_addr : Z;
  reserved_1 : Z;
  preferred_pm_profile : Z;
  sci_int : Z;
  smi_cmd : Z;
  acpi_enable : Z;
  acpi_disable : Z;
  s4bios_req : Z;
  pstate_cnt : Z;
  pm1a_evt_blk : Z;
  pm1b_evt_blk : Z;
  pm1a_cnt_blk : Z;
  pm1b_cnt_blk : Z;
  pm2_cnt_blk : Z;
  pm_tmr_blk : Z;
  gpe0_blk : Z;
  gpe1_blk : Z;
  pm1_evt_len : Z;
  pm1_cnt_len : Z;
  pm2_cnt_len : Z;
  pm_tmr_len : Z;
  gpe0_blk_len : Z;
  gpe1_blk_len : Z;
  gpe1_base : Z;
  cst_cnt : Z;
  p_lvl2_lat : Z;
  p_lvl3_lat : Z;
  flush_size : Z;
  flush_stride : Z;
  duty_offset : Z;
  duty_width : Z;
  day_alrm : Z;
  mon_alrm : Z;
  century : Z;
  iapc_boot_arch : Z;
  reserved_2 : Z;
  flags : Z;
  reset_reg : GenericAddressStructure;
  reset_value : Z;
  arm_boot_arch : Z;
  fadt_minor_version : Z;
  x_firmware_ctrl : Z;
  x_dsdt : Z;
  x_pm1a_evt_blk : GenericAddressStructure;
  x_pm1b_evt_blk : GenericAddressStructure;
  x_pm1a_cnt_blk : GenericAddressStructure;
  x_pm1b_cnt_blk : GenericAddressStructure;
  x_pm2_cnt_blk : GenericAddressStructure;
  x_pm_tmr_blk : GenericAddressStructure;
  x_gpe0_blk : GenericAddressStructure;
  x_gpe1_blk : GenericAddressStructure;
  sleep_control_reg : GenericAddressStructure;
  sleep_status_reg : GenericAddressStructure;
  hypervisor_vendor_id : list Z;
}.


(** The fields behind the header. *)
Definition fields_bytes (f : t) : list Z :=
  le_encode 4 (firmware_control f) ++
  le_encode 4 (dsdt_addr f) ++ le_encode 1 (reserved_1 f) ++
  le_encode 1 (preferred_pm_profile f) ++ le_encode 2 (sci_int f) ++ le_encode 4 (smi_cmd f) ++
  le_encode 1 (acpi_enable f) ++ le_encode 1 (acpi_disable f) ++ le_encode 1 (s4bios_req f) ++
  le_encode 1 (pstate_cnt f) ++ le_encode 4 (pm1a_evt_blk f) ++ le_encode 4 (pm1b_evt_blk f) ++
  le_encode 4 (pm1a_cnt_blk f) ++ le_encode 4 (pm1b_cnt_blk f) ++ le_encode 4 (pm2_cnt_blk f) ++
  le_encode 4 (pm_tmr_blk f) ++ le_encode 4 (gpe0_blk f) ++ le_encode 4 (gpe1_blk f) ++
  le_encode 1 (pm1_evt_len f) ++ le_encode 1 (pm1_cnt_len f) ++ le_encode 1 (pm2_cnt_len f) ++
  le_encode 1 (pm_tmr_len f) ++ le_encode 1 (gpe0_blk_len f) ++ le_encode 1 (gpe1_blk_len f) ++
  le_encode 1 (gpe1_base f) ++ le_encode 1 (cst_cnt f) ++ le_encode 2 (p_lvl2_lat f) ++
  le_encode 2 (p_lvl3_lat f) ++ le_encode 2 (flush_size f) ++ le_encode 2 (flush_stride f) ++
  le_encode 1 (duty_offset f) ++ le_encode 1 (duty_width f) ++ le_encode 1 (day_alrm f) ++
  le_encode 1 (mon_alrm f) ++ le_encode 1 (century f) ++ le_encode 2 (iapc_boot_arch f) ++
  le_encode 1 (reserved_2 f) ++ le_encode 4 (flags f) ++ gas_bytes (reset_reg f) ++
  le_encode 1 (reset_value f) ++ le_encode 2 (arm_boot_arch f) ++
  le_encode 1 (fadt_minor_version f) ++ le_encode 8 (x_firmware_ctrl f) ++
  le_encode 8 (x_dsdt f) ++ gas_bytes (x_pm1a_evt_blk f) ++ gas_bytes (x_pm1b_evt_blk f) ++
  gas_bytes (x_pm1a_cnt_blk f) ++ gas_bytes (x_pm1b_cnt_blk f) ++ gas_bytes (x_pm2_cnt_blk f) ++
  gas_bytes (x_pm_tmr_blk f) ++ gas_bytes (x_gpe0_blk f) ++ gas_bytes (x_gpe1_blk f) ++
  gas_bytes (sleep_control_reg f) ++ gas_bytes (sleep_status_reg f) ++ hypervisor_vendor_id f.

Definition bytes (f : t) : list Z := header_bytes (header f) ++ fields_bytes f.

(** [size_of::<Fadt>()]. *)
Definition SIZE : Z := 276.

(** [..Default::default()] around the header and the minor version. *)
Definition default (h : SdtHeader) (minor : Z) : t :=
  mk h 0 0 0 0 0 0 0 0 0 0 0 0 0 0 0 0 0 0 0 0 0 0 0 0 0 0 0 0 0 0 0 0 0 0 0 0 0 0 gas_default
    0 0 minor 0 0 gas_default gas_default gas_default gas_default gas_default gas_default
    gas_default gas_default gas_default gas_default (replicate 8 0).

Definition set_x_dsdt (f : t) (v : Z) : t :=
  mk (header f) (firmware_control f) (dsdt_addr f) (reserved_1 f) (preferred_pm_profile f)
    (sci_int f) (smi_cmd f) (acpi_enable f) (acpi_disable f) (s4bios_req f) (pstate_cnt f)
    (pm1a_evt_blk f) (pm1b_evt_blk f) (pm1a_cnt_blk f) (pm1b_cnt_blk f) (pm2_cnt_blk f)
    (pm_tmr_blk f) (gpe0_blk f) (gpe1_blk f) (pm1_evt_len f) (pm1_cnt_len f) (pm2_cnt_len f)
    (pm_tmr_len f) (gpe0_blk_len f) (gpe1_blk_len f) (gpe1_base f) (cst_cnt f) (p_lvl2_lat f)
    (p_lvl3_lat f) (flush_size f) (flush_stride f) (duty_offset f) (duty_width f) (day_alrm f)
    (mon_alrm f) (century f) (iapc_boot_arch f) (reserved_2 f) (flags f) (reset_reg f)
    (reset_value f) (arm_boot_arch f) (fadt_minor_version f) (x_firmware_ctrl f) v
    (x_pm1a_evt_blk f) (x_pm1b_evt_blk f) (x_pm1a_cnt_blk f) (x_pm1b_cnt_blk f)
    (x_pm2_cnt_blk f) (x_pm_tmr_blk f) (x_gpe0_blk f) (x_gpe1_blk f) (sleep_control_reg f)
    (sleep_status_reg f) (hypervisor_vendor_id f).

Definition set_flags (f : t) (v : Z) : t :=
  mk (header f) (firmware_control f) (dsdt_addr f) (reserved_1 f) (preferred_pm_profile f)
    (sci_int f) (smi_cmd f) (acpi_enable f) (acpi_disable f) (s4bios_req f) (pstate_cnt f)
    (pm1a_evt_blk f) (pm1b_evt_blk f) (pm1a_cnt_blk f) (pm1b_cnt_blk f) (pm2_cnt_blk f)
    (pm_tmr_blk f) (gpe0_blk f) (gpe1_blk f) (pm1_evt_len f) (pm1_cnt_len f) (pm2_cnt_len f)
    (pm_tmr_len f) (gpe0_blk_len f) (gpe1_blk_len f) (gpe1_base f) (cst_cnt f) (p_lvl2_lat f)
    (p_lvl3_lat f) (flush_size f) (flush_stride f) (duty_offset f) (duty_width f) (day_alrm f)
    (mon_alrm f) (century f) (iapc_boot_arch f) (reserved_2 f) v (reset_reg f) (reset_value f)
    (arm_boot_arch f) (fadt_minor_version f) (x_firmware_ctrl f) (x_dsdt f) (x_pm1a_evt_blk f)
    (x_pm1b_evt_blk f) (x_pm1a_cnt_blk f) (x_pm1b_cnt_blk f) (x_pm2_cnt_blk f) (x_pm_tmr_blk f)
    (x_gpe0_blk f) (x_gpe1_blk f) (sleep_control_reg f) (sleep_status_reg f)
    (hypervisor_vendor_id f).

Definition setup_iapc_flags (f : t) (v : Z) : t :=
  mk (header f) (firmware_control f) (dsdt_addr f) (reserved_1 f) (preferred_pm_profile f)
    (sci_int f) (smi_cmd f) (acpi_enable f) (acpi_disable f) (s4bios_req f) (pstate_cnt f)
    (pm1a_evt_blk f) (pm1b_evt_blk f) (pm1a_cnt_blk f) (pm1b_cnt_blk f) (pm2_cnt_blk f)
    (pm_tmr_blk f) (gpe0_blk f) (gpe1_blk f) (pm1_evt_len f) (pm1_cnt_len f) (pm2_cnt_len f)
    (pm_tmr_len f) (gpe0_blk_len f) (gpe1_blk_len f) (gpe1_base f) (cst_cnt f) (p_lvl2_lat f)
    (p_lvl3_lat f) (flush_size f) (flush_stride f) (duty_offset f) (duty_width f) (day_alrm f)
    (mon_alrm f) (century f) v (reserved_2 f) (flags f) (reset_reg f) (reset_value f)
    (arm_boot_arch f) (fadt_minor_version f) (x_firmware_ctrl f) (x_dsdt f) (x_pm1a_evt_blk f)
    (x_pm1b_evt_blk f) (x_pm1a_cnt_blk f) (x_pm1b_cnt_blk f) (x_pm2_cnt_blk f) (x_pm_tmr_blk f)
    (x_gpe0_blk f) (x_gpe1_blk f) (sleep_control_reg f) (sleep_status_reg f)
    (hypervisor_vendor_id f).

Definition set_hypervisor_vendor_id (f : t) (v : list Z) : t :=
  mk (header f) (firmware_control f) (dsdt_addr f) (reserved_1 f) (preferred_pm_profile f)
    (sci_int f) (smi_cmd f) (acpi_enable f) (acpi_disable f) (s4bios_req f) (pstate_cnt f)
    (pm1a_evt_blk f) (pm1b_evt_blk f) (pm1a_cnt_blk f) (pm1b_cnt_blk f) (pm2_cnt_blk f)
    (pm_tmr_blk f) (gpe0_blk f) (gpe1_blk f) (pm1_evt_len f) (pm1_cnt_len f) (pm2_cnt_len f)
    (pm_tmr_len f) (gpe0_blk_len f) (gpe1_blk_len f) (gpe1_base f) (cst_cnt f) (p_lvl2_lat f)
    (p_lvl3_lat f) (flush_size f) (flush_stride f) (duty_offset f) (duty_width f) (day_alrm f)
    (mon_alrm f) (century f) (iapc_boot_arch f) (reserved_2 f) (flags f) (reset_reg f)
    (reset_value f) (arm_boot_arch f) (fadt_minor_version f) (x_firmware_ctrl f) (x_dsdt f)
    (x_pm1a_evt_blk f) (x_pm1b_evt_blk f) (x_pm1a_cnt_blk f) (x_pm1b_cnt_blk f)
    (x_pm2_cnt_blk f) (x_pm_tmr_blk f) (x_gpe0_blk f) (x_gpe1_blk f) (sleep_control_reg f)
    (sleep_status_reg f) v.

Definition with_header (f : t) (v : SdtHeader) : t :=
  mk v (firmware_control f) (dsdt_addr f) (reserved_1 f) (preferred_pm_profile f) (sci_int f)
    (smi_cmd f) (acpi_enable f) (acpi_disable f) (s4bios_req f) (pstate_cnt f) (pm1a_evt_blk f)
    (pm1b_evt_blk f) (pm1a_cnt_blk f) (pm1b_cnt_blk f) (pm2_cnt_blk f) (pm_tmr_blk f)
    (gpe0_blk f) (gpe1_blk f) (pm1_evt_len f) (pm1_cnt_len f) (pm2_cnt_len f) (pm_tmr_len f)
    (gpe0_blk_len f) (gpe1_blk_len f) (gpe1_base f) (cst_cnt f) (p_lvl2_lat f) (p_lvl3_lat f)
    (flush_size f) (flush_stride f) (duty_offset f) (duty_width f) (day_alrm f) (mon_alrm f)
    (century f) (iapc_boot_arch f) (reserved_2 f) (flags f) (reset_reg f) (reset_value f)
    (arm_boot_arch f) (fadt_minor_version f) (x_firmware_ctrl f) (x_dsdt f) (x_pm1a_evt_blk f)
    (x_pm1b_evt_blk f) (x_pm1a_cnt_blk f) (x_pm1b_cnt_blk f) (x_pm2_cnt_blk f) (x_pm_tmr_blk f)
    (x_gpe0_blk f) (x_gpe1_blk f) (sleep_control_reg f) (sleep_status_reg f)
    (hypervisor_vendor_id f).

Definition new (oem_id oem_table_id : list Z) (oem_revision : Z) : t :=
  default (sdt_header_new (bytes_of "FACP") SIZE 6 oem_id oem_table_id oem_revision) 5.

Definition len (f : t) : Z := length_field (header f).

(** The checksum is taken over the bytes as they are, the old checksum
    included, each time the table is written. *)
Definition write {M : Type} `{!GuestMemoryBackend M} (f : t) (mem : M) (address : Z) :
    write_result t M :=
  let f' := with_header f (with_checksum (header f) (checksum [bytes f])) in
  write_one f' mem address (bytes f').

End Fadt.

(** ** MADT *)
Module Madt.

Definition MADT_CPU_ENABLE_FLAG : Z := 0.

Record LocalAPIC : Type := mkLocalAPIC {
  la_type : Z; la_length : Z; processor_uid : Z; apic_id : Z; la_flags : Z;
}.

Definition local_apic_new (cpu_id : Z) : LocalAPIC :=
  mkLocalAPIC 0 8 cpu_id cpu_id (Z.shiftl 1 MADT_CPU_ENABLE_FLAG).

Definition local_apic_bytes (l : LocalAPIC) : list Z :=
  le_encode 1 (la_type l) ++ le_encode 1 (la_length l) ++ le_encode 1 (processor_uid l) ++
  le_encode 1 (apic_id l) ++ le_encode 4 (la_flags l).

Record IoAPIC : Type := mkIoAPIC {
  io_type : Z; io_length : Z; ioapic_id : Z; io_reserved : Z; apic_address : Z; gsi_base : Z;
}.

Definition io_apic_new (ioapic_id apic_address : Z) : IoAPIC :=
  mkIoAPIC 1 12 ioapic_id 0 apic_address 0.

Definition io_apic_bytes (i : IoAPIC) : list Z :=
  le_encode 1 (io_type i) ++ le_encode 1 (io_length i) ++ le_encode 1 (ioapic_id i) ++
  le_encode 1 (io_reserved i) ++ le_encode 4 (apic_address i) ++ le_encode 4 (gsi_base i).

Record MadtHeader : Type := mkMadtHeader { sdt : SdtHeader; base_address : Z; flags : Z }.

Definition madt_header_bytes (h : MadtHeader) : list Z :=
  header_bytes (sdt h) ++ le_encode 4 (base_address h) ++ le_encode 4 (flags h).

(** [size_of::<MadtHeader>()]. *)
Definition MADT_HEADER_SIZE : Z := 44.

Record t : Type := mk { header : MadtHeader; interrupt_controllers : list Z }.

Definition new_with_length (oem_id oem_table_id : list Z) (oem_revision base_address : Z)
    (interrupt_controllers : list Z) (length : Z) : t :=
  let sdt_header := sdt_header_new (bytes_of "APIC") length 6 oem_id oem_table_id oem_revision in
  let header := mkMadtHeader sdt_header base_address 0 in
  let sum := checksum [madt_header_bytes header; interrupt_controllers] in
  mk (mkMadtHeader (with_checksum sdt_header sum) base_address 0) interrupt_controllers.

Definition try_new (oem_id oem_table_id : list Z) (oem_revision base_address : Z)
    (interrupt_controllers : list Z) : result t AcpiError :=
  let? length := checked_table_length MADT_HEADER_SIZE (Z.of_nat (length interrupt_controllers)) in
  Ok (new_with_length oem_id oem_table_id oem_revision base_address interrupt_controllers length).

Definition new (oem_id oem_table_id : list Z) (oem_revision base_address : Z)
    (interrupt_controllers : list Z) : t :=
  let length := table_length_or_max MADT_HEADER_SIZE (Z.of_nat (length interrupt_controllers)) in
  new_with_length oem_id oem_table_id oem_revision base_address interrupt_controllers length.

Definition len (m : t) : Z := length_field (sdt (header m)).

Definition write {M : Type} `{!GuestMemoryBackend M} (m : t) (mem : M) (address : Z) :
    write_result t M :=
  write_two m mem address (madt_header_bytes (header m)) (interrupt_controllers m) MADT_HEADER_SIZE.

End Madt.

(** ** MCFG *)
Module Mcfg.

Record PciRangeEntry : Type := mkPciRangeEntry {
  base_address : Z; segment : Z; start_bus : Z; end_bus : Z; entry_reserved : Z;
}.

Record t : Type := mk { header : SdtHeader; reserved : Z; pci_range_entry : PciRangeEntry }.

Definition bytes (m : t) : list Z :=
  let e := pci_range_entry m in
  header_bytes (header m) ++ le_encode 8 (reserved m) ++ le_encode 8 (base_address e) ++
  le_encode 2 (segment e) ++ le_encode 1 (start_bus e) ++ le_encode 1 (end_bus e) ++
  le_encode 4 (entry_reserved e).

(** [size_of::<Mcfg>()]. *)
Definition SIZE : Z := 60.

Definition new (oem_id oem_table_id : list Z) (oem_revision pci_mmio_config_addr : Z) : t :=
  let header := sdt_header_new (bytes_of "MCFG") SIZE 1 oem_id oem_table_id oem_revision in
  let mcfg := mk header 0 (mkPciRangeEntry pci_mmio_config_addr 0 0 0 0) in
  mk (with_checksum header (checksum [bytes mcfg])) 0 (mkPciRangeEntry pci_mmio_config_addr 0 0 0 0).

Definition len (m : t) : Z := Z.of_nat (length (bytes m)).

Definition write {M : Type} `{!GuestMemoryBackend M} (m : t) (mem : M) (address : Z) :
    write_result t M :=
  write_one m mem address (bytes m).

End Mcfg.

(** ** RSDP *)
Module Rsdp.

Record t : Type := mk {
  rsdp_signature : list Z;
  rsdp_checksum : Z;
  rsdp_oem_id : list Z;
  rsdp_revision : Z;
  rsdt_addr : Z;
  rsdp_length : Z;
  xsdt_addr : Z;
  extended_checksum : Z;
  rsdp_reserved : list Z;
}.

Definition bytes (r : t) : list Z :=
  rsdp_signature r ++ le_encode 1 (rsdp_checksum r) ++ rsdp_oem_id r ++
  le_encode 1 (rsdp_revision r) ++ le_encode 4 (rsdt_addr r) ++ le_encode 4 (rsdp_length r) ++
  le_encode 8 (xsdt_addr r) ++ le_encode 1 (extended_checksum r) ++ rsdp_reserved r.

(** [size_of::<Rsdp>()]. *)
Definition SIZE : Z := 36.

(** The pointer with given checksums. *)
Definition with_sums (oem_id : list Z) (xsdt_addr c e : Z) : t :=
  mk (bytes_of "RSD PTR ") c oem_id 2 0 SIZE xsdt_addr e [0; 0; 0].

Definition new (oem_id : list Z) (xsdt_addr : Z) : t :=
  let c := checksum [take 20 (bytes (with_sums oem_id xsdt_addr 0 0))] in
  let e := checksum [bytes (with_sums oem_id xsdt_addr c 0)] in
  with_sums oem_id xsdt_addr c e.

Definition len (r : t) : Z := Z.of_nat (length (bytes r)).

Definition write {M : Type} `{!GuestMemoryBackend M} (r : t) (mem : M) (address : Z) :
    write_result t M :=
  write_one r mem address (bytes r).

End Rsdp.

(** ** XSDT *)
Module Xsdt.

Record t : Type := mk { header : SdtHeader; tables : list Z }.

Definition tables_to_bytes (tables : list Z) : list Z := tables ≫= le_encode 8.

Definition new_with_length (oem_id oem_table_id : list Z) (oem_revision : Z)
    (tables_bytes : list Z) (length : Z) : t :=
  let header := sdt_header_new (bytes_of "XSDT") length 1 oem_id oem_table_id oem_revision in
  mk (with_checksum header (checksum [header_bytes header; tables_bytes])) tables_bytes.

Definition try_new (oem_id oem_table_id : list Z) (oem_revision : Z) (tables : list Z) :
    result t AcpiError :=
  let tables_bytes := tables_to_bytes tables in
  let? length := checked_table_length SDT_HEADER_SIZE (Z.of_nat (length tables_bytes)) in
  Ok (new_with_length oem_id oem_table_id oem_revision tables_bytes length).

Definition new (oem_id oem_table_id : list Z) (oem_revision : Z) (tables : list Z) : t :=
  let tables_bytes := tables_to_bytes tables in
  let length := table_length_or_max SDT_HEADER_SIZE (Z.of_nat (length tables_bytes)) in
  new_with_length oem_id oem_table_id oem_revision tables_bytes length.

Definition len (x : t) : Z := SDT_HEADER_SIZE + Z.of_nat (length (tables x)).

Definition write {M : Type} `{!GuestMemoryBackend M} (x : t) (mem : M) (address : Z) :
    write_result t M :=
  write_two x mem address (header_bytes (header x)) (tables x) SDT_HEADER_SIZE.

End Xsdt.

#[export] Instance dsdt_sdt : Sdt Dsdt.t := { sdt_len := Dsdt.len; write_to_guest := @Dsdt.write }.
#[export] Instance fadt_sdt : Sdt Fadt.t := { sdt_len := Fadt.len; write_to_guest := @Fadt.write }.
#[export] Instance madt_sdt : Sdt Madt.t := { sdt_len := Madt.len; write_to_guest := @Madt.write }.
#[export] Instance mcfg_sdt : Sdt Mcfg.t := { sdt_len := Mcfg.len; write_to_guest := @Mcfg.write }.
#[export] Instance rsdp_sdt : Sdt Rsdp.t := { sdt_len := Rsdp.len; write_to_guest := @Rsdp.write }.
#[export] Instance xsdt_sdt : Sdt Xsdt.t := { sdt_len := Xsdt.len; write_to_guest := @Xsdt.write }.
