(* ===== verification/AcpiProof.v ===== *)
(** * The ACPI tables are well-formed

    What firmware and operating systems check of a table: the signature, the
    length field and the byte sum. Every constructor of [Acpi] produces
    tables that pass, for all identifiers and payloads. *)

From stdpp Require Import strings.
From S2P Require Import Prelude GuestMem Aml Acpi.

(** The sum of the bytes of a table, modulo 256; zero in a valid table. *)
Definition byte_sum (bs : list Z) : Z := foldr Z.add 0 bs mod 256.

(** A table as the guest checks it: the signature, a length field that is the
    table's length, and a zero sum. *)
Definition valid_table (sig bs : list Z) : Prop :=
  take 4 bs = sig ∧ (36 ≤ length bs)%nat ∧ le_decode (slice 4 4 bs) = Z.of_nat (length bs) ∧
  byte_sum bs = 0 ∧ Forall is_byte bs.

(** The identifiers the callers give are byte arrays of the right size. *)
Definition ids_ok (oem_id oem_table_id : list Z) (oem_revision : Z) : Prop :=
  length oem_id = 6%nat ∧ length oem_table_id = 8%nat ∧ Forall is_byte oem_id ∧
  Forall is_byte oem_table_id ∧ in_u32 oem_revision.

Section sums.

Lemma sum_app a b : foldr Z.add 0 (a ++ b) = foldr Z.add 0 a + foldr Z.add 0 b.
Proof. induction a as [|x a IH]; simpl; lia. Qed.

Lemma fold_wrapping_sum bs acc : fold_left u8_wrapping_add bs (acc mod 256) = (acc + foldr Z.add 0 bs) mod 256.
Proof.
  revert acc. induction bs as [|b bs IH]; intros acc; cbn [fold_left foldr]; [by rewrite Z.add_0_r|].
  change (u8_wrapping_add (acc mod 256) b) with ((acc mod 256 + b) mod 256).
  rewrite Zplus_mod_idemp_l, IH. f_equal. lia.
Qed.

Lemma checksum_spec bufs : checksum bufs = (- foldr Z.add 0 (concat bufs)) mod 256.
Proof.
  unfold checksum. change 0 with (0 mod 256) at 1. rewrite fold_wrapping_sum, Z.add_0_l.
  unfold u8_wrapping_add. zlia.
Qed.

Lemma checksum_byte bufs : is_byte (checksum bufs).
Proof. rewrite checksum_spec. unfold is_byte. zlia. Qed.

(** Adding the checksum to what it was computed from. *)
Lemma checksum_cancels bufs n :
  n = foldr Z.add 0 (concat bufs) + checksum bufs → n mod 256 = 0.
Proof. intros ->. rewrite checksum_spec. zlia. Qed.

Lemma le_encode_1 v : 0 ≤ v < 256 → le_encode 1 v = [v].
Proof. intros. simpl. by rewrite Z.mod_small. Qed.

End sums.

Section headers.

Context (sig oid tid : list Z) (len rev orev : Z).
Context (Hsig : length sig = 4%nat) (Hsigb : Forall is_byte sig) (Hids : ids_ok oid tid orev).

Lemma header_length v :
  length (header_bytes (with_checksum (sdt_header_new sig len rev oid tid orev) v)) = 36%nat.
Proof.
  destruct Hids as (H1 & H2 & _). unfold header_bytes. rewrite !length_app, !length_le_encode.
  cbn [sdt_header_new with_checksum signature oem_id oem_table_id creator_id].
  rewrite Hsig, H1, H2. done.
Qed.

Lemma header_bytes_ok v :
  Forall is_byte (header_bytes (with_checksum (sdt_header_new sig len rev oid tid orev) v)).
Proof.
  destruct Hids as (_ & _ & H3 & H4 & _). unfold header_bytes.
  cbn [sdt_header_new with_checksum signature oem_id oem_table_id creator_id].
  rewrite !Forall_app. repeat split; auto with tarit.
  unfold FC_ACPI_CREATOR_ID, is_byte. repeat constructor; vm_compute; discriminate || done.
Qed.

(** The checksum field is the only byte that changes. *)
Lemma header_sum v :
  is_byte v →
  foldr Z.add 0 (header_bytes (with_checksum (sdt_header_new sig len rev oid tid orev) v)) =
  foldr Z.add 0 (header_bytes (sdt_header_new sig len rev oid tid orev)) + v.
Proof.
  intros Hv. unfold header_bytes. cbn [sdt_header_new with_checksum signature length_field revision
    checksum_field oem_id oem_table_id oem_revision creator_id creator_revision].
  rewrite (le_encode_1 v), (le_encode_1 0) by (apply Hv || lia). rewrite !sum_app.
  change (foldr Z.add 0 [v]) with (v + 0). change (foldr Z.add 0 [0]) with 0. lia.
Qed.

Lemma header_signature v rest :
  take 4 (header_bytes (with_checksum (sdt_header_new sig len rev oid tid orev) v) ++ rest) = sig.
Proof.
  unfold header_bytes. cbn [signature sdt_header_new with_checksum]. rewrite <- !app_assoc.
  by apply take_app_length'.
Qed.

Lemma header_length_field v rest :
  in_u32 len →
  le_decode (slice 4 4 (header_bytes (with_checksum (sdt_header_new sig len rev oid tid orev) v) ++ rest))
    = len.
Proof.
  intros Hl. unfold header_bytes. cbn [signature length_field sdt_header_new with_checksum].
  rewrite <- !app_assoc, slice_app_r, Hsig by lia. rewrite Nat.sub_diag.
  rewrite slice_exact by apply length_le_encode. apply le_decode_encode.
  unfold in_u32, U32_MAX in Hl. cbn. lia.
Qed.

(** A header whose checksum covers itself and a payload makes a valid table. *)
Lemma table_valid payload sum :
  Forall is_byte payload → Z.of_nat (36 + length payload) = len → in_u32 len →
  sum = checksum [header_bytes (sdt_header_new sig len rev oid tid orev); payload] →
  valid_table sig (header_bytes (with_checksum (sdt_header_new sig len rev oid tid orev) sum) ++ payload).
Proof.
  intros Hp Hlen Hu ->. split; [apply header_signature|]. rewrite length_app, header_length.
  split; [lia|]. split; [rewrite header_length_field by done; lia|].
  split; [|apply Forall_app; split; [apply header_bytes_ok|done]].
  apply (checksum_cancels [header_bytes (sdt_header_new sig len rev oid tid orev); payload]).
  rewrite sum_app, header_sum by apply checksum_byte.
  cbn [concat]. rewrite app_nil_r, sum_app. lia.
Qed.

End headers.

(** The bytes of each table as [write_to_guest] lays them out. *)
Definition dsdt_table (d : Dsdt.t) : list Z := header_bytes (Dsdt.header d) ++ Dsdt.definition_block d.
Definition madt_table (m : Madt.t) : list Z :=
  Madt.madt_header_bytes (Madt.header m) ++ Madt.interrupt_controllers m.
Definition xsdt_table (x : Xsdt.t) : list Z := header_bytes (Xsdt.header x) ++ Xsdt.tables x.

Section tables.

Lemma string_bytes s : Forall is_byte (bytes_of s).
Proof.
  unfold bytes_of. induction (String.list_ascii_of_string s) as [|a l IH]; constructor; [|done].
  unfold is_byte. pose proof (Ascii.nat_ascii_bounded a). lia.
Qed.

Lemma table_length_fits h n : 0 ≤ h → 0 ≤ n → h + n ≤ U32_MAX → table_length_or_max h n = h + n.
Proof.
  intros. unfold table_length_or_max, checked_table_length, ok_or, u64_checked_add.
  unfold U32_MAX, U64_MAX in *. destruct (Z.leb_spec (h + n) 18446744073709551615); [|lia].
  cbn [result_bind]. by destruct (Z.leb_spec (h + n) 4294967295); [|lia].
Qed.

Lemma dsdt_valid oid tid orev body :
  ids_ok oid tid orev → Forall is_byte body → 36 + Z.of_nat (length body) ≤ U32_MAX →
  valid_table (bytes_of "DSDT") (dsdt_table (Dsdt.new oid tid orev body)).
Proof.
  intros Hids Hb Hl. unfold dsdt_table, Dsdt.new, Dsdt.new_with_length.
  rewrite table_length_fits by (unfold SDT_HEADER_SIZE; lia). cbn [Dsdt.header Dsdt.definition_block].
  apply table_valid; auto using string_bytes; unfold SDT_HEADER_SIZE, in_u32 in *; lia.
Qed.

Lemma xsdt_valid oid tid orev tables :
  ids_ok oid tid orev → 36 + 8 * Z.of_nat (length tables) ≤ U32_MAX →
  valid_table (bytes_of "XSDT") (xsdt_table (Xsdt.new oid tid orev tables)).
Proof.
  intros Hids Hl. unfold xsdt_table, Xsdt.new, Xsdt.new_with_length.
  assert (length (Xsdt.tables_to_bytes tables) = 8 * length tables)%nat as Hlen.
  { unfold Xsdt.tables_to_bytes. induction tables as [|x l IH]; [done|].
    cbn [mbind list_bind]. rewrite length_app, length_le_encode, IH; [simpl; lia|cbn [length] in Hl; lia]. }
  assert (Forall is_byte (Xsdt.tables_to_bytes tables)) as Hb.
  { unfold Xsdt.tables_to_bytes. clear. induction tables; [constructor|].
    cbn [mbind list_bind]. apply Forall_app. auto with tarit. }
  rewrite table_length_fits by (unfold SDT_HEADER_SIZE; lia). cbn [Xsdt.header Xsdt.tables].
  apply table_valid; auto using string_bytes; unfold SDT_HEADER_SIZE, in_u32 in *; lia.
Qed.

Lemma madt_valid oid tid orev base ics :
  ids_ok oid tid orev → Forall is_byte ics → 44 + Z.of_nat (length ics) ≤ U32_MAX →
  valid_table (bytes_of "APIC") (madt_table (Madt.new oid tid orev base ics)).
Proof.
  intros Hids Hb Hl. unfold madt_table, Madt.new, Madt.new_with_length.
  rewrite table_length_fits by (unfold Madt.MADT_HEADER_SIZE; lia).
  unfold Madt.madt_header_bytes.
  cbn [Madt.header Madt.interrupt_controllers Madt.sdt Madt.base_address Madt.flags].
  rewrite <- !app_assoc. apply table_valid; auto using string_bytes.
  - rewrite !Forall_app. auto with tarit.
  - rewrite !length_app, !length_le_encode. unfold Madt.MADT_HEADER_SIZE. lia.
  - unfold Madt.MADT_HEADER_SIZE, in_u32 in *. lia.
  - rewrite !checksum_spec. cbn [concat]. by rewrite !app_nil_r, <- !app_assoc.
Qed.

Lemma mcfg_valid oid tid orev addr :
  ids_ok oid tid orev → valid_table (bytes_of "MCFG") (Mcfg.bytes (Mcfg.new oid tid orev addr)).
Proof.
  intros Hids. unfold Mcfg.new. unfold Mcfg.bytes. cbn [Mcfg.header Mcfg.reserved Mcfg.pci_range_entry].
  apply table_valid; auto using string_bytes.
  - rewrite !Forall_app. auto 10 with tarit.
  - unfold in_u32, U32_MAX, Mcfg.SIZE. lia.
  - rewrite !checksum_spec. cbn [concat]. by rewrite !app_nil_r.
Qed.

Lemma fadt_fields_ok f :
  length (Fadt.hypervisor_vendor_id f) = 8%nat → Forall is_byte (Fadt.hypervisor_vendor_id f) →
  length (Fadt.fields_bytes f) = 240%nat ∧ Forall is_byte (Fadt.fields_bytes f).
Proof.
  intros Hl Hb. unfold Fadt.fields_bytes, gas_bytes. split.
  - rewrite !length_app, !length_le_encode, Hl. done.
  - repeat (apply Forall_app_2; [auto using Forall_app_2 with tarit|]). done.
Qed.

(** A FADT that was not written before: its header has no checksum yet. *)
Definition fresh_fadt (f : Fadt.t) (oid tid : list Z) (orev : Z) : Prop :=
  Fadt.header f = sdt_header_new (bytes_of "FACP") Fadt.SIZE 6 oid tid orev ∧
  length (Fadt.hypervisor_vendor_id f) = 8%nat ∧ Forall is_byte (Fadt.hypervisor_vendor_id f).

(** The table [write_to_guest] writes. *)
Definition fadt_written (f : Fadt.t) : Fadt.t :=
  Fadt.with_header f (with_checksum (Fadt.header f) (checksum [Fadt.bytes f])).

Lemma fadt_valid f oid tid orev :
  ids_ok oid tid orev → fresh_fadt f oid tid orev →
  valid_table (bytes_of "FACP") (Fadt.bytes (fadt_written f)).
Proof.
  intros Hids (Hh & Hl & Hb). destruct (fadt_fields_ok f Hl Hb) as [Hlen Hr].
  unfold fadt_written, Fadt.bytes at 1. change (Fadt.fields_bytes (Fadt.with_header f _)) with (Fadt.fields_bytes f).
  cbn [Fadt.header Fadt.with_header]. unfold Fadt.bytes. rewrite Hh.
  apply table_valid; auto using string_bytes; [rewrite Hlen; done| |].
  - unfold in_u32, U32_MAX, Fadt.SIZE. lia.
  - rewrite !checksum_spec. cbn [concat]. by rewrite !app_nil_r.
Qed.

(** Writing the FADT again: the checksum is computed over the bytes that
    already hold it, comes out as zero, and the table the guest then finds
    no longer sums to zero unless the first checksum happened to be zero. *)
Lemma fadt_second_write f oid tid orev :
  ids_ok oid tid orev → fresh_fadt f oid tid orev →
  byte_sum (Fadt.bytes (fadt_written (fadt_written f))) = (- checksum [Fadt.bytes f]) mod 256.
Proof.
  intros Hids Hfresh. pose proof (fadt_valid f oid tid orev Hids Hfresh) as (_ & _ & _ & Hz & _).
  destruct Hfresh as (Hh & _ & _). unfold byte_sum in *.
  assert (checksum [Fadt.bytes (fadt_written f)] = 0) as H0.
  { rewrite checksum_spec. cbn [concat]. rewrite app_nil_r. zlia. }
  assert (Fadt.bytes (fadt_written (fadt_written f)) = Fadt.bytes f) as ->.
  { unfold fadt_written at 1. rewrite H0. unfold Fadt.bytes. f_equal.
    cbn [fadt_written Fadt.with_header Fadt.header]. by rewrite Hh. }
  rewrite checksum_spec. cbn [concat]. rewrite app_nil_r. zlia.
Qed.

(** The two parts of the root pointer, each with its checksum. *)
Definition rsdp_first (oid : list Z) (c : Z) : list Z :=
  bytes_of "RSD PTR " ++ le_encode 1 c ++ oid ++ le_encode 1 2 ++ le_encode 4 0.
Definition rsdp_second (xsdt e : Z) : list Z :=
  le_encode 4 Rsdp.SIZE ++ le_encode 8 xsdt ++ le_encode 1 e ++ [0; 0; 0].

Lemma rsdp_parts oid xsdt c e :
  Rsdp.bytes (Rsdp.with_sums oid xsdt c e) = rsdp_first oid c ++ rsdp_second xsdt e.
Proof. unfold rsdp_first. by rewrite <- !app_assoc. Qed.

Lemma rsdp_first_ok oid c :
  length oid = 6%nat → Forall is_byte oid → is_byte c →
  length (rsdp_first oid c) = 20%nat ∧ Forall is_byte (rsdp_first oid c) ∧
  foldr Z.add 0 (rsdp_first oid c) = foldr Z.add 0 (rsdp_first oid 0) + c.
Proof.
  intros Hl Hb Hc. unfold rsdp_first. split; [by rewrite !length_app, Hl|]. split.
  - rewrite !Forall_app. repeat split; auto using string_bytes with tarit.
  - rewrite (le_encode_1 c), (le_encode_1 0), !sum_app by (done || apply Hc).
    change (foldr Z.add 0 [c]) with (c + 0). change (foldr Z.add 0 [0]) with 0. lia.
Qed.

Lemma rsdp_second_ok xsdt e :
  is_byte e →
  length (rsdp_second xsdt e) = 16%nat ∧ Forall is_byte (rsdp_second xsdt e) ∧
  foldr Z.add 0 (rsdp_second xsdt e) = foldr Z.add 0 (rsdp_second xsdt 0) + e.
Proof.
  intros He. unfold rsdp_second. split; [done|]. split.
  - rewrite !Forall_app. repeat split; auto with tarit. repeat constructor; unfold is_byte; lia.
  - rewrite (le_encode_1 e), (le_encode_1 0), !sum_app by (done || apply He).
    change (foldr Z.add 0 [e]) with (e + 0). change (foldr Z.add 0 [0]) with 0. lia.
Qed.

(** The root pointer: both checksums, the length and the address of the XSDT. *)
Lemma rsdp_valid oid xsdt :
  length oid = 6%nat → Forall is_byte oid → in_u64 xsdt →
  let bs := Rsdp.bytes (Rsdp.new oid xsdt) in
  length bs = 36%nat ∧ Forall is_byte bs ∧ take 8 bs = bytes_of "RSD PTR " ∧
  byte_sum (take 20 bs) = 0 ∧ byte_sum bs = 0 ∧ le_decode (slice 24 8 bs) = xsdt.
Proof.
  intros Hl Hb Hx. cbn zeta. unfold Rsdp.new. rewrite !rsdp_parts.
  destruct (rsdp_first_ok oid 0 Hl Hb ltac:(done)) as (H20 & _ & _).
  rewrite (take_app_length' (rsdp_first oid 0)) by done.
  set (c := checksum [rsdp_first oid 0]).
  destruct (rsdp_first_ok oid c Hl Hb (checksum_byte _)) as (Hc20 & Hcb & Hcs).
  set (e := checksum [rsdp_first oid c ++ rsdp_second xsdt 0]).
  destruct (rsdp_second_ok xsdt e (checksum_byte _)) as (He16 & Heb & Hes).
  split; [by rewrite length_app, Hc20, He16|]. split; [by apply Forall_app|].
  split; [unfold rsdp_first; rewrite <- app_assoc; by apply take_app_length'|].
  rewrite take_app_length' by done. split; [|split].
  - apply (checksum_cancels [rsdp_first oid 0]). cbn [concat]. by rewrite app_nil_r.
  - apply (checksum_cancels [rsdp_first oid c ++ rsdp_second xsdt 0]). fold e. cbn [concat].
    rewrite app_nil_r, !sum_app, Hes. lia.
  - rewrite slice_app_r by lia. rewrite Hc20. unfold rsdp_second.
    rewrite slice_app_r by (rewrite length_le_encode; lia). rewrite length_le_encode.
    rewrite slice_exact by apply length_le_encode. apply le_decode_encode.
    unfold in_u64, U64_MAX in Hx. cbn. lia.
Qed.

End tables.
