(* ===== verification/AcpiBoot.v ===== *)
(** * The ACPI tables of a boot ([vmm-core/src/vcpu_setup.rs], [vmgenid.rs])

    [build_dsdt] describes the virtio devices, the generation counter and
    the legacy devices in AML; [write_acpi_tables_with_devices] writes the six
    tables to their fixed guest addresses; [require_snapshot_support] looks
    for the generation counter in a snapshot's memory. *)

From stdpp Require Import strings.
From S2P Require Import Prelude GuestMem Aml Acpi.

(** [VmmError::Memory] with what it wraps, and [VmmError::Snapshot]. *)
Inductive VmmError : Type :=
  | AmlEncode (e : failure)
  | AcpiTable (e : AcpiError)
  | ReadDsdt
  | NoVmGenId.

Definition RSDP_ADDR : Z := 0xe0000.
Definition VMGENID_GPA : Z := 0xe6000.
Definition VMGENID_GSI : Z := 3.
Definition GSI_LEGACY_START : Z := 5.
Definition DSDT_GPA : Z := 0xe3000.
Definition DSDT_RESERVED_BYTES : Z := 0x1000.
Definition VMGENID_ACPI_HID : list Z := bytes_of "VMGENCTR".

(** ** The definition block *)

(** ["...".try_into()]. *)
Definition path (s : string) : result Path failure := path_new (bytes_of s).

(** [Name::new] encodes at once: its error is the constructor's. *)
Definition name_new (s : string) (inner : aml) : result aml failure :=
  let? p := path s in
  let? _ := name_aml p (to_aml_bytes inner) in
  Ok (Name p inner).

(** The elements of a [vec!], evaluated in order. *)
Fixpoint sequence (l : list (result aml failure)) : result (list aml) failure :=
  match l with
  | [] => Ok []
  | r :: l' => let? x := r in let? xs := sequence l' in Ok (x :: xs)
  end.

Definition device_new (p : result Path failure) (children : list (result aml failure)) :
    result aml failure :=
  let? p := p in let? l := sequence children in Ok (Device p l).

(** [.append_aml_bytes(aml)] on a constructed term. *)
Definition append_term (t : result aml failure) : encoded := let? t := t in to_aml_bytes t.

Definition vmgenid_device : result aml failure :=
  device_new (path "_SB_.VGEN")
    [name_new "_HID" (AmlString (bytes_of "VMGENCTR"));
     name_new "_CID" (AmlString (bytes_of "VM_GEN_COUNTER"));
     name_new "_DDN" (AmlString (bytes_of "VM_Gen_Counter"));
     name_new "ADDR" (Package [DWord (as_u32 VMGENID_GPA); DWord (as_u32 (Z.shiftr VMGENID_GPA 32))])].

Definition ged_device : result aml failure :=
  device_new (path "_SB_.GED_")
    [name_new "_HID" (AmlString (bytes_of "ACPI0013"));
     name_new "_CRS" (ResourceTemplate [Interrupt true true false false VMGENID_GSI]);
     let? evt := path "_EVT" in
     let? vgen := path "\_SB_.VGEN" in
     Ok (Method evt 1 true
       [If (Equal (Arg 0) (Byte (VMGENID_GSI mod 256))) [Notify (NamePath vgen) (Usize 0x80)]])].

Definition append_vmgenid_aml : encoded := append (append_term vmgenid_device) (append_term ged_device).

(** [EisaName::new(..)] inside a [Name]. *)
Definition eisa_new (s : string) : result aml failure :=
  let? v := eisa_name_new (bytes_of s) in Ok (EisaName v).

Definition com1_device : result aml failure :=
  device_new (path "_SB_.COM1")
    [let? hid := eisa_new "PNP0501" in name_new "_HID" hid;
     name_new "_UID" (Byte 0);
     name_new "_DDN" (AmlString (bytes_of "COM1"));
     name_new "_CRS" (ResourceTemplate
       [Interrupt true true false false 4; Io 0x3f8 0x3f8 1 8])].

Definition ps2_device : result aml failure :=
  device_new (path "_SB_.PS2_")
    [let? hid := eisa_new "PNP0303" in name_new "_HID" hid;
     let? sta := path "_STA" in Ok (Method sta 0 false [Return (Byte 0x0f)]);
     name_new "_CRS" (ResourceTemplate
       [Io 0x60 0x60 1 1; Io 0x64 0x64 1 1; Interrupt true true false false 1])].

Definition append_legacy_aml : encoded := append (append_term com1_device) (append_term ps2_device).

(** [format!("{n}")]: decimal digits; ten are enough for a [u32]. *)
Fixpoint decimal (fuel : nat) (n : Z) (acc : list Z) : list Z :=
  match fuel with
  | O => acc
  | S fuel' =>
      let acc' := (0x30 + n mod 10) :: acc in
      if n <? 10 then acc' else decimal fuel' (n / 10) acc'
  end.

(** [format!("V{dev_id:03}")]. *)
Definition virtio_name (dev_id : Z) : list Z :=
  let digits := decimal 10 dev_id [] in
  0x56 :: replicate (3 - length digits) 0x30 ++ digits.

(** An [acpi_devices] entry. *)
Record VirtioEntry : Type := mkVirtioEntry {
  mmio_addr : Z;
  mmio_size : Z;
  gsi : Z;
  edge_triggered : bool;
}.

(** [u32::try_from] of a [u64], as an AML error. *)
Definition as_range_u32 (v : Z) : result Z failure :=
  if v <=? U32_MAX then Ok v else error AddressRange.

(** [gsi - GSI_LEGACY_START] wraps in a release build, to a number with more
    digits than a name has; with overflow checks on it panics instead. *)
Definition virtio_device (d : VirtioEntry) : result aml failure :=
  let dev_id := as_u32 (gsi d - GSI_LEGACY_START) in
  device_new (path_new (virtio_name dev_id))
    [name_new "_HID" (AmlString (bytes_of "LNRO0005"));
     name_new "_UID" (DWord dev_id);
     name_new "_CCA" One;
     let? addr := as_range_u32 (mmio_addr d) in
     let? size := as_range_u32 (mmio_size d) in
     name_new "_CRS" (ResourceTemplate
       [Memory32Fixed true addr size; Interrupt true (edge_triggered d) false false (gsi d)])].

Definition append_virtio_aml (d : VirtioEntry) : encoded := append_term (virtio_device d).

(** [for &(..) in devices { append_virtio_aml(..)?; }]. *)
Fixpoint append_virtio_devices (devices : list VirtioEntry) : encoded :=
  match devices with
  | [] => Ok []
  | d :: devices' => append (append_virtio_aml d) (append_virtio_devices devices')
  end.

Definition build_dsdt (devices : list VirtioEntry) : encoded :=
  append (append_virtio_devices devices) (append append_vmgenid_aml append_legacy_aml).

(** ** Writing the tables *)
Definition OEM_ID : list Z := bytes_of "INSTAV".
Definition OEM_REVISION : Z := 0.
Definition IOAPIC_ADDR : Z := 0xfec00000.
Definition LAPIC_ADDR : Z := 0xfee00000.
Definition PCI_MMCONFIG_START : Z := IOAPIC_ADDR - Z.shiftl 256 20.

Definition madt_addr : Z := 0xe1000.
Definition xsdt_addr : Z := 0xe2000.
Definition dsdt_addr : Z := 0xe3000.
Definition fadt_addr : Z := 0xe4000.
Definition mcfg_addr : Z := 0xe5000.

Definition boot_dsdt (dsdt_body : list Z) : Dsdt.t :=
  Dsdt.new OEM_ID (bytes_of "IVMMDSDT") OEM_REVISION dsdt_body.

Definition boot_fadt : Fadt.t :=
  let fadt := Fadt.new OEM_ID (bytes_of "IVMMFADT") OEM_REVISION in
  let fadt := Fadt.set_hypervisor_vendor_id fadt (bytes_of "VMMHV" ++ [0; 0; 0]) in
  let fadt := Fadt.set_x_dsdt fadt dsdt_addr in
  let fadt := Fadt.set_flags fadt
    (Z.lor (Z.lor (Z.shiftl 1 Fadt.FADT_F_HW_REDUCED_ACPI) (Z.shiftl 1 Fadt.FADT_F_PWR_BUTTON))
       (Z.shiftl 1 Fadt.FADT_F_SLP_BUTTON)) in
  Fadt.setup_iapc_flags fadt (Z.shiftl 1 Fadt.IAPC_BOOT_ARG_FLAGS_VGA_NOT_PRESENT).

(** The I/O APIC, then one local APIC per vCPU ([0..nr_vcpus]). *)
Definition interrupt_controllers (nr_vcpus : Z) : list Z :=
  Madt.io_apic_bytes (Madt.io_apic_new 0 IOAPIC_ADDR) ++
  (seqZ 0 nr_vcpus ≫= fun i => Madt.local_apic_bytes (Madt.local_apic_new i)).

Definition boot_madt (nr_vcpus : Z) : Madt.t :=
  Madt.new OEM_ID (bytes_of "IVMMMADT") OEM_REVISION LAPIC_ADDR (interrupt_controllers nr_vcpus).

Definition boot_mcfg : Mcfg.t :=
  Mcfg.new OEM_ID (bytes_of "IVMMMCFG") OEM_REVISION PCI_MMCONFIG_START.

Definition boot_xsdt : Xsdt.t :=
  Xsdt.new OEM_ID (bytes_of "IVMMXSDT") OEM_REVISION [fadt_addr; madt_addr; mcfg_addr].

Definition boot_rsdp : Rsdp.t := Rsdp.new OEM_ID xsdt_addr.

Section boot.

Context {M : Type} `{!GuestMemoryBackend M}.

(** [table.write_to_guest(mem, addr).map_err(map_acpi)?;] and what follows. *)
Definition then_write {T : Type} `{!Sdt T} (table : T) (addr : Z)
    (k : M → result unit VmmError * M) (mem : M) : result unit VmmError * M :=
  let '(r, _, mem') := write_to_guest table mem addr in
  match r with
  | Err e => (Err (AcpiTable e), mem')
  | Ok _ => k mem'
  end.

Definition write_acpi_tables_with_devices (mem : M) (nr_vcpus : Z) (devices : list VirtioEntry) :
    result unit VmmError * M :=
  match build_dsdt devices with
  | Err e => (Err (AmlEncode e), mem)
  | Ok dsdt_body =>
      then_write (boot_dsdt dsdt_body) dsdt_addr
        (then_write boot_fadt fadt_addr
          (then_write (boot_madt nr_vcpus) madt_addr
            (then_write boot_mcfg mcfg_addr
              (then_write boot_xsdt xsdt_addr
                (then_write boot_rsdp RSDP_ADDR (fun mem => (Ok tt, mem))))))) mem
  end.

Definition write_acpi_tables (mem : M) (nr_vcpus : Z) : result unit VmmError * M :=
  write_acpi_tables_with_devices mem nr_vcpus [].

(** ** Snapshots and the generation counter *)

(** [dsdt.windows(n).any(|window| window == pattern)]. *)
Definition any_window (pattern l : list Z) : bool :=
  existsb (fun i => bool_decide (take (length pattern) (drop i l) = pattern))
    (seq 0 (S (length l) - length pattern)).

Definition require_snapshot_support (mem : M) : result unit VmmError :=
  match gm_read_slice mem DSDT_GPA DSDT_RESERVED_BYTES with
  | None => Err ReadDsdt
  | Some dsdt => if any_window VMGENID_ACPI_HID dsdt then Ok tt else Err NoVmGenId
  end.

End boot.
