(* ===== verification/DsdtProof.v ===== *)
(** * What the guest finds in the definition block

    [build_dsdt] against the reader of [AmlParse]: the block is produced for
    every list of devices AML can name, has a length linear in the number of
    devices, and the guest that parses it enumerates exactly the devices the
    VMM wired. *)

From stdpp Require Import strings.
From S2P Require Import Prelude Aml AmlParse AmlProof AcpiBoot.

(** The fields of an entry are a [u64], a [u64] and a [u32]. *)
Definition entry_typed (d : VirtioEntry) : Prop :=
  in_u64 (mmio_addr d) ∧ in_u64 (mmio_size d) ∧ in_u32 (gsi d).

(** AML has a name and descriptors for the device: three decimal digits for
    its number, 32-bit addresses. *)
Definition describable (d : VirtioEntry) : Prop :=
  5 ≤ gsi d ≤ 1004 ∧ mmio_addr d ≤ U32_MAX ∧ mmio_size d ≤ U32_MAX.

(** ** The guest's view *)

(** The value of [Name (s, ..)] among the children of a device. *)
Definition named (s : string) (children : list aml) : option aml :=
  match find (fun t => match t with
      | Name p _ => bool_decide (name_parts p = [bytes_of s]) && negb (root p)
      | _ => false
      end) children with
  | Some (Name _ v) => Some v
  | _ => None
  end.

Definition current_resources (children : list aml) : option (list aml) :=
  match named "_CRS" children with Some (Buffer data) => parse_resources data | _ => None end.

(** A virtio-mmio device: its hardware id, and a memory range and an interrupt
    in its current resources. *)
Definition guest_device (t : aml) : option VirtioEntry :=
  match t with
  | Device _ children =>
      match named "_HID" children with
      | Some (AmlString hid) =>
          if bool_decide (hid = bytes_of "LNRO0005") then
            match current_resources children with
            | Some [Memory32Fixed true addr size; Interrupt true edge false false number] =>
                Some (mkVirtioEntry addr size number edge)
            | _ => None
            end
          else None
      | _ => None
      end
  | _ => None
  end.

(** The path a device is declared under. *)
Definition device_path (t : aml) : option (list (list Z)) :=
  match t with Device p _ => Some (name_parts p) | _ => None end.

(** The unique id of a virtio device. *)
Definition guest_uid (t : aml) : option aml :=
  match guest_device t, t with
  | Some _, Device _ children => named "_UID" children
  | _, _ => None
  end.

Definition guest_virtio (body : list Z) : option (list VirtioEntry) :=
  match parse_block no_args body with Some ts => Some (omap guest_device ts) | None => None end.

(** ** The terms of the block *)
Definition seg (s : string) : Path := mkPath false [bytes_of s].

Definition virtio_resources (d : VirtioEntry) : list aml :=
  [Memory32Fixed true (mmio_addr d) (mmio_size d); Interrupt true (edge_triggered d) false false (gsi d)].

Definition virtio_term (d : VirtioEntry) : aml :=
  Device (mkPath false [virtio_name (gsi d - 5)])
    [Name (seg "_HID") (AmlString (bytes_of "LNRO0005"));
     Name (seg "_UID") (DWord (gsi d - 5));
     Name (seg "_CCA") One;
     Name (seg "_CRS") (ResourceTemplate (virtio_resources d))].

(** The generation counter, its event device and the legacy devices. *)
Definition fixed_terms : list aml :=
  match sequence [vmgenid_device; ged_device; com1_device; ps2_device] with Ok l => l | Err _ => [] end.

Definition dsdt_terms (devices : list VirtioEntry) : list aml :=
  map virtio_term devices ++ fixed_terms.

Section names.

(** The name of a device number below 1000: three decimal digits. *)
Lemma virtio_name_digits n :
  0 ≤ n < 1000 →
  virtio_name n = [0x56; 0x30 + n / 100; 0x30 + n / 10 mod 10; 0x30 + n mod 10].
Proof.
  intros Hn.
  assert (forallb (fun n => bool_decide (virtio_name n =
    [0x56; 0x30 + n / 100; 0x30 + n / 10 mod 10; 0x30 + n mod 10])) (seqZ 0 1000) = true) as H
    by (vm_compute; reflexivity).
  rewrite forallb_forall in H. specialize (H n). apply bool_decide_eq_true in H; [done|].
  apply list_elem_of_In, elem_of_seqZ. lia.
Qed.

Lemma split_no_dot s : Forall (.≠ 0x2e) s → split_dots s = [s].
Proof.
  induction 1 as [|c s Hc _ IH]; [done|]. cbn [split_dots]. rewrite IH.
  by rewrite (proj2 (Z.eqb_neq _ _) Hc).
Qed.

Lemma decimal_digits fuel n acc :
  0 ≤ n → Forall (.≠ 0x2e) acc → Forall (.≠ 0x2e) (decimal fuel n acc).
Proof.
  revert n acc. induction fuel as [|fuel IH]; intros n acc Hn Ha; [done|]. cbn [decimal].
  assert (Forall (.≠ 0x2e) ((0x30 + n mod 10) :: acc)) by (constructor; [zlia|done]).
  case_goal; [done|]. apply IH; [zlia|done].
Qed.

Lemma decimal_long fuel n acc :
  (4 ≤ fuel)%nat → 1000 ≤ n → (4 ≤ length (decimal fuel n acc))%nat.
Proof.
  intros Hf Hn. destruct fuel as [|[|[|[|fuel]]]]; try lia. cbn [decimal].
  destruct (Z.ltb_spec n 10); [lia|]. destruct (Z.ltb_spec (n / 10) 10); [zlia|].
  destruct (Z.ltb_spec (n / 10 / 10) 10); [zlia|].
  assert (∀ fuel n acc, (length acc ≤ length (decimal fuel n acc))%nat) as Hmono.
  { clear. induction fuel as [|fuel IH]; intros n acc; cbn [decimal]; [lia|].
    case_goal; cbn [length]; [lia|]. specialize (IH (n / 10) ((0x30 + n mod 10) :: acc)).
    cbn [length] in IH. lia. }
  case_goal; [cbn [length]; lia|]. etrans; [|apply Hmono]. cbn [length]. lia.
Qed.

Lemma path_new_no_dot c s :
  c ≠ 0x5c → c ≠ 0x2e → Forall (.≠ 0x2e) s →
  path_new (c :: s) = if (length s =? 3)%nat then Ok (mkPath false [c :: s]) else error InvalidPartLength.
Proof.
  intros Hc Hd Hs. unfold path_new. rewrite (proj2 (Z.eqb_neq _ _) Hc).
  rewrite split_no_dot by by constructor. cbn [forallb length]. rewrite andb_true_r.
  destruct (Nat.eqb_spec (length s) 3); destruct (Nat.eqb_spec (S (length s)) 4); done || lia.
Qed.

Lemma virtio_path_small n :
  0 ≤ n < 1000 → path_new (virtio_name n) = Ok (mkPath false [virtio_name n]).
Proof.
  intros Hn. rewrite virtio_name_digits by done. rewrite path_new_no_dot; [done|done|done|].
  repeat constructor; zlia.
Qed.

Lemma virtio_path_large n :
  1000 ≤ n → path_new (virtio_name n) = error InvalidPartLength.
Proof.
  intros Hn. unfold virtio_name. rewrite path_new_no_dot; [|done|done|].
  - pose proof (decimal_long 10 n [] ltac:(lia) Hn). rewrite length_app.
    by destruct (Nat.eqb_spec (length (replicate (3 - length (decimal 10 n [])) 0x30) +
      length (decimal 10 n [])) 3); [lia|].
  - apply Forall_app. split; [by apply Forall_replicate|]. apply decimal_digits; [lia|constructor].
Qed.

(** Distinct numbers have distinct names. *)
Lemma virtio_name_inj m n :
  0 ≤ m < 1000 → 0 ≤ n < 1000 → virtio_name m = virtio_name n → m = n.
Proof. intros Hm Hn. rewrite !virtio_name_digits by done. intros [=]. zlia. Qed.

End names.

Section terms.

(** The encoding of a virtio device: 71 bytes whatever the addresses. *)
Lemma virtio_encodes c0 c1 c2 c3 uid addr size edge number :
  let t := Device (mkPath false [[c0; c1; c2; c3]])
    [Name (seg "_HID") (AmlString (bytes_of "LNRO0005")); Name (seg "_UID") (DWord uid);
     Name (seg "_CCA") One;
     Name (seg "_CRS") (ResourceTemplate
       [Memory32Fixed true addr size; Interrupt true edge false false number])] in
  ∃ e, to_aml_bytes t = Ok e ∧ length e = 71%nat.
Proof.
  destruct edge; eexists; (split; [cbv -[Z.modulo Z.div]; reflexivity|reflexivity]).
Qed.

Lemma name_new_crs addr size edge number :
  name_new "_CRS" (ResourceTemplate
    [Memory32Fixed true addr size; Interrupt true edge false false number]) =
  Ok (Name (seg "_CRS") (ResourceTemplate
    [Memory32Fixed true addr size; Interrupt true edge false false number])).
Proof. by destruct edge; cbv -[Z.modulo Z.div]. Qed.

Lemma virtio_device_ok d :
  entry_typed d → describable d → virtio_device d = Ok (virtio_term d).
Proof.
  intros (Ha & Hs & _) (Hg & Ha' & Hs'). unfold virtio_device, GSI_LEGACY_START, as_u32.
  unfold in_u64 in *. rewrite Z.mod_small by lia. unfold device_new.
  rewrite virtio_path_small by lia. cbn [result_bind sequence].
  unfold as_range_u32. destruct (Z.leb_spec (mmio_addr d) U32_MAX); [|lia].
  destruct (Z.leb_spec (mmio_size d) U32_MAX); [|lia]. cbn [result_bind].
  rewrite name_new_crs. change (name_new "_UID" (DWord (gsi d - 5))) with
    (@Ok aml failure (Name (seg "_UID") (DWord (gsi d - 5)))).
  reflexivity.
Qed.

Lemma virtio_device_refused d :
  entry_typed d → ¬ describable d → ∃ e, append_virtio_aml d = Err e.
Proof.
  intros (Ha & Hs & Hg) Hd. unfold append_virtio_aml, append_term, virtio_device, device_new.
  unfold in_u64, in_u32, U32_MAX, as_u32, GSI_LEGACY_START in *.
  destruct (decide ((gsi d - 5) mod 4294967296 < 1000)) as [Hid|Hid].
  - rewrite virtio_path_small by zlia.
    cbn [result_bind sequence]. unfold as_range_u32, U32_MAX, describable, U32_MAX in *.
    destruct (Z.leb_spec (mmio_addr d) 4294967295); [|by eexists].
    destruct (Z.leb_spec (mmio_size d) 4294967295); [|by eexists].
    exfalso. apply Hd. split; [zlia|done].
  - rewrite virtio_path_large by lia. by eexists.
Qed.

Lemma fixed_encodes :
  append append_vmgenid_aml append_legacy_aml = append_all to_aml_bytes fixed_terms ∧
  ∃ e, append_all to_aml_bytes fixed_terms = Ok e ∧ length e = 300%nat.
Proof. split; [by vm_compute|]. eexists. split; vm_compute; reflexivity. Qed.

Lemma append_all_app l1 l2 :
  append_all to_aml_bytes (l1 ++ l2) =
  append (append_all to_aml_bytes l1) (append_all to_aml_bytes l2).
Proof.
  induction l1 as [|t l1 IH]; [cbn [app]; by destruct (append_all to_aml_bytes l2)|].
  change (append_all to_aml_bytes ((t :: l1) ++ l2)) with
    (append (to_aml_bytes t) (append_all to_aml_bytes (l1 ++ l2))).
  change (append_all to_aml_bytes (t :: l1)) with (append (to_aml_bytes t) (append_all to_aml_bytes l1)).
  rewrite IH. unfold append. destruct (to_aml_bytes t) as [x|]; [|done].
  destruct (append_all to_aml_bytes l1) as [y|]; [|done].
  destruct (append_all to_aml_bytes l2) as [z|]; [|done]. cbn [result_bind]. by rewrite app_assoc.
Qed.

Lemma virtio_term_wf arity d :
  entry_typed d → describable d → aml_wf arity (virtio_term d) = true ∧
  forallb resource_wf (virtio_resources d) = true.
Proof.
  intros (Ha & Hs & Hg) (Hd & Ha' & Hs'). unfold in_u64, in_u32, U32_MAX in *.
  assert (forallb resource_wf (virtio_resources d) = true) as Hr.
  { cbn [virtio_resources forallb resource_wf]. rewrite !andb_true_r, !andb_true_iff, !in_range_iff.
    unfold U32_MAX. lia. }
  split; [|done]. unfold virtio_term. cbn [aml_wf forallb]. rewrite Hr.
  rewrite (proj2 (in_range_iff (gsi d - 5) U32_MAX)) by (unfold U32_MAX; lia).
  unfold path_wf at 1. cbn [name_parts forallb]. rewrite virtio_name_digits by lia.
  unfold is_name_seg. cbn [length Nat.eqb forallb]. unfold is_name_char at 2 3 4, is_ascii_digit.
  repeat (match goal with |- context [(?a <=? ?b) && (?c <=? ?e)] =>
    rewrite (proj2 (Z.leb_le a b)), (proj2 (Z.leb_le c e)) by zlia end; cbn [andb]).
  rewrite !orb_true_r. done.
Qed.

Lemma virtio_terms_encode devices :
  Forall entry_typed devices → Forall describable devices →
  append_virtio_devices devices = append_all to_aml_bytes (map virtio_term devices) ∧
  ∃ e, append_all to_aml_bytes (map virtio_term devices) = Ok e ∧
    length e = (71 * length devices)%nat.
Proof.
  intros Ht Hd. induction Ht as [|d devices Htd Ht IH]; [by split; [|exists []]|].
  apply Forall_cons in Hd as [Hdd Hd]. destruct (IH Hd) as (E & e & He & Hl). clear IH.
  change (append_all to_aml_bytes (map virtio_term (d :: devices))) with
    (append (to_aml_bytes (virtio_term d)) (append_all to_aml_bytes (map virtio_term devices))).
  cbn [append_virtio_devices]. unfold append_virtio_aml, append_term.
  rewrite (virtio_device_ok d Htd Hdd), E, He. split; [done|].
  unfold virtio_term. destruct Hdd as (Hg & _). rewrite virtio_name_digits by lia.
  destruct (virtio_encodes 0x56 (0x30 + (gsi d - 5) / 100) (0x30 + (gsi d - 5) / 10 mod 10)
    (0x30 + (gsi d - 5) mod 10) (gsi d - 5) (mmio_addr d) (mmio_size d) (edge_triggered d) (gsi d))
    as (x & Hx & Hlx).
  unfold virtio_resources. rewrite Hx. exists (x ++ e). split; [done|].
  rewrite length_app, Hlx, Hl. cbn [length]. lia.
Qed.

Lemma fixed_wf arity : forallb (aml_wf arity) fixed_terms = true.
Proof. by vm_compute. Qed.

Lemma guest_device_virtio d :
  entry_typed d → describable d → guest_device (norm (virtio_term d)) = Some d.
Proof.
  intros Ht Hd. destruct (virtio_term_wf no_args d Ht Hd) as [_ Hr].
  destruct (append_all to_aml_bytes (virtio_resources d)) as [b|] eqn:E.
  2:{ exfalso. revert E. unfold virtio_resources. by destruct (edge_triggered d). }
  pose proof (parse_resources_template _ _ Hr E) as Hp.
  unfold virtio_term. cbn [norm map]. rewrite E. unfold guest_device, current_resources.
  change (named "_HID" _) with (Some (AmlString (bytes_of "LNRO0005"))).
  match goal with |- context [named "_CRS" ?l] =>
    change (named "_CRS" l) with (Some (Buffer (b ++ [0x79; 0]))) end.
  cbv beta iota. rewrite bool_decide_eq_true_2, Hp by done. by destruct d.
Qed.

Lemma guest_device_fixed : omap guest_device (map norm fixed_terms) = [].
Proof. by vm_compute. Qed.

End terms.

Section block.

Lemma build_dsdt_terms devices :
  Forall entry_typed devices → Forall describable devices →
  build_dsdt devices = append_all to_aml_bytes (dsdt_terms devices) ∧
  ∃ body, build_dsdt devices = Ok body ∧ length body = (300 + 71 * length devices)%nat.
Proof.
  intros Ht Hd. destruct (virtio_terms_encode devices Ht Hd) as (E & e & He & Hl).
  destruct fixed_encodes as (F & f & Hf & Hlf). unfold build_dsdt, dsdt_terms.
  rewrite append_all_app, E, F, He, Hf. split; [done|]. exists (e ++ f). split; [done|].
  rewrite length_app, Hl, Hlf. lia.
Qed.

Lemma dsdt_terms_wf arity devices :
  Forall entry_typed devices → Forall describable devices →
  forallb (aml_wf arity) (dsdt_terms devices) = true.
Proof.
  intros Ht Hd. unfold dsdt_terms. rewrite forallb_app, fixed_wf, andb_true_r.
  induction Ht as [|d devices Htd Ht IH]; [done|]. apply Forall_cons in Hd as [Hdd Hd].
  cbn [map forallb]. rewrite IH by done. by rewrite (proj1 (virtio_term_wf arity d Htd Hdd)).
Qed.

Lemma guest_virtio_terms devices :
  Forall entry_typed devices → Forall describable devices →
  omap guest_device (map norm (dsdt_terms devices)) = devices.
Proof.
  intros Ht Hd. unfold dsdt_terms. rewrite map_app, omap_app, guest_device_fixed, app_nil_r.
  induction Ht as [|d devices Htd Ht IH]; [done|]. apply Forall_cons in Hd as [Hdd Hd].
  cbn [map omap list_omap]. by rewrite guest_device_virtio, IH.
Qed.

(** The names under which the block declares its devices. *)
Lemma device_paths_terms devices :
  omap device_path (map norm (dsdt_terms devices)) =
  map (fun d => [virtio_name (gsi d - 5)]) devices ++ omap device_path (map norm fixed_terms).
Proof.
  unfold dsdt_terms. rewrite map_app, omap_app. f_equal. induction devices as [|d devices IH]; [done|].
  change (omap device_path (map norm (map virtio_term (d :: devices)))) with
    ([virtio_name (gsi d - 5)] :: omap device_path (map norm (map virtio_term devices))).
  by rewrite IH.
Qed.

Lemma device_uids_terms devices :
  Forall entry_typed devices → Forall describable devices →
  omap guest_uid (map norm (dsdt_terms devices)) = map (fun d => DWord (gsi d - 5)) devices.
Proof.
  intros Ht Hd. unfold dsdt_terms. rewrite map_app, omap_app.
  assert (omap guest_uid (map norm fixed_terms) = []) as -> by by vm_compute. rewrite app_nil_r.
  induction Ht as [|d devices Htd Ht IH]; [done|]. apply Forall_cons in Hd as [Hdd Hd].
  cbn [map omap list_omap]. rewrite IH by done. unfold guest_uid. rewrite guest_device_virtio by done. reflexivity.
Qed.

Lemma NoDup_by_gsi {A} (f : VirtioEntry → A) devices :
  (∀ d d', d ∈ devices → d' ∈ devices → f d = f d' → gsi d = gsi d') →
  NoDup (gsi <$> devices) → NoDup (map f devices).
Proof.
  intros Hf Hn. induction devices as [|d devices IH]; [constructor|].
  apply NoDup_cons in Hn as [Hni Hn]. cbn [map]. constructor.
  - intros Hin. apply list_elem_of_In, in_map_iff in Hin as (d' & He & Hin). apply list_elem_of_In in Hin.
    apply Hni, list_elem_of_fmap. exists d'. split; [|done]. apply Hf; [by left|by right|done].
  - apply IH; [|done]. intros d1 d2 H1 H2. apply Hf; by right.
Qed.

(** None of them is declared twice. *)
Lemma device_names_distinct devices :
  Forall describable devices → NoDup (gsi <$> devices) → NoDup (omap device_path (map norm (dsdt_terms devices))).
Proof.
  intros Hd Hn. rewrite device_paths_terms. rewrite Forall_forall in Hd. apply NoDup_app. split_and!.
  - apply NoDup_by_gsi; [|done]. intros d d' H1%Hd H2%Hd Hname. destruct H1 as [H1 _], H2 as [H2 _].
    assert (virtio_name (gsi d - 5) = virtio_name (gsi d' - 5)) as Hv by congruence.
    apply virtio_name_inj in Hv; lia.
  - intros x Hx Hf. apply list_elem_of_In, in_map_iff in Hx as (d & <- & Hin). apply list_elem_of_In, Hd in Hin.
    destruct Hin as [Hg _]. rewrite virtio_name_digits in Hf by lia.
    revert Hf. generalize ((gsi d - 5) / 100) as a, ((gsi d - 5) / 10 mod 10) as b, ((gsi d - 5) mod 10) as c.
    intros a b c Hf. vm_compute in Hf. apply list_elem_of_In in Hf. cbn in Hf.
    repeat (destruct Hf as [Hf|Hf]; [discriminate Hf|]). done.
  - refine (bool_decide_unpack _ _). vm_compute. exact I.
Qed.

Lemma append_virtio_refused devices :
  Forall entry_typed devices → ¬ Forall describable devices →
  ∃ e, append_virtio_devices devices = Err e.
Proof.
  intros Ht Hd. induction Ht as [|d devices Htd Ht IH]; [by destruct Hd|].
  cbn [append_virtio_devices]. destruct (append_virtio_aml d) as [x|e] eqn:E; [|by exists e].
  destruct IH as [e He].
  { intros Hall. apply Hd. constructor; [|done].
    destruct (decide (5 ≤ gsi d ≤ 1004 ∧ mmio_addr d ≤ U32_MAX ∧ mmio_size d ≤ U32_MAX)); [done|].
    destruct (virtio_device_refused d Htd) as [e He]; [done|congruence]. }
  exists e. unfold append. by rewrite He.
Qed.

End block.

(** C24: the definition block enumerates the devices. For every list of
    devices AML can describe (numbers of at most three digits, 32-bit
    ranges) the block is built, and the guest that parses it finds exactly
    those devices, in order, with the memory range, the interrupt and its
    trigger mode the VMM wired. If their interrupts are different, then no two
    devices the guest finds in the block, the legacy ones included, are
    declared under the same name, and each virtio device has a unique id of
    its own. Any other list is refused. *)
Theorem dsdt_enumerates_devices devices :
  Forall entry_typed devices →
  (Forall describable devices →
   ∃ body ts, build_dsdt devices = Ok body ∧ parse_block no_args body = Some ts ∧
     guest_virtio body = Some devices ∧
     (NoDup (gsi <$> devices) →
      NoDup (omap device_path ts) ∧ NoDup (omap guest_uid ts) ∧
      length (omap guest_uid ts) = length devices)) ∧
  (¬ Forall describable devices → ∃ e, build_dsdt devices = Err e).
Proof.
  intros Ht. split.
  - intros Hd. destruct (build_dsdt_terms devices Ht Hd) as (E & body & Hbody & _).
    assert (parse_block no_args body = Some (map norm (dsdt_terms devices))) as Hparse.
    { apply (parse_block_terms no_args); [by apply dsdt_terms_wf|congruence]. }
    exists body, (map norm (dsdt_terms devices)). split_and!; [done|done| |].
    + unfold guest_virtio. by rewrite Hparse, guest_virtio_terms.
    + intros Hn. rewrite device_uids_terms by done. rewrite length_map.
      split_and!; [by apply device_names_distinct| |done].
      apply NoDup_by_gsi; [|done]. intros d d' _ _ He. injection He. lia.
  - intros Hd. destruct (append_virtio_refused devices Ht Hd) as [e He]. exists e.
    unfold build_dsdt. by rewrite He.
Qed.

Lemma dsdt_enumerates_devices_witness :
  let devices := [mkVirtioEntry 0xd0000000 0x1000 5 true; mkVirtioEntry 0xd0001000 0x1000 6 false] in
  ∃ body ts, build_dsdt devices = Ok body ∧ parse_block no_args body = Some ts ∧
    guest_virtio body = Some devices ∧ NoDup (omap device_path ts).
Proof.
  intros devices. destruct (proj1 (dsdt_enumerates_devices devices
    ltac:(repeat constructor; vm_compute; discriminate)) ltac:(repeat constructor; vm_compute; discriminate))
    as (body & ts & H1 & H2 & H3 & H4).
  exists body, ts. refine (conj H1 (conj H2 (conj H3 (proj1 (H4 _))))).
  refine (bool_decide_unpack _ _). vm_compute. exact I.
Defined.
