(* ===== verification/AcpiDiscover.v ===== *)
(** * The guest discovers the tables

    From the root pointer at its fixed address, the way firmware interfaces
    prescribe: every table is found, has the right signature and length and a
    zero byte sum, and carries what the VMM meant to tell. *)

From stdpp Require Import strings.
From S2P Require Import Prelude GuestMem Aml AmlParse AmlProof Acpi AcpiProof AcpiBoot DsdtProof.

(** ** The guest's side *)
Section guest.

Context {M : Type} `{!GuestMemoryBackend M}.

(** A table at an address: its header tells the length, then the signature
    and the sum are checked; the result is what follows the header. *)
Definition read_table (m : M) (a : Z) (sig : list Z) : option (list Z) :=
  match gm_read_slice m a 36 with
  | None => None
  | Some hdr =>
      let len := le_decode (slice 4 4 hdr) in
      if len <? 36 then None
      else
        match gm_read_slice m a len with
        | None => None
        | Some bs =>
            if bool_decide (take 4 bs = sig) && (byte_sum bs =? 0) then Some (drop 36 bs) else None
        end
  end.

(** The root pointer: its signature and both sums; the address of the XSDT. *)
Definition read_rsdp (m : M) (a : Z) : option Z :=
  match gm_read_slice m a 36 with
  | None => None
  | Some bs =>
      if bool_decide (take 8 bs = bytes_of "RSD PTR ") && (byte_sum (take 20 bs) =? 0) &&
        (byte_sum bs =? 0)
      then Some (le_decode (slice 24 8 bs))
      else None
  end.

(** The addresses of an XSDT. *)
Fixpoint entries (fuel : nat) (bs : list Z) : list Z :=
  match fuel, bs with
  | S fuel', _ :: _ => le_decode (take 8 bs) :: entries fuel' (drop 8 bs)
  | _, _ => []
  end.

(** The first of the listed tables with a signature. *)
Fixpoint find_table (m : M) (sig : list Z) (addrs : list Z) : option (list Z) :=
  match addrs with
  | [] => None
  | a :: addrs' =>
      match read_table m a sig with Some t => Some t | None => find_table m sig addrs' end
  end.

(** What the tables say. *)
Record AcpiView : Type := mkAcpiView {
  view_flags : Z;          (* FADT: fixed feature flags *)
  view_boot_arch : Z;      (* FADT: boot architecture flags *)
  view_lapic : Z;          (* MADT: local APIC address *)
  view_controllers : list Z;  (* MADT: interrupt controller structures *)
  view_mmconfig : Z;       (* MCFG: base of the configuration space *)
  view_dsdt : list Z;      (* DSDT: definition block *)
}.

Definition acpi_discover (m : M) : option AcpiView :=
  let?o xsdt := read_rsdp m RSDP_ADDR in
  let?o tables := read_table m xsdt (bytes_of "XSDT") in
  let addrs := entries (length tables) tables in
  let?o fadt := find_table m (bytes_of "FACP") addrs in
  let?o madt := find_table m (bytes_of "APIC") addrs in
  let?o mcfg := find_table m (bytes_of "MCFG") addrs in
  let?o dsdt := read_table m (le_decode (slice (140 - 36) 8 fadt)) (bytes_of "DSDT") in
  Some (mkAcpiView (le_decode (slice (112 - 36) 4 fadt)) (le_decode (slice (109 - 36) 2 fadt))
    (le_decode (slice 0 4 madt)) (drop 8 madt) (le_decode (slice 8 8 mcfg)) dsdt).

End guest.

(** The processors a list of interrupt controller structures enables: type,
    length, and for a local APIC (type 0) its id when the flag is set. *)
Fixpoint enabled_cpus (fuel : nat) (bs : list Z) : list Z :=
  match fuel, bs with
  | S fuel', ty :: len :: _ =>
      let rest := enabled_cpus fuel' (drop (Z.to_nat len) bs) in
      if (ty =? 0) && Z.testbit (le_decode (slice 4 4 bs)) 0
      then le_decode (slice 3 1 bs) :: rest else rest
  | _, _ => []
  end.

(** ** Memory contents *)
Section contents.

Context {M : Type} `{!GuestMemoryBackend M} `{!GuestMemoryLaws M}.
Implicit Types m : M.

(** The bytes [bs] lie at [a]. *)
Definition holds (m : M) (a : Z) (bs : list Z) : Prop :=
  ∀ (i : nat) b, bs !! i = Some b → byte_at m (a + Z.of_nat i) = Some [b].

Lemma holds_read m a bs n :
  holds m a bs → 0 < n ≤ Z.of_nat (length bs) → gm_read_slice m a n = Some (take (Z.to_nat n) bs).
Proof.
  intros H Hn. apply gm_read_iff; [lia|]. split; [rewrite length_take; lia|].
  intros i b Hb. apply lookup_take_Some in Hb as [Hb _]. by apply H.
Qed.

Lemma holds_app m a x y :
  holds m a x → holds m (a + Z.of_nat (length x)) y → holds m a (x ++ y).
Proof.
  intros Hx Hy i b Hb. apply lookup_app_Some in Hb as [Hb|[Hi Hb]]; [by apply Hx|].
  replace (a + Z.of_nat i) with (a + Z.of_nat (length x) + Z.of_nat (i - length x)) by lia.
  by apply Hy.
Qed.

Lemma holds_take m a l n : holds m a l → holds m a (take n l).
Proof. intros H i b Hb. apply lookup_take_Some in Hb as [Hb _]. by apply H. Qed.

(** [m'] is [m] with [bs] at [a]. *)
Definition updated (m : M) (a : Z) (bs : list Z) (m' : M) : Prop :=
  holds m' a bs ∧
  (∀ x, ¬ (a ≤ x < a + Z.of_nat (length bs)) → byte_at m' x = byte_at m x) ∧
  (∀ x n, gm_check_range m' x n = gm_check_range m x n).

Lemma updated_holds m a bs m' b l :
  updated m a bs m' → holds m b l →
  b + Z.of_nat (length l) ≤ a ∨ a + Z.of_nat (length bs) ≤ b → holds m' b l.
Proof.
  intros (_ & Hf & _) H Hd i x Hx. rewrite Hf; [by apply H|].
  apply lookup_lt_Some in Hx. lia.
Qed.

Lemma write_updated m a bs :
  bs ≠ [] → Forall is_byte bs → gm_check_range m a (Z.of_nat (length bs)) = true →
  (gm_write_slice m a bs).1 = true ∧ updated m a bs (gm_write_slice m a bs).2.
Proof.
  intros Hne Hb Hc. split; [by rewrite gm_write_ok|]. split; [|split].
  - intros i x Hx. by apply gm_write_read.
  - intros x Hx. by apply gm_write_frame.
  - intros. apply gm_write_check.
Qed.

Lemma updated_app m a x y m1 m2 :
  updated m a x m1 → updated m1 (a + Z.of_nat (length x)) y m2 → updated m a (x ++ y) m2.
Proof.
  intros H1 H2. destruct H1 as (Hx & Hf1 & Hc1), H2 as (Hy & Hf2 & Hc2). split; [|split].
  - apply holds_app; [|done]. intros i b Hb. rewrite Hf2; [by apply Hx|].
    apply lookup_lt_Some in Hb. lia.
  - intros z Hz. rewrite length_app in Hz. rewrite Hf2, Hf1 by lia. done.
  - intros. by rewrite Hc2, Hc1.
Qed.

(** The two shapes of [write_to_guest]. *)
Lemma write_one_updated {T} (t : T) m a bs :
  bs ≠ [] → Forall is_byte bs → gm_check_range m a (Z.of_nat (length bs)) = true →
  ∃ m', write_one t m a bs = (Ok tt, t, m') ∧ updated m a bs m'.
Proof.
  intros Hne Hb Hc. destruct (write_updated m a bs Hne Hb Hc) as [Hok Hu]. unfold write_one.
  destruct (gm_write_slice m a bs) as [ok m']; cbn [fst snd] in *. subst ok. eauto.
Qed.

Lemma write_two_updated {T} (t : T) m a h p :
  h ≠ [] → p ≠ [] → Forall is_byte h → Forall is_byte p →
  gm_check_range m a (Z.of_nat (length (h ++ p))) = true →
  ∃ m', write_two t m a h p (Z.of_nat (length h)) = (Ok tt, t, m') ∧ updated m a (h ++ p) m'.
Proof.
  intros Hh Hp Hhb Hpb Hc. rewrite length_app in Hc.
  assert (0 < Z.of_nat (length h) ∧ 0 < Z.of_nat (length p)) as [Hl1 Hl2] by (destruct h, p; simpl; try done; lia).
  destruct (write_one_updated t m a h Hh Hhb) as (m1 & E1 & U1).
  { apply (gm_check_range_sub m a (Z.of_nat (length h + length p))); [lia..|done]. }
  unfold write_two. rewrite E1.
  pose proof (gm_check_range_u64_bound m a (Z.of_nat (length h + length p)) ltac:(lia) Hc) as [Ha Hmax].
  unfold u64_checked_add. destruct (Z.leb_spec (a + Z.of_nat (length h)) U64_MAX); [|lia].
  destruct (write_one_updated t m1 (a + Z.of_nat (length h)) p Hp Hpb) as (m2 & E2 & U2).
  { destruct U1 as (_ & _ & ->).
    apply (gm_check_range_sub m a (Z.of_nat (length h + length p))); [lia..|done]. }
  rewrite E2. exists m2. split; [done|]. by eapply updated_app.
Qed.

Lemma read_table_holds m a sig sig' bs :
  valid_table sig bs → holds m a bs →
  read_table m a sig' = if bool_decide (sig = sig') then Some (drop 36 bs) else None.
Proof.
  intros (Hsig & Hlen & Hf & Hs & _) H. unfold read_table. rewrite (holds_read m a bs 36) by (done || lia).
  change (Z.to_nat 36) with 36%nat.
  assert (slice 4 4 (take 36 bs) = slice 4 4 bs) as ->.
  { rewrite <- (take_drop 36 bs) at 2. rewrite slice_app_l; [done|]. rewrite length_take. lia. }
  rewrite Hf. destruct (Z.ltb_spec (Z.of_nat (length bs)) 36); [lia|].
  rewrite (holds_read m a bs) by (done || lia). rewrite Nat2Z.id, (take_ge bs) by done.
  rewrite Hsig, Hs, andb_true_r. done.
Qed.

Lemma find_table_hit m a sig bs addrs :
  valid_table sig bs → holds m a bs → find_table m sig (a :: addrs) = Some (drop 36 bs).
Proof.
  intros Hv H. cbn [find_table]. by rewrite (read_table_holds m a sig sig bs), bool_decide_eq_true_2.
Qed.

Lemma find_table_miss m a sig sig' bs addrs :
  valid_table sig bs → holds m a bs → sig ≠ sig' →
  find_table m sig' (a :: addrs) = find_table m sig' addrs.
Proof.
  intros Hv H Hne. cbn [find_table].
  by rewrite (read_table_holds m a sig sig' bs), bool_decide_eq_false_2.
Qed.

End contents.

(** ** The tables of a boot *)
Section boot.

Lemma boot_ids tid : length tid = 8%nat → Forall is_byte tid → ids_ok OEM_ID tid OEM_REVISION.
Proof.
  intros. split; [done|]. split; [done|]. split; [apply string_bytes|]. split; [done|].
  unfold in_u32, OEM_REVISION, U32_MAX. lia.
Qed.

Lemma controllers_length n :
  0 ≤ n → length (interrupt_controllers n) = (12 + 8 * Z.to_nat n)%nat ∧
  Forall is_byte (interrupt_controllers n).
Proof.
  intros Hn. unfold interrupt_controllers.
  assert (∀ l : list Z, length (l ≫= fun i => Madt.local_apic_bytes (Madt.local_apic_new i)) = (8 * length l)%nat ∧
    Forall is_byte (l ≫= fun i => Madt.local_apic_bytes (Madt.local_apic_new i))) as H.
  { induction l as [|i l [IH1 IH2]]; [done|]. rewrite bind_cons. split.
    - rewrite length_app. unfold Madt.local_apic_bytes at 1. rewrite !length_app, !length_le_encode.
      rewrite IH1. cbn [length]. lia.
    - apply Forall_app. split; [|done]. unfold Madt.local_apic_bytes. rewrite !Forall_app. auto with tarit. }
  destruct (H (seqZ 0 n)) as [H1 H2]. split.
  - rewrite length_app, H1, length_seqZ. done.
  - apply Forall_app. split; [|done]. unfold Madt.io_apic_bytes. rewrite !Forall_app. auto 10 with tarit.
Qed.

Lemma boot_madt_valid n : 0 ≤ n ≤ 255 → valid_table (bytes_of "APIC") (madt_table (boot_madt n)).
Proof.
  intros Hn. destruct (controllers_length n) as [Hl Hb]; [lia|]. apply madt_valid; [|done|].
  - by apply boot_ids; [|apply string_bytes].
  - unfold U32_MAX. lia.
Qed.

Lemma boot_fadt_valid : valid_table (bytes_of "FACP") (Fadt.bytes (fadt_written boot_fadt)).
Proof.
  eapply fadt_valid; [|split; [reflexivity|split; [done|]]].
  - by apply boot_ids; [|apply string_bytes].
  - apply Forall_app. split; [apply string_bytes|]. repeat constructor; unfold is_byte; lia.
Qed.

Lemma enabled_cpus_local l fuel :
  Forall is_byte l → (length l ≤ fuel)%nat →
  enabled_cpus fuel (l ≫= fun i => Madt.local_apic_bytes (Madt.local_apic_new i)) = l.
Proof.
  intros Hl. revert fuel. induction Hl as [|i l Hi _ IH]; intros fuel Hf; [by destruct fuel|].
  destruct fuel as [|fuel]; [simpl in Hf; lia|]. rewrite bind_cons.
  change (Madt.local_apic_bytes (Madt.local_apic_new i)) with [0; 8; i mod 256; i mod 256; 1; 0; 0; 0].
  rewrite Z.mod_small by apply Hi.
  change (enabled_cpus (S fuel) ([0; 8; i; i; 1; 0; 0; 0] ++ ?r)) with ((i + 256 * 0) :: enabled_cpus fuel r).
  rewrite IH by (simpl in Hf; lia). f_equal. lia.
Qed.

(** Each processor is listed once, enabled, with its own id. *)
Lemma enabled_cpus_all n :
  0 ≤ n ≤ 255 → enabled_cpus (length (interrupt_controllers n)) (interrupt_controllers n) = seqZ 0 n.
Proof.
  intros Hn. destruct (controllers_length n) as [-> _]; [lia|]. unfold interrupt_controllers.
  change (enabled_cpus (12 + 8 * Z.to_nat n) (Madt.io_apic_bytes (Madt.io_apic_new 0 IOAPIC_ADDR) ++ ?r))
    with (enabled_cpus (11 + 8 * Z.to_nat n) r).
  apply enabled_cpus_local; [|rewrite length_seqZ; lia].
  apply Forall_forall. intros i Hi. apply elem_of_seqZ in Hi. unfold is_byte. lia.
Qed.

Context {M : Type} `{!GuestMemoryBackend M} `{!GuestMemoryLaws M}.
Implicit Types m : M.

(** Where the tables may be: the range the fixed addresses share. *)
Definition table_area (m : M) : Prop := gm_check_range m 0xe0000 0x6000 = true.

Lemma table_area_sub m a n :
  table_area m → 0xe0000 ≤ a → 0 < n → a + n ≤ 0xe6000 → gm_check_range m a n = true.
Proof. intros H ? ? ?. by apply (gm_check_range_sub m 0xe0000 0x6000); [lia..|]. Qed.

Lemma dsdt_write m body :
  table_area m → body ≠ [] → Forall is_byte body → Z.of_nat (length body) ≤ 0x2000 - 36 →
  ∃ m', write_to_guest (boot_dsdt body) m dsdt_addr = (Ok tt, boot_dsdt body, m') ∧
    updated m dsdt_addr (dsdt_table (boot_dsdt body)) m'.
Proof.
  intros Hm Hne Hb Hl. set (d := boot_dsdt body).
  assert (length (header_bytes (Dsdt.header d)) = 36%nat) as Hh by done.
  assert (Forall is_byte (dsdt_table d)) as Hd.
  { apply dsdt_valid; [by apply boot_ids; [|apply string_bytes]|done|unfold U32_MAX; lia]. }
  apply Forall_app in Hd as [Hhb _]. cbn [write_to_guest dsdt_sdt]. unfold Dsdt.write.
  replace SDT_HEADER_SIZE with (Z.of_nat (length (header_bytes (Dsdt.header d)))) by by rewrite Hh.
  apply write_two_updated; [by destruct (header_bytes (Dsdt.header d))|done..|].
  rewrite length_app, Hh. change (Dsdt.definition_block d) with body.
  apply table_area_sub; [done|..]; unfold dsdt_addr; lia.
Qed.

Lemma madt_write m n :
  table_area m → 0 ≤ n ≤ 255 →
  ∃ m', write_to_guest (boot_madt n) m madt_addr = (Ok tt, boot_madt n, m') ∧
    updated m madt_addr (madt_table (boot_madt n)) m'.
Proof.
  intros Hm Hn. set (t := boot_madt n). destruct (controllers_length n) as [Hcl Hcb]; [lia|].
  assert (length (Madt.madt_header_bytes (Madt.header t)) = 44%nat) as Hh by done.
  assert (Forall is_byte (madt_table t)) as Hd by by apply boot_madt_valid.
  apply Forall_app in Hd as [Hhb _]. cbn [write_to_guest madt_sdt]. unfold Madt.write.
  replace Madt.MADT_HEADER_SIZE with (Z.of_nat (length (Madt.madt_header_bytes (Madt.header t))))
    by by rewrite Hh.
  apply write_two_updated; [by destruct (Madt.madt_header_bytes (Madt.header t))| |done..|].
  - intros E. change (Madt.interrupt_controllers t) with (interrupt_controllers n) in E.
    rewrite E in Hcl. simpl in Hcl. lia.
  - rewrite length_app, Hh. change (Madt.interrupt_controllers t) with (interrupt_controllers n).
    apply table_area_sub; [done|..]; unfold madt_addr; lia.
Qed.

Lemma fadt_write m :
  table_area m →
  ∃ m', write_to_guest boot_fadt m fadt_addr = (Ok tt, fadt_written boot_fadt, m') ∧
    updated m fadt_addr (Fadt.bytes (fadt_written boot_fadt)) m'.
Proof.
  intros Hm. apply write_one_updated; [done|apply boot_fadt_valid|]. by apply table_area_sub.
Qed.

Lemma mcfg_write m :
  table_area m →
  ∃ m', write_to_guest boot_mcfg m mcfg_addr = (Ok tt, boot_mcfg, m') ∧
    updated m mcfg_addr (Mcfg.bytes boot_mcfg) m'.
Proof.
  intros Hm. apply write_one_updated; [done| |by apply table_area_sub].
  apply mcfg_valid. by apply boot_ids; [|apply string_bytes].
Qed.

Lemma xsdt_write m :
  table_area m →
  ∃ m', write_to_guest boot_xsdt m xsdt_addr = (Ok tt, boot_xsdt, m') ∧
    updated m xsdt_addr (xsdt_table boot_xsdt) m'.
Proof.
  intros Hm.
  assert (Forall is_byte (xsdt_table boot_xsdt)) as Hb.
  { apply xsdt_valid; [by apply boot_ids; [|apply string_bytes]|done]. }
  apply Forall_app in Hb as [Hh Ht].
  apply (write_two_updated boot_xsdt m xsdt_addr (header_bytes (Xsdt.header boot_xsdt)) (Xsdt.tables boot_xsdt));
    [done..|]. by apply table_area_sub.
Qed.

Lemma rsdp_write m :
  table_area m →
  ∃ m', write_to_guest boot_rsdp m RSDP_ADDR = (Ok tt, boot_rsdp, m') ∧
    updated m RSDP_ADDR (Rsdp.bytes boot_rsdp) m'.
Proof.
  intros Hm. apply write_one_updated; [done| |by apply table_area_sub].
  apply rsdp_valid; [done|apply string_bytes|done].
Qed.

(** What the six writes leave in memory; of the DSDT, the page before the FADT. *)
Record boot_tables (m : M) (nr_vcpus : Z) (body : list Z) : Prop := {
  bt_dsdt : holds m dsdt_addr (take 4096 (dsdt_table (boot_dsdt body)));
  bt_fadt : holds m fadt_addr (Fadt.bytes (fadt_written boot_fadt));
  bt_madt : holds m madt_addr (madt_table (boot_madt nr_vcpus));
  bt_mcfg : holds m mcfg_addr (Mcfg.bytes boot_mcfg);
  bt_xsdt : holds m xsdt_addr (xsdt_table boot_xsdt);
  bt_rsdp : holds m RSDP_ADDR (Rsdp.bytes boot_rsdp);
}.

Lemma table_area_updated m a bs m' : updated m a bs m' → table_area m → table_area m'.
Proof. intros (_ & _ & H) Hm. unfold table_area. by rewrite H. Qed.

Lemma madt_length n : 0 ≤ n → length (madt_table (boot_madt n)) = (56 + 8 * Z.to_nat n)%nat.
Proof.
  intros Hn. unfold madt_table. rewrite length_app.
  change (length (Madt.madt_header_bytes (Madt.header (boot_madt n)))) with 44%nat.
  change (Madt.interrupt_controllers (boot_madt n)) with (interrupt_controllers n).
  destruct (controllers_length n Hn) as [-> _]. lia.
Qed.

Lemma dsdt_length body : length (dsdt_table (boot_dsdt body)) = (36 + length body)%nat.
Proof. unfold dsdt_table. by rewrite length_app. Qed.

Lemma boot_writes m nr_vcpus devices body :
  table_area m → build_dsdt devices = Ok body → body ≠ [] → Forall is_byte body →
  Z.of_nat (length body) ≤ 0x2000 - 36 → 0 ≤ nr_vcpus ≤ 255 →
  ∃ m', write_acpi_tables_with_devices m nr_vcpus devices = (Ok tt, m') ∧
    boot_tables m' nr_vcpus body ∧ table_area m' ∧
    ∀ x, ¬ (0xe0000 ≤ x < 0xe6000) → byte_at m' x = byte_at m x.
Proof.
  intros Hm Hbody Hne Hb Hl Hn. unfold write_acpi_tables_with_devices. rewrite Hbody.
  destruct (dsdt_write m body Hm Hne Hb Hl) as (m1 & W1 & U1).
  pose proof (table_area_updated _ _ _ _ U1 Hm) as Hm1. destruct (fadt_write m1 Hm1) as (m2 & W2 & U2).
  pose proof (table_area_updated _ _ _ _ U2 Hm1) as Hm2. destruct (madt_write m2 nr_vcpus Hm2 Hn) as (m3 & W3 & U3).
  pose proof (table_area_updated _ _ _ _ U3 Hm2) as Hm3. destruct (mcfg_write m3 Hm3) as (m4 & W4 & U4).
  pose proof (table_area_updated _ _ _ _ U4 Hm3) as Hm4. destruct (xsdt_write m4 Hm4) as (m5 & W5 & U5).
  pose proof (table_area_updated _ _ _ _ U5 Hm4) as Hm5. destruct (rsdp_write m5 Hm5) as (m6 & W6 & U6).
  pose proof (table_area_updated _ _ _ _ U6 Hm5) as Hm6. exists m6.
  unfold then_write. rewrite W1, W2, W3, W4, W5, W6. split; [done|].
  pose proof (madt_length nr_vcpus ltac:(lia)) as Hlm. pose proof (dsdt_length body) as Hld.
  assert (length (Fadt.bytes (fadt_written boot_fadt)) = 276%nat) as Hlf by done.
  assert (length (Mcfg.bytes boot_mcfg) = 60%nat) as Hlc by done.
  assert (length (xsdt_table boot_xsdt) = 60%nat) as Hlx by done.
  assert (length (Rsdp.bytes boot_rsdp) = 36%nat) as Hlr by done.
  split; [|split; [done|]].
  - pose proof (holds_take m1 dsdt_addr _ 4096 (proj1 U1)).
    assert (length (take 4096 (dsdt_table (boot_dsdt body))) ≤ 4096)%nat by (rewrite length_take; lia).
    pose proof (proj1 U2). pose proof (proj1 U3). pose proof (proj1 U4).
    pose proof (proj1 U5). pose proof (proj1 U6).
    split; unfold dsdt_addr, fadt_addr, madt_addr, mcfg_addr, xsdt_addr, RSDP_ADDR in *;
      repeat (done || (eapply updated_holds; [eassumption| |lia])).
  - intros x Hx. unfold dsdt_addr, fadt_addr, madt_addr, mcfg_addr, xsdt_addr, RSDP_ADDR in *.
    destruct U1 as (_ & F1 & _), U2 as (_ & F2 & _), U3 as (_ & F3 & _), U4 as (_ & F4 & _),
      U5 as (_ & F5 & _), U6 as (_ & F6 & _).
    by rewrite F6, F5, F4, F3, F2, F1 by lia.
Qed.

(** Discovery up to the DSDT, which the FADT points to. *)
Lemma boot_discovers m nr_vcpus body :
  boot_tables m nr_vcpus body → 0 ≤ nr_vcpus ≤ 255 →
  acpi_discover m =
  match read_table m dsdt_addr (bytes_of "DSDT") with
  | Some dsdt =>
      Some (mkAcpiView 0x100030 4 LAPIC_ADDR (interrupt_controllers nr_vcpus) PCI_MMCONFIG_START dsdt)
  | None => None
  end.
Proof.
  intros [_ Hf Hm Hc Hx Hr] Hn. unfold acpi_discover.
  assert (read_rsdp m RSDP_ADDR = Some xsdt_addr) as ->.
  { unfold read_rsdp. rewrite (holds_read m RSDP_ADDR _ 36 Hr) by done. by vm_compute. }
  assert (ids_ok OEM_ID (bytes_of "IVMMXSDT") OEM_REVISION) as Hxi by (by apply boot_ids; [|apply string_bytes]).
  rewrite (read_table_holds m xsdt_addr (bytes_of "XSDT") _ (xsdt_table boot_xsdt)) by (done || by apply xsdt_valid).
  rewrite bool_decide_eq_true_2 by done.
  change (entries (length (drop 36 (xsdt_table boot_xsdt))) (drop 36 (xsdt_table boot_xsdt)))
    with [fadt_addr; madt_addr; mcfg_addr].
  pose proof boot_fadt_valid as Hfv. pose proof (boot_madt_valid nr_vcpus Hn) as Hmv.
  assert (valid_table (bytes_of "MCFG") (Mcfg.bytes boot_mcfg)) as Hcv.
  { apply mcfg_valid. by apply boot_ids; [|apply string_bytes]. }
  rewrite (find_table_hit m fadt_addr (bytes_of "FACP") _ _ Hfv Hf).
  rewrite (find_table_miss m fadt_addr (bytes_of "FACP") (bytes_of "APIC") _ _ Hfv Hf) by done.
  rewrite (find_table_hit m madt_addr (bytes_of "APIC") _ _ Hmv Hm).
  rewrite (find_table_miss m fadt_addr (bytes_of "FACP") (bytes_of "MCFG") _ _ Hfv Hf) by done.
  rewrite (find_table_miss m madt_addr (bytes_of "APIC") (bytes_of "MCFG") _ _ Hmv Hm) by done.
  rewrite (find_table_hit m mcfg_addr (bytes_of "MCFG") _ _ Hcv Hc).
  change (le_decode (slice (140 - 36) 8 (drop 36 (Fadt.bytes (fadt_written boot_fadt))))) with dsdt_addr.
  by destruct (read_table m dsdt_addr (bytes_of "DSDT")).
Qed.

Lemma boot_dsdt_valid body :
  Forall is_byte body → Z.of_nat (length body) ≤ 0x2000 - 36 →
  valid_table (bytes_of "DSDT") (dsdt_table (boot_dsdt body)).
Proof.
  intros Hb Hl. apply dsdt_valid; [by apply boot_ids; [|apply string_bytes]|done|unfold U32_MAX; lia].
Qed.

(** A DSDT of at most a page is read back. *)
Lemma boot_dsdt_read m nr_vcpus body :
  boot_tables m nr_vcpus body → Forall is_byte body → Z.of_nat (length body) ≤ 4060 →
  read_table m dsdt_addr (bytes_of "DSDT") = Some body.
Proof.
  intros [Hd _ _ _ _ _] Hb Hl. rewrite take_ge in Hd by (rewrite dsdt_length; lia).
  pose proof (boot_dsdt_valid body Hb ltac:(lia)) as Hv.
  by rewrite (read_table_holds m dsdt_addr _ (bytes_of "DSDT") _ Hv Hd), bool_decide_eq_true_2.
Qed.

End boot.

(** The memory after a boot with a describable set of devices. *)
Lemma boot_memory {M : Type} `{!GuestMemoryBackend M} `{!GuestMemoryLaws M}
    (m : M) nr_vcpus devices :
  table_area m → 0 ≤ nr_vcpus ≤ 255 → Forall entry_typed devices → Forall describable devices →
  (length devices ≤ 110)%nat →
  ∃ m' body, write_acpi_tables_with_devices m nr_vcpus devices = (Ok tt, m') ∧
    build_dsdt devices = Ok body ∧ length body = (300 + 71 * length devices)%nat ∧
    Forall is_byte body ∧
    boot_tables m' nr_vcpus body ∧ table_area m' ∧
    ∀ x, ¬ (0xe0000 ≤ x < 0xe6000) → byte_at m' x = byte_at m x.
Proof.
  intros Hm Hn Ht Hd Hlen. destruct (build_dsdt_terms devices Ht Hd) as (E & body & Hbody & Hl).
  assert (Forall is_byte body) as Hb.
  { eapply (children_bytes _ no_args (dsdt_terms devices)); [apply term_bytes|done| |congruence].
    by apply dsdt_terms_wf. }
  assert (body ≠ []) as Hne by (intros ->; simpl in Hl; lia).
  destruct (boot_writes m nr_vcpus devices body) as (m' & Hw & Htab & Harea & Hframe); [done..|lia|done|].
  exists m', body. do 3 (split; [done|]). auto.
Qed.

(** C12: the guest discovers what the VMM describes. For every machine with
    RAM at the area of the tables, up to 255 processors and up to 52 virtio
    devices that AML can describe (interrupts 5 to 1004, 32-bit ranges), the
    tables are written
    without error, only bytes of their area change, and the guest that
    starts at the root pointer finds every table valid: the hardware-reduced
    flags, the processors 0 to n-1 all enabled with distinct ids, the APIC
    and PCI configuration addresses, and a definition block that enumerates
    exactly the wired devices. *)
Theorem acpi_tables_discovered {M : Type} `{!GuestMemoryBackend M} `{!GuestMemoryLaws M}
    (m : M) nr_vcpus devices :
  table_area m → 0 ≤ nr_vcpus ≤ 255 → Forall entry_typed devices → Forall describable devices →
  (length devices ≤ 52)%nat →
  ∃ m' view, write_acpi_tables_with_devices m nr_vcpus devices = (Ok tt, m') ∧
    acpi_discover m' = Some view ∧
    view_flags view = 0x100030 ∧ view_boot_arch view = 4 ∧ view_lapic view = LAPIC_ADDR ∧
    view_mmconfig view = PCI_MMCONFIG_START ∧
    enabled_cpus (length (view_controllers view)) (view_controllers view) = seqZ 0 nr_vcpus ∧
    guest_virtio (view_dsdt view) = Some devices ∧
    ∀ x, ¬ (0xe0000 ≤ x < 0xe6000) → byte_at m' x = byte_at m x.
Proof.
  intros Hm Hn Ht Hd Hlen. destruct (boot_memory m nr_vcpus devices) as
    (m' & body & Hw & Hbody & Hl & Hb & Htab & _ & Hframe); [done..|lia|].
  exists m', (mkAcpiView 0x100030 4 LAPIC_ADDR (interrupt_controllers nr_vcpus) PCI_MMCONFIG_START body).
  split; [done|]. split.
  { by rewrite (boot_discovers m' nr_vcpus body Htab Hn), (boot_dsdt_read m' nr_vcpus body Htab Hb ltac:(lia)). }
  do 4 (split; [done|]).
  split; [by apply enabled_cpus_all|]. split; [|done]. cbn [view_dsdt].
  destruct (build_dsdt_terms devices Ht Hd) as (E & _).
  unfold guest_virtio. rewrite (parse_block_terms no_args (dsdt_terms devices)), guest_virtio_terms;
    [done..|by apply dsdt_terms_wf|congruence].
Qed.

(** ** The generation counter in a snapshot *)
Section vmgenid.

Lemma any_window_true pattern l i :
  (i + length pattern ≤ length l)%nat → take (length pattern) (drop i l) = pattern →
  any_window pattern l = true.
Proof.
  intros Hi H. unfold any_window. apply existsb_exists. exists i. split; [|by apply bool_decide_eq_true].
  apply in_seq. lia.
Qed.

Context {M : Type} `{!GuestMemoryBackend M} `{!GuestMemoryLaws M}.

Lemma holds_prefix (m : M) a l n bs :
  0 < n → holds m a l → gm_read_slice m a n = Some bs → Z.of_nat (length l) ≤ n →
  take (length l) bs = l.
Proof.
  intros Hn Hl Hr Hle. apply gm_read_iff in Hr as [Hlen Hr]; [|done].
  apply list_eq_same_length with (length l); [done|rewrite length_take; lia|].
  intros i x y Hi Hx Hy. apply lookup_take_Some in Hx as [Hx _].
  specialize (Hr i x Hx). specialize (Hl i y Hy). unfold byte_at in Hl. congruence.
Qed.

(** The hardware id lies in the fixed part of the block. *)
Lemma fixed_hid f :
  append append_vmgenid_aml append_legacy_aml = Ok f →
  ∃ k, (k + 8 ≤ length f)%nat ∧ take 8 (drop k f) = VMGENID_ACPI_HID.
Proof. vm_compute. intros [= <-]. exists 19%nat. split; [lia|reflexivity]. Qed.

Lemma boot_supports_snapshots (m : M) nr_vcpus devices body :
  boot_tables m nr_vcpus body → table_area m → build_dsdt devices = Ok body →
  Z.of_nat (length body) ≤ 4060 → require_snapshot_support m = Ok tt.
Proof.
  intros Ht Hm Hbody Hl. unfold require_snapshot_support.
  destruct (gm_read_total m DSDT_GPA DSDT_RESERVED_BYTES) as (bs & Hr & Hlen & _);
    [done|by apply table_area_sub|].
  rewrite Hr. pose proof (dsdt_length body) as Hld. unfold DSDT_RESERVED_BYTES in *.
  pose proof (bt_dsdt _ _ _ Ht) as Hd. rewrite take_ge in Hd by lia.
  pose proof (holds_prefix m dsdt_addr (dsdt_table (boot_dsdt body)) 0x1000 bs ltac:(lia)
    Hd Hr ltac:(lia)) as Hp.
  unfold build_dsdt in Hbody. apply append_Ok in Hbody as (e & f & _ & Hf & ->).
  destruct (fixed_hid f Hf) as (k & Hk & Hhid). rewrite length_app in Hld, Hl.
  rewrite (any_window_true _ bs (36 + (length e + k))); [done|change (length VMGENID_ACPI_HID) with 8%nat; lia|].
  rewrite <- Hhid at 2. change (length VMGENID_ACPI_HID) with 8%nat.
  rewrite <- (take_drop (length (dsdt_table (boot_dsdt (e ++ f)))) bs), Hp.
  unfold dsdt_table. change (Dsdt.definition_block (boot_dsdt (e ++ f))) with (e ++ f).
  rewrite <- !app_assoc.
  change 36%nat with (length (header_bytes (Dsdt.header (boot_dsdt (e ++ f))))).
  rewrite <- drop_drop, drop_app_length, <- drop_drop, drop_app_length.
  rewrite drop_app_le by lia. rewrite take_app_le by (rewrite length_drop; lia). done.
Qed.

End vmgenid.

(** snapshots taken after such a boot can be resumed. The probe that a
    restore makes of the snapshot's memory finds the generation counter in
    the block the boot wrote, wherever the virtio devices push it. *)
Theorem snapshot_support_after_boot {M : Type} `{!GuestMemoryBackend M} `{!GuestMemoryLaws M}
    (m : M) nr_vcpus devices :
  table_area m → 0 ≤ nr_vcpus ≤ 255 → Forall entry_typed devices → Forall describable devices →
  (length devices ≤ 52)%nat →
  ∃ m', write_acpi_tables_with_devices m nr_vcpus devices = (Ok tt, m') ∧
    require_snapshot_support m' = Ok tt.
Proof.
  intros Hm Hn Ht Hd Hlen. destruct (boot_memory m nr_vcpus devices) as
    (m' & body & Hw & Hbody & Hl & _ & Htab & Harea & _); [done..|lia|].
  exists m'. split; [done|]. apply (boot_supports_snapshots m' nr_vcpus devices body); done || lia.
Qed.

(** ** A DSDT of more than a page *)
Section overflow.

Context {M : Type} `{!GuestMemoryBackend M} `{!GuestMemoryLaws M}.

(** The last bytes of the fixed part: an interrupt number's high byte, the end
    tag and its checksum. *)
Lemma fixed_tail f :
  append append_vmgenid_aml append_legacy_aml = Ok f → length f = 300%nat ∧ drop 297 f = [0; 0x79; 0].
Proof. vm_compute. intros [= <-]. done. Qed.

(** Three bytes of the DSDT replaced by the signature of the FADT. *)
Lemma overlapped_sum l t :
  byte_sum (l ++ [0; 0x79; 0]) = 0 → t = [0x46; 0x41; 0x43] → byte_sum (l ++ t) = 81.
Proof. intros H ->. unfold byte_sum in *. rewrite sum_app in *. cbn [foldr] in *. zlia. Qed.

Lemma overlapped_dsdt_rejected (m : M) nr_vcpus devices body :
  boot_tables m nr_vcpus body → build_dsdt devices = Ok body → Forall is_byte body →
  length body = 4063%nat → read_table m dsdt_addr (bytes_of "DSDT") = None.
Proof.
  intros [Hd Hf _ _ _ _] Hbody Hb Hl. pose proof (dsdt_length body) as Hlen.
  destruct (boot_dsdt_valid body Hb ltac:(lia)) as (Hsig & _ & Hfield & Hsum & _).
  set (t := dsdt_table (boot_dsdt body)) in *. rewrite Hl in Hlen.
  assert (drop 4096 t = [0; 0x79; 0]) as Htail.
  { unfold build_dsdt in Hbody. apply append_Ok in Hbody as (e & f & _ & Hfix & ->).
    destruct (fixed_tail f Hfix) as [Hlf Htl]. rewrite length_app in Hl. rewrite <- Htl.
    change t with (header_bytes (Dsdt.header (boot_dsdt (e ++ f))) ++ e ++ f).
    rewrite app_assoc, drop_app_ge by (rewrite length_app; change (length (header_bytes _)) with 36%nat; lia).
    f_equal. rewrite length_app. change (length (header_bytes _)) with 36%nat. lia. }
  assert (length (take 4096 t) = 4096%nat) as Hpage by (rewrite length_take; lia).
  pose proof (holds_app m dsdt_addr (take 4096 t) (Fadt.bytes (fadt_written boot_fadt)) Hd) as Hboth.
  rewrite Hpage in Hboth. specialize (Hboth Hf).
  set (fadt := Fadt.bytes (fadt_written boot_fadt)) in *.
  assert (length fadt = 276%nat) as Hlf by done.
  unfold read_table. rewrite (holds_read m dsdt_addr _ 36 Hboth) by (rewrite length_app, Hpage; lia).
  change (Z.to_nat 36) with 36%nat. rewrite take_app_le, take_take by lia.
  change (36 `min` 4096)%nat with 36%nat.
  assert (slice 4 4 (take 36 t) = slice 4 4 t) as ->.
  { rewrite <- (take_drop 36 t) at 2. rewrite slice_app_l; [done|]. rewrite length_take. lia. }
  rewrite Hfield, Hlen. change (Z.of_nat (36 + 4063)) with 4099. cbn [Z.ltb Z.compare].
  rewrite (holds_read m dsdt_addr _ 4099 Hboth) by (rewrite length_app, Hpage; lia).
  change (Z.to_nat 4099) with 4099%nat. rewrite take_app_ge, Hpage by lia.
  rewrite (overlapped_sum (take 4096 t)); [by rewrite andb_false_r| |done].
  by rewrite <- Htail, take_drop.
Qed.

(** Nothing checks that the DSDT fits the page before the FADT. With 53
    devices the boot reports success, but the FADT has overwritten the end of
    the definition block, and the guest rejects the table. *)
Lemma dsdt_overflow_unreadable (m : M) nr_vcpus devices :
  table_area m → 0 ≤ nr_vcpus ≤ 255 → Forall entry_typed devices → Forall describable devices →
  length devices = 53%nat →
  ∃ m', write_acpi_tables_with_devices m nr_vcpus devices = (Ok tt, m') ∧ acpi_discover m' = None.
Proof.
  intros Hm Hn Ht Hd Hlen. destruct (boot_memory m nr_vcpus devices) as
    (m' & body & Hw & Hbody & Hl & Hb & Htab & _); [done..|lia|].
  exists m'. split; [done|].
  by rewrite (boot_discovers m' nr_vcpus body Htab Hn), (overlapped_dsdt_rejected m' nr_vcpus devices body)
    by (done || lia).
Qed.

End overflow.

(** ** Concrete machines *)
Definition example_area : gmap Z Z := ByteMap.zeros 0xe0000 0x6000.

Definition example_device (slot : Z) : VirtioEntry :=
  mkVirtioEntry (0xd0000000 + slot * 0x1000) 0x1000 (5 + slot) true.

Lemma example_area_ok : table_area example_area.
Proof.
  apply gm_check_range_iff; [lia|]. intros i Hi. apply bm_zeros_check; unfold U64_MAX; lia.
Qed.

Lemma example_devices_ok n :
  0 ≤ n ≤ 100 → Forall entry_typed (example_device <$> seqZ 0 n) ∧
  Forall describable (example_device <$> seqZ 0 n).
Proof.
  intros Hn. split; apply Forall_fmap, Forall_forall; intros i Hi; apply elem_of_seqZ in Hi; cbn.
  - unfold entry_typed, in_u64, in_u32, U64_MAX, U32_MAX. cbn. lia.
  - unfold describable, U32_MAX. cbn. lia.
Qed.

Lemma acpi_tables_discovered_witness :
  ∃ m' view, write_acpi_tables_with_devices example_area 4 (example_device <$> seqZ 0 3) = (Ok tt, m') ∧
    acpi_discover m' = Some view ∧ guest_virtio (view_dsdt view) = Some (example_device <$> seqZ 0 3).
Proof.
  destruct (acpi_tables_discovered example_area 4 (example_device <$> seqZ 0 3)) as
    (m' & view & Hw & Hv & _ & _ & _ & _ & _ & Hd & _);
    [exact example_area_ok|lia|apply example_devices_ok; lia..|vm_compute; lia|].
  exists m', view. auto.
Defined.

Lemma snapshot_support_after_boot_witness :
  ∃ m', write_acpi_tables_with_devices example_area 1 (example_device <$> seqZ 0 52) = (Ok tt, m') ∧
    require_snapshot_support m' = Ok tt.
Proof.
  apply (snapshot_support_after_boot example_area 1 (example_device <$> seqZ 0 52));
    [exact example_area_ok|lia|apply example_devices_ok; lia..|vm_compute; lia].
Defined.

